(* ===== verification/_CoqProject ===== *)
-Q . S2P
Prelude.v
Endianconv.v
Intset.v
Gf2.v
Crc64.v
Crc16.v
Fwtree.v
Rand.v
Numstr.v
Glob.v
Lzf.v
Sds.v
SdsText.v
Object.v
Rio.v
Rdb.v
RdbSpec.v
Bitops.v
Zskiplist.v
ZskiplistInv.v
ZskiplistOps.v
ZskiplistRank.v
ZskiplistRange.v
ZskiplistSpec.v
Dict.v
DictOps.v
DictScan.v
Listpack.v
ListpackCodec.v
ListpackNav.v
ListpackSafe.v
ListpackOps.v
ListpackBulk.v
ListpackSpec.v
Zset.v
ZsetSpec.v
Adlist.v
AdlistSpec.v
Sha256.v
Localtime.v
Sha1.v
