(* ===== verification/Prelude.v ===== *)
(** * The data structures of Redis, verified

    This library models the parts of Redis (the C program under
    [src/local-redis/redis-stable/src]) that hold its data in memory and turn
    it into bytes, and proves them correct. The web application of the
    repository keeps its state in that server; its own code, in other
    languages, is not modelled.

    ** The program and its parts

    A Redis server is a map from keys to values. Keys and values are dynamic
    strings ([sds.c]), wrapped in objects ([object.c]) that may hold a small
    integer in place of the text, and serve as bitmaps ([bitops.c]); the maps
    are hash tables that grow and shrink while they are used ([dict.c]); small
    collections are packed in one allocation, sets of integers in intsets
    ([intset.c]), everything else in listpacks ([listpack.c]); a large sorted
    set is a skip list in the order of the scores together with a hash table
    from the names to the nodes ([t_zset.c]). The server keeps its own queues
    in doubly linked lists ([adlist.c]). SCAN walks a hash table with a cursor; KEYS and
    the subscriptions match glob patterns ([util.c]); a cluster maps a key to a
    slot by its CRC-16 ([crc16.c], [cluster.h]) and counts the keys of the
    slots in a Fenwick tree ([fwtree.c]). Snapshots and DUMP payloads are
    written to streams ([rio.c]) in the RDB format ([rdb.c]), strings as
    integers, compressed with LZF ([lzf_c.c], [lzf_d.c]) or verbatim, under a
    CRC-64 ([crc64.c], [crcspeed.c], [crccombine.c]). Commands arrive as text
    that [sds.c] splits in arguments, and numbers are printed and parsed by
    [util.c]; passwords and scripts are known by their digests ([sha256.c],
    [sha1.c]), and the log has dates ([localtime.c]).

    ** The files

    - [Prelude]: machine integers at their width ([wrapU], [wrapS], [inU],
      [inS]), memory as lists of bytes with checked accesses ([rd], [mload],
      [mstore], [mmove], [mrealloc]), little endian numbers, the interface of
      the allocator, the tactics and hints of the development.
    - [Endianconv] ([endianconv.c]), [Rand] ([rand.c]), [Fwtree]
      ([fwtree.c]), [Numstr] and [Glob] ([util.c]), [Lzf] ([lzf_c.c],
      [lzf_d.c]), [Intset] ([intset.c], [intset.h]).
    - [Gf2]: linear functions on words, for [Crc64] ([crc64.c], [crcspeed.c],
      [crccombine.c]) and [Crc16] ([crc16.c], and [keyHashSlot] of
      [cluster.h]), and for the cursors of [DictScan].
    - [Sds] ([sds.c], [sds.h]) and, on its interface [SdsImpl], [SdsText] (the
      quoting and splitting functions of [sds.c]).
    - [Object] ([object.c]: objects of type string) and [Bitops] ([bitops.c]:
      strings as bitmaps).
    - [Rio] ([rio.c], [rio.h]: streams, with the interface [RioBackend] of the
      backends and the memory buffer that implements it), [Rdb] ([rdb.c]:
      lengths, integers and strings) and [RdbSpec] (their theorems).
    - [Dict] ([dict.c], [dict.h]: the model), [DictOps] (the operations
      implement finite maps), [DictScan] (the cursors).
    - [Zskiplist] ([t_zset.c]: the model of the skip list, on a heap of nodes),
      [ZskiplistInv] (its invariant and the search along the levels),
      [ZskiplistOps] (insertion, deletion, change of a score, freeing),
      [ZskiplistRank], [ZskiplistRange] (ranks and ranges), [ZskiplistSpec]
      (sessions, and the concrete instances).
    - [Zset] ([t_zset.c], with [dictSdsKeyCompare] of [server.c] and
      [createZsetObject] of [object.c]: the sorted set made of a skip list and
      a dict, and the addition of doubles) and [ZsetSpec] (the two structures
      stay in step; its theorems use only the lemmas of the two).
    - [Adlist] ([adlist.c], [adlist.h]: the model of the linked lists, on a
      heap of nodes) and [AdlistSpec] (they implement sequences).
    - [Sha256] ([sha256.c]), [Sha1] ([sha1.c]) and [Localtime]
      ([localtime.c]).
    - [Listpack] ([listpack.c], [listpack.h]: the model), [ListpackCodec] (the
      encodings), [ListpackNav] (walking), [ListpackSafe] (validation),
      [ListpackOps] and [ListpackBulk] (the operations implement lists),
      [ListpackSpec] (what clients rely on, and the concrete instances).

    ** How the code is translated

    A definition has the name of the C function or macro that it translates,
    and a loop is a [Fixpoint] beside it. An integer is a [Z] and every
    operation that can wrap is wrapped at its width; a buffer is the list of
    its bytes and a pointer into it an offset, or the list from the pointer on.
    The [option] around a result is the C program's undefined or fatal
    behaviour: an access outside of a buffer, a failed assertion, a panic. A
    theorem that a function returns [Some] therefore says that it goes nowhere
    out of bounds. What the code itself returns for an error (NULL, 0, -1, a
    reply to the client) is a value inside of it. State that the code keeps in
    static variables (the cache and the cutoffs of the checksum code, the seed
    of the generator) or in [server] is passed explicitly; the monad of [Rdb]
    threads the stream and the exit of the process through the loaders.
    Objects that the C code shares by pointer (the entries of a hash table, the
    blocks of strings) are changed in place by the code through one owner, and
    the model passes the changed value on. The nodes of the skip list and of
    the linked lists, which several pointers reach, are a heap from addresses to nodes; an allocation
    takes its address as an argument, and a read of an address that is not
    allocated is [None]. A double is the 64 bits of its encoding.

    The host is the one that the server is built for: 64-bit, little endian.

    ** What the theorems show

    - Hash tables. Every operation, the steps of incremental rehashing and the
      resizing that it makes included, keeps the invariant [dict_wf] and acts
      on the finite map that the dict stands for ([dict_repr]) as its name says.
      Rehashing ends, unless the resize policy blocks it, and then a call of it
      changes nothing. A complete scan returns every key that stays in the dict,
      however it is resized or changed between the calls.
    - Sorted sets. The skip list in memory is linked at all its levels as the
      sorted sequence of its elements, with the right spans and backward
      pointers ([skiplist]); every operation keeps it so, whatever levels are
      drawn, ranks and ranges are those of the sequence, and freeing leaves no
      node. With the hash table ([zset_repr]) the two views have the same
      elements after any sequence of ZADD with any flags, ZREM and ZREMRANGE,
      whose results are those of the sequence; ranges of names are removed from
      elements of one score, as below.
    - Linked lists. The operations keep the nodes linked both ways as a
      sequence, leave other lists alone, allocate and free exactly what they
      should; nodes can be deleted during an iteration; a duplication that
      fails leaves nothing behind.
    - Listpacks. The operations refine lists of strings and integers
      ([lp_repr]), and return NULL exactly when the result would not fit in the
      32 bits of the header. The two decoders agree. Validation of arbitrary
      bytes stays in bounds and accepts exactly the well formed listpacks
      ([lp_valid]), over which all the reading functions are correct.
    - Integer sets. Insertion and removal refine finite sets across the changes
      of encoding; validation accepts exactly the serialized sets.
    - Strings. The operations keep the representation [sds_ok], for any
      allocator, and give the bytes that they should; quoted arguments are read
      back unchanged. Objects of the three encodings stand for a string
      ([obj_str]) that conversions keep, comparisons compare and the parsers of
      arguments read exactly.
    - Bitmaps. The functions that work a word at a time agree with the list of
      the bits of the string: the count of the ones, the search of a bit, and
      the integers of any width at any bit, whose overflow is detected exactly
      (but taken for one at the other end for a value to set that is too far
      below a signed field).
    - Streams and the RDB format. What is written in chunks of one size is read
      back in chunks of another with the same checksum; every length and every
      string object is loaded as it was saved, a truncated one is refused, and
      no payload makes the loader of plain strings leave its buffers.
    - Compression: what is compressed is decompressed to the same bytes,
      whatever the uninitialised table of the compressor holds; decompression
      of any input is memory safe.
    - Checksums: the table driven, interleaved and combined CRC-64 is the bit
      by bit one, the CRC-16 is the XMODEM one, and the slot of a key is that
      of its hash tag. Digests: SHA-256 and SHA-1 of a message in pieces are
      those of the padded message. Dates: the inverse of the calendar.
    - Glob patterns: the matcher decides the meaning of the pattern given by a
      reference parser. Numbers as text: parsing accepts exactly the canonical
      decimals in range. Fenwick trees: updates and searches agree with the
      array of counters.

    A theorem that is proved against an interface is applied to a concrete
    implementation in the lemma that ends in [_witness] beside it.

    ** Hypotheses, bounds and fuel

    - The allocator ([Allocator], [AllocatorLaws]) gives blocks at least as
      large as asked for with arbitrary contents; [EmbstrLaws] says that small
      blocks are small, which the one-byte length of an embedded string relies
      on; [can_alloc] that the allocations that may fail succeed. The instance
      is [block_allocator].
    - [dictTypeLaws]: the callbacks of a dict compare keys for equality and
      hash to 64 bits. [RioLaws]: a backend returns the bytes in order, or an
      error when there are too few.
    - [SdsHash]: the keyed hash of names is any function to 64 bits. Names are
      shorter than 2^31 bytes (the server's limit is 2^29), since keys are
      compared with their lengths as [int]; ZREMRANGE by rank needs fewer than
      2^32 elements. An address given to a new node is not in use.
    - [range_ok]: a removal of a range of names needs elements of one score.
      The command does not check it, and leaves it to the client.
      [lex_mixed_scores] evaluates what happens otherwise: elements out of the
      range are removed.
    - [blocked]: the resize policy that stops rehashing. The number of steps
      per call of [dictRehash] is positive and ten times it fits an [int].
    - Lengths and positions that are [int]s or [long long]s in the code and
      lengths of lists in the model: a key of [keyHashSlot] and the pattern and
      the string of [stringmatchlen] are shorter than 2^31 bytes, the string of
      [redisBitpos] than 2^60. The flag [dst] of [nolocks_localtime] is 0 or 1.
      An intset has fewer than 2^29 - 1 members when one is added.
    - [SDS_LIMIT] and [DICT_LIMIT], 2^62: the sizes up to which the code's
      arithmetic on 64-bit sizes does not wrap, above any memory.
    - [slot_ok]: a stale pointer in the table of the compressor is not in the
      last 8192 bytes of the address space. [cache_ok]: the cache of
      [crc64_combine] is empty or was filled by it. Both hold at the start of
      the program and are kept.
    - A loop whose recursion is not structural takes its fuel from the data:
      the length of the input for the loops over bytes ([decompress_loop],
      [lp_fuel], [rio_fuel], the splitting of lines), the number of elements
      for the walks along a level of the skip list or along a linked list,
      the number of buckets for rehashing, 64 for loops over the bits of a
      word, the number of pattern bytes for the matcher. No theorem assumes that it is enough: running out
      is [None], and the theorems show [Some].

    ** What is not modelled

    The server around the data: networking, the event loop, configuration,
    replication, cluster, sentinel, scripting, modules, access control and the
    implementations of the commands, which are input and output or act on the
    global state of the server; the files behind the streams; third party code
    (the Lua interpreter, jemalloc, hiredis, SipHash).
    Of the modelled files, freeing, formatted printing and floating point, the
    random choice of elements and defragmentation; of the sorted sets, the
    listpack encoding, which stores scores as text, the set operations and the
    parsing of arguments. Data structures that a further development would
    add, in the order of their weight: quicklists, radix trees, BITOP of
    [bitops.c] and the other types of the RDB format. *)

From Stdlib Require Export ZArith Lia.
From Stdlib Require Ascii String.
From stdpp Require Export base numbers option list.
Export Ascii.AsciiSyntax String.StringSyntax.
Delimit Scope char_scope with char.
Delimit Scope string_scope with string.

#[global] Open Scope Z_scope.

Declare Scope redis_scope.
Delimit Scope redis_scope with redis.

(** ** Automation *)

(** Turns boolean comparisons into propositions, in hypotheses and in the
    conditions of the conditionals of the goal. *)
Ltac zbool :=
  repeat match goal with
  | H : (_ <? _) = true |- _ => apply Z.ltb_lt in H
  | H : (_ <? _) = false |- _ => apply Z.ltb_ge in H
  | H : (_ <=? _) = true |- _ => apply Z.leb_le in H
  | H : (_ <=? _) = false |- _ => apply Z.leb_gt in H
  | H : (_ >? _) = true |- _ => rewrite Z.gtb_ltb in H; apply Z.ltb_lt in H
  | H : (_ >? _) = false |- _ => rewrite Z.gtb_ltb in H; apply Z.ltb_ge in H
  | H : (_ >=? _) = true |- _ => rewrite Z.geb_leb in H; apply Z.leb_le in H
  | H : (_ >=? _) = false |- _ => rewrite Z.geb_leb in H; apply Z.leb_gt in H
  | H : (_ =? _) = true |- _ => apply Z.eqb_eq in H
  | H : (_ =? _) = false |- _ => apply Z.eqb_neq in H
  | H : (_ && _) = true |- _ => apply andb_true_iff in H; destruct H
  | H : (_ || _) = false |- _ => apply orb_false_iff in H; destruct H
  | H : negb _ = true |- _ => apply negb_true_iff in H
  | H : negb _ = false |- _ => apply negb_false_iff in H
  end.

(** Evaluates the closed powers of two. *)
Ltac zpow :=
  repeat match goal with
  | |- context [2 ^ ?n] =>
      let v := eval vm_compute in (2 ^ n) in
      lazymatch v with Zpos _ => change (2 ^ n) with v end
  | H : context [2 ^ ?n] |- _ =>
      let v := eval vm_compute in (2 ^ n) in
      lazymatch v with Zpos _ => change (2 ^ n) with v in H end
  end.

(** One step of a computation in the option monad *)
Tactic Notation "mstep" := cbn [mbind option_bind].
Tactic Notation "mstep" "in" hyp(H) := cbn [mbind option_bind] in H.
Tactic Notation "mstep" "in" hyp(H) "|-" "*" := cbn [mbind option_bind] in H |- *.
Tactic Notation "mstep" "in" "*" := cbn [mbind option_bind] in *.

(** Case analysis on the first conditional of the goal. *)
Ltac zcase :=
  match goal with
  | |- context [if ?b then _ else _] =>
      let E := fresh "E" in destruct b eqn:E; zbool
  end.

(** ** Machine integers

    A [w]-bit integer of the C code is a [Z]; [wrapU] and [wrapS] are the
    conversions to the unsigned and the signed type of that width (the
    signed conversion is the two's complement one every supported compiler
    implements). *)

Definition wrapU (w z : Z) : Z := z mod 2 ^ w.
Definition wrapS (w z : Z) : Z := (z + 2 ^ (w - 1)) mod 2 ^ w - 2 ^ (w - 1).

Abbreviation u8 := (wrapU 8).
Abbreviation u16 := (wrapU 16).
Abbreviation u32 := (wrapU 32).
Abbreviation u64 := (wrapU 64).
Abbreviation s8 := (wrapS 8).
Abbreviation s16 := (wrapS 16).
Abbreviation s32 := (wrapS 32).
Abbreviation s64 := (wrapS 64).

Definition inU (w z : Z) : Prop := 0 <= z < 2 ^ w.
Definition inS (w z : Z) : Prop := - 2 ^ (w - 1) <= z < 2 ^ (w - 1).

#[global] Instance inU_dec w z : Decision (inU w z).
Proof. unfold inU; apply _. Defined.
#[global] Instance inS_dec w z : Decision (inS w z).
Proof. unfold inS; apply _. Defined.

Abbreviation INT16_MIN := (-32768).
Abbreviation INT16_MAX := 32767.
Abbreviation INT32_MIN := (-2147483648).
Abbreviation INT32_MAX := 2147483647.
Abbreviation INT64_MIN := (-9223372036854775808).
Abbreviation INT64_MAX := 9223372036854775807.
Abbreviation UINT32_MAX := 4294967295.
Abbreviation UINT64_MAX := 18446744073709551615.

Lemma pow2_pos (w : Z) : 0 <= w -> 0 < 2 ^ w.
Proof. intros. apply Z.pow_pos_nonneg; lia. Qed.

Lemma wrapU_range w z : 0 <= w -> inU w (wrapU w z).
Proof. intros Hw. apply Z.mod_pos_bound, pow2_pos, Hw. Qed.

Lemma wrapU_id w z : inU w z -> wrapU w z = z.
Proof. apply Z.mod_small. Qed.

Lemma wrapS_range w z : 1 <= w -> inS w (wrapS w z).
Proof.
  intros Hw. unfold inS, wrapS.
  pose proof (Z.mod_pos_bound (z + 2 ^ (w - 1)) (2 ^ w) ltac:(apply pow2_pos; lia)).
  assert (2 ^ w = 2 * 2 ^ (w - 1)).
  { rewrite <- Z.pow_succ_r by lia. f_equal; lia. }
  lia.
Qed.

Lemma wrapS_id w z : 1 <= w -> inS w z -> wrapS w z = z.
Proof.
  unfold inS, wrapS. intros Hw Hz.
  assert (2 ^ w = 2 * 2 ^ (w - 1)).
  { rewrite <- Z.pow_succ_r by lia. f_equal; lia. }
  rewrite Z.mod_small; lia.
Qed.

Lemma wrapS_wrapU w z : 1 <= w -> wrapS w (wrapU w z) = wrapS w z.
Proof.
  intros Hw. unfold wrapS, wrapU.
  rewrite Z.add_mod_idemp_l; [done|].
  pose proof (pow2_pos w); lia.
Qed.

(** ** Bytes, little endian numbers *)

Definition is_byte (b : Z) : Prop := 0 <= b < 256.

#[global] Instance is_byte_dec b : Decision (is_byte b).
Proof. unfold is_byte; apply _. Defined.

(** The [n] bytes of [z] in a little endian host's memory. *)
Fixpoint le_encode (n : nat) (z : Z) : list Z :=
  match n with
  | O => []
  | S n => z mod 256 :: le_encode n (z / 256)
  end.

(** The unsigned number a sequence of bytes stores. *)
Fixpoint le_decode (l : list Z) : Z :=
  match l with
  | [] => 0
  | b :: l => b + 256 * le_decode l
  end.

Lemma length_le_encode n z : length (le_encode n z) = n.
Proof. revert z. induction n; intros; simpl; auto. Qed.

Lemma le_encode_bytes n z : Forall is_byte (le_encode n z).
Proof.
  revert z. induction n; intros; simpl; constructor; auto.
  apply Z.mod_pos_bound; lia.
Qed.

Lemma pow256_succ n : 2 ^ (8 * Z.of_nat (S n)) = 256 * 2 ^ (8 * Z.of_nat n).
Proof.
  replace (8 * Z.of_nat (S n)) with (8 + 8 * Z.of_nat n) by lia.
  rewrite Z.pow_add_r by lia. reflexivity.
Qed.

Lemma le_decode_encode n z : le_decode (le_encode n z) = z mod 2 ^ (8 * Z.of_nat n).
Proof.
  revert z. induction n as [|n IH]; intros z.
  - simpl. by rewrite Z.mod_1_r.
  - cbn [le_encode le_decode]. rewrite IH, pow256_succ.
    rewrite Z.rem_mul_r by (try lia; pose proof (pow2_pos (8 * Z.of_nat n)); lia).
    lia.
Qed.

Lemma le_decode_range l :
  Forall is_byte l -> 0 <= le_decode l < 2 ^ (8 * Z.of_nat (length l)).
Proof.
  induction 1 as [|b l Hb Hl IH]; [simpl; lia|].
  cbn [le_decode length]. rewrite pow256_succ. unfold is_byte in *. lia.
Qed.

Lemma le_encode_decode l : Forall is_byte l -> le_encode (length l) (le_decode l) = l.
Proof.
  induction 1 as [|b l Hb Hl IH]; [done|].
  cbn [le_decode length le_encode]. unfold is_byte in Hb.
  rewrite (Z.add_comm b), Z.mul_comm.
  rewrite Z_div_plus_full_l by lia.
  rewrite (Z.div_small b), Z.add_0_r, IH by lia.
  rewrite Z.add_comm, Z_mod_plus_full, Z.mod_small by lia. done.
Qed.

(** Only the low bytes of a number are encoded. *)
Lemma le_encode_mod n a b :
  a mod 2 ^ (8 * Z.of_nat n) = b mod 2 ^ (8 * Z.of_nat n) ->
  le_encode n a = le_encode n b.
Proof.
  intros H. rewrite <- !le_decode_encode in H.
  rewrite <- (le_encode_decode (le_encode n a)), <- (le_encode_decode (le_encode n b))
    by apply le_encode_bytes.
  by rewrite !length_le_encode, H.
Qed.

Lemma le_decode_app l1 l2 :
  le_decode (l1 ++ l2) = le_decode l1 + 2 ^ (8 * Z.of_nat (length l1)) * le_decode l2.
Proof.
  induction l1 as [|b l1 IH]; [simpl; lia|].
  cbn [app le_decode length]. rewrite IH, pow256_succ. lia.
Qed.

(** The bytes of a C string literal. *)
Definition bytes_of_string (s : String.string) : list Z :=
  (fun c => Z.of_nat (Ascii.nat_of_ascii c)) <$> String.list_ascii_of_string s.

(** A character literal: ["a"%char] is 97. *)
Definition chr (c : Ascii.ascii) : Z := Z.of_nat (Ascii.nat_of_ascii c).

(** ** Memory

    A buffer is the list of its bytes. An access outside of the buffer is
    undefined behaviour of the C code; it, and a failed [assert], is [None]
    here, so that an operation that is proved to return [Some] is proved not
    to go wrong. *)

Definition mload (m : list Z) (off n : Z) : option (list Z) :=
  if (0 <=? off) && (0 <=? n) && (off + n <=? Z.of_nat (length m))
  then Some (take (Z.to_nat n) (drop (Z.to_nat off) m)) else None.

Definition mstore (m : list Z) (off : Z) (bs : list Z) : option (list Z) :=
  if (0 <=? off) && (off + Z.of_nat (length bs) <=? Z.of_nat (length m))
  then Some (take (Z.to_nat off) m ++ bs ++ drop (Z.to_nat off + length bs) m)
  else None.

(** [memmove(m+dst, m+src, n)] *)
Definition mmove (m : list Z) (dst src n : Z) : option (list Z) :=
  bs ← mload m src n; mstore m dst bs.

(** [realloc]: the bytes past the old size have indeterminate values, which
    the argument [junk] gives. *)
Definition mrealloc (junk : nat -> Z) (m : list Z) (n : Z) : list Z :=
  take (Z.to_nat n) m ++ (junk <$> seq (length m) (Z.to_nat n - length m)).

(** [m[i]] and [m[i] = v] on bytes *)
Definition rd (m : list Z) (i : Z) : option Z :=
  if i <? 0 then None else m !! Z.to_nat i.
Definition wr (m : list Z) (i v : Z) : option (list Z) := mstore m i [u8 v].

Definition cassert (b : bool) : option unit := if b then Some tt else None.

Lemma mload_Some m off n :
  0 <= off -> 0 <= n -> off + n <= Z.of_nat (length m) ->
  mload m off n = Some (take (Z.to_nat n) (drop (Z.to_nat off) m)).
Proof.
  intros. unfold mload.
  rewrite !(proj2 (Z.leb_le _ _)) by lia. done.
Qed.

Lemma mstore_Some m off bs :
  0 <= off -> off + Z.of_nat (length bs) <= Z.of_nat (length m) ->
  mstore m off bs =
    Some (take (Z.to_nat off) m ++ bs ++ drop (Z.to_nat off + length bs) m).
Proof.
  intros. unfold mstore.
  rewrite !(proj2 (Z.leb_le _ _)) by lia. done.
Qed.

(** Reading back: the three ways a load can lie with respect to the parts of
    a buffer. *)
Lemma mload_app_mid (l1 bs l2 : list Z) off n :
  off = Z.of_nat (length l1) -> n = Z.of_nat (length bs) ->
  mload (l1 ++ bs ++ l2) off n = Some bs.
Proof.
  intros -> ->.
  rewrite mload_Some by (rewrite ?length_app; lia).
  rewrite !Nat2Z.id, drop_app_length, take_app_length. done.
Qed.

Lemma mload_app_l (bs l2 : list Z) n :
  n = Z.of_nat (length bs) -> mload (bs ++ l2) 0 n = Some bs.
Proof. apply (mload_app_mid []). done. Qed.

Lemma mload_full (bs : list Z) n : n = Z.of_nat (length bs) -> mload bs 0 n = Some bs.
Proof. intros. rewrite <- (app_nil_r bs) at 1. by apply mload_app_l. Qed.

Lemma mstore_app_mid (l1 old bs l2 : list Z) off :
  off = Z.of_nat (length l1) -> length old = length bs ->
  mstore (l1 ++ old ++ l2) off bs = Some (l1 ++ bs ++ l2).
Proof.
  intros -> Hlen.
  rewrite mstore_Some by (rewrite ?length_app; lia).
  rewrite !Nat2Z.id, take_app_length, <- Hlen.
  rewrite <- length_app, (app_assoc l1 old), drop_app_length. done.
Qed.

Lemma mstore_app_l (old bs l2 : list Z) :
  length old = length bs -> mstore (old ++ l2) 0 bs = Some (bs ++ l2).
Proof. apply (mstore_app_mid []). done. Qed.

(** An access past a prefix is one in the rest. *)
Lemma mload_shift (p m : list Z) i n :
  0 <= i -> mload (p ++ m) (Z.of_nat (length p) + i) n = mload m i n.
Proof.
  intros Hi. unfold mload. rewrite length_app.
  replace (0 <=? Z.of_nat (length p) + i) with true by (symmetry; apply Z.leb_le; lia).
  replace (0 <=? i) with true by (symmetry; apply Z.leb_le; lia).
  replace (Z.of_nat (length p) + i + n <=? Z.of_nat (length p + length m))
    with (i + n <=? Z.of_nat (length m)).
  2: { destruct (Z.leb_spec (i + n) (Z.of_nat (length m))),
         (Z.leb_spec (Z.of_nat (length p) + i + n) (Z.of_nat (length p + length m))); lia. }
  replace (Z.to_nat (Z.of_nat (length p) + i)) with (length p + Z.to_nat i)%nat by lia.
  rewrite <- (drop_drop (p ++ m)), drop_app_length. done.
Qed.

Lemma mstore_shift (p m bs : list Z) i :
  0 <= i -> mstore (p ++ m) (Z.of_nat (length p) + i) bs = m' ← mstore m i bs; Some (p ++ m').
Proof.
  intros Hi. unfold mstore. rewrite length_app.
  replace (0 <=? Z.of_nat (length p) + i) with true by (symmetry; apply Z.leb_le; lia).
  replace (0 <=? i) with true by (symmetry; apply Z.leb_le; lia).
  replace (Z.of_nat (length p) + i + Z.of_nat (length bs) <=? Z.of_nat (length p + length m))
    with (i + Z.of_nat (length bs) <=? Z.of_nat (length m)).
  2: { destruct (Z.leb_spec (i + Z.of_nat (length bs)) (Z.of_nat (length m))),
         (Z.leb_spec (Z.of_nat (length p) + i + Z.of_nat (length bs)) (Z.of_nat (length p + length m))); lia. }
  cbn [andb]. destruct (_ <=? _); [|done]. mstep.
  replace (Z.to_nat (Z.of_nat (length p) + i)) with (length p + Z.to_nat i)%nat by lia.
  rewrite <- Nat.add_assoc, <- (drop_drop (p ++ m)), drop_app_length, take_app_add.
  by rewrite <- app_assoc.
Qed.

Lemma rd_Some (m : list Z) i :
  0 <= i < Z.of_nat (length m) -> exists b, rd m i = Some b /\ b ∈ m.
Proof.
  intros Hi. unfold rd. destruct (Z.ltb_spec i 0); [lia|].
  destruct (lookup_lt_is_Some_2 m (Z.to_nat i)) as [b Hb]; [lia|].
  exists b. split; [done|]. by eapply list_elem_of_lookup_2.
Qed.

Lemma rd_inv (m : list Z) i b :
  rd m i = Some b -> 0 <= i < Z.of_nat (length m) /\ m !! Z.to_nat i = Some b.
Proof.
  unfold rd. destruct (Z.ltb_spec i 0); [done|].
  intros Hb. split; [|done]. apply lookup_lt_Some in Hb. lia.
Qed.

Lemma rd_mid (p : list Z) b q i : i = Z.of_nat (length p) -> rd (p ++ b :: q) i = Some b.
Proof.
  intros ->. unfold rd. destruct (Z.ltb_spec (Z.of_nat (length p)) 0); [lia|].
  rewrite Nat2Z.id, lookup_app_r by lia. by rewrite Nat.sub_diag.
Qed.

Lemma rd_app_l (p q : list Z) i : i < Z.of_nat (length p) -> rd (p ++ q) i = rd p i.
Proof.
  intros. unfold rd. destruct (Z.ltb_spec i 0); [done|]. apply lookup_app_l. lia.
Qed.

Lemma wr_Some m i v :
  0 <= i < Z.of_nat (length m) -> exists m', wr m i v = Some m' /\ length m' = length m.
Proof.
  intros Hi. unfold wr. rewrite mstore_Some by (simpl; lia). eexists. split; [done|].
  rewrite !length_app, length_take, length_drop. simpl. lia.
Qed.

Lemma wr_mid S r R i v :
  i = Z.of_nat (length S) -> wr (S ++ r :: R) i v = Some (S ++ u8 v :: R).
Proof. intros ->. apply (mstore_app_mid S [r] [u8 v] R); done. Qed.

Lemma mstore_length m off bs m' : mstore m off bs = Some m' -> length m' = length m.
Proof.
  unfold mstore. destruct (_ && _) eqn:E; [|done]. zbool. intros [= <-].
  rewrite !length_app, length_take, length_drop. lia.
Qed.

Lemma length_mrealloc junk m n :
  0 <= n -> Z.of_nat (length (mrealloc junk m n)) = n.
Proof.
  intros. unfold mrealloc.
  rewrite length_app, length_take, length_fmap, length_seq. lia.
Qed.

Lemma mrealloc_shrink junk m n :
  n <= Z.of_nat (length m) -> mrealloc junk m n = take (Z.to_nat n) m.
Proof.
  intros. unfold mrealloc.
  replace (Z.to_nat n - length m)%nat with 0%nat by lia.
  by rewrite app_nil_r.
Qed.

Lemma mrealloc_grow junk m n :
  Z.of_nat (length m) <= n ->
  exists tl, mrealloc junk m n = m ++ tl /\ Z.of_nat (length tl) = n - Z.of_nat (length m).
Proof.
  intros. unfold mrealloc. eexists. rewrite take_ge by lia. split; [done|].
  rewrite length_fmap, length_seq. lia.
Qed.

(** Making room: the bytes [p2] move up by the size of [tl]. *)
Lemma mmove_up (p1 p2 tl : list Z) dst src n :
  src = Z.of_nat (length p1) -> n = Z.of_nat (length p2) ->
  dst = src + Z.of_nat (length tl) ->
  exists x, length x = length tl /\
    mmove (p1 ++ p2 ++ tl) dst src n = Some (p1 ++ x ++ p2).
Proof.
  intros -> -> ->. exists (take (length tl) (p2 ++ tl)). split.
  { rewrite length_take, length_app. lia. }
  unfold mmove. rewrite mload_app_mid by done. mstep.
  rewrite <- (take_drop (length tl) (p2 ++ tl)) at 1.
  rewrite <- (app_nil_r (drop (length tl) (p2 ++ tl))), !app_assoc.
  rewrite <- (app_assoc _ (drop _ _)).
  rewrite (mstore_app_mid _ _ p2 []).
  - by rewrite app_nil_r.
  - rewrite !length_app, length_take, length_app. lia.
  - rewrite length_drop, length_app. lia.
Qed.

(** Closing a gap: the bytes [p2] move down over [x]. *)
Lemma mmove_down (p1 x p2 : list Z) dst src n :
  dst = Z.of_nat (length p1) -> n = Z.of_nat (length p2) ->
  src = dst + Z.of_nat (length x) ->
  exists y, length y = length x /\
    mmove (p1 ++ x ++ p2) dst src n = Some (p1 ++ p2 ++ y).
Proof.
  intros -> -> ->. exists (drop (length p2) (x ++ p2)). split.
  { rewrite length_drop, length_app. lia. }
  unfold mmove.
  replace (mload _ _ _) with (Some p2).
  2: { replace (p1 ++ x ++ p2) with ((p1 ++ x) ++ p2 ++ [])
         by (by rewrite app_nil_r, app_assoc).
       rewrite mload_app_mid; [done| |done]. rewrite length_app. lia. }
  mstep. rewrite <- (take_drop (length p2) (x ++ p2)) at 1.
  rewrite (mstore_app_mid p1); [done|done|].
  rewrite length_take, length_app. lia.
Qed.

(** ** Bytes

    [auto with bytes] proves that the pieces of memory are bytes. *)

Create HintDb bytes.
#[export] Hint Resolve Forall_take Forall_drop Forall_app_2 le_encode_bytes : bytes.
#[export] Hint Extern 1 (Forall _ [_]) => apply Forall_singleton : bytes.

(** ** The allocator

    The allocator is a parameter of the components that allocate: [usable n]
    is the size of the block [zmalloc_usable(n)] gives, [junk] the bytes it
    holds, [nallocx] what [je_nallocx] answers and [try_ok] whether a "try"
    allocation succeeds. [zmalloc] does not return on lack of memory. *)

Class Allocator := {
  usable : Z -> Z;
  junk : nat -> Z;
  nallocx : option (Z -> Z);
  try_ok : Z -> bool
}.

(** What the code relies on: a block is at least as large as asked for. *)
Class AllocatorLaws (A : Allocator) : Prop := {
  usable_ge n : 0 < n < 2 ^ 63 -> n <= usable n < 2 ^ 64;
  nallocx_ge f n : nallocx = Some f -> 0 < n < 2 ^ 63 -> n <= f n;
  junk_byte n : is_byte (junk n)
}.

Definition malloc_usable `{Allocator} (n : Z) : list Z := mrealloc junk [] (usable n).

(** An allocator, for the examples: blocks are multiples of 16 bytes. *)

Definition round16 (n : Z) : Z := 16 * ((n + 15) / 16).

Definition block_allocator : Allocator :=
  {| usable := round16; junk _ := 0xAA; nallocx := Some round16; try_ok _ := true |}.

Lemma block_allocator_laws : AllocatorLaws block_allocator.
Proof.
  assert (H : forall n, n <= round16 n <= n + 15).
  { intros n. unfold round16. pose proof (Z.div_mod (n + 15) 16 ltac:(lia)).
    pose proof (Z.mod_pos_bound (n + 15) 16 ltac:(lia)). lia. }
  split.
  - intros n Hn. specialize (H n). change (usable n) with (round16 n). zpow. lia.
  - intros f n [= <-] Hn. apply H.
  - intros n. change (is_byte 0xAA). unfold is_byte. lia.
Qed.

(** A property of every byte, by evaluation *)
Lemma byte_forall (P : Z -> bool) :
  forallb (fun n => P (Z.of_nat n)) (seq 0 256) = true -> forall b, is_byte b -> P b = true.
Proof.
  intros H b Hb. unfold is_byte in Hb. rewrite forallb_forall in H.
  rewrite <- (Z2Nat.id b) by lia. apply H, in_seq. lia.
Qed.

(** ** Lists *)

Lemma list_same_length_lookup {A B} (l : list A) (k : list B) :
  (forall i, is_Some (l !! i) <-> is_Some (k !! i)) -> length l = length k.
Proof.
  intros H. apply Nat.le_antisymm; apply Nat.nlt_ge; intros Hlt.
  - apply (lookup_lt_is_Some_2 l), H, lookup_lt_is_Some_1 in Hlt. lia.
  - apply (lookup_lt_is_Some_2 k), H, lookup_lt_is_Some_1 in Hlt. lia.
Qed.
