(* ===== verification/Endianconv.v ===== *)
(** * Byte order conversions ([endianconv.c])

    [memrev16], [memrev32] and [memrev64] toggle the byte order of the number
    stored at the beginning of a buffer; [intrev16], [intrev32] and [intrev64]
    do it to a value. The model is the one of a little endian host, where the
    memory of a [w]-bit variable is [le_encode (w/8)]. *)

From S2P Require Import Prelude.

(** [t = x[i]; x[i] = x[j]; x[j] = t;] *)
Definition swap_at (i j : nat) (x : list Z) : option (list Z) :=
  t ← x !! i; u ← x !! j; Some (<[j := t]> (<[i := u]> x)).

Definition memrev16 (x : list Z) : option (list Z) := swap_at 0 1 x.

Definition memrev32 (x : list Z) : option (list Z) :=
  x ← swap_at 0 3 x; swap_at 1 2 x.

Definition memrev64 (x : list Z) : option (list Z) :=
  x ← swap_at 0 7 x; x ← swap_at 1 6 x; x ← swap_at 2 5 x; swap_at 3 4 x.

Definition intrev16 (v : Z) : option Z := x ← memrev16 (le_encode 2 v); Some (le_decode x).
Definition intrev32 (v : Z) : option Z := x ← memrev32 (le_encode 4 v); Some (le_decode x).
Definition intrev64 (v : Z) : option Z := x ← memrev64 (le_encode 8 v); Some (le_decode x).

(** The big endian number a sequence of bytes stores. *)
Definition be_decode (l : list Z) : Z := le_decode (reverse l).

(** Each routine reverses exactly the bytes of its number. *)
Lemma memrev16_reverse x tl :
  length x = 2%nat -> memrev16 (x ++ tl) = Some (reverse x ++ tl).
Proof. intros. destruct x as [|?[|?[|]]]; done. Qed.

Lemma memrev32_reverse x tl :
  length x = 4%nat -> memrev32 (x ++ tl) = Some (reverse x ++ tl).
Proof. intros. destruct x as [|?[|?[|?[|?[|]]]]]; done. Qed.

Lemma memrev64_reverse x tl :
  length x = 8%nat -> memrev64 (x ++ tl) = Some (reverse x ++ tl).
Proof. intros. destruct x as [|?[|?[|?[|?[|?[|?[|?[|?[|]]]]]]]]]; done. Qed.

Lemma intrev_of_memrev (n : nat) (memrev : list Z -> option (list Z)) v :
  (forall x, length x = n -> memrev (x ++ []) = Some (reverse x ++ [])) ->
  (x ← memrev (le_encode n v); Some (le_decode x)) = Some (be_decode (le_encode n v)).
Proof.
  intros H. specialize (H (le_encode n v) (length_le_encode n v)).
  rewrite !app_nil_r in H. rewrite H. done.
Qed.

Lemma intrev16_eq v : intrev16 v = Some (be_decode (le_encode 2 v)).
Proof. apply (intrev_of_memrev 2). auto using memrev16_reverse. Qed.
Lemma intrev32_eq v : intrev32 v = Some (be_decode (le_encode 4 v)).
Proof. apply (intrev_of_memrev 4). auto using memrev32_reverse. Qed.
Lemma intrev64_eq v : intrev64 v = Some (be_decode (le_encode 8 v)).
Proof. apply (intrev_of_memrev 8). auto using memrev64_reverse. Qed.

(** Reading a number's bytes in the other order twice gives the number back. *)
Lemma be_decode_involutive n v :
  0 <= v < 2 ^ (8 * Z.of_nat n) -> be_decode (le_encode n (be_decode (le_encode n v))) = v.
Proof.
  intros Hv. unfold be_decode.
  assert (H : length (reverse (le_encode n v)) = n)
    by (rewrite length_reverse; apply length_le_encode).
  rewrite <- H at 1.
  rewrite le_encode_decode by (apply Forall_reverse, le_encode_bytes).
  rewrite reverse_involutive, le_decode_encode. by apply Z.mod_small.
Qed.

Lemma be_decode_range l :
  Forall is_byte l -> 0 <= be_decode l < 2 ^ (8 * Z.of_nat (length l)).
Proof.
  intros H. unfold be_decode. rewrite <- (length_reverse l).
  apply le_decode_range. by apply Forall_reverse.
Qed.
