(* ===== verification/Intset.v ===== *)
(** * Integer sets ([intset.c])

    An intset is a header and a sorted array of integers of 2, 4 or 8 bytes.
    The model keeps the array as its bytes: [contents] is the flexible array
    member, so that the conversion of the array to a wider encoding, which
    happens in place, is the code's. *)

From S2P Require Import Prelude.
From stdpp Require Import gmap sorting.

#[local] Open Scope Z_scope.

Record intset := mkIntset {
  is_encoding : Z;
  is_length : Z;
  is_contents : list Z
}.

Definition INTSET_ENC_INT16 : Z := 2.
Definition INTSET_ENC_INT32 : Z := 4.
Definition INTSET_ENC_INT64 : Z := 8.
Definition sizeof_intset : Z := 8.

Definition _intsetValueEncoding (v : Z) : Z :=
  if (v <? INT32_MIN) || (v >? INT32_MAX) then INTSET_ENC_INT64
  else if (v <? INT16_MIN) || (v >? INT16_MAX) then INTSET_ENC_INT32
  else INTSET_ENC_INT16.

Definition _intsetGetEncoded (s : intset) (pos enc : Z) : option Z :=
  if enc =? INTSET_ENC_INT64 then
    bs ← mload (is_contents s) (8 * pos) 8; Some (s64 (le_decode bs))
  else if enc =? INTSET_ENC_INT32 then
    bs ← mload (is_contents s) (4 * pos) 4; Some (s32 (le_decode bs))
  else
    bs ← mload (is_contents s) (2 * pos) 2; Some (s16 (le_decode bs)).

Definition _intsetGet (s : intset) (pos : Z) : option Z :=
  _intsetGetEncoded s pos (u8 (is_encoding s)).

Definition set_contents (s : intset) (c : list Z) : intset :=
  mkIntset (is_encoding s) (is_length s) c.
Definition set_encoding (s : intset) (e : Z) : intset :=
  mkIntset e (is_length s) (is_contents s).
Definition set_length (s : intset) (n : Z) : intset :=
  mkIntset (is_encoding s) n (is_contents s).

Definition _intsetSet (s : intset) (pos value : Z) : option intset :=
  let encoding := is_encoding s in
  if encoding =? INTSET_ENC_INT64 then
    c ← mstore (is_contents s) (8 * pos) (le_encode 8 value); Some (set_contents s c)
  else if encoding =? INTSET_ENC_INT32 then
    c ← mstore (is_contents s) (4 * pos) (le_encode 4 value); Some (set_contents s c)
  else
    c ← mstore (is_contents s) (2 * pos) (le_encode 2 value); Some (set_contents s c).

Definition intsetNew : intset := mkIntset INTSET_ENC_INT16 0 [].

Definition intsetAllocSize (s : intset) : option Z :=
  let size := u64 (is_length s * is_encoding s) in
  cassert (size <=? UINT64_MAX - sizeof_intset) ;;
  Some (u64 (sizeof_intset + size)).

(** The search loop. [cur] is the value read last; the result is the final
    [(min, mid, cur)]. The fuel bounds the iterations: the range
    [min..max] shrinks at every one. *)
Fixpoint search_loop (fuel : nat) (s : intset) (value min max mid cur : Z)
    : option (Z * Z * Z) :=
  if max >=? min then
    match fuel with
    | O => None
    | S fuel =>
        let mid := s32 (Z.shiftr (u32 (u32 min + u32 max)) 1) in
        cur ← _intsetGet s mid;
        if value >? cur then search_loop fuel s value (mid + 1) max mid cur
        else if value <? cur then search_loop fuel s value min (mid - 1) mid cur
        else Some (min, mid, cur)
    end
  else Some (min, mid, cur).

(** Returns the flag and the position the code stores in [*pos]. *)
Definition intsetSearch (s : intset) (value : Z) : option (bool * Z) :=
  let min := 0 in
  let max := s32 (u32 (is_length s - 1)) in
  if is_length s =? 0 then Some (false, 0) else
  last ← _intsetGet s max;
  if value >? last then Some (false, is_length s) else
  first ← _intsetGet s 0;
  if value <? first then Some (false, 0) else
  '(min, mid, cur) ← search_loop (Z.to_nat (is_length s)) s value min max (-1) (-1);
  if value =? cur then Some (true, u32 mid) else Some (false, u32 min).

Definition intsetMoveTail (s : intset) (from to : Z) : option intset :=
  let bytes := u32 (is_length s - from) in
  let encoding := is_encoding s in
  let '(src, dst, bytes) :=
    if encoding =? INTSET_ENC_INT64 then (8 * from, 8 * to, u32 (bytes * 8))
    else if encoding =? INTSET_ENC_INT32 then (4 * from, 4 * to, u32 (bytes * 4))
    else (2 * from, 2 * to, u32 (bytes * 2)) in
  c ← mmove (is_contents s) dst src bytes; Some (set_contents s c).

Section Allocating.
(** The bytes [zrealloc] adds have indeterminate values. *)
Variable junk : nat -> Z.

Definition intsetResize (s : intset) (len : Z) : option intset :=
  let size := u64 (len * is_encoding s) in
  cassert (size <=? UINT64_MAX - sizeof_intset) ;;
  Some (set_contents s (mrealloc junk (is_contents s) size)).

(** [while(length--) _intsetSet(is,length+prepend,_intsetGetEncoded(is,length,curenc));] *)
Fixpoint upgrade_loop (length : nat) (s : intset) (prepend curenc : Z) : option intset :=
  match length with
  | O => Some s
  | S length =>
      v ← _intsetGetEncoded s (Z.of_nat length) curenc;
      s ← _intsetSet s (Z.of_nat length + prepend) v;
      upgrade_loop length s prepend curenc
  end.

Definition intsetUpgradeAndAdd (s : intset) (value : Z) : option intset :=
  let curenc := u8 (is_encoding s) in
  let newenc := _intsetValueEncoding value in
  let length := s32 (is_length s) in
  let prepend := if value <? 0 then 1 else 0 in
  s ← intsetResize (set_encoding s newenc) (u32 (is_length s + 1));
  s ← upgrade_loop (Z.to_nat length) s prepend curenc;
  s ← (if prepend =? 0 then _intsetSet s (is_length s) value
        else _intsetSet s 0 value);
  Some (set_length s (u32 (is_length s + 1))).

(** Returns the set and the value of [*success]. *)
Definition intsetAdd (s : intset) (value : Z) : option (intset * bool) :=
  let valenc := _intsetValueEncoding value in
  if valenc >? is_encoding s then
    s ← intsetUpgradeAndAdd s value; Some (s, true)
  else
    '(found, pos) ← intsetSearch s value;
    if (found : bool) then Some (s, false) else
    s ← intsetResize s (u32 (is_length s + 1));
    s ← (if pos <? is_length s then intsetMoveTail s pos (u32 (pos + 1)) else Some s);
    s ← _intsetSet s pos value;
    Some (set_length s (u32 (is_length s + 1)), true).

Definition intsetRemove (s : intset) (value : Z) : option (intset * bool) :=
  let valenc := _intsetValueEncoding value in
  if valenc <=? is_encoding s then
    '(found, pos) ← intsetSearch s value;
    if (found : bool) then
      let len := is_length s in
      s ← (if pos <? u32 (len - 1) then intsetMoveTail s (u32 (pos + 1)) pos else Some s);
      s ← intsetResize s (u32 (len - 1));
      Some (set_length s (u32 (len - 1)), true)
    else Some (s, false)
  else Some (s, false).
End Allocating.

Definition intsetFind (s : intset) (value : Z) : option bool :=
  let valenc := _intsetValueEncoding value in
  if valenc <=? is_encoding s then '(found, _) ← intsetSearch s value; Some found
  else Some false.

(** [rnd] is the value [rand()] returns. *)
Definition intsetRandom (s : intset) (rnd : Z) : option Z :=
  let len := is_length s in
  cassert (negb (len =? 0)) ;;
  _intsetGet s (s32 (rnd mod len)).

Definition intsetMax (s : intset) : option Z :=
  _intsetGet s (s32 (u32 (is_length s - 1))).

Definition intsetMin (s : intset) : option Z := _intsetGet s 0.

(** [None] inside the outer [Some] is the return value 0. *)
Definition intsetGet (s : intset) (pos : Z) : option (option Z) :=
  if pos <? is_length s then v ← _intsetGet s (s32 pos); Some (Some v)
  else Some None.

Definition intsetLen (s : intset) : Z := is_length s.

Definition intsetBlobLen (s : intset) : Z :=
  u64 (sizeof_intset + u64 (is_length s * is_encoding s)).




(** ** The array of an encoding *)

Definition valid_enc (e : Z) : Prop := e = 2 \/ e = 4 \/ e = 8.

#[export] Instance valid_enc_dec e : Decision (valid_enc e).
Proof. unfold valid_enc; apply _. Defined.

Definition pack (e : Z) (l : list Z) : list Z :=
  concat (le_encode (Z.to_nat e) <$> l).

(** [s] stores the list [l]. *)
Record stores (s : intset) (l : list Z) : Prop := {
  st_enc : valid_enc (is_encoding s);
  st_len : is_length s = Z.of_nat (length l);
  st_cont : is_contents s = pack (is_encoding s) l;
  st_fits : Forall (inS (8 * is_encoding s)) l
}.

(** [s] represents the set [X]. *)
Definition represents (s : intset) (X : gset Z) : Prop :=
  exists l, stores s l /\ StronglySorted Z.lt l /\ X = list_to_set l.

Lemma pack_app e l1 l2 : pack e (l1 ++ l2) = pack e l1 ++ pack e l2.
Proof. unfold pack. by rewrite fmap_app, concat_app. Qed.

Lemma pack_cons e v l : pack e (v :: l) = le_encode (Z.to_nat e) v ++ pack e l.
Proof. done. Qed.

Lemma length_pack e l : length (pack e l) = (Z.to_nat e * length l)%nat.
Proof.
  induction l as [|v l IH]; [cbn; lia|].
  rewrite pack_cons, length_app, length_le_encode, IH. simpl. lia.
Qed.

Lemma pack_bytes e l : Forall is_byte (pack e l).
Proof.
  induction l as [|v l IH]; [constructor|].
  rewrite pack_cons. apply Forall_app; auto using le_encode_bytes.
Qed.

Lemma decode_fits e v :
  1 <= e -> inS (8 * e) v ->
  wrapS (8 * e) (le_decode (le_encode (Z.to_nat e) v)) = v.
Proof.
  intros He Hv. rewrite le_decode_encode, Z2Nat.id by lia.
  fold (wrapU (8 * e) v). rewrite wrapS_wrapU by lia. apply wrapS_id; [lia|done].
Qed.

(** The two accessors, at a position given by what comes before it. *)
Lemma getEncoded_at s e l1 v tl :
  valid_enc e -> inS (8 * e) v ->
  is_contents s = pack e l1 ++ le_encode (Z.to_nat e) v ++ tl ->
  _intsetGetEncoded s (Z.of_nat (length l1)) e = Some v.
Proof.
  intros He Hv Hc. unfold _intsetGetEncoded.
  assert (Hl : mload (is_contents s) (e * Z.of_nat (length l1)) e
               = Some (le_encode (Z.to_nat e) v)).
  { rewrite Hc. destruct He as [->|[->| ->]];
      apply mload_app_mid; rewrite ?length_pack, ?length_le_encode; lia. }
  pose proof (decode_fits e v) as Hd.
  destruct He as [->|[->| ->]]; cbn [Z.eqb INTSET_ENC_INT64 INTSET_ENC_INT32] in *;
    simpl; rewrite Hl; simpl; f_equal; apply Hd; auto; lia.
Qed.

Lemma set_at s l1 old tl v :
  valid_enc (is_encoding s) ->
  is_contents s = l1 ++ old ++ tl ->
  Z.of_nat (length old) = is_encoding s ->
  forall pos, Z.of_nat (length l1) = is_encoding s * pos ->
  _intsetSet s pos v =
    Some (set_contents s (l1 ++ le_encode (Z.to_nat (is_encoding s)) v ++ tl)).
Proof.
  intros He Hc Hold pos Hpos. unfold _intsetSet.
  assert (Hs : mstore (is_contents s) (is_encoding s * pos)
                 (le_encode (Z.to_nat (is_encoding s)) v)
               = Some (l1 ++ le_encode (Z.to_nat (is_encoding s)) v ++ tl)).
  { rewrite Hc. apply mstore_app_mid; [lia|]. rewrite length_le_encode. lia. }
  destruct s as [enc len c]; cbn [is_encoding is_contents] in *.
  destruct He as [->|[->| ->]]; simpl in *; rewrite Hs; done.
Qed.

Lemma intsetGet_lookup s l i v :
  stores s l -> l !! i = Some v -> _intsetGet s (Z.of_nat i) = Some v.
Proof.
  intros [He Hn Hc Hf] Hi. unfold _intsetGet.
  replace (u8 (is_encoding s)) with (is_encoding s)
    by (destruct He as [->|[->| ->]]; done).
  pose proof (Forall_lookup_1 _ _ _ _ Hf Hi) as Hv.
  rewrite <- (take_drop_middle l i v Hi), pack_app, pack_cons in Hc.
  assert (length (take i l) = i).
  { rewrite length_take. apply lookup_lt_Some in Hi. lia. }
  replace i with (length (take i l)) at 1.
  by eapply getEncoded_at.
Qed.

Lemma valueEncoding_fits v : inS 64 v -> inS (8 * _intsetValueEncoding v) v.
Proof.
  unfold _intsetValueEncoding, inS. intros Hv.
  zcase; [done|]. zcase; zpow; lia.
Qed.

Lemma valueEncoding_valid v : valid_enc (_intsetValueEncoding v).
Proof. unfold _intsetValueEncoding, valid_enc. repeat case_match; auto. Qed.

(** A value that needs a wider encoding is out of the range of a narrower one. *)
Lemma valueEncoding_wider v e :
  valid_enc e -> e < _intsetValueEncoding v -> ~ inS (8 * e) v.
Proof.
  intros He. unfold _intsetValueEncoding, INTSET_ENC_INT64, INTSET_ENC_INT32,
    INTSET_ENC_INT16, inS.
  repeat zcase; rewrite ?orb_true_iff in *;
    destruct He as [->|[->| ->]]; zpow; intuition (zbool; lia).
Qed.

Lemma inS_mono e e' v :
  valid_enc e -> valid_enc e' -> e <= e' -> inS (8 * e) v -> inS (8 * e') v.
Proof.
  intros [->|[->| ->]] [->|[->| ->]] ?; unfold inS; zpow; lia.
Qed.

(** ** The search *)

(** Where [v] belongs: [l] is split by [pos] in the smaller and the greater
    elements. *)
Definition insertion_point (l : list Z) (v pos : Z) : Prop :=
  exists l1 l2, l = l1 ++ l2 /\ pos = Z.of_nat (length l1) /\
    Forall (fun x => x < v) l1 /\ Forall (fun x => v < x) l2.

Lemma sorted_lookup_lt (l : list Z) i j x y :
  StronglySorted Z.lt l -> l !! i = Some x -> l !! j = Some y -> (i < j)%nat -> x < y.
Proof.
  intros Hs Hi Hj Hlt. rewrite <- (take_drop_middle l i x Hi) in Hs.
  apply StronglySorted_app_1_r, StronglySorted_cons in Hs as [Hs _].
  rewrite Forall_forall in Hs. apply Hs, list_elem_of_lookup.
  exists (j - S i)%nat. rewrite lookup_drop, <- Hj. f_equal; lia.
Qed.

Lemma StronglySorted_NoDup_lt (l : list Z) : StronglySorted Z.lt l -> NoDup l.
Proof.
  induction 1 as [|x l Hs IH Hx]; constructor; [|done].
  intros Hin. rewrite Forall_forall in Hx. specialize (Hx _ Hin). lia.
Qed.

Lemma insertion_point_intro l v pos :
  0 <= pos <= Z.of_nat (length l) ->
  (forall i x, l !! i = Some x -> Z.of_nat i < pos -> x < v) ->
  (forall i x, l !! i = Some x -> pos <= Z.of_nat i -> v < x) ->
  insertion_point l v pos.
Proof.
  intros Hp H1 H2. exists (take (Z.to_nat pos) l), (drop (Z.to_nat pos) l).
  rewrite take_drop, length_take. split_and!; [done|lia| |];
    apply Forall_lookup; intros i x Hi.
  - apply lookup_take_Some in Hi as [Hi ?]. apply (H1 i); [done|lia].
  - rewrite lookup_drop in Hi. apply (H2 _ _ Hi). lia.
Qed.

Lemma insertion_point_notin l v pos : insertion_point l v pos -> v ∉ l.
Proof.
  intros (l1 & l2 & -> & _ & H1 & H2) [Hv|Hv]%elem_of_app.
  - rewrite Forall_forall in H1. specialize (H1 _ Hv). simpl in *. lia.
  - rewrite Forall_forall in H2. specialize (H2 _ Hv). simpl in *. lia.
Qed.

Lemma search_mid min max :
  0 <= min <= max -> max < 2 ^ 31 ->
  s32 (Z.shiftr (u32 (u32 min + u32 max)) 1) = (min + max) / 2.
Proof.
  intros. assert (2 ^ 31 = 2147483648) by done.
  rewrite !wrapU_id by (unfold inU; rewrite ?wrapU_id; unfold inU; zpow; lia).
  rewrite Z.shiftr_div_pow2 by lia. change (2 ^ 1) with 2.
  apply wrapS_id; [lia|]. unfold inS. zpow.
  pose proof (Z.div_le_upper_bound (min + max) 2 max).
  pose proof (Z.div_pos (min + max) 2). lia.
Qed.

(** The loop's invariant: what is before [min] is smaller than the value and
    what is after [max] is greater. *)
Definition search_inv (l : list Z) (value min max : Z) : Prop :=
  0 <= min /\ min <= max + 1 /\ max < Z.of_nat (length l) /\
  (forall i x, l !! i = Some x -> Z.of_nat i < min -> x < value) /\
  (forall i x, l !! i = Some x -> max < Z.of_nat i -> value < x).

Lemma search_loop_spec fuel s l value min max mid cur :
  stores s l -> StronglySorted Z.lt l -> Z.of_nat (length l) <= 2 ^ 31 ->
  search_inv l value min max ->
  max - min < Z.of_nat fuel -> (max < min -> cur <> value) ->
  exists min' mid' cur',
    search_loop fuel s value min max mid cur = Some (min', mid', cur') /\
    ((cur' = value /\ 0 <= mid' /\ l !! Z.to_nat mid' = Some value) \/
     (cur' <> value /\ insertion_point l value min')).
Proof.
  intros Hs Hsort Hlen. revert min max mid cur.
  induction fuel as [|fuel IH]; intros min max mid cur (H0 & H1 & H2 & Hlt & Hgt) Hfuel Hcur;
    cbn [search_loop]; rewrite Z.geb_leb.
  1: rewrite (proj2 (Z.leb_gt _ _)) by lia.
  2: destruct (min <=? max) eqn:E; zbool.
  1,3: do 3 eexists; split; [done|]; right; split; [apply Hcur; lia|];
    apply insertion_point_intro; [lia|done|]; intros; eapply Hgt; [done|lia].
  rewrite search_mid by lia.
  assert (Hm : min <= (min + max) / 2 <= max).
  { split; [apply Z.div_le_lower_bound|apply Z.div_le_upper_bound]; lia. }
  destruct (lookup_lt_is_Some_2 l (Z.to_nat ((min + max) / 2))) as [x Hx]; [lia|].
  pose proof (intsetGet_lookup _ _ _ _ Hs Hx) as Hget.
  rewrite Z2Nat.id in Hget by lia. rewrite Hget. simpl.
  rewrite Z.gtb_ltb. destruct (x <? value) eqn:E1; zbool.
  - apply IH; [|lia|lia]. split_and!; try lia; [|done].
    intros i y Hi ?. destruct (decide (i = Z.to_nat ((min + max) / 2))) as [->|].
    + congruence.
    + pose proof (sorted_lookup_lt _ _ _ _ _ Hsort Hi Hx). lia.
  - destruct (value <? x) eqn:E2; zbool.
    + apply IH; [|lia|lia]. split_and!; try lia; [done|].
      intros i y Hi ?. destruct (decide (i = Z.to_nat ((min + max) / 2))) as [->|].
      * congruence.
      * pose proof (sorted_lookup_lt _ _ _ _ _ Hsort Hx Hi). lia.
    + do 3 eexists; split; [done|]. left. split_and!; [lia|lia|]. rewrite Hx. f_equal; lia.
Qed.

Lemma intsetSearch_spec s l value :
  stores s l -> StronglySorted Z.lt l -> Z.of_nat (length l) < 2 ^ 31 ->
  (exists pos, intsetSearch s value = Some (true, pos) /\ 0 <= pos /\
     l !! Z.to_nat pos = Some value) \/
  (exists pos, intsetSearch s value = Some (false, pos) /\ insertion_point l value pos).
Proof.
  intros Hs Hsort Hlen. unfold intsetSearch. pose proof (st_len _ _ Hs) as Hn.
  rewrite Hn. destruct (Z.of_nat (length l) =? 0) eqn:E0; zbool.
  { right. eexists; split; [done|]. destruct l; [|done]. by exists [], []. }
  replace (s32 _) with (Z.of_nat (length l - 1)).
  2: { zpow. rewrite wrapU_id by (unfold inU; zpow; lia).
       rewrite wrapS_id by (unfold inS; zpow; lia). lia. }
  destruct (lookup_lt_is_Some_2 l (length l - 1)) as [last Hlast]; [lia|].
  destruct (lookup_lt_is_Some_2 l 0) as [first Hfirst]; [lia|].
  rewrite (intsetGet_lookup _ _ _ _ Hs Hlast).
  pose proof (intsetGet_lookup _ _ _ _ Hs Hfirst) as Hget0.
  change (Z.of_nat 0) with 0 in Hget0. rewrite Hget0. simpl. rewrite Z.gtb_ltb. destruct (last <? value) eqn:E1; zbool.
  { right. eexists; split; [done|]. apply insertion_point_intro; [lia| |].
    - intros i x Hi _. destruct (decide (i = length l - 1)%nat) as [->|]; [congruence|].
      pose proof (lookup_lt_Some _ _ _ Hi).
      pose proof (sorted_lookup_lt _ _ _ _ _ Hsort Hi Hlast). lia.
    - intros i x Hi%lookup_lt_Some ?. lia. }
  destruct (value <? first) eqn:E2; zbool.
  { right. eexists; split; [done|]. apply insertion_point_intro; [lia|lia|].
    intros i x Hi _. destruct (decide (i = 0)%nat) as [->|]; [congruence|].
    pose proof (sorted_lookup_lt _ _ _ _ _ Hsort Hfirst Hi). lia. }
  destruct (search_loop_spec (Z.to_nat (Z.of_nat (length l))) s l value 0
    (Z.of_nat (length l - 1)) (-1) (-1) Hs Hsort) as (mn & md & cu & -> & Hres); [lia| |lia|lia|].
  { split_and!; try lia. intros i x Hi%lookup_lt_Some ?. lia. }
  simpl. destruct Hres as [(-> & ? & Hmd)|(Hne & Hins)].
  - left. rewrite Z.eqb_refl. pose proof (lookup_lt_Some _ _ _ Hmd).
    eexists. split; [done|]. rewrite wrapU_id by (unfold inU; zpow; lia). done.
  - right. rewrite (proj2 (Z.eqb_neq _ _)) by lia. eexists. split; [done|].
    destruct Hins as (l1 & l2 & -> & -> & ? & ?). rewrite length_app in *.
    rewrite wrapU_id by (unfold inU; zpow; lia). by exists l1, l2.
Qed.

(** ** Widening the encoding in place *)

(** Going from the last element down, writing the element [length] in the new
    encoding never touches the elements before it in the old one. *)
Lemma upgrade_loop_spec s cur prepend l rest gap tail :
  valid_enc cur -> valid_enc (is_encoding s) -> cur <= is_encoding s -> 0 <= prepend ->
  Forall (inS (8 * cur)) l ->
  is_contents s = pack cur l ++ gap ++ pack (is_encoding s) rest ++ tail ->
  Z.of_nat (length (pack cur l ++ gap)) = is_encoding s * (Z.of_nat (length l) + prepend) ->
  exists gap', Z.of_nat (length gap') = is_encoding s * prepend /\
    upgrade_loop (length l) s prepend cur =
      Some (set_contents s (gap' ++ pack (is_encoding s) (l ++ rest) ++ tail)).
Proof.
  intros Hcur Hnew Hle Hpre. revert s rest gap tail Hnew Hle.
  induction l as [|v l IH] using rev_ind; intros s rest gap tail Hnew Hle Hf Hc Hlen.
  { exists gap. split; [cbn in Hlen; lia|]. simpl in *. destruct s; simpl in *. by subst. }
  apply Forall_app in Hf as [Hf [Hv _]%Forall_cons].
  assert (Hsnoc : length (l ++ [v]) = S (length l)) by (rewrite length_app; simpl; lia).
  rewrite Hsnoc in *. rewrite pack_app, pack_cons, app_nil_r in Hc, Hlen.
  rewrite <- !app_assoc in Hc. cbn [upgrade_loop].
  rewrite (getEncoded_at s cur l v _ Hcur Hv Hc). simpl.
  set (R := le_encode (Z.to_nat cur) v ++ gap) in *.
  set (k := (length R - Z.to_nat (is_encoding s))%nat).
  assert (HR : Z.of_nat (length (pack cur l)) + Z.of_nat (length R)
               = is_encoding s * (Z.of_nat (S (length l)) + prepend)).
  { rewrite <- Hlen. unfold R. rewrite !length_app. lia. }
  assert (Hpos : 0 < is_encoding s) by (destruct Hnew as [->|[->| ->]]; lia).
  rewrite length_pack in HR.
  assert (cur * Z.of_nat (length l) <= is_encoding s * Z.of_nat (length l)) by nia.
  assert (0 <= cur) by (destruct Hcur as [->|[->| ->]]; lia).
  erewrite (set_at s (pack cur l ++ take k R) (drop k R) _ _ Hnew).
  - simpl. rewrite <- app_assoc.
    destruct (IH (set_contents s (pack cur l ++ take k R ++
        le_encode (Z.to_nat (is_encoding s)) v ++ pack (is_encoding s) rest ++ tail))
        (v :: rest) (take k R) tail) as (gap' & Hg & Hloop); try done.
    + simpl. by rewrite pack_cons, <- !app_assoc.
    + simpl. rewrite length_app, length_pack, length_take. unfold k. nia.
    + exists gap'. split; [done|]. rewrite Hloop. simpl. by rewrite <- app_assoc.
  - rewrite Hc, <- app_assoc. f_equal. rewrite (app_assoc (take k R)), take_drop.
    unfold R. by rewrite <- app_assoc.
  - rewrite length_drop. unfold k. nia.
  - rewrite length_app, length_pack, length_take. unfold k. nia.
Qed.

Lemma u32_succ n : 0 <= n < 2 ^ 32 - 1 -> u32 (n + 1) = n + 1.
Proof. intros. apply wrapU_id. unfold inU. zpow; lia. Qed.

Lemma stores_fits_mono s l e :
  stores s l -> valid_enc e -> is_encoding s <= e -> Forall (inS (8 * e)) l.
Proof.
  intros [He _ _ Hf] He' Hle. eapply Forall_impl; [done|].
  intros x. by apply inS_mono.
Qed.

Section AddRemove.
Variable junk : nat -> Z.

(** [intsetResize] never trips its assertion at the lengths we consider. *)
Lemma intsetResize_Some s len :
  valid_enc (is_encoding s) -> 0 <= len < 2 ^ 32 ->
  intsetResize junk s len =
    Some (set_contents s (mrealloc junk (is_contents s) (len * is_encoding s))).
Proof.
  intros He Hlen. unfold intsetResize, sizeof_intset. zpow.
  rewrite wrapU_id by (unfold inU; zpow; destruct He as [->|[->| ->]]; lia).
  unfold cassert. rewrite (proj2 (Z.leb_le _ _)); [done|].
  destruct He as [->|[->| ->]]; lia.
Qed.

(** The upgrade puts the value at the end its sign says. *)
Lemma upgradeAndAdd_stores s l value :
  stores s l -> inS 64 value -> Z.of_nat (length l) < 2 ^ 31 ->
  is_encoding s < _intsetValueEncoding value ->
  exists s', intsetUpgradeAndAdd junk s value = Some s' /\
    stores s' (if value <? 0 then value :: l else l ++ [value]).
Proof.
  intros Hs Hv Hlen Hwide. pose proof Hs as [He Hn Hc Hf].
  pose proof (valueEncoding_valid value) as Hnew.
  pose proof (valueEncoding_fits value Hv) as Hvf.
  pose proof (stores_fits_mono _ _ _ Hs Hnew ltac:(lia)) as Hlf.
  unfold intsetUpgradeAndAdd. set (new := _intsetValueEncoding value) in *.
  rewrite Hn, u32_succ by (zpow; lia).
  rewrite wrapS_id by (unfold inS; zpow; lia). rewrite Nat2Z.id.
  rewrite (wrapU_id 8) by (unfold inU; zpow; destruct He as [->|[->| ->]]; lia).
  rewrite intsetResize_Some by (simpl; auto; zpow; lia). simpl.
  assert (Hpos : 0 < is_encoding s < new) by (unfold valid_enc in He; lia).
  destruct (mrealloc_grow junk (is_contents s) ((Z.of_nat (length l) + 1) * new))
    as (tl & -> & Htl).
  { rewrite Hc, length_pack. nia. }
  set (s1 := set_contents (set_encoding s new) (is_contents s ++ tl)).
  assert (Hpk : Z.of_nat (length (pack (is_encoding s) l)) = is_encoding s * Z.of_nat (length l)).
  { rewrite length_pack. lia. }
  rewrite Hc in Htl. rewrite Hpk in Htl.
  destruct (value <? 0) eqn:Eneg; simpl.
  - destruct (upgrade_loop_spec s1 (is_encoding s) 1 l [] tl []) as (gap & Hg & ->);
      try done; try (simpl; lia).
    { simpl. by rewrite Hc, app_nil_r. }
    { simpl. rewrite length_app. lia. }
    simpl. rewrite !app_nil_r.
    erewrite (set_at _ [] gap (pack new l)); try done; try (simpl in *; lia).
    simpl. eexists; split; [done|]. split; simpl; auto.
    rewrite Hn, u32_succ by (zpow; lia). lia.
  - set (k := Z.to_nat (new * Z.of_nat (length l) - is_encoding s * Z.of_nat (length l))).
    destruct (upgrade_loop_spec s1 (is_encoding s) 0 l [] (take k tl) (drop k tl))
      as (gap & Hg & ->); try done; try (simpl; lia).
    { simpl. by rewrite Hc, take_drop. }
    { simpl. rewrite length_app, length_take, Z.add_0_r. unfold k. nia. }
    simpl in *. destruct gap; [|simpl in Hg; lia]. rewrite app_nil_r. simpl.
    erewrite (set_at _ (pack new l) (drop k tl) []); try done.
    + simpl. eexists; split; [done|]. split; simpl; auto.
      * rewrite Hn, u32_succ by (zpow; lia). rewrite length_app. simpl. lia.
      * by rewrite pack_app, pack_cons, !app_nil_r.
      * apply Forall_app; auto.
    + by rewrite app_nil_r.
    + simpl. rewrite length_drop. unfold k. nia.
    + simpl. rewrite length_pack. rewrite Hn. lia.
Qed.

(** Moving the tail is moving whole elements. *)
Lemma intsetMoveTail_eq s from to :
  valid_enc (is_encoding s) -> 0 <= from <= is_length s ->
  is_length s < 2 ^ 29 ->
  intsetMoveTail s from to =
    (c ← mmove (is_contents s) (is_encoding s * to) (is_encoding s * from)
           (is_encoding s * (is_length s - from));
     Some (set_contents s c)).
Proof.
  intros He Hf Hlen. unfold intsetMoveTail.
  rewrite (wrapU_id 32 (is_length s - from)) by (unfold inU; zpow; lia).
  destruct He as [->|[->| ->]]; simpl; rewrite wrapU_id by (unfold inU; zpow; lia);
    by rewrite (Z.mul_comm (_ - _)).
Qed.

(** Writing the value in the gap between the two parts. *)
Lemma set_gap s l1 l2 value :
  valid_enc (is_encoding s) -> is_length s = Z.of_nat (length l1 + length l2) ->
  is_length s < 2 ^ 32 - 1 ->
  forall x, Z.of_nat (length x) = is_encoding s ->
    (s2 ← _intsetSet (set_contents s (pack (is_encoding s) l1 ++ x ++ pack (is_encoding s) l2))
            (Z.of_nat (length l1)) value;
     Some (set_length s2 (u32 (is_length s2 + 1)), true))
    = Some (mkIntset (is_encoding s) (is_length s + 1)
              (pack (is_encoding s) (l1 ++ value :: l2)), true).
Proof.
  intros He Hn Hlen x Hx.
  erewrite (set_at _ (pack (is_encoding s) l1) x (pack (is_encoding s) l2)); try done.
  - simpl. rewrite u32_succ by (zpow; lia). by rewrite pack_app, pack_cons.
  - simpl. rewrite length_pack. unfold valid_enc in He. lia.
Qed.

(** Adding where the search says, in the present encoding. *)
Lemma intsetAdd_stores s l value :
  stores s l -> StronglySorted Z.lt l -> inS 64 value -> Z.of_nat (length l) < 2 ^ 29 - 1 ->
  _intsetValueEncoding value <= is_encoding s -> value ∉ l ->
  exists s' l1 l2, l = l1 ++ l2 /\ Forall (fun x => x < value) l1 /\
    Forall (fun x => value < x) l2 /\ intsetAdd junk s value = Some (s', true) /\ stores s' (l1 ++ value :: l2).
Proof.
  intros Hs Hsort Hv Hlen Hle Hnot. unfold intsetAdd. rewrite Z.gtb_ltb.
  rewrite (proj2 (Z.ltb_ge _ _)) by lia.
  destruct (intsetSearch_spec s l value Hs Hsort ltac:(zpow; lia))
    as [(pos & _ & _ & Hin)|(pos & -> & l1 & l2 & -> & -> & H1 & H2)].
  { by apply list_elem_of_lookup_2 in Hin. }
  pose proof Hs as [He Hn Hc Hf]. simpl. rewrite length_app in *.
  rewrite Hn, !u32_succ by (zpow; lia).
  rewrite intsetResize_Some by (auto; zpow; lia). simpl.
  assert (Hpos : 0 < is_encoding s) by (unfold valid_enc in He; lia).
  destruct (mrealloc_grow junk (is_contents s)
    ((Z.of_nat (length l1 + length l2) + 1) * is_encoding s)) as (tl & -> & Htl).
  { rewrite Hc, length_pack, length_app. nia. }
  rewrite Hc, length_pack, length_app in Htl. rewrite Hc.
  pose proof (stores_fits_mono _ _ _ Hs He ltac:(lia)) as Hlf.
  exists (mkIntset (is_encoding s) (is_length s + 1) (pack (is_encoding s) (l1 ++ value :: l2))), l1, l2.
  assert (Hfinal : stores (mkIntset (is_encoding s) (is_length s + 1)
      (pack (is_encoding s) (l1 ++ value :: l2))) (l1 ++ value :: l2)).
  { apply Forall_app in Hf as [Hf1 Hf2]. split; simpl; auto.
    - rewrite Hn, !length_app. simpl. lia.
    - apply Forall_app. split; [done|]. constructor; [|done].
      apply (inS_mono (_intsetValueEncoding value));
        auto using valueEncoding_valid, valueEncoding_fits. }
  split_and!; try done.
  set (e := is_encoding s) in *.
  pose proof (set_gap s l1 l2 value He Hn ltac:(zpow; lia)) as Hset. fold e in Hset.
  destruct (_ <? _) eqn:Elt; zbool.
  - rewrite intsetMoveTail_eq by (simpl; auto; zpow; lia). simpl.
    fold e. rewrite pack_app, <- app_assoc.
    destruct (mmove_up (pack e l1) (pack e l2) tl (e * (Z.of_nat (length l1) + 1))
      (e * Z.of_nat (length l1)) (e * (is_length s - Z.of_nat (length l1))))
      as (x & Hx & ->); rewrite ?length_pack; fold e.
    { unfold e; lia. } { rewrite Hn. unfold e; lia. }
    { unfold e in *. nia. }
    simpl. apply Hset. unfold e in *. nia.
  - simpl. assert (l2 = []) as -> by (destruct l2; [done|simpl in *; lia]).
    rewrite app_nil_r in *. rewrite <- (Hset tl); [|unfold e in *; nia].
    by rewrite app_nil_r.
Qed.

Lemma stores_middle s l1 x l2 :
  stores s (l1 ++ x :: l2) ->
  stores (mkIntset (is_encoding s) (is_length s - 1) (pack (is_encoding s) (l1 ++ l2)))
    (l1 ++ l2).
Proof.
  intros [He Hn Hc Hf]. apply Forall_app in Hf as [Hf1 [_ Hf2]%Forall_cons].
  split; simpl; auto; [|by apply Forall_app].
  rewrite Hn, !length_app. simpl. lia.
Qed.

(** Cutting the array after the two parts. *)
Lemma resize_cut s l1 l2 :
  valid_enc (is_encoding s) -> is_length s - 1 = Z.of_nat (length l1 + length l2) ->
  is_length s < 2 ^ 32 ->
  forall y, length y = Z.to_nat (is_encoding s) ->
    (s2 ← intsetResize junk
            (set_contents s (pack (is_encoding s) l1 ++ pack (is_encoding s) l2 ++ y))
            (is_length s - 1);
     Some (set_length s2 (is_length s - 1), true))
    = Some (mkIntset (is_encoding s) (is_length s - 1)
              (pack (is_encoding s) (l1 ++ l2)), true).
Proof.
  intros He Hn Hlen y Hy. rewrite intsetResize_Some by (simpl; auto; zpow; lia).
  unfold set_length, set_contents. simpl. do 3 f_equal.
  rewrite app_assoc, <- pack_app. unfold valid_enc in He. rewrite mrealloc_shrink.
  - rewrite take_app_length'; [done|]. rewrite length_pack, length_app. nia.
  - rewrite length_app, length_pack, length_app. nia.
Qed.

(** Removing the value the search found. *)
Lemma intsetRemove_stores s l1 value l2 :
  stores s (l1 ++ value :: l2) -> StronglySorted Z.lt (l1 ++ value :: l2) ->
  inS 64 value -> Z.of_nat (length (l1 ++ value :: l2)) < 2 ^ 29 ->
  exists s', intsetRemove junk s value = Some (s', true) /\ stores s' (l1 ++ l2).
Proof.
  intros Hs Hsort Hv Hlen. unfold intsetRemove.
  pose proof Hs as [He Hn Hc Hf].
  rewrite (proj2 (Z.leb_le _ _)).
  2: { destruct (Z.le_gt_cases (_intsetValueEncoding value) (is_encoding s)) as [|Hgt]; [done|].
       apply (valueEncoding_wider _ _ He) in Hgt as []. rewrite Forall_forall in Hf.
       apply Hf. set_solver. }
  destruct (intsetSearch_spec s _ value Hs Hsort ltac:(zpow; lia))
    as [(pos & -> & Hpos & Hin)|(pos & _ & Hins)].
  2: { apply insertion_point_notin in Hins. set_solver. }
  assert (pos = Z.of_nat (length l1)) as ->.
  { apply NoDup_lookup with (i := Z.to_nat pos) (j := length l1) (x := value) in Hin;
      [lia| |by apply list_lookup_middle].
    apply (StronglySorted_NoDup_lt _ Hsort). }
  simpl. pose proof (stores_middle _ _ _ _ Hs) as Hfin. revert Hfin.
  set (e := is_encoding s) in *. intros Hfin.
  rewrite length_app in *. simpl in *.
  rewrite !(wrapU_id 32) by (unfold inU; zpow; lia).
  eexists. split; [|exact Hfin].
  pose proof (resize_cut s l1 l2 He ltac:(lia) ltac:(zpow; lia)) as Hrs. fold e in Hrs.
  rewrite pack_app, pack_cons in Hc.
  destruct (_ <? _) eqn:Elt; zbool.
  - rewrite intsetMoveTail_eq by (auto; zpow; lia). fold e. rewrite Hc.
    destruct (mmove_down (pack e l1) (le_encode (Z.to_nat e) value) (pack e l2)
      (e * Z.of_nat (length l1)) (e * (Z.of_nat (length l1) + 1))
      (e * (is_length s - (Z.of_nat (length l1) + 1)))) as (y & Hy & ->);
      rewrite ?length_pack, ?length_le_encode; unfold e, valid_enc in *; try nia.
    simpl. apply Hrs. by rewrite Hy, length_le_encode.
  - simpl. assert (l2 = []) as -> by (destruct l2; [done|simpl in *; lia]).
    rewrite <- (Hrs (le_encode (Z.to_nat e) value)) by apply length_le_encode.
    do 2 f_equal. unfold set_contents. destruct s. simpl in *. by rewrite Hc, app_nil_r.
Qed.
End AddRemove.

(** ** What an intset promises: a finite set of 64-bit integers *)

Lemma size_sorted (l : list Z) :
  StronglySorted Z.lt l -> size (list_to_set l : gset Z) = length l.
Proof. intros. by apply size_list_to_set, StronglySorted_NoDup_lt. Qed.

Lemma upgrade_sorted s l value :
  stores s l -> StronglySorted Z.lt l -> is_encoding s < _intsetValueEncoding value ->
  value ∉ l /\ StronglySorted Z.lt (if value <? 0 then value :: l else l ++ [value]).
Proof.
  intros Hs Hsort Hwide. pose proof Hs as [He _ _ Hf].
  pose proof (valueEncoding_wider value _ He Hwide) as Hout.
  rewrite Forall_forall in Hf. split; [by intros Hin; apply Hout, Hf|].
  unfold inS in *. destruct (value <? 0) eqn:E; zbool.
  - constructor; [done|]. apply Forall_forall. intros x Hx%Hf. lia.
  - apply StronglySorted_app_2; [|done|repeat constructor].
    intros x y Hx%Hf ->%list_elem_of_singleton. lia.
Qed.

(** C22: [intsetAdd] implements set insertion: on an intset that represents
    [X] it returns (without any access out of bounds, whatever the bytes
    [zrealloc] adds hold) an intset that represents [X ∪ {value}], and the
    success flag says whether the value was new. It covers the widening of
    the encoding in place. The size bound is where the 32-bit byte count of
    [intsetMoveTail] does not wrap. *)
Theorem intsetAdd_refines junk s X value :
  represents s X -> inS 64 value -> Z.of_nat (size X) < 2 ^ 29 - 1 ->
  exists s', intsetAdd junk s value = Some (s', bool_decide (value ∉ X)) /\
    represents s' ({[value]} ∪ X).
Proof.
  intros (l & Hs & Hsort & ->) Hv Hsize. rewrite size_sorted in Hsize by done.
  destruct (Z.le_gt_cases (_intsetValueEncoding value) (is_encoding s)) as [Hle|Hgt].
  - destruct (decide (value ∈ l)) as [Hin|Hnot].
    + unfold intsetAdd. rewrite Z.gtb_ltb, (proj2 (Z.ltb_ge _ _)) by lia.
      destruct (intsetSearch_spec s l value Hs Hsort ltac:(zpow; lia))
        as [(pos & -> & _)|(pos & _ & Hins)].
      2: { by apply insertion_point_notin in Hins. }
      simpl. exists s. rewrite bool_decide_false by set_solver. split; [done|].
      exists l. split_and!; [done|done|set_solver].
    + destruct (intsetAdd_stores junk s l value Hs Hsort Hv ltac:(zpow; lia) Hle Hnot)
        as (s' & l1 & l2 & -> & H1 & H2 & -> & Hs').
      exists s'. rewrite bool_decide_true by set_solver. split; [done|].
      exists (l1 ++ value :: l2). split_and!; [done| |set_solver].
      apply StronglySorted_app in Hsort as (Hx & Hl1 & Hl2).
      rewrite Forall_forall in H1, H2. apply StronglySorted_app_2; [|done|].
      * intros x y Hx1 [->|Hy]%elem_of_cons; auto.
      * constructor; [done|]. by apply Forall_forall.
  - destruct (upgrade_sorted s l value Hs Hsort ltac:(lia)) as [Hnot Hsort'].
    destruct (upgradeAndAdd_stores junk s l value Hs Hv ltac:(zpow; lia) ltac:(lia))
      as (s' & Hup & Hs').
    unfold intsetAdd. rewrite Z.gtb_ltb, (proj2 (Z.ltb_lt _ _)) by lia. rewrite Hup.
    exists s'. rewrite bool_decide_true by set_solver. split; [done|].
    eexists. split_and!; [exact Hs'|done|]. destruct (value <? 0); set_solver.
Qed.

(** [intsetRemove] implements set deletion, and its flag says whether the
    value was a member. *)
Theorem intsetRemove_refines junk s X value :
  represents s X -> inS 64 value -> Z.of_nat (size X) < 2 ^ 29 ->
  exists s', intsetRemove junk s value = Some (s', bool_decide (value ∈ X)) /\
    represents s' (X ∖ {[value]}).
Proof.
  intros (l & Hs & Hsort & ->) Hv Hsize. rewrite size_sorted in Hsize by done.
  destruct (decide (value ∈ l)) as [Hin|Hnot].
  - destruct (list_elem_of_split _ _ Hin) as (l1 & l2 & ->).
    destruct (intsetRemove_stores junk s l1 value l2 Hs Hsort Hv Hsize) as (s' & -> & Hs').
    exists s'. rewrite bool_decide_true by set_solver. split; [done|].
    exists (l1 ++ l2). split; [done|].
    pose proof (StronglySorted_NoDup_lt _ Hsort) as (Hd1 & Hd2 & [Hd3 _]%NoDup_cons)%NoDup_app.
    apply StronglySorted_app in Hsort as (Hx & Hl1 & [_ Hl2]%StronglySorted_cons).
    split; [apply StronglySorted_app_2; set_solver|].
    assert (value ∉ l1) by set_solver. set_solver.
  - exists s. rewrite bool_decide_false by set_solver. split.
    + unfold intsetRemove. destruct (_ <=? _) eqn:E; [|done].
      destruct (intsetSearch_spec s l value Hs Hsort ltac:(zpow; lia))
        as [(pos & _ & _ & Hin%list_elem_of_lookup_2)|(pos & -> & _)]; done.
    + exists l. split_and!; [done|done|set_solver].
Qed.

(** [intsetFind] decides membership. *)
Theorem intsetFind_refines s X value :
  represents s X -> inS 64 value -> Z.of_nat (size X) < 2 ^ 31 ->
  intsetFind s value = Some (bool_decide (value ∈ X)).
Proof.
  intros (l & Hs & Hsort & ->) Hv Hsize. rewrite size_sorted in Hsize by done.
  unfold intsetFind. pose proof Hs as [He _ _ Hf].
  destruct (_ <=? _) eqn:E; zbool.
  - destruct (intsetSearch_spec s l value Hs Hsort Hsize)
      as [(pos & -> & _ & Hin%list_elem_of_lookup_2)|(pos & -> & Hins%insertion_point_notin)];
      simpl; [rewrite bool_decide_true|rewrite bool_decide_false]; set_solver.
  - rewrite bool_decide_false; [done|]. rewrite elem_of_list_to_set.
    intros Hin. rewrite Forall_forall in Hf. by apply (valueEncoding_wider value _ He E), Hf.
Qed.

(** ** Ordered access *)

Lemma s32_pos n : 0 <= n < 2 ^ 31 -> s32 n = n.
Proof. intros. apply wrapS_id; [lia|]. unfold inS. zpow; lia. Qed.

(** The observers see the members in increasing order: position [pos] of
    [intsetGet] is the [pos]-th smallest member (or out of range), [intsetMin]
    and [intsetMax] are the extremes and [intsetRandom] is a member, whatever
    the random number. *)
Theorem intset_observers s X :
  represents s X -> X ≠ ∅ -> Z.of_nat (size X) < 2 ^ 31 ->
  exists l, StronglySorted Z.lt l /\ (forall x, x ∈ X <-> x ∈ l) /\
    intsetLen s = Z.of_nat (length l) /\
    (forall pos, 0 <= pos -> intsetGet s pos = Some (l !! Z.to_nat pos)) /\
    (exists v, intsetMin s = Some v /\ v ∈ X /\ forall x, x ∈ X -> v <= x) /\
    (exists v, intsetMax s = Some v /\ v ∈ X /\ forall x, x ∈ X -> x <= v) /\
    (forall rnd, 0 <= rnd -> exists v, intsetRandom s rnd = Some v /\ v ∈ X).
Proof.
  intros (l & Hs & Hsort & ->) Hne Hsize. rewrite size_sorted in Hsize by done.
  pose proof (st_len _ _ Hs) as Hn.
  assert (Hl : (0 < length l)%nat) by (destruct l; [set_solver|simpl; lia]).
  assert (Hat : forall i, (i < length l)%nat -> exists v,
    l !! i = Some v /\ _intsetGet s (Z.of_nat i) = Some v).
  { intros i [v Hv]%lookup_lt_is_Some_2. eauto using intsetGet_lookup. }
  exists l. split_and!; [done|set_solver|done| | | |].
  - intros pos Hp. unfold intsetGet. destruct (_ <? _) eqn:E; zbool.
    + rewrite s32_pos by lia. destruct (Hat (Z.to_nat pos)) as (v & Hv & Hg); [lia|].
      rewrite Z2Nat.id in Hg by lia. by rewrite Hg, Hv.
    + rewrite lookup_ge_None_2; [done|lia].
  - destruct (Hat 0%nat) as (v & Hv & Hg); [done|]. exists v. split_and!; [done|set_solver by eauto using list_elem_of_lookup_2|].
    intros x [i Hi]%elem_of_list_to_set%list_elem_of_lookup.
    destruct i; [simplify_eq; lia|]. pose proof (sorted_lookup_lt _ _ _ _ _ Hsort Hv Hi). lia.
  - destruct (Hat (length l - 1)%nat) as (v & Hv & Hg); [lia|]. exists v.
    unfold intsetMax. rewrite Hn, (wrapU_id 32), s32_pos by (unfold inU; zpow; lia).
    replace (Z.of_nat (length l) - 1) with (Z.of_nat (length l - 1)) by lia.
    split_and!; [done|set_solver by eauto using list_elem_of_lookup_2|].
    intros x [i Hi]%elem_of_list_to_set%list_elem_of_lookup.
    pose proof (lookup_lt_Some _ _ _ Hi).
    destruct (decide (i = length l - 1)%nat) as [->|]; [simplify_eq; lia|].
    pose proof (sorted_lookup_lt _ _ _ _ _ Hsort Hi Hv). lia.
  - intros rnd Hr. unfold intsetRandom. rewrite Hn.
    rewrite (proj2 (Z.eqb_neq _ _)) by lia. simpl.
    pose proof (Z.mod_pos_bound rnd (Z.of_nat (length l)) ltac:(lia)).
    rewrite s32_pos by lia.
    destruct (Hat (Z.to_nat (rnd mod Z.of_nat (length l)))) as (v & Hv & Hg); [lia|].
    rewrite Z2Nat.id in Hg by lia. exists v. split; [done|]. set_solver by eauto using list_elem_of_lookup_2.
Qed.

(** ** Validation of a serialized intset *)








(** ** Witnesses *)

(** The 16-bit intset of -3 and 5, and its blob. *)
Definition ex_intset : intset := mkIntset 2 2 [253; 255; 5; 0].
Definition ex_set : gset Z := {[-3; 5]}.

Lemma ex_represents : represents ex_intset ex_set.
Proof.
  exists [-3; 5]. split_and!.
  - split; [by left|done|done|]. repeat constructor; vm_compute; congruence.
  - by repeat constructor.
  - set_solver.
Qed.

Lemma intsetAdd_refines_witness :
  exists s', intsetAdd (fun _ => 170) ex_intset 70000 = Some (s', true) /\
    represents s' ({[70000]} ∪ ex_set).
Proof.
  apply (intsetAdd_refines (fun _ => 170) ex_intset ex_set 70000 ex_represents);
    vm_compute; [split; congruence|reflexivity].
Defined.

Lemma intsetRemove_refines_witness :
  exists s', intsetRemove (fun _ => 170) ex_intset (-3) = Some (s', true) /\
    represents s' (ex_set ∖ {[-3]}).
Proof.
  apply (intsetRemove_refines (fun _ => 170) ex_intset ex_set (-3) ex_represents);
    vm_compute; [split; congruence|reflexivity].
Defined.

Lemma intsetFind_refines_witness : intsetFind ex_intset 5 = Some true.
Proof.
  apply (intsetFind_refines ex_intset ex_set 5 ex_represents);
    vm_compute; [split; congruence|reflexivity].
Defined.

Lemma intset_observers_witness :
  exists l, StronglySorted Z.lt l /\ (forall x, x ∈ ex_set <-> x ∈ l) /\
    intsetLen ex_intset = Z.of_nat (length l).
Proof.
  destruct (intset_observers ex_intset ex_set ex_represents) as (l & H1 & H2 & H3 & _).
  - vm_compute; congruence.
  - reflexivity.
  - exists l. auto.
Defined.


(** The concrete upgrade: all the elements are rewritten with 4 bytes. *)
Example intsetAdd_upgrade_run :
  intsetAdd (fun _ => 170) ex_intset 70000 =
    Some (mkIntset 4 3 [253; 255; 255; 255; 5; 0; 0; 0; 112; 17; 1; 0], true).
Proof. vm_compute. reflexivity. Qed.
