(* ===== verification/Gf2.v ===== *)
(** * Linear functions on words

    The checksums are linear over GF(2): [f (x xor y) = f x xor f y]. Two
    linear functions that agree on the powers of two agree on every word,
    which is how the table driven and the bit by bit routines are compared.
    [Linear] is a type class, and the instances below derive the linearity of
    an expression from its shape. *)

From S2P Require Import Prelude.

#[local] Open Scope Z_scope.

Class Linear (f : Z -> Z) : Prop :=
  linear_xor x y : f (Z.lxor x y) = Z.lxor (f x) (f y).

Ltac zbits :=
  apply Z.bits_inj'; intros ? ?;
  repeat first [rewrite Z.lxor_spec | rewrite Z.land_spec | rewrite Z.lor_spec | rewrite Z.bits_0].

Lemma lxor_swap4 a b c d :
  Z.lxor (Z.lxor a b) (Z.lxor c d) = Z.lxor (Z.lxor a c) (Z.lxor b d).
Proof. rewrite !Z.lxor_assoc. f_equal. rewrite <- !Z.lxor_assoc. f_equal. apply Z.lxor_comm. Qed.

Lemma linear_0 f `{!Linear f} : f 0 = 0.
Proof. pose proof (linear_xor 0 0) as H. rewrite !Z.lxor_nilpotent in H. done. Qed.

#[export] Instance linear_id : Linear (fun x => x).
Proof. done. Qed.

#[export] Instance linear_zero : Linear (fun _ => 0).
Proof. done. Qed.

#[export] Instance linear_shiftr f n : Linear f -> Linear (fun x => Z.shiftr (f x) n).
Proof. intros Hf x y. by rewrite Hf, Z.shiftr_lxor. Qed.

#[export] Instance linear_shiftl f n : Linear f -> Linear (fun x => Z.shiftl (f x) n).
Proof. intros Hf x y. by rewrite Hf, Z.shiftl_lxor. Qed.

Lemma land_lxor_distr_l a b c : Z.land (Z.lxor a b) c = Z.lxor (Z.land a c) (Z.land b c).
Proof.
  zbits. destruct (Z.testbit a _), (Z.testbit b _), (Z.testbit c _); done.
Qed.

#[export] Instance linear_land f c : Linear f -> Linear (fun x => Z.land (f x) c).
Proof. intros Hf x y. rewrite Hf. apply land_lxor_distr_l. Qed.

#[export] Instance linear_lxor f g :
  Linear f -> Linear g -> Linear (fun x => Z.lxor (f x) (g x)).
Proof. intros Hf Hg x y. rewrite Hf, Hg. apply lxor_swap4. Qed.

#[export] Instance linear_bit f i c :
  Linear f -> Linear (fun x => if Z.testbit (f x) i then c else 0).
Proof.
  intros Hf x y. rewrite Hf, Z.lxor_spec.
  destruct (Z.testbit (f x) i), (Z.testbit (f y) i); simpl;
    rewrite ?Z.lxor_0_r, ?Z.lxor_nilpotent; done.
Qed.

Lemma wrapU_land w x : 0 <= w -> wrapU w x = Z.land x (Z.ones w).
Proof. intros. by rewrite Z.land_ones. Qed.

#[export] Instance linear_wrapU8 f : Linear f -> Linear (fun x => u8 (f x)).
Proof. intros Hf x y. rewrite !wrapU_land, Hf by lia. apply land_lxor_distr_l. Qed.
#[export] Instance linear_wrapU16 f : Linear f -> Linear (fun x => u16 (f x)).
Proof. intros Hf x y. rewrite !wrapU_land, Hf by lia. apply land_lxor_distr_l. Qed.
#[export] Instance linear_wrapU64 f : Linear f -> Linear (fun x => u64 (f x)).
Proof. intros Hf x y. rewrite !wrapU_land, Hf by lia. apply land_lxor_distr_l. Qed.

(** A disjoint union of bits is an exclusive or. *)
Lemma lor_lxor a b : Z.land a b = 0 -> Z.lor a b = Z.lxor a b.
Proof. intros H. symmetry. by apply Z.lxor_lor. Qed.

Lemma linear_compose f g : Linear f -> Linear g -> Linear (fun x => f (g x)).
Proof. intros Hf Hg x y. by rewrite Hg, Hf. Qed.

Lemma linear_iter f n : Linear f -> Linear (Nat.iter n f).
Proof. intros Hf. induction n; intros x y; simpl; [done|]. by rewrite IHn, Hf. Qed.

(** ** Ranges by bits *)

Lemma inU_bits w x : 0 <= w -> inU w x <-> forall i, w <= i -> Z.testbit x i = false.
Proof.
  intros Hw. unfold inU. split.
  - intros Hx i Hi. rewrite <- (Z.mod_small x (2 ^ w)) by done. apply Z.mod_pow2_bits_high. lia.
  - intros Hb. assert (x = x mod 2 ^ w) as ->; [|apply Z.mod_pos_bound; by apply pow2_pos].
    apply Z.bits_inj'. intros i Hi. destruct (Z.lt_ge_cases i w).
    + by rewrite Z.mod_pow2_bits_low.
    + by rewrite Z.mod_pow2_bits_high, Hb by lia.
Qed.

Lemma lxor_range w x y : 0 <= w -> inU w x -> inU w y -> inU w (Z.lxor x y).
Proof.
  intros Hw Hx Hy. rewrite inU_bits in * by done. intros i Hi. by rewrite Z.lxor_spec, Hx, Hy.
Qed.

Lemma lor_range w x y : 0 <= w -> inU w x -> inU w y -> inU w (Z.lor x y).
Proof.
  intros Hw Hx Hy. rewrite inU_bits in * by done. intros i Hi. by rewrite Z.lor_spec, Hx, Hy.
Qed.

Lemma land_range w x y : 0 <= w -> inU w y -> inU w (Z.land x y).
Proof.
  intros Hw Hy. rewrite inU_bits in * by done. intros i Hi. by rewrite Z.land_spec, Hy, andb_false_r.
Qed.

(** Splitting off the top bit, and the low bits *)
Lemma split_top x n :
  0 <= n -> 0 <= x < 2 ^ (n + 1) ->
  x = Z.lxor (Z.land x (Z.ones n)) (if Z.testbit x n then 2 ^ n else 0).
Proof.
  intros Hn Hx. apply Z.bits_inj'. intros i Hi.
  rewrite Z.lxor_spec, Z.land_spec, Z.testbit_ones_nonneg by lia.
  replace (Z.testbit (if Z.testbit x n then 2 ^ n else 0) i) with (Z.testbit x n && (n =? i)).
  2: { destruct (Z.testbit x n); [by rewrite Z.pow2_bits_eqb|by rewrite Z.bits_0]. }
  destruct (Z.ltb_spec i n); destruct (Z.eqb_spec n i); try lia.
  - by rewrite andb_true_r, andb_false_r, xorb_false_r.
  - subst i. by rewrite andb_false_r, andb_true_r.
  - rewrite !andb_false_r. simpl. destruct (Z.eq_dec x 0) as [->|]; [apply Z.bits_0|].
    apply Z.bits_above_log2; [lia|]. apply Z.log2_lt_pow2; [lia|].
    apply Z.lt_le_trans with (2 ^ (n + 1)); [lia|]. apply Z.pow_le_mono_r; lia.
Qed.

Lemma split_low x n :
  0 <= n -> 0 <= x -> x = Z.lxor (Z.land x (Z.ones n)) (Z.shiftl (Z.shiftr x n) n).
Proof.
  intros Hn Hx. apply Z.bits_inj'. intros i Hi.
  rewrite Z.lxor_spec, Z.land_spec, Z.shiftl_spec, Z.testbit_ones_nonneg by lia.
  destruct (Z.ltb_spec i n).
  - rewrite (Z.testbit_neg_r _ (i - n)) by lia. by rewrite andb_true_r, xorb_false_r.
  - rewrite Z.shiftr_spec by lia. rewrite andb_false_r. simpl. f_equal. lia.
Qed.

Lemma land_ones_range x n : 0 <= n -> 0 <= Z.land x (Z.ones n) < 2 ^ n.
Proof. intros. rewrite Z.land_ones by lia. apply Z.mod_pos_bound, pow2_pos. lia. Qed.

(** Linear functions that agree on the basis agree. *)
Lemma linear_ext_basis (w : nat) f g `{!Linear f, !Linear g} :
  (forall i, 0 <= i < Z.of_nat w -> f (2 ^ i) = g (2 ^ i)) ->
  forall x, 0 <= x < 2 ^ Z.of_nat w -> f x = g x.
Proof.
  induction w as [|w IH]; intros Hb x Hx.
  - assert (x = 0) as -> by (change (2 ^ Z.of_nat 0) with 1 in Hx; lia).
    by rewrite !linear_0.
  - rewrite (split_top x (Z.of_nat w)) by (rewrite ?Z.add_1_r, <- ?Nat2Z.inj_succ; lia).
    rewrite !linear_xor. f_equal.
    + apply IH; [intros; apply Hb; lia|]. apply land_ones_range; lia.
    + destruct (Z.testbit _ _); [apply Hb; lia|by rewrite !linear_0].
Qed.

(** The check on the basis, by evaluation. *)
Definition basis_agree (w : nat) (f g : Z -> Z) : bool :=
  forallb (fun i => f (2 ^ Z.of_nat i) =? g (2 ^ Z.of_nat i)) (seq 0 w).

Lemma linear_ext (w : nat) f g `{!Linear f, !Linear g} :
  basis_agree w f g = true -> forall x, 0 <= x < 2 ^ Z.of_nat w -> f x = g x.
Proof.
  intros H. apply linear_ext_basis; [done..|]. intros i Hi.
  unfold basis_agree in H. rewrite forallb_forall in H.
  specialize (H (Z.to_nat i)). rewrite in_seq, Z2Nat.id in H by lia.
  apply Z.eqb_eq, H. lia.
Qed.

(** ** Matrices

    A matrix is the list of the images of the powers of two. *)

Fixpoint matvec (mat : list Z) (vec : Z) : Z :=
  match mat with
  | [] => 0
  | m :: mat => Z.lxor (if Z.testbit vec 0 then m else 0) (matvec mat (Z.shiftr vec 1))
  end.

#[export] Instance linear_matvec mat : Linear (matvec mat).
Proof.
  induction mat as [|m mat IH]; intros x y; cbn [matvec]; [done|].
  rewrite Z.shiftr_lxor, IH, (linear_bit (fun x => x) 0 m _ x y). apply lxor_swap4.
Qed.

Lemma matvec_0 mat : matvec mat 0 = 0.
Proof. apply linear_0, _. Qed.

Lemma matvec_pow2 mat i m : mat !! i = Some m -> matvec mat (2 ^ Z.of_nat i) = m.
Proof.
  revert i. induction mat as [|m' mat IH]; intros i Hi; [done|]. destruct i as [|i].
  - simpl in *. simplify_eq. rewrite matvec_0. apply Z.lxor_0_r.
  - cbn [matvec]. rewrite Nat2Z.inj_succ, Z.pow2_bits_eqb by lia.
    destruct (Z.eqb_spec (Z.succ (Z.of_nat i)) 0); [lia|].
    rewrite Z.shiftr_div_pow2, Z.pow_succ_r, Z.mul_comm, Z.div_mul by lia.
    rewrite Z.lxor_0_l. by apply IH.
Qed.

(** The matrix of a linear function *)
Definition columns (w : nat) (f : Z -> Z) : list Z :=
  (fun i => f (2 ^ Z.of_nat i)) <$> seq 0 w.

Lemma length_columns w f : length (columns w f) = w.
Proof. unfold columns. by rewrite length_fmap, length_seq. Qed.

Lemma lookup_columns w f i : (i < w)%nat -> columns w f !! i = Some (f (2 ^ Z.of_nat i)).
Proof. intros. unfold columns. rewrite list_lookup_fmap, lookup_seq_lt by done. done. Qed.

Lemma matvec_columns w f `{!Linear f} x :
  0 <= x < 2 ^ Z.of_nat w -> matvec (columns w f) x = f x.
Proof.
  apply (linear_ext_basis w); [apply _|done|]. intros i Hi.
  rewrite <- (Z2Nat.id i) by lia. apply matvec_pow2. apply lookup_columns. lia.
Qed.

(** ** Fields of bits *)

Lemma land_shift_low a r n : 0 <= n -> 0 <= a < 2 ^ n -> Z.land a (Z.shiftl r n) = 0.
Proof.
  intros Hn Ha. apply Z.bits_inj'. intros i Hi. rewrite Z.land_spec, Z.bits_0.
  destruct (Z.lt_ge_cases i n).
  - rewrite Z.shiftl_spec_low by done. apply andb_false_r.
  - rewrite (proj1 (inU_bits n a Hn) Ha) by lia. done.
Qed.

(** An [or] with higher bits is an addition. *)
Lemma lor_shiftl_add a r n :
  0 <= n -> 0 <= a < 2 ^ n -> Z.lor a (Z.shiftl r n) = a + r * 2 ^ n.
Proof.
  intros Hn Ha. rewrite lor_lxor, <- Z.add_nocarry_lxor by (by apply land_shift_low).
  by rewrite Z.shiftl_mul_pow2.
Qed.
