(* ===== verification/Crc64.v ===== *)
(** * CRC-64 ([crc64.c], [crcspeed.c], [crccombine.c])

    Redis checks its dumps with the Jones CRC-64. The code has a bit by bit
    routine ([_crc64]) that only fills a table of 8 x 256 words, the table
    driven routine that eats eight bytes per step and, on long inputs, two or
    three interleaved streams whose checksums are merged with a GF(2) matrix
    product ([crc64_combine]). The compiled configuration is the scalar one:
    [gf2_matrix_times_switch] and no static initialisation of the combine
    cache, which is filled at the first use. *)

From S2P Require Import Prelude Endianconv Gf2.

#[local] Open Scope Z_scope.

(** ** The bit by bit routine *)

Definition POLY : Z := 0xad93d23594c935a9.

Definition bswap64 (x : Z) : Z := be_decode (le_encode 8 x).

Definition crc_reflect (data data_len : Z) : option Z :=
  _ ← cassert (data_len <=? 64);
  let data := Z.lor (Z.land (Z.shiftr data 1) 0x5555555555555555)
                    (u64 (Z.shiftl (Z.land data 0x5555555555555555) 1)) in
  let data := Z.lor (Z.land (Z.shiftr data 2) 0x3333333333333333)
                    (u64 (Z.shiftl (Z.land data 0x3333333333333333) 2)) in
  let data := Z.lor (Z.land (Z.shiftr data 4) 0x0F0F0F0F0F0F0F0F)
                    (u64 (Z.shiftl (Z.land data 0x0F0F0F0F0F0F0F0F) 4)) in
  let data := bswap64 data in
  Some (Z.shiftr data (64 - data_len)).

(** One turn of the loop on the bits of a byte *)
Definition crc64_bit (c crc i : Z) : Z :=
  let bit := Z.land crc 0x8000000000000000 in
  let bit := if negb (Z.land c i =? 0) then (if bit =? 0 then 1 else 0) else bit in
  let crc := u64 (Z.shiftl crc 1) in
  if negb (bit =? 0) then Z.lxor crc POLY else crc.

(** [i] runs over the bits of a byte, the least significant one first. *)
Definition crc64_byte (crc c : Z) : Z :=
  let crc := foldl (crc64_bit c) crc [0x01; 0x02; 0x04; 0x08; 0x10; 0x20; 0x40; 0x80] in
  Z.land crc 0xffffffffffffffff.

Definition _crc64 (crc : Z) (data : list Z) : option Z :=
  let crc := foldl crc64_byte crc data in
  let crc := Z.land crc 0xffffffffffffffff in
  r ← crc_reflect crc 64;
  Some (Z.lxor r 0).

(** ** The tables

    [table[k][n]] is [t k n]. *)

Definition table : Type := Z -> Z -> Z.
Definition tset (t : table) (k n v : Z) : table :=
  fun k' n' => if (k' =? k) && (n' =? n) then v else t k' n'.

Fixpoint init_bytes (crcfn : Z -> list Z -> option Z) (ns : list Z) (t : table) : option table :=
  match ns with
  | [] => Some t
  | n :: ns => v ← crcfn 0 [n]; init_bytes crcfn ns (tset t 0 n v)
  end.

(** [for (int k = 1; k < 8; k++)] *)
Fixpoint init_nested (ks : list Z) (n crc : Z) (t : table) : table :=
  match ks with
  | [] => t
  | k :: ks =>
      let crc := Z.lxor (t 0 (Z.land crc 0xff)) (Z.shiftr crc 8) in
      init_nested ks n crc (tset t k n crc)
  end.

Definition crcspeed64little_init (crcfn : Z -> list Z -> option Z) (t : table) : option table :=
  t ← init_bytes crcfn (seqZ 0 256) t;
  Some (foldl (fun t n => init_nested (seqZ 1 7) n (t 0 n) t) t (seqZ 0 256)).

(** ** Combining checksums *)

Definition CRC64_REVERSED_POLY : Z := 0x95ac9329ac4bc9b5.

(** The [switch] on four bits of the vector *)
Definition times_case (vec m0 m1 m2 m3 sum : Z) : Z :=
  match Z.land vec 15 with
  | 15 => Z.lxor sum (Z.lxor (Z.lxor (Z.lxor m0 m1) m2) m3)
  | 14 => Z.lxor sum (Z.lxor (Z.lxor m1 m2) m3)
  | 13 => Z.lxor sum (Z.lxor (Z.lxor m0 m2) m3)
  | 12 => Z.lxor sum (Z.lxor m2 m3)
  | 11 => Z.lxor sum (Z.lxor (Z.lxor m0 m1) m3)
  | 10 => Z.lxor sum (Z.lxor m1 m3)
  | 9 => Z.lxor sum (Z.lxor m0 m3)
  | 8 => Z.lxor sum m3
  | 7 => Z.lxor sum (Z.lxor (Z.lxor m0 m1) m2)
  | 6 => Z.lxor sum (Z.lxor m1 m2)
  | 5 => Z.lxor sum (Z.lxor m0 m2)
  | 4 => Z.lxor sum m2
  | 3 => Z.lxor sum (Z.lxor m0 m1)
  | 2 => Z.lxor sum m1
  | 1 => Z.lxor sum m0
  | _ => sum
  end.

(** [while (vec)]: a 64-bit vector has sixteen groups of four bits. *)
Fixpoint times_loop (fuel : nat) (mat : list Z) (vec sum : Z) : option Z :=
  if vec =? 0 then Some sum else
  match fuel, mat with
  | S fuel, m0 :: m1 :: m2 :: m3 :: mat =>
      times_loop fuel mat (Z.shiftr vec 4) (times_case vec m0 m1 m2 m3 sum)
  | _, _ => None
  end.

Definition gf2_matrix_times_switch (mat : list Z) (vec : Z) : option Z :=
  times_loop 16 mat vec 0.

(** The rows written over the first [dim] ones of [square] *)
Fixpoint square_rows (mat : list Z) (rows : list Z) : option (list Z) :=
  match rows with
  | [] => Some []
  | r :: rows =>
      v ← gf2_matrix_times_switch mat r; vs ← square_rows mat rows; Some (v :: vs)
  end.

Definition gf2_matrix_square (square mat : list Z) (dim : nat) : option (list Z) :=
  _ ← cassert (Nat.leb dim (length mat));
  vs ← square_rows mat (take dim mat); Some (vs ++ drop dim square).

(** [combine_cache[dst]] gets the square of [combine_cache[src]]. *)
Definition square_layer (cache : list (list Z)) (dst src : nat) (dim : nat) : option (list (list Z)) :=
  square ← cache !! dst; mat ← cache !! src;
  row ← gf2_matrix_square square mat dim;
  Some (<[dst := row]> cache).

(** [row] and its doublings: the entries from 1 on *)
Fixpoint shifted_rows (n : nat) (row : Z) : list Z :=
  match n with
  | O => []
  | S n => row :: shifted_rows n (u64 (Z.shiftl row 1))
  end.

Fixpoint cache_loop (n : nat) (cache_num : nat) (src : nat) (dim : nat) (cache : list (list Z))
    : option (list (list Z)) :=
  match n with
  | O => Some cache
  | S n =>
      cache ← square_layer cache cache_num src dim;
      cache_loop n (S cache_num) cache_num dim cache
  end.

Definition init_combine_cache (cache : list (list Z)) (poly : Z) (dim : nat)
    : option (list (list Z)) :=
  layer ← cache !! 1%nat;
  let cache := <[1%nat := (poly :: shifted_rows (dim - 1) 1) ++ drop dim layer]> cache in
  cache ← square_layer cache 0 1 dim;
  cache ← square_layer cache 1 0 dim;
  cache_loop 64 0 1 dim cache.

(** [do ... while (len2 != 0)] *)
Fixpoint combine_loop (fuel : nat) (cache : list (list Z)) (crc1 len2 : Z) (cache_num : nat)
    : option Z :=
  match fuel with
  | O => None
  | S fuel =>
      crc1 ← (if negb (Z.land len2 1 =? 0) then
                mat ← cache !! cache_num; gf2_matrix_times_switch mat crc1
              else Some crc1);
      let len2 := Z.shiftr len2 1 in
      let cache_num := Nat.land (cache_num + 1) 63 in
      if negb (len2 =? 0) then combine_loop fuel cache crc1 len2 cache_num else Some crc1
  end.

(** The checksum, and the cache after the call *)
Definition crc64_combine (cache : list (list Z)) (crc1 crc2 len2 poly : Z) (dim : nat)
    : option (Z * list (list Z)) :=
  if len2 =? 0 then Some (crc1, cache) else
  first ← (layer ← cache !! 0%nat; layer !! 0%nat);
  cache ← (if first =? 0 then init_combine_cache cache poly dim else Some cache);
  crc1 ← combine_loop 64 cache crc1 len2 0;
  Some (Z.lxor crc1 crc2, cache).

(** ** The table driven routine

    [next1], [next2] and [next3] are the bytes from the pointer to the end of
    the buffer, [addr] the address of the buffer. *)

Definition CRC64_LEN_MASK : Z := 0x7ffffffffffffff8.

Definition DO_8_1 (crc : Z) (next : list Z) : option (Z * list Z) :=
  bs ← mload next 0 8; Some (Z.lxor crc (le_decode bs), drop 8 next).

Definition DO_8_2 (t : table) (crc : Z) : Z :=
  Z.lxor (Z.lxor (Z.lxor (Z.lxor (Z.lxor (Z.lxor (Z.lxor
    (t 7 (u8 crc))
    (t 6 (u8 (Z.shiftr crc 8))))
    (t 5 (u8 (Z.shiftr crc 16))))
    (t 4 (u8 (Z.shiftr crc 24))))
    (t 3 (u8 (Z.shiftr crc 32))))
    (t 2 (u8 (Z.shiftr crc 40))))
    (t 1 (u8 (Z.shiftr crc 48))))
    (t 0 (Z.shiftr crc 56)).

Definition byte_step (t : table) (crc b : Z) : Z :=
  Z.lxor (t 0 (Z.land (Z.lxor crc b) 0xff)) (Z.shiftr crc 8).

(** [while (len && ((uintptr_t)next1 & 7) != 0)] *)
Fixpoint align_loop (t : table) (addr crc1 : Z) (next1 : list Z) : Z * list Z :=
  match next1 with
  | [] => (crc1, next1)
  | b :: tl =>
      if Z.land addr 7 =? 0 then (crc1, next1)
      else align_loop t (addr + 1) (byte_step t crc1 b) tl
  end.

Fixpoint loop1 (fuel : nat) (t : table) (len crc1 : Z) (next1 : list Z) : option (Z * list Z) :=
  if len >=? 8 then
    match fuel with
    | O => None
    | S fuel =>
        '(crc1, next1) ← DO_8_1 crc1 next1;
        loop1 fuel t (len - 8) (DO_8_2 t crc1) next1
    end
  else Some (crc1, next1).

Fixpoint loop2 (fuel : nat) (t : table) (len crc1 crc2 : Z) (next1 next2 : list Z)
    : option (Z * Z * list Z) :=
  if len >=? 8 then
    match fuel with
    | O => None
    | S fuel =>
        '(crc1, next1) ← DO_8_1 crc1 next1;
        '(crc2, next2) ← DO_8_1 crc2 next2;
        loop2 fuel t (len - 8) (DO_8_2 t crc1) (DO_8_2 t crc2) next1 next2
    end
  else Some (crc1, crc2, next2).

Fixpoint loop3 (fuel : nat) (t : table) (len crc1 crc2 crc3 : Z) (next1 next2 next3 : list Z)
    : option (Z * Z * Z * list Z) :=
  if len >=? 8 then
    match fuel with
    | O => None
    | S fuel =>
        '(crc1, next1) ← DO_8_1 crc1 next1;
        '(crc2, next2) ← DO_8_1 crc2 next2;
        '(crc3, next3) ← DO_8_1 crc3 next3;
        loop3 fuel t (len - 8) (DO_8_2 t crc1) (DO_8_2 t crc2) (DO_8_2 t crc3)
          next1 next2 next3
    end
  else Some (crc1, crc2, crc3, next3).

(** The static variables: the two cutoffs and the cache *)
Record crc_globals := mkGlobals {
  CRC64_DUAL_CUTOFF : Z;
  CRC64_TRI_CUTOFF : Z;
  combine_cache : list (list Z)
}.

Definition set_crc64_cutoffs (g : crc_globals) (dual_cutoff tri_cutoff : Z) : crc_globals :=
  mkGlobals dual_cutoff tri_cutoff (combine_cache g).

(** The interleaved part: the checksum so far, the bytes left and the cache *)
Definition interleaved (g : crc_globals) (t : table) (crc1 : Z) (next1 : list Z)
    : option (Z * list Z * list (list Z)) :=
  let cache := combine_cache g in
  let len := Z.of_nat (length next1) in
  if len >? CRC64_TRI_CUTOFF g then
    let seg := Z.land (len / 3) CRC64_LEN_MASK in
    let next2 := drop (Z.to_nat seg) next1 in
    let next3 := drop (Z.to_nat seg) next2 in
    '(crc1, crc2, crc3, next3) ← loop3 (length next1) t seg crc1 0 0 next1 next2 next3;
    '(crc1, cache) ← crc64_combine cache crc1 crc2 seg CRC64_REVERSED_POLY 64;
    '(crc1, cache) ← crc64_combine cache crc1 crc3 seg CRC64_REVERSED_POLY 64;
    Some (crc1, next3, cache)
  else if len >? CRC64_DUAL_CUTOFF g then
    let seg := Z.land (len / 2) CRC64_LEN_MASK in
    let next2 := drop (Z.to_nat seg) next1 in
    '(crc1, crc2, next2) ← loop2 (length next1) t seg crc1 0 next1 next2;
    '(crc1, cache) ← crc64_combine cache crc1 crc2 seg CRC64_REVERSED_POLY 64;
    Some (crc1, next2, cache)
  else Some (crc1, next1, cache).

Definition crcspeed64little (g : crc_globals) (t : table) (crc1 addr : Z) (buf : list Z)
    : option (Z * crc_globals) :=
  if CRC64_DUAL_CUTOFF g <? 1 then Some (foldl (byte_step t) crc1 buf, g) else
  let '(crc1, next1) := align_loop t addr crc1 buf in
  '(crc1, next1, cache) ← interleaved g t crc1 next1;
  '(crc1, next1) ← loop1 (length next1) t (Z.of_nat (length next1)) crc1 next1;
  Some (foldl (byte_step t) crc1 next1,
        mkGlobals (CRC64_DUAL_CUTOFF g) (CRC64_TRI_CUTOFF g) cache).

(** [crc64_init] and [crc64] on a little endian host *)
Definition crc64_init (t : table) : option table := crcspeed64little_init _crc64 t.
Definition crc64 (g : crc_globals) (t : table) (crc addr : Z) (s : list Z) : option (Z * crc_globals) :=
  crcspeed64little g t crc addr s.

(** ** The reference: a bit serial register *)

Definition rstep (x : Z) : Z :=
  Z.lxor (Z.shiftr x 1) (if Z.testbit x 0 then CRC64_REVERSED_POLY else 0).

Definition rsteps (n x : Z) : Z := Nat.iter (Z.to_nat n) rstep x.

(** The checksum of [data] from the register [crc] *)
Definition crc_ref (crc : Z) (data : list Z) : Z :=
  foldl (fun c b => rsteps 8 (Z.lxor c b)) crc data.

#[export] Instance linear_rstep : Linear rstep.
Proof. unfold rstep. apply _. Qed.

#[export] Instance linear_rsteps n : Linear (rsteps n).
Proof. apply linear_iter, _. Qed.

Lemma rsteps_add a b x : 0 <= a -> 0 <= b -> rsteps (a + b) x = rsteps a (rsteps b x).
Proof. intros. unfold rsteps. by rewrite Z2Nat.inj_add, Nat.iter_add by lia. Qed.

Lemma rsteps_0 x : rsteps 0 x = x.
Proof. done. Qed.

(** Words *)
Lemma shiftr_range w n x : 0 <= n <= w -> inU w x -> 0 <= Z.shiftr x n < 2 ^ (w - n).
Proof.
  unfold inU. intros Hn Hx. rewrite Z.shiftr_div_pow2 by lia.
  split; [apply Z.div_pos; [lia|apply pow2_pos; lia]|].
  apply Z.div_lt_upper_bound; [apply pow2_pos; lia|].
  rewrite <- Z.pow_add_r by lia. replace (n + (w - n)) with w by lia. lia.
Qed.

Lemma shiftr_inU w n x : 0 <= w -> 0 <= n -> inU w x -> inU w (Z.shiftr x n).
Proof.
  unfold inU. intros Hw Hn Hx. rewrite Z.shiftr_div_pow2 by lia.
  pose proof (pow2_pos n Hn).
  split; [apply Z.div_pos; lia|]. apply Z.le_lt_trans with x; [|lia].
  apply Z.div_le_upper_bound; nia.
Qed.

Lemma rstep_range x : inU 64 x -> inU 64 (rstep x).
Proof.
  intros Hx. apply lxor_range; [lia|by apply shiftr_inU|].
  destruct (Z.testbit x 0); unfold inU; zpow; unfold CRC64_REVERSED_POLY; lia.
Qed.

Lemma rsteps_range n x : inU 64 x -> inU 64 (rsteps n x).
Proof. intros Hx. unfold rsteps. induction (Z.to_nat n); simpl; auto using rstep_range. Qed.

Lemma byte_inU64 b : is_byte b -> inU 64 b.
Proof. unfold is_byte, inU. zpow. lia. Qed.

#[local] Hint Resolve lxor_range rsteps_range byte_inU64 shiftr_inU : crc.

Lemma crc_ref_range crc data : inU 64 crc -> Forall is_byte data -> inU 64 (crc_ref crc data).
Proof.
  intros Hc Hd. revert crc Hc. induction Hd as [|b data Hb Hd IH]; intros crc Hc; [done|].
  apply IH. apply rsteps_range, lxor_range; [lia|done|by apply byte_inU64].
Qed.

(** A zero bit at the bottom is shifted out. *)
Lemma rsteps_shiftl n x : 0 <= n -> 0 <= x -> rsteps n (Z.shiftl x n) = x.
Proof.
  intros Hn Hx. unfold rsteps. rewrite <- (Z2Nat.id n) at 2 by lia.
  induction (Z.to_nat n) as [|k IH]; [apply Z.shiftl_0_r|].
  rewrite Nat.iter_succ_r. rewrite <- IH at 2. f_equal.
  unfold rstep. rewrite Z.shiftl_spec_low by lia. rewrite Z.lxor_0_r.
  rewrite Z.shiftr_shiftl_l by lia. f_equal. lia.
Qed.

(** The step of one byte, by the table *)
Lemma rsteps_split m x :
  0 <= m -> 0 <= x -> rsteps (m + 8) x = Z.lxor (rsteps (m + 8) (u8 x)) (rsteps m (Z.shiftr x 8)).
Proof.
  intros Hm Hx. rewrite (split_low x 8) at 1 by lia. rewrite linear_xor.
  rewrite <- wrapU_land by lia. f_equal.
  rewrite rsteps_add by lia. rewrite rsteps_shiftl; [done|lia|]. by apply Z.shiftr_nonneg.
Qed.

(** ** The bit by bit routine computes the reference *)

Lemma land_pow2 x n : 0 <= n -> Z.land x (2 ^ n) = if Z.testbit x n then 2 ^ n else 0.
Proof.
  intros Hn. apply Z.bits_inj'. intros i Hi. rewrite Z.land_spec, Z.pow2_bits_eqb by lia.
  destruct (Z.eqb_spec n i) as [->|Hne].
  - destruct (Z.testbit x i); [by rewrite Z.pow2_bits_true by lia|by rewrite Z.bits_0].
  - rewrite andb_false_r. destruct (Z.testbit x n); [|by rewrite Z.bits_0].
    by rewrite Z.pow2_bits_false.
Qed.

Lemma swap_disjoint x m n :
  0 <= n -> Z.land m (Z.land (Z.shiftl m n) (Z.ones 64)) = 0 ->
  Z.lor (Z.land (Z.shiftr x n) m) (u64 (Z.shiftl (Z.land x m) n))
  = Z.lxor (Z.land (Z.shiftr x n) m) (u64 (Z.shiftl (Z.land x m) n)).
Proof.
  intros Hn Hm. apply lor_lxor. rewrite wrapU_land, Z.shiftl_land by lia.
  rewrite <- (Z.land_0_r (Z.land (Z.shiftr x n) (Z.shiftl x n))), <- Hm.
  zbits. destruct (Z.testbit (Z.shiftr x n) _), (Z.testbit m _), (Z.testbit (Z.shiftl x n) _),
    (Z.testbit (Z.shiftl m n) _), (Z.testbit (Z.ones 64) _); done.
Qed.

Lemma le_encode_lxor n x y :
  le_encode n (Z.lxor x y) = zip_with Z.lxor (le_encode n x) (le_encode n y).
Proof.
  revert x y. induction n as [|n IH]; intros x y; [done|]. cbn [le_encode zip_with]. f_equal.
  - change 256 with (2 ^ 8). rewrite <- !Z.land_ones by lia. apply land_lxor_distr_l.
  - rewrite <- IH. f_equal. change 256 with (2 ^ 8).
    rewrite <- !Z.shiftr_div_pow2 by lia. apply Z.shiftr_lxor.
Qed.

Lemma byte_cons b x : is_byte b -> 0 <= x -> b + 256 * x = Z.lxor b (Z.shiftl x 8).
Proof.
  intros Hb Hx. unfold is_byte in Hb.
  rewrite (split_low (b + 256 * x) 8) by lia.
  rewrite Z.land_ones, Z.shiftr_div_pow2 by lia. change (2 ^ 8) with 256.
  rewrite (Z.mul_comm 256), Z.mod_add, Z.mod_small, Z.div_add, Z.div_small by lia. done.
Qed.

Lemma le_decode_lxor l k :
  Forall is_byte l -> Forall is_byte k -> length l = length k ->
  le_decode (zip_with Z.lxor l k) = Z.lxor (le_decode l) (le_decode k).
Proof.
  intros Hl. revert k. induction Hl as [|a l Ha Hl IH]; intros k Hk Hlen.
  - destruct k; done.
  - destruct Hk as [|b k Hb Hk]; [done|]. cbn [zip_with le_decode]. simpl in Hlen.
    rewrite IH by (done || lia).
    pose proof (le_decode_range l Hl). pose proof (le_decode_range k Hk).
    rewrite !byte_cons; try done; try lia.
    + rewrite Z.shiftl_lxor. symmetry. apply lxor_swap4.
    + by apply (lxor_range 8).
    + apply Z.lxor_nonneg; lia.
Qed.

Lemma reverse_zip_with (f : Z -> Z -> Z) l k :
  length l = length k -> reverse (zip_with f l k) = zip_with f (reverse l) (reverse k).
Proof.
  revert k. induction l as [|a l IH]; intros [|b k] Hlen; try done.
  cbn [zip_with]. simpl in Hlen. rewrite !reverse_cons, IH by lia.
  rewrite zip_with_app by (rewrite !length_reverse; lia). done.
Qed.

#[export] Instance linear_bswap64 f : Linear f -> Linear (fun x => bswap64 (f x)).
Proof.
  intros Hf x y. unfold bswap64, be_decode. rewrite Hf, le_encode_lxor.
  rewrite reverse_zip_with by (by rewrite !length_le_encode).
  apply le_decode_lxor; [apply Forall_reverse, le_encode_bytes..|].
  by rewrite !length_reverse, !length_le_encode.
Qed.

(** The reversal of the 64 bits, as exclusive ors *)
Definition swap_bits (m n x : Z) : Z :=
  Z.lxor (Z.land (Z.shiftr x n) m) (u64 (Z.shiftl (Z.land x m) n)).

#[export] Instance linear_swap_bits m n f : Linear f -> Linear (fun x => swap_bits m n (f x)).
Proof. unfold swap_bits. intros. apply _. Qed.

Definition reflect64 (x : Z) : Z :=
  bswap64 (swap_bits 0x0F0F0F0F0F0F0F0F 4 (swap_bits 0x3333333333333333 2
    (swap_bits 0x5555555555555555 1 x))).

#[export] Instance linear_reflect64 f : Linear f -> Linear (fun x => reflect64 (f x)).
Proof. unfold reflect64. intros. apply _. Qed.

Lemma crc_reflect_64 x : crc_reflect x 64 = Some (reflect64 x).
Proof.
  unfold crc_reflect. cbn [cassert mbind option_bind Z.leb Z.compare Pos.compare Pos.compare_cont].
  rewrite !swap_disjoint by (done || lia).
  change (64 - 64) with 0. by rewrite Z.shiftr_0_r.
Qed.

Lemma reflect64_involutive x : inU 64 x -> reflect64 (reflect64 x) = x.
Proof. apply (linear_ext 64 (fun x => reflect64 (reflect64 x)) (fun x => x)). by vm_compute. Qed.

Lemma reflect64_shift x : inU 64 x -> reflect64 (u64 (Z.shiftl x 1)) = Z.shiftr (reflect64 x) 1.
Proof.
  apply (linear_ext 64 (fun x => reflect64 (u64 (Z.shiftl x 1)))
           (fun x => Z.shiftr (reflect64 x) 1)). by vm_compute.
Qed.

Lemma reflect64_top x : inU 64 x -> Z.testbit (reflect64 x) 0 = Z.testbit x 63.
Proof.
  intros Hx. assert (H : (if Z.testbit (reflect64 x) 0 then 1 else 0) = if Z.testbit x 63 then 1 else 0).
  { revert x Hx. apply (linear_ext 64 (fun x => if Z.testbit (reflect64 x) 0 then 1 else 0)
      (fun x => if Z.testbit x 63 then 1 else 0)). by vm_compute. }
  destruct (Z.testbit (reflect64 x) 0), (Z.testbit x 63); done.
Qed.

Lemma reflect64_range x : inU 64 (reflect64 x).
Proof.
  unfold reflect64, bswap64.
  match goal with |- inU 64 (be_decode (le_encode 8 ?y)) => pose proof (be_decode_range (le_encode 8 y) (le_encode_bytes 8 y)) as H end.
  by rewrite length_le_encode in H.
Qed.

Lemma crc64_bit_eq c crc k :
  0 <= k -> crc64_bit c crc (2 ^ k)
  = Z.lxor (u64 (Z.shiftl crc 1)) (if xorb (Z.testbit crc 63) (Z.testbit c k) then POLY else 0).
Proof.
  intros Hk. unfold crc64_bit. change 0x8000000000000000 with (2 ^ 63).
  rewrite !land_pow2 by lia. pose proof (pow2_pos k Hk).
  destruct (Z.testbit c k), (Z.testbit crc 63); simpl;
    try (destruct (Z.eqb_spec (2 ^ k) 0); [lia|]); simpl; rewrite ?Z.lxor_0_r; done.
Qed.

Lemma crc64_bit_range c crc k : 0 <= k -> inU 64 (crc64_bit c crc (2 ^ k)).
Proof.
  intros Hk. rewrite crc64_bit_eq by done. apply lxor_range; [lia|by apply wrapU_range|].
  destruct (xorb _ _); unfold inU, POLY; zpow; lia.
Qed.

Lemma crc64_bit_reflect c crc k :
  0 <= k -> inU 64 crc ->
  reflect64 (crc64_bit c crc (2 ^ k)) = rstep (Z.lxor (reflect64 crc) (Z.b2z (Z.testbit c k))).
Proof.
  intros Hk Hc. rewrite crc64_bit_eq by done.
  rewrite (linear_reflect64 (fun x => x) _). cbv beta. rewrite reflect64_shift by done.
  unfold rstep. rewrite Z.shiftr_lxor, Z.lxor_spec, reflect64_top, Z.b2z_bit0 by done.
  replace (Z.shiftr (Z.b2z (Z.testbit c k)) 1) with 0 by (by destruct (Z.testbit c k)).
  rewrite Z.lxor_0_r. f_equal. destruct (xorb _ _); by vm_compute.
Qed.

(** The bits of a byte, fed one at a time *)
Fixpoint feed_bits (n : nat) (x c : Z) : Z :=
  match n with
  | O => x
  | S n => feed_bits n (rstep (Z.lxor x (Z.b2z (Z.testbit c 0)))) (Z.shiftr c 1)
  end.

Lemma feed_bits_rsteps n x c :
  0 <= c < 2 ^ Z.of_nat n -> feed_bits n x c = rsteps (Z.of_nat n) (Z.lxor x c).
Proof.
  revert x c. induction n as [|n IH]; intros x c Hc.
  - assert (c = 0) as -> by (change (2 ^ Z.of_nat 0) with 1 in Hc; lia).
    by rewrite Z.lxor_0_r.
  - cbn [feed_bits]. rewrite IH.
    2: { rewrite Nat2Z.inj_succ, Z.pow_succ_r in Hc by lia.
         rewrite Z.shiftr_div_pow2 by lia. change (2 ^ 1) with 2.
         split; [apply Z.div_pos; lia|apply Z.div_lt_upper_bound; lia]. }
    replace (Z.of_nat (S n)) with (Z.of_nat n + 1) by lia. rewrite rsteps_add by lia. f_equal.
    assert (Hsp : c = Z.lxor (Z.b2z (Z.testbit c 0)) (Z.shiftl (Z.shiftr c 1) 1)).
    { rewrite (split_low c 1) at 1 by lia. f_equal. rewrite Z.land_ones by lia.
      symmetry. apply Z.bit0_mod. }
    rewrite Hsp at 3. rewrite <- Z.lxor_assoc, (linear_xor (f := rsteps 1) (Z.lxor x _) (Z.shiftl _ 1)).
    rewrite rsteps_shiftl by (try apply Z.shiftr_nonneg; lia). done.
Qed.

Lemma crc64_byte_reflect crc c :
  inU 64 crc -> is_byte c ->
  inU 64 (crc64_byte crc c) /\ reflect64 (crc64_byte crc c) = rsteps 8 (Z.lxor (reflect64 crc) c).
Proof.
  intros Hcrc Hc. unfold crc64_byte. change 0xffffffffffffffff with (Z.ones 64).
  change [_; _; _; _; _; _; _; _] with [2^0; 2^1; 2^2; 2^3; 2^4; 2^5; 2^6; 2^7].
  cbn [foldl].
  rewrite <- wrapU_land by lia.
  rewrite (wrapU_id 64) by (by apply crc64_bit_range). split; [by apply crc64_bit_range|].
  rewrite !crc64_bit_reflect; try lia; try done; try (by apply crc64_bit_range).
  change (rsteps 8) with (rsteps (Z.of_nat 8)). rewrite <- feed_bits_rsteps by done.
  cbn [feed_bits]. rewrite !Z.shiftr_shiftr, !Z.shiftr_spec by lia. done.
Qed.

Lemma crc64_bytes_reflect data crc :
  inU 64 crc -> Forall is_byte data ->
  inU 64 (foldl crc64_byte crc data) /\
  reflect64 (foldl crc64_byte crc data) = crc_ref (reflect64 crc) data.
Proof.
  intros Hcrc Hd. revert crc Hcrc. induction Hd as [|b data Hb Hd IH]; intros crc Hcrc; [done|].
  cbn [foldl]. destruct (crc64_byte_reflect crc b Hcrc Hb) as [Hr He].
  destruct (IH _ Hr) as [Hr' He']. split; [done|]. rewrite He', He. done.
Qed.

Lemma _crc64_eq crc data :
  inU 64 crc -> Forall is_byte data -> _crc64 crc data = Some (crc_ref (reflect64 crc) data).
Proof.
  intros Hcrc Hd. destruct (crc64_bytes_reflect data crc Hcrc Hd) as [Hr He].
  unfold _crc64. change 0xffffffffffffffff with (Z.ones 64).
  rewrite <- wrapU_land, wrapU_id, crc_reflect_64 by (done || lia).
  mstep. rewrite He, Z.lxor_0_r. done.
Qed.

(** ** The tables *)

Definition table_ok (t : table) : Prop :=
  forall k n, 0 <= k < 8 -> 0 <= n < 256 -> t k n = rsteps (8 * (k + 1)) n.

Lemma tset_same t k n v : tset t k n v k n = v.
Proof. unfold tset. by rewrite !Z.eqb_refl. Qed.
Lemma tset_other t k n v k' n' : k' <> k \/ n' <> n -> tset t k n v k' n' = t k' n'.
Proof.
  intros H. unfold tset. destruct (Z.eqb_spec k' k), (Z.eqb_spec n' n); simpl; try done. lia.
Qed.

Lemma init_bytes_ok ns t :
  Forall is_byte ns -> exists t', init_bytes _crc64 ns t = Some t' /\
    (forall n, n ∈ ns -> t' 0 n = rsteps 8 n) /\ (forall n, n ∉ ns -> t' 0 n = t 0 n).
Proof.
  intros Hns. revert t. induction Hns as [|n ns Hn Hns IH]; intros t.
  { exists t. split_and!; [done| |done]. intros n Hn. by apply not_elem_of_nil in Hn. }
  cbn [init_bytes]. rewrite _crc64_eq; [|unfold inU; lia|by constructor]. mstep.
  destruct (IH (tset t 0 n (crc_ref (reflect64 0) [n]))) as (t' & -> & H1 & H2).
  exists t'. split; [done|]. split.
  - intros m [->|Hm]%elem_of_cons; [|auto]. destruct (decide (n ∈ ns)); [auto|].
    rewrite H2, tset_same by done. cbn. rewrite linear_0 by apply _. done.
  - intros m [Hne Hm]%not_elem_of_cons. rewrite H2 by done. apply tset_other. auto.
Qed.

Lemma byte_step_rsteps t crc b :
  (forall n, 0 <= n < 256 -> t 0 n = rsteps 8 n) -> 0 <= crc -> is_byte b ->
  byte_step t crc b = rsteps 8 (Z.lxor crc b).
Proof.
  intros Ht Hcrc Hb. unfold byte_step. change 0xff with (Z.ones 8).
  rewrite Ht by (apply land_ones_range; lia).
  assert (0 <= Z.lxor crc b) by (apply Z.lxor_nonneg; unfold is_byte in Hb; lia).
  change (rsteps 8 (Z.lxor crc b)) with (rsteps (0 + 8) (Z.lxor crc b)).
  rewrite rsteps_split by (done || lia).
  rewrite wrapU_land by lia. f_equal. rewrite Z.shiftr_lxor.
  replace (Z.shiftr b 8) with 0; [by rewrite Z.lxor_0_r|].
  rewrite Z.shiftr_div_pow2, Z.div_small by (unfold is_byte in Hb; zpow; lia). done.
Qed.

Lemma init_nested_ok ks k0 n crc t :
  0 <= k0 -> (forall m, 0 <= m < 256 -> t 0 m = rsteps 8 m) -> 0 <= n < 256 ->
  crc = rsteps (8 * k0) n -> ks = seqZ k0 (Z.of_nat (length ks)) -> 1 <= k0 ->
  let t' := init_nested ks n crc t in
  (forall k, k ∈ ks -> t' k n = rsteps (8 * (k + 1)) n) /\
  (forall k m, k ∉ ks \/ m <> n -> t' k m = t k m).
Proof.
  intros Hk0 Ht Hn. revert k0 Hk0 crc t Ht. induction ks as [|k ks IH]; intros k0 Hk0 crc t Ht -> Hks H1.
  { split; [|done]. intros k Hk. by apply not_elem_of_nil in Hk. }
  cbn [length] in Hks. rewrite seqZ_cons in Hks by lia. injection Hks as -> Hks.
  cbn [init_nested].
  assert (Hcrc : Z.lxor (t 0 (Z.land (rsteps (8 * k0) n) 0xff)) (Z.shiftr (rsteps (8 * k0) n) 8)
     = rsteps (8 * (k0 + 1)) n).
  { pose proof (byte_step_rsteps t (rsteps (8 * k0) n) 0) as H.
    unfold byte_step in H. rewrite !Z.lxor_0_r in H. rewrite H; [|done| |unfold is_byte; lia].
    - rewrite <- rsteps_add by lia. f_equal. lia.
    - apply rsteps_range, byte_inU64. done. }
  rewrite Hcrc. destruct (IH (k0 + 1) ltac:(lia) (rsteps (8 * (k0 + 1)) n)
    (tset t k0 n (rsteps (8 * (k0 + 1)) n))) as [IH1 IH2]; [|done| |lia|].
  { intros m Hm. rewrite tset_other by lia. auto. }
  { replace (Z.of_nat (length ks)) with (Z.pred (Z.of_nat (S (length ks)))) by lia.
    rewrite Hks at 1. f_equal. }
  cbv zeta in IH1, IH2 |- *. split.
  - intros k [->|Hk]%elem_of_cons; [|auto]. destruct (decide (k0 ∈ ks)); [auto|].
    rewrite IH2 by auto. apply tset_same.
  - intros k m [[Hne Hk]%not_elem_of_cons|Hm]; rewrite IH2 by auto; apply tset_other; auto.
Qed.

Lemma init_columns_ok ns t :
  Forall is_byte ns -> (forall m, 0 <= m < 256 -> t 0 m = rsteps 8 m) ->
  let t' := foldl (fun t n => init_nested (seqZ 1 7) n (t 0 n) t) t ns in
  (forall m, 0 <= m < 256 -> t' 0 m = rsteps 8 m) /\
  (forall k n, 1 <= k < 8 -> n ∈ ns -> t' k n = rsteps (8 * (k + 1)) n) /\
  (forall k n, n ∉ ns -> t' k n = t k n).
Proof.
  intros Hns. revert t. induction Hns as [|n ns Hn Hns IH]; intros t Ht; cbv zeta; cbn [foldl].
  { split_and!; [done| |done]. intros k n _ Hn. by apply not_elem_of_nil in Hn. }
  destruct (init_nested_ok (seqZ 1 7) 1 n (t 0 n) t) as [H1 H2]; try done; try lia.
  { rewrite Ht by done. f_equal. }
  set (t1 := init_nested _ _ _ _) in *.
  destruct (IH t1) as (IH0 & IH1 & IH2).
  { intros m Hm. unfold t1. rewrite H2; [auto|]. left. rewrite elem_of_seqZ. lia. }
  split_and!; [done| |].
  - intros k m Hk [->|Hm]%elem_of_cons; [|auto].
    destruct (decide (n ∈ ns)); [auto|]. rewrite IH2 by done. apply H1, elem_of_seqZ. lia.
  - intros k m [Hne Hm]%not_elem_of_cons. rewrite IH2 by done. apply H2. auto.
Qed.

Lemma crc64_init_eq t : exists t', crc64_init t = Some t' /\ table_ok t'.
Proof.
  unfold crc64_init, crcspeed64little_init.
  assert (Hby : Forall is_byte (seqZ 0 256)).
  { apply Forall_forall. intros x [? ?]%elem_of_seqZ. unfold is_byte. lia. }
  destruct (init_bytes_ok (seqZ 0 256) t Hby) as (t1 & -> & H1 & _). mstep.
  eexists. split; [done|].
  destruct (init_columns_ok (seqZ 0 256) t1 Hby) as (H0 & Hk & _).
  { intros m Hm. apply H1, elem_of_seqZ. lia. }
  intros k n Hk' Hn. destruct (decide (k = 0)) as [->|].
  - rewrite H0 by done. done.
  - apply Hk; [lia|]. apply elem_of_seqZ. lia.
Qed.

(** Eight bytes at a time *)
Lemma DO_8_2_eq t crc : table_ok t -> inU 64 crc -> DO_8_2 t crc = rsteps 64 crc.
Proof.
  intros Ht Hc. unfold DO_8_2.
  assert (Hu : forall x, 0 <= u8 x < 256) by (intros; apply (wrapU_range 8); lia).
  assert (Hs : forall n, 0 <= n -> 0 <= Z.shiftr crc n)
    by (intros; apply Z.shiftr_nonneg; unfold inU in Hc; lia).
  pose proof (shiftr_range 64 56 crc ltac:(lia) Hc) as H56. change (2 ^ (64 - 56)) with 256 in H56.
  rewrite !Ht by (done || lia).
  change (8 * (7 + 1)) with (56 + 8). change (8 * (6 + 1)) with (48 + 8).
  change (8 * (5 + 1)) with (40 + 8). change (8 * (4 + 1)) with (32 + 8).
  change (8 * (3 + 1)) with (24 + 8). change (8 * (2 + 1)) with (16 + 8).
  change (8 * (1 + 1)) with (8 + 8). change (8 * (0 + 1)) with 8.
  change (rsteps 64 crc) with (rsteps (56 + 8) crc).
  assert (Hstep : forall m n, 0 <= m -> 0 <= n ->
    rsteps (m + 8) (Z.shiftr crc n)
    = Z.lxor (rsteps (m + 8) (u8 (Z.shiftr crc n))) (rsteps m (Z.shiftr crc (n + 8)))).
  { intros m n Hm Hn. rewrite rsteps_split by auto. by rewrite Z.shiftr_shiftr. }
  pose proof (Hstep 56 0 ltac:(lia) ltac:(lia)) as H0. rewrite Z.shiftr_0_r in H0. rewrite H0.
  change (rsteps 56) with (rsteps (48 + 8)). rewrite (Hstep 48) by lia.
  change (rsteps 48) with (rsteps (40 + 8)). rewrite (Hstep 40) by lia.
  change (rsteps 40) with (rsteps (32 + 8)). rewrite (Hstep 32) by lia.
  change (rsteps 32) with (rsteps (24 + 8)). rewrite (Hstep 24) by lia.
  change (rsteps 24) with (rsteps (16 + 8)). rewrite (Hstep 16) by lia.
  change (rsteps 16) with (rsteps (8 + 8)). rewrite (Hstep 8) by lia.
  by rewrite !Z.lxor_assoc.
Qed.

Lemma rsteps_nonneg n x : 0 <= x -> 0 <= rsteps n x.
Proof.
  intros Hx. unfold rsteps. induction (Z.to_nat n) as [|m IH]; [done|].
  rewrite Nat.iter_succ. unfold rstep at 1. apply Z.lxor_nonneg.
  rewrite Z.shiftr_nonneg. destruct (Z.testbit _ 0); split; done.
Qed.

Lemma crc_ref_word crc bs :
  0 <= crc -> Forall is_byte bs ->
  rsteps (8 * Z.of_nat (length bs)) (Z.lxor crc (le_decode bs)) = crc_ref crc bs.
Proof.
  intros Hc Hbs. revert crc Hc. induction Hbs as [|b bs Hb Hbs IH]; intros crc Hc.
  { simpl. by rewrite Z.lxor_0_r. }
  pose proof (le_decode_range bs Hbs).
  cbn [le_decode length]. rewrite byte_cons by (done || lia).
  replace (8 * Z.of_nat (S (length bs))) with (8 * Z.of_nat (length bs) + 8) by lia.
  rewrite rsteps_add, <- Z.lxor_assoc by lia.
  rewrite (linear_xor (f := rsteps 8) (Z.lxor crc b) (Z.shiftl _ 8)), rsteps_shiftl by lia.
  unfold crc_ref. cbn [foldl]. apply IH.
  apply rsteps_nonneg, Z.lxor_nonneg. unfold is_byte in Hb. lia.
Qed.

Lemma crc_ref_app crc d1 d2 : crc_ref crc (d1 ++ d2) = crc_ref (crc_ref crc d1) d2.
Proof. unfold crc_ref. apply foldl_app. Qed.

Lemma crc_ref_lxor c d data :
  crc_ref (Z.lxor c d) data
  = Z.lxor (rsteps (8 * Z.of_nat (length data)) c) (crc_ref d data).
Proof.
  revert c d. induction data as [|b data IH]; intros c d; [done|].
  unfold crc_ref in *. cbn [foldl length].
  rewrite Z.lxor_assoc, (linear_xor (f := rsteps 8)), IH. f_equal.
  rewrite <- rsteps_add by lia. f_equal. lia.
Qed.

Lemma step8 t crc bs tl :
  table_ok t -> inU 64 crc -> Forall is_byte bs -> length bs = 8%nat ->
  exists w, DO_8_1 crc (bs ++ tl) = Some (w, tl) /\ DO_8_2 t w = crc_ref crc bs.
Proof.
  intros Ht Hc Hbs Hl. unfold DO_8_1.
  rewrite (mload_app_mid [] bs tl) by (simpl; lia). mstep.
  rewrite (drop_app_length' bs tl 8) by done. eexists. split; [done|].
  pose proof (le_decode_range bs Hbs) as Hr. rewrite Hl in Hr.
  rewrite DO_8_2_eq; [|done|by apply lxor_range].
  rewrite <- crc_ref_word by (done || unfold inU in Hc; lia). by rewrite Hl.
Qed.

(** ** Combining *)

Lemma matvec_4 m0 m1 m2 m3 mat vec :
  0 <= vec -> matvec (m0 :: m1 :: m2 :: m3 :: mat) vec
  = Z.lxor (times_case vec m0 m1 m2 m3 0) (matvec mat (Z.shiftr vec 4)).
Proof.
  intros Hv. cbn [matvec]. rewrite !Z.shiftr_shiftr, !Z.shiftr_spec by lia.
  change (0 + 1) with 1. change (0 + (1 + 1)) with 2. change (0 + (1 + 1 + 1)) with 3.
  change (1 + 1 + 1 + 1) with 4. unfold times_case.
  pose proof (land_ones_range vec 4 ltac:(lia)) as Hr. change (2 ^ 4) with 16 in Hr.
  change 15 with (Z.ones 4) at 1.
  assert (Hb : forall i, 0 <= i < 4 -> Z.testbit vec i = Z.testbit (Z.land vec (Z.ones 4)) i).
  { intros i Hi. rewrite Z.land_spec, Z.ones_spec_low by lia. by rewrite andb_true_r. }
  rewrite (Hb 0), (Hb 1), (Hb 2), (Hb 3) by lia.
  generalize dependent (Z.land vec (Z.ones 4)). intros r Hr _.
  assert (r = 0 \/ r = 1 \/ r = 2 \/ r = 3 \/ r = 4 \/ r = 5 \/ r = 6 \/ r = 7 \/ r = 8 \/ r = 9 \/
    r = 10 \/ r = 11 \/ r = 12 \/ r = 13 \/ r = 14 \/ r = 15) as Hcases by lia.
  repeat destruct Hcases as [->|Hcases]; [..|subst r];
    cbn [Z.testbit Pos.testbit Z.odd N.testbit Pos.pred_N];
    rewrite ?Z.lxor_0_l, ?Z.lxor_assoc, ?Z.lxor_0_l; done.
Qed.

Lemma times_case_sum vec m0 m1 m2 m3 sum :
  times_case vec m0 m1 m2 m3 sum = Z.lxor sum (times_case vec m0 m1 m2 m3 0).
Proof.
  unfold times_case.
  destruct (Z.land vec 15) as [|p|p]; try by rewrite Z.lxor_0_r.
  do 4 (destruct p as [p|p|]; try by rewrite ?Z.lxor_0_l, ?Z.lxor_0_r).
Qed.

Lemma times_loop_eq fuel mat vec sum :
  length mat = (4 * fuel)%nat -> 0 <= vec < 2 ^ (4 * Z.of_nat fuel) ->
  times_loop fuel mat vec sum = Some (Z.lxor sum (matvec mat vec)).
Proof.
  revert mat vec sum. induction fuel as [|fuel IH]; intros mat vec sum Hl Hv.
  { assert (vec = 0) as -> by (simpl in Hv; lia). simpl. by rewrite matvec_0, Z.lxor_0_r. }
  cbn [times_loop]. destruct (Z.eqb_spec vec 0) as [->|Hne].
  { by rewrite matvec_0, Z.lxor_0_r. }
  destruct mat as [|m0 [|m1 [|m2 [|m3 mat]]]]; simpl in Hl; try lia.
  rewrite IH; [|lia|].
  - rewrite matvec_4, times_case_sum, Z.lxor_assoc by lia. done.
  - replace (4 * Z.of_nat (S fuel)) with (4 + 4 * Z.of_nat fuel) in Hv by lia.
    pose proof (shiftr_range (4 + 4 * Z.of_nat fuel) 4 vec ltac:(lia) Hv) as H.
    replace (4 + 4 * Z.of_nat fuel - 4) with (4 * Z.of_nat fuel) in H by lia. done.
Qed.

Lemma gf2_times_columns f vec :
  Linear f -> inU 64 vec -> gf2_matrix_times_switch (columns 64 f) vec = Some (f vec).
Proof.
  intros Hf Hv. unfold gf2_matrix_times_switch.
  rewrite times_loop_eq by (rewrite ?length_columns; done).
  by rewrite Z.lxor_0_l, matvec_columns.
Qed.

Lemma square_rows_columns f rows :
  Linear f -> Forall (inU 64) rows ->
  square_rows (columns 64 f) rows = Some (f <$> rows).
Proof.
  intros Hf. induction 1 as [|r rows Hr Hrows IH]; [done|].
  cbn [square_rows]. rewrite gf2_times_columns, IH by done. done.
Qed.

Lemma gf2_square_columns square f :
  Linear f -> (forall x, inU 64 x -> inU 64 (f x)) -> length square = 64%nat ->
  gf2_matrix_square square (columns 64 f) 64 = Some (columns 64 (fun x => f (f x))).
Proof.
  intros Hf Hr Hl. unfold gf2_matrix_square. rewrite length_columns.
  cbn [Nat.leb cassert mbind option_bind].
  rewrite take_ge by (rewrite length_columns; lia).
  rewrite square_rows_columns; [|done|].
  - mstep. rewrite drop_ge by lia. rewrite app_nil_r.
    unfold columns. by rewrite <- list_fmap_compose.
  - unfold columns. apply Forall_fmap, Forall_forall. intros i Hi.
    apply elem_of_seq in Hi. apply Hr. unfold inU. split; [apply Z.pow_nonneg; lia|].
    apply Z.pow_lt_mono_r; lia.
Qed.

(** The layers of the cache: layer [k] is the operator of [2^k] zero bytes. *)
Definition layer_is (cache : list (list Z)) (k : nat) (n : Z) : Prop :=
  cache !! k = Some (columns 64 (rsteps n)).

Definition cache_shape (cache : list (list Z)) : Prop :=
  length cache = 64%nat /\ Forall (fun l => length l = 64%nat) cache.

Definition cache_full (cache : list (list Z)) : Prop :=
  forall k, (k < 64)%nat -> layer_is cache k (8 * 2 ^ Z.of_nat k).

(** The static array: zeroes before the first use, then full *)
Definition cache_ok (cache : list (list Z)) : Prop :=
  cache = replicate 64 (replicate 64 0) \/ cache_full cache.

Lemma columns_rsteps_double n :
  0 <= n -> columns 64 (fun x => rsteps n (rsteps n x)) = columns 64 (rsteps (2 * n)).
Proof.
  intros Hn. unfold columns. apply list_fmap_ext. intros i x Hx.
  replace (2 * n) with (n + n) by lia. by rewrite rsteps_add by lia.
Qed.

Lemma square_layer_ok cache dst src n :
  cache_shape cache -> 0 <= n -> (dst < 64)%nat -> layer_is cache src n ->
  square_layer cache dst src 64 = Some (<[dst := columns 64 (rsteps (2 * n))]> cache).
Proof.
  intros [Hl Hf] Hn Hdst Hsrc. unfold square_layer.
  destruct (lookup_lt_is_Some_2 cache dst) as [sq Hsq]; [lia|]. rewrite Hsq, Hsrc.
  mstep. rewrite gf2_square_columns.
  - mstep. by rewrite columns_rsteps_double.
  - apply _.
  - intros. by apply rsteps_range.
  - by eapply Forall_lookup in Hf.
Qed.

Lemma cache_shape_insert cache k f :
  cache_shape cache -> cache_shape (<[k := columns 64 f]> cache).
Proof.
  intros [Hl Hf]. split; [by rewrite length_insert|].
  apply Forall_insert; [done|apply length_columns].
Qed.

Lemma layer_insert cache k n :
  cache_shape cache -> (k < 64)%nat -> layer_is (<[k := columns 64 (rsteps n)]> cache) k n.
Proof. intros [Hl _] Hk. unfold layer_is. rewrite list_lookup_insert, decide_True by lia. done. Qed.

Lemma layer_insert_ne cache k j n m :
  layer_is cache j m -> j <> k -> layer_is (<[k := columns 64 (rsteps n)]> cache) j m.
Proof. intros H Hne. unfold layer_is. by rewrite list_lookup_insert_ne. Qed.

Lemma cache_loop_ok n cn src cache :
  (cn + n = 64)%nat -> cache_shape cache ->
  (forall k, (k < cn)%nat -> layer_is cache k (8 * 2 ^ Z.of_nat k)) ->
  layer_is cache src (4 * 2 ^ Z.of_nat cn) ->
  exists cache', cache_loop n cn src 64 cache = Some cache' /\ cache_shape cache' /\ cache_full cache'.
Proof.
  revert cn src cache. induction n as [|n IH]; intros cn src cache Hn Hsh Hk Hsrc.
  { exists cache. split_and!; [done..|]. intros k ?. apply Hk. lia. }
  cbn [cache_loop]. rewrite (square_layer_ok _ _ _ (4 * 2 ^ Z.of_nat cn)) by (done || lia).
  mstep.
  replace (2 * (4 * 2 ^ Z.of_nat cn)) with (8 * 2 ^ Z.of_nat cn) by lia.
  apply IH; [lia|by apply cache_shape_insert| |].
  - intros k Hlt. destruct (decide (k = cn)) as [->|]; [apply layer_insert; [done|lia]|].
    apply layer_insert_ne; [|done]. apply Hk. lia.
  - rewrite Nat2Z.inj_succ, Z.pow_succ_r by lia.
    replace (4 * (2 * 2 ^ Z.of_nat cn)) with (8 * 2 ^ Z.of_nat cn) by lia.
    apply layer_insert; [done|lia].
Qed.

Lemma squares_from_layer1 c0 :
  cache_shape c0 -> layer_is c0 1 1 ->
  exists cache, (c1 ← square_layer c0 0 1 64; c2 ← square_layer c1 1 0 64; cache_loop 64 0 1 64 c2)
    = Some cache /\ cache_full cache.
Proof.
  intros Hsh0 Hl. rewrite (square_layer_ok c0 0 1 1); [|done|lia|lia|done].
  mstep. set (c1 := <[0%nat := _]> c0).
  assert (Hsh1 : cache_shape c1) by by apply cache_shape_insert.
  rewrite (square_layer_ok c1 1 0 (2 * 1)); [|done|lia|lia|apply layer_insert; [done|lia]].
  mstep. set (c2 := <[1%nat := _]> c1).
  destruct (cache_loop_ok 64 0 1 c2) as (cache' & H & _ & Hfull); [lia| |lia| |eauto].
  - by apply cache_shape_insert.
  - apply layer_insert; [done|lia].
Qed.

Lemma init_combine_cache_ok :
  exists cache, init_combine_cache (replicate 64 (replicate 64 0)) CRC64_REVERSED_POLY 64 = Some cache /\
    cache_full cache.
Proof.
  assert (Hsh : cache_shape (replicate 64 (replicate 64 0))).
  { split; [done|]. apply Forall_replicate. done. }
  assert (Hz : replicate 64 (replicate 64 0) !! 1%nat = Some (replicate 64 0)) by done.
  assert (H1 : (CRC64_REVERSED_POLY :: shifted_rows (64 - 1) 1) ++ drop 64 (replicate 64 0)
    = columns 64 (rsteps 1)) by (vm_compute; reflexivity).
  unfold init_combine_cache. rewrite Hz. mstep. rewrite H1.
  generalize dependent (replicate 64 (replicate 64 0)). intros zero Hsh _.
  apply squares_from_layer1.
  - by apply cache_shape_insert.
  - apply layer_insert; [done|lia].
Qed.

Lemma combine_loop_ok fuel k cache crc1 len2 :
  cache_full cache -> inU 64 crc1 -> (k + fuel = 64)%nat ->
  0 < len2 < 2 ^ Z.of_nat fuel ->
  combine_loop fuel cache crc1 len2 k = Some (rsteps (8 * 2 ^ Z.of_nat k * len2) crc1).
Proof.
  intros Hfull. revert k crc1 len2. induction fuel as [|fuel IH]; intros k crc1 len2 Hc Hk Hlen.
  { simpl in Hlen. lia. }
  cbn [combine_loop]. change (Z.land len2 1) with (Z.land len2 (2 ^ 0)). rewrite land_pow2 by lia.
  pose proof (Z.bit0_mod len2) as Hbit. pose proof (Z.div_mod len2 2 ltac:(lia)) as Hdm.
  pose proof (pow2_pos (Z.of_nat k) ltac:(lia)).
  rewrite Z.shiftr_div_pow2 by lia. change (2 ^ 1) with 2.
  set (c1 := if Z.testbit len2 0 then rsteps (8 * 2 ^ Z.of_nat k) crc1 else crc1).
  assert (Hc1 : inU 64 c1) by (unfold c1; destruct (Z.testbit len2 0); auto using rsteps_range).
  replace (if negb ((if Z.testbit len2 0 then 2 ^ 0 else 0) =? 0) then _ else _) with (Some c1).
  2: { unfold c1. destruct (Z.testbit len2 0); [|done]. cbn [negb Z.eqb Z.pow Z.pow_pos Pos.iter Z.mul].
       rewrite (Hfull k) by lia. mstep. symmetry.
       apply gf2_times_columns; [apply _|done]. }
  mstep.
  assert (Hsum : rsteps (8 * 2 ^ Z.of_nat k * len2) crc1
    = rsteps (8 * 2 ^ Z.of_nat (k + 1) * (len2 / 2)) c1).
  { replace (Z.of_nat (k + 1)) with (1 + Z.of_nat k) by lia. rewrite Z.pow_add_r by lia.
    change (2 ^ 1) with 2. unfold c1. destruct (Z.testbit len2 0); simpl in Hbit.
    - rewrite <- rsteps_add by nia. f_equal. nia.
    - f_equal. nia. }
  rewrite Hsum. destruct (Z.eqb_spec (len2 / 2) 0) as [E|E]; cbn [negb].
  - rewrite E, Z.mul_0_r. done.
  - rewrite Nat2Z.inj_succ, Z.pow_succ_r in Hlen by lia.
    assert (0 < len2 / 2 < 2 ^ Z.of_nat fuel).
    { split; [apply Z.le_neq; split; [apply Z.div_pos; lia|lia]|apply Z.div_lt_upper_bound; lia]. }
    assert (fuel <> 0%nat) by (intros ->; change (2 ^ Z.of_nat 0) with 1 in *; lia).
    replace (Nat.land (k + 1) 63) with (k + 1)%nat; [by apply IH; [done|lia|]|].
    change 63%nat with (Nat.ones 6). rewrite Nat.land_ones, Nat.mod_small; [done|].
    change (2 ^ 6)%nat with 64%nat. lia.
Qed.

(** Appending [len2] bytes whose checksum from zero is [crc2] *)
Lemma crc64_combine_ok cache crc1 crc2 len2 :
  cache_ok cache -> inU 64 crc1 -> 0 <= len2 < 2 ^ 64 -> (len2 = 0 -> crc2 = 0) ->
  exists cache', crc64_combine cache crc1 crc2 len2 CRC64_REVERSED_POLY 64
    = Some (Z.lxor (rsteps (8 * len2) crc1) crc2, cache') /\ cache_ok cache'.
Proof.
  intros Hok Hc Hlen H0. unfold crc64_combine. destruct (Z.eqb_spec len2 0) as [->|Hne].
  { exists cache. rewrite H0 by done. change (8 * 0) with 0. by rewrite rsteps_0, Z.lxor_0_r. }
  assert (exists cache', cache_full cache' /\
    (first ← (layer ← cache !! 0%nat; layer !! 0%nat);
     if first =? 0 then init_combine_cache cache CRC64_REVERSED_POLY 64 else Some cache) = Some cache')
    as (cache' & Hfull & Hinit).
  { destruct Hok as [->|Hfull].
    - destruct init_combine_cache_ok as (c & Hc' & Hf). exists c. split; [done|]. exact Hc'.
    - exists cache. split; [done|]. rewrite (Hfull 0%nat) by lia. vm_compute. done. }
  destruct (layer ← cache !! 0%nat; layer !! 0%nat) as [first|]; [|done].
  mstep in Hinit |- *. rewrite Hinit. mstep.
  rewrite (combine_loop_ok 64 0) by (done || lia). mstep.
  exists cache'. split; [done|by right].
Qed.

(** ** The table driven routine computes the reference *)

Section table_driven.
Context (t : table) (Ht : table_ok t).

Lemma table_bytes crc data :
  inU 64 crc -> Forall is_byte data -> foldl (byte_step t) crc data = crc_ref crc data.
Proof.
  intros Hc Hd. revert crc Hc. induction Hd as [|b data Hb Hd IH]; intros crc Hc; [done|].
  cbn [foldl crc_ref]. unfold crc_ref in *. cbn [foldl].
  rewrite byte_step_rsteps; [|intros; by apply (Ht 0)|unfold inU in Hc; lia|done].
  apply IH, rsteps_range, lxor_range; [lia|done|by apply byte_inU64].
Qed.

Lemma align_loop_ok addr crc data :
  inU 64 crc -> Forall is_byte data ->
  exists d1 d2, data = d1 ++ d2 /\ align_loop t addr crc data = (crc_ref crc d1, d2).
Proof.
  intros Hc Hd. revert addr crc Hc. induction Hd as [|b data Hb Hd IH]; intros addr crc Hc.
  { by exists [], []. }
  cbn [align_loop]. destruct (Z.land addr 7 =? 0); [by exists [], (b :: data)|].
  rewrite byte_step_rsteps; [|intros; by apply (Ht 0)|unfold inU in Hc; lia|done].
  edestruct (IH (addr + 1)) as (d1 & d2 & -> & ->); [|by exists (b :: d1), d2].
  apply rsteps_range, lxor_range; [lia|done|by apply byte_inU64].
Qed.

Lemma split8 (data : list Z) n :
  (8 <= n <= length data)%nat ->
  exists bs tl, data = bs ++ tl /\ length bs = 8%nat /\
    take n data = bs ++ take (n - 8) tl /\ drop n data = drop (n - 8) tl.
Proof.
  intros Hn. exists (take 8 data), (drop 8 data).
  assert (length (take 8 data) = 8%nat) by (rewrite length_take; lia).
  split_and!; [by rewrite take_drop|done| |].
  - rewrite <- (take_drop 8 data) at 1. rewrite take_app_ge by lia. by rewrite H.
  - rewrite drop_drop. f_equal. lia.
Qed.

(** One, two and three streams of [8*q] bytes *)
Lemma loop1_ok fuel len crc data :
  inU 64 crc -> Forall is_byte data -> 0 <= len <= Z.of_nat (length data) -> len <= Z.of_nat fuel ->
  exists d1 d2, data = d1 ++ d2 /\ loop1 fuel t len crc data = Some (crc_ref crc d1, d2).
Proof.
  revert len crc data. induction fuel as [|fuel IH]; intros len crc data Hc Hd Hlen Hf; cbn [loop1].
  all: zcase; [|by exists [], data]. { lia. }
  destruct (split8 data 8) as (bs & tl & -> & Hl & _); [lia|].
  apply Forall_app in Hd as [Hbs Htl]. rewrite length_app in Hlen.
  destruct (step8 t crc bs tl Ht Hc Hbs Hl) as (w & -> & Hw). mstep. rewrite Hw.
  destruct (IH (len - 8) (crc_ref crc bs) tl) as (d1 & d2 & -> & ->); [by apply crc_ref_range|done|lia|lia|].
  exists (bs ++ d1), d2. by rewrite <- app_assoc, crc_ref_app.
Qed.

Lemma loop2_ok fuel q crc1 crc2 n1 n2 :
  inU 64 crc1 -> inU 64 crc2 -> Forall is_byte n1 -> Forall is_byte n2 ->
  (8 * q <= length n1)%nat -> (8 * q <= length n2)%nat -> (8 * q <= fuel)%nat ->
  loop2 fuel t (8 * Z.of_nat q) crc1 crc2 n1 n2
  = Some (crc_ref crc1 (take (8 * q) n1), crc_ref crc2 (take (8 * q) n2), drop (8 * q) n2).
Proof.
  revert fuel crc1 crc2 n1 n2.
  induction q as [|q IH]; intros fuel crc1 crc2 n1 n2 Hc1 Hc2 H1 H2 Hl1 Hl2 Hf.
  { destruct fuel; done. }
  destruct fuel as [|fuel]; [lia|]. cbn [loop2]. zcase; [|lia].
  destruct (split8 n1 (8 * S q)) as (b1 & t1 & -> & Hb1 & -> & _); [lia|].
  destruct (split8 n2 (8 * S q)) as (b2 & t2 & -> & Hb2 & -> & ->); [lia|].
  apply Forall_app in H1 as [H1 H1']. apply Forall_app in H2 as [H2 H2'].
  rewrite length_app in Hl1, Hl2.
  destruct (step8 t crc1 b1 t1 Ht Hc1 H1 Hb1) as (w1 & -> & Hw1).
  destruct (step8 t crc2 b2 t2 Ht Hc2 H2 Hb2) as (w2 & -> & Hw2).
  mstep. rewrite Hw1, Hw2.
  replace (8 * Z.of_nat (S q) - 8) with (8 * Z.of_nat q) by lia.
  replace (8 * S q - 8)%nat with (8 * q)%nat by lia.
  rewrite IH; auto using crc_ref_range; [|lia..]. by rewrite !crc_ref_app.
Qed.

Lemma loop3_ok fuel q crc1 crc2 crc3 n1 n2 n3 :
  inU 64 crc1 -> inU 64 crc2 -> inU 64 crc3 ->
  Forall is_byte n1 -> Forall is_byte n2 -> Forall is_byte n3 ->
  (8 * q <= length n1)%nat -> (8 * q <= length n2)%nat -> (8 * q <= length n3)%nat ->
  (8 * q <= fuel)%nat ->
  loop3 fuel t (8 * Z.of_nat q) crc1 crc2 crc3 n1 n2 n3
  = Some (crc_ref crc1 (take (8 * q) n1), crc_ref crc2 (take (8 * q) n2),
          crc_ref crc3 (take (8 * q) n3), drop (8 * q) n3).
Proof.
  revert fuel crc1 crc2 crc3 n1 n2 n3.
  induction q as [|q IH];
    intros fuel crc1 crc2 crc3 n1 n2 n3 Hc1 Hc2 Hc3 H1 H2 H3 Hl1 Hl2 Hl3 Hf.
  { destruct fuel; done. }
  destruct fuel as [|fuel]; [lia|]. cbn [loop3]. zcase; [|lia].
  destruct (split8 n1 (8 * S q)) as (b1 & t1 & -> & Hb1 & -> & _); [lia|].
  destruct (split8 n2 (8 * S q)) as (b2 & t2 & -> & Hb2 & -> & _); [lia|].
  destruct (split8 n3 (8 * S q)) as (b3 & t3 & -> & Hb3 & -> & ->); [lia|].
  apply Forall_app in H1 as [H1 H1']. apply Forall_app in H2 as [H2 H2'].
  apply Forall_app in H3 as [H3 H3']. rewrite length_app in Hl1, Hl2, Hl3.
  destruct (step8 t crc1 b1 t1 Ht Hc1 H1 Hb1) as (w1 & -> & Hw1).
  destruct (step8 t crc2 b2 t2 Ht Hc2 H2 Hb2) as (w2 & -> & Hw2).
  destruct (step8 t crc3 b3 t3 Ht Hc3 H3 Hb3) as (w3 & -> & Hw3).
  mstep. rewrite Hw1, Hw2, Hw3.
  replace (8 * Z.of_nat (S q) - 8) with (8 * Z.of_nat q) by lia.
  replace (8 * S q - 8)%nat with (8 * q)%nat by lia.
  rewrite IH; auto using crc_ref_range; [|lia..]. by rewrite !crc_ref_app.
Qed.

(** The length of a segment is a multiple of eight. *)
Lemma seg_mult8 n : 0 <= n < 2 ^ 63 -> exists q : nat, Z.land n CRC64_LEN_MASK = 8 * Z.of_nat q /\ 8 * Z.of_nat q <= n.
Proof.
  intros Hn. exists (Z.to_nat (n / 8)).
  assert (0 <= n / 8) by (apply Z.div_pos; lia).
  pose proof (Z.div_mod n 8 ltac:(lia)). pose proof (Z.mod_pos_bound n 8 ltac:(lia)).
  rewrite Z2Nat.id by done. split; [|lia].
  change CRC64_LEN_MASK with (Z.shiftl (Z.ones 60) 3).
  rewrite (split_low n 3) at 1 by lia. rewrite land_lxor_distr_l, <- Z.shiftl_land.
  replace (Z.land (Z.land n (Z.ones 3)) (Z.shiftl (Z.ones 60) 3)) with 0.
  2: { rewrite <- Z.land_assoc. change (Z.land (Z.ones 3) _) with 0. by rewrite Z.land_0_r. }
  rewrite Z.lxor_0_l, Z.land_ones, Z.shiftr_div_pow2, Z.shiftl_mul_pow2 by lia.
  change (2 ^ 3) with 8. rewrite Z.mod_small; [lia|]. split; [done|].
  apply Z.div_lt_upper_bound; [lia|]. zpow. lia.
Qed.

(** Merging the checksum of the next segment *)
Lemma merge_ok cache crc1 d n :
  cache_ok cache -> inU 64 crc1 -> Forall is_byte d -> n < 2 ^ 64 -> n = Z.of_nat (length d) ->
  exists cache', crc64_combine cache crc1 (crc_ref 0 d) n CRC64_REVERSED_POLY 64
    = Some (crc_ref crc1 d, cache') /\ cache_ok cache'.
Proof.
  intros Hca Hc Hd Hl ->.
  destruct (crc64_combine_ok cache crc1 (crc_ref 0 d) (Z.of_nat (length d))) as (cache' & -> & Hok);
    [done|done|lia|intros; destruct d; done|].
  exists cache'. split; [|done]. do 2 f_equal.
  rewrite <- (Z.lxor_0_r crc1) at 2. by rewrite crc_ref_lxor.
Qed.
Lemma interleaved_ok g crc1 data :
  cache_ok (combine_cache g) -> inU 64 crc1 -> Forall is_byte data ->
  Z.of_nat (length data) < 2 ^ 63 ->
  exists d1 d2 cache, data = d1 ++ d2 /\ cache_ok cache /\
    interleaved g t crc1 data = Some (crc_ref crc1 d1, d2, cache).
Proof.
  intros Hca Hc Hd Hl. unfold interleaved.
  assert (Htk : forall n, Forall is_byte (take n data)) by (intros; auto with bytes).
  assert (Hdr : forall n, Forall is_byte (drop n data)) by (intros; auto with bytes).
  destruct (_ >? CRC64_TRI_CUTOFF g) eqn:E1;
    [|destruct (_ >? CRC64_DUAL_CUTOFF g) eqn:E2]; zbool.
  - assert (0 <= Z.of_nat (length data) / 3 /\ 3 * (Z.of_nat (length data) / 3) <= Z.of_nat (length data))
      as [H0 H3] by (split; [apply Z.div_pos; lia|apply Z.mul_div_le; lia]).
    destruct (seg_mult8 (Z.of_nat (length data) / 3)) as (q & -> & Hq); [lia|].
    replace (Z.to_nat (8 * Z.of_nat q)) with (8 * q)%nat by lia.
    rewrite drop_drop.
    rewrite loop3_ok; try done; try (auto with bytes); try (rewrite ?length_drop; lia).
    mstep.
    destruct (merge_ok (combine_cache g) (crc_ref crc1 (take (8 * q) data))
      (take (8 * q) (drop (8 * q) data)) (8 * Z.of_nat q)) as (c1 & -> & Hc1); auto using crc_ref_range, Forall_take.
    { lia. } { rewrite length_take, length_drop. lia. }
    mstep. 
    edestruct (merge_ok c1 (crc_ref (crc_ref crc1 (take (8 * q) data)) (take (8 * q) (drop (8 * q) data)))
      (take (8 * q) (drop (8 * q + 8 * q) data)) (8 * Z.of_nat q)) as (c2 & -> & Hc2); auto using crc_ref_range, Forall_take.
    { lia. } { rewrite length_take, length_drop. lia. }
    mstep. rewrite <- !crc_ref_app.
    eexists _, _, c2. split; [|done].
    rewrite <- !drop_drop, <- !app_assoc, !take_drop. done.
  - assert (0 <= Z.of_nat (length data) / 2 /\ 2 * (Z.of_nat (length data) / 2) <= Z.of_nat (length data))
      as [H0 H3] by (split; [apply Z.div_pos; lia|apply Z.mul_div_le; lia]).
    destruct (seg_mult8 (Z.of_nat (length data) / 2)) as (q & -> & Hq); [lia|].
    replace (Z.to_nat (8 * Z.of_nat q)) with (8 * q)%nat by lia.
    rewrite loop2_ok; try done; try (auto with bytes); try (rewrite ?length_drop; lia).
    mstep.
    destruct (merge_ok (combine_cache g) (crc_ref crc1 (take (8 * q) data))
      (take (8 * q) (drop (8 * q) data)) (8 * Z.of_nat q)) as (c1 & -> & Hc1); auto using crc_ref_range, Forall_take.
    { lia. } { rewrite length_take, length_drop. lia. }
    mstep. rewrite <- !crc_ref_app.
    eexists _, _, c1. split; [|done]. rewrite <- !app_assoc, !take_drop. done.
  - exists [], data, (combine_cache g). done.
Qed.

Lemma crcspeed64little_ok g crc addr data :
  cache_ok (combine_cache g) -> inU 64 crc -> Forall is_byte data ->
  Z.of_nat (length data) < 2 ^ 63 ->
  exists g', crcspeed64little g t crc addr data = Some (crc_ref crc data, g') /\
    cache_ok (combine_cache g').
Proof.
  intros Hca Hc Hd Hl. unfold crcspeed64little.
  destruct (_ <? 1). { exists g. by rewrite table_bytes. }
  destruct (align_loop_ok addr crc data Hc Hd) as (d1 & d2 & -> & ->).
  apply Forall_app in Hd as [Hd1 Hd2]. rewrite length_app in Hl.
  destruct (interleaved_ok g (crc_ref crc d1) d2) as (d3 & d4 & cache & -> & Hok & ->);
    [done|by apply crc_ref_range|done|lia|]. mstep.
  apply Forall_app in Hd2 as [Hd3 Hd4].
  destruct (loop1_ok (length d4) (Z.of_nat (length d4)) (crc_ref (crc_ref crc d1) d3) d4)
    as (d5 & d6 & -> & ->); [by auto using crc_ref_range|done|lia|lia|]. mstep.
  apply Forall_app in Hd4 as [Hd5 Hd6].
  rewrite table_bytes by auto using crc_ref_range. rewrite <- !crc_ref_app.
  eexists. split; [done|done].
Qed.

End table_driven.

(** The bit by bit routine is the reflected CRC with the reversed
    polynomial: started on the mirror image of a register it gives the
    register after the bytes. *)
Theorem _crc64_reference crc data :
  inU 64 crc -> Forall is_byte data -> _crc64 crc data = Some (crc_ref (reflect64 crc) data).
Proof. apply _crc64_eq. Qed.

Lemma _crc64_reference_witness :
  _crc64 0 (bytes_of_string "123456789"%string) = Some 0xe9c6d914c4b8d9ca /\
  _crc64 0 (bytes_of_string "123456789"%string) = Some (crc_ref (reflect64 0) (bytes_of_string "123456789"%string)).
Proof.
  split; [vm_compute; reflexivity|].
  apply _crc64_reference; [unfold inU; lia|].
  repeat constructor; unfold is_byte; simpl; lia.
Defined.

(** C29: [crc64], with the tables [crc64_init] makes, computes the bit serial
    checksum for every buffer, alignment and setting of the cutoffs (so for
    the byte, eight byte, two stream and three stream code), and keeps the
    cache of combine operators consistent for the next call. *)
Theorem crc64_correct t0 g crc addr s :
  cache_ok (combine_cache g) -> inU 64 crc -> Forall is_byte s -> Z.of_nat (length s) < 2 ^ 63 ->
  exists t g', crc64_init t0 = Some t /\
    crc64 g t crc addr s = Some (crc_ref crc s, g') /\ cache_ok (combine_cache g').
Proof.
  intros. destruct (crc64_init_eq t0) as (t & -> & Ht).
  destruct (crcspeed64little_ok t Ht g crc addr s) as (g' & Hg & Hok); eauto.
Qed.

Lemma crc64_correct_witness :
  exists t g', crc64_init (fun _ _ => 0) = Some t /\
    crc64 (mkGlobals 8 16 (replicate 64 (replicate 64 0))) t 0 3
      (bytes_of_string "This is a test of the emergency broadcast system."%string)
    = Some (crc_ref 0 (bytes_of_string "This is a test of the emergency broadcast system."%string), g') /\
    cache_ok (combine_cache g').
Proof.
  apply crc64_correct.
  - left. reflexivity.
  - unfold inU. lia.
  - repeat constructor; unfold is_byte; simpl; lia.
  - vm_compute. reflexivity.
Defined.

(** The checksum of two concatenated blocks is the combination of the
    checksum of the first one and, from a zero register, of the second one. *)
Theorem crc64_combine_correct cache crc d1 d2 :
  cache_ok cache -> inU 64 crc -> Forall is_byte d1 -> Forall is_byte d2 ->
  Z.of_nat (length d2) < 2 ^ 64 ->
  exists cache',
    crc64_combine cache (crc_ref crc d1) (crc_ref 0 d2) (Z.of_nat (length d2)) CRC64_REVERSED_POLY 64
    = Some (crc_ref crc (d1 ++ d2), cache') /\ cache_ok cache'.
Proof.
  intros Hca Hc H1 H2 Hl. rewrite crc_ref_app. apply merge_ok; auto using crc_ref_range.
Qed.

Lemma crc64_combine_correct_witness :
  exists cache',
    crc64_combine (replicate 64 (replicate 64 0)) (crc_ref 0 [1; 2; 3]) (crc_ref 0 [4; 5]) 2
      CRC64_REVERSED_POLY 64
    = Some (crc_ref 0 [1; 2; 3; 4; 5], cache') /\ cache_ok cache'.
Proof.
  apply (crc64_combine_correct (replicate 64 (replicate 64 0)) 0 [1; 2; 3] [4; 5]).
  - left. reflexivity.
  - unfold inU. lia.
  - repeat constructor; unfold is_byte; lia.
  - repeat constructor; unfold is_byte; lia.
  - vm_compute. reflexivity.
Defined.
