(* ===== verification/Crc16.v ===== *)
(** * CRC-16 and the hash slot of a key ([crc16.c], [cluster.h])

    [crc16] is the XMODEM checksum by a table of 256 words; [keyHashSlot] maps
    a key to one of the 16384 slots of a cluster, through the hash tag between
    braces when the key has one. *)

From stdpp Require Import sets.
From S2P Require Import Prelude Gf2.

#[local] Open Scope Z_scope.

Definition crc16tab : list Z :=
  [
    0x0000; 0x1021; 0x2042; 0x3063; 0x4084; 0x50a5; 0x60c6; 0x70e7;
    0x8108; 0x9129; 0xa14a; 0xb16b; 0xc18c; 0xd1ad; 0xe1ce; 0xf1ef;
    0x1231; 0x0210; 0x3273; 0x2252; 0x52b5; 0x4294; 0x72f7; 0x62d6;
    0x9339; 0x8318; 0xb37b; 0xa35a; 0xd3bd; 0xc39c; 0xf3ff; 0xe3de;
    0x2462; 0x3443; 0x0420; 0x1401; 0x64e6; 0x74c7; 0x44a4; 0x5485;
    0xa56a; 0xb54b; 0x8528; 0x9509; 0xe5ee; 0xf5cf; 0xc5ac; 0xd58d;
    0x3653; 0x2672; 0x1611; 0x0630; 0x76d7; 0x66f6; 0x5695; 0x46b4;
    0xb75b; 0xa77a; 0x9719; 0x8738; 0xf7df; 0xe7fe; 0xd79d; 0xc7bc;
    0x48c4; 0x58e5; 0x6886; 0x78a7; 0x0840; 0x1861; 0x2802; 0x3823;
    0xc9cc; 0xd9ed; 0xe98e; 0xf9af; 0x8948; 0x9969; 0xa90a; 0xb92b;
    0x5af5; 0x4ad4; 0x7ab7; 0x6a96; 0x1a71; 0x0a50; 0x3a33; 0x2a12;
    0xdbfd; 0xcbdc; 0xfbbf; 0xeb9e; 0x9b79; 0x8b58; 0xbb3b; 0xab1a;
    0x6ca6; 0x7c87; 0x4ce4; 0x5cc5; 0x2c22; 0x3c03; 0x0c60; 0x1c41;
    0xedae; 0xfd8f; 0xcdec; 0xddcd; 0xad2a; 0xbd0b; 0x8d68; 0x9d49;
    0x7e97; 0x6eb6; 0x5ed5; 0x4ef4; 0x3e13; 0x2e32; 0x1e51; 0x0e70;
    0xff9f; 0xefbe; 0xdfdd; 0xcffc; 0xbf1b; 0xaf3a; 0x9f59; 0x8f78;
    0x9188; 0x81a9; 0xb1ca; 0xa1eb; 0xd10c; 0xc12d; 0xf14e; 0xe16f;
    0x1080; 0x00a1; 0x30c2; 0x20e3; 0x5004; 0x4025; 0x7046; 0x6067;
    0x83b9; 0x9398; 0xa3fb; 0xb3da; 0xc33d; 0xd31c; 0xe37f; 0xf35e;
    0x02b1; 0x1290; 0x22f3; 0x32d2; 0x4235; 0x5214; 0x6277; 0x7256;
    0xb5ea; 0xa5cb; 0x95a8; 0x8589; 0xf56e; 0xe54f; 0xd52c; 0xc50d;
    0x34e2; 0x24c3; 0x14a0; 0x0481; 0x7466; 0x6447; 0x5424; 0x4405;
    0xa7db; 0xb7fa; 0x8799; 0x97b8; 0xe75f; 0xf77e; 0xc71d; 0xd73c;
    0x26d3; 0x36f2; 0x0691; 0x16b0; 0x6657; 0x7676; 0x4615; 0x5634;
    0xd94c; 0xc96d; 0xf90e; 0xe92f; 0x99c8; 0x89e9; 0xb98a; 0xa9ab;
    0x5844; 0x4865; 0x7806; 0x6827; 0x18c0; 0x08e1; 0x3882; 0x28a3;
    0xcb7d; 0xdb5c; 0xeb3f; 0xfb1e; 0x8bf9; 0x9bd8; 0xabbb; 0xbb9a;
    0x4a75; 0x5a54; 0x6a37; 0x7a16; 0x0af1; 0x1ad0; 0x2ab3; 0x3a92;
    0xfd2e; 0xed0f; 0xdd6c; 0xcd4d; 0xbdaa; 0xad8b; 0x9de8; 0x8dc9;
    0x7c26; 0x6c07; 0x5c64; 0x4c45; 0x3ca2; 0x2c83; 0x1ce0; 0x0cc1;
    0xef1f; 0xff3e; 0xcf5d; 0xdf7c; 0xaf9b; 0xbfba; 0x8fd9; 0x9ff8;
    0x6e17; 0x7e36; 0x4e55; 0x5e74; 0x2e93; 0x3eb2; 0x0ed1; 0x1ef0
  ].

(** The bytes are of type [char], which is signed. *)
Fixpoint crc16_loop (crc : Z) (buf : list Z) : option Z :=
  match buf with
  | [] => Some crc
  | c :: buf =>
      v ← crc16tab !! Z.to_nat (Z.land (Z.lxor (Z.shiftr crc 8) (s8 c)) 0x00FF);
      crc16_loop (u16 (Z.lxor (Z.shiftl crc 8) v)) buf
  end.

(** [crc16(buf, len)] on the first [len] bytes; nothing when [len] is not
    positive *)
Definition crc16 (buf : list Z) (len : Z) : option Z :=
  if len >? Z.of_nat (length buf) then None else crc16_loop 0 (take (Z.to_nat len) buf).

(** [for (s = i; s < keylen; s++) if (key[s] == c) break;]: the index where it
    stops, [keylen] when the character is not there *)
Fixpoint scan_for (c : Z) (key : list Z) (i : Z) : Z :=
  match key with
  | [] => i
  | k :: key => if s8 k =? c then i else scan_for c key (i + 1)
  end.

(** The length is an [int] in the code, cast by the callers from the length of
    an sds; here it is that of the list, equal up to 2^31 - 1 bytes, which is
    above the 512 MB of the default limit on an argument. *)
Definition keyHashSlot (key : list Z) : option Z :=
  let keylen := Z.of_nat (length key) in
  let s := scan_for (chr "{"%char) key 0 in
  if s =? keylen then c ← crc16 key keylen; Some (Z.land c 0x3FFF) else
  let e := scan_for (chr "}"%char) (drop (Z.to_nat (s + 1)) key) (s + 1) in
  if (e =? keylen) || (e =? s + 1) then c ← crc16 key keylen; Some (Z.land c 0x3FFF) else
  c ← crc16 (drop (Z.to_nat (s + 1)) key) (e - s - 1);
  Some (Z.land c 0x3FFF).

(** ** The bit serial reference: [x^16 + x^12 + x^5 + 1] *)

Definition step16 (x : Z) : Z :=
  Z.lxor (u16 (Z.shiftl x 1)) (if Z.testbit x 15 then 0x1021 else 0).

Definition crc16_ref (crc : Z) (data : list Z) : Z :=
  foldl (fun c b => Nat.iter 8 step16 (Z.lxor c (Z.shiftl b 8))) crc data.

#[export] Instance linear_step16 : Linear step16.
Proof. unfold step16. apply _. Qed.

Lemma crc16tab_ok n : 0 <= n < 256 -> crc16tab !! Z.to_nat n = Some (Nat.iter 8 step16 (Z.shiftl n 8)).
Proof.
  intros Hn.
  assert (H : forallb (fun i => bool_decide (crc16tab !! i = Some (Nat.iter 8 step16 (Z.shiftl (Z.of_nat i) 8))))
                (seq 0 256) = true) by (vm_compute; reflexivity).
  rewrite forallb_forall in H. specialize (H (Z.to_nat n)). rewrite in_seq, Z2Nat.id in H by lia.
  eapply bool_decide_eq_true_1, H. lia.
Qed.

(** The low byte only shifts, the high byte goes through the table. *)
Lemma step16_low x : 0 <= x < 2 ^ 16 ->
  Nat.iter 8 step16 x
  = Z.lxor (u16 (Z.shiftl x 8)) (Nat.iter 8 step16 (Z.shiftl (Z.shiftr x 8) 8)).
Proof.
  pose proof (linear_iter step16 8 _). pose proof (linear_shiftl (fun x => Z.shiftr x 8) 8 _) as Hs.
  pose proof (linear_compose _ _ H Hs). cbv beta in *.
  apply (linear_ext 16 (Nat.iter 8 step16)
    (fun x => Z.lxor (u16 (Z.shiftl x 8)) (Nat.iter 8 step16 (Z.shiftl (Z.shiftr x 8) 8)))).
  vm_compute. reflexivity.
Qed.

Lemma u16_lxor x v : inU 16 v -> u16 (Z.lxor x v) = Z.lxor (u16 x) v.
Proof. intros Hv. rewrite (linear_wrapU16 (fun x => x) _ x v). by rewrite (wrapU_id 16 v). Qed.

Lemma step16_range x : inU 16 (step16 x).
Proof.
  unfold step16. rewrite <- u16_lxor; [apply wrapU_range; lia|].
  destruct (Z.testbit x 15); unfold inU; zpow; lia.
Qed.

Lemma crc16_byte crc c :
  inU 16 crc -> is_byte c ->
  exists v, crc16tab !! Z.to_nat (Z.land (Z.lxor (Z.shiftr crc 8) (s8 c)) 0x00FF) = Some v /\
    u16 (Z.lxor (Z.shiftl crc 8) v) = Nat.iter 8 step16 (Z.lxor crc (Z.shiftl c 8)).
Proof.
  intros Hcrc Hc. change 0x00FF with (Z.ones 8).
  assert (Hs : Z.land (s8 c) (Z.ones 8) = c).
  { unfold is_byte in Hc. rewrite Z.land_ones by lia. unfold wrapS. zpow. change (8 - 1) with 7. zpow.
    destruct (Z.ltb_spec c 128).
    - rewrite (Z.mod_small (c + 128)), Z.mod_small by lia. lia.
    - rewrite <- (Z.mod_add (c + 128) (-1)), (Z.mod_small (c + 128 + _)) by lia.
      rewrite <- (Z.mod_add _ 1), Z.mod_small by lia. lia. }
  assert (Hh : 0 <= Z.shiftr crc 8 < 2 ^ 8).
  { rewrite Z.shiftr_div_pow2 by lia. unfold inU in Hcrc. zpow.
    split; [apply Z.div_pos; lia|apply Z.div_lt_upper_bound; lia]. }
  rewrite land_lxor_distr_l, Hs, (Z.land_ones (Z.shiftr crc 8)), Z.mod_small by lia.
  set (i := Z.lxor (Z.shiftr crc 8) c).
  assert (Hi : 0 <= i < 256).
  { unfold i. rewrite <- Hs, <- (Z.mod_small (Z.shiftr crc 8) (2 ^ 8)), <- Z.land_ones, <- land_lxor_distr_l by lia.
    apply (land_ones_range _ 8). lia. }
  eexists. split; [by apply crc16tab_ok|].
  pose proof (linear_iter step16 8 _) as Hl.
  rewrite u16_lxor by apply step16_range. unfold i. rewrite Z.shiftl_lxor, !Hl.
  rewrite (step16_low crc) by done. by rewrite Z.lxor_assoc.
Qed.

Lemma crc16_loop_eq buf crc :
  inU 16 crc -> Forall is_byte buf -> crc16_loop crc buf = Some (crc16_ref crc buf).
Proof.
  intros Hc Hb. revert crc Hc. induction Hb as [|c buf Hb Hbuf IH]; intros crc Hc; [done|].
  cbn [crc16_loop]. destruct (crc16_byte crc c Hc Hb) as (v & -> & Hv). mstep.
  rewrite Hv. apply IH. apply step16_range.
Qed.

Lemma crc16_eq buf len :
  Forall is_byte buf -> 0 <= len <= Z.of_nat (length buf) ->
  crc16 buf len = Some (crc16_ref 0 (take (Z.to_nat len) buf)).
Proof.
  intros Hb Hl. unfold crc16. zcase; [lia|].
  apply crc16_loop_eq; [unfold inU; lia|auto with bytes].
Qed.

(** [crc16] is the XMODEM CRC: the table driven loop over signed
    characters is, on every buffer, the bit serial division by
    [x^16 + x^12 + x^5 + 1]. *)
Theorem crc16_correct buf :
  Forall is_byte buf -> crc16 buf (Z.of_nat (length buf)) = Some (crc16_ref 0 buf).
Proof. intros Hb. rewrite crc16_eq by (done || lia). by rewrite Nat2Z.id, firstn_all. Qed.

Lemma crc16_correct_witness :
  crc16_ref 0 (bytes_of_string "123456789"%string) = 0x31C3 /\
  crc16 (bytes_of_string "123456789"%string) 9 = Some (crc16_ref 0 (bytes_of_string "123456789"%string)).
Proof.
  split; [vm_compute; reflexivity|].
  apply (crc16_correct (bytes_of_string "123456789"%string)).
  repeat constructor; unfold is_byte; simpl; lia.
Defined.

(** ** Hash slots *)

(** The part of a key that is hashed: what stands between the first opening
    brace and the first closing brace after it, if that is not empty; else the
    whole key. *)
Definition has_tag (key tag : list Z) : Prop :=
  exists pre post, key = pre ++ chr "{"%char :: tag ++ chr "}"%char :: post /\
    chr "{"%char ∉ pre /\ chr "}"%char ∉ tag /\ tag <> [].

Lemma s8_eqb b c : is_byte b -> 0 <= c < 128 -> (s8 b =? c) = (b =? c).
Proof.
  unfold is_byte. intros Hb Hc. unfold wrapS. zpow. change (8 - 1) with 7. zpow.
  destruct (Z.ltb_spec b 128).
  - rewrite Z.mod_small by lia. f_equal. lia.
  - rewrite <- (Z.mod_add _ (-1)), Z.mod_small by lia.
    destruct (Z.eqb_spec (b + 128 + -1 * 256 - 128) c), (Z.eqb_spec b c); lia || done.
Qed.

Lemma scan_for_spec c key i :
  Forall is_byte key -> 0 <= c < 128 ->
  (c ∉ key /\ scan_for c key i = i + Z.of_nat (length key)) \/
  (exists pre post, key = pre ++ c :: post /\ c ∉ pre /\ scan_for c key i = i + Z.of_nat (length pre)).
Proof.
  intros Hk Hc. revert i. induction Hk as [|k key Hk Hkey IH]; intros i.
  { left. split; [apply not_elem_of_nil|simpl; lia]. }
  cbn [scan_for length]. rewrite s8_eqb by done. destruct (Z.eqb_spec k c) as [->|Hne].
  { right. exists [], key. split_and!; [done|apply not_elem_of_nil|simpl; lia]. }
  destruct (IH (i + 1)) as [[Hn ->]|(pre & post & -> & Hp & ->)].
  - left. split; [|lia]. rewrite not_elem_of_cons. auto.
  - right. exists (k :: pre), post. split_and!; [done|rewrite not_elem_of_cons; auto|simpl; lia].
Qed.

Lemma first_split_unique (c : Z) p1 q1 p2 q2 :
  p1 ++ c :: q1 = p2 ++ c :: q2 -> c ∉ p1 -> c ∉ p2 -> p1 = p2 /\ q1 = q2.
Proof.
  revert p2. induction p1 as [|a p1 IH]; intros [|b p2] He H1 H2; simplify_eq/=; try done.
  - rewrite not_elem_of_cons in H2. naive_solver.
  - rewrite not_elem_of_cons in H1. naive_solver.
  - rewrite not_elem_of_cons in H1, H2. destruct (IH p2) as [-> ->]; naive_solver.
Qed.

(** C30: the hash slot of a key is the low 14 bits of the CRC-16 of its hash
    tag, or of the whole key when it has none. (Of the code this holds for keys
    shorter than 2^31 bytes, whose length fits its [int].) *)
Theorem keyHashSlot_correct key :
  Forall is_byte key ->
  (forall tag, has_tag key tag -> keyHashSlot key = Some (crc16_ref 0 tag mod 16384)) /\
  ((forall tag, ~ has_tag key tag) -> keyHashSlot key = Some (crc16_ref 0 key mod 16384)).
Proof.
  intros Hb. unfold keyHashSlot. change 0x3FFF with (Z.ones 14).
  assert (Hwhole : (c ← crc16 key (Z.of_nat (length key)); Some (Z.land c (Z.ones 14)))
    = Some (crc16_ref 0 key mod 16384)).
  { rewrite crc16_eq by (done || lia). mstep.
    by rewrite Z.land_ones, Nat2Z.id, firstn_all by lia. }
  destruct (scan_for_spec (chr "{"%char) key 0) as [[Hno ->]|(pre & post & -> & Hpre & ->)]; [done|done| |].
  { rewrite Z.add_0_l, Z.eqb_refl, Hwhole. split; [|done].
    intros tag (pre & post & -> & _). set_solver. }
  rewrite Z.add_0_l. apply Forall_app in Hb as [Hbpre Hbpost]. apply Forall_cons in Hbpost as [_ Hbpost].
  rewrite length_app in *. cbn [length] in *. zcase; [lia|].
  replace (Z.to_nat (Z.of_nat (length pre) + 1)) with (length pre + 1)%nat by lia.
  rewrite <- drop_drop, drop_app_length. cbn [drop]. rewrite drop_0.
  destruct (scan_for_spec (chr "}"%char) post (Z.of_nat (length pre) + 1))
    as [[Hno ->]|(tag & post' & -> & Htag & ->)]; [done|done| |].
  { replace (_ =? _) with true by (symmetry; apply Z.eqb_eq; lia). cbn [orb]. rewrite Hwhole. split; [|done].
    intros tag (pre' & post' & Heq & Hp' & _).
    destruct (first_split_unique _ _ _ _ _ Heq Hpre Hp') as [_ ->]. set_solver. }
  rewrite length_app in Hwhole |- *. cbn [length] in Hwhole |- *.
  destruct (Z.eqb_spec (Z.of_nat (length pre) + 1 + Z.of_nat (length tag))
    (Z.of_nat (length pre + S (length tag + S (length post'))))); [lia|]. cbn [orb].
  assert (Huniq : forall tag', has_tag (pre ++ chr "{"%char :: tag ++ chr "}"%char :: post') tag' -> tag' = tag /\ tag' <> []).
  { intros tag' (pre' & post'' & Heq & Hp' & Ht' & Hne).
    destruct (first_split_unique _ _ _ _ _ Heq Hpre Hp') as [_ Heq2].
    destruct (first_split_unique _ _ _ _ _ Heq2 Htag Ht'). auto. }
  zcase.
  { rewrite Hwhole. split; [|done]. intros tag' [-> Hne]%Huniq. destruct tag; [done|simpl in *; lia]. }
  split.
  - intros tag' [-> _]%Huniq. rewrite crc16_eq by (rewrite ?length_app; done || lia).
    mstep. rewrite Z.land_ones by lia. do 3 f_equal.
    replace (Z.to_nat _) with (length tag) by lia. apply take_app_length.
  - intros H. exfalso. apply (H tag). exists pre, post'. split_and!; [done..|].
    intros ->. simpl in *. lia.
Qed.

Lemma keyHashSlot_correct_witness :
  keyHashSlot (bytes_of_string "{user1000}.following"%string) = Some 3443 /\
  keyHashSlot (bytes_of_string "{user1000}.followers"%string)
  = Some (crc16_ref 0 (bytes_of_string "user1000"%string) mod 16384).
Proof.
  split; [vm_compute; reflexivity|].
  apply (proj1 (keyHashSlot_correct (bytes_of_string "{user1000}.followers"%string)
    ltac:(repeat constructor; unfold is_byte; simpl; lia))).
  exists [], (bytes_of_string ".followers"%string). split_and!.
  - reflexivity.
  - vm_compute. inversion 1.
  - intros H. vm_compute in H. repeat (apply elem_of_cons in H as [H|H]; [discriminate H|]). inversion H.
  - vm_compute. discriminate.
Defined.
