(* ===== verification/Fwtree.v ===== *)
(** * Fenwick trees ([fwtree.c])

    A Fenwick tree keeps the prefix sums of an array of counters, here the
    number of keys of each slot of a kvstore. [tree[i]], 1-based, is the sum
    of the [i & -i] counters that end at position [i]. A null tree pointer is
    [None]. *)

From S2P Require Import Prelude.

#[local] Open Scope Z_scope.

Record fenwickTree := mkFenwickTree {
  ft_tree : list Z;
  ft_size_bits : Z;
  ft_size : Z;
  ft_total : Z
}.

Definition fwTreeCreate (sizeBits : Z) : fenwickTree :=
  let size := s32 (Z.shiftl 1 sizeBits) in
  mkFenwickTree (replicate (Z.to_nat (size + 1)) 0) sizeBits size 0.

(** [ft->tree[i]] *)
Definition tree_at (tree : list Z) (i : Z) : option Z :=
  if i <? 0 then None else tree !! Z.to_nat i.

(** [idx & -idx] *)
Definition lowbit (idx : Z) : Z := Z.land idx (- idx).

(** The index is positive and decreases: [Z.to_nat idx] steps are enough. *)
Fixpoint prefix_loop (fuel : nat) (tree : list Z) (idx sum : Z) : option Z :=
  if idx >? 0 then
    match fuel with
    | O => None
    | S fuel => v ← tree_at tree idx; prefix_loop fuel tree (idx - lowbit idx) (u64 (sum + v))
    end
  else Some sum.

Definition fwTreePrefixSum (ft : option fenwickTree) (idx : Z) : option Z :=
  match ft with
  | None => Some 0
  | Some ft =>
      if idx <? 0 then Some 0 else
      let idx := if idx >=? ft_size ft then ft_size ft - 1 else idx in
      let idx := s32 (idx + 1) in
      prefix_loop (Z.to_nat idx) (ft_tree ft) idx 0
  end.

(** The index grows by at least one up to [size]. *)
Fixpoint update_loop (fuel : nat) (tree : list Z) (size idx delta : Z) : option (list Z) :=
  if idx <=? size then
    match fuel with
    | O => None
    | S fuel =>
        v ← tree_at tree idx;
        cassert (if delta <? 0 then v >=? u64 (- delta) else true) ;;
        update_loop fuel (<[Z.to_nat idx := u64 (v + delta)]> tree) size
          (s32 (idx + lowbit idx)) delta
    end
  else Some tree.

Definition fwTreeUpdate (ft : fenwickTree) (idx delta : Z) : option fenwickTree :=
  if (idx <? 0) || (idx >=? ft_size ft) then Some ft else
  let idx := s32 (idx + 1) in
  tree ← update_loop (Z.to_nat (ft_size ft)) (ft_tree ft) (ft_size ft) idx delta;
  Some (mkFenwickTree tree (ft_size_bits ft) (ft_size ft) (u64 (ft_total ft + delta))).

(** [for (int i = bit_mask; i != 0; i >>= 1)]: [i] is halved, so [size_bits+1]
    steps. *)
Fixpoint find_loop (fuel : nat) (tree : list Z) (i result target : Z) : option Z :=
  if negb (i =? 0) then
    match fuel with
    | O => None
    | S fuel =>
        let current := s32 (result + i) in
        v ← tree_at tree current;
        if target >? v then find_loop fuel tree (Z.shiftr i 1) current (u64 (target - v))
        else find_loop fuel tree (Z.shiftr i 1) result target
    end
  else Some result.

Definition fwTreeFindIndex (ft : fenwickTree) (target : Z) : option Z :=
  if target <=? 0 then Some 0 else
  let bit_mask := s32 (Z.shiftl 1 (ft_size_bits ft)) in
  find_loop (S (Z.to_nat (ft_size_bits ft))) (ft_tree ft) bit_mask 0 target.

Definition fwTreeFindFirstNonEmpty (ft : fenwickTree) : option Z := fwTreeFindIndex ft 1.

Definition fwTreeFindNextNonEmpty (ft : option fenwickTree) (idx : Z) : option Z :=
  match ft with
  | None => Some (-1)
  | Some f =>
      if (idx <? 0) || (idx >=? ft_size f) then Some (-1) else
      p ← fwTreePrefixSum ft idx;
      let next_sum := u64 (p + 1) in
      if next_sum <=? ft_total f then fwTreeFindIndex f next_sum else Some (-1)
  end.

Definition fwTreeClear (ft : fenwickTree) : fenwickTree :=
  mkFenwickTree (replicate (Z.to_nat (ft_size ft + 1)) 0) (ft_size_bits ft) (ft_size ft) 0.

(** ** The lowest bit *)

Lemma odd_decomposition i :
  0 < i -> exists k m, 0 <= k /\ 0 <= m /\ i = 2 ^ k * (2 * m + 1).
Proof.
  intros Hi. induction i as [i IH] using (well_founded_induction (Z.lt_wf 0)).
  destruct (Z.Even_or_Odd i) as [[j ->]|[j ->]].
  - destruct (IH j) as (k & m & Hk & Hm & ->); [lia|lia|].
    exists (k + 1), m. rewrite Z.pow_add_r by lia. lia.
  - exists 0, j. change (2 ^ 0) with 1. lia.
Qed.

Lemma land_odd_opp m : Z.land (2 * m + 1) (- (2 * m + 1)) = 1.
Proof.
  replace (- (2 * m + 1)) with (Z.lnot (2 * m)) by (unfold Z.lnot; lia).
  apply Z.bits_inj'. intros n Hn. rewrite Z.land_spec, Z.lnot_spec by done.
  destruct (Z.eq_dec n 0) as [->|].
  - rewrite Z.testbit_odd_0, Z.testbit_even_0. done.
  - replace n with (Z.succ (n - 1)) by lia.
    rewrite Z.testbit_odd_succ, Z.testbit_even_succ by lia.
    rewrite (Z.bits_above_log2 1) by (simpl; lia).
    by destruct (Z.testbit m (n - 1)).
Qed.

Lemma lowbit_eq k m : 0 <= k -> lowbit (2 ^ k * (2 * m + 1)) = 2 ^ k.
Proof.
  intros Hk. unfold lowbit.
  rewrite <- Z.mul_opp_r, !(Z.mul_comm (2 ^ k)), <- !Z.shiftl_mul_pow2 by done.
  rewrite <- Z.shiftl_land, land_odd_opp, Z.shiftl_mul_pow2; lia.
Qed.

Lemma lowbit_bound i : 0 < i -> 0 < lowbit i <= i.
Proof.
  intros (k & m & Hk & Hm & ->)%odd_decomposition. rewrite lowbit_eq by done.
  pose proof (pow2_pos k Hk). nia.
Qed.

(** The node after [c] that covers what [c] covers. *)
Lemma lowbit_next c : 0 < c -> c + lowbit c - lowbit (c + lowbit c) <= c - lowbit c.
Proof.
  intros (k & m & Hk & Hm & ->)%odd_decomposition. rewrite lowbit_eq by done.
  pose proof (pow2_pos k Hk).
  destruct (odd_decomposition (m + 1)) as (k' & m' & Hk' & Hm' & E); [lia|].
  replace (2 ^ k * (2 * m + 1) + 2 ^ k) with (2 ^ (k + 1 + k') * (2 * m' + 1)).
  - rewrite lowbit_eq, !Z.pow_add_r by lia. pose proof (pow2_pos k' Hk').
    change (2 ^ 1) with 2. nia.
  - rewrite !Z.pow_add_r by lia. change (2 ^ 1) with 2. nia.
Qed.

(** The nodes between do not reach down to [c]. *)
Lemma lowbit_between c i : 0 < c -> c < i < c + lowbit c -> c <= i - lowbit i.
Proof.
  intros (k & m & Hk & Hm & ->)%odd_decomposition. rewrite lowbit_eq by done.
  set (c := 2 ^ k * (2 * m + 1)). intros Hi.
  destruct (odd_decomposition (i - c)) as (k' & m' & Hk' & Hm' & E); [lia|].
  pose proof (pow2_pos k Hk). pose proof (pow2_pos k' Hk').
  assert (k' < k).
  { apply (Z.pow_lt_mono_r_iff 2); [lia..|]. nia. }
  assert (Hdec : i = 2 ^ k' * (2 * (2 ^ (k - k' - 1) * (2 * m + 1) + m') + 1)).
  { unfold c in E. replace i with (2 ^ k * (2 * m + 1) + 2 ^ k' * (2 * m' + 1)) by lia.
    replace k with (k' + 1 + (k - k' - 1)) at 1 by lia.
    rewrite !Z.pow_add_r by lia. change (2 ^ 1) with 2. ring. }
  rewrite Hdec at 2. rewrite lowbit_eq by done. nia.
Qed.

(** ** Prefix sums *)

Definition sumZ (l : list Z) : Z := foldr Z.add 0 l.
Definition psum (a : list Z) (n : Z) : Z := sumZ (take (Z.to_nat n) a).

Lemma sumZ_app l1 l2 : sumZ (l1 ++ l2) = sumZ l1 + sumZ l2.
Proof. unfold sumZ. induction l1; simpl; lia. Qed.

Lemma sumZ_nonneg l : Forall (Z.le 0) l -> 0 <= sumZ l.
Proof. unfold sumZ. induction 1; simpl; lia. Qed.

Lemma psum_mono a n n' : Forall (Z.le 0) a -> n <= n' -> psum a n <= psum a n'.
Proof.
  intros Ha Hn. unfold psum.
  rewrite <- (take_drop (Z.to_nat n) (take (Z.to_nat n') a)), sumZ_app, take_take.
  rewrite Nat.min_l by lia.
  pose proof (sumZ_nonneg (drop (Z.to_nat n) (take (Z.to_nat n') a))
    ltac:(by apply Forall_drop, Forall_take)). lia.
Qed.

Lemma psum_0 a : psum a 0 = 0.
Proof. done. Qed.

Lemma psum_all a n : Z.of_nat (length a) <= n -> psum a n = sumZ a.
Proof. intros. unfold psum. rewrite take_ge; [done|lia]. Qed.

Lemma psum_succ a n v : 0 <= n -> a !! Z.to_nat n = Some v -> psum a (n + 1) = psum a n + v.
Proof.
  intros Hn Hv. unfold psum. rewrite Z2Nat.inj_add, Nat.add_1_r by lia.
  rewrite (take_S_r _ _ v Hv), sumZ_app. simpl. lia.
Qed.

Lemma psum_insert a q v d n :
  0 <= q -> a !! Z.to_nat q = Some v ->
  psum (<[Z.to_nat q := v + d]> a) n = psum a n + (if q <? n then d else 0).
Proof.
  intros Hq Hv. unfold psum. destruct (q <? n) eqn:E; zbool.
  - assert (Hlt := lookup_lt_Some _ _ _ Hv).
    rewrite insert_take_drop by done.
    assert (take (Z.to_nat n) a = take (Z.to_nat n)
      (take (Z.to_nat q) a ++ v :: drop (S (Z.to_nat q)) a)) as ->
      by (by rewrite take_drop_middle).
    rewrite !take_app, length_take.
    replace (Z.to_nat n - Z.to_nat q `min` length a)%nat
      with (S (Z.to_nat n - S (Z.to_nat q))) by lia.
    simpl. rewrite !sumZ_app. simpl. lia.
  - rewrite take_insert_ge by lia. lia.
Qed.

(** ** The invariant *)

(** [ft] keeps the sums of the counters [a]. The bound on [size_bits] keeps
    the index of the update loop inside [int]. *)
Record fw_inv (ft : fenwickTree) (a : list Z) : Prop := {
  fw_bits : 0 <= ft_size_bits ft <= 29;
  fw_size : ft_size ft = 2 ^ ft_size_bits ft;
  fw_len : Z.of_nat (length a) = ft_size ft;
  fw_tlen : Z.of_nat (length (ft_tree ft)) = ft_size ft + 1;
  fw_pos : Forall (Z.le 0) a;
  fw_max : sumZ a < 2 ^ 64;
  fw_total : ft_total ft = sumZ a;
  fw_node : forall i, 1 <= i <= ft_size ft ->
    ft_tree ft !! Z.to_nat i = Some (psum a i - psum a (i - lowbit i))
}.

Lemma fw_size_bound ft a : fw_inv ft a -> 1 <= ft_size ft <= 2 ^ 29.
Proof.
  intros H. rewrite (fw_size _ _ H). pose proof (fw_bits _ _ H).
  split; [pose proof (pow2_pos (ft_size_bits ft)); lia|apply Z.pow_le_mono_r; lia].
Qed.

Lemma tree_at_pos (t : list Z) i : 0 <= i -> tree_at t i = t !! Z.to_nat i.
Proof. intros. unfold tree_at. by rewrite (proj2 (Z.ltb_ge _ _)). Qed.

Lemma psum_range ft a n : fw_inv ft a -> 0 <= psum a n < 2 ^ 64.
Proof.
  intros H. pose proof (fw_pos _ _ H) as Hp. pose proof (fw_max _ _ H).
  rewrite <- (psum_all a (Z.max n (Z.of_nat (length a)))) in * by lia.
  pose proof (psum_mono a n (Z.max n (Z.of_nat (length a))) Hp ltac:(lia)).
  split; [|lia]. apply sumZ_nonneg, Forall_take, Hp.
Qed.

Lemma prefix_loop_spec fuel ft a idx sum :
  fw_inv ft a -> 0 <= idx <= ft_size ft -> (Z.to_nat idx <= fuel)%nat ->
  0 <= sum -> sum + psum a idx < 2 ^ 64 ->
  prefix_loop fuel (ft_tree ft) idx sum = Some (sum + psum a idx).
Proof.
  intros H. revert idx sum. induction fuel as [|fuel IH]; intros idx sum Hi Hf Hs Hb;
    cbn [prefix_loop]; rewrite Z.gtb_ltb.
  1: replace idx with 0 by lia; simpl; rewrite psum_0; f_equal; lia.
  destruct (0 <? idx) eqn:E; zbool.
  2: replace idx with 0 by lia; rewrite psum_0; f_equal; lia.
  rewrite tree_at_pos by lia. rewrite (fw_node _ _ H idx) by lia. simpl.
  pose proof (lowbit_bound idx E). pose proof (psum_range ft a (idx - lowbit idx) H).
  pose proof (psum_mono a (idx - lowbit idx) idx (fw_pos _ _ H) ltac:(lia)).
  rewrite wrapU_id by (unfold inU; lia).
  rewrite IH by lia. f_equal; lia.
Qed.

(** The prefix sum of a position, clamped to the array. *)
Lemma prefixSum_eq ft a idx :
  fw_inv ft a -> fwTreePrefixSum (Some ft) idx = Some (psum a (idx + 1)).
Proof.
  intros H. pose proof (fw_size_bound _ _ H) as Hsz. pose proof (fw_len _ _ H) as Hlen.
  cbn [fwTreePrefixSum]. destruct (idx <? 0) eqn:E; zbool.
  { unfold psum. replace (Z.to_nat (idx + 1)) with 0%nat by lia. done. }
  rewrite Z.geb_leb. destruct (ft_size ft <=? idx) eqn:E2; zbool.
  - rewrite Z.sub_add, wrapS_id by (unfold inS; zpow; lia).
    rewrite (prefix_loop_spec _ ft a) by (auto; try lia; apply (psum_range ft a _ H)).
    f_equal. rewrite Z.add_0_l, !psum_all by lia. done.
  - rewrite wrapS_id by (unfold inS; zpow; lia).
    rewrite (prefix_loop_spec _ ft a) by (auto; try lia; apply (psum_range ft a _ H)).
    done.
Qed.

(** ** Update *)

(** The 1-based node [i] covers the position [q]. *)
Definition covers (i q : Z) : bool := (i - lowbit i <? q) && (q <=? i).

Lemma covers_next c q : 0 < c -> covers c q = true -> covers (c + lowbit c) q = true.
Proof.
  intros Hc Hq. unfold covers in *. zbool. pose proof (lowbit_next c Hc).
  pose proof (lowbit_bound c Hc). apply andb_true_iff. rewrite Z.ltb_lt, Z.leb_le. lia.
Qed.

Lemma covers_between c i q :
  0 < c -> covers c q = true -> c < i < c + lowbit c -> covers i q = false.
Proof.
  intros Hc Hq Hi. unfold covers in *. zbool. pose proof (lowbit_between c i Hc Hi).
  rewrite (proj2 (Z.ltb_ge _ _)) by lia. done.
Qed.

(** From [c], the loop adds [delta] to the nodes that cover [q]. *)
Lemma update_loop_spec fuel tree size c q delta :
  Z.of_nat (length tree) = size + 1 -> size <= 2 ^ 29 ->
  0 < c <= 2 ^ 30 -> covers c q = true -> size - c < Z.of_nat fuel ->
  (forall i v, c <= i <= size -> covers i q = true -> tree !! Z.to_nat i = Some v ->
     delta < 0 -> u64 (- delta) <= v) ->
  exists tree', update_loop fuel tree size c delta = Some tree' /\
    forall i, 0 <= i -> tree' !! Z.to_nat i =
      if (c <=? i) && (i <=? size) && covers i q
      then (fun v => u64 (v + delta)) <$> tree !! Z.to_nat i else tree !! Z.to_nat i.
Proof.
  revert tree c. induction fuel as [|fuel IH]; intros tree c Hlen Hsz Hc Hcov Hf Hass;
    cbn [update_loop]; destruct (c <=? size) eqn:E; zbool; try lia.
  1,3: exists tree; split; [done|]; intros i Hi;
    destruct (c <=? i) eqn:E1, (i <=? size) eqn:E2; zbool; try done; lia.
  rewrite tree_at_pos by lia.
  destruct (lookup_lt_is_Some_2 tree (Z.to_nat c)) as [v Hv]; [lia|]. rewrite Hv. simpl.
  replace (cassert _) with (Some tt).
  2: { destruct (delta <? 0) eqn:Ed; zbool; [|done]. unfold cassert. rewrite Z.geb_leb.
       rewrite (proj2 (Z.leb_le _ _)); [done|]. eapply Hass; eauto. lia. }
  simpl. pose proof (lowbit_bound c ltac:(lia)).
  rewrite wrapS_id by (unfold inS; zpow; lia).
  destruct (IH (<[Z.to_nat c:=u64 (v + delta)]> tree) (c + lowbit c)) as (t' & -> & Ht').
  { by rewrite length_insert. } { done. } { zpow; lia. } { by apply covers_next; [lia|]. } { lia. }
  { intros i w Hi Hci Hw Hd. rewrite list_lookup_insert_ne in Hw by lia. eapply Hass; eauto. lia. }
  exists t'. split; [done|]. intros i Hi. rewrite (Ht' i Hi).
  destruct (Z.eq_dec i c) as [->|Hic].
  { rewrite (proj2 (Z.leb_gt (c + lowbit c) c)) by lia. simpl.
    rewrite (proj2 (Z.leb_le c c)), (proj2 (Z.leb_le c size)), Hcov by lia. simpl.
    rewrite list_lookup_insert_eq by lia. by rewrite Hv. }
  rewrite list_lookup_insert_ne by lia.
  destruct (covers i q) eqn:Ecov; [|by rewrite !andb_false_r].
  destruct (c + lowbit c <=? i) eqn:E1; zbool.
  { by rewrite (proj2 (Z.leb_le c i)) by lia. }
  destruct (c <=? i) eqn:E2; zbool; [|done].
  rewrite (covers_between c i q) in Ecov; [done|lia|done|lia].
Qed.

Lemma node_delta a q v d i :
  0 <= q -> a !! Z.to_nat q = Some v -> 0 < i ->
  psum (<[Z.to_nat q := v + d]> a) i - psum (<[Z.to_nat q := v + d]> a) (i - lowbit i)
  = psum a i - psum a (i - lowbit i) + (if covers i (q + 1) then d else 0).
Proof.
  intros Hq Hv Hi. rewrite !(psum_insert a q v d) by done. unfold covers.
  pose proof (lowbit_bound i Hi).
  destruct (q <? i) eqn:E1, (q <? i - lowbit i) eqn:E2, (i - lowbit i <? q + 1) eqn:E3,
    (q + 1 <=? i) eqn:E4; zbool; simpl; lia.
Qed.

(** A covering node counts at least the counter itself. *)
Lemma node_ge a q v i :
  Forall (Z.le 0) a -> 0 <= q -> a !! Z.to_nat q = Some v -> covers i (q + 1) = true ->
  v <= psum a i - psum a (i - lowbit i).
Proof.
  intros Ha Hq Hv Hc. unfold covers in Hc. zbool.
  pose proof (psum_succ a q v Hq Hv).
  pose proof (psum_mono a (q + 1) i Ha ltac:(lia)).
  pose proof (psum_mono a (i - lowbit i) q Ha ltac:(lia)). lia.
Qed.

(** [a[idx] += delta], nothing when [idx] is out of range. *)
Definition add_counter (a : list Z) (idx delta : Z) : list Z :=
  if idx <? 0 then a else
  match a !! Z.to_nat idx with
  | Some v => <[Z.to_nat idx := v + delta]> a
  | None => a
  end.

Section Update.
Context (ft : fenwickTree) (a : list Z) (idx v delta : Z).
Context (H : fw_inv ft a) (Hidx : 0 <= idx) (Hv : a !! Z.to_nat idx = Some v).
Context (Hnn : 0 <= v + delta) (Hmax : sumZ a + delta < 2 ^ 64).
Let a' := <[Z.to_nat idx := v + delta]> a.

Lemma updated_pos : Forall (Z.le 0) a'.
Proof. apply Forall_insert; [apply (fw_pos _ _ H)|lia]. Qed.

Lemma updated_length : Z.of_nat (length a') = ft_size ft.
Proof. unfold a'. rewrite length_insert. apply (fw_len _ _ H). Qed.

Lemma updated_sum : sumZ a' = sumZ a + delta.
Proof.
  pose proof (psum_insert a idx v delta (ft_size ft) Hidx Hv) as Htot.
  pose proof (lookup_lt_Some _ _ _ Hv). pose proof (fw_len _ _ H). pose proof updated_length.
  fold a' in Htot. rewrite !psum_all, (proj2 (Z.ltb_lt _ _)) in Htot by lia. done.
Qed.

(** What the loop stores in a node is the new sum of the node. *)
Lemma updated_node i :
  1 <= i <= ft_size ft ->
  (if (idx + 1 <=? i) && (i <=? ft_size ft) && covers i (idx + 1)
   then (fun v => u64 (v + delta)) <$> ft_tree ft !! Z.to_nat i else ft_tree ft !! Z.to_nat i)
  = Some (psum a' i - psum a' (i - lowbit i)).
Proof.
  intros Hi. rewrite (fw_node _ _ H i Hi). unfold a'.
  rewrite (node_delta a idx v delta i) by (auto; lia).
  pose proof (node_delta a idx v delta i Hidx Hv ltac:(lia)) as Hnd. fold a' in Hnd.
  pose proof updated_pos as Ha'. pose proof updated_sum.
  pose proof (psum_mono a' (i - lowbit i) i Ha' ltac:(pose proof (lowbit_bound i); lia)).
  pose proof (psum_mono a' i (ft_size ft) Ha' ltac:(lia)) as Hup.
  rewrite (psum_all a' (ft_size ft)) in Hup by (rewrite updated_length; lia).
  pose proof (sumZ_nonneg (take (Z.to_nat (i - lowbit i)) a') ltac:(by apply Forall_take)) as Hlo.
  fold (psum a' (i - lowbit i)) in Hlo.
  destruct (covers i (idx + 1)) eqn:Ec.
  - assert (idx + 1 <= i) by (unfold covers in Ec; zbool; lia).
    rewrite (proj2 (Z.leb_le _ _)), (proj2 (Z.leb_le i _)) by lia. simpl.
    rewrite wrapU_id; [done|]. unfold inU. lia.
  - by rewrite andb_false_r, Z.add_0_r.
Qed.

Lemma update_in_range :
  inS 64 delta -> delta <> - 2 ^ 63 ->
  exists ft', fwTreeUpdate ft idx delta = Some ft' /\ fw_inv ft' a'.
Proof.
  intros Hd Hmin. pose proof (fw_size_bound _ _ H) as Hsz. pose proof (fw_len _ _ H) as Hlen.
  pose proof (lookup_lt_Some _ _ _ Hv) as Hlt.
  unfold fwTreeUpdate. rewrite Z.geb_leb, (proj2 (Z.ltb_ge _ _)), (proj2 (Z.leb_gt _ _)) by lia.
  simpl. rewrite wrapS_id by (unfold inS; zpow; lia).
  destruct (update_loop_spec (Z.to_nat (ft_size ft)) (ft_tree ft) (ft_size ft) (idx + 1)
    (idx + 1) delta) as (t' & -> & Ht').
  { apply (fw_tlen _ _ H). } { lia. } { zpow; lia. }
  { unfold covers. pose proof (lowbit_bound (idx + 1) ltac:(lia)).
    apply andb_true_iff. rewrite Z.ltb_lt, Z.leb_le. lia. } { lia. }
  { intros i w Hi Hc Hw Hneg. rewrite (fw_node _ _ H) in Hw by lia. simplify_eq.
    pose proof (node_ge a idx v i (fw_pos _ _ H) Hidx Hv Hc).
    unfold inS in Hd. revert Hd Hmin. zpow. intros. rewrite wrapU_id by (unfold inU; zpow; lia). lia. }
  simpl. eexists. split; [done|]. pose proof updated_sum. pose proof updated_pos.
  split; simpl; try apply H; auto using updated_length.
  - rewrite <- (fw_tlen _ _ H). apply Nat2Z.inj_iff, list_same_length_lookup.
    intros j. specialize (Ht' (Z.of_nat j) ltac:(lia)). rewrite Nat2Z.id in Ht'. rewrite Ht'.
    case_match; [|done]. by rewrite fmap_is_Some.
  - lia.
  - rewrite (fw_total _ _ H), wrapU_id; [lia|]. unfold inU.
    pose proof (sumZ_nonneg a' ltac:(done)). lia.
  - intros i Hi. rewrite (Ht' i) by lia. by apply updated_node.
Qed.
End Update.

(** Adding [delta] to the counter [idx] keeps the tree the Fenwick tree of
    the updated counters, as long as the counter does not become negative and
    the sum stays below 2^64: no index leaves the array, the assertion of the
    loop does not fail, and the debug assertion
    [total == fwTreePrefixSum(ft, size-1)] holds of the result. An index out
    of range leaves the tree alone. *)
Theorem fwTreeUpdate_correct ft a idx delta :
  fw_inv ft a -> inS 64 delta -> delta <> - 2 ^ 63 ->
  (forall v, 0 <= idx -> a !! Z.to_nat idx = Some v -> 0 <= v + delta) ->
  sumZ a + delta < 2 ^ 64 ->
  exists ft', fwTreeUpdate ft idx delta = Some ft' /\
    fw_inv ft' (add_counter a idx delta) /\
    fwTreePrefixSum (Some ft') (ft_size ft' - 1) = Some (ft_total ft').
Proof.
  intros H Hd Hmin Hnn Hmax.
  assert (Hdbg : forall ft' a', fw_inv ft' a' ->
    fwTreePrefixSum (Some ft') (ft_size ft' - 1) = Some (ft_total ft')).
  { intros ft' a' H'. rewrite (prefixSum_eq _ _ _ H'), (fw_total _ _ H'), psum_all; [done|].
    pose proof (fw_len _ _ H'). lia. }
  unfold add_counter. destruct (idx <? 0) eqn:E1; zbool.
  { exists ft. unfold fwTreeUpdate. rewrite (proj2 (Z.ltb_lt _ _)) by lia. eauto. }
  destruct (a !! Z.to_nat idx) as [v|] eqn:Hv.
  - destruct (update_in_range ft a idx v delta H E1 Hv ltac:(auto) Hmax Hd Hmin) as (ft' & -> & ?).
    eauto.
  - exists ft. apply lookup_ge_None in Hv. pose proof (fw_len _ _ H). unfold fwTreeUpdate.
    rewrite Z.geb_leb, (proj2 (Z.leb_le _ _)), orb_true_r by lia. eauto.
Qed.

(** [fwTreePrefixSum] is the sum of the counters up to and including
    [idx], of all of them when [idx] is past the end and 0 when it is
    negative or there is no tree; its loop terminates inside the array. *)
Theorem fwTreePrefixSum_correct ft a idx :
  fw_inv ft a ->
  fwTreePrefixSum (Some ft) idx = Some (sumZ (take (Z.to_nat (idx + 1)) a)) /\
  fwTreePrefixSum None idx = Some 0.
Proof. intros H. split; [exact (prefixSum_eq ft a idx H)|done]. Qed.

(** ** Search *)

(** At the step of weight [2^k], [result] is a multiple of [2^(k+1)] and the
    target lies in the [2^(k+1)] counters after it. *)
Lemma find_loop_spec k ft a r T target :
  fw_inv ft a -> (Z.of_nat k <= ft_size_bits ft) ->
  (exists j, 0 <= j /\ r = 2 ^ Z.of_nat k * j) -> 0 <= r -> r + 2 ^ Z.of_nat k <= ft_size ft ->
  target = T - psum a r -> psum a r < T <= psum a (r + 2 ^ Z.of_nat k) ->
  exists r', find_loop k (ft_tree ft) (if k is S k' then 2 ^ Z.of_nat k' else 0) r target = Some r' /\
    0 <= r' < ft_size ft /\ psum a r' < T <= psum a (r' + 1).
Proof.
  intros H. revert r target. induction k as [|k IH]; intros r target Hk (j & Hj & Hr) Hr0 Hend -> HT.
  { simpl. change (2 ^ Z.of_nat 0) with 1 in *. exists r. split; [done|]. lia. }
  pose proof (fw_size_bound _ _ H) as Hsz.
  assert (Hp : 2 ^ Z.of_nat (S k) = 2 * 2 ^ Z.of_nat k).
  { rewrite Nat2Z.inj_succ, Z.pow_succ_r by lia. done. }
  rewrite Hp in *. pose proof (pow2_pos (Z.of_nat k) ltac:(lia)).
  cbn [find_loop]. rewrite (proj2 (Z.eqb_neq _ _)) by lia. cbn [negb].
  rewrite wrapS_id by (unfold inS; zpow; lia).
  assert (Hlow : lowbit (r + 2 ^ Z.of_nat k) = 2 ^ Z.of_nat k).
  { rewrite Hr. replace (_ + 2 ^ Z.of_nat k) with (2 ^ Z.of_nat k * (2 * j + 1)) by lia.
    apply lowbit_eq; lia. }
  rewrite tree_at_pos by lia. rewrite (fw_node _ _ H) by lia. mstep.
  rewrite Hlow, Z.add_simpl_r, Z.gtb_ltb.
  replace (Z.shiftr (2 ^ Z.of_nat k) 1) with (if k is S k' then 2 ^ Z.of_nat k' else 0).
  2: { rewrite Z.shiftr_div_pow2 by lia. destruct k as [|k']; [done|].
       rewrite Nat2Z.inj_succ, Z.pow_succ_r, Z.mul_comm, Z.div_mul by lia. done. }
  pose proof (psum_range ft a (r + 2 ^ Z.of_nat k) H). pose proof (psum_range ft a r H).
  pose proof (psum_range ft a (r + 2 * 2 ^ Z.of_nat k) H).
  destruct (_ <? _) eqn:E; zbool.
  - rewrite wrapU_id by (unfold inU; lia). apply IH; try lia.
    + exists (2 * j + 1). lia.
    + replace (r + _ + _) with (r + 2 * 2 ^ Z.of_nat k) by lia. lia.
  - apply IH; try lia. exists (2 * j). lia.
Qed.

Lemma findIndex_range ft a target :
  fw_inv ft a -> 1 <= target <= sumZ a ->
  exists r, fwTreeFindIndex ft target = Some r /\
    0 <= r < ft_size ft /\ psum a r < target <= psum a (r + 1).
Proof.
  intros H Ht. pose proof (fw_bits _ _ H) as Hb. pose proof (fw_size _ _ H) as Hs.
  pose proof (fw_size_bound _ _ H) as Hsz. pose proof (fw_len _ _ H) as Hlen.
  unfold fwTreeFindIndex. rewrite (proj2 (Z.leb_gt _ _)) by lia.
  rewrite Z.shiftl_mul_pow2, Z.mul_1_l by lia. rewrite <- Hs.
  rewrite (wrapS_id 32) by (unfold inS; zpow; lia).
  cbn [find_loop]. rewrite (proj2 (Z.eqb_neq _ _)) by lia. cbn [negb].
  rewrite wrapS_id by (unfold inS; zpow; lia). rewrite Z.add_0_l, tree_at_pos by lia.
  rewrite (fw_node _ _ H) by lia. mstep.
  assert (Hlow : lowbit (ft_size ft) = ft_size ft).
  { rewrite Hs. rewrite <- (Z.mul_1_r (2 ^ _)) at 1. apply (lowbit_eq _ 0). lia. }
  rewrite Hlow, Z.sub_diag, psum_0, Z.sub_0_r, psum_all, Z.gtb_ltb by lia.
  rewrite (proj2 (Z.ltb_ge _ _)) by lia.
  replace (Z.shiftr (ft_size ft) 1) with
    (if Z.to_nat (ft_size_bits ft) is S k' then 2 ^ Z.of_nat k' else 0).
  2: { rewrite Hs, Z.shiftr_div_pow2 by lia.
       destruct (Z.to_nat (ft_size_bits ft)) as [|k'] eqn:E.
       - by replace (ft_size_bits ft) with 0 by lia.
       - replace (ft_size_bits ft) with (Z.succ (Z.of_nat k')) by lia.
         by rewrite Z.pow_succ_r, Z.mul_comm, Z.div_mul by lia. }
  destruct (find_loop_spec (Z.to_nat (ft_size_bits ft)) ft a 0 target target H)
    as (r & -> & Hr & HT); rewrite ?Z2Nat.id, ?psum_0, ?Z.add_0_l, <- ?Hs by lia; try lia.
  - exists 0. lia.
  - rewrite psum_all by lia. lia.
  - eauto.
Qed.

(** [fwTreeFindIndex] finds the counter in which the [target]-th unit
    falls: the counters before the result sum to less than [target], with the
    result they reach it. In particular the counter found is not empty. *)
Theorem fwTreeFindIndex_correct ft a target :
  fw_inv ft a -> 1 <= target <= sumZ a ->
  exists r v, fwTreeFindIndex ft target = Some r /\ 0 <= r /\ a !! Z.to_nat r = Some v /\
    0 < v /\ sumZ (take (Z.to_nat r) a) < target <= sumZ (take (Z.to_nat r) a) + v.
Proof.
  intros H Ht. destruct (findIndex_range ft a target H Ht) as (r & Hr & Hr0 & HT).
  pose proof (fw_len _ _ H).
  destruct (lookup_lt_is_Some_2 a (Z.to_nat r)) as [v Hv]; [lia|].
  rewrite (psum_succ a r v) in HT by (auto; lia). unfold psum in HT.
  exists r, v. split_and!; auto; lia.
Qed.

(** The position after [idx] with a non-zero counter, if any. *)
Definition next_nonempty (a : list Z) (idx j : Z) : Prop :=
  idx < j /\ (exists v, a !! Z.to_nat j = Some v /\ 0 < v) /\
  forall i v, idx < i < j -> a !! Z.to_nat i = Some v -> v = 0.

Lemma psum_eq_zero a i j k v :
  Forall (Z.le 0) a -> 0 <= i -> i <= k < j -> psum a i = psum a j ->
  a !! Z.to_nat k = Some v -> v = 0.
Proof.
  intros Ha Hi Hk He Hv. pose proof (psum_succ a k v ltac:(lia) Hv).
  pose proof (psum_mono a i k Ha ltac:(lia)). pose proof (psum_mono a (k + 1) j Ha ltac:(lia)).
  pose proof (Forall_lookup_1 _ _ _ _ Ha Hv). lia.
Qed.

(** [fwTreeFindNextNonEmpty] returns the first non-empty position after
    [idx], or -1 when every later counter is zero. *)
Theorem fwTreeFindNextNonEmpty_correct ft a idx :
  fw_inv ft a -> sumZ a < 2 ^ 64 - 1 -> 0 <= idx < ft_size ft ->
  exists j, fwTreeFindNextNonEmpty (Some ft) idx = Some j /\
    (next_nonempty a idx j \/
     j = -1 /\ forall i v, idx < i -> a !! Z.to_nat i = Some v -> v = 0).
Proof.
  intros H Hmax Hi. cbn [fwTreeFindNextNonEmpty].
  rewrite Z.geb_leb, (proj2 (Z.ltb_ge idx 0)), (proj2 (Z.leb_gt _ _)) by lia. cbn [orb].
  rewrite (prefixSum_eq ft a idx H). mstep.
  pose proof (fw_pos _ _ H) as Ha. pose proof (fw_len _ _ H) as Hlen.
  pose proof (psum_mono a (idx + 1) (ft_size ft) Ha ltac:(lia)) as Hle.
  pose proof (psum_range ft a (idx + 1) H). rewrite (psum_all a (ft_size ft)) in Hle by lia.
  rewrite wrapU_id by (unfold inU; lia). rewrite (fw_total _ _ H).
  destruct (_ <=? _) eqn:E; zbool.
  - destruct (findIndex_range ft a (psum a (idx + 1) + 1) H ltac:(lia)) as (r & -> & Hr & HT).
    exists r. split; [done|]. left. assert (idx < r).
    { apply Z.nle_gt. intros Hc. pose proof (psum_mono a (r + 1) (idx + 1) Ha ltac:(lia)). lia. }
    destruct (lookup_lt_is_Some_2 a (Z.to_nat r)) as [v Hv]; [lia|].
    split_and!; [done| |].
    + exists v. split; [done|]. rewrite (psum_succ a r v) in HT by (auto; lia). lia.
    + intros i w Hiw Hw. eapply (psum_eq_zero a (idx + 1) r i); try done; try lia.
      pose proof (psum_mono a (idx + 1) r Ha ltac:(lia)). lia.
  - exists (-1). split; [done|]. right. split; [done|]. intros i v Hlt Hv.
    pose proof (lookup_lt_Some _ _ _ Hv).
    eapply (psum_eq_zero a (idx + 1) (ft_size ft) i); try done; try lia.
    rewrite (psum_all a (ft_size ft)) by lia. lia.
Qed.

(** The comment above [fwTreeFindNextNonEmpty] says that -1 asks for the first
    non-empty position; the code answers -1. *)
Lemma fwTreeFindNextNonEmpty_minus1 ft : fwTreeFindNextNonEmpty (Some ft) (-1) = Some (-1).
Proof. done. Qed.

Lemma psum_zeros k n : psum (replicate k 0) n = 0.
Proof.
  unfold psum, sumZ. rewrite take_replicate.
  induction (Z.to_nat n `min` k)%nat as [|j IH]; [done|]. cbn. rewrite IH. done.
Qed.

(** A new or cleared tree has all its counters at zero. *)
Lemma zero_inv bits size :
  0 <= bits <= 29 -> size = 2 ^ bits ->
  fw_inv (mkFenwickTree (replicate (Z.to_nat (size + 1)) 0) bits size 0)
    (replicate (Z.to_nat size) 0).
Proof.
  intros Hb ->. pose proof (pow2_pos bits ltac:(lia)).
  assert (Hz : sumZ (replicate (Z.to_nat (2 ^ bits)) 0) = 0).
  { rewrite <- (psum_all _ (2 ^ bits)) by (rewrite length_replicate; lia). apply psum_zeros. }
  split; simpl; try done; rewrite ?length_replicate; try lia.
  - apply Forall_replicate. lia.
  - intros i Hi. rewrite !psum_zeros. apply lookup_replicate_2. lia.
Qed.

Lemma fwTreeCreate_inv bits :
  0 <= bits <= 29 -> fw_inv (fwTreeCreate bits) (replicate (Z.to_nat (2 ^ bits)) 0).
Proof.
  intros Hb. unfold fwTreeCreate. rewrite Z.shiftl_mul_pow2, Z.mul_1_l by lia.
  rewrite wrapS_id; [by apply zero_inv|lia|]. unfold inS. pose proof (pow2_pos bits ltac:(lia)).
  assert (2 ^ bits <= 2 ^ 29) by (apply Z.pow_le_mono_r; lia). zpow; lia.
Qed.

Lemma fwTreeClear_inv ft a :
  fw_inv ft a -> fw_inv (fwTreeClear ft) (replicate (length a) 0).
Proof.
  intros H. unfold fwTreeClear. replace (length a) with (Z.to_nat (ft_size ft)).
  - apply zero_inv; apply H.
  - pose proof (fw_len _ _ H). lia.
Qed.

(** ** Witnesses *)

(** A tree of 8 counters, [5 0 3 0 7 0 2 0], built by the operations. *)
Definition ex_counters : list Z := [5; 0; 3; 0; 7; 0; 2; 0].
Definition ex_tree : fenwickTree := mkFenwickTree [0; 5; 5; 3; 8; 7; 7; 2; 17] 3 8 17.

Lemma ex_tree_inv : fw_inv ex_tree ex_counters.
Proof.
  split; try done.
  - repeat constructor; lia.
  - intros i Hi. simpl in Hi.
    assert (Hc : i = 1 \/ i = 2 \/ i = 3 \/ i = 4 \/ i = 5 \/ i = 6 \/ i = 7 \/ i = 8) by lia.
    by repeat (destruct Hc as [->|Hc]; [vm_compute; reflexivity|]); subst; vm_compute.
Qed.

Example ex_tree_built :
  (t ← fwTreeUpdate (fwTreeCreate 3) 0 5; t ← fwTreeUpdate t 2 3; t ← fwTreeUpdate t 4 7;
   fwTreeUpdate t 6 2) = Some ex_tree.
Proof. vm_compute. reflexivity. Qed.

Lemma fwTreeUpdate_correct_witness :
  exists ft', fwTreeUpdate ex_tree 2 (-3) = Some ft' /\
    fw_inv ft' [5; 0; 0; 0; 7; 0; 2; 0] /\
    fwTreePrefixSum (Some ft') (ft_size ft' - 1) = Some (ft_total ft').
Proof.
  apply (fwTreeUpdate_correct ex_tree ex_counters 2 (-3) ex_tree_inv).
  - vm_compute; split; congruence.
  - vm_compute; congruence.
  - intros v _ Hv. vm_compute in Hv. injection Hv as <-. lia.
  - vm_compute; reflexivity.
Defined.

Lemma fwTreePrefixSum_correct_witness :
  fwTreePrefixSum (Some ex_tree) 4 = Some 15 /\ fwTreePrefixSum None 4 = Some 0.
Proof. apply (fwTreePrefixSum_correct ex_tree ex_counters 4 ex_tree_inv). Defined.

Lemma fwTreeFindIndex_correct_witness :
  exists r v, fwTreeFindIndex ex_tree 9 = Some r /\ 0 <= r /\
    ex_counters !! Z.to_nat r = Some v /\ 0 < v /\
    sumZ (take (Z.to_nat r) ex_counters) < 9 <= sumZ (take (Z.to_nat r) ex_counters) + v.
Proof.
  apply (fwTreeFindIndex_correct ex_tree ex_counters 9 ex_tree_inv).
  vm_compute; split; congruence.
Defined.

Lemma fwTreeFindNextNonEmpty_correct_witness :
  exists j, fwTreeFindNextNonEmpty (Some ex_tree) 2 = Some j /\
    (next_nonempty ex_counters 2 j \/
     j = -1 /\ forall i v, 2 < i -> ex_counters !! Z.to_nat i = Some v -> v = 0).
Proof.
  apply (fwTreeFindNextNonEmpty_correct ex_tree ex_counters 2 ex_tree_inv); vm_compute.
  - reflexivity.
  - split; congruence.
Defined.
