(* ===== verification/Rand.v ===== *)
(** * The deterministic random generator ([rand.c])

    [redisLrand48] is the [drand48] generator in 16-bit limbs, so that scripts
    draw the same numbers on every platform. The static variables are the
    state. *)

From S2P Require Import Prelude.

#[local] Open Scope Z_scope.

Record rand_state := mkRand {
  x0 : Z; x1 : Z; x2 : Z;
  a0 : Z; a1 : Z; a2 : Z;
  cc : Z
}.

Definition MASK : Z := Z.shiftl 1 15 + Z.shiftl 1 15 - 1.
Definition LOW (x : Z) : Z := Z.land (u32 x) MASK.
(** The shift is of a signed or an unsigned 32-bit value. *)
Definition HIGH (x : Z) : Z := LOW (Z.shiftr x 16).
Definition MUL (x y : Z) : Z * Z := let l := s32 (s64 x * s64 y) in (LOW l, HIGH l).
Definition CARRY (x y : Z) : Z := if s32 x + s64 y >? MASK then 1 else 0.
(** The carry and the new value of [x]. *)
Definition ADDEQU (x y : Z) : Z * Z := (CARRY x y, LOW (u32 (x + y))).

Definition SEED (s0 s1 s2 : Z) : rand_state := mkRand s0 s1 s2 0xE66D 0xDEEC 0x5 0xB.

Definition rand_init : rand_state := SEED 0x330E 0xABCD 0x1234.

Definition next (s : rand_state) : rand_state :=
  let '(p0, p1) := MUL (a0 s) (x0 s) in
  let '(carry0, p0) := ADDEQU p0 (cc s) in
  let '(carry1, p1) := ADDEQU p1 carry0 in
  let '(q0, q1) := MUL (a0 s) (x1 s) in
  let '(carry0, p1) := ADDEQU p1 q0 in
  let '(r0, r1) := MUL (a1 s) (x0 s) in
  let x2' := LOW (u32 (carry0 + carry1 + CARRY p1 r0 + q1 + r1 +
                       a0 s * x2 s + a1 s * x1 s + a2 s * x0 s)) in
  let x1' := LOW (u32 (p1 + r0)) in
  let x0' := LOW p0 in
  mkRand x0' x1' x2' (a0 s) (a1 s) (a2 s) (cc s).

Definition redisLrand48 (s : rand_state) : Z * rand_state :=
  let s := next s in
  (s32 (u32 (s32 (Z.shiftl (s32 (x2 s)) 15) + Z.shiftr (x1 s) 1)), s).

Definition redisSrand48 (seedval : Z) : rand_state :=
  SEED 0x330E (LOW seedval) (HIGH seedval).

(** ** The 48-bit linear congruential generator *)

Definition lcg48 (x : Z) : Z := (0x5DEECE66D * x + 0xB) mod 2 ^ 48.

(** The 48-bit number the limbs hold. *)
Definition rand_value (s : rand_state) : Z := x0 s + 2 ^ 16 * x1 s + 2 ^ 32 * x2 s.

(** The state of every reachable generator: 16-bit limbs and the constants. *)
Record rand_wf (s : rand_state) : Prop := {
  rw_x0 : inU 16 (x0 s);
  rw_x1 : inU 16 (x1 s);
  rw_x2 : inU 16 (x2 s);
  rw_a : a0 s = 0xE66D /\ a1 s = 0xDEEC /\ a2 s = 0x5 /\ cc s = 0xB
}.

Lemma LOW_eq x : LOW x = x mod 2 ^ 16.
Proof.
  unfold LOW. change MASK with (Z.ones 16). rewrite Z.land_ones by lia. unfold wrapU.
  change (2 ^ 32) with (2 ^ 16 * 2 ^ 16). rewrite Z.rem_mul_r by (zpow; lia).
  rewrite Z.mul_comm, Z_mod_plus_full. apply Z.mod_mod. zpow; lia.
Qed.

Lemma HIGH_eq x : HIGH x = (x / 2 ^ 16) mod 2 ^ 16.
Proof. unfold HIGH. by rewrite LOW_eq, Z.shiftr_div_pow2 by lia. Qed.

Lemma LOW_range x : inU 16 (LOW x).
Proof. rewrite LOW_eq. apply Z.mod_pos_bound. zpow; lia. Qed.

(** A product of two 16-bit numbers in two limbs. The product is truncated to
    a signed 32-bit integer on the way, which does not lose a bit. *)
Lemma MUL_spec x y :
  inU 16 x -> inU 16 y ->
  exists lo hi, MUL x y = (lo, hi) /\ inU 16 lo /\ inU 16 hi /\ lo + 2 ^ 16 * hi = x * y.
Proof.
  unfold inU. zpow. intros Hx Hy. unfold MUL.
  rewrite !(wrapS_id 64) by (unfold inS; zpow; lia).
  assert (Hp : 0 <= x * y < 4294967296) by nia.
  do 2 eexists. split; [reflexivity|]. rewrite LOW_eq, HIGH_eq.
  generalize dependent (x * y). clear x y Hx Hy. intros p Hp. zpow.
  assert (Hs : exists k, s32 p = p + 4294967296 * k).
  { unfold wrapS. zpow. exists (- ((p + 2147483648) / 4294967296)).
    pose proof (Z.div_mod (p + 2147483648) 4294967296 ltac:(lia)). lia. }
  destruct Hs as [k ->].
  replace (4294967296 * k) with (65536 * k * 65536) by lia.
  rewrite Z.div_add, Z_mod_plus_full by lia.
  replace (p / 65536 + 65536 * k) with (p / 65536 + k * 65536) by lia.
  rewrite Z_mod_plus_full.
  rewrite (Z.mod_small (p / 65536)) by (split; [apply Z.div_pos|apply Z.div_lt_upper_bound]; lia).
  pose proof (Z.div_mod p 65536 ltac:(lia)). pose proof (Z.mod_pos_bound p 65536 ltac:(lia)). lia.
Qed.

(** Addition of limbs with its carry. *)
Lemma ADDEQU_spec x y :
  inU 16 x -> inU 16 y ->
  exists c l, ADDEQU x y = (c, l) /\ 0 <= c <= 1 /\ inU 16 l /\ l + 2 ^ 16 * c = x + y.
Proof.
  unfold inU. zpow. intros Hx Hy. unfold ADDEQU, CARRY. do 2 eexists. split; [reflexivity|].
  rewrite LOW_eq. rewrite wrapU_id, !wrapS_id by (unfold inU, inS; zpow; lia).
  change MASK with 65535. rewrite Z.gtb_ltb. zpow.
  pose proof (Z.div_mod (x + y) 65536 ltac:(lia)).
  pose proof (Z.mod_pos_bound (x + y) 65536 ltac:(lia)).
  destruct (_ <? _) eqn:E; zbool; lia.
Qed.

Lemma CARRY_of_ADDEQU x y : CARRY x y = fst (ADDEQU x y).
Proof. done. Qed.

(** One step of the 16-bit limb code is one step of the 48-bit linear
    congruential generator, the limbs stay 16 bits wide, and the number
    returned is the 31 high bits of the new value. *)
Theorem redisLrand48_lcg s :
  rand_wf s ->
  let '(r, s') := redisLrand48 s in
  rand_wf s' /\ rand_value s' = lcg48 (rand_value s) /\
  r = rand_value s' / 2 ^ 17 /\ 0 <= r < 2 ^ 31.
Proof.
  intros [H0 H1 H2 (Ha0 & Ha1 & Ha2 & Hc)].
  destruct (redisLrand48 s) as [r s'] eqn:E. revert E.
  unfold redisLrand48, next. rewrite Ha0, Ha1, Ha2, Hc.
  destruct (MUL_spec 0xE66D (x0 s)) as (p0 & p1 & -> & Hp0 & Hp1 & Ep); [done|done|].
  destruct (ADDEQU_spec p0 0xB) as (c0 & p0' & -> & Hc0 & Hp0' & E0); [done|done|].
  destruct (ADDEQU_spec p1 c0) as (c1 & p1' & -> & Hc1 & Hp1' & E1);
    [done|unfold inU; zpow; lia|].
  destruct (MUL_spec 0xE66D (x1 s)) as (q0 & q1 & -> & Hq0 & Hq1 & Eq); [done|done|].
  destruct (ADDEQU_spec p1' q0) as (c2 & p1'' & -> & Hc2 & Hp1'' & E2); [done|done|].
  destruct (MUL_spec 0xDEEC (x0 s)) as (r0 & r1 & -> & Hr0 & Hr1 & Er); [done|done|].
  rewrite CARRY_of_ADDEQU.
  destruct (ADDEQU_spec p1'' r0) as (c3 & x1' & Eadd & Hc3 & Hx1' & E3); [done|done|].
  rewrite Eadd. cbn [fst].
  assert (Hx1 : LOW (u32 (p1'' + r0)) = x1') by (unfold ADDEQU in Eadd; congruence).
  rewrite Hx1. set (t := c2 + c1 + c3 + q1 + r1 + 0xE66D * x2 s + 0xDEEC * x1 s + 0x5 * x0 s).
  assert (Hlow : forall z, LOW (u32 z) = z mod 65536).
  { intros z. rewrite LOW_eq. unfold wrapU. change (2 ^ 32) with (65536 * 65536).
    change (2 ^ 16) with 65536. rewrite Z.rem_mul_r, Z.mul_comm, Z_mod_plus_full by lia.
    apply Z.mod_mod; lia. }
  rewrite Hlow, LOW_eq, (Z.mod_small p0') by exact Hp0'.
  unfold inU in *. revert H0 H1 H2 Hp0' Hx1'. zpow. intros.
  pose proof (Z.div_mod t 65536 ltac:(lia)) as Ht.
  pose proof (Z.mod_pos_bound t 65536 ltac:(lia)) as Htm.
  simpl in E. injection E as <- <-. cbn [x0 x1 x2].
  assert (Hval : rand_value (mkRand p0' x1' (t mod 65536) 0xE66D 0xDEEC 0x5 0xB)
                 = lcg48 (rand_value s)).
  { unfold rand_value, lcg48. cbn [x0 x1 x2]. zpow.
    apply (Z.mod_unique _ _ (t / 65536 + 0x5 * x1 s + 65536 * 0x5 * x2 s + 0xDEEC * x2 s)); [lia|].
    unfold t in *. lia. }
  split; [split; unfold inU; zpow; cbn; lia|]. split; [exact Hval|].
  rewrite Z.shiftl_mul_pow2, Z.shiftr_div_pow2 by lia. unfold rand_value. cbn [x0 x1 x2]. zpow.
  rewrite !(wrapS_id 32 (t mod 65536)) by (unfold inS; zpow; lia).
  rewrite (wrapS_id 32 (_ * 32768)) by (unfold inS; zpow; lia).
  pose proof (Z.div_mod x1' 2 ltac:(lia)) as Hd. pose proof (Z.mod_pos_bound x1' 2 ltac:(lia)).
  rewrite wrapU_id, wrapS_id by (unfold inU, inS; zpow; lia).
  split; [|lia]. apply (Z.div_unique _ _ _ (p0' + 65536 * (x1' mod 2))); lia.
Qed.

Lemma rand_init_wf : rand_wf rand_init.
Proof. split; try done. Qed.

(** Seeding keeps the invariant and puts the seed in the high 32 bits. *)
Lemma redisSrand48_wf seed :
  rand_wf (redisSrand48 seed) /\
  rand_value (redisSrand48 seed) = 2 ^ 16 * (seed mod 2 ^ 32) + 0x330E.
Proof.
  unfold redisSrand48. split.
  - split; try done; simpl; apply LOW_range.
  - unfold rand_value. simpl x0; simpl x1; simpl x2. rewrite LOW_eq, HIGH_eq.
    change (2 ^ 32) with (2 ^ 16 * 2 ^ 16). rewrite Z.rem_mul_r by (zpow; lia). zpow. lia.
Qed.

Lemma redisLrand48_lcg_witness :
  let '(r, s') := redisLrand48 rand_init in
  rand_wf s' /\ rand_value s' = lcg48 (rand_value rand_init) /\
  r = rand_value s' / 2 ^ 17 /\ 0 <= r < 2 ^ 31.
Proof. exact (redisLrand48_lcg rand_init rand_init_wf). Defined.
