(* ===== verification/Numstr.v ===== *)
(** * Integers as strings ([util.c])

    [ll2string] and [ull2string] print an integer in a buffer, [string2ll]
    parses one, strictly. A buffer is the list of its bytes and its length is
    the size the code is given. *)

From S2P Require Import Prelude.
From stdpp Require Import sets.

#[local] Open Scope Z_scope.

Definition LONG_STR_SIZE : Z := 21.
Definition LLONG_MIN : Z := INT64_MIN.
Definition LLONG_MAX : Z := INT64_MAX.
Definition ULLONG_MAX : Z := UINT64_MAX.

Definition b2z (b : bool) : Z := if b then 1 else 0.

(** The recursion divides by 10^12: a 64-bit number needs it once. *)
Fixpoint digits10_fuel (fuel : nat) (v : Z) : option Z :=
  if v <? 10 then Some 1 else
  if v <? 100 then Some 2 else
  if v <? 1000 then Some 3 else
  if v <? 1000000000000 then
    if v <? 100000000 then
      if v <? 1000000 then
        if v <? 10000 then Some 4 else Some (5 + b2z (v >=? 100000))
      else Some (7 + b2z (v >=? 10000000))
    else if v <? 10000000000 then Some (9 + b2z (v >=? 1000000000))
    else Some (11 + b2z (v >=? 100000000000))
  else
    match fuel with
    | O => None
    | S fuel => d ← digits10_fuel fuel (v / 1000000000000); Some (12 + d)
    end.

Definition digits10 (v : Z) : option Z := digits10_fuel 1 v.

Definition sdigits10 (v : Z) : option Z :=
  if v <? 0 then
    let uv := if negb (v =? LLONG_MIN) then u64 (- v) else LLONG_MAX + 1 in
    d ← digits10 uv; Some (d + 1)
  else digits10 v.

Definition digit_pairs : list Z := bytes_of_string
  "0001020304050607080910111213141516171819"%string ++ bytes_of_string
  "2021222324252627282930313233343536373839"%string ++ bytes_of_string
  "4041424344454647484950515253545556575859"%string ++ bytes_of_string
  "6061626364656667686970717273747576777879"%string ++ bytes_of_string
  "8081828384858687888990919293949596979899"%string.

(** [digits[i]] *)
Definition digit_at (i : Z) : option Z := digit_pairs !! Z.to_nat i.

(** Two digits a turn: 10 turns are more than a 64-bit number needs. *)
Fixpoint pairs_loop (fuel : nat) (dst : list Z) (next value : Z) : option (list Z * Z * Z) :=
  if value >=? 100 then
    match fuel with
    | O => None
    | S fuel =>
        let i := (value mod 100) * 2 in
        let value := value / 100 in
        hi ← digit_at (i + 1); dst ← mstore dst next [hi];
        lo ← digit_at i; dst ← mstore dst (u32 (next - 1)) [lo];
        pairs_loop fuel dst (u32 (next - 2)) value
    end
  else Some (dst, next, value).

(** The value returned and the buffer. *)
Definition ull2string (dst : list Z) (value : Z) : option (Z * list Z) :=
  let dstlen := Z.of_nat (length dst) in
  len ← digits10 value;
  if len >=? dstlen then
    if dstlen >? 0 then dst ← mstore dst 0 [0]; Some (0, dst) else Some (0, dst)
  else
    let next := u32 (len - 1) in
    dst ← mstore dst (u32 (next + 1)) [0];
    '(dst, next, value) ← pairs_loop 10 dst next value;
    if value <? 10 then
      dst ← mstore dst next [chr "0"%char + value]; Some (len, dst)
    else
      let i := value * 2 in
      hi ← digit_at (i + 1); dst ← mstore dst next [hi];
      lo ← digit_at i; dst ← mstore dst (u32 (next - 1)) [lo];
      Some (len, dst).

Definition ll2string (dst : list Z) (svalue : Z) : option (Z * list Z) :=
  let dstlen := Z.of_nat (length dst) in
  if svalue <? 0 then
    let value := if negb (svalue =? LLONG_MIN) then - svalue else LLONG_MAX + 1 in
    if dstlen <? 2 then
      if dstlen >? 0 then dst ← mstore dst 0 [0]; Some (0, dst) else Some (0, dst)
    else
      dst ← mstore dst 0 [chr "-"%char];
      (* [dst++; dstlen--] *)
      '(len, tl) ← ull2string (drop 1 dst) value;
      let dst := (take 1 dst ++ tl)%list in
      if len =? 0 then Some (0, dst) else Some (s32 (len + 1), dst)
  else
    '(len, dst) ← ull2string dst svalue;
    if len =? 0 then Some (0, dst) else Some (len, dst).

(** [None] is the overflow; otherwise the value and what is not consumed. *)
Fixpoint digits_loop (p : list Z) (v : Z) : option (Z * list Z) :=
  match p with
  | c :: p' =>
      if (chr "0"%char <=? c) && (c <=? chr "9"%char) then
        if v >? ULLONG_MAX / 10 then None else
        let v := u64 (v * 10) in
        if v >? ULLONG_MAX - (c - chr "0"%char) then None else
        digits_loop p' (u64 (v + (c - chr "0"%char)))
      else Some (v, p)
  | [] => Some (v, [])
  end.

(** [None] is the return value 0. *)
Definition string2ll (s : list Z) : option Z :=
  let slen := Z.of_nat (length s) in
  if (slen =? 0) || (slen >=? LONG_STR_SIZE) then None else
  if (slen =? 1) && bool_decide (s !! 0%nat = Some (chr "0"%char)) then Some 0 else
  let negative := bool_decide (s !! 0%nat = Some (chr "-"%char)) in
  let p := if negative then drop 1 s else s in
  match p with
  | [] => None
  | c :: p =>
      if (chr "1"%char <=? c) && (c <=? chr "9"%char) then
        '(v, rest) ← digits_loop p (c - chr "0"%char);
        if negb (Nat.eqb (length rest) 0) then None else
        if (negative : bool) then
          if v >? u64 (- (LLONG_MIN + 1)) + 1 then None else Some (s64 (u64 (- v)))
        else
          if v >? LLONG_MAX then None else Some v
      else None
  end.

(** [long] and [long long] have the same range. *)
Definition string2l (s : list Z) : option Z :=
  llval ← string2ll s;
  if (llval <? LLONG_MIN) || (llval >? LLONG_MAX) then None else Some llval.

(** ** Canonical decimal strings *)

Definition is_digit (c : Z) : Prop := 48 <= c <= 57.

(** The number digits denote, most significant first. *)
Definition dval (s : list Z) : Z := foldl (fun v c => v * 10 + (c - 48)) 0 s.

(** [s] is the decimal representation of [v], with no leading zero. *)
Definition decimal (v : Z) (s : list Z) : Prop :=
  Forall is_digit s /\ dval s = v /\ (s = [48] \/ exists c t, s = c :: t /\ c <> 48).

(** The representation of a signed number. *)
Definition signed_decimal (v : Z) (s : list Z) : Prop :=
  if v <? 0 then exists t, s = 45 :: t /\ decimal (- v) t else decimal v s.

Lemma dval_snoc s c : dval (s ++ [c]) = dval s * 10 + (c - 48).
Proof. unfold dval. by rewrite foldl_snoc. Qed.

Lemma foldl_dval v s :
  foldl (fun v c => v * 10 + (c - 48)) v s = v * 10 ^ Z.of_nat (length s) + dval s.
Proof.
  induction s as [|c s IH] using rev_ind.
  { cbn [foldl length]. change (10 ^ Z.of_nat 0) with 1. change (dval []) with 0. lia. }
  rewrite foldl_snoc, dval_snoc, IH, length_app, Nat2Z.inj_add, Z.pow_add_r by lia.
  simpl. change (10 ^ 1) with 10. lia.
Qed.

Lemma dval_app s t : dval (s ++ t) = dval s * 10 ^ Z.of_nat (length t) + dval t.
Proof. unfold dval at 1. rewrite foldl_app, foldl_dval. done. Qed.

Lemma dval_cons c s : dval (c :: s) = (c - 48) * 10 ^ Z.of_nat (length s) + dval s.
Proof. exact (dval_app [c] s). Qed.

Lemma dval_range s : Forall is_digit s -> 0 <= dval s < 10 ^ Z.of_nat (length s).
Proof.
  induction s as [|c s IH] using rev_ind; [intros; cbn; lia|].
  intros [Hs [Hc _]%Forall_cons]%Forall_app. specialize (IH Hs).
  rewrite dval_snoc, length_app, Nat2Z.inj_add, Z.pow_add_r by lia.
  simpl. change (10 ^ 1) with 10. unfold is_digit in Hc. lia.
Qed.

Lemma pow10_pos n : 0 < 10 ^ Z.of_nat n.
Proof. apply Z.pow_pos_nonneg; lia. Qed.

(** A number without leading zero fills its digits. *)
Lemma decimal_length v s :
  decimal v s -> v <> 0 -> 10 ^ (Z.of_nat (length s) - 1) <= v < 10 ^ Z.of_nat (length s).
Proof.
  intros (Hd & <- & [->|(c & t & -> & Hc)]) Hv; [done|].
  pose proof (dval_range _ Hd). split; [|lia].
  apply Forall_cons in Hd as [Hc' Ht]. unfold is_digit in Hc'.
  pose proof (dval_range _ Ht). pose proof (pow10_pos (length t)). rewrite dval_cons.
  replace (Z.of_nat (length (c :: t)) - 1) with (Z.of_nat (length t)) by (simpl; lia). nia.
Qed.

Lemma dval_inj s t :
  length s = length t -> Forall is_digit s -> Forall is_digit t -> dval s = dval t -> s = t.
Proof.
  revert t. induction s as [|c s IH] using rev_ind; intros t Hlen Hs Ht He.
  { by destruct t. }
  destruct t as [|d t _] using rev_ind; [rewrite length_app in Hlen; simpl in *; lia|].
  rewrite !length_app in Hlen. simpl in Hlen.
  apply Forall_app in Hs as [Hs [Hc _]%Forall_cons]. apply Forall_app in Ht as [Ht [Hd _]%Forall_cons].
  rewrite !dval_snoc in He. unfold is_digit in *.
  assert (dval s = dval t /\ c = d) as [? ->] by lia.
  f_equal. apply IH; auto; lia.
Qed.

Lemma decimal_zero s : decimal 0 s -> s = [48].
Proof.
  intros (Hd & Hv & [->|(c & t & -> & Hc)]); [done|].
  apply Forall_cons in Hd as [Hc' Ht]. unfold is_digit in Hc'.
  rewrite dval_cons in Hv. pose proof (dval_range _ Ht). pose proof (pow10_pos (length t)). nia.
Qed.

(** The representation is unique. *)
Lemma decimal_unique v s t : decimal v s -> decimal v t -> s = t.
Proof.
  intros Hs Ht. destruct (Z.eq_dec v 0) as [->|Hv].
  { by rewrite (decimal_zero _ Hs), (decimal_zero _ Ht). }
  pose proof (decimal_length _ _ Hs Hv). pose proof (decimal_length _ _ Ht Hv).
  destruct Hs as (Hs & <- & _), Ht as (Ht & Hvt & _). apply dval_inj; auto.
  assert (H1 : Z.of_nat (length s) - 1 < Z.of_nat (length t)).
  { apply (Z.pow_lt_mono_r_iff 10); lia. }
  assert (H2 : Z.of_nat (length t) - 1 < Z.of_nat (length s)).
  { apply (Z.pow_lt_mono_r_iff 10); lia. }
  lia.
Qed.

Lemma signed_decimal_unique v s t : signed_decimal v s -> signed_decimal v t -> s = t.
Proof.
  unfold signed_decimal. destruct (v <? 0); [|apply decimal_unique].
  intros (s' & -> & Hs) (t' & -> & Ht). f_equal. by eapply decimal_unique.
Qed.

(** ** Counting digits *)

(** [d] digits are what [v] needs. *)
Definition needs_digits (v d : Z) : Prop :=
  1 <= d /\ 0 <= v < 10 ^ d /\ (1 < d -> 10 ^ (d - 1) <= v).

Ltac zpow10 :=
  repeat match goal with
  | |- context [10 ^ ?n] =>
      let v := eval vm_compute in (10 ^ n) in
      lazymatch v with Zpos _ => change (10 ^ n) with v end
  end.

Lemma digits10_count v :
  inU 64 v -> exists d, digits10 v = Some d /\ needs_digits v d /\ d <= 20.
Proof.
  intros Hv. unfold inU in Hv. revert Hv. zpow. intros Hv.
  assert (Hsmall : forall fuel w, 0 <= w < 1000000000000 ->
    exists d, digits10_fuel fuel w = Some d /\ needs_digits w d /\ d <= 12).
  { intros fuel w Hw. destruct fuel; cbn [digits10_fuel]; unfold b2z; rewrite ?Z.geb_leb;
      repeat zcase; try lia; eexists; (split; [reflexivity|]); unfold needs_digits;
      zpow10; lia. }
  unfold digits10. destruct (Z.lt_ge_cases v 1000000000000) as [Hlt|Hge].
  { destruct (Hsmall 1%nat v ltac:(lia)) as (d & ? & ? & ?). exists d. split_and!; auto; lia. }
  assert (Hrec : forall n, digits10_fuel (S n) v =
    (d ← digits10_fuel n (v / 1000000000000); Some (12 + d))).
  { intros n. cbn [digits10_fuel]. by rewrite !(proj2 (Z.ltb_ge v _)) by lia. }
  rewrite Hrec.
  pose proof (Z.div_mod v 1000000000000 ltac:(lia)) as Hdm.
  pose proof (Z.mod_pos_bound v 1000000000000 ltac:(lia)).
  set (q := v / 1000000000000) in *.
  destruct (Hsmall 0%nat q ltac:(lia)) as (d & Hd & (H1 & H2 & H3) & H4).
  rewrite Hd. mstep. exists (12 + d). split; [done|].
  assert (Hd8 : d <= 8).
  { destruct (Z.le_gt_cases d 8); [done|]. specialize (H3 ltac:(lia)).
    assert (10 ^ 8 <= 10 ^ (d - 1)) by (apply Z.pow_le_mono_r; lia).
    change (10 ^ 8) with 100000000 in *. lia. }
  split; [|lia]. unfold needs_digits. rewrite !Z.pow_add_r by lia.
  replace (12 + d - 1) with (12 + (d - 1)) by lia. rewrite Z.pow_add_r by lia.
  change (10 ^ 12) with 1000000000000. split_and!; [lia|lia|nia|].
  intros _. destruct (Z.eq_dec d 1) as [->|]; [change (10 ^ (1 - 1)) with 1; lia|].
  specialize (H3 ltac:(lia)). nia.
Qed.

(** [digits10] is exact: it counts the decimal digits of any 64-bit
    number, its single recursion included; and [sdigits10] adds the sign. *)
Theorem digits10_exact v :
  (inU 64 v -> exists d, digits10 v = Some d /\ needs_digits v d /\ d <= 20) /\
  (inS 64 v -> exists d, sdigits10 v = Some (d + b2z (v <? 0)) /\ needs_digits (Z.abs v) d).
Proof.
  split; [apply digits10_count|]. intros Hv. unfold inS in Hv. revert Hv. zpow. intros Hv.
  unfold sdigits10, LLONG_MIN, LLONG_MAX.
  destruct (digits10_count (Z.abs v)) as (d & Hd & Hn & _); [unfold inU; zpow; lia|].
  exists d. split; [|done]. destruct (v <? 0) eqn:E; zbool; cbn [b2z].
  - replace (if negb _ then _ else _) with (Z.abs v); [by rewrite Hd|].
    destruct (v =? _) eqn:E2; zbool; cbn [negb]; [subst v; reflexivity|].
    rewrite wrapU_id by (unfold inU; zpow; lia). lia.
  - rewrite Z.abs_eq in Hd by lia. rewrite Hd. f_equal. lia.
Qed.

(** ** Printing *)

Lemma digit_pairs_spec i :
  0 <= i < 100 ->
  digit_at (i * 2) = Some (48 + i / 10) /\ digit_at (i * 2 + 1) = Some (48 + i mod 10).
Proof.
  intros Hi. unfold digit_at.
  assert (Hall : forallb (fun n => bool_decide
    (digit_pairs !! Z.to_nat (Z.of_nat n * 2) = Some (48 + Z.of_nat n / 10) /\
     digit_pairs !! Z.to_nat (Z.of_nat n * 2 + 1) = Some (48 + Z.of_nat n mod 10)))
    (seq 0 100) = true) by (vm_compute; reflexivity).
  rewrite forallb_forall in Hall. specialize (Hall (Z.to_nat i)).
  rewrite Z2Nat.id in Hall by lia. apply (bool_decide_eq_true_1 _), Hall, in_seq. lia.
Qed.

Lemma two_digits v : 0 <= v < 100 -> dval [48 + v / 10; 48 + v mod 10] = v.
Proof.
  intros. rewrite dval_cons. cbn [length]. change (10 ^ Z.of_nat 1) with 10.
  unfold dval. simpl foldl. pose proof (Z.div_mod v 10 ltac:(lia)). lia.
Qed.

Lemma two_digits_are v : 0 <= v < 100 -> Forall is_digit [48 + v / 10; 48 + v mod 10].
Proof.
  intros. pose proof (Z.mod_pos_bound v 10 ltac:(lia)).
  assert (0 <= v / 10 <= 9).
  { split; [apply Z.div_pos; lia|]. assert (v / 10 < 10) by (apply Z.div_lt_upper_bound; lia). lia. }
  repeat constructor; lia.
Qed.

(** Overwriting the two last bytes of [a], the last one first. *)
Lemma store_pair (a tl : list Z) x y next :
  Z.of_nat (length a) = next + 1 -> 1 <= next < 2 ^ 32 ->
  exists a', Z.of_nat (length a') = next - 1 /\
    (dst ← mstore (a ++ tl) next [y]; mstore dst (u32 (next - 1)) [x]) =
      Some (a' ++ [x; y] ++ tl).
Proof.
  intros Ha Hn. exists (take (length a - 2) a). split; [rewrite length_take; lia|].
  rewrite wrapU_id by (unfold inU; lia).
  rewrite <- (take_drop (length a - 2) a) at 1.
  assert (Hd : length (drop (length a - 2) a) = 2%nat) by (rewrite length_drop; lia).
  destruct (drop (length a - 2) a) as [|p [|q [|]]]; try done.
  replace ((take (length a - 2) a ++ [p; q]) ++ tl)
    with ((take (length a - 2) a ++ [p]) ++ [q] ++ tl) by (by rewrite <- !app_assoc).
  rewrite mstore_app_mid by (rewrite ?length_app, ?length_take; simpl; lia).
  mstep. rewrite <- app_assoc.
  rewrite mstore_app_mid by (rewrite ?length_take; simpl; lia). done.
Qed.

Lemma needs_digits_div100 v d :
  needs_digits v d -> 100 <= v -> 3 <= d /\ needs_digits (v / 100) (d - 2).
Proof.
  intros (H1 & H2 & H3) Hv.
  assert (Hd : 3 <= d).
  { destruct (Z.le_gt_cases 3 d); [done|].
    assert (10 ^ d <= 10 ^ 2) by (apply Z.pow_le_mono_r; lia). change (10 ^ 2) with 100 in *. lia. }
  split; [done|]. specialize (H3 ltac:(lia)).
  assert (Hp : forall k, 0 <= k -> 10 ^ (k + 2) = 100 * 10 ^ k).
  { intros k Hk. rewrite Z.pow_add_r by lia. change (10 ^ 2) with 100. lia. }
  replace d with (d - 2 + 2) in H2 by lia. rewrite Hp in H2 by lia.
  replace (d - 1) with (d - 2 - 1 + 2) in H3 by lia. rewrite Hp in H3 by lia.
  split_and!; [lia|apply Z.div_pos; lia|apply Z.div_lt_upper_bound; lia|].
  intros _. apply Z.div_le_lower_bound; lia.
Qed.

Lemma pairs_loop_spec fuel a tl next value :
  0 <= next < 2 ^ 32 -> Z.of_nat (length a) = next + 1 -> needs_digits value (next + 1) ->
  next <= 2 * Z.of_nat fuel + 1 ->
  exists a' digs next' value',
    pairs_loop fuel (a ++ tl) next value = Some (a' ++ digs ++ tl, next', value') /\
    Z.of_nat (length a') = next' + 1 /\ needs_digits value' (next' + 1) /\ value' < 100 /\
    0 <= next' < 2 ^ 32 /\ Z.of_nat (length digs) = next - next' /\ Forall is_digit digs /\
    value = value' * 10 ^ Z.of_nat (length digs) + dval digs.
Proof.
  revert a tl next value. induction fuel as [|fuel IH]; intros a tl next value Hn Ha Hv Hf;
    cbn [pairs_loop]; rewrite Z.geb_leb; destruct (100 <=? value) eqn:E; zbool.
  1: { destruct (needs_digits_div100 _ _ Hv E). lia. }
  1,3: exists a, [], next, value; split_and!; try done; try lia; simpl;
    [lia|change (10 ^ Z.of_nat 0) with 1; change (dval []) with 0; lia].
  destruct (needs_digits_div100 _ _ Hv E) as [Hd Hv'].
  pose proof (Z.mod_pos_bound value 100 ltac:(lia)) as Hm.
  destruct (digit_pairs_spec (value mod 100) Hm) as [-> ->]. mstep.
  destruct (store_pair a tl (48 + value mod 100 / 10) (48 + (value mod 100) mod 10) next)
    as (a' & Ha' & Hst); [done|lia|].
  destruct (mstore (a ++ tl) next _) as [dst|]; [|done]. mstep in *.
  rewrite Hst. mstep.
  rewrite (wrapU_id 32 (next - 2)) by (unfold inU; lia).
  destruct (IH a' ([48 + value mod 100 / 10; 48 + (value mod 100) mod 10] ++ tl) (next - 2)
    (value / 100)) as (b & digs & n' & v' & -> & Hb & Hvd & Hv100 & Hn' & Hlen & Hdig & Hval);
    [lia|lia|by replace (next - 2 + 1) with (next + 1 - 2) by lia|lia|].
  exists b, (digs ++ [48 + value mod 100 / 10; 48 + (value mod 100) mod 10]), n', v'.
  split_and!; try done; try lia.
  - by rewrite <- !app_assoc.
  - rewrite length_app. simpl. lia.
  - apply Forall_app. split; [done|]. by apply two_digits_are.
  - rewrite dval_app, two_digits, length_app, Nat2Z.inj_add, Z.pow_add_r by lia.
    cbn [length]. change (10 ^ Z.of_nat 2) with 100.
    pose proof (Z.div_mod value 100 ltac:(lia)). rewrite Hval in *. lia.
Qed.

Lemma decimal_intro v s :
  Forall is_digit s -> dval s = v -> needs_digits v (Z.of_nat (length s)) -> decimal v s.
Proof.
  intros Hd Hv (H1 & H2 & H3). split_and!; [done|done|].
  destruct s as [|c t]; [simpl in *; lia|].
  destruct (Z.eq_dec c 48) as [->|]; [|right; eauto].
  destruct t as [|c' t]; [by left|]. exfalso.
  apply Forall_cons in Hd as [_ Ht]. pose proof (dval_range _ Ht).
  rewrite dval_cons in Hv. specialize (H3 ltac:(simpl; lia)).
  replace (Z.of_nat (length (48 :: c' :: t)) - 1) with (Z.of_nat (length (c' :: t))) in H3
    by (simpl; lia). lia.
Qed.

(** The last one or two digits. *)
Lemma last_digits v n :
  needs_digits v (n + 1) -> v < 100 -> (v < 10 -> n = 0) /\ (10 <= v -> n = 1).
Proof.
  intros (H1 & H2 & H3) Hv.
  assert (Hpow : forall k, 0 <= k <= n -> 0 < n -> 10 ^ k <= v).
  { intros k Hk Hn. specialize (H3 ltac:(lia)). rewrite Z.add_simpl_r in H3.
    assert (10 ^ k <= 10 ^ n) by (apply Z.pow_le_mono_r; lia). lia. }
  split; intros Hv'.
  - destruct (Z.eq_dec n 0); [done|]. specialize (Hpow 1 ltac:(lia) ltac:(lia)). lia.
  - destruct (Z.eq_dec n 0) as [->|]; [change (10 ^ (0 + 1)) with 10 in *; lia|].
    destruct (Z.eq_dec n 1); [done|]. specialize (Hpow 2 ltac:(lia) ltac:(lia)). lia.
Qed.

(** What is at the front of the buffer when it is long enough. *)
Lemma ull2string_fits dst v :
  inU 64 v -> forall d, digits10 v = Some d -> d < Z.of_nat (length dst) ->
  exists s, decimal v s /\ Z.of_nat (length s) = d /\
    ull2string dst v = Some (d, s ++ [0] ++ drop (S (length s)) dst).
Proof.
  intros Hv d Hd Hlen. destruct (digits10_count v Hv) as (d' & Hd' & Hn & H20).
  assert (d' = d) as -> by congruence. pose proof (proj1 Hn) as H1.
  unfold ull2string. rewrite Hd. mstep.
  rewrite Z.geb_leb, (proj2 (Z.leb_gt _ _)) by lia.
  rewrite (wrapU_id 32 (d - 1)) by (unfold inU; zpow; lia). rewrite Z.sub_add.
  rewrite (wrapU_id 32 d) by (unfold inU; zpow; lia).
  set (n := Z.to_nat d).
  rewrite (mstore_Some dst d [0]) by (simpl; lia). fold n. cbn [length mbind option_bind].
  rewrite Nat.add_1_r.
  destruct (pairs_loop_spec 10 (take n dst) ([0] ++ drop (S n) dst) (d - 1) v)
    as (a' & digs & n' & v' & -> & Ha' & Hnd & Hv' & Hn' & Hld & Hdig & Hval);
    [zpow; lia|rewrite length_take; unfold n; lia|by rewrite Z.sub_add|lia|].
  mstep. destruct (last_digits _ _ Hnd Hv') as [Hlo Hhi].
  pose proof (proj1 (proj2 Hnd)).
  assert (Hfin : forall lead, Forall is_digit lead -> dval lead = v' ->
    Z.of_nat (length lead) = n' + 1 ->
    decimal v (lead ++ digs) /\ length (lead ++ digs) = n).
  { intros lead Hl1 Hl2 Hl3. assert (length (lead ++ digs) = n) by (rewrite length_app; unfold n; lia).
    split; [|done]. apply decimal_intro.
    - by apply Forall_app.
    - rewrite dval_app. lia.
    - replace (Z.of_nat _) with d by (unfold n in *; lia). done. }
  destruct (v' <? 10) eqn:E10; zbool.
  - specialize (Hlo E10) as ->.
    destruct a' as [|x [|]]; simpl in Ha'; try lia.
    pose proof (mstore_app_mid [] [x] [48 + v'] (digs ++ [0] ++ drop (S n) dst) 0
      eq_refl eq_refl) as Hs.
    change (chr "0"%char) with 48. cbn [app] in Hs |- *. rewrite Hs. mstep.
    destruct (Hfin [48 + v']) as [Hdec Hln]; [repeat constructor; lia|unfold dval; simpl; lia|done|].
    exists ([48 + v'] ++ digs). rewrite Hln. split_and!; [done|unfold n; lia|done].
  - specialize (Hhi E10) as ->.
    destruct (digit_pairs_spec v') as [-> ->]; [lia|]. mstep.
    destruct (store_pair a' (digs ++ [0] ++ drop (S n) dst) (48 + v' / 10) (48 + v' mod 10) 1)
      as (b & Hb & Hst); [done|zpow; lia|].
    destruct (mstore (a' ++ _) 1 _) as [dst1|]; [|done]. mstep in *.
    rewrite Hst. destruct b; [|simpl in Hb; lia]. mstep.
    destruct (Hfin [48 + v' / 10; 48 + v' mod 10]) as [Hdec Hln];
      [apply two_digits_are; lia|apply two_digits; lia|done|].
    exists ([48 + v' / 10; 48 + v' mod 10] ++ digs). rewrite Hln.
    split_and!; [done|unfold n; lia|]. by rewrite <- app_assoc.
Qed.

Lemma ull2string_short dst v d :
  digits10 v = Some d -> Z.of_nat (length dst) <= d ->
  ull2string dst v = Some (0, match dst with [] => [] | _ :: t => 0 :: t end).
Proof.
  intros Hd Hlen. unfold ull2string. rewrite Hd. mstep.
  rewrite Z.geb_leb, (proj2 (Z.leb_le _ _)) by lia. rewrite Z.gtb_ltb.
  destruct dst as [|c t]; [done|]. rewrite (proj2 (Z.ltb_lt _ _)) by (simpl; lia).
  by rewrite mstore_Some by (simpl; lia).
Qed.

Lemma ll2string_spec dst v :
  inS 64 v ->
  exists s, signed_decimal v s /\
    (if Z.of_nat (length s) <? Z.of_nat (length dst)
     then ll2string dst v = Some (Z.of_nat (length s), s ++ [0] ++ drop (S (length s)) dst)
     else exists dst', ll2string dst v = Some (0, dst') /\ length dst' = length dst /\
            (dst <> [] -> 0 ∈ dst')).
Proof.
  intros Hv. unfold inS in Hv. revert Hv. zpow. intros Hv.
  unfold ll2string, signed_decimal, LLONG_MIN, LLONG_MAX. destruct (v <? 0) eqn:Eneg; zbool.
  - replace (if negb _ then _ else _) with (- v).
    2: { destruct (v =? _) eqn:E; zbool; simpl; lia. }
    assert (Hu : inU 64 (- v)) by (unfold inU; zpow; lia).
    destruct (digits10_count _ Hu) as (d & Hd & Hn & H20). pose proof (proj1 Hn).
    destruct (ull2string_fits (replicate (Z.to_nat (d + 1)) 0) _ Hu d Hd) as (s & Hs & Hls & _);
      [rewrite length_replicate; lia|].
    exists (45 :: s). split; [eauto|]. cbn [length].
    destruct dst as [|c0 dst].
    { rewrite (proj2 (Z.ltb_ge _ _)) by (simpl; lia). exists []. done. }
    destruct dst as [|c1 dst].
    { rewrite (proj2 (Z.ltb_ge _ _)) by (simpl; lia). exists [0]. split_and!; [done|done|set_solver]. }
    rewrite (proj2 (Z.ltb_ge (Z.of_nat (length (c0 :: c1 :: dst))) 2)) by (simpl; lia).
    rewrite mstore_Some by (simpl; lia). mstep. simpl drop. simpl take.
    destruct (_ <? _) eqn:El; zbool.
    + destruct (ull2string_fits (c1 :: dst) _ Hu d Hd) as (s' & Hs' & Hls' & Hull);
        [simpl in *; lia|].
      assert (s' = s) as -> by (by eapply decimal_unique).
      rewrite Hull. mstep.
      rewrite (proj2 (Z.eqb_neq _ _)) by lia. rewrite wrapS_id by (unfold inS; zpow; lia).
      do 2 f_equal. lia.
    + rewrite (ull2string_short (c1 :: dst) _ d Hd) by (simpl in *; lia).
      mstep. simpl. eexists. split; [done|]. split; [done|set_solver].
  - assert (Hu : inU 64 v) by (unfold inU; zpow; lia).
    destruct (digits10_count _ Hu) as (d & Hd & Hn & H20). pose proof (proj1 Hn).
    destruct (ull2string_fits (replicate (Z.to_nat (d + 1)) 0) _ Hu d Hd) as (s & Hs & Hls & _);
      [rewrite length_replicate; lia|].
    exists s. split; [done|]. rewrite Hls. destruct (_ <? _) eqn:El; zbool.
    + destruct (ull2string_fits dst _ Hu d Hd) as (s' & Hs' & Hls' & ->); [lia|].
      assert (s' = s) as -> by (by eapply decimal_unique).
      mstep. by rewrite (proj2 (Z.eqb_neq _ _)) by lia.
    + rewrite (ull2string_short dst _ d Hd) by lia. simpl. eexists. split; [done|].
      destruct dst; [done|]. split; [done|set_solver].
Qed.

(** [ll2string] prints every 64-bit signed integer: when the buffer has
    room for the representation and its terminator, it holds exactly the
    canonical decimal string of the number (minus sign included, also for
    [LLONG_MIN]), a NUL, and its other bytes unchanged, and the length is
    returned; when it has not, 0 is returned and the buffer, when not empty,
    is still a terminated string. No byte out of the buffer is written. *)
Theorem ll2string_correct dst v :
  inS 64 v ->
  exists s, signed_decimal v s /\
    (if Z.of_nat (length s) <? Z.of_nat (length dst)
     then ll2string dst v = Some (Z.of_nat (length s), s ++ [0] ++ drop (S (length s)) dst)
     else exists dst', ll2string dst v = Some (0, dst') /\ length dst' = length dst /\
            (dst <> [] -> 0 ∈ dst')).
Proof. apply ll2string_spec. Qed.

(** ** Parsing *)

Lemma is_digit_test c : (chr "0"%char <=? c) && (c <=? chr "9"%char) = true <-> is_digit c.
Proof.
  change (chr "0"%char) with 48. change (chr "9"%char) with 57. unfold is_digit.
  rewrite andb_true_iff, !Z.leb_le. done.
Qed.

(** The loop stops at the first character that is not a digit. *)
Lemma digits_loop_consumed p v w : digits_loop p v = Some (w, []) -> Forall is_digit p.
Proof.
  revert v. induction p as [|c p IH]; intros v; [constructor|]. cbn [digits_loop].
  destruct (_ && _) eqn:E; [|done]. apply is_digit_test in E.
  destruct (_ >? _); [done|]. destruct (_ >? _); [done|].
  intros H. constructor; eauto.
Qed.

(** On digits, the overflow tests are exact. *)
Lemma digits_loop_digits p v :
  Forall is_digit p -> inU 64 v ->
  digits_loop p v =
    let r := v * 10 ^ Z.of_nat (length p) + dval p in
    if r <=? ULLONG_MAX then Some (r, []) else None.
Proof.
  intros Hp. revert v. induction Hp as [|c p Hc Hp IH]; intros v Hv.
  { cbn [digits_loop length]. change (10 ^ Z.of_nat 0) with 1. change (dval []) with 0.
    unfold inU, ULLONG_MAX in *. revert Hv. zpow. intros.
    cbv zeta. rewrite (proj2 (Z.leb_le _ _)) by lia. do 2 f_equal. lia. }
  cbn [digits_loop]. rewrite (proj2 (is_digit_test c) Hc).
  change (chr "0"%char) with 48. unfold is_digit in Hc.
  rewrite dval_cons. replace (Z.of_nat (length (c :: p))) with (1 + Z.of_nat (length p)) by (simpl; lia).
  rewrite Z.pow_add_r by lia. change (10 ^ 1) with 10. cbv zeta.
  replace (v * (10 * 10 ^ Z.of_nat (length p)) + ((c - 48) * 10 ^ Z.of_nat (length p) + dval p))
    with ((v * 10 + (c - 48)) * 10 ^ Z.of_nat (length p) + dval p) by lia.
  pose proof (pow10_pos (length p)). pose proof (dval_range p Hp).
  unfold inU, ULLONG_MAX in *. change (UINT64_MAX / 10) with 1844674407370955161.
  revert Hv. zpow. intros Hv. rewrite !Z.gtb_ltb.
  destruct (_ <? v) eqn:E1; zbool; [by rewrite (proj2 (Z.leb_gt _ _)) by nia|].
  rewrite (wrapU_id 64 (v * 10)) by (unfold inU; zpow; lia).
  destruct (_ <? v * 10) eqn:E2; zbool; [by rewrite (proj2 (Z.leb_gt _ _)) by nia|].
  rewrite wrapU_id by (unfold inU; zpow; lia).
  rewrite IH by (zpow; lia). done.
Qed.

Lemma decimal_short v s : decimal v s -> 0 <= v <= 2 ^ 63 -> (length s <= 19)%nat.
Proof.
  intros Hs Hv. destruct (Z.eq_dec v 0) as [->|Hn].
  { rewrite (decimal_zero _ Hs). simpl; lia. }
  pose proof (decimal_length _ _ Hs Hn).
  destruct (Nat.le_gt_cases (length s) 19); [done|].
  assert (10 ^ 19 <= 10 ^ (Z.of_nat (length s) - 1)) by (apply Z.pow_le_mono_r; lia).
  revert Hv. zpow. change (10 ^ 19) with 10000000000000000000 in *. lia.
Qed.

(** The part of [string2ll] after the sign: a canonical positive number. *)
Lemma positive_part c p v :
  (exists rest, digits_loop p (c - 48) = Some (v, rest) /\ rest = []) /\ 49 <= c <= 57 ->
  decimal v (c :: p) /\ 0 < v.
Proof.
  intros [(rest & Hl & ->) Hc]. pose proof (digits_loop_consumed _ _ _ Hl) as Hp.
  rewrite digits_loop_digits in Hl by (auto; unfold inU; zpow; lia).
  cbv zeta in Hl. destruct (_ <=? _); [|done]. injection Hl as <-.
  pose proof (pow10_pos (length p)). pose proof (dval_range p Hp).
  split; [|nia]. split_and!.
  - constructor; [unfold is_digit; lia|done].
  - apply dval_cons.
  - right. exists c, p. split; [done|lia].
Qed.

Lemma decimal_positive_part v s :
  decimal v s -> 0 < v <= 2 ^ 63 ->
  exists c p, s = c :: p /\ 49 <= c <= 57 /\ digits_loop p (c - 48) = Some (v, []).
Proof.
  intros (Hd & Hv & [->|(c & p & -> & Hc)]) Hr; [unfold dval in Hv; simpl in Hv; lia|].
  apply Forall_cons in Hd as [Hc' Hp]. unfold is_digit in Hc'.
  exists c, p. split_and!; [done|lia|lia|].
  rewrite digits_loop_digits by (auto; unfold inU; zpow; lia).
  cbv zeta. rewrite <- dval_cons, Hv. unfold ULLONG_MAX. revert Hr. zpow. intros.
  by rewrite (proj2 (Z.leb_le _ _)) by lia.
Qed.

Lemma lookup_head_digit c (p : list Z) :
  48 <= c <= 57 -> bool_decide ((c :: p) !! 0%nat = Some (chr "-"%char)) = false.
Proof. intros Hc. apply bool_decide_eq_false. change (chr "-"%char) with 45. simpl. intros [=]. lia. Qed.

Ltac open_string2ll :=
  unfold string2ll, inS, signed_decimal, LONG_STR_SIZE, LLONG_MIN, LLONG_MAX; zpow;
  change (chr "1"%char) with 49; change (chr "9"%char) with 57; change (chr "0"%char) with 48.

Lemma string2ll_sound s v : string2ll s = Some v -> inS 64 v /\ signed_decimal v s.
Proof.
  open_string2ll.
  destruct (_ || _) eqn:E0; [done|]. zbool. destruct (_ && _) eqn:E1.
  { intros [= <-]. apply andb_true_iff in E1 as [E1 E1']. zbool.
    apply bool_decide_eq_true in E1'. destruct s as [|c [|]]; simpl in *; try lia.
    injection E1' as ->. split; [lia|]. split_and!; [by repeat constructor|done|by left]. }
  clear E1. destruct (bool_decide _) eqn:Eneg.
  + apply bool_decide_eq_true in Eneg. destruct s as [|c' [|c p]]; try done.
    simpl in Eneg. injection Eneg as ->. simpl drop. cbv iota.
    destruct (_ && _) eqn:Ec; [|done]. zbool.
    destruct (digits_loop p (c - 48)) as [[w rest]|] eqn:El; [|done]. mstep.
    destruct rest; [|done]. cbn [length Nat.eqb negb].
    change (u64 (- (INT64_MIN + 1)) + 1) with 9223372036854775808. rewrite Z.gtb_ltb.
    destruct (_ <? w) eqn:Ew; [done|]. zbool.
    destruct (positive_part c p w) as [Hdec Hpos]; [eauto|].
    assert (Hw : s64 (u64 (- w)) = - w).
    { rewrite wrapS_wrapU by lia. apply wrapS_id; [lia|]. unfold inS. zpow. lia. }
    rewrite Hw. intros [= <-]. split; [lia|]. rewrite (proj2 (Z.ltb_lt _ _)) by lia.
    exists (c :: p). by rewrite Z.opp_involutive.
  + destruct s as [|c p]; [done|]. destruct (_ && _) eqn:Ec; [|done]. zbool.
    destruct (digits_loop p (c - 48)) as [[w rest]|] eqn:El; [|done]. mstep.
    destruct rest; [|done]. cbn [length Nat.eqb negb]. rewrite Z.gtb_ltb.
    destruct (_ <? w) eqn:Ew; [done|]. zbool. intros [= <-].
    destruct (positive_part c p w) as [Hdec Hpos]; [eauto|].
    split; [lia|]. by rewrite (proj2 (Z.ltb_ge _ _)) by lia.
Qed.

Lemma string2ll_complete s v : inS 64 v -> signed_decimal v s -> string2ll s = Some v.
Proof.
  open_string2ll. intros Hv Hs. destruct (v <? 0) eqn:E; zbool.
  + destruct Hs as (t & -> & Ht). pose proof (decimal_short _ _ Ht ltac:(zpow; lia)).
    destruct (decimal_positive_part _ _ Ht) as (c & p & -> & Hc & Hl); [zpow; lia|].
    rewrite (proj2 (Z.eqb_neq (Z.of_nat _) 0)), Z.geb_leb, (proj2 (Z.leb_gt _ _)) by (simpl in *; lia).
    rewrite (proj2 (Z.eqb_neq (Z.of_nat _) 1)) by (simpl; lia). cbn [orb andb].
    rewrite bool_decide_true by done. simpl drop. cbv iota.
    rewrite (proj2 (Z.leb_le 49 c)), (proj2 (Z.leb_le c 57)) by lia. cbn [andb].
    rewrite Hl. cbn [mbind option_bind length Nat.eqb negb].
    change (u64 (- (INT64_MIN + 1)) + 1) with 9223372036854775808.
    rewrite Z.gtb_ltb, (proj2 (Z.ltb_ge _ _)), Z.opp_involutive by lia.
    rewrite wrapS_wrapU by lia. f_equal. apply wrapS_id; [lia|]. unfold inS. zpow. lia.
  + destruct (Z.eq_dec v 0) as [->|Hn]; [by rewrite (decimal_zero _ Hs)|].
    pose proof (decimal_short _ _ Hs ltac:(zpow; lia)).
    destruct (decimal_positive_part _ _ Hs) as (c & p & -> & Hc & Hl); [zpow; lia|].
    rewrite (proj2 (Z.eqb_neq (Z.of_nat _) 0)), Z.geb_leb, (proj2 (Z.leb_gt _ _)) by (simpl in *; lia).
    cbn [orb]. rewrite (bool_decide_false ((c :: p) !! 0%nat = Some 48)) by (simpl; intros [=]; lia).
    rewrite andb_false_r, lookup_head_digit by lia.
    rewrite (proj2 (Z.leb_le 49 c)), (proj2 (Z.leb_le c 57)) by lia. cbn [andb].
    rewrite Hl. cbn [mbind option_bind length Nat.eqb negb].
    by rewrite Z.gtb_ltb, (proj2 (Z.ltb_ge _ _)) by lia.
Qed.

(** C32: [string2ll] accepts exactly the canonical representations of the
    64-bit signed integers, with their value: no space, no leading zero, no
    "-0", no plus sign, no number out of range, and nothing valid rejected. *)
Theorem string2ll_exact s v : string2ll s = Some v <-> inS 64 v /\ signed_decimal v s.
Proof.
  split; [apply string2ll_sound|]. intros [??]. by apply string2ll_complete.
Qed.

(** A signed 64-bit number fits in a buffer of [LONG_STR_SIZE] bytes. *)
Lemma signed_decimal_short v t : inS 64 v -> signed_decimal v t -> (length t <= 20)%nat.
Proof.
  unfold inS, signed_decimal. zpow. intros Hv Ht. destruct (v <? 0) eqn:E; zbool.
  - destruct Ht as (t' & -> & Ht'). apply decimal_short in Ht'; [simpl; lia|zpow; lia].
  - apply decimal_short in Ht; [lia|zpow; lia].
Qed.

Lemma ll2string_fits (dst : list Z) (v : Z) :
  inS 64 v -> (Z.to_nat LONG_STR_SIZE <= length dst)%nat ->
  exists t, signed_decimal v t /\
    ll2string dst v = Some (Z.of_nat (length t), t ++ [0] ++ drop (S (length t)) dst).
Proof.
  intros Hv Hlen. destruct (ll2string_spec dst v Hv) as (t & Ht & Hpr).
  pose proof (signed_decimal_short _ _ Hv Ht). exists t. split; [done|].
  by rewrite (proj2 (Z.ltb_lt _ _)) in Hpr
    by (change (Z.to_nat LONG_STR_SIZE) with 21%nat in Hlen; lia).
Qed.

(** The string that was parsed is printed again. *)
Lemma ll2string_string2ll (dst : list Z) (v : Z) (s : list Z) :
  string2ll s = Some v -> length dst = Z.to_nat LONG_STR_SIZE ->
  exists dst', ll2string dst v = Some (Z.of_nat (length s), s ++ 0 :: dst').
Proof.
  intros [Hv Hs]%string2ll_sound Hlen. destruct (ll2string_fits dst v Hv ltac:(lia)) as (t & Ht & Hpr).
  rewrite (signed_decimal_unique _ _ _ Hs Ht). eauto.
Qed.

(** Printing and parsing are inverse: what [ll2string] prints in a buffer
    of [LONG_STR_SIZE] bytes is parsed back, and a string [string2ll] accepts
    is what [ll2string] prints for its value. *)
Theorem ll2string_string2ll_roundtrip dst v s :
  inS 64 v -> length dst = Z.to_nat LONG_STR_SIZE ->
  (exists n dst', ll2string dst v = Some (n, dst') /\ string2ll (take (Z.to_nat n) dst') = Some v) /\
  (string2ll s = Some v -> exists dst', ll2string dst v = Some (Z.of_nat (length s), s ++ 0 :: dst')).
Proof.
  intros Hv Hlen. split.
  - destruct (ll2string_fits dst v Hv ltac:(lia)) as (t & Ht & Hpr).
    do 2 eexists. split; [exact Hpr|]. rewrite Nat2Z.id, take_app_length.
    by apply string2ll_complete.
  - intros Hs. by apply ll2string_string2ll.
Qed.

(** ** Witnesses *)

Lemma digits10_exact_witness :
  (exists d, digits10 18446744073709551615 = Some d /\
     needs_digits 18446744073709551615 d /\ d <= 20) /\
  (exists d, sdigits10 (-9223372036854775808) = Some (d + 1) /\
     needs_digits 9223372036854775808 d).
Proof.
  split.
  - apply digits10_exact. vm_compute; split; congruence.
  - apply (digits10_exact (-9223372036854775808)). vm_compute; split; congruence.
Defined.

Lemma ll2string_correct_witness :
  exists s, signed_decimal (-9223372036854775808) s /\
    (if Z.of_nat (length s) <? Z.of_nat (length (replicate 21 0))
     then ll2string (replicate 21 0) (-9223372036854775808) =
            Some (Z.of_nat (length s), s ++ [0] ++ drop (S (length s)) (replicate 21 0))
     else exists dst', ll2string (replicate 21 0) (-9223372036854775808) = Some (0, dst') /\
            length dst' = length (replicate 21 0) /\ (replicate 21 0 <> [] -> 0 ∈ dst')).
Proof. apply ll2string_correct. vm_compute; split; congruence. Defined.

Lemma ll2string_string2ll_roundtrip_witness :
  exists n dst', ll2string (replicate 21 0) (-1200) = Some (n, dst') /\
    string2ll (take (Z.to_nat n) dst') = Some (-1200).
Proof.
  apply (ll2string_string2ll_roundtrip (replicate 21 0) (-1200) []); [|reflexivity].
  vm_compute; split; congruence.
Defined.

Example string2ll_runs :
  string2ll (bytes_of_string "-1234567"%string) = Some (-1234567) /\
  string2ll (bytes_of_string "00"%string) = None /\
  string2ll (bytes_of_string "9223372036854775808"%string) = None.
Proof. vm_compute. auto. Qed.
