(* ===== verification/Glob.v ===== *)
(** * Glob-style matching ([util.c])

    [stringmatchlen] matches a string against a pattern with [*], [?],
    [[classes]] and backslash escapes. Its matcher backtracks, bounded by a
    nesting limit and by the [skipLongerMatches] flag. A pattern is the list
    of its bytes from the current position; the byte after its end is read
    and is the terminator of the string that holds the pattern. *)

From S2P Require Import Prelude.

#[local] Open Scope Z_scope.

Definition STAR : Z := chr "*"%char.
Definition QMARK : Z := chr "?"%char.
Definition LBRACKET : Z := chr "["%char.
Definition RBRACKET : Z := chr "]"%char.
Definition CARET : Z := chr "^"%char.
Definition DASH : Z := chr "-"%char.
Definition BACKSLASH : Z := 92.

(** [p[i]]; past the end there is the terminator. *)
Definition ch (p : list Z) (i : nat) : Z := nth i p 0.
Definition len (p : list Z) : Z := Z.of_nat (length p).

(** [tolower] of the C locale, on the [int] a [char] is promoted to. *)
Definition tolower (c : Z) : Z :=
  if (chr "A"%char <=? c) && (c <=? chr "Z"%char) then c + 32 else c.

Definition same_char (nocase : bool) (a b : Z) : bool :=
  if nocase then tolower (s8 a) =? tolower (s8 b) else a =? b.

Definition in_range (nocase : bool) (lo hi c : Z) : bool :=
  let start := s8 lo in
  let fin := s8 hi in
  let c := s8 c in
  let '(start, fin) := if start >? fin then (fin, start) else (start, fin) in
  let '(start, fin, c) :=
    if nocase then (tolower start, tolower fin, tolower c) else (start, fin, c) in
  (c >=? start) && (c <=? fin).

(** The inside of a class. [prev] is the pattern one byte back, for the
    [pattern--] of an unterminated class. The result is the flag and the
    pattern at the byte the class ends with. Every turn consumes a byte. *)
Fixpoint class_loop (fuel : nat) (nocase : bool) (c0 : Z) (prev p : list Z) (m : bool)
    : option (bool * list Z) :=
  match fuel with
  | O => None
  | S fuel =>
      if (len p >=? 2) && (ch p 0 =? BACKSLASH) then
        let p := drop 1 p in
        let m := if ch p 0 =? c0 then true else m in
        class_loop fuel nocase c0 p (drop 1 p) m
      else if len p =? 0 then Some (m, prev)
      else if ch p 0 =? RBRACKET then Some (m, p)
      else if (len p >=? 3) && (ch p 1 =? DASH) then
        let m' := if in_range nocase (ch p 0) (ch p 2) c0 then true else m in
        let p := drop 2 p in
        class_loop fuel nocase c0 p (drop 1 p) m'
      else
        let m := if same_char nocase (ch p 0) c0 then true else m in
        class_loop fuel nocase c0 p (drop 1 p) m
  end.

(** [while (patternLen && pattern[1] == '*')] *)
Fixpoint collapse_stars (p : list Z) : list Z :=
  match p with
  | [] => []
  | _ :: p' => if ch p 1 =? STAR then collapse_stars p' else p
  end.

(** [while(patternLen && *pattern == '*')] *)
Fixpoint strip_stars (p : list Z) : list Z :=
  match p with
  | [] => []
  | c :: p' => if c =? STAR then strip_stars p' else p
  end.

(** The matching loop. The result is the value returned and
    [*skipLongerMatches]. The fuel bounds the recursion by the length of the
    pattern; [continue p s] is what follows the [switch]. *)
Fixpoint match_loop (fuel : nat) (nocase : bool) (nesting : Z) (p s : list Z) (skip : bool)
    : option (bool * bool) :=
  match fuel with
  | O => None
  | S fuel =>
      let continue p s :=
        let p := drop 1 p in
        if len s =? 0 then
          let p := strip_stars p in Some ((len p =? 0) && (len s =? 0), skip)
        else match_loop fuel nocase nesting p s skip in
      if (len p =? 0) || (len s =? 0) then Some ((len p =? 0) && (len s =? 0), skip) else
      if ch p 0 =? STAR then
        let p := collapse_stars p in
        if len p =? 1 then Some (true, skip) else
        (fix star_loop (s : list Z) (skip : bool) : option (bool * bool) :=
           match s with
           | [] => Some (false, true)
           | _ :: s' =>
               '(r, skip) ← (if nesting + 1 >? 1000 then Some (false, skip)
                             else match_loop fuel nocase (nesting + 1) (drop 1 p) s skip);
               if (r : bool) then Some (true, skip)
               else if (skip : bool) then Some (false, skip)
               else star_loop s' skip
           end) s skip
      else if ch p 0 =? QMARK then continue p (drop 1 s)
      else if ch p 0 =? LBRACKET then
        let prev := p in
        let p := drop 1 p in
        let not := negb (len p =? 0) && (ch p 0 =? CARET) in
        let '(prev, p) := if not then (p, drop 1 p) else (prev, p) in
        '(m, p) ← class_loop (S (length p)) nocase (ch s 0) prev p false;
        let m := if (not : bool) then negb m else m in
        if negb m then Some (false, skip) else continue p (drop 1 s)
      else
        let p := if (ch p 0 =? BACKSLASH) && (len p >=? 2) then drop 1 p else p in
        if negb (same_char nocase (ch p 0) (ch s 0)) then Some (false, skip)
        else continue p (drop 1 s)
  end.

(** The lengths, [int]s in the code, are those of the lists: patterns and
    strings are shorter than 2^31 bytes, as the default limit of 512 MB on an
    argument makes them. The byte after the pattern, which the loop over a star and a class
    may look at, is the NUL that ends every sds and C string. *)
Definition stringmatchlen_impl (p s : list Z) (nocase : bool) (skip : bool) (nesting : Z)
    : option (bool * bool) :=
  if nesting >? 1000 then Some (false, skip)
  else match_loop (S (length p)) nocase nesting p s skip.

Definition stringmatchlen (p s : list Z) (nocase : bool) : option bool :=
  '(r, _) ← stringmatchlen_impl p s nocase false 0; Some r.

(** [for (int i = patternLen - 2; i >= 0; i--)]: on the reversed prefix. *)
Fixpoint count_backslashes (r : list Z) : Z :=
  match r with
  | c :: r' => if c =? BACKSLASH then 1 + count_backslashes r' else 0
  | [] => 0
  end.

Definition prefixmatch (p prefixStr : list Z) (nocase : bool) : option bool :=
  '(r, _) ← stringmatchlen_impl p prefixStr nocase false 0;
  if negb r then Some false else
  if (len p =? 0) || negb (ch p (length p - 1) =? STAR) then Some false else
  let backslashCount := count_backslashes (drop 1 (reverse p)) in
  Some (backslashCount mod 2 =? 0).

(** ** The language of patterns *)

Inductive item :=
| IEscaped (c : Z)
| IRange (lo hi : Z)
| IChar (c : Z).

Inductive token :=
| TStar
| TAny
| TClass (neg : bool) (items : list item)
| TChar (c : Z).

(** The items of a class and the pattern after it. *)
Fixpoint class_items (p : list Z) : list item * list Z :=
  match p with
  | [] => ([], [])
  | c :: p' =>
      if c =? BACKSLASH then
        match p' with
        | d :: p'' => let '(l, r) := class_items p'' in (IEscaped d :: l, r)
        | [] => ([IChar c], [])
        end
      else if c =? RBRACKET then ([], p')
      else
        match p' with
        | d :: e :: p'' =>
            if d =? DASH then let '(l, r) := class_items p'' in (IRange c e :: l, r)
            else let '(l, r) := class_items p' in (IChar c :: l, r)
        | _ => let '(l, r) := class_items p' in (IChar c :: l, r)
        end
  end.

Fixpoint parse_fuel (fuel : nat) (p : list Z) : list token :=
  match fuel with
  | O => []
  | S fuel =>
      match p with
      | [] => []
      | c :: p' =>
          if c =? STAR then TStar :: parse_fuel fuel p'
          else if c =? QMARK then TAny :: parse_fuel fuel p'
          else if c =? LBRACKET then
            let '(neg, p') := match p' with
                              | d :: p'' => if d =? CARET then (true, p'') else (false, p')
                              | [] => (false, [])
                              end in
            let '(items, rest) := class_items p' in
            TClass neg items :: parse_fuel fuel rest
          else if c =? BACKSLASH then
            match p' with
            | d :: p'' => TChar d :: parse_fuel fuel p''
            | [] => [TChar c]
            end
          else TChar c :: parse_fuel fuel p'
      end
  end.

Definition parse (p : list Z) : list token := parse_fuel (length p) p.

Definition item_matches (nocase : bool) (i : item) (c : Z) : bool :=
  match i with
  | IEscaped d => d =? c
  | IRange lo hi => in_range nocase lo hi c
  | IChar d => same_char nocase d c
  end.

(** The tokens that match one character. *)
Definition token_matches (nocase : bool) (t : token) (c : Z) : bool :=
  match t with
  | TStar => false
  | TAny => true
  | TClass neg items => xorb neg (existsb (fun i => item_matches nocase i c) items)
  | TChar d => same_char nocase d c
  end.

(** The declarative meaning of a pattern: a star matches any sequence. *)
Inductive glob (nocase : bool) : list token -> list Z -> Prop :=
| glob_nil : glob nocase [] []
| glob_one t ts c s :
    token_matches nocase t c = true -> glob nocase ts s -> glob nocase (t :: ts) (c :: s)
| glob_star_stop ts s : glob nocase ts s -> glob nocase (TStar :: ts) s
| glob_star_more ts c s : glob nocase (TStar :: ts) s -> glob nocase (TStar :: ts) (c :: s).

Definition is_star (t : token) : bool := match t with TStar => true | _ => false end.
Definition stars (ts : list token) : nat := length (List.filter is_star ts).

(** ** Parsing *)

Lemma list_len_ind (P : list Z -> Prop) :
  (forall p, (forall q, (length q < length p)%nat -> P q) -> P p) -> forall p, P p.
Proof.
  intros H p. induction p as [p IH] using (induction_ltof1 _ (@length Z)). by apply H.
Qed.

Lemma class_items_rest p : (length (snd (class_items p)) <= length p)%nat.
Proof.
  induction p as [p IH] using list_len_ind. destruct p as [|c p]; [done|].
  cbn [class_items]. destruct (c =? BACKSLASH).
  - destruct p as [|d p]; [simpl; lia|]. specialize (IH p).
    destruct (class_items p). simpl in *. lia.
  - destruct (c =? RBRACKET); [simpl; lia|].
    assert (H1 : (length (snd (let '(l, r) := class_items p in (IChar c :: l, r))) <= length (c :: p))%nat).
    { specialize (IH p). destruct (class_items p). simpl in *. lia. }
    destruct p as [|d [|e p]]; [done|done|]. destruct (d =? DASH); [|done].
    specialize (IH p). destruct (class_items p). simpl in *. lia.
Qed.

(** What follows a class. *)
Definition class_open (p : list Z) : bool * list Z :=
  match p with
  | d :: p'' => if d =? CARET then (true, p'') else (false, p)
  | [] => (false, [])
  end.

Lemma class_open_length p : (length (snd (class_open p)) <= length p)%nat.
Proof. destruct p as [|d p]; [done|]. simpl. destruct (d =? CARET); simpl; lia. Qed.

Lemma parse_fuel_enough n m p :
  (length p <= n)%nat -> (length p <= m)%nat -> parse_fuel n p = parse_fuel m p.
Proof.
  revert m p. induction n as [|n IH]; intros m p Hn Hm.
  { destruct p; [by destruct m|simpl in *; lia]. }
  destruct m as [|m]; [destruct p; [done|simpl in *; lia]|].
  destruct p as [|c p]; [done|]. simpl in Hn, Hm. cbn [parse_fuel].
  destruct (c =? STAR); [f_equal; apply IH; lia|].
  destruct (c =? QMARK); [f_equal; apply IH; lia|].
  destruct (c =? LBRACKET).
  { fold (class_open p). pose proof (class_open_length p).
    destruct (class_open p) as [neg q]. simpl in *. pose proof (class_items_rest q).
    destruct (class_items q) as [items rest]. simpl in *. f_equal. apply IH; lia. }
  destruct (c =? BACKSLASH); [|f_equal; apply IH; lia].
  destruct p as [|d p]; [done|]. simpl in *. f_equal. apply IH; lia.
Qed.

(** The equations of [parse]. *)
Lemma parse_nil : parse [] = [].
Proof. done. Qed.

Lemma parse_cons c p :
  parse (c :: p) =
    if c =? STAR then TStar :: parse p
    else if c =? QMARK then TAny :: parse p
    else if c =? LBRACKET then
      TClass (fst (class_open p)) (fst (class_items (snd (class_open p))))
        :: parse (snd (class_items (snd (class_open p))))
    else if (c =? BACKSLASH) && (len (c :: p) >=? 2) then TChar (ch p 0) :: parse (drop 1 p)
    else TChar c :: parse p.
Proof.
  unfold parse. cbn [length parse_fuel]. destruct (c =? STAR); [done|].
  destruct (c =? QMARK); [done|]. destruct (c =? LBRACKET).
  { fold (class_open p). pose proof (class_open_length p).
    destruct (class_open p) as [neg q]. simpl in *. pose proof (class_items_rest q).
    destruct (class_items q) as [items rest]. simpl in *. f_equal.
    apply parse_fuel_enough; lia. }
  unfold len. rewrite Z.geb_leb. destruct (c =? BACKSLASH); [|done].
  destruct p as [|d p]; [done|]. rewrite (proj2 (Z.leb_le _ _)) by (simpl; lia).
  cbn [andb drop]. rewrite drop_0. f_equal. apply parse_fuel_enough; simpl; lia.
Qed.

Lemma parse_empty_inv p : parse p = [] -> p = [].
Proof.
  destruct p as [|c p]; [done|]. rewrite parse_cons. by repeat case_match.
Qed.

(** ** Classes *)

Lemma len_ge p z n : z = Z.of_nat n -> (len p >=? z) = (n <=? length p)%nat.
Proof.
  intros ->. unfold len. rewrite Z.geb_leb. destruct (Nat.leb_spec n (length p)).
  - apply Z.leb_le; lia.
  - apply Z.leb_gt; lia.
Qed.

Lemma len_zero p : (len p =? 0) = bool_decide (p = []).
Proof.
  unfold len. destruct p; [done|]. rewrite bool_decide_false by done.
  apply Z.eqb_neq. simpl; lia.
Qed.

Lemma if_true_orb (b m : bool) : (if b then true else m) = m || b.
Proof. by destruct b, m. Qed.

(** The loop over a class computes whether some item matches, and ends where
    the parser does. *)
Lemma class_loop_spec fuel nocase c0 prev p m :
  (length p < fuel)%nat -> drop 1 prev = p ->
  exists q, class_loop fuel nocase c0 prev p m =
      Some (m || existsb (fun i => item_matches nocase i c0) (fst (class_items p)), q) /\
    drop 1 q = snd (class_items p).
Proof.
  revert prev p m. induction fuel as [|fuel IH]; intros prev p m Hf Hprev; [lia|].
  cbn [class_loop]. rewrite (len_ge p 2 2), (len_ge p 3 3), len_zero by done.
  destruct p as [|c p].
  { exists prev. simpl. by rewrite orb_false_r. }
  rewrite (bool_decide_false (c :: p = [])) by done.
  change (ch (c :: p) 0) with c. cbn [class_items].
  destruct (c =? BACKSLASH) eqn:Eb; zbool.
  - destruct p as [|d p]; cbn [length Nat.leb andb].
    + subst c. change (BACKSLASH =? RBRACKET) with false.
      destruct (IH [BACKSLASH] [] (if same_char nocase BACKSLASH c0 then true else m))
        as (q & Hq & Hr); [simpl in *; lia|done|].
      exists q. simpl. rewrite Hq. simpl. rewrite if_true_orb, !orb_false_r. done.
    + destruct (IH (d :: p) p (if d =? c0 then true else m)) as (q & Hq & Hr);
        [simpl in *; lia|done|].
      exists q. cbn [drop]. change (ch (d :: p) 0) with d. rewrite drop_0, Hq, if_true_orb.
      destruct (class_items p) as [l r]. simpl in *. by rewrite orb_assoc.
  - rewrite andb_false_r. destruct (c =? RBRACKET) eqn:Er; zbool.
    { exists (c :: p). simpl. by rewrite orb_false_r, drop_0. }
    assert (Hone : exists q, class_loop fuel nocase c0 (c :: p) (drop 1 (c :: p))
        (if same_char nocase c c0 then true else m) =
        Some (m || existsb (fun i => item_matches nocase i c0)
          (fst (let '(l, r) := class_items p in (IChar c :: l, r))), q) /\
        drop 1 q = snd (let '(l, r) := class_items p in (IChar c :: l, r))).
    { destruct (IH (c :: p) p (if same_char nocase c c0 then true else m)) as (q & Hq & Hr);
        [simpl in *; lia|done|].
      exists q. cbn [drop]. rewrite drop_0, Hq, if_true_orb.
      destruct (class_items p) as [l r]. simpl in *. by rewrite orb_assoc. }
    destruct p as [|d [|e p]]; [exact Hone|exact Hone|].
    cbn [length Nat.leb andb]. change (ch (c :: d :: e :: p) 1) with d.
    destruct (d =? DASH); [|exact Hone].
    change (ch (c :: d :: e :: p) 2) with e. cbn [drop].
    destruct (IH (e :: p) p (if in_range nocase c e c0 then true else m)) as (q & Hq & Hr);
      [simpl in *; lia|done|].
    exists q. rewrite !drop_0, Hq, if_true_orb.
    destruct (class_items p) as [l r]. simpl in *. by rewrite orb_assoc.
Qed.

(** ** The meaning of patterns *)

Lemma suffix_of_cons (s' s : list Z) c :
  s' `suffix_of` c :: s -> s' = c :: s \/ s' `suffix_of` s.
Proof.
  intros [[|d k] E]; simpl in E; [by left|]. right. exists k. congruence.
Qed.

Lemma glob_nil_iff nc s : glob nc [] s <-> s = [].
Proof. split; [by inversion 1|intros ->; constructor]. Qed.

Lemma glob_one_iff nc t ts s :
  is_star t = false ->
  glob nc (t :: ts) s <-> exists c s', s = c :: s' /\ token_matches nc t c = true /\ glob nc ts s'.
Proof.
  intros Ht. split.
  - inversion 1; subst; try done; eauto.
  - intros (c & s' & -> & ? & ?). by constructor.
Qed.

Lemma glob_star_iff nc ts s :
  glob nc (TStar :: ts) s <-> exists s', s' `suffix_of` s /\ glob nc ts s'.
Proof.
  split.
  - intros H. remember (TStar :: ts) as l eqn:El. induction H as [| | |? c s H IH]; simplify_eq.
    + eexists. split; [done|]. done.
    + destruct IH as (s' & Hs & Hg); [done|]. exists s'. split; [|done]. by apply suffix_cons_r.
  - intros (s' & [k ->] & Hg). induction k as [|c k IH]; simpl; by constructor.
Qed.

Lemma glob_empty_iff nc ts : glob nc ts [] <-> Forall (fun t => is_star t = true) ts.
Proof.
  induction ts as [|t ts IH]; [by rewrite glob_nil_iff|].
  destruct t; try (rewrite glob_one_iff by done; split;
    [by intros (? & ? & ? & _)|by intros [? _]%Forall_cons]).
  rewrite Forall_cons, <- IH, glob_star_iff. split.
  - intros (s' & Hs%suffix_nil_inv & Hg). by subst.
  - intros [_ Hg]. by exists [].
Qed.

Lemma glob_star_star nc ts s : glob nc (TStar :: TStar :: ts) s <-> glob nc (TStar :: ts) s.
Proof.
  rewrite !glob_star_iff. split.
  - intros (s1 & H1 & (s2 & H2 & Hg)%glob_star_iff). exists s2. split; [by etrans|done].
  - intros (s1 & H1 & Hg). exists s1. split; [done|]. by constructor.
Qed.

Lemma parse_star p : parse (STAR :: p) = TStar :: parse p.
Proof. by rewrite parse_cons. Qed.

Lemma parse_head_star c p ts : parse (c :: p) = TStar :: ts -> c = STAR.
Proof. rewrite parse_cons. destruct (c =? STAR) eqn:E; zbool; [done|]. by repeat case_match. Qed.

Lemma strip_stars_spec nc p : strip_stars p = [] <-> glob nc (parse p) [].
Proof.
  induction p as [|c p IH]; [by rewrite glob_nil_iff|].
  cbn [strip_stars]. destruct (c =? STAR) eqn:E; zbool.
  - subst. rewrite IH, parse_star, !glob_empty_iff, Forall_cons. naive_solver.
  - split; [done|]. rewrite glob_empty_iff.
    destruct (parse (c :: p)) as [|t ts] eqn:Ep; [by apply parse_empty_inv in Ep|].
    intros [Ht _]%Forall_cons. destruct t; try done. by apply parse_head_star in Ep.
Qed.

(** A run of stars is one star, followed by something else. *)
Lemma collapse_stars_spec nc p :
  exists q, collapse_stars (STAR :: p) = STAR :: q /\ (length q <= length p)%nat /\
    (q <> [] -> ch q 0 <> STAR) /\ (stars (parse q) <= stars (parse p))%nat /\
    forall s, glob nc (parse (STAR :: p)) s <-> glob nc (TStar :: parse q) s.
Proof.
  induction p as [|c p IH].
  { exists []. split_and!; try done. }
  cbn [collapse_stars]. change (ch (STAR :: c :: p) 1) with c.
  destruct (c =? STAR) eqn:E; zbool.
  - subst. destruct IH as (q & Hq & Hlen & Hne & Hst & Hg). exists q. split_and!; auto.
    + simpl. lia.
    + rewrite parse_star. unfold stars in *. simpl. lia.
    + intros s. rewrite <- Hg, !parse_star. apply glob_star_star.
  - exists (c :: p). by split_and!.
Qed.

Lemma no_empty_match nc q : q <> [] -> ch q 0 <> STAR -> ~ glob nc (parse q) [].
Proof.
  intros Hq Hc. rewrite <- strip_stars_spec. destruct q as [|c q]; [done|]. simpl.
  change (ch (c :: q) 0) with c in Hc. by rewrite (proj2 (Z.eqb_neq c STAR) Hc).
Qed.

(** ** The matcher is correct *)

(** What a run of the matcher on [p] and [s] that ends with [b] and the flag
    [sk] says: the flag is set only when no suffix of the string can match. *)
Definition verdict (nc : bool) (ts : list token) (s : list Z) (b sk : bool) : Prop :=
  (b = true <-> glob nc ts s) /\
  (b = false -> sk = true -> forall s', s' `suffix_of` s -> ~ glob nc ts s').

Lemma verdict_token nc t ts c s b sk :
  is_star t = false -> token_matches nc t c = true ->
  verdict nc ts s b sk -> verdict nc (t :: ts) (c :: s) b sk.
Proof.
  intros Ht Hm [H1 H2]. split.
  - rewrite H1, glob_one_iff by done. split; [naive_solver|]. by intros (? & ? & [= <- <-] & _ & ?).
  - intros Hb Hsk s' Hs. rewrite glob_one_iff by done. intros (c' & s'' & -> & _ & Hg).
    apply (H2 Hb Hsk s''); [|done]. apply suffix_cons_inv in Hs as [[= -> ->]|Hs]; [done|].
    by eapply suffix_cons_l.
Qed.

Lemma verdict_mismatch nc t ts c s :
  is_star t = false -> token_matches nc t c = false -> verdict nc (t :: ts) (c :: s) false false.
Proof.
  intros Ht Hm. split; [|done]. split; [done|]. rewrite glob_one_iff by done.
  intros (? & ? & [= <- <-] & ? & _). congruence.
Qed.

(** The string is exhausted when the rest of the pattern is only stars. *)
Lemma verdict_end nc p b :
  b = (len (strip_stars p) =? 0) && (len [] =? 0) -> verdict nc (parse p) [] b false.
Proof.
  intros ->. split; [|done]. rewrite andb_true_r, len_zero, bool_decide_eq_true.
  apply strip_stars_spec.
Qed.

(** Trying the rest of the pattern at every position. [f] stands for the
    recursive call. *)
Lemma verdict_star nc q (f : list Z -> bool -> option (bool * bool)) :
  q <> [] -> ch q 0 <> STAR ->
  (forall s, s <> [] -> exists b sk, f s false = Some (b, sk) /\ verdict nc (parse q) s b sk) ->
  forall s, exists b sk,
    (fix star_loop (s : list Z) (skip : bool) : option (bool * bool) :=
       match s with
       | [] => Some (false, true)
       | _ :: s' =>
           '(r, skip) ← f s skip;
           if (r : bool) then Some (true, skip)
           else if (skip : bool) then Some (false, skip) else star_loop s' skip
       end) s false = Some (b, sk) /\ verdict nc (TStar :: parse q) s b sk.
Proof.
  intros Hq Hc Hf s. induction s as [|c s IH].
  { exists false, true. split; [done|].
    assert (Hno : ~ glob nc (TStar :: parse q) []).
    { rewrite glob_star_iff. intros (s' & ->%suffix_nil_inv & Hg). by apply (no_empty_match nc q). }
    split; [by split|]. by intros _ _ s' ->%suffix_nil_inv. }
  destruct (Hf (c :: s)) as (b & sk & -> & Hb & Hsk); [done|]. mstep.
  destruct b.
  { exists true, sk. split; [done|]. split; [|done]. split; [|done]. intros _.
    apply glob_star_iff. exists (c :: s). split; [done|]. by apply Hb. }
  destruct sk.
  { exists false, true. split; [done|].
    assert (Hno : forall s', s' `suffix_of` c :: s -> ~ glob nc (TStar :: parse q) s').
    { intros s' Hs (s'' & Hs' & Hg)%glob_star_iff. apply (Hsk eq_refl eq_refl s''); [|done]. by etrans. }
    split; [|by auto]. split; [done|]. intros Hg. by destruct (Hno (c :: s)). }
  destruct IH as (b & sk & -> & Hb' & Hsk'). exists b, sk. split; [done|].
  assert (Hstep : glob nc (TStar :: parse q) (c :: s) <-> glob nc (TStar :: parse q) s).
  { split; [|by constructor]. intros (s' & [->|Hs]%suffix_of_cons & Hg)%glob_star_iff.
    - apply Hb in Hg. done.
    - apply glob_star_iff. eauto. }
  split; [by rewrite Hstep|]. intros Hbf Hskt s' [->|Hs]%suffix_of_cons; [|by apply Hsk'].
  rewrite Hstep. by apply Hsk'.
Qed.

(** What the code does after a token, with the loop [rec] for the rest. *)
Lemma verdict_continue nc p s (rec : option (bool * bool)) :
  (s <> [] -> exists b sk, rec = Some (b, sk) /\ verdict nc (parse p) s b sk) ->
  exists b sk,
    (if len s =? 0 then Some ((len (strip_stars p) =? 0) && (len s =? 0), false) else rec)
      = Some (b, sk) /\ verdict nc (parse p) s b sk.
Proof.
  intros Hrec. rewrite (len_zero s). destruct s as [|c s].
  - rewrite bool_decide_true by done. do 2 eexists. split; [done|]. by apply verdict_end.
  - rewrite bool_decide_false by done. by apply Hrec.
Qed.

Lemma stars_cons t ts : (stars ts <= stars (t :: ts))%nat.
Proof. unfold stars. simpl. destruct (is_star t); simpl; lia. Qed.

(** Entering a class. *)
Lemma class_open_not p : negb (len p =? 0) && (ch p 0 =? CARET) = fst (class_open p).
Proof.
  rewrite len_zero. destruct p as [|d p]; [done|]. rewrite bool_decide_false by done.
  change (ch (d :: p) 0) with d. simpl. by destruct (d =? CARET).
Qed.

Lemma class_open_prev x p :
  exists prev, (if fst (class_open p) then (p, drop 1 p) else (x :: p, p))
      = (prev, snd (class_open p)) /\ drop 1 prev = snd (class_open p).
Proof.
  destruct p as [|d p]; [by exists [x]|].
  simpl. destruct (d =? CARET); simpl; rewrite ?drop_0; eauto.
Qed.

(** A literal character, possibly escaped. *)
Lemma char_entry x p :
  x <> STAR -> x <> QMARK -> x <> LBRACKET ->
  exists d q, (if (x =? BACKSLASH) && (len (x :: p) >=? 2) then p else x :: p) = d :: q /\
    parse (x :: p) = TChar d :: parse q /\ (length q <= length p)%nat.
Proof.
  intros H1 H2 H3. rewrite parse_cons.
  rewrite (proj2 (Z.eqb_neq x STAR)), (proj2 (Z.eqb_neq x QMARK)), (proj2 (Z.eqb_neq x LBRACKET)) by done.
  destruct ((x =? BACKSLASH) && (len (x :: p) >=? 2)) eqn:E; [|eauto].
  apply andb_true_iff in E as [_ E]. rewrite (len_ge _ 2 2) in E by done.
  destruct p as [|d p]; [done|]. exists d, p. cbn [drop]. rewrite drop_0.
  split_and!; [done|done|simpl; lia].
Qed.

Lemma match_loop_spec fuel nc nesting p s :
  (length p < fuel)%nat -> nesting + Z.of_nat (stars (parse p)) <= 1000 -> s <> [] ->
  exists b sk, match_loop fuel nc nesting p s false = Some (b, sk) /\
    verdict nc (parse p) s b sk.
Proof.
  revert nesting p s. induction fuel as [|fuel IH]; intros nesting p s Hf Hst Hs; [lia|].
  destruct s as [|c s]; [done|]. destruct p as [|x p].
  { exists false, false. split; [done|]. split; [|done]. split; [done|]. by rewrite parse_nil, glob_nil_iff. }
  (* the rest of the pattern after a token that is not a star *)
  assert (Hnext : forall t q, parse (x :: p) = t :: parse q -> (length q <= length p)%nat ->
    exists b sk, (if len s =? 0 then Some ((len (strip_stars q) =? 0) && (len s =? 0), false)
                  else match_loop fuel nc nesting q s false) = Some (b, sk) /\
      verdict nc (parse q) s b sk).
  { intros t q Hq Hlen. apply verdict_continue. intros Hs'. apply IH; [simpl in *; lia| |done].
    rewrite Hq in Hst. pose proof (stars_cons t (parse q)). lia. }
  cbn [match_loop]. rewrite (len_zero (x :: p)), (len_zero (c :: s)), !bool_decide_false by done.
  cbn [orb]. change (ch (x :: p) 0) with x. change (ch (c :: s) 0) with c. cbn [drop]. rewrite !drop_0.
  pose proof (parse_cons x p) as Hparse.
  destruct (x =? STAR) eqn:Estar; zbool.
  { subst x. destruct (collapse_stars_spec nc p) as (q & -> & Hlen & Hne & Hstq & Hg).
    cbn [drop]. rewrite !drop_0. unfold len. destruct q as [|y q].
    - exists true, false. split; [done|]. split; [|done]. split; [|done]. intros _.
      rewrite Hg, parse_nil, glob_star_iff. exists []. split; [by exists (c :: s); rewrite app_nil_r|constructor].
    - rewrite (proj2 (Z.eqb_neq _ _)) by (simpl; lia).
      assert (Hst' : nesting + 1 + Z.of_nat (stars (parse (y :: q))) <= 1000).
      { rewrite Hparse in Hst. unfold stars in *. simpl in Hst. simpl. lia. }
      rewrite Z.gtb_ltb, (proj2 (Z.ltb_ge _ _)) by lia.
      destruct (verdict_star nc (y :: q)
        (fun s skip => match_loop fuel nc (nesting + 1) (y :: q) s skip)) with (s := c :: s)
        as (b & sk & -> & Hb & Hsk); [done|by apply Hne| |].
      { intros s' Hs'. apply IH; [simpl in *; lia|done|done]. }
      exists b, sk. split; [done|]. split; [by rewrite Hg|].
      intros ? ? s' ?. rewrite Hg. auto. }
  destruct (x =? QMARK) eqn:Eq; zbool.
  { destruct (Hnext TAny p Hparse) as (b & sk & Hr & Hv); [done|]. rewrite Hr.
    exists b, sk. split; [done|]. rewrite Hparse. by apply verdict_token. }
  destruct (x =? LBRACKET) eqn:Ebr; zbool.
  { pose proof (class_open_length p) as Hol. pose proof (class_items_rest (snd (class_open p))) as Hcl.
    set (items := fst (class_items (snd (class_open p)))) in *.
    set (rest := snd (class_items (snd (class_open p)))) in *.
    rewrite class_open_not. destruct (class_open_prev x p) as (prev & -> & Hprev).
    destruct (class_loop_spec (S (length (snd (class_open p)))) nc c prev (snd (class_open p)) false)
      as (q & -> & Hq); [lia|done|]. mstep. fold items. rewrite Hq. fold rest.
    cbn [orb]. set (m := existsb _ items).
    assert (Htok : token_matches nc (TClass (fst (class_open p)) items) c =
      if fst (class_open p) then negb m else m).
    { simpl. fold m. by destruct (fst (class_open p)), m. }
    destruct (if fst (class_open p) then negb m else m) eqn:Em; cbn [negb].
    - destruct (Hnext _ rest Hparse) as (b & sk & -> & Hv); [lia|].
      exists b, sk. split; [done|]. rewrite Hparse. by apply verdict_token.
    - exists false, false. split; [done|]. rewrite Hparse. by apply verdict_mismatch. }
  destruct (char_entry x p) as (d & q & -> & Hp & Hlen); [done..|]. change (ch (d :: q) 0) with d. cbn [drop]. rewrite drop_0.
  destruct (same_char nc d c) eqn:Esame; cbn [negb].
  - destruct (Hnext _ q Hp) as (b & sk & -> & Hv); [done|].
    exists b, sk. split; [done|]. rewrite Hp. by apply verdict_token.
  - exists false, false. split; [done|]. rewrite Hp. by apply verdict_mismatch.
Qed.

(** The executable matcher from its top. *)
Lemma stringmatchlen_impl_spec p s nc :
  (stars (parse p) <= 1000)%nat ->
  exists b sk, stringmatchlen_impl p s nc false 0 = Some (b, sk) /\
    (b = true <-> (s = [] -> p = []) /\ glob nc (parse p) s).
Proof.
  intros Hst. unfold stringmatchlen_impl. change (0 >? 1000) with false. cbv iota.
  destruct s as [|c s].
  - cbn [match_loop]. rewrite (len_zero []), (bool_decide_true ([] = [])), orb_true_r, andb_true_r by done.
    do 2 eexists. split; [done|]. rewrite len_zero, bool_decide_eq_true. split.
    + intros ->. split; [done|constructor].
    + intros [H _]. by apply H.
  - destruct (match_loop_spec (S (length p)) nc 0 p (c :: s)) as (b & sk & -> & Hb & _);
      [lia|lia|done|].
    exists b, sk. split; [done|]. rewrite Hb. naive_solver.
Qed.

(** C31: [stringmatchlen], with its nesting protection and its early exit
    through [skipLongerMatches], decides the declarative meaning of the
    pattern: it always returns, it never goes out of fuel, and it returns 1
    exactly when the string is in the language of the pattern, for patterns of
    up to 1000 stars; the empty string is accepted only by the empty
    pattern. (Of the code this holds for lengths that fit its [int] and
    patterns that a NUL follows.) *)
Theorem stringmatchlen_correct p s nc :
  (stars (parse p) <= 1000)%nat ->
  exists b, stringmatchlen p s nc = Some b /\
    (b = true <-> (s = [] -> p = []) /\ glob nc (parse p) s).
Proof.
  intros Hst. destruct (stringmatchlen_impl_spec p s nc Hst) as (b & sk & Hr & Hb).
  exists b. unfold stringmatchlen. rewrite Hr. done.
Qed.

Lemma glob_extend nc ts s ext : glob nc (ts ++ [TStar]) s -> glob nc (ts ++ [TStar]) (s ++ ext).
Proof.
  remember (ts ++ [TStar]) as l eqn:El. intros H. revert ts El.
  induction H as [|t l c s Ht Hg IH|l s Hg IH|l c s Hg IH]; intros ts El.
  - by destruct ts.
  - destruct ts as [|t' ts]; simplify_eq/=; constructor; [done|]. by eapply IH.
  - destruct ts as [|t' ts]; simplify_eq/=.
    + apply glob_star_iff. exists []. split; [by exists (s ++ ext); rewrite app_nil_r|constructor].
    + apply glob_star_stop. by eapply IH.
  - simpl. apply glob_star_more. by eapply IH.
Qed.

(** When [prefixmatch] accepts a prefix for a pattern whose last token is
    a star, the pattern matches every string that starts with that prefix. *)
Theorem prefixmatch_sound p pre ext nc :
  (stars (parse p) <= 1000)%nat -> last (parse p) = Some TStar ->
  prefixmatch p pre nc = Some true -> stringmatchlen p (pre ++ ext) nc = Some true.
Proof.
  intros Hst [ts Hlast]%last_Some. unfold prefixmatch.
  destruct (stringmatchlen_impl_spec p pre nc Hst) as (b & sk & -> & Hb). mstep.
  destruct b; [|done]. cbn [negb]. destruct (_ || _) eqn:E; [done|]. intros _.
  destruct (proj1 Hb eq_refl) as [Hne Hg].
  destruct (stringmatchlen_impl_spec p (pre ++ ext) nc Hst) as (b' & sk' & Hr & Hb').
  unfold stringmatchlen. rewrite Hr. simpl. f_equal. apply Hb'. split.
  - intros [-> ->]%app_nil. by apply Hne.
  - rewrite Hlast in *. by apply glob_extend.
Qed.

(** Two behaviours of the code to know about. *)

(** The empty string is not matched by a star. *)
Example star_rejects_empty :
  stringmatchlen (bytes_of_string "*"%string) [] false = Some false /\
  glob false (parse (bytes_of_string "*"%string)) [].
Proof. split; [reflexivity|]. constructor. constructor. Qed.

(** In an unterminated class, [prefixmatch] takes a star of the class for the
    final star of the pattern: it accepts "a" for "[a*", which matches no
    longer string. *)
Example prefixmatch_unterminated_class :
  prefixmatch (bytes_of_string "[a*"%string) (bytes_of_string "a"%string) false = Some true /\
  stringmatchlen (bytes_of_string "[a*"%string) (bytes_of_string "ab"%string) false = Some false.
Proof. vm_compute. auto. Qed.

(** An escaped character of a class ignores [nocase]. *)
Example escaped_class_case :
  stringmatchlen (bytes_of_string "[\a]"%string) (bytes_of_string "A"%string) true = Some false /\
  stringmatchlen (bytes_of_string "[a]"%string) (bytes_of_string "A"%string) true = Some true.
Proof. vm_compute. auto. Qed.

(** ** Witnesses *)

Definition ex_pattern : list Z := bytes_of_string "h*l[^a-k]?*"%string.

Lemma stringmatchlen_correct_witness :
  exists b, stringmatchlen ex_pattern (bytes_of_string "hello world"%string) false = Some b /\
    (b = true <-> (bytes_of_string "hello world"%string = [] -> ex_pattern = []) /\
       glob false (parse ex_pattern) (bytes_of_string "hello world"%string)).
Proof. apply stringmatchlen_correct. vm_compute. lia. Defined.

Lemma prefixmatch_sound_witness :
  stringmatchlen ex_pattern (bytes_of_string "hello "%string ++ bytes_of_string "world"%string) false
    = Some true.
Proof.
  apply (prefixmatch_sound ex_pattern); [vm_compute; lia|reflexivity|vm_compute; reflexivity].
Defined.
