(* ===== verification/Lzf.v ===== *)
(** * LZF compression ([lzf_c.c], [lzf_d.c])

    The configuration is the one of [lzfP.h]: [HLOG] 16, [VERY_FAST], an
    uninitialised hash table ([INIT_HTAB] 0) of pointers, [CHECK_INPUT].
    Pointers in the input and output buffers are their offsets. The hash
    table starts with arbitrary pointers: the argument [htab]. *)

From S2P Require Import Prelude.

#[local] Open Scope Z_scope.

(** ** Decompression *)

Inductive lzf_result :=
| LzfOk (n : Z)
| LzfE2BIG
| LzfEINVAL.

(** [do *op++ = *ref++; while (--len);] on the same buffer *)
Fixpoint copy_back (n : nat) (out : list Z) (op ref : Z) : option (list Z) :=
  match n with
  | O => Some out
  | S n => b ← rd out ref; out ← mstore out op [b]; copy_back n out (op + 1) (ref + 1)
  end.

(** The [switch (len)] of a back reference: the buffer after [len+2] bytes. *)
Definition copy_ref (out : list Z) (op ref len : Z) : option (list Z) :=
  if len >? 9 then
    let len := len + 2 in
    if op >=? ref + len then bs ← mload out ref len; mstore out op bs
    else copy_back (Z.to_nat len) out op ref
  else copy_back (Z.to_nat (len + 2)) out op ref.

(** [in_data] and the buffer at [out_data]; [ip] grows at every turn. *)
Fixpoint decompress_loop (fuel : nat) (inp out : list Z) (ip op : Z)
    : option (lzf_result * list Z) :=
  let in_end := Z.of_nat (length inp) in
  let out_end := Z.of_nat (length out) in
  if ip <? in_end then
    match fuel with
    | O => None
    | S fuel =>
        ctrl ← rd inp ip;
        let ip := ip + 1 in
        if ctrl <? Z.shiftl 1 5 then
          let ctrl := ctrl + 1 in
          if op + ctrl >? out_end then Some (LzfE2BIG, out) else
          if ip + ctrl >? in_end then Some (LzfEINVAL, out) else
          bs ← mload inp ip ctrl;
          out ← mstore out op bs;
          decompress_loop fuel inp out (ip + ctrl) (op + ctrl)
        else
          let len := Z.shiftr ctrl 5 in
          let ref := op - Z.shiftl (Z.land ctrl 0x1f) 8 - 1 in
          if ip >=? in_end then Some (LzfEINVAL, out) else
          l1 ← (if len =? 7 then b ← rd inp ip; Some (len + b, ip + 1) else Some (len, ip));
          let '(len, ip1) := l1 in
          if (Z.shiftr ctrl 5 =? 7) && (ip1 >=? in_end) then Some (LzfEINVAL, out) else
          b ← rd inp ip1;
          let ref := ref - b in
          let ip := ip1 + 1 in
          if op + len + 2 >? out_end then Some (LzfE2BIG, out) else
          if ref <? 0 then Some (LzfEINVAL, out) else
          out ← copy_ref out op ref len;
          decompress_loop fuel inp out ip (op + len + 2)
    end
  else Some (LzfOk op, out).

Definition lzf_decompress (inp out : list Z) : option (lzf_result * list Z) :=
  decompress_loop (length inp) inp out 0 0.

(** ** Compression *)

Definition MAX_LIT : Z := Z.shiftl 1 5.
Definition MAX_OFF : Z := Z.shiftl 1 13.
Definition MAX_REF : Z := Z.shiftl 1 8 + Z.shiftl 1 3.
Definition HLOG : Z := 16.

Definition FRST (inp : list Z) (p : Z) : option Z :=
  a ← rd inp p; b ← rd inp (p + 1); Some (Z.lor (Z.shiftl a 8) b).
Definition NEXT (v : Z) (inp : list Z) (p : Z) : option Z :=
  c ← rd inp (p + 2); Some (Z.lor (u32 (Z.shiftl v 8)) c).
Definition IDX (h : Z) : Z :=
  Z.land (u32 (Z.shiftr h (3 * 8 - HLOG) - u32 (h * 5))) (Z.shiftl 1 HLOG - 1).

(** [htab[i] = p] *)
Definition hset (htab : Z -> Z) (i p : Z) : Z -> Z := fun j => if j =? i then p else htab j.

(** The unrolled [len++; if (ref[len] != ip[len]) break;]: whether it broke,
    and [len]. *)
Fixpoint unrolled (n : nat) (inp : list Z) (ref ip len : Z) : option (bool * Z) :=
  match n with
  | O => Some (false, len)
  | S n =>
      let len := len + 1 in
      a ← rd inp (ref + len); b ← rd inp (ip + len);
      if negb (a =? b) then Some (true, len) else unrolled n inp ref ip len
  end.

(** [do len++; while (len < maxlen && ref[len] == ip[len]);] *)
Fixpoint extend_match (fuel : nat) (inp : list Z) (ref ip maxlen len : Z) : option Z :=
  match fuel with
  | O => None
  | S fuel =>
      let len := len + 1 in
      if len <? maxlen then
        a ← rd inp (ref + len); b ← rd inp (ip + len);
        if a =? b then extend_match fuel inp ref ip maxlen len else Some len
      else Some len
  end.

(** The number of matching bytes, from the three already compared. *)
Definition match_length (inp : list Z) (ref ip : Z) : option Z :=
  let in_end := Z.of_nat (length inp) in
  let len := 2 in
  let maxlen := in_end - ip - len in
  let maxlen := if maxlen >? MAX_REF then MAX_REF else maxlen in
  if maxlen >? 16 then
    '(broke, len) ← unrolled 16 inp ref ip len;
    if (broke : bool) then Some len else extend_match (Z.to_nat MAX_REF) inp ref ip maxlen len
  else extend_match (Z.to_nat MAX_REF) inp ref ip maxlen len.

(** The condition of the match; the bytes are read only when the reference is
    usable. *)
Definition match_found (inp : list Z) (ref ip : Z) : option bool :=
  let off := u64 (ip - ref - 1) in
  if (off <? MAX_OFF) && (ref >? 0) then
    r2 ← rd inp (ref + 2); i2 ← rd inp (ip + 2);
    if r2 =? i2 then
      r0 ← rd inp ref; r1 ← rd inp (ref + 1); i0 ← rd inp ip; i1 ← rd inp (ip + 1);
      Some ((r0 =? i0) && (r1 =? i1))
    else Some false
  else Some false.

(** The result of the loop: it returned 0, or it ended with these [ip], [op],
    [lit] and output. *)
Definition compress_state : Type := Z * Z * Z * list Z.

(** [op[-lit-1] = lit-1; lit = 0; op++] when the run is full *)
Definition full_run (out : list Z) (op lit : Z) : option (list Z * Z * Z) :=
  if lit =? MAX_LIT then
    out ← wr out (op - lit - 1) (lit - 1); Some (out, op + 1, 0)
  else Some (out, op, lit).

(** The two or three bytes of a back reference, and [op] after them *)
Definition write_ref (out : list Z) (op off len : Z) : option (list Z * Z) :=
  '(out, op) ←
    (if len <? 7 then
       out ← wr out op (Z.shiftr off 8 + Z.shiftl len 5); Some (out, op + 1)
     else
       out ← wr out op (Z.shiftr off 8 + Z.shiftl 7 5);
       out ← wr out (op + 1) (len - 7); Some (out, op + 2));
  out ← wr out op off;
  Some (out, op + 1).

Fixpoint compress_loop (fuel : nat) (inp out : list Z) (htab : Z -> Z) (hval ip op lit : Z)
    : option (option compress_state) :=
  let in_end := Z.of_nat (length inp) in
  let out_end := Z.of_nat (length out) in
  if ip <? in_end - 2 then
    match fuel with
    | O => None
    | S fuel =>
        hval ← NEXT hval inp ip;
        let ref := htab (IDX hval) in
        let htab := hset htab (IDX hval) ip in
        found ← match_found inp ref ip;
        if (found : bool) then
          let off := u64 (ip - ref - 1) in
          let nolit := if lit =? 0 then 1 else 0 in
          if (op + 3 + 1 >=? out_end) && (op - nolit + 3 + 1 >=? out_end) then Some None else
          out ← wr out (op - lit - 1) (lit - 1);
          let op := op - nolit in
          len ← match_length inp ref ip;
          let len := len - 2 in
          let ip := ip + 1 in
          '(out, op) ← write_ref out op off len;
          let op := op + 1 in
          let ip := ip + len + 1 in
          if ip >=? in_end - 2 then Some (Some (ip, op, 0, out)) else
          let ip := ip - 2 in
          hval ← FRST inp ip;
          hval ← NEXT hval inp ip;
          let htab := hset htab (IDX hval) ip in
          let ip := ip + 1 in
          hval ← NEXT hval inp ip;
          let htab := hset htab (IDX hval) ip in
          let ip := ip + 1 in
          compress_loop fuel inp out htab hval ip op 0
        else
          if op >=? out_end then Some None else
          b ← rd inp ip;
          out ← wr out op b;
          '(out, op, lit) ← full_run out (op + 1) (lit + 1);
          compress_loop fuel inp out htab hval (ip + 1) op lit
    end
  else Some (Some (ip, op, lit, out)).

(** [while (ip < in_end) ...] *)
Fixpoint tail_loop (fuel : nat) (inp out : list Z) (ip op lit : Z) : option (list Z * Z * Z) :=
  if ip <? Z.of_nat (length inp) then
    match fuel with
    | O => None
    | S fuel =>
        b ← rd inp ip;
        out ← wr out op b;
        '(out, op, lit) ← full_run out (op + 1) (lit + 1);
        tail_loop fuel inp out (ip + 1) op lit
    end
  else Some (out, op, lit).

(** The value returned and the output buffer when it is not 0. *)
Definition lzf_compress (htab : Z -> Z) (inp out : list Z) : option (option (Z * list Z)) :=
  let in_len := Z.of_nat (length inp) in
  let out_len := Z.of_nat (length out) in
  if (in_len =? 0) || (out_len =? 0) then Some None else
  hval ← FRST inp 0;
  r ← compress_loop (length inp) inp out htab hval 0 1 0;
  match r with
  | None => Some None
  | Some (ip, op, lit, out) =>
      if op + 3 >? out_len then Some None else
      '(out, op, lit) ← tail_loop (length inp) inp out ip op lit;
      out ← wr out (op - lit - 1) (lit - 1);
      let op := op - (if lit =? 0 then 1 else 0) in
      Some (Some (op, out))
  end.

(** ** The format

    What the compressor emits and the decompressor reads is a sequence of
    tokens: a run of literal bytes or a reference to [L] bytes that start
    [off+1] bytes back. *)

Inductive token :=
| Lit (l : list Z)
| Ref (off L : Z).

Definition token_wf (t : token) : Prop :=
  match t with
  | Lit l => (1 <= length l <= 32)%nat
  | Ref off L => 0 <= off < MAX_OFF /\ 3 <= L <= MAX_REF
  end.

Definition token_bytes (t : token) : list Z :=
  match t with
  | Lit l => Z.of_nat (length l) - 1 :: l
  | Ref off L =>
      let len := L - 2 in
      if len <? 7 then [off / 256 + len * 32; off mod 256]
      else [off / 256 + 224; len - 7; off mod 256]
  end.

Definition stream (ts : list token) : list Z := ts ≫= token_bytes.

(** [n] times, the byte [off+1] back of the end of [D] is appended. *)
Fixpoint ref_copy (n : nat) (D : list Z) (off : Z) : option (list Z) :=
  match n with
  | O => Some D
  | S n => b ← rd D (Z.of_nat (length D) - off - 1); ref_copy n (D ++ [b]) off
  end.

(** The data a sequence of tokens stands for, after the data [D]. *)
Fixpoint expand (ts : list token) (D : list Z) : option (list Z) :=
  match ts with
  | [] => Some D
  | Lit l :: ts => expand ts (D ++ l)
  | Ref off L :: ts => D ← ref_copy (Z.to_nat L) D off; expand ts D
  end.

Lemma stream_app ts us : stream (ts ++ us) = stream ts ++ stream us.
Proof. apply bind_app. Qed.

Lemma stream_cons t ts : stream (t :: ts) = token_bytes t ++ stream ts.
Proof. done. Qed.

Lemma expand_app ts us D : expand (ts ++ us) D = expand ts D ≫= expand us.
Proof.
  revert D. induction ts as [|[l|off L] ts IH]; intros D; simpl; auto.
  destruct (ref_copy _ D off); simpl; auto.
Qed.

(** *** The copies *)

Lemma ref_copy_length n D off D' :
  ref_copy n D off = Some D' -> length D' = (length D + n)%nat.
Proof.
  revert D. induction n as [|n IH]; intros D; simpl.
  - intros [= ->]. lia.
  - destruct (rd D _) as [b|]; simpl; [|done].
    intros ->%IH. rewrite length_app. simpl. lia.
Qed.

Lemma copy_back_spec n D R off D' :
  0 <= off -> (n <= length R)%nat -> ref_copy n D off = Some D' ->
  copy_back n (D ++ R) (Z.of_nat (length D)) (Z.of_nat (length D) - off - 1)
  = Some (D' ++ drop n R).
Proof.
  intros Hoff. revert D R. induction n as [|n IH]; intros D R Hn HD.
  - simpl in *. by simplify_eq.
  - cbn [ref_copy copy_back] in *.
    destruct (rd D _) as [b|] eqn:Hb; mstep in *; [|done].
    rewrite rd_app_l, Hb by lia. mstep.
    destruct R as [|r R]; [simpl in Hn; lia|].
    rewrite (mstore_app_mid D [r] [b] R) by done. mstep.
    specialize (IH (D ++ [b]) R ltac:(simpl in Hn; lia) HD).
    rewrite length_app, <- app_assoc in IH. cbn [length app] in *.
    replace (Z.of_nat (length D) + 1) with (Z.of_nat (length D + 1)) by lia.
    replace (Z.of_nat (length D) - off - 1 + 1)
      with (Z.of_nat (length D + 1) - off - 1) by lia.
    rewrite IH. done.
Qed.

(** A copy that does not overlap is a block copy. *)
Lemma ref_copy_disjoint n D off D' :
  0 <= off -> Z.of_nat n <= off + 1 -> ref_copy n D off = Some D' ->
  D' = D ++ take n (drop (Z.to_nat (Z.of_nat (length D) - off - 1)) D).
Proof.
  intros Hoff. revert D. induction n as [|n IH]; intros D Hn HD; cbn [ref_copy] in HD.
  - simplify_eq. rewrite take_0. by rewrite app_nil_r.
  - destruct (rd D _) as [b|] eqn:Hb; mstep in HD; [|done].
    apply IH in HD; [|lia]. subst D'.
    apply rd_inv in Hb as [Hr Hb]. rewrite length_app. simpl length.
    rewrite (drop_S _ _ _ Hb), <- app_assoc. f_equal. cbn [app take]. f_equal.
    replace (Z.to_nat (Z.of_nat (length D + 1) - off - 1))
      with (S (Z.to_nat (Z.of_nat (length D) - off - 1))) by lia.
    rewrite drop_app_le by lia. rewrite take_app_le; [done|].
    rewrite length_drop. lia.
Qed.

Lemma copy_ref_spec D R off L D' :
  0 <= off -> 2 <= L <= Z.of_nat (length R) -> ref_copy (Z.to_nat L) D off = Some D' ->
  copy_ref (D ++ R) (Z.of_nat (length D)) (Z.of_nat (length D) - off - 1) (L - 2)
  = Some (D' ++ drop (Z.to_nat L) R).
Proof.
  intros Hoff HL HD. unfold copy_ref. replace (L - 2 + 2) with L by lia.
  destruct (L - 2 >? 9) eqn:E9; [|by apply copy_back_spec; [done|lia|]].
  destruct (_ >=? _) eqn:Eo; [|by apply copy_back_spec; [done|lia|]]. zbool.
  pose proof (ref_copy_disjoint (Z.to_nat L) D off D' Hoff ltac:(lia) HD) as ->.
  destruct (Z.to_nat L) as [|n] eqn:En; [lia|]. cbn [ref_copy] in HD.
  destruct (rd D _) as [b|] eqn:Hb; [|done]. apply rd_inv in Hb as [Hb _].
  rewrite mload_Some by (rewrite ?length_app; lia). mstep.
  rewrite drop_app_le, take_app_le by (rewrite ?length_drop; lia).
  rewrite <- (take_drop (S n) R) at 1.
  rewrite (mstore_app_mid D); [by rewrite <- app_assoc, En|done|].
  rewrite !length_take, length_drop. lia.
Qed.

(** *** Reading a token *)

Lemma ctrl_fields h len :
  0 <= h < 32 -> 0 <= len ->
  Z.shiftr (h + len * 32) 5 = len /\ Z.land (h + len * 32) 0x1f = h.
Proof.
  intros Hh Hlen. rewrite Z.shiftr_div_pow2 by lia.
  change 0x1f with (Z.ones 5). rewrite Z.land_ones by lia. change (2 ^ 5) with 32.
  rewrite Z.div_add, Z.div_small, Z.mod_add, Z.mod_small by lia. lia.
Qed.

Lemma token_bytes_nonempty t : (1 <= length (token_bytes t))%nat.
Proof. destruct t; simpl; [lia|]. destruct (_ <? _); simpl; lia. Qed.

Lemma decompress_lit fuel pre l post D R :
  (1 <= length l <= 32)%nat -> (length l <= length R)%nat ->
  decompress_loop (S fuel) (pre ++ token_bytes (Lit l) ++ post) (D ++ R)
    (Z.of_nat (length pre)) (Z.of_nat (length D))
  = decompress_loop fuel ((pre ++ token_bytes (Lit l)) ++ post) ((D ++ l) ++ drop (length l) R)
    (Z.of_nat (length (pre ++ token_bytes (Lit l)))) (Z.of_nat (length (D ++ l))).
Proof.
  intros Hl HR. cbn [token_bytes]. rewrite <- !app_assoc.
  remember (decompress_loop fuel) as k eqn:Hk. cbn [decompress_loop]. rewrite <- Hk.
  cbn [app]. rewrite !length_app. cbn [length]. rewrite !length_app.
  destruct (Z.ltb_spec (Z.of_nat (length pre))
    (Z.of_nat (length pre + S (length l + length post)))); [|lia].
  rewrite (rd_mid pre _ _ (Z.of_nat (length pre))) by done. mstep.
  change (Z.shiftl 1 5) with 32. destruct (Z.ltb_spec (Z.of_nat (length l) - 1) 32); [|lia].
  zcase; [lia|]. zcase; [lia|].
  rewrite cons_middle, app_assoc.
  rewrite (mload_app_mid (pre ++ [_]) l post) by (rewrite ?length_app; simpl; lia).
  mstep.
  rewrite <- (take_drop (length l) R) at 1.
  rewrite (mstore_app_mid D) by (rewrite ?length_take; lia). mstep.
  rewrite <- app_assoc. f_equal; lia.
Qed.

Lemma decompress_ref fuel pre off L post D R D' :
  0 <= off < MAX_OFF -> 3 <= L <= MAX_REF -> L <= Z.of_nat (length R) ->
  ref_copy (Z.to_nat L) D off = Some D' ->
  decompress_loop (S fuel) (pre ++ token_bytes (Ref off L) ++ post) (D ++ R)
    (Z.of_nat (length pre)) (Z.of_nat (length D))
  = decompress_loop fuel ((pre ++ token_bytes (Ref off L)) ++ post)
      (D' ++ drop (Z.to_nat L) R)
      (Z.of_nat (length (pre ++ token_bytes (Ref off L)))) (Z.of_nat (length D')).
Proof.
  change MAX_OFF with 8192. change MAX_REF with 264. intros Hoff HL HR HD.
  assert (0 <= off / 256 < 32) by (split; [apply Z.div_pos; lia|apply Z.div_lt_upper_bound; lia]).
  pose proof (Z.mod_pos_bound off 256 ltac:(lia)).
  pose proof (Z.div_mod off 256 ltac:(lia)) as Hdm.
  pose proof (ref_copy_length _ _ _ _ HD) as HlD.
  assert (0 <= Z.of_nat (length D) - off - 1).
  { destruct (Z.to_nat L) as [|n] eqn:En; [lia|]. cbn [ref_copy] in HD.
    destruct (rd D _) eqn:Hb; [|done]. apply rd_inv in Hb. lia. }
  rewrite <- !app_assoc. set (inp := pre ++ token_bytes (Ref off L) ++ post).
  remember (decompress_loop fuel) as k eqn:Hk. cbn [decompress_loop]. rewrite <- Hk.
  assert (Hgo : forall n, L - 2 = n ->
    copy_ref (D ++ R) (Z.of_nat (length D)) (Z.of_nat (length D) - off / 256 * 256 - 1 - off mod 256) n
    = Some (D' ++ drop (Z.to_nat L) R)).
  { intros n <-. replace (_ - 1 - _) with (Z.of_nat (length D) - off - 1) by lia.
    apply copy_ref_spec; [lia|lia|done]. }
  cbn [token_bytes] in inp |- *. destruct (L - 2 <? 7) eqn:E7; zbool.
  - destruct (ctrl_fields (off / 256) (L - 2)) as [Hs Hm]; [lia|lia|].
    unfold inp in *. cbn [app]. rewrite !length_app. cbn [length].
    zcase; [|lia]. rewrite (rd_mid pre _ _ (Z.of_nat (length pre))) by done. mstep.
    change (Z.shiftl 1 5) with 32. zcase; [lia|]. zcase; [lia|]. rewrite !Hs, Hm.
    zcase; [lia|]. cbn [mbind option_bind andb].
    rewrite cons_middle, app_assoc, rd_mid by (rewrite length_app; simpl; lia).
    mstep. zcase; [lia|].
    rewrite Z.shiftl_mul_pow2 by lia. change (2 ^ 8) with 256.
    zcase; [lia|]. rewrite Hgo by lia. mstep.
    rewrite <- app_assoc. f_equal; lia.
  - destruct (ctrl_fields (off / 256) 7) as [Hs Hm]; [lia|lia|]. change (7 * 32) with 224 in *.
    unfold inp in *. cbn [app]. rewrite !length_app. cbn [length].
    zcase; [|lia]. rewrite (rd_mid pre _ _ (Z.of_nat (length pre))) by done. mstep.
    change (Z.shiftl 1 5) with 32. zcase; [lia|]. zcase; [lia|]. rewrite !Hs, Hm.
    change (7 =? 7) with true. cbv iota.
    rewrite cons_middle, app_assoc, rd_mid by (rewrite length_app; simpl; lia).
    cbn [mbind option_bind andb]. zcase; [lia|].
    rewrite cons_middle, app_assoc, rd_mid by (rewrite !length_app; simpl; lia).
    mstep. zcase; [lia|].
    rewrite Z.shiftl_mul_pow2 by lia. change (2 ^ 8) with 256.
    zcase; [lia|]. rewrite Hgo by lia. mstep.
    rewrite <- !app_assoc. f_equal; lia.
Qed.

Lemma expand_length ts D D' : expand ts D = Some D' -> (length D <= length D')%nat.
Proof.
  revert D. induction ts as [|[l|off L] ts IH]; intros D; simpl.
  - intros [= ->]. done.
  - intros H%IH. rewrite length_app in H. lia.
  - destruct (ref_copy _ D off) eqn:HD; simpl; [|done].
    apply ref_copy_length in HD. intros H%IH. lia.
Qed.

(** Decompressing a stream of tokens gives the data it stands for. *)
Lemma decompress_stream ts fuel pre D R D' :
  Forall token_wf ts -> expand ts D = Some D' ->
  (length D' <= length D + length R)%nat -> (length ts <= fuel)%nat ->
  decompress_loop fuel (pre ++ stream ts) (D ++ R)
    (Z.of_nat (length pre)) (Z.of_nat (length D))
  = Some (LzfOk (Z.of_nat (length D')), D' ++ drop (length D' - length D) R).
Proof.
  revert fuel pre D R. induction ts as [|t ts IH]; intros fuel pre D R Hwf HD Hlen Hfuel.
  - cbn in HD. simplify_eq. rewrite Nat.sub_diag, drop_0.
    destruct fuel; simpl; rewrite app_nil_r, Z.ltb_irrefl; done.
  - apply Forall_cons in Hwf as [Ht Hwf].
    destruct fuel as [|fuel]; [simpl in Hfuel; lia|]. rewrite stream_cons.
    pose proof (expand_length _ _ _ HD) as Hle.
    destruct t as [l|off L]; cbn [expand token_wf] in *.
    + pose proof (expand_length _ _ _ HD) as Hle2. rewrite length_app in Hle2.
      rewrite decompress_lit by lia.
      rewrite IH; [|done|done|rewrite length_app, length_drop; lia|simpl in Hfuel; lia].
      do 3 f_equal. rewrite length_app, drop_drop. f_equal. lia.
    + destruct (ref_copy _ D off) as [D1|] eqn:HD1; mstep in HD; [|done].
      pose proof (ref_copy_length _ _ _ _ HD1).
      pose proof (expand_length _ _ _ HD) as Hle2.
      rewrite (decompress_ref _ _ _ _ _ _ _ D1) by (try done; try lia).
      rewrite IH; [|done|done|rewrite length_drop; lia|simpl in Hfuel; lia].
      do 3 f_equal. rewrite drop_drop. f_equal. lia.
Qed.

(** *** Safety of the decompressor *)

Lemma copy_back_safe n out op ref :
  0 <= ref < op -> op + Z.of_nat n <= Z.of_nat (length out) ->
  exists out', copy_back n out op ref = Some out' /\ length out' = length out.
Proof.
  revert out op ref. induction n as [|n IH]; intros out op ref Href Hop; simpl; eauto.
  destruct (rd_Some out ref) as (b & -> & _); [lia|]. simpl.
  destruct (mstore out op [b]) as [out1|] eqn:E.
  - simpl. pose proof (mstore_length _ _ _ _ E) as <-. apply IH; [lia|].
    rewrite (mstore_length _ _ _ _ E). lia.
  - rewrite mstore_Some in E by (simpl; lia). done.
Qed.

Lemma copy_ref_safe out op ref len :
  0 <= ref < op -> 0 <= len -> op + len + 2 <= Z.of_nat (length out) ->
  exists out', copy_ref out op ref len = Some out' /\ length out' = length out.
Proof.
  intros Href Hlen Hop. unfold copy_ref.
  destruct (len >? 9); [|apply copy_back_safe; lia].
  destruct (op >=? ref + (len + 2)); [|apply copy_back_safe; lia].
  rewrite mload_Some by lia. mstep.
  rewrite mstore_Some by (rewrite ?length_take, ?length_drop; lia).
  eexists. split; [done|]. rewrite !length_app, !length_take, !length_drop. lia.
Qed.

Definition lzf_safe (out : list Z) (r : option (lzf_result * list Z)) : Prop :=
  exists res out', r = Some (res, out') /\ length out' = length out /\
    (forall n, res = LzfOk n -> 0 <= n <= Z.of_nat (length out)).

Lemma lzf_safe_error out e : (forall n, e <> LzfOk n) -> lzf_safe out (Some (e, out)).
Proof. intros He. exists e, out. split_and!; [done..|]. intros n ->. by edestruct He. Qed.

Lemma lzf_safe_length out1 out r :
  length out1 = length out -> lzf_safe out1 r -> lzf_safe out r.
Proof. unfold lzf_safe. intros ->. done. Qed.

Lemma decompress_loop_safe fuel inp out ip op :
  Forall is_byte inp -> 0 <= ip -> 0 <= op <= Z.of_nat (length out) ->
  Z.of_nat (length inp) - ip <= Z.of_nat fuel ->
  lzf_safe out (decompress_loop fuel inp out ip op).
Proof.
  intros Hinp. revert out ip op.
  assert (Hb : forall i b, rd inp i = Some b -> 0 <= b < 256).
  { intros i b [_ H]%rd_inv. by eapply Forall_lookup in Hinp. }
  induction fuel as [|fuel IH]; intros out ip op Hip Hop Hf; cbn [decompress_loop].
  { zcase; [lia|]. exists (LzfOk op), out. split_and!; [done..|]. intros n [= <-]; lia. }
  zcase; [|exists (LzfOk op), out; split_and!; [done..|]; intros n [= <-]; lia].
  destruct (rd_Some inp ip) as (c & Hc & _); [lia|].
  rewrite Hc. apply Hb in Hc. mstep. change (Z.shiftl 1 5) with 32.
  zcase.
  - zcase; [by apply lzf_safe_error|]. zcase; [by apply lzf_safe_error|].
    rewrite mload_Some by lia. mstep.
    destruct (mstore _ _ _) as [out1|] eqn:E3.
    2: { rewrite mstore_Some in E3 by (rewrite ?length_take, ?length_drop; lia). done. }
    mstep. apply mstore_length in E3.
    apply (lzf_safe_length _ _ _ E3), IH; lia.
  - zcase; [by apply lzf_safe_error|].
    assert (0 <= Z.shiftr c 5) by (apply Z.shiftr_nonneg; lia).
    assert (0 <= Z.shiftl (Z.land c 0x1f) 8)
      by (apply Z.shiftl_nonneg, Z.land_nonneg; lia).
    set (l1 := if Z.shiftr c 5 =? 7 then _ else _).
    assert (exists len ip1, l1 = Some (len, ip1) /\ 0 <= len /\ ip + 1 <= ip1 /\
              (Z.shiftr c 5 =? 7 = false -> ip1 = ip + 1)) as (len & ip1 & -> & Hl & Hi & Hi').
    { unfold l1. destruct (Z.shiftr c 5 =? 7); [|eauto 6 with lia].
      destruct (rd_Some inp (ip + 1)) as (b & Hrb & _); [lia|]. rewrite Hrb.
      apply Hb in Hrb. mstep. do 2 eexists. split_and!; [done|lia..|done]. }
    mstep.
    destruct (Z.shiftr c 5 =? 7) eqn:E7; cbn [andb].
    2: rewrite Hi' in * by done. 1: zcase; [by apply lzf_safe_error|].
    all: edestruct (rd_Some inp) as (b & Hrb & _); [|rewrite Hrb; apply Hb in Hrb; mstep].
    1,3: lia.
    all: zcase; [by apply lzf_safe_error|]; zcase; [by apply lzf_safe_error|].
    all: edestruct (copy_ref_safe out op) as (out1 & -> & Hl1);
      [..|mstep; apply (lzf_safe_length _ _ _ Hl1), IH]; lia.
Qed.

(** C25: decompression is memory safe on any input: whatever the bytes of the
    compressed string and the size of the output buffer, it reads and writes
    only inside the two buffers, terminates, leaves the size of the buffer
    alone and never reports more bytes than the buffer holds. *)
Theorem lzf_decompress_safe inp out :
  Forall is_byte inp -> lzf_safe out (lzf_decompress inp out).
Proof. intros. apply decompress_loop_safe; lia || done. Qed.

Lemma lzf_decompress_safe_witness :
  lzf_decompress [224; 255; 9; 1] [0; 0; 0] = Some (LzfE2BIG, [0; 0; 0]) /\
  lzf_safe [0; 0; 0] (lzf_decompress [224; 255; 9; 1] [0; 0; 0]).
Proof.
  split; [vm_compute; reflexivity|].
  apply lzf_decompress_safe. repeat constructor; unfold is_byte; lia.
Defined.

(** *** Matches *)

Definition agree (inp : list Z) (ref ip n : Z) : Prop :=
  forall i, 0 <= i < n -> rd inp (ref + i) = rd inp (ip + i).

Lemma agree_snoc inp ref ip n :
  agree inp ref ip n -> rd inp (ref + n) = rd inp (ip + n) -> agree inp ref ip (n + 1).
Proof. intros H Hn i Hi. destruct (Z.eq_dec i n) as [->|]; [done|apply H; lia]. Qed.

Section matches.
Context (inp : list Z) (ref ip : Z).
Let N := Z.of_nat (length inp).
Context (Href : 0 < ref < ip).

Lemma unrolled_spec n len :
  agree inp ref ip (len + 1) -> 0 <= len -> ip + len + Z.of_nat n < N ->
  exists br L, unrolled n inp ref ip len = Some (br, L) /\ agree inp ref ip L /\
    len <= L <= len + Z.of_nat n /\
    (if br : bool then len < L else L = len + Z.of_nat n /\ agree inp ref ip (L + 1)).
Proof.
  revert len. induction n as [|n IH]; intros len Ha Hlen HN; cbn [unrolled].
  { exists false, len. split_and!; [done| |lia..|done]. intros i Hi. apply Ha. lia. }
  destruct (rd_Some inp (ref + (len + 1))) as (a & Hra & _); [lia|].
  destruct (rd_Some inp (ip + (len + 1))) as (b & Hrb & _); [lia|].
  rewrite Hra, Hrb. mstep. destruct (negb _) eqn:E.
  { exists true, (len + 1). split_and!; [done|done|lia..]. }
  zbool. subst b. destruct (IH (len + 1)) as (br & L & -> & HL & Hr & Hbr); [|lia..|].
  { apply agree_snoc; [done|congruence]. }
  exists br, L. split_and!; [done|done|lia..|].
  destruct br; [lia|]. destruct Hbr. split; [lia|done].
Qed.

Lemma extend_match_spec fuel maxlen len :
  agree inp ref ip (len + 1) -> 0 <= len -> ip + maxlen <= N ->
  (1 <= fuel)%nat -> maxlen - len <= Z.of_nat fuel ->
  exists L, extend_match fuel inp ref ip maxlen len = Some L /\ agree inp ref ip L /\
    len + 1 <= L <= Z.max (len + 1) maxlen.
Proof.
  revert len. induction fuel as [|fuel IH]; intros len Ha Hlen HN Hf1 Hf; [lia|].
  cbn [extend_match]. zcase; [|exists (len + 1); split_and!; [done|done|lia..]].
  destruct (rd_Some inp (ref + (len + 1))) as (a & Hra & _); [lia|].
  destruct (rd_Some inp (ip + (len + 1))) as (b & Hrb & _); [lia|].
  rewrite Hra, Hrb. mstep.
  zcase; [|exists (len + 1); split_and!; [done|done|lia..]].
  destruct (IH (len + 1)) as (L & -> & HL & Hr); [|lia..|exists L; split_and!; [done|done|lia..]].
  apply agree_snoc; [done|congruence].
Qed.

Lemma match_length_spec :
  agree inp ref ip 3 -> ip + 2 < N ->
  exists L, match_length inp ref ip = Some L /\ agree inp ref ip L /\
    3 <= L <= MAX_REF /\ ip + L <= N.
Proof.
  intros Ha HN. unfold match_length. change MAX_REF with 264. fold N.
  set (maxlen := if N - ip - 2 >? 264 then 264 else N - ip - 2).
  assert (1 <= maxlen <= 264 /\ maxlen <= N - ip - 2) by (unfold maxlen; zcase; lia).
  destruct (maxlen >? 16) eqn:E; zbool.
  - destruct (unrolled_spec 16 2) as (br & L & -> & HL & Hr & Hbr); [done|lia..|].
    mstep. destruct br.
    { exists L. split_and!; [done|done|lia..]. }
    destruct Hbr as [-> Hbr]. destruct (extend_match_spec (Z.to_nat 264) maxlen (2 + Z.of_nat 16))
      as (L & -> & HL' & Hr'); [done|lia..|]. exists L. split_and!; [done|done|lia..].
  - destruct (extend_match_spec (Z.to_nat 264) maxlen 2) as (L & -> & HL' & Hr'); [done|lia..|].
    exists L. split_and!; [done|done|lia..].
Qed.

(** Copying the match extends the data by the bytes that match. *)
Lemma ref_copy_match n :
  agree inp ref ip (Z.of_nat n) -> ip + Z.of_nat n <= N ->
  ref_copy n (take (Z.to_nat ip) inp) (ip - ref - 1)
  = Some (take (Z.to_nat (ip + Z.of_nat n)) inp).
Proof.
  intros Ha HN.
  assert (forall k, (k <= n)%nat ->
    ref_copy k (take (Z.to_nat (ip + Z.of_nat (n - k))) inp) (ip - ref - 1)
    = Some (take (Z.to_nat (ip + Z.of_nat n)) inp)) as H.
  { induction k as [|k IH]; intros Hk.
    { cbn. by rewrite Nat.sub_0_r. }
    cbn [ref_copy]. rewrite length_take.
    specialize (Ha (Z.of_nat (n - S k)) ltac:(lia)).
    destruct (rd_Some inp (ip + Z.of_nat (n - S k))) as (b & Hb & _); [lia|].
    rewrite Hb in Ha. apply rd_inv in Ha as [_ Ha]. apply rd_inv in Hb as [_ Hb].
    replace (rd _ _) with (Some b).
    2: { unfold rd. zcase; [lia|]. rewrite lookup_take_lt by lia.
         rewrite <- Ha. f_equal. lia. }
    mstep. rewrite <- (take_S_r _ _ _ Hb).
    rewrite <- IH by lia. do 2 f_equal. lia. }
  rewrite <- (H n) by lia. do 2 f_equal. lia.
Qed.

End matches.

(** A pointer that the hash table can hold: the input does not start in the
    first bytes of the address space. *)
Definition slot_ok (p : Z) : Prop := p < 2 ^ 64 - MAX_OFF.

Lemma match_found_spec inp ref ip :
  slot_ok ref -> 0 <= ip < Z.of_nat (length inp) - 2 -> slot_ok (Z.of_nat (length inp)) ->
  exists b, match_found inp ref ip = Some b /\
    (b = true -> u64 (ip - ref - 1) = ip - ref - 1 /\ ip - ref - 1 < MAX_OFF /\
       0 < ref < ip /\ agree inp ref ip 3).
Proof.
  unfold slot_ok, match_found. change MAX_OFF with 8192. zpow. intros Hr Hip HN.
  destruct (_ && _) eqn:E; [|by exists false]. zbool.
  assert (Hlt : ref < ip).
  { destruct (decide (ref < ip)); [done|]. exfalso.
    unfold wrapU in H. zpow.
    rewrite <- (Z.mod_add _ 1), Z.mod_small in H by lia. lia. }
  assert (Hu : u64 (ip - ref - 1) = ip - ref - 1) by (apply wrapU_id; unfold inU; zpow; lia).
  rewrite Hu in H.
  destruct (rd_Some inp (ref + 2)) as (r2 & Hr2 & _); [lia|].
  destruct (rd_Some inp (ip + 2)) as (i2 & Hi2 & _); [lia|].
  destruct (rd_Some inp ref) as (r0 & Hr0 & _); [lia|].
  destruct (rd_Some inp (ref + 1)) as (r1 & Hr1 & _); [lia|].
  destruct (rd_Some inp ip) as (i0 & Hi0 & _); [lia|].
  destruct (rd_Some inp (ip + 1)) as (i1 & Hi1 & _); [lia|].
  rewrite Hr2, Hi2. mstep. zcase; [|by exists false].
  rewrite Hr0, Hr1, Hi0, Hi1. mstep. eexists. split; [done|].
  intros. zbool. subst. split_and!; [done|lia..|].
  intros i Hi. assert (i = 0 \/ i = 1 \/ i = 2) as [->|[->| ->]] by lia;
    rewrite ?Z.add_0_r; congruence.
Qed.

(** *** The compressor

    What holds at the head of its loop: the output starts with the stream of
    the tokens completed so far, then the byte reserved for the length of the
    current run and the [lits] of the run. *)

Record cinv (inp out : list Z) (ip op lit : Z) (ts : list token) (D lits : list Z) : Prop := {
  ci_wf : Forall token_wf ts;
  ci_data : expand ts [] = Some D;
  ci_in : D ++ lits = take (Z.to_nat ip) inp;
  ci_ip : 0 <= ip <= Z.of_nat (length inp);
  ci_lit : lit = Z.of_nat (length lits);
  ci_lit_max : lit < 32;
  ci_op : op = Z.of_nat (length (stream ts)) + 1 + lit;
  ci_out : exists rest, out = stream ts ++ rest /\
             (lits = [] \/ exists h R, rest = h :: lits ++ R);
  ci_size : 32 * Z.of_nat (length (stream ts)) <= 33 * Z.of_nat (length D)
}.

Definition compress_inv inp out ip op lit : Prop := exists ts D lits, cinv inp out ip op lit ts D lits.

(** The same once the run is closed: no byte is reserved. *)
Definition closed_inv (inp out : list Z) (ip op : Z) : Prop :=
  exists ts R, Forall token_wf ts /\ expand ts [] = Some (take (Z.to_nat ip) inp) /\
    out = stream ts ++ R /\ op = Z.of_nat (length (stream ts)) /\ 32 * op <= 33 * ip + 32.

Lemma u8_byte b : is_byte b -> u8 b = b.
Proof. apply (wrapU_id 8). Qed.

Lemma take_snoc_in (inp : list Z) ip b :
  0 <= ip -> rd inp ip = Some b ->
  take (Z.to_nat (ip + 1)) inp = take (Z.to_nat ip) inp ++ [b].
Proof.
  intros Hip [_ Hb]%rd_inv. replace (Z.to_nat (ip + 1)) with (S (Z.to_nat ip)) by lia.
  by apply take_S_r.
Qed.

Lemma Forall_rd inp i b : Forall is_byte inp -> rd inp i = Some b -> is_byte b.
Proof. intros H [_ Hb]%rd_inv. by eapply Forall_lookup in H. Qed.

Lemma expand_snoc ts D t D' :
  expand ts [] = Some D -> expand [t] D = Some D' -> expand (ts ++ [t]) [] = Some D'.
Proof. intros H1 H2. rewrite expand_app, H1. done. Qed.

Lemma length_stream_snoc ts t :
  length (stream (ts ++ [t])) = (length (stream ts) + length (token_bytes t))%nat.
Proof. rewrite stream_app, length_app. cbn. by rewrite app_nil_r. Qed.

Lemma stream_lit ts l R :
  stream (ts ++ [Lit l]) ++ R = stream ts ++ Z.of_nat (length l) - 1 :: l ++ R.
Proof. rewrite stream_app. unfold stream at 2. cbn. by rewrite app_nil_r, <- app_assoc. Qed.

(** A literal: one byte more in the run, which ends when it is full. *)
Lemma literal_step inp out ip op lit :
  Forall is_byte inp -> compress_inv inp out ip op lit ->
  ip < Z.of_nat (length inp) -> op < Z.of_nat (length out) ->
  exists b out1 out2 op2 lit2,
    rd inp ip = Some b /\ wr out op b = Some out1 /\
    full_run out1 (op + 1) (lit + 1) = Some (out2, op2, lit2) /\
    compress_inv inp out2 (ip + 1) op2 lit2 /\ length out2 = length out /\
    (lit + 1 = 32 /\ lit2 = 0 /\ op2 = op + 2 \/
     lit + 1 <> 32 /\ lit2 = lit + 1 /\ op2 = op + 1).
Proof.
  intros Hby (ts & D & lits & [Hwf HD Hin Hip Hlit Hmax Hop (rest & -> & Hrest) Hsz]) Hlt Hopl.
  rewrite length_app in Hopl.
  destruct (rd_Some inp ip) as (b & Hb & _); [lia|]. exists b.
  assert (exists h x R, rest = h :: lits ++ x :: R) as (h & x & R & ->).
  { destruct Hrest as [->|(h & R & ->)].
    - destruct rest as [|h [|x R]]; simpl in *; try lia. eauto.
    - destruct R as [|x R]; [|eauto]. simpl in Hopl. rewrite length_app in Hopl. simpl in *. lia. }
  rewrite app_comm_cons, app_assoc. rewrite wr_mid by (rewrite length_app; simpl; lia).
  rewrite u8_byte by (by eapply Forall_rd). rewrite <- app_assoc. cbn [app].
  pose proof (take_snoc_in inp ip b ltac:(lia) Hb) as Htk. rewrite <- Hin, <- app_assoc in Htk.
  unfold full_run. change MAX_LIT with 32. destruct (lit + 1 =? 32) eqn:E; zbool.
  - eexists _, (stream (ts ++ [Lit (lits ++ [b])]) ++ R), (op + 1 + 1), 0.
    split_and!; [done|done| | | |lia..].
    + rewrite wr_mid by lia. mstep. do 3 f_equal.
      rewrite stream_lit, length_app, <- app_assoc. cbn [app length].
      do 2 f_equal. unfold wrapU. rewrite Z.mod_small; zpow; lia.
    + exists (ts ++ [Lit (lits ++ [b])]), (D ++ lits ++ [b]), []. split.
      * apply Forall_app_2; [done|]. constructor; [|done]. cbn. rewrite length_app. simpl. lia.
      * by eapply expand_snoc.
      * by rewrite app_nil_r.
      * lia.
      * done.
      * lia.
      * rewrite length_stream_snoc. cbn. rewrite length_app. cbn. lia.
      * eauto.
      * rewrite length_stream_snoc. cbn. rewrite !length_app. cbn. lia.
    + rewrite !length_app, length_stream_snoc. cbn. rewrite !length_app. cbn. lia.
  - eexists _, _, _, _. split_and!; [done|done|done| | |lia..].
    + exists ts, D, (lits ++ [b]). split; [done..|lia| |lia|lia| |done].
      * rewrite length_app. simpl. lia.
      * eexists. split; [done|]. right. exists h, R. by rewrite <- app_assoc.
    + rewrite !length_app. cbn. rewrite ?length_app. cbn. lia.
Qed.

(** Closing the run. *)
Lemma stop_run inp out ip op lit :
  compress_inv inp out ip op lit -> op <= Z.of_nat (length out) ->
  exists out1, wr out (op - lit - 1) (lit - 1) = Some out1 /\
    length out1 = length out /\ closed_inv inp out1 ip (op - if lit =? 0 then 1 else 0).
Proof.
  intros (ts & D & lits & [Hwf HD Hin Hip Hlit Hmax Hop (rest & -> & Hrest) Hsz]) Hopl.
  rewrite length_app in Hopl.
  assert (Z.of_nat (length D) + lit = ip) as Hlen.
  { apply (f_equal length) in Hin. rewrite length_app, length_take in Hin. lia. }
  assert (exists h R, rest = h :: lits ++ R) as (h & R & ->).
  { destruct Hrest as [->|]; [|done]. destruct rest as [|h R]; [simpl in *; lia|eauto]. }
  rewrite wr_mid by lia. eexists. split; [done|].
  split; [rewrite !length_app; done|].
  destruct (lit =? 0) eqn:E; zbool.
  - destruct lits as [|? ?]; [|simpl in *; lia]. rewrite app_nil_r in Hin. subst D.
    exists ts, (u8 (lit - 1) :: R). split_and!; [done..| |]; simpl in *; lia.
  - exists (ts ++ [Lit lits]), R. split_and!.
    + apply Forall_app_2; [done|]. constructor; [|done]. cbn. lia.
    + eapply expand_snoc; [done|]. cbn. by rewrite Hin.
    + rewrite stream_lit. do 2 f_equal. rewrite <- Hlit.
      unfold wrapU. rewrite Z.mod_small; zpow; lia.
    + rewrite length_stream_snoc. cbn. lia.
    + rewrite <- Hlen in Hip. lia.
Qed.

Lemma stream_ref ts off L R :
  stream (ts ++ [Ref off L]) ++ R = stream ts ++ token_bytes (Ref off L) ++ R.
Proof. rewrite stream_app. unfold stream at 2. cbn [mbind list_bind]. by rewrite app_nil_r, <- app_assoc. Qed.

Lemma write_ref_bytes S R off L :
  0 <= off < MAX_OFF -> 3 <= L <= MAX_REF -> (3 <= length R)%nat ->
  exists R', write_ref (S ++ R) (Z.of_nat (length S)) off (L - 2)
    = Some (S ++ token_bytes (Ref off L) ++ R',
            Z.of_nat (length S) + Z.of_nat (length (token_bytes (Ref off L)))) /\
    length (token_bytes (Ref off L) ++ R') = length R.
Proof.
  change MAX_OFF with 8192. change MAX_REF with 264. intros Hoff HL HR.
  assert (0 <= off / 256 < 32) by (split; [apply Z.div_pos; lia|apply Z.div_lt_upper_bound; lia]).
  destruct R as [|x [|y [|z R]]]; try (simpl in HR; lia).
  unfold write_ref, token_bytes. rewrite Z.shiftr_div_pow2, Z.shiftl_mul_pow2 by lia.
  change (Z.shiftl 7 5) with 224. change (2 ^ 8) with 256. change (2 ^ 5) with 32.
  destruct (L - 2 <? 7) eqn:E; zbool.
  - exists (z :: R). rewrite wr_mid by done. mstep.
    rewrite cons_middle, app_assoc, wr_mid by (rewrite length_app; simpl; lia).
    mstep. rewrite <- app_assoc. split; [|done]. cbn [app].
    unfold wrapU. rewrite (Z.mod_small (_ + _)) by (zpow; lia). do 2 f_equal. simpl; lia.
  - exists R. rewrite wr_mid by done. mstep.
    rewrite cons_middle, app_assoc, wr_mid by (rewrite length_app; simpl; lia).
    mstep.
    rewrite cons_middle, app_assoc, wr_mid by (rewrite !length_app; simpl; lia).
    mstep. rewrite <- !app_assoc. split; [|done]. cbn [app].
    unfold wrapU. rewrite (Z.mod_small (_ + 224)), (Z.mod_small (_ - 7)) by (zpow; lia).
    do 2 f_equal. simpl; lia.
Qed.

(** Emitting the reference of a match. *)
Lemma match_step inp out ip op ref L :
  closed_inv inp out ip op -> op + 4 < Z.of_nat (length out) ->
  0 <= ip -> 0 < ref < ip -> ip - ref - 1 < MAX_OFF ->
  agree inp ref ip L -> 3 <= L <= MAX_REF -> ip + L <= Z.of_nat (length inp) ->
  exists out1 op1, write_ref out op (ip - ref - 1) (L - 2) = Some (out1, op1) /\
    length out1 = length out /\ compress_inv inp out1 (ip + L) (op1 + 1) 0.
Proof.
  intros (ts & R & Hwf & Hex & -> & -> & Hsz) Hop Hip Href Hoff Ha HL HN.
  rewrite length_app in Hop.
  destruct (write_ref_bytes (stream ts) R (ip - ref - 1) L) as (R' & -> & HlR); [lia..|].
  do 2 eexists. split; [done|]. split; [rewrite !length_app in *; lia|].
  exists (ts ++ [Ref (ip - ref - 1) L]), (take (Z.to_nat (ip + L)) inp), [].
  pose proof (ref_copy_match inp ref ip Href (Z.to_nat L)) as Hm.
  rewrite Z2Nat.id in Hm by lia. specialize (Hm Ha HN).
  split; try done.
  - apply Forall_app_2; [done|]. constructor; [|done]. split; lia.
  - eapply expand_snoc; [done|]. cbn. by rewrite Hm.
  - by rewrite app_nil_r.
  - lia.
  - rewrite length_stream_snoc. lia.
  - exists R'. rewrite stream_ref. auto.
  - rewrite length_stream_snoc, length_take. unfold token_bytes. clear HlR.
    destruct (L - 2 <? 7) eqn:E; zbool; simpl length; lia.
Qed.

Lemma FRST_Some inp p :
  0 <= p -> p + 1 < Z.of_nat (length inp) -> exists h, FRST inp p = Some h.
Proof.
  intros. unfold FRST. destruct (rd_Some inp p) as (a & -> & _); [lia|].
  destruct (rd_Some inp (p + 1)) as (b & -> & _); [lia|]. cbn. eauto.
Qed.

Lemma NEXT_Some v inp p :
  0 <= p -> p + 2 < Z.of_nat (length inp) -> exists h, NEXT v inp p = Some h.
Proof. intros. unfold NEXT. destruct (rd_Some inp (p + 2)) as (a & -> & _); [lia|]. cbn. eauto. Qed.

Lemma hset_ok htab i p :
  (forall j, slot_ok (htab j)) -> slot_ok p -> forall j, slot_ok (hset htab i p j).
Proof. intros H Hp j. unfold hset. destruct (j =? i); auto. Qed.

Lemma compress_inv_bounds inp out ip op lit :
  compress_inv inp out ip op lit ->
  0 <= ip <= Z.of_nat (length inp) /\ 0 <= lit < 32 /\ lit < op /\
  32 * (op - 1) <= 33 * ip.
Proof.
  intros (ts & D & lits & [Hwf HD Hin Hip Hlit Hmax Hop _ Hsz]).
  apply (f_equal length) in Hin. rewrite length_app, length_take in Hin. lia.
Qed.

Definition compress_loop_ok (inp out : list Z) (r : option (option compress_state)) : Prop :=
  exists res, r = Some res /\
  match res with
  | None => 32 * Z.of_nat (length out) <= 33 * Z.of_nat (length inp) + 160
  | Some (ip, op, lit, out') =>
      compress_inv inp out' ip op lit /\ length out' = length out /\
      Z.of_nat (length inp) - 2 <= ip
  end.

Lemma compress_loop_spec fuel inp out htab hval ip op lit :
  Forall is_byte inp -> slot_ok (Z.of_nat (length inp)) -> (forall i, slot_ok (htab i)) ->
  compress_inv inp out ip op lit -> Z.of_nat (length inp) - ip <= Z.of_nat fuel ->
  compress_loop_ok inp out (compress_loop fuel inp out htab hval ip op lit).
Proof.
  intros Hby HN. revert out htab hval ip op lit.
  assert (Hslot : forall j, j <= Z.of_nat (length inp) -> slot_ok j)
    by (unfold slot_ok in *; intros; lia).
  induction fuel as [|fuel IH]; intros out htab hval ip op lit Hht Hinv Hf;
    pose proof (compress_inv_bounds _ _ _ _ _ Hinv) as (Hip & Hlit & Hlop & Hsz).
  { cbn [compress_loop]. zcase; [lia|]. eexists. split; [done|]. cbn. auto. }
  remember (compress_loop fuel) as loop. cbn [compress_loop]. rewrite <- Heqloop.
  zcase; [|eexists; split; [done|]; cbn; auto].
  destruct (NEXT_Some hval inp ip) as (h & ->); [lia..|]. mstep.
  destruct (match_found_spec inp (htab (IDX h)) ip) as (found & -> & Hfound); [auto|lia|done|].
  mstep. destruct found.
  - destruct Hfound as (Hu & Hoff & Hr & Ha); [done|]. rewrite Hu.
    destruct (_ && _) eqn:Eo.
    { exists None. split; [done|]. zbool. destruct (lit =? 0) eqn:?; zbool; lia. }
    assert (op - (if lit =? 0 then 1 else 0) + 4 < Z.of_nat (length out)) as Hroom.
    { apply andb_false_iff in Eo. destruct (lit =? 0), Eo; zbool; lia. }
    destruct (stop_run inp out ip op lit) as (out1 & -> & Hl1 & Hc);
      [done|destruct (lit =? 0); lia|]. mstep.
    destruct (match_length_spec inp (htab (IDX h)) ip) as (L & -> & HaL & HL & HipL);
      [lia|done|lia|]. mstep.
    edestruct (match_step inp out1 ip) as (out2 & op2 & -> & Hl2 & Hinv2);
      [exact Hc|lia|lia|exact Hr|done..|]. mstep.
    replace (ip + 1 + (L - 2) + 1) with (ip + L) by lia.
    zcase; [eexists; split; [done|]; cbn; split_and!; [done|congruence|lia]|].
    destruct (FRST_Some inp (ip + L - 2)) as (h1 & ->); [lia..|]. mstep.
    destruct (NEXT_Some h1 inp (ip + L - 2)) as (h2 & ->); [lia..|]. mstep.
    destruct (NEXT_Some h2 inp (ip + L - 2 + 1)) as (h3 & ->); [lia..|]. mstep.
    replace (ip + L - 2 + 1 + 1) with (ip + L) by lia.
    unfold compress_loop_ok. rewrite <- Hl1, <- Hl2. apply IH; [|done|lia].
    repeat (apply hset_ok; [|apply Hslot; lia]). done.
  - zcase; [exists None; split; [done|]; lia|].
    destruct (literal_step inp out ip op lit) as (b & out1 & out2 & op2 & lit2 & -> & Hw & Hfr & Hinv2 & Hl2 & _);
      [done|done|lia|lia|]. mstep. rewrite Hw. mstep.
    rewrite Hfr. mstep.
    unfold compress_loop_ok. rewrite <- Hl2. apply IH; [|done|lia].
    apply hset_ok; [done|apply Hslot; lia].
Qed.

Lemma tail_loop_spec fuel inp out ip op lit :
  Forall is_byte inp -> compress_inv inp out ip op lit ->
  let rem := Z.of_nat (length inp) - ip in
  rem <= Z.of_nat fuel -> rem <= 2 ->
  op + rem + (if 32 <=? lit + rem then 1 else 0) <= Z.of_nat (length out) ->
  exists out1 op1 lit1, tail_loop fuel inp out ip op lit = Some (out1, op1, lit1) /\
    compress_inv inp out1 (Z.of_nat (length inp)) op1 lit1 /\
    length out1 = length out /\ op1 <= Z.of_nat (length out).
Proof.
  intros Hby. revert out ip op lit.
  induction fuel as [|fuel IH]; intros out ip op lit Hinv rem Hf H2 Hop; subst rem;
    pose proof (compress_inv_bounds _ _ _ _ _ Hinv) as (Hip & Hlit & Hlop & _); cbn [tail_loop];
    (destruct (ip <? Z.of_nat (length inp)) eqn:E; zbool;
     [|exists out, op, lit; replace (Z.of_nat (length inp)) with ip in * by lia;
       split_and!; [done|done|done|destruct (_ <=? _) in Hop; lia]]); [lia|].
  destruct (literal_step inp out ip op lit)
    as (b & out1 & out2 & op2 & lit2 & -> & Hw & Hfr & Hinv2 & Hl2 & Hcase);
    [done|done|lia|destruct (_ <=? _) in Hop; lia|].
  mstep. rewrite Hw. mstep.
  rewrite Hfr. mstep. rewrite <- Hl2.
  apply IH; [done|lia|lia|]. rewrite Hl2.
  destruct (Z.leb_spec 32 (lit + (Z.of_nat (length inp) - ip))),
    (Z.leb_spec 32 (lit2 + (Z.of_nat (length inp) - (ip + 1)))); lia.
Qed.

(** A result that says what the compressed string is for. *)
Definition compressed_ok (inp out : list Z) (r : option (Z * list Z)) : Prop :=
  match r with
  | None => 32 * Z.of_nat (length out) <= 33 * Z.of_nat (length inp) + 160
  | Some (n, o) =>
      0 <= n <= Z.of_nat (length out) /\ length o = length out /\
      Forall is_byte (take (Z.to_nat n) o) /\
      forall buf, (length inp <= length buf)%nat ->
        lzf_decompress (take (Z.to_nat n) o) buf
        = Some (LzfOk (Z.of_nat (length inp)), inp ++ drop (length inp) buf)
  end.

Lemma length_stream_ge ts : (length ts <= length (stream ts))%nat.
Proof.
  induction ts as [|t ts IH]; [simpl; lia|]. rewrite stream_cons, length_app.
  pose proof (token_bytes_nonempty t). simpl; lia.
Qed.

(** *** The compressed data are bytes *)

Lemma ref_copy_prefix n D off D' : ref_copy n D off = Some D' -> D `prefix_of` D'.
Proof.
  revert D. induction n as [|n IH]; intros D; simpl; [by intros [= ->]|].
  destruct (rd D _) as [b|]; simpl; [|done]. intros H%IH. by eapply prefix_app_l.
Qed.

Lemma token_ref_bytes off L : token_wf (Ref off L) -> Forall is_byte (token_bytes (Ref off L)).
Proof.
  unfold token_wf, token_bytes. change MAX_OFF with 8192. change MAX_REF with 264. intros [Ho HL].
  pose proof (Z.div_lt_upper_bound off 256 32 ltac:(lia) ltac:(lia)).
  pose proof (Z.div_pos off 256 ltac:(lia) ltac:(lia)). pose proof (Z.mod_pos_bound off 256 ltac:(lia)).
  zcase; repeat constructor; unfold is_byte; lia.
Qed.

Lemma expand_bytes ts D D' :
  Forall token_wf ts -> expand ts D = Some D' -> Forall is_byte D' ->
  Forall is_byte D /\ Forall is_byte (stream ts).
Proof.
  intros Hwf. revert D. induction Hwf as [|t ts Ht Hts IH]; intros D; [by intros [= ->]|].
  rewrite stream_cons. destruct t as [l|off L]; cbn [expand].
  - intros He Hb. destruct (IH _ He Hb) as [Hbs Hstr]. apply Forall_app in Hbs as [HD Hl].
    split; [done|]. apply Forall_app; split; [|done]. constructor; [|done]. unfold token_wf in Ht. unfold is_byte. lia.
  - destruct (ref_copy _ D off) as [D1|] eqn:E; mstep; [|done]. intros He Hb.
    destruct (IH _ He Hb) as [Hbs Hstr]. apply ref_copy_prefix in E as [l ->]. apply Forall_app in Hbs as [HD _].
    split; [done|]. apply Forall_app; split; [by apply token_ref_bytes|done].
Qed.

Lemma closed_compressed_ok inp out0 out n :
  Forall is_byte inp -> closed_inv inp out (Z.of_nat (length inp)) n -> length out = length out0 ->
  compressed_ok inp out0 (Some (n, out)).
Proof.
  intros Hb (ts & R & Hwf & Hex & -> & -> & _) Hl. cbn.
  rewrite length_app in Hl. split_and!; [lia..|by rewrite length_app| |].
  { rewrite Nat2Z.id in *. rewrite take_app_length. rewrite firstn_all in Hex. by apply (expand_bytes ts [] inp). }
  intros buf Hbuf. rewrite Nat2Z.id in *. rewrite take_app_length.
  rewrite firstn_all in Hex. unfold lzf_decompress.
  pose proof (decompress_stream ts (length (stream ts)) [] [] buf inp Hwf Hex) as H.
  cbn [app length] in H. change (Z.of_nat 0) with 0 in H. rewrite H, Nat.sub_0_r; [done|lia|].
  apply length_stream_ge.
Qed.

Lemma lzf_compress_ok htab inp out :
  Forall is_byte inp -> 2 <= Z.of_nat (length inp) -> slot_ok (Z.of_nat (length inp)) ->
  (forall i, slot_ok (htab i)) ->
  exists r, lzf_compress htab inp out = Some r /\ compressed_ok inp out r.
Proof.
  intros Hby H2 HN Hht. unfold lzf_compress.
  destruct (_ || _) eqn:E0.
  { exists None. split; [done|]. cbn. apply orb_true_iff in E0 as [?|?]; zbool; lia. }
  zbool. destruct (FRST_Some inp 0) as (h & ->); [lia..|]. mstep.
  destruct (compress_loop_spec (length inp) inp out htab h 0 1 0) as (res & -> & Hres); [done..| |lia|].
  { exists [], [], []. split; try done; [lia|]. cbn. eauto. }
  mstep. destruct res as [[[[ip op] lit] out1]|]; [|eauto].
  destruct Hres as (Hinv & Hl1 & Hip).
  pose proof (compress_inv_bounds _ _ _ _ _ Hinv) as (Hipr & Hlit & Hlop & Hsz).
  zcase; [exists None; split; [done|]; cbn; lia|].
  destruct (tail_loop_spec (length inp) inp out1 ip op lit)
    as (out2 & op2 & lit2 & -> & Hinv2 & Hl2 & Hop2); [done|done|lia|lia|zcase; lia|].
  mstep.
  destruct (stop_run _ _ _ _ _ Hinv2) as (out3 & -> & Hl3 & Hc); [lia|].
  mstep. eexists. split; [done|].
  apply closed_compressed_ok; [done|done|congruence].
Qed.

(** C24: the compressor on any input of two bytes or more, any output buffer
    and any (uninitialised) contents of the hash table goes nowhere out of
    its buffers and terminates; when it reports a size it wrote bytes that
    decompress to the input, and it gives up only when the output buffer is
    not larger than the input by 1/32 and five bytes. *)
Theorem lzf_roundtrip htab inp out :
  Forall is_byte inp -> 2 <= Z.of_nat (length inp) -> slot_ok (Z.of_nat (length inp)) ->
  (forall i, slot_ok (htab i)) ->
  exists r, lzf_compress htab inp out = Some r /\ compressed_ok inp out r.
Proof. apply lzf_compress_ok. Qed.

Lemma lzf_roundtrip_witness :
  exists r, lzf_compress (fun _ => -4096) (replicate 40 97) (replicate 20 0) = Some (Some r) /\
    compressed_ok (replicate 40 97) (replicate 20 0) (Some r).
Proof.
  destruct (lzf_roundtrip (fun _ => -4096) (replicate 40 97) (replicate 20 0)) as (r & H1 & H2).
  - repeat constructor; unfold is_byte; lia.
  - vm_compute; discriminate.
  - vm_compute; reflexivity.
  - intros i. vm_compute. reflexivity.
  - destruct r as [r|]; [eauto|]. vm_compute in H1. discriminate H1.
Defined.

(** A string of one byte: the compressor reads the byte after it, which is
    not part of the input. *)
Example one_byte_overread : lzf_compress (fun _ => -4096) [97] (replicate 20 0) = None.
Proof. reflexivity. Qed.
