(* ===== verification/Sds.v ===== *)
(** * Simple dynamic strings ([sds.h], [sds.c])

    An sds is a pointer into an allocation: a packed header of one of five
    types (the length, the allocated size, a byte of flags), the bytes, a nul
    terminator and free space. The model keeps the allocation as its bytes
    and the pointer as an offset in it, so that header fields are loads and
    stores at negative offsets, as in the code.

    The allocator is a parameter, the class [Allocator] of the prelude. *)

From S2P Require Import Prelude.

#[local] Open Scope Z_scope.

(** The largest length the theorems consider *)
Definition SDS_LIMIT : Z := 2 ^ 62.

Record sds := mkSds {
  sh : list Z;     (* the allocation *)
  off : Z          (* where the sds points *)
}.

(** ** Header types ([sds.h]) *)

Definition SDS_TYPE_5 : Z := 0.
Definition SDS_TYPE_8 : Z := 1.
Definition SDS_TYPE_16 : Z := 2.
Definition SDS_TYPE_32 : Z := 3.
Definition SDS_TYPE_64 : Z := 4.
Definition SDS_TYPE_MASK : Z := 7.
Definition SDS_TYPE_BITS : Z := 3.

(** [s[i]] and the fields of the header [SDS_HDR(T,s)], [w] bytes each *)
Definition sget (s : sds) (i : Z) : option Z := rd (sh s) (off s + i).
Definition sput (s : sds) (i v : Z) : option sds :=
  m ← wr (sh s) (off s + i) v; Some (mkSds m (off s)).
Definition hdr_load (w : nat) (s : sds) (pos : Z) : option Z :=
  bs ← mload (sh s) pos (Z.of_nat w); Some (le_decode bs).
Definition hdr_store (w : nat) (s : sds) (pos v : Z) : option sds :=
  m ← mstore (sh s) pos (le_encode w v); Some (mkSds m (off s)).
Definition hdr_pos (w : nat) (s : sds) : Z := off s - (2 * Z.of_nat w + 1).
Definition hdr_len (w : nat) (s : sds) : option Z := hdr_load w s (hdr_pos w s).
Definition hdr_alloc (w : nat) (s : sds) : option Z := hdr_load w s (hdr_pos w s + Z.of_nat w).
Definition set_hdr_len (w : nat) (s : sds) (v : Z) : option sds := hdr_store w s (hdr_pos w s) v.
Definition set_hdr_alloc (w : nat) (s : sds) (v : Z) : option sds :=
  hdr_store w s (hdr_pos w s + Z.of_nat w) v.

Definition sdsType (s : sds) : option Z :=
  flags ← sget s (-1); Some (Z.land flags SDS_TYPE_MASK).

Definition SDS_TYPE_5_LEN (s : sds) : option Z :=
  flags ← sget s (-1); Some (Z.shiftr flags SDS_TYPE_BITS).

Definition sdsGetAuxBit (s : sds) (bit : Z) : option bool :=
  ty ← sdsType s;
  if ty =? SDS_TYPE_5 then Some false else
  flags ← sget s (-1);
  Some (negb (Z.land flags (Z.shiftl 1 (SDS_TYPE_BITS + bit)) =? 0)).

Definition sdsSetAuxBit (s : sds) (bit : Z) (value : bool) : option sds :=
  ty ← sdsType s;
  if ty =? SDS_TYPE_5 then Some s else
  flags ← sget s (-1);
  sput s (-1) (if value then Z.lor flags (Z.shiftl 1 (SDS_TYPE_BITS + bit))
               else Z.land flags (Z.lnot (Z.shiftl 1 (SDS_TYPE_BITS + bit)))).

Definition sdslen (s : sds) : option Z :=
  ty ← sdsType s;
  match ty with
  | 0 => SDS_TYPE_5_LEN s
  | 1 => hdr_len 1 s
  | 2 => hdr_len 2 s
  | 3 => hdr_len 4 s
  | 4 => hdr_len 8 s
  | _ => Some 0
  end.

Definition hdr_avail (w : nat) (s : sds) : option Z :=
  a ← hdr_alloc w s; l ← hdr_len w s; Some (u64 (a - l)).

Definition sdsavail (s : sds) : option Z :=
  ty ← sdsType s;
  match ty with
  | 0 => Some 0
  | 1 => hdr_avail 1 s
  | 2 => hdr_avail 2 s
  | 3 => a ← hdr_alloc 4 s; l ← hdr_len 4 s; Some (u32 (a - l))
  | 4 => hdr_avail 8 s
  | _ => Some 0
  end.

Definition sdssetlen (s : sds) (newlen : Z) : option sds :=
  ty ← sdsType s;
  match ty with
  | 0 => sput s (-1) (Z.lor SDS_TYPE_5 (Z.shiftl newlen SDS_TYPE_BITS))
  | 1 => set_hdr_len 1 s newlen
  | 2 => set_hdr_len 2 s newlen
  | 3 => set_hdr_len 4 s newlen
  | 4 => set_hdr_len 8 s newlen
  | _ => Some s
  end.

Definition sdsinclen (s : sds) (inc : Z) : option sds :=
  ty ← sdsType s;
  match ty with
  | 0 => l ← SDS_TYPE_5_LEN s;
         sput s (-1) (Z.lor SDS_TYPE_5 (Z.shiftl (u8 (l + inc)) SDS_TYPE_BITS))
  | 1 => l ← hdr_len 1 s; set_hdr_len 1 s (l + inc)
  | 2 => l ← hdr_len 2 s; set_hdr_len 2 s (l + inc)
  | 3 => l ← hdr_len 4 s; set_hdr_len 4 s (l + inc)
  | 4 => l ← hdr_len 8 s; set_hdr_len 8 s (l + inc)
  | _ => Some s
  end.

Definition sdsHdrSize (type : Z) : Z :=
  match Z.land type SDS_TYPE_MASK with
  | 0 => 1
  | 1 => 3
  | 2 => 5
  | 3 => 9
  | 4 => 17
  | _ => 0
  end.

Definition sdsalloc (s : sds) : option Z :=
  ty ← sdsType s;
  match ty with
  | 0 => SDS_TYPE_5_LEN s
  | 1 => hdr_alloc 1 s
  | 2 => hdr_alloc 2 s
  | 3 => hdr_alloc 4 s
  | 4 => hdr_alloc 8 s
  | _ => Some 0
  end.

Definition sdsAllocSize (s : sds) : option Z :=
  ty ← sdsType s;
  match ty with
  | 0 => l ← SDS_TYPE_5_LEN s; Some (1 + l + 1)
  | 1 => a ← hdr_alloc 1 s; Some (3 + a + 1)
  | 2 => a ← hdr_alloc 2 s; Some (5 + a + 1)
  | 3 => a ← hdr_alloc 4 s; Some (9 + a + 1)
  | 4 => a ← hdr_alloc 8 s; Some (u64 (17 + a + 1))
  | _ => Some 0
  end.

Definition sdssetalloc (s : sds) (newlen : Z) : option sds :=
  ty ← sdsType s;
  match ty with
  | 1 => set_hdr_alloc 1 s newlen
  | 2 => set_hdr_alloc 2 s newlen
  | 3 => set_hdr_alloc 4 s newlen
  | 4 => set_hdr_alloc 8 s newlen
  | _ => Some s
  end.

Definition sdsReqSize (len type : Z) : Z := u64 (len + sdsHdrSize type + 1).

(** ** Types and sizes ([sds.c]) *)

Definition sdsReqType (string_size : Z) : Z :=
  if string_size <? Z.shiftl 1 5 then SDS_TYPE_5 else
  if string_size <=? Z.shiftl 1 8 - 3 - 1 then SDS_TYPE_8 else
  if string_size <=? Z.shiftl 1 16 - 5 - 1 then SDS_TYPE_16 else
  if string_size <=? Z.shiftl 1 32 - 9 - 1 then SDS_TYPE_32 else
  SDS_TYPE_64.

Definition sdsTypeMaxSize (type : Z) : Z :=
  if type =? SDS_TYPE_5 then Z.shiftl 1 5 - 1 else
  if type =? SDS_TYPE_8 then Z.shiftl 1 8 - 1 else
  if type =? SDS_TYPE_16 then Z.shiftl 1 16 - 1 else
  if type =? SDS_TYPE_32 then Z.shiftl 1 32 - 1 else
  u64 (-1).

(** Whether it was adjusted, the type and the length of the header *)
Definition adjustTypeIfNeeded (type hdrlen bufsize : Z) : bool * Z * Z :=
  let usable := u64 (bufsize - hdrlen - 1) in
  if negb (type =? SDS_TYPE_5) && (usable >? sdsTypeMaxSize type) then
    let type := sdsReqType usable in (true, type, sdsHdrSize type)
  else (false, type, hdrlen).

(** ** Creation *)

Inductive init_arg :=
| SDS_NOINIT
| INIT_NULL
| INIT (bytes : list Z).

(** A header of the given type, at the beginning of a buffer *)
Definition init_header (s : sds) (type initlen usable : Z) : option sds :=
  match type with
  | 0 => sput s (-1) (Z.lor type (Z.shiftl initlen SDS_TYPE_BITS))
  | 1 => s ← set_hdr_len 1 s initlen; s ← set_hdr_alloc 1 s usable; sput s (-1) type
  | 2 => s ← set_hdr_len 2 s initlen; s ← set_hdr_alloc 2 s usable; sput s (-1) type
  | 3 => s ← set_hdr_len 4 s initlen; s ← set_hdr_alloc 4 s usable; sput s (-1) type
  | 4 => s ← set_hdr_len 8 s initlen; s ← set_hdr_alloc 8 s usable; sput s (-1) type
  | _ => Some s
  end.

(** [memcpy(s+i, bs, ...)] *)
Definition smemcpy (s : sds) (i : Z) (bs : list Z) : option sds :=
  m ← mstore (sh s) (off s + i) bs; Some (mkSds m (off s)).

Definition sdsnewplacement (buf : list Z) (type : Z) (init : init_arg) (initlen : Z) : option sds :=
  let bufsize := Z.of_nat (length buf) in
  _ ← cassert (bufsize >=? sdsReqSize initlen type);
  let hdrlen := sdsHdrSize type in
  let usable := u64 (bufsize - hdrlen - 1) in
  let s := mkSds buf hdrlen in
  s ← init_header s type initlen usable;
  s ← match init with
      | SDS_NOINIT => Some s
      | INIT_NULL => smemcpy s 0 (replicate (Z.to_nat initlen) 0)
      | INIT bytes =>
          if negb (initlen =? 0) then bs ← mload bytes 0 initlen; smemcpy s 0 bs else Some s
      end;
  sput s initlen 0.

(** The outer [option] is a failed assertion or an access out of bounds, the
    inner one the [NULL] of a failed "try" allocation. *)
Definition _sdsnewlen `{Allocator} (init : init_arg) (initlen : Z) (trymalloc : bool)
    : option (option sds) :=
  let type := sdsReqType initlen in
  let type := if (type =? SDS_TYPE_5) && (initlen =? 0) then SDS_TYPE_8 else type in
  let hdrlen := sdsHdrSize type in
  _ ← cassert (u64 (initlen + hdrlen + 1) >? initlen);
  if trymalloc && negb (try_ok (hdrlen + initlen + 1)) then Some None else
  let sh := malloc_usable (hdrlen + initlen + 1) in
  let '(_, type, hdrlen) := adjustTypeIfNeeded type hdrlen (Z.of_nat (length sh)) in
  s ← sdsnewplacement sh type init initlen;
  Some (Some s).

Definition sdsnewlen `{Allocator} (init : init_arg) (initlen : Z) : option sds :=
  r ← _sdsnewlen init initlen false; r.
Definition sdstrynewlen `{Allocator} (init : init_arg) (initlen : Z) : option (option sds) :=
  _sdsnewlen init initlen true.
Definition sdsempty `{Allocator} : option sds := sdsnewlen (INIT []) 0.

(** The bytes an sds or a C string is made of: [mload] of its length *)
Definition sbytes (s : sds) (i n : Z) : option (list Z) := mload (sh s) (off s + i) n.

Definition sdsdup `{Allocator} (s : sds) : option sds :=
  l ← sdslen s; bs ← sbytes s 0 l; sdsnewlen (INIT bs) l.

(** [strlen(s)] *)
Fixpoint strlen (m : list Z) : option Z :=
  match m with
  | [] => None
  | c :: m => if c =? 0 then Some 0 else n ← strlen m; Some (n + 1)
  end.

Definition sdsnew `{Allocator} (init : option (list Z)) : option sds :=
  match init with
  | None => sdsnewlen INIT_NULL 0
  | Some str => initlen ← strlen str; sdsnewlen (INIT str) initlen
  end.

Definition sdsupdatelen (s : sds) : option sds :=
  reallen ← strlen (drop (Z.to_nat (off s)) (sh s)); sdssetlen s reallen.

Definition sdsclear (s : sds) : option sds := s ← sdssetlen s 0; sput s 0 0.

(** ** Growing and shrinking *)

Definition SDS_MAX_PREALLOC : Z := 1024 * 1024.

Definition _sdsMakeRoomFor `{Allocator} (s : sds) (addlen : Z) (greedy : bool) : option sds :=
  avail ← sdsavail s;
  oldtype ← sdsType s;
  if avail >=? addlen then Some s else
  len ← sdslen s;
  let newlen := u64 (len + addlen) in
  let reqlen := newlen in
  _ ← cassert (newlen >? len);
  let newlen :=
    if greedy then
      if newlen <? SDS_MAX_PREALLOC then u64 (newlen * 2) else u64 (newlen + SDS_MAX_PREALLOC)
    else newlen in
  let type := sdsReqType newlen in
  let type := if type =? SDS_TYPE_5 then SDS_TYPE_8 else type in
  let hdrlen := sdsHdrSize type in
  _ ← cassert (u64 (hdrlen + newlen + 1) >? reqlen);
  '(s, type, hdrlen) ←
    (if oldtype =? type then
       let newsh := mrealloc junk (sh s) (usable (hdrlen + newlen + 1)) in
       let s := mkSds newsh hdrlen in
       let '(adjusted, type, hdrlen) := adjustTypeIfNeeded type hdrlen (Z.of_nat (length newsh)) in
       if (adjusted : bool) then
         m ← mmove newsh hdrlen (off s) (len + 1);
         s ← sput (mkSds m hdrlen) (-1) type;
         s ← sdssetlen s len;
         Some (s, type, hdrlen)
       else Some (s, type, hdrlen)
     else
       let newsh := malloc_usable (hdrlen + newlen + 1) in
       let '(_, type, hdrlen) := adjustTypeIfNeeded type hdrlen (Z.of_nat (length newsh)) in
       bs ← sbytes s 0 (len + 1);
       m ← mstore newsh hdrlen bs;
       s ← sput (mkSds m hdrlen) (-1) type;
       s ← sdssetlen s len;
       Some (s, type, hdrlen));
  let usable := u64 (Z.of_nat (length (sh s)) - hdrlen - 1) in
  _ ← cassert ((type =? SDS_TYPE_5) || (usable <=? sdsTypeMaxSize type));
  sdssetalloc s usable.

Definition sdsMakeRoomFor `{Allocator} (s : sds) (addlen : Z) : option sds :=
  _sdsMakeRoomFor s addlen true.
Definition sdsMakeRoomForNonGreedy `{Allocator} (s : sds) (addlen : Z) : option sds :=
  _sdsMakeRoomFor s addlen false.

(** The branch of [sdsResize] that keeps the header: the string and the new
    allocated size *)
Definition resize_realloc `{Allocator} (s : sds) (oldtype len newlen : Z) : option (sds * Z) :=
  let oldhdrlen := sdsHdrSize oldtype in
  alloc_size ← sdsAllocSize s;
  let alloc_already_optimal :=
    match nallocx with Some f => f newlen =? alloc_size | None => false end in
  if (alloc_already_optimal : bool) then Some (s, u64 (alloc_size - oldhdrlen - 1)) else
  let newsh := mrealloc junk (sh s) (usable newlen) in
  let bufsize := Z.of_nat (length newsh) in
  let s := mkSds newsh oldhdrlen in
  let '(adjusted, oldtype, oldhdrlen) := adjustTypeIfNeeded oldtype oldhdrlen bufsize in
  s ← (if (adjusted : bool) then
         m ← mmove newsh oldhdrlen (off s) (len + 1);
         s ← sput (mkSds m oldhdrlen) (-1) oldtype;
         sdssetlen s len
       else Some s);
  Some (s, u64 (bufsize - oldhdrlen - 1)).

(** The branch that copies the string to a new block *)
Definition resize_malloc `{Allocator} (s : sds) (type len newlen : Z) : option (sds * Z) :=
  let newsh := malloc_usable newlen in
  let bufsize := Z.of_nat (length newsh) in
  let '(_, type, hdrlen) := adjustTypeIfNeeded type (sdsHdrSize type) bufsize in
  bs ← sbytes s 0 (len + 1);
  m ← mstore newsh hdrlen bs;
  s ← sput (mkSds m hdrlen) (-1) type;
  Some (s, u64 (bufsize - hdrlen - 1)).

Definition sdsResize `{Allocator} (s : sds) (size : Z) (would_regrow : bool) : option sds :=
  oldtype ← sdsType s;
  let oldhdrlen := sdsHdrSize oldtype in
  len ← sdslen s;
  alloc ← sdsalloc s;
  if alloc =? size then Some s else
  let len := if size <? len then size else len in
  let type := sdsReqType size in
  let type := if would_regrow && (type =? SDS_TYPE_5) then SDS_TYPE_8 else type in
  let hdrlen := sdsHdrSize type in
  let use_realloc := (oldtype =? type) || ((type <? oldtype) && (type >? SDS_TYPE_8)) in
  '(s, newsize) ←
    (if use_realloc then resize_realloc s oldtype len (oldhdrlen + size + 1)
     else resize_malloc s type len (hdrlen + size + 1));
  s ← sput s len 0;
  s ← sdssetlen s len;
  sdssetalloc s newsize.

Definition sdsRemoveFreeSpace `{Allocator} (s : sds) (would_regrow : bool) : option sds :=
  l ← sdslen s; sdsResize s l would_regrow.

(** ** Length changes in place *)

(** [sub], [up] and [down] are the conversions in the assertion of a type. *)
Definition incr_hdr (sub up down : Z -> Z) (w : nat) (s : sds) (incr : Z) : option (sds * Z) :=
  len ← hdr_len w s; alloc ← hdr_alloc w s;
  _ ← cassert (((incr >=? 0) && (sub (alloc - len) >=? up incr)) ||
               ((incr <? 0) && (len >=? down (- incr))));
  s ← set_hdr_len w s (len + incr);
  len ← hdr_len w s;
  Some (s, len).

Definition sdsIncrLen (s : sds) (incr : Z) : option sds :=
  ty ← sdsType s;
  '(s, len) ←
    match ty with
    | 0 =>
        oldlen ← SDS_TYPE_5_LEN s;
        _ ← cassert (((incr >? 0) && (oldlen + incr <? 32)) || ((incr <? 0) && (oldlen >=? u32 (- incr))));
        s ← sput s (-1) (Z.lor SDS_TYPE_5 (Z.shiftl (oldlen + incr) SDS_TYPE_BITS));
        Some (s, oldlen + incr)
    | 1 => incr_hdr id id u32 1 s incr
    | 2 => incr_hdr id id u32 2 s incr
    | 3 => incr_hdr u32 u32 u32 4 s incr
    | 4 => incr_hdr u64 u64 u64 8 s incr
    | _ => Some (s, 0)
    end;
  sput s len 0.

Definition sdsgrowzero `{Allocator} (s : sds) (len : Z) : option sds :=
  curlen ← sdslen s;
  if len <=? curlen then Some s else
  s ← sdsMakeRoomFor s (len - curlen);
  s ← smemcpy s curlen (replicate (Z.to_nat (len - curlen + 1)) 0);
  sdssetlen s len.

(** [t] is the source, at least [len] bytes long. *)
Definition sdscatlen `{Allocator} (s : sds) (t : list Z) (len : Z) : option sds :=
  curlen ← sdslen s;
  s ← sdsMakeRoomFor s len;
  bs ← mload t 0 len;
  s ← smemcpy s curlen bs;
  s ← sdssetlen s (u64 (curlen + len));
  sput s (curlen + len) 0.

Definition sdscat `{Allocator} (s : sds) (t : list Z) : option sds :=
  l ← strlen t; sdscatlen s t l.

Definition sdscatsds `{Allocator} (s t : sds) : option sds :=
  l ← sdslen t; bs ← sbytes t 0 l; sdscatlen s bs l.

Definition sdscpylen `{Allocator} (s : sds) (t : list Z) (len : Z) : option sds :=
  alloc ← sdsalloc s;
  s ← (if alloc <? len then l ← sdslen s; sdsMakeRoomFor s (u64 (len - l)) else Some s);
  bs ← mload t 0 len;
  s ← smemcpy s 0 bs;
  s ← sput s len 0;
  sdssetlen s len.

Definition sdscpy `{Allocator} (s : sds) (t : list Z) : option sds :=
  l ← strlen t; sdscpylen s t l.

Definition sdssubstr (s : sds) (start len : Z) : option sds :=
  oldlen ← sdslen s;
  let '(start, len) := if start >=? oldlen then (0, 0) else (start, len) in
  let len := if len >? oldlen - start then oldlen - start else len in
  s ← (if negb (len =? 0) then
         m ← mmove (sh s) (off s) (off s + start) len; Some (mkSds m (off s))
       else Some s);
  s ← sput s len 0;
  sdssetlen s len.

(** [start] and [end] are [ssize_t]; the arguments of [sdssubstr] are
    [size_t]. *)
Definition sdsrange (s : sds) (start end_ : Z) : option sds :=
  len ← sdslen s;
  if len =? 0 then Some s else
  let start := if start <? 0 then s64 (len + start) else start in
  let end_ := if end_ <? 0 then s64 (len + end_) else end_ in
  let newlen := if start >? end_ then 0 else u64 (end_ - start + 1) in
  sdssubstr s (u64 start) newlen.

(** [strchr(cset, c)]: the terminator belongs to the string. *)
Definition in_cset (cset : list Z) (c : Z) : bool := existsb (Z.eqb c) cset || (c =? 0).

Fixpoint trim_left (n : nat) (s : sds) (cset : list Z) (sp end_ : Z) : option Z :=
  if sp <=? end_ then
    c ← sget s sp;
    if in_cset cset c then
      match n with O => None | S n => trim_left n s cset (sp + 1) end_ end
    else Some sp
  else Some sp.

Fixpoint trim_right (n : nat) (s : sds) (cset : list Z) (sp ep : Z) : option Z :=
  if ep >? sp then
    c ← sget s ep;
    if in_cset cset c then
      match n with O => None | S n => trim_right n s cset sp (ep - 1) end
    else Some ep
  else Some ep.

(** Pointers are offsets from [s]; [cset] is the characters of a C string. *)
Definition sdstrim (s : sds) (cset : list Z) : option sds :=
  l ← sdslen s;
  let end_ := l - 1 in
  sp ← trim_left (Z.to_nat l) s cset 0 end_;
  ep ← trim_right (Z.to_nat l) s cset sp end_;
  let len := ep - sp + 1 in
  s ← (if negb (sp =? 0) then
         m ← mmove (sh s) (off s) (off s + sp) len; Some (mkSds m (off s))
       else Some s);
  s ← sput s len 0;
  sdssetlen s len.

(** ** What the bytes of an sds stand for *)

Definition hdr_w (ty : Z) : nat :=
  match ty with 1 => 1%nat | 2 => 2%nat | 3 => 4%nat | 4 => 8%nat | _ => 0%nat end.

(** The largest length a header can record *)
Definition fits (ty n : Z) : Prop :=
  0 <= n < (if ty =? 0 then 32 else 2 ^ (8 * Z.of_nat (hdr_w ty))).

Definition header (ty aux len alloc : Z) : list Z :=
  if ty =? 0 then [8 * len]
  else le_encode (hdr_w ty) len ++ le_encode (hdr_w ty) alloc ++ [ty + 8 * aux].

(** [s] is a header with these fields, then [body]. *)
Record raw (s : sds) (ty aux len alloc : Z) (body : list Z) : Prop := {
  raw_sh : sh s = header ty aux len alloc ++ body;
  raw_off : off s = sdsHdrSize ty;
  raw_ty : 0 <= ty <= 4;
  raw_aux : 0 <= aux < 32;
  raw_fits : fits ty len;
  raw_fits_alloc : ty <> 0 -> fits ty alloc;
  raw_bytes : Forall is_byte body
}.

(** The string [str] is stored: the bytes, the terminator, the free space,
    and the fields agree with the size of the allocation. *)
Definition sds_ok (s : sds) (str : list Z) : Prop :=
  exists ty aux alloc tl,
    raw s ty aux (Z.of_nat (length str)) alloc (str ++ 0 :: tl) /\
    (ty <> 0 -> Z.of_nat (length str) <= alloc <= Z.of_nat (length str + length tl)).

(** Case analysis on the type of a header *)
Ltac ty_cases ty :=
  let H := fresh in
  assert (H : ty = 0 \/ ty = 1 \/ ty = 2 \/ ty = 3 \/ ty = 4) by lia;
  destruct H as [H|[H|[H|[H|H]]]]; subst ty.

Lemma length_header ty aux len alloc :
  0 <= ty <= 4 -> Z.of_nat (length (header ty aux len alloc)) = sdsHdrSize ty.
Proof.
  intros Hty. ty_cases ty; unfold header; cbn [Z.eqb Pos.eqb]; rewrite ?length_app, ?length_le_encode; done.
Qed.

Lemma header_bytes ty aux len alloc :
  0 <= ty <= 4 -> 0 <= aux < 32 -> fits ty len -> Forall is_byte (header ty aux len alloc).
Proof.
  unfold fits, header. intros Hty Haux Hlen. destruct (Z.eqb_spec ty 0).
  - repeat constructor; lia.
  - apply Forall_app_2; [apply le_encode_bytes|]. apply Forall_app_2; [apply le_encode_bytes|].
    repeat constructor; lia.
Qed.

Section header_fields.
Context (w : nat) (s : sds) (A B : list Z) (f : Z) (body : list Z).
Context (Hsh : sh s = A ++ B ++ f :: body) (HA : length A = w) (HB : length B = w).
Context (Hoff : off s = 2 * Z.of_nat w + 1).

Lemma hdr_len_eq : hdr_len w s = Some (le_decode A).
Proof.
  unfold hdr_len, hdr_load, hdr_pos. rewrite Hoff, Z.sub_diag, Hsh.
  by rewrite mload_app_l by lia.
Qed.

Lemma hdr_alloc_eq : hdr_alloc w s = Some (le_decode B).
Proof.
  unfold hdr_alloc, hdr_load, hdr_pos. rewrite Hoff, Z.sub_diag, Hsh.
  by rewrite mload_app_mid by lia.
Qed.

Lemma set_hdr_len_eq v :
  set_hdr_len w s v = Some (mkSds (le_encode w v ++ B ++ f :: body) (off s)).
Proof.
  unfold set_hdr_len, hdr_store, hdr_pos. rewrite Hoff at 1. rewrite Z.sub_diag, Hsh.
  by rewrite mstore_app_l by (by rewrite length_le_encode).
Qed.

Lemma set_hdr_alloc_eq v :
  set_hdr_alloc w s v = Some (mkSds (A ++ le_encode w v ++ f :: body) (off s)).
Proof.
  unfold set_hdr_alloc, hdr_store, hdr_pos. rewrite Hoff at 1. rewrite Z.sub_diag, Hsh.
  by rewrite mstore_app_mid by (rewrite ?length_le_encode; simpl; lia).
Qed.

Lemma sget_flags_eq : sget s (-1) = Some f.
Proof.
  unfold sget. rewrite Hsh, Hoff, app_assoc. apply rd_mid. rewrite length_app. lia.
Qed.

Lemma sput_flags_eq v : sput s (-1) v = Some (mkSds (A ++ B ++ u8 v :: body) (off s)).
Proof.
  unfold sput. rewrite Hsh, Hoff at 1. rewrite app_assoc.
  rewrite wr_mid by (rewrite length_app; lia). mstep. by rewrite <- app_assoc.
Qed.

End header_fields.

(** ** The accessors *)

Section raw_lemmas.
Context (s : sds) (ty aux len alloc : Z) (body : list Z).
Context (Hraw : raw s ty aux len alloc body).

(** The two layouts *)
Lemma raw_split :
  (ty = 0 /\ sh s = 8 * len :: body /\ off s = 1 /\ 0 <= len < 32) \/
  (ty <> 0 /\ sh s = le_encode (hdr_w ty) len ++ le_encode (hdr_w ty) alloc ++ (ty + 8 * aux) :: body /\
   off s = 2 * Z.of_nat (hdr_w ty) + 1 /\ 0 <= len < 2 ^ (8 * Z.of_nat (hdr_w ty)) /\
   0 <= alloc < 2 ^ (8 * Z.of_nat (hdr_w ty))).
Proof.
  pose proof Hraw as [Hs Ho Ht Ha Hf Hfa _]. unfold header, fits in *.
  destruct (Z.eqb_spec ty 0) as [->|Hne]; [left; by rewrite Hs, Ho|right].
  rewrite Hs, <- !app_assoc, Ho. split_and!; try done; try lia.
  all: try (specialize (Hfa Hne); lia). ty_cases ty; done.
Qed.

Lemma raw_flags :
  sget s (-1) = Some (if ty =? 0 then 8 * len else ty + 8 * aux).
Proof.
  destruct raw_split as [(-> & Hs & Ho & _)|(Hne & Hs & Ho & _)].
  - unfold sget. by rewrite Hs, Ho.
  - rewrite (sget_flags_eq _ _ _ _ _ _ Hs) by (rewrite ?length_le_encode; done).
    by destruct (Z.eqb_spec ty 0).
Qed.

Lemma land7 a b : 0 <= a < 8 -> Z.land (a + 8 * b) 7 = a.
Proof.
  intros Ha. change 7 with (Z.ones 3). rewrite Z.land_ones by lia. change (2 ^ 3) with 8.
  rewrite Z.mul_comm, Z.mod_add, Z.mod_small by lia. done.
Qed.

Lemma raw_sdsType : sdsType s = Some ty.
Proof.
  unfold sdsType. rewrite raw_flags. mstep. f_equal.
  pose proof (raw_ty _ _ _ _ _ _ Hraw). destruct (Z.eqb_spec ty 0) as [E|]; [rewrite E|apply land7; lia].
  apply (land7 0 len). lia.
Qed.

Lemma raw_type5_len : ty = 0 -> SDS_TYPE_5_LEN s = Some len.
Proof.
  intros E. unfold SDS_TYPE_5_LEN. rewrite raw_flags, E. cbn [mbind option_bind Z.eqb]. f_equal.
  rewrite Z.shiftr_div_pow2 by (unfold SDS_TYPE_BITS; lia). change (2 ^ SDS_TYPE_BITS) with 8.
  rewrite Z.mul_comm. apply Z.div_mul. lia.
Qed.

Lemma raw_hdr_len : ty <> 0 -> hdr_len (hdr_w ty) s = Some len.
Proof.
  intros Hne. destruct raw_split as [(? & _)|(_ & Hs & Ho & Hl & _)]; [done|].
  rewrite (hdr_len_eq _ _ _ _ _ _ Hs) by (rewrite ?length_le_encode; done).
  by rewrite le_decode_encode, Z.mod_small by done.
Qed.

Lemma raw_hdr_alloc : ty <> 0 -> hdr_alloc (hdr_w ty) s = Some alloc.
Proof.
  intros Hne. destruct raw_split as [(? & _)|(_ & Hs & Ho & _ & Hl)]; [done|].
  rewrite (hdr_alloc_eq _ _ _ _ _ _ Hs) by (rewrite ?length_le_encode; done).
  by rewrite le_decode_encode, Z.mod_small by done.
Qed.

Lemma raw_sdslen : sdslen s = Some len.
Proof.
  pose proof (raw_ty _ _ _ _ _ _ Hraw). pose proof raw_hdr_len as Hl. pose proof raw_type5_len as H5.
  unfold sdslen. rewrite raw_sdsType. mstep.
  ty_cases ty; [by apply H5|by apply Hl..].
Qed.

Lemma raw_sdsalloc : sdsalloc s = Some (if ty =? 0 then len else alloc).
Proof.
  pose proof (raw_ty _ _ _ _ _ _ Hraw). pose proof raw_hdr_alloc as Hl. pose proof raw_type5_len as H5.
  unfold sdsalloc. rewrite raw_sdsType. mstep.
  ty_cases ty; [by apply H5|by apply Hl..].
Qed.

Lemma raw_sdsavail :
  (ty <> 0 -> len <= alloc) -> sdsavail s = Some (if ty =? 0 then 0 else alloc - len).
Proof.
  intros Hle. pose proof (raw_ty _ _ _ _ _ _ Hraw). pose proof raw_hdr_alloc as Ha.
  pose proof raw_hdr_len as Hl. pose proof raw_split as Hsp.
  unfold sdsavail. rewrite raw_sdsType. mstep.
  ty_cases ty; cbn [Z.eqb Pos.eqb]; [done|..]; unfold hdr_avail;
    destruct Hsp as [(? & _)|(_ & _ & _ & Hr1 & Hr2)]; try done; cbn [hdr_w] in *;
    rewrite (Ha ltac:(done)), (Hl ltac:(done)); mstep; f_equal;
    apply wrapU_id; unfold inU;
    try change (8 * Z.of_nat 1) with 8 in *; try change (8 * Z.of_nat 2) with 16 in *;
    try change (8 * Z.of_nat 4) with 32 in *; try change (8 * Z.of_nat 8) with 64 in *; zpow; lia.
Qed.

Lemma raw_sdssetlen n :
  fits ty n -> exists s', sdssetlen s n = Some s' /\ raw s' ty aux n alloc body.
Proof.
  intros Hn. pose proof Hraw as [Hs0 Ho0 Ht Ha Hf Hfa Hb].
  unfold sdssetlen. rewrite raw_sdsType. mstep.
  destruct raw_split as [(-> & Hs & Ho & _)|(Hne & Hs & Ho & _)].
  - unfold fits in Hn. cbn [Z.eqb] in Hn. unfold sput. rewrite Hs, Ho.
    change (1 + -1) with (Z.of_nat (length (@nil Z))).
    rewrite (wr_mid [] (8 * len) body) by done. mstep.
    eexists. split; [done|]. split; try done. cbn [sh header Z.eqb app]. f_equal.
    unfold SDS_TYPE_5, SDS_TYPE_BITS. rewrite Z.lor_0_l, Z.shiftl_mul_pow2 by lia.
    change (2 ^ 3) with 8. unfold wrapU. rewrite Z.mod_small by (zpow; lia). lia.
  - assert (Hset : exists s', set_hdr_len (hdr_w ty) s n = Some s' /\ raw s' ty aux n alloc body).
    { rewrite (set_hdr_len_eq _ _ _ _ _ _ Hs) by (rewrite ?length_le_encode; done).
      eexists. split; [done|]. split; try done. unfold header. cbn [sh].
      destruct (Z.eqb_spec ty 0); [done|]. by rewrite <- !app_assoc. }
    ty_cases ty; [done|exact Hset..].
Qed.

Lemma raw_sdssetalloc n :
  (ty <> 0 -> fits ty n) ->
  exists s', sdssetalloc s n = Some s' /\ raw s' ty aux len (if ty =? 0 then alloc else n) body.
Proof.
  intros Hn. pose proof Hraw as [Hs0 Ho0 Ht Ha Hf Hfa Hb].
  unfold sdssetalloc. rewrite raw_sdsType. mstep.
  destruct raw_split as [(-> & Hs & Ho & _)|(Hne & Hs & Ho & _)]; [by exists s|].
  assert (Hset : exists s', set_hdr_alloc (hdr_w ty) s n = Some s' /\
    raw s' ty aux len (if ty =? 0 then alloc else n) body).
  { rewrite (set_hdr_alloc_eq _ _ _ _ _ _ Hs) by (rewrite ?length_le_encode; done).
    eexists. split; [done|]. unfold header in *. destruct (Z.eqb_spec ty 0); [done|].
    split; try done. unfold header. cbn [sh].
    destruct (Z.eqb_spec ty 0); [done|]. by rewrite <- !app_assoc. }
  ty_cases ty; [done|exact Hset..].
Qed.

(** Accesses to the bytes *)
Lemma raw_sbytes i n : 0 <= i -> sbytes s i n = mload body i n.
Proof.
  intros Hi. unfold sbytes. rewrite (raw_sh _ _ _ _ _ _ Hraw), (raw_off _ _ _ _ _ _ Hraw).
  rewrite <- (length_header ty aux len alloc) by apply Hraw. by apply mload_shift.
Qed.

Lemma raw_store m' i bs :
  0 <= i -> mstore body i bs = Some m' -> Forall is_byte bs ->
  exists s', smemcpy s i bs = Some s' /\ raw s' ty aux len alloc m'.
Proof.
  intros Hi Hm Hbs. unfold smemcpy. pose proof Hraw as [Hs Ho Ht Ha Hf Hfa Hb].
  rewrite Hs, Ho, <- (length_header ty aux len alloc), mstore_shift, Hm by done.
  mstep. eexists. split; [done|]. split; try done.
  - rewrite length_header by done. done.
  - unfold mstore in Hm. destruct (_ && _); simplify_eq.
    auto with bytes.
Qed.

End raw_lemmas.

Lemma raw_sput s ty aux len alloc body p c q i v :
  raw s ty aux len alloc body -> body = p ++ c :: q -> i = Z.of_nat (length p) ->
  exists s', sput s i v = Some s' /\ raw s' ty aux len alloc (p ++ u8 v :: q).
Proof.
  intros Hraw -> ->.
  destruct (raw_store s ty aux len alloc _ Hraw (p ++ u8 v :: q) (Z.of_nat (length p)) [u8 v])
    as (s' & Hm & Hr').
  - lia.
  - by apply (mstore_app_mid p [c] [u8 v] q).
  - repeat constructor; apply (wrapU_range 8); lia.
  - exists s'. split; [|done]. exact Hm.
Qed.

(** ** Choosing a type *)

Lemma sdsReqType_eq n :
  sdsReqType n = if n <? 32 then 0 else if n <=? 252 then 1 else if n <=? 65530 then 2
                 else if n <=? 4294967286 then 3 else 4.
Proof. done. Qed.

Lemma sdsTypeMaxSize_eq ty :
  sdsTypeMaxSize ty = if ty =? 0 then 31 else if ty =? 1 then 255 else if ty =? 2 then 65535
                      else if ty =? 3 then 4294967295 else UINT64_MAX.
Proof. done. Qed.

(** A type that can hold [n] bytes and the overhead of its header *)
Definition type_for (ty n : Z) : Prop :=
  0 <= n < 2 ^ 63 /\
  (ty = 0 /\ n <= 31 \/ ty = 1 /\ n <= 252 \/ ty = 2 /\ n <= 65530 \/
   ty = 3 /\ n <= 4294967286 \/ ty = 4).

Lemma sdsReqType_for n : 0 <= n < 2 ^ 63 -> type_for (sdsReqType n) n.
Proof. intros Hn. split; [done|]. rewrite sdsReqType_eq. repeat zcase; lia. Qed.

Lemma type_for_8 n : type_for 0 n -> type_for 1 n.
Proof. intros [? ?]. split; [done|]. lia. Qed.

Lemma fits_max ty n : 0 <= ty <= 4 -> fits ty n <-> 0 <= n <= sdsTypeMaxSize ty.
Proof.
  intros Hty. unfold fits. rewrite sdsTypeMaxSize_eq.
  ty_cases ty; cbn [Z.eqb Pos.eqb hdr_w]; zpow; lia.
Qed.

Lemma type_for_fits ty n : type_for ty n -> fits ty n.
Proof. intros [Hn H]. apply fits_max; [lia|]. rewrite sdsTypeMaxSize_eq. repeat zcase; lia. Qed.

Ltac hdr_eval :=
  change (sdsHdrSize 0) with 1 in *; change (sdsHdrSize 1) with 3 in *;
  change (sdsHdrSize 2) with 5 in *; change (sdsHdrSize 3) with 9 in *;
  change (sdsHdrSize 4) with 17 in *.

Lemma HdrSize_range ty : 0 <= ty <= 4 -> 1 <= sdsHdrSize ty <= 17.
Proof. intros Hty. ty_cases ty; vm_compute; split; discriminate. Qed.

Lemma adjustTypeIfNeeded_ok ty n bufsize adj ty' hdr' :
  type_for ty n -> sdsHdrSize ty + n + 1 <= bufsize < 2 ^ 64 ->
  adjustTypeIfNeeded ty (sdsHdrSize ty) bufsize = (adj, ty', hdr') ->
  0 <= ty' <= 4 /\ hdr' = sdsHdrSize ty' /\ hdr' + n + 1 <= bufsize /\ (ty' = 0 <-> ty = 0) /\
  fits ty' n /\ (ty' <> 0 -> fits ty' (bufsize - hdr' - 1)) /\
  (if adj : bool then sdsHdrSize ty < hdr' else ty' = ty).
Proof.
  intros Hf Hb. pose proof (type_for_fits ty n Hf) as Hfits. destruct Hf as [Hn Hf].
  assert (Hty : 0 <= ty <= 4) by lia. pose proof (HdrSize_range ty Hty) as Hh.
  unfold adjustTypeIfNeeded. rewrite (wrapU_id 64) by (unfold inU; lia).
  rewrite sdsTypeMaxSize_eq, sdsReqType_eq. unfold SDS_TYPE_5.
  set (us := bufsize - sdsHdrSize ty - 1). assert (0 <= us < 2 ^ 64) by (zpow; lia).
  destruct (negb (ty =? 0) && (us >? _)) eqn:E.
  - zbool. intros [= <- <- <-].
    assert (Hk : 256 <= us /\ ty <> 0 /\ ty <> 4 /\ (ty = 2 -> 65536 <= us) /\ (ty = 3 -> 4294967296 <= us)).
    { destruct (ty =? 0) eqn:?, (ty =? 1) eqn:?, (ty =? 2) eqn:?, (ty =? 3) eqn:?; zbool; zpow; lia. }
    assert (Hcases : exists ty', (if us <? 32 then 0 else if us <=? 252 then 1 else if us <=? 65530 then 2
      else if us <=? 4294967286 then 3 else 4) = ty' /\ ty < ty' <= 4 /\
      (ty' = 2 /\ us <= 65530 \/ ty' = 3 /\ 65530 < us <= 4294967286 \/ ty' = 4 /\ 4294967286 < us)).
    { repeat zcase; eexists; (split; [reflexivity|]); lia. }
    destruct Hcases as (t & -> & Ht & Hu). destruct Hk as (Hk1 & Hk2 & Hk3 & Hk4 & Hk5).
    assert (Hs : sdsHdrSize ty < sdsHdrSize t /\ sdsHdrSize t <= us - n + sdsHdrSize ty).
    { ty_cases ty; try lia; ty_cases t; try lia; hdr_eval; lia. }
    split_and!; try lia.
    + apply fits_max; [lia|]. rewrite sdsTypeMaxSize_eq. ty_cases t; cbn [Z.eqb Pos.eqb]; zpow; lia.
    + intros _. apply fits_max; [lia|]. rewrite sdsTypeMaxSize_eq.
      destruct Hu as [[-> ?]|[[-> ?]|[-> ?]]]; cbn [Z.eqb Pos.eqb]; zpow; unfold us in *; lia.
  - intros [= <- <- <-]. split_and!; try done; try lia.
    intros Hne. apply andb_false_iff in E. apply fits_max; [done|]. rewrite sdsTypeMaxSize_eq.
    fold us. destruct E as [E|E]; zbool; [lia|]. lia.
Qed.

(** ** Writing a header *)

Lemma split_header (H : list Z) ty :
  0 <= ty <= 4 -> Z.of_nat (length H) = sdsHdrSize ty ->
  (ty = 0 /\ exists f, H = [f]) \/
  (ty <> 0 /\ exists A B f, H = A ++ B ++ [f] /\ length A = hdr_w ty /\ length B = hdr_w ty).
Proof.
  intros Hty Hl. destruct (decide (ty = 0)) as [->|Hne].
  - left. split; [done|]. hdr_eval. destruct H as [|f [|? ?]]; simpl in Hl; try lia. eauto.
  - right. split; [done|].
    assert (length H = hdr_w ty + (hdr_w ty + 1))%nat.
    { ty_cases ty; hdr_eval; cbn [hdr_w]; lia. }
    assert (length (drop (hdr_w ty + hdr_w ty) H) = 1%nat) by (rewrite length_drop; lia).
    destruct (drop (hdr_w ty + hdr_w ty) H) as [|f [|? ?]] eqn:Ef; simplify_eq/=.
    exists (take (hdr_w ty) H), (take (hdr_w ty) (drop (hdr_w ty) H)), f. split_and!.
    + rewrite <- Ef, <- drop_drop, !take_drop. done.
    + rewrite length_take. lia.
    + rewrite length_take, length_drop. lia.
Qed.

Lemma sput_type_raw H body ty :
  0 <= ty <= 4 -> Z.of_nat (length H) = sdsHdrSize ty -> Forall is_byte H -> Forall is_byte body ->
  exists s len alloc, sput (mkSds (H ++ body) (sdsHdrSize ty)) (-1) ty = Some s /\
    raw s ty 0 len alloc body.
Proof.
  intros Hty Hl HH Hb. assert (Hu : u8 ty = ty) by (apply wrapU_id; unfold inU; zpow; lia).
  destruct (split_header H ty Hty Hl) as [(-> & f & ->)|(Hne & A & B & f & -> & HA & HB)].
  - eexists _, 0, 0. split; [apply sput_flags_eq with (w := 0%nat) (A := []) (B := []) (f := f); done|].
    split; try done; unfold fits; cbn; lia.
  - apply Forall_app in HH as [HbA HbB]. apply Forall_app in HbB as [HbB _].
    eexists _, (le_decode A), (le_decode B). split.
    { apply (sput_flags_eq (hdr_w ty)) with (A := A) (B := B) (f := f); cbn [sh off];
        [by rewrite <- !app_assoc|done|done|]. ty_cases ty; done. }
    pose proof (le_decode_range A HbA) as HrA. pose proof (le_decode_range B HbB) as HrB.
    rewrite HA in HrA. rewrite HB in HrB.
    split; cbn [sh off]; try done; unfold fits, header.
    + destruct (Z.eqb_spec ty 0); [done|]. rewrite Hu, Z.add_0_r.
      rewrite <- HA at 1. rewrite <- HB. rewrite !le_encode_decode by done. by rewrite <- !app_assoc.
    + by destruct (Z.eqb_spec ty 0).
    + by destruct (Z.eqb_spec ty 0).
Qed.

Lemma init_header_raw H body ty initlen us :
  0 <= ty <= 4 -> Z.of_nat (length H) = sdsHdrSize ty -> Forall is_byte body ->
  fits ty initlen -> (ty <> 0 -> fits ty us) ->
  exists s, init_header (mkSds (H ++ body) (sdsHdrSize ty)) ty initlen us = Some s /\
    raw s ty 0 initlen us body.
Proof.
  intros Hty Hl Hb Hfi Hfu. assert (Hu : u8 ty = ty) by (apply wrapU_id; unfold inU; zpow; lia).
  destruct (split_header H ty Hty Hl) as [(-> & f & ->)|(Hne & A & B & f & -> & HA & HB)].
  - unfold fits in Hfi. cbn [Z.eqb] in Hfi. eexists. split.
    { unfold init_header. apply sput_flags_eq with (w := 0%nat) (A := []) (B := []) (f := f); done. }
    split; try done; unfold fits, header; cbn [sh Z.eqb app].
    f_equal. rewrite Z.lor_0_l. unfold SDS_TYPE_BITS. rewrite Z.shiftl_mul_pow2 by lia.
    change (2 ^ 3) with 8. unfold wrapU. rewrite Z.mod_small by (zpow; lia). lia.
  - assert (Hoff : sdsHdrSize ty = 2 * Z.of_nat (hdr_w ty) + 1) by (ty_cases ty; done).
    assert (Hset : exists s, (s ← set_hdr_len (hdr_w ty) (mkSds ((A ++ B ++ [f]) ++ body) (sdsHdrSize ty)) initlen;
      s ← set_hdr_alloc (hdr_w ty) s us; sput s (-1) ty) = Some s /\ raw s ty 0 initlen us body).
    { rewrite (set_hdr_len_eq (hdr_w ty) _ A B f body) by (cbn [sh]; rewrite <- ?app_assoc; done).
      mstep.
      rewrite (set_hdr_alloc_eq (hdr_w ty) _ (le_encode (hdr_w ty) initlen) B f body)
        by (cbn [sh off]; rewrite ?length_le_encode; done).
      mstep.
      rewrite (sput_flags_eq (hdr_w ty) _ (le_encode (hdr_w ty) initlen) (le_encode (hdr_w ty) us) f body)
        by (cbn [sh off]; rewrite ?length_le_encode; done).
      eexists. split; [done|]. split; try done.
      unfold header. cbn [sh]. destruct (Z.eqb_spec ty 0); [done|].
      by rewrite Hu, Z.add_0_r, <- !app_assoc. }
    ty_cases ty; [done|exact Hset..].
Qed.

(** ** Operations on strings

    Each operation is shown to take a string to a string, under the laws of
    the allocator. *)

Section operations.
Context `{HA : Allocator} `{HL : !AllocatorLaws HA}.

Lemma malloc_usable_ok n :
  0 < n < 2 ^ 63 -> n <= Z.of_nat (length (malloc_usable n)) < 2 ^ 64 /\ Forall is_byte (malloc_usable n).
Proof.
  intros Hn. pose proof (usable_ge n Hn). unfold malloc_usable. rewrite length_mrealloc by lia.
  split; [done|]. unfold mrealloc. rewrite take_nil. cbn [app length].
  apply Forall_fmap, Forall_true. intros; apply junk_byte.
Qed.

Lemma mrealloc_bytes m n : Forall is_byte m -> Forall is_byte (mrealloc junk m n).
Proof.
  intros Hm. unfold mrealloc. apply Forall_app_2; [auto with bytes|].
  apply Forall_fmap, Forall_true. intros; apply junk_byte.
Qed.

(** Replacing the string: the new bytes and terminator are in place. *)
Lemma raw_sds_ok s ty aux len alloc str tl :
  raw s ty aux len alloc (str ++ 0 :: tl) -> fits ty (Z.of_nat (length str)) ->
  (ty <> 0 -> Z.of_nat (length str) <= alloc <= Z.of_nat (length str + length tl)) ->
  exists s', sdssetlen s (Z.of_nat (length str)) = Some s' /\ sds_ok s' str.
Proof.
  intros Hr Hf Ha. destruct (raw_sdssetlen _ _ _ _ _ _ Hr _ Hf) as (s' & Hs' & Hr').
  exists s'. split; [done|]. exists ty, aux, alloc, tl. done.
Qed.

Lemma split_at (m : list Z) n :
  (n <= length m)%nat -> exists a b, m = a ++ b /\ length a = n.
Proof. intros Hn. exists (take n m), (drop n m). rewrite take_drop, length_take. split; [done|lia]. Qed.

Lemma sdsnewplacement_ok buf ty init str :
  0 <= ty <= 4 -> Forall is_byte buf -> Forall is_byte str ->
  sdsHdrSize ty + Z.of_nat (length str) + 1 <= Z.of_nat (length buf) < 2 ^ 64 ->
  fits ty (Z.of_nat (length str)) -> (ty <> 0 -> fits ty (Z.of_nat (length buf) - sdsHdrSize ty - 1)) ->
  (init = INIT str \/ init = INIT_NULL /\ str = replicate (length str) 0 \/
   init = SDS_NOINIT /\ str = take (length str) (drop (Z.to_nat (sdsHdrSize ty)) buf)) ->
  exists s, sdsnewplacement buf ty init (Z.of_nat (length str)) = Some s /\ sds_ok s str.
Proof.
  intros Hty Hbuf Hstr Hlen Hf Hfu Hinit. pose proof (HdrSize_range ty Hty) as Hh.
  unfold sdsnewplacement, sdsReqSize. rewrite (wrapU_id 64 (Z.of_nat (length str) + _ + 1)) by (unfold inU; lia).
  replace (_ >=? _) with true by (rewrite Z.geb_leb; symmetry; apply Z.leb_le; lia).
  cbn [cassert mbind option_bind]. rewrite (wrapU_id 64) by (unfold inU; lia).
  destruct (split_at buf (Z.to_nat (sdsHdrSize ty))) as (H & body & -> & HlH); [lia|].
  apply Forall_app in Hbuf as [HbH Hbody]. rewrite length_app in Hlen, Hfu |- *.
  destruct (init_header_raw H body ty (Z.of_nat (length str))
    (Z.of_nat (length H + length body) - sdsHdrSize ty - 1)) as (s & -> & Hr); [done|lia|done..|].
  mstep.
  destruct (split_at body (length str)) as (x & tl & -> & Hlx); [lia|].
  rewrite length_app in Hlen, Hr. destruct tl as [|c tl]; [simpl in Hlen; lia|].
  assert (Hcp : exists s1, smemcpy s 0 str = Some s1 /\
    raw s1 ty 0 (Z.of_nat (length str)) (Z.of_nat (length H + (length x + length (c :: tl))) - sdsHdrSize ty - 1)
      (str ++ c :: tl)).
  { apply (raw_store _ _ _ _ _ _ Hr); [lia|by apply mstore_app_l|done]. }
  assert (exists s1, match init with
      | SDS_NOINIT => Some s
      | INIT_NULL => smemcpy s 0 (replicate (Z.to_nat (Z.of_nat (length str))) 0)
      | INIT bytes => if negb (Z.of_nat (length str) =? 0)
          then bs ← mload bytes 0 (Z.of_nat (length str)); smemcpy s 0 bs else Some s
      end = Some s1 /\
    raw s1 ty 0 (Z.of_nat (length str)) (Z.of_nat (length H + (length x + length (c :: tl))) - sdsHdrSize ty - 1)
      (str ++ c :: tl)) as (s1 & -> & Hr1).
  { destruct Hinit as [->|[[-> Hz]|[-> Hz]]].
    - destruct (Z.eqb_spec (Z.of_nat (length str)) 0); cbn [negb].
      + exists s. split; [done|]. destruct str; [|simpl in *; lia]. destruct x; [|simpl in *; lia]. done.
      + rewrite mload_full by done. done.
    - rewrite Nat2Z.id, <- Hz. done.
    - exists s. split; [done|]. rewrite Hz, <- HlH, drop_app_length, <- Hlx, take_app_length.
      by rewrite <- Hlx in Hr. }
  mstep.
  destruct (raw_sput _ _ _ _ _ _ str c tl (Z.of_nat (length str)) 0 Hr1) as (s2 & -> & Hr2); [done..|].
  exists s2. split; [done|]. eexists ty, 0, _, tl. split; [exact Hr2|]. intros _. simpl. lia.
Qed.

(** The block and the type that [_sdsnewlen] chooses *)
Lemma _sdsnewlen_place init n trymalloc :
  0 <= n <= SDS_LIMIT -> (trymalloc = true -> forall k, k <= n + 18 -> try_ok k = true) ->
  exists buf ty, Forall is_byte buf /\ 0 <= ty <= 4 /\
    sdsHdrSize ty + n + 1 <= Z.of_nat (length buf) < 2 ^ 64 /\ fits ty n /\
    (ty <> 0 -> fits ty (Z.of_nat (length buf) - sdsHdrSize ty - 1)) /\
    _sdsnewlen init n trymalloc = (s ← sdsnewplacement buf ty init n; Some (Some s)).
Proof.
  unfold SDS_LIMIT. intros Hl Htry. unfold _sdsnewlen.
  set (ty := if (sdsReqType n =? SDS_TYPE_5) && (n =? 0) then SDS_TYPE_8 else sdsReqType n).
  assert (Hfor : type_for ty n).
  { pose proof (sdsReqType_for n ltac:(zpow; lia)) as H. unfold ty, SDS_TYPE_8, SDS_TYPE_5 in *.
    destruct (Z.eqb_spec (sdsReqType n) 0) as [E|]; cbn [andb]; [|done].
    rewrite E in H. destruct (n =? 0); [by apply type_for_8|by rewrite E]. }
  assert (Hty : 0 <= ty <= 4) by (destruct Hfor; lia). pose proof (HdrSize_range ty Hty).
  rewrite (wrapU_id 64) by (unfold inU; zpow; lia).
  replace (_ >? _) with true by (rewrite Z.gtb_ltb; symmetry; apply Z.ltb_lt; lia).
  cbn [cassert mbind option_bind].
  replace (trymalloc && _) with false by (destruct trymalloc; [rewrite Htry by (done || lia)|]; done).
  destruct (malloc_usable_ok (sdsHdrSize ty + n + 1)) as [Hml Hmb]; [zpow; lia|].
  destruct (adjustTypeIfNeeded _ _ _) as [[adj ty'] hdr'] eqn:Ea.
  destruct (fun H => adjustTypeIfNeeded_ok ty n _ adj ty' hdr' Hfor H Ea)
    as (Hty' & -> & Hsz & Hz & Hfn & Hfu & _); [lia|].
  exists (malloc_usable (sdsHdrSize ty + n + 1)), ty'. split_and!; done || lia.
Qed.

Lemma sdsnewlen_ok init str :
  Forall is_byte str -> Z.of_nat (length str) <= SDS_LIMIT ->
  (init = INIT str \/ init = INIT_NULL /\ str = replicate (length str) 0) ->
  exists s, sdsnewlen init (Z.of_nat (length str)) = Some s /\ sds_ok s str.
Proof.
  intros Hb Hl Hinit.
  destruct (_sdsnewlen_place init (Z.of_nat (length str)) false) as (buf & ty & H1 & H2 & H3 & H4 & H5 & Heq);
    [lia|done|].
  destruct (sdsnewplacement_ok buf ty init str) as (s & Hs & Hok); [done..|tauto|].
  unfold sdsnewlen. rewrite Heq, Hs. eauto.
Qed.

(** Without initialisation, the string holds the bytes that were there. *)
Lemma sdsnewlen_noinit n trymalloc :
  0 <= n <= SDS_LIMIT -> (trymalloc = true -> forall k, k <= n + 18 -> try_ok k = true) ->
  exists s str, _sdsnewlen SDS_NOINIT n trymalloc = Some (Some s) /\ sds_ok s str /\
    Z.of_nat (length str) = n.
Proof.
  intros Hn Htry.
  destruct (_sdsnewlen_place SDS_NOINIT n trymalloc Hn Htry) as (buf & ty & H1 & H2 & H3 & H4 & H5 & Heq).
  pose proof (HdrSize_range ty H2). set (str := take (Z.to_nat n) (drop (Z.to_nat (sdsHdrSize ty)) buf)).
  assert (Hlen : Z.of_nat (length str) = n) by (unfold str; rewrite length_take, length_drop; lia).
  destruct (sdsnewplacement_ok buf ty SDS_NOINIT str) as (s & Hs & Hok); try (rewrite Hlen; done); try done.
  - unfold str. auto with bytes.
  - right; right. split; [done|]. by rewrite <- (Nat2Z.id (length str)), Hlen.
  - rewrite Hlen in Hs. exists s, str. rewrite Heq, Hs. done.
Qed.

(** A string with room for [n] bytes more *)
Definition room (s : sds) (str : list Z) (n : Z) : Prop :=
  exists ty aux alloc tl,
    raw s ty aux (Z.of_nat (length str)) alloc (str ++ 0 :: tl) /\
    (ty <> 0 -> Z.of_nat (length str) + n <= alloc <= Z.of_nat (length str + length tl)) /\
    (ty = 0 -> n = 0).

Lemma room_ok s str n : 0 <= n -> room s str n -> sds_ok s str.
Proof. intros Hn (ty & aux & alloc & tl & Hr & Ha & _). exists ty, aux, alloc, tl. split; [done|]. lia. Qed.

Lemma mrealloc_prefix (p q : list Z) n :
  Z.of_nat (length p) <= n ->
  exists q', mrealloc junk (p ++ q) n = p ++ q' /\ Z.of_nat (length p + length q') = n.
Proof.
  intros Hn. unfold mrealloc. rewrite take_app_ge by lia. rewrite <- app_assoc.
  eexists. split; [done|]. rewrite length_app, length_take, length_fmap, length_seq, length_app. lia.
Qed.

Lemma mstore_bytes m i bs m' :
  mstore m i bs = Some m' -> Forall is_byte m -> Forall is_byte bs -> Forall is_byte m'.
Proof.
  unfold mstore. destruct (_ && _); [|done]. intros [= <-] Hm Hb.
  auto with bytes.
Qed.

(** Bytes put behind a header of type [ty] in a fresh block *)
Lemma place_raw newsh ty bs :
  0 <= ty <= 4 -> Forall is_byte newsh -> Forall is_byte bs ->
  sdsHdrSize ty + Z.of_nat (length bs) <= Z.of_nat (length newsh) ->
  exists m s len alloc tl,
    mstore newsh (sdsHdrSize ty) bs = Some m /\
    sput (mkSds m (sdsHdrSize ty)) (-1) ty = Some s /\ raw s ty 0 len alloc (bs ++ tl) /\
    (length newsh = Z.to_nat (sdsHdrSize ty) + length bs + length tl)%nat.
Proof.
  intros Hty Hn Hb Hl. pose proof (HdrSize_range ty Hty) as Hh.
  destruct (split_at newsh (Z.to_nat (sdsHdrSize ty))) as (H & body & -> & HlH); [lia|].
  rewrite length_app in Hl. destruct (split_at body (length bs)) as (x & tl & -> & Hlx); [lia|].
  apply Forall_app in Hn as [HnH Hn]. apply Forall_app in Hn as [_ Hntl].
  destruct (sput_type_raw H (bs ++ tl) ty) as (s & len & alloc & Hs & Hr);
    [done|lia|done|by apply Forall_app_2|].
  exists (H ++ bs ++ tl), s, len, alloc, tl. split_and!; [|done|done|].
  - apply mstore_app_mid; lia.
  - rewrite !length_app. lia.
Qed.

Lemma raw_length s ty aux len alloc body :
  raw s ty aux len alloc body -> Z.of_nat (length (sh s)) = sdsHdrSize ty + Z.of_nat (length body).
Proof. intros [Hs _ Ht _ _ _ _]. rewrite Hs, length_app, <- (length_header ty aux len alloc) by done. lia. Qed.

(** The end of [_sdsMakeRoomFor]: the size of the block is recorded. *)
Lemma record_alloc s ty aux alloc str tl n :
  raw s ty aux (Z.of_nat (length str)) alloc (str ++ 0 :: tl) -> ty <> 0 ->
  Z.of_nat (length str) + n <= Z.of_nat (length str + length tl) < 2 ^ 64 ->
  fits ty (Z.of_nat (length str + length tl)) ->
  exists s',
    (_ ← cassert ((ty =? SDS_TYPE_5) || (u64 (Z.of_nat (length (sh s)) - sdsHdrSize ty - 1) <=? sdsTypeMaxSize ty));
     sdssetalloc s (u64 (Z.of_nat (length (sh s)) - sdsHdrSize ty - 1))) = Some s' /\ room s' str n.
Proof.
  intros Hr Hne Hn Hf. pose proof (raw_ty _ _ _ _ _ _ Hr) as Hty.
  pose proof (raw_length _ _ _ _ _ _ Hr) as Hl. rewrite length_app in Hl. cbn [length] in Hl.
  replace (Z.of_nat (length (sh s)) - sdsHdrSize ty - 1) with (Z.of_nat (length str + length tl)) by lia.
  rewrite (wrapU_id 64) by (unfold inU; zpow; lia).
  replace (_ || _) with true.
  2: { symmetry. apply orb_true_iff. right. apply Z.leb_le. by apply (fits_max ty). }
  cbn [cassert mbind option_bind].
  destruct (raw_sdssetalloc _ _ _ _ _ _ Hr (Z.of_nat (length str + length tl))) as (s' & Hs' & Hr'); [done|].
  exists s'. split; [done|]. destruct (Z.eqb_spec ty 0); [done|].
  exists ty, aux, (Z.of_nat (length str + length tl)), tl. split; [done|]. lia.
Qed.

Lemma fits_le ty n m : 0 <= n <= m -> fits ty m -> fits ty n.
Proof. unfold fits. lia. Qed.

(** The new length that [_sdsMakeRoomFor] asks for *)
Lemma grow_length newlen greedy :
  0 <= newlen <= SDS_LIMIT ->
  newlen <= (if greedy : bool then
      if newlen <? SDS_MAX_PREALLOC then u64 (newlen * 2) else u64 (newlen + SDS_MAX_PREALLOC)
    else newlen) < 2 ^ 63 - 32.
Proof.
  unfold SDS_LIMIT, SDS_MAX_PREALLOC. intros Hn. zpow. destruct greedy; [|lia].
  zcase; rewrite wrapU_id by (unfold inU; zpow; lia); lia.
Qed.

Lemma cassert_gt a b : b < a -> cassert (a >? b) = Some tt.
Proof. intros H. rewrite Z.gtb_ltb, (proj2 (Z.ltb_lt b a) H). done. Qed.

(** The string in a fresh block of type [t] *)
Lemma place_room newsh t str addlen :
  0 <= t <= 4 -> t <> 0 -> Forall is_byte newsh -> Forall is_byte (str ++ [0]) -> 0 <= addlen ->
  sdsHdrSize t + (Z.of_nat (length str) + addlen) + 1 <= Z.of_nat (length newsh) < 2 ^ 64 ->
  fits t (Z.of_nat (length newsh) - sdsHdrSize t - 1) ->
  exists m s1 s2, mstore newsh (sdsHdrSize t) (str ++ [0]) = Some m /\
    sput (mkSds m (sdsHdrSize t)) (-1) t = Some s1 /\
    sdssetlen s1 (Z.of_nat (length str)) = Some s2 /\
    exists s', (_ ← cassert ((t =? SDS_TYPE_5) ||
                      (u64 (Z.of_nat (length (sh s2)) - sdsHdrSize t - 1) <=? sdsTypeMaxSize t));
                sdssetalloc s2 (u64 (Z.of_nat (length (sh s2)) - sdsHdrSize t - 1))) = Some s' /\
      room s' str addlen.
Proof.
  intros Ht Hne Hnb Hsb Hadd Hnl Hfu. pose proof (HdrSize_range t Ht).
  destruct (place_raw newsh t (str ++ [0])) as (m & s1 & len & al & tl' & Hm & Hs1 & Hr1 & Hl1);
    [done|done|done|rewrite length_app; simpl; lia|].
  rewrite length_app in Hl1. rewrite <- app_assoc in Hr1. cbn [length app] in *.
  assert (Htl : Z.of_nat (length str + length tl') = Z.of_nat (length newsh) - sdsHdrSize t - 1) by lia.
  destruct (raw_sdssetlen _ _ _ _ _ _ Hr1 (Z.of_nat (length str))) as (s2 & Hs2 & Hr2).
  { eapply fits_le; [|done]. lia. }
  exists m, s1, s2. split_and!; [done..|].
  apply (record_alloc _ _ _ _ _ _ addlen Hr2); [done|lia|by rewrite Htl].
Qed.

(** The request of [_sdsMakeRoomFor] goes to a type that is not the one
    without free space. *)
Lemma grow_type L :
  0 <= L < 2 ^ 63 ->
  let t := if sdsReqType L =? SDS_TYPE_5 then SDS_TYPE_8 else sdsReqType L in
  type_for t L /\ t <> 0 /\ 0 <= t <= 4.
Proof.
  intros HL1 t. pose proof (sdsReqType_for L HL1) as H. unfold t, SDS_TYPE_8, SDS_TYPE_5 in *.
  destruct (Z.eqb_spec (sdsReqType L) 0) as [E|].
  - rewrite E in H. split; [by apply type_for_8|lia].
  - split; [done|]. destruct H. lia.
Qed.

(** Reallocation keeps the header and the bytes [p] that still fit. *)
Lemma realloc_raw s ty aux len alloc p q n :
  raw s ty aux len alloc (p ++ q) -> sdsHdrSize ty + Z.of_nat (length p) <= n ->
  exists q', raw (mkSds (mrealloc junk (sh s) n) (sdsHdrSize ty)) ty aux len alloc (p ++ q') /\
    Z.of_nat (length (mrealloc junk (sh s) n)) = n /\ Forall is_byte (mrealloc junk (sh s) n).
Proof.
  intros Hr Hn. pose proof (raw_bytes _ _ _ _ _ _ Hr) as Hb. destruct Hr as [Hs Ho Ht Ha Hf Hfa _].
  pose proof (length_header ty aux len alloc Ht) as Hlh. pose proof (HdrSize_range ty Ht).
  assert (Hby : Forall is_byte (mrealloc junk (sh s) n)).
  { apply mrealloc_bytes. rewrite Hs. apply Forall_app_2; [by apply header_bytes|done]. }
  rewrite Hs, app_assoc in *.
  destruct (mrealloc_prefix (header ty aux len alloc ++ p) q n) as (q' & Hq & Hlq);
    [rewrite length_app; lia|].
  rewrite Hq in *. exists q'. split_and!; [|rewrite length_app; lia|done].
  split; try done; [by rewrite <- app_assoc|].
  rewrite <- app_assoc in Hby. by apply Forall_app in Hby as [_ ?].
Qed.

Lemma MakeRoomFor_ok s str addlen greedy :
  sds_ok s str -> 0 <= addlen -> Z.of_nat (length str) + addlen <= SDS_LIMIT ->
  exists s', _sdsMakeRoomFor s addlen greedy = Some s' /\ room s' str addlen.
Proof.
  intros (ty & aux & alloc & tl & Hr & Ha) Hn Hlim.
  assert (HLIM : SDS_LIMIT < 2 ^ 63) by (unfold SDS_LIMIT; zpow; lia).
  pose proof (raw_bytes _ _ _ _ _ _ Hr) as Hbody.
  unfold _sdsMakeRoomFor. rewrite (raw_sdsavail _ _ _ _ _ _ Hr), (raw_sdsType _ _ _ _ _ _ Hr) by lia.
  mstep. zcase.
  { exists s. split; [done|]. exists ty, aux, alloc, tl. split; [done|].
    destruct (Z.eqb_spec ty 0); lia. }
  assert (0 < addlen) by (destruct (Z.eqb_spec ty 0); lia).
  rewrite (raw_sdslen _ _ _ _ _ _ Hr). mstep.
  rewrite (wrapU_id 64 (Z.of_nat (length str) + addlen)) by (unfold inU; zpow; lia).
  rewrite (cassert_gt _ (Z.of_nat (length str))) by lia. mstep.
  pose proof (grow_length (Z.of_nat (length str) + addlen) greedy ltac:(lia)) as HL1.
  set (L := if greedy then _ else _) in *. clearbody L.
  destruct (grow_type L ltac:(lia)) as (Hfor & Ht0 & Ht).
  set (t := if sdsReqType L =? SDS_TYPE_5 then _ else _) in *. clearbody t.
  pose proof (HdrSize_range t Ht) as Hh.
  rewrite (wrapU_id 64 (sdsHdrSize t + L + 1)) by (unfold inU; zpow; lia).
  rewrite cassert_gt by lia. mstep.
  pose proof (usable_ge (sdsHdrSize t + L + 1) ltac:(lia)) as Hus.
  assert (Hstr0 : Forall is_byte (str ++ [0])).
  { apply Forall_app in Hbody as [Hb1 _]. apply Forall_app_2; [done|]. repeat constructor; lia. }
  assert (Hb0 : str ++ 0 :: tl = (str ++ [0]) ++ tl) by (by rewrite <- app_assoc).
  destruct (Z.eqb_spec ty t) as [->|Hdiff].
  - (* the same type: the block is reallocated *)
    rewrite Hb0 in Hr. destruct (realloc_raw _ _ _ _ _ _ _ (usable (sdsHdrSize t + L + 1)) Hr)
      as (q & Hr1 & Hl1 & Hby1); [rewrite length_app; simpl; lia|].
    set (newsh := mrealloc _ _ _) in *. clearbody newsh. rewrite Hl1.
    destruct (adjustTypeIfNeeded _ _ _) as [[adj t'] h'] eqn:Eadj.
    destruct (fun H => adjustTypeIfNeeded_ok t L _ adj t' h' Hfor H Eadj)
      as (Ht' & -> & Hsz & Hz & _ & Hfu & Hadj); [lia|].
    destruct adj.
    + unfold mmove. cbn [off]. pose proof (raw_sbytes _ _ _ _ _ _ Hr1 0 (Z.of_nat (length str) + 1)) as Hld.
      unfold sbytes in Hld. cbn [sh off] in Hld. rewrite Z.add_0_r in Hld. rewrite Hld by lia.
      rewrite mload_app_l by (rewrite length_app; simpl; lia). mstep.
      destruct (place_room newsh t' str addlen) as (m & s1 & s2 & -> & Hs1 & Hs2 & Hgo);
        try done; try lia; [rewrite Hl1; apply Hfu; lia|].
      mstep. rewrite Hs1. mstep. rewrite Hs2. mstep.
      exact Hgo.
    + subst t'. mstep. rewrite <- app_assoc in Hr1.
      pose proof (raw_length _ _ _ _ _ _ Hr1) as Hrl. cbn [sh] in Hrl. rewrite length_app in Hrl. simpl in Hrl.
      apply (record_alloc _ _ _ _ _ _ addlen Hr1); [done|lia|].
      replace (Z.of_nat (length str + length q)) with (usable (sdsHdrSize t + L + 1) - sdsHdrSize t - 1) by lia.
      apply Hfu. lia.
  - (* a new block *)
    destruct (malloc_usable_ok (sdsHdrSize t + L + 1)) as [Hml Hmb]; [lia|].
    set (newsh := malloc_usable _) in *. clearbody newsh.
    destruct (adjustTypeIfNeeded _ _ _) as [[adj t'] h'] eqn:Eadj.
    destruct (fun H => adjustTypeIfNeeded_ok t L _ adj t' h' Hfor H Eadj)
      as (Ht' & -> & Hsz & Hz & _ & Hfu & _); [lia|].
    rewrite (raw_sbytes _ _ _ _ _ _ Hr), Hb0 by lia.
    rewrite mload_app_l by (rewrite length_app; simpl; lia). mstep.
    destruct (place_room newsh t' str addlen) as (m & s1 & s2 & -> & Hs1 & Hs2 & Hgo);
      try done; try lia; [apply Hfu; lia|].
    mstep. rewrite Hs1. mstep. rewrite Hs2. mstep.
    exact Hgo.
Qed.


(** Terminating the bytes [str] and recording their number, in either order *)
Lemma finish_set_put s ty aux len alloc str c tl n :
  raw s ty aux len alloc (str ++ c :: tl) -> n = Z.of_nat (length str) -> fits ty n ->
  (ty <> 0 -> n <= alloc <= Z.of_nat (length str + length tl)) ->
  exists s', (s ← sdssetlen s n; sput s n 0) = Some s' /\ sds_ok s' str.
Proof.
  intros Hr -> Hf Ha. destruct (raw_sdssetlen _ _ _ _ _ _ Hr _ Hf) as (s1 & -> & Hr1).
  mstep.
  destruct (raw_sput _ _ _ _ _ _ str c tl (Z.of_nat (length str)) 0 Hr1) as (s2 & -> & Hr2); [done..|].
  exists s2. split; [done|]. exists ty, aux, alloc, tl. done.
Qed.

Lemma finish_put_set s ty aux len alloc str c tl n :
  raw s ty aux len alloc (str ++ c :: tl) -> n = Z.of_nat (length str) -> fits ty n ->
  (ty <> 0 -> n <= alloc <= Z.of_nat (length str + length tl)) ->
  exists s', (s ← sput s n 0; sdssetlen s n) = Some s' /\ sds_ok s' str.
Proof.
  intros Hr -> Hf Ha.
  destruct (raw_sput _ _ _ _ _ _ str c tl (Z.of_nat (length str)) 0 Hr) as (s1 & -> & Hr1); [done..|].
  mstep. destruct (raw_sdssetlen _ _ _ _ _ _ Hr1 _ Hf) as (s2 & -> & Hr2).
  exists s2. split; [done|]. exists ty, aux, alloc, tl. done.
Qed.

Lemma room_fits s str n :
  room s str n -> 0 <= n -> exists ty aux alloc tl,
    raw s ty aux (Z.of_nat (length str)) alloc (str ++ 0 :: tl) /\
    fits ty (Z.of_nat (length str) + n) /\ Z.of_nat (length str) + n <= Z.of_nat (length str + length tl) + (if ty =? 0 then n else 0) /\
    (ty <> 0 -> Z.of_nat (length str) + n <= alloc <= Z.of_nat (length str + length tl)) /\
    (ty = 0 -> n = 0).
Proof.
  intros (ty & aux & alloc & tl & Hr & Ha & H0) Hn. exists ty, aux, alloc, tl.
  pose proof (raw_fits _ _ _ _ _ _ Hr). pose proof (raw_fits_alloc _ _ _ _ _ _ Hr).
  split_and!; try done.
  - destruct (decide (ty = 0)); [rewrite H0 by done; by rewrite Z.add_0_r|].
    eapply fits_le; [|by apply H1]. lia.
  - destruct (Z.eqb_spec ty 0); lia.
Qed.

Lemma catlen_ok s str t :
  sds_ok s str -> Forall is_byte t -> Z.of_nat (length str) + Z.of_nat (length t) <= SDS_LIMIT ->
  exists s', sdscatlen s t (Z.of_nat (length t)) = Some s' /\ sds_ok s' (str ++ t).
Proof.
  intros Hok Ht Hlim. unfold sdscatlen, sdsMakeRoomFor.
  destruct (MakeRoomFor_ok s str (Z.of_nat (length t)) true Hok) as (s1 & Hs1 & Hroom); [lia|done|].
  destruct Hok as (ty0 & aux0 & al0 & tl0 & Hr0 & _).
  rewrite (raw_sdslen _ _ _ _ _ _ Hr0), Hs1. mstep.
  rewrite mload_full by done. mstep.
  destruct (room_fits _ _ _ Hroom) as (ty & aux & alloc & tl & Hr & Hf & _ & Ha & H0); [lia|].
  destruct (split_at (0 :: tl) (length t)) as (x & y & Hxy & Hlx).
  { simpl. destruct (decide (ty = 0)); lia. }
  assert (Hly : (length t + length y = S (length tl))%nat)
    by (apply (f_equal length) in Hxy; rewrite length_app in Hxy; simpl in Hxy; lia).
  destruct y as [|c y]; [exfalso; simpl in Hly; destruct (decide (ty = 0)); lia|].
  rewrite Hxy in Hr.
  destruct (raw_store _ _ _ _ _ _ Hr (str ++ t ++ c :: y) (Z.of_nat (length str)) t) as (s2 & -> & Hr2);
    [lia|by apply mstore_app_mid|done|].
  mstep. rewrite app_assoc in Hr2.
  rewrite (wrapU_id 64) by (unfold inU, SDS_LIMIT in *; zpow; lia).
  apply (finish_set_put _ _ _ _ _ _ _ _ _ Hr2); [rewrite length_app; lia|done|].
  rewrite length_app. simpl in Hly. lia.
Qed.

Lemma growzero_ok s str len :
  sds_ok s str -> Z.of_nat (length str) <= len <= SDS_LIMIT ->
  exists s', sdsgrowzero s len = Some s' /\
    sds_ok s' (str ++ replicate (Z.to_nat (len - Z.of_nat (length str))) 0).
Proof.
  intros Hok Hlen. unfold sdsgrowzero, sdsMakeRoomFor.
  pose proof Hok as (ty0 & aux0 & al0 & tl0 & Hr0 & _).
  rewrite (raw_sdslen _ _ _ _ _ _ Hr0). mstep. zcase.
  { exists s. split; [done|]. replace (Z.to_nat _) with 0%nat by lia. by rewrite app_nil_r. }
  destruct (MakeRoomFor_ok s str (len - Z.of_nat (length str)) true Hok) as (s1 & -> & Hroom); [lia|lia|].
  mstep.
  destruct (room_fits _ _ _ Hroom) as (ty & aux & alloc & tl & Hr & Hf & _ & Ha & H0); [lia|].
  set (k := Z.to_nat (len - Z.of_nat (length str))).
  destruct (split_at (0 :: tl) (k + 1)) as (x & y & Hxy & Hlx).
  { simpl. destruct (decide (ty = 0)); lia. }
  assert (Hly : (k + 1 + length y = S (length tl))%nat)
    by (apply (f_equal length) in Hxy; rewrite length_app in Hxy; simpl in Hxy; lia).
  rewrite Hxy in Hr.
  destruct (raw_store _ _ _ _ _ _ Hr (str ++ replicate (k + 1) 0 ++ y) (Z.of_nat (length str))
    (replicate (Z.to_nat (len - Z.of_nat (length str) + 1)) 0)) as (s2 & -> & Hr2).
  - lia.
  - replace (Z.to_nat (len - Z.of_nat (length str) + 1)) with (k + 1)%nat by lia.
    apply mstore_app_mid; [done|by rewrite length_replicate].
  - apply Forall_replicate. unfold is_byte. lia.
  - mstep. rewrite replicate_add, <- app_assoc, app_assoc in Hr2. cbn [replicate app] in Hr2.
    assert (Hlen' : Z.of_nat (length (str ++ replicate k 0)) = len)
      by (rewrite length_app, length_replicate; lia).
    replace (Z.of_nat (length str) + (len - Z.of_nat (length str))) with len in Hf, Ha by lia.
    destruct (raw_sds_ok _ _ _ _ _ _ _ Hr2) as (s3 & Hs3 & Hok3); [by rewrite Hlen'| |].
    { rewrite Hlen', length_app, length_replicate. lia. }
    rewrite Hlen' in Hs3. eauto.
Qed.

Lemma cpylen_ok s str t :
  sds_ok s str -> Forall is_byte t ->
  Z.of_nat (length str) <= SDS_LIMIT -> Z.of_nat (length t) <= SDS_LIMIT ->
  exists s', sdscpylen s t (Z.of_nat (length t)) = Some s' /\ sds_ok s' t.
Proof.
  intros Hok Ht Hls Hlt. unfold sdscpylen, sdsMakeRoomFor.
  pose proof Hok as (ty0 & aux0 & al0 & tl0 & Hr0 & Ha0).
  rewrite (raw_sdsalloc _ _ _ _ _ _ Hr0). mstep.
  assert (exists s1 str1 ty aux alloc tl,
    (if (if ty0 =? 0 then Z.of_nat (length str) else al0) <? Z.of_nat (length t)
     then l ← sdslen s; _sdsMakeRoomFor s (u64 (Z.of_nat (length t) - l)) true else Some s) = Some s1 /\
    raw s1 ty aux (Z.of_nat (length str1)) alloc (str1 ++ 0 :: tl) /\ fits ty (Z.of_nat (length t)) /\
    Z.of_nat (length t) <= Z.of_nat (length str1 + length tl) /\
    (ty <> 0 -> Z.of_nat (length t) <= alloc <= Z.of_nat (length str1 + length tl)))
    as (s1 & str1 & ty & aux & alloc & tl & -> & Hr & Hf & Hl & Ha).
  { zcase.
    - rewrite (raw_sdslen _ _ _ _ _ _ Hr0). mstep.
      assert (Z.of_nat (length str) < Z.of_nat (length t)) by (destruct (Z.eqb_spec ty0 0); lia).
      rewrite wrapU_id by (unfold inU, SDS_LIMIT in *; zpow; lia).
      destruct (MakeRoomFor_ok s str (Z.of_nat (length t) - Z.of_nat (length str)) true Hok)
        as (s1 & -> & Hroom); [lia|lia|].
      destruct (room_fits _ _ _ Hroom) as (ty & aux & alloc & tl & Hr & Hf & _ & Ha & H0); [lia|].
      exists s1, str, ty, aux, alloc, tl.
      replace (Z.of_nat (length str) + (Z.of_nat (length t) - Z.of_nat (length str)))
        with (Z.of_nat (length t)) in * by lia.
      split_and!; try done. destruct (decide (ty = 0)); lia.
    - exists s, str, ty0, aux0, al0, tl0. split_and!; try done.
      + destruct (Z.eqb_spec ty0 0).
        * eapply fits_le; [|apply (raw_fits _ _ _ _ _ _ Hr0)]. lia.
        * eapply fits_le; [|by apply (raw_fits_alloc _ _ _ _ _ _ Hr0)]. lia.
      + destruct (Z.eqb_spec ty0 0); lia.
      + intros Hne. destruct (Z.eqb_spec ty0 0); [done|]. specialize (Ha0 Hne). lia. }
  mstep. rewrite mload_full by done. mstep.
  destruct (split_at (str1 ++ 0 :: tl) (length t)) as (x & y & Hxy & Hlx);
    [rewrite length_app; simpl; lia|].
  assert (Hly : (length t + length y = length str1 + S (length tl))%nat)
    by (apply (f_equal length) in Hxy; rewrite !length_app in Hxy; simpl in Hxy; lia).
  destruct y as [|c y]; [exfalso; simpl in Hly; lia|]. rewrite Hxy in Hr.
  destruct (raw_store _ _ _ _ _ _ Hr (t ++ c :: y) 0 t) as (s2 & -> & Hr2);
    [lia|by apply mstore_app_l|done|].
  mstep. apply (finish_put_set _ _ _ _ _ _ _ _ _ Hr2); [done|done|].
  simpl in Hly. intros Hne. specialize (Ha Hne). lia.
Qed.


(** ** Shrinking in place *)

Lemma raw_mmove s ty aux len alloc body start n :
  raw s ty aux len alloc body -> 0 <= start -> 0 <= n -> start + n <= Z.of_nat (length body) ->
  exists s1, (m ← mmove (sh s) (off s) (off s + start) n; Some (mkSds m (off s))) = Some s1 /\
    raw s1 ty aux len alloc (take (Z.to_nat n) (drop (Z.to_nat start) body) ++ drop (Z.to_nat n) body).
Proof.
  intros Hr Hs Hn Hl. unfold mmove.
  pose proof (raw_sbytes _ _ _ _ _ _ Hr start n Hs) as Hld. unfold sbytes in Hld. rewrite Hld.
  rewrite mload_Some by lia. mstep.
  set (bs := take _ _). assert (Hlb : length bs = Z.to_nat n) by (unfold bs; rewrite length_take, length_drop; lia).
  destruct (raw_store _ _ _ _ _ _ Hr (bs ++ drop (Z.to_nat n) body) 0 bs) as (s1 & Hs1 & Hr1).
  - lia.
  - rewrite <- (take_drop (Z.to_nat n) body) at 1. apply mstore_app_l. rewrite length_take. lia.
  - apply Forall_take, Forall_drop, Hr.
  - unfold smemcpy in Hs1. rewrite Z.add_0_r in Hs1. eauto.
Qed.

(** The part of [n] bytes from [start] becomes the string. *)
Lemma shrink_ok s str start n (moved : bool) :
  sds_ok s str -> 0 <= start -> 0 <= n -> start + n <= Z.of_nat (length str) ->
  (moved = false -> n = 0 \/ start = 0) ->
  exists s', (s ← (if moved then m ← mmove (sh s) (off s) (off s + start) n; Some (mkSds m (off s)) else Some s);
              s ← sput s n 0; sdssetlen s n) = Some s' /\
    sds_ok s' (take (Z.to_nat n) (drop (Z.to_nat start) str)).
Proof.
  intros (ty & aux & alloc & tl & Hr & Ha) Hs Hn Hl Hmv.
  set (sub := take (Z.to_nat n) (drop (Z.to_nat start) str)).
  assert (Hls : length sub = Z.to_nat n) by (unfold sub; rewrite length_take, length_drop; lia).
  assert (exists s1 c tl',
    (if moved then m ← mmove (sh s) (off s) (off s + start) n; Some (mkSds m (off s)) else Some s) = Some s1 /\
    raw s1 ty aux (Z.of_nat (length str)) alloc (sub ++ c :: tl') /\
    (length sub + length tl' = length str + length tl)%nat) as (s1 & c & tl' & -> & Hr1 & Hl1).
  { assert (Hsplit : exists c tl', drop (Z.to_nat n) (str ++ 0 :: tl) = c :: tl').
    { destruct (drop (Z.to_nat n) (str ++ 0 :: tl)) eqn:E; [|eauto].
      apply (f_equal length) in E. rewrite length_drop, length_app in E. simpl in E. lia. }
    destruct Hsplit as (c & tl' & Hc). pose proof (f_equal length Hc) as Hcl.
    rewrite length_drop, length_app in Hcl. simpl in Hcl.
    destruct moved.
    - destruct (raw_mmove _ _ _ _ _ _ start n Hr) as (s1 & -> & Hr1); [lia|lia|rewrite length_app; lia|].
      exists s1, c, tl'. split; [done|]. split; [|lia]. rewrite Hc in Hr1.
      rewrite drop_app_le, take_app_le in Hr1 by (rewrite ?length_drop; lia). done.
    - exists s, c, tl'. split; [done|]. split; [|lia].
      replace (sub ++ c :: tl') with (str ++ 0 :: tl); [done|].
      rewrite <- (take_drop (Z.to_nat n) (str ++ 0 :: tl)), Hc. f_equal.
      rewrite take_app_le by lia. unfold sub.
      destruct Hmv as [->| ->]; [done|done|by rewrite drop_0]. }
  mstep. apply (finish_put_set _ _ _ _ _ _ _ _ _ Hr1); [lia| |].
  - eapply fits_le; [|apply (raw_fits _ _ _ _ _ _ Hr)]. lia.
  - lia.
Qed.

Definition substr (str : list Z) (start len : Z) : list Z :=
  if start >=? Z.of_nat (length str) then [] else take (Z.to_nat len) (drop (Z.to_nat start) str).

Lemma sdssubstr_ok s str start len :
  sds_ok s str -> 0 <= start -> 0 <= len ->
  exists s', sdssubstr s start len = Some s' /\ sds_ok s' (substr str start len).
Proof.
  intros Hok Hs Hl. unfold sdssubstr, substr.
  pose proof Hok as (ty & aux & alloc & tl & Hr & _).
  rewrite (raw_sdslen _ _ _ _ _ _ Hr). mstep.
  destruct (start >=? Z.of_nat (length str)) eqn:E; zbool.
  - replace (0 >? Z.of_nat (length str) - 0) with false
      by (rewrite Z.gtb_ltb; symmetry; apply Z.ltb_ge; lia).
    apply (shrink_ok s str 0 0 false Hok); lia.
  - set (n := if len >? Z.of_nat (length str) - start then _ else _).
    assert (Hn : n = Z.min len (Z.of_nat (length str) - start)) by (unfold n; zcase; lia).
    destruct (shrink_ok s str start n (negb (n =? 0)) Hok) as (s' & Hs' & Hok'); [lia..| |].
    { intros Hz. apply negb_false_iff, Z.eqb_eq in Hz. lia. }
    exists s'. split; [done|].
    replace (take (Z.to_nat len) (drop (Z.to_nat start) str))
      with (take (Z.to_nat n) (drop (Z.to_nat start) str)); [done|].
    destruct (Z.leb_spec len (Z.of_nat (length str) - start)).
    + by replace n with len by lia.
    + rewrite !take_ge by (rewrite length_drop; lia). done.
Qed.

(** The inclusive range of [sdsrange], with indexes from the end when they
    are negative *)
Definition range_str (str : list Z) (start end_ : Z) : list Z :=
  let n := Z.of_nat (length str) in
  let start := if start <? 0 then n + start else start in
  let end_ := if end_ <? 0 then n + end_ else end_ in
  if (0 <=? start) && (start <=? end_)
  then take (Z.to_nat (end_ - start + 1)) (drop (Z.to_nat start) str) else [].

Lemma sdsrange_ok s str start end_ :
  sds_ok s str -> Z.of_nat (length str) <= SDS_LIMIT -> inS 63 start -> inS 63 end_ ->
  exists s', sdsrange s start end_ = Some s' /\ sds_ok s' (range_str str start end_).
Proof.
  unfold SDS_LIMIT, inS. change (63 - 1) with 62. intros Hok Hlim Hs He. unfold sdsrange, range_str.
  pose proof Hok as (ty & aux & alloc & tl & Hr & _).
  rewrite (raw_sdslen _ _ _ _ _ _ Hr). mstep. zcase.
  { exists s. split; [done|]. destruct str; [|simpl in *; lia].
    rewrite drop_nil, take_nil. by destruct (_ && _). }
  set (n := Z.of_nat (length str)) in *.
  assert (Hw : forall x, - 2 ^ 62 <= x < 2 ^ 62 -> s64 (n + x) = n + x).
  { intros x Hx. apply wrapS_id; [lia|]. unfold inS. change (64 - 1) with 63. zpow. lia. }
  rewrite (Hw start Hs), (Hw end_ He).
  set (st := if start <? 0 then _ else _). set (en := if end_ <? 0 then _ else _).
  assert (Hst : - 2 ^ 63 <= st < 2 ^ 63) by (unfold st; zpow; zcase; lia).
  assert (Hen : - 2 ^ 63 <= en < 2 ^ 63) by (unfold en; zpow; zcase; lia).
  clearbody st en.
  destruct (sdssubstr_ok s str (u64 st) (if st >? en then 0 else u64 (en - st + 1)) Hok) as (s' & Hs' & Hok').
  { apply (wrapU_range 64). lia. } { zcase; [lia|]. apply (wrapU_range 64). lia. }
  exists s'. split; [done|].
  replace (if (0 <=? st) && (st <=? en) then _ else _)
    with (substr str (u64 st) (if st >? en then 0 else u64 (en - st + 1))); [done|].
  unfold substr. destruct (Z.leb_spec 0 st); cbn [andb].
  - rewrite (wrapU_id 64 st) by (unfold inU; zpow; lia).
    rewrite Z.gtb_ltb. destruct (Z.leb_spec st en), (Z.ltb_spec en st); try lia.
    + rewrite wrapU_id by (unfold inU; zpow; lia). zcase; [|done].
      rewrite drop_ge by lia. by rewrite take_nil.
    + zcase; done.
  - replace (u64 st) with (st + 2 ^ 64).
    2: { unfold wrapU. rewrite <- (Z.mod_add st 1), Z.mod_small by (zpow; lia). lia. }
    zcase; [done|]. zpow. lia.
Qed.


(** ** Trimming *)

Lemma sget_ok s str i c :
  sds_ok s str -> 0 <= i -> str !! Z.to_nat i = Some c -> sget s i = Some c.
Proof.
  intros (ty & aux & alloc & tl & Hr & _) Hi Hc.
  pose proof (raw_sbytes _ _ _ _ _ _ Hr i 1 Hi) as H. unfold sbytes, sget in *.
  pose proof (lookup_lt_Some _ _ _ Hc).
  rewrite (mload_Some (str ++ 0 :: tl)) in H by (rewrite ?length_app; simpl; lia).
  rewrite drop_app_le in H by lia. rewrite (drop_S _ _ _ Hc) in H. cbn in H.
  unfold mload in H. destruct (_ && _) eqn:E; [|done]. zbool. injection H as H.
  unfold rd. destruct (Z.ltb_spec (off s + i) 0); [lia|].
  destruct (lookup_lt_is_Some_2 (sh s) (Z.to_nat (off s + i))) as [d Hd]; [lia|].
  rewrite (drop_S _ _ _ Hd) in H. change (Z.to_nat 1) with 1%nat in H. cbn in H. congruence.
Qed.

Section trim.
Context (s : sds) (str cset : list Z) (Hok : sds_ok s str).
Let P c := in_cset cset c = true.

Lemma trim_left_ok n a rest :
  str = a ++ rest -> Forall P a -> (length rest <= n)%nat ->
  exists a' rest', trim_left n s cset (Z.of_nat (length a)) (Z.of_nat (length str) - 1)
      = Some (Z.of_nat (length a')) /\ str = a' ++ rest' /\ Forall P a' /\
    (forall c, head rest' = Some c -> ~ P c).
Proof.
  revert a rest. induction n as [|n IH]; intros a rest Hs Ha Hn; cbn [trim_left].
  - destruct rest; [|simpl in Hn; lia]. zcase; [exfalso; apply (f_equal length) in Hs; rewrite app_nil_r in Hs; lia|].
    exists a, []. done.
  - destruct rest as [|c rest].
    { zcase; [rewrite Hs, app_nil_r in E; lia|]. exists a, []. done. }
    zcase; [|rewrite Hs, length_app in E; simpl in E; lia].
    rewrite (sget_ok s str _ c Hok);
      [|lia|by rewrite Nat2Z.id, Hs, lookup_app_r, Nat.sub_diag by lia].
    mstep. destruct (in_cset cset c) eqn:Ec.
    + destruct (IH (a ++ [c]) rest) as (a' & rest' & Ht & ?);
        [by rewrite <- app_assoc|apply Forall_app_2; [done|by constructor]|simpl in Hn; lia|].
      exists a', rest'. rewrite length_app in Ht. cbn [length] in Ht.
      replace (Z.of_nat (length a) + 1) with (Z.of_nat (length a + 1)) by lia. done.
    + exists a, (c :: rest). split_and!; [done..|]. intros d [= <-]. unfold P. by rewrite Ec.
Qed.

Lemma trim_right_ok n a mid b c :
  str = a ++ (c :: mid) ++ b -> Forall P b -> ~ P c -> (length mid <= n)%nat ->
  exists mid' b', trim_right n s cset (Z.of_nat (length a)) (Z.of_nat (length a + length mid))
      = Some (Z.of_nat (length a + length mid')) /\ str = a ++ (c :: mid') ++ b' /\ Forall P b' /\
    (forall d, last (c :: mid') = Some d -> ~ P d).
Proof.
  revert mid b. induction n as [|n IH]; intros mid b Hs Hb Hc Hn.
  - destruct mid; [|simpl in Hn; lia]. cbn [trim_right]. rewrite Nat.add_0_r, Z.gtb_ltb, Z.ltb_irrefl.
    exists [], b. cbn [length]. rewrite Nat.add_0_r. split_and!; [done..|]. intros d [= <-]. done.
  - destruct mid as [|x mid _] using rev_ind.
    { cbn [trim_right length]. rewrite Nat.add_0_r, Z.gtb_ltb, Z.ltb_irrefl.
      exists [], b. cbn [length]. rewrite Nat.add_0_r. split_and!; [done..|]. intros d [= <-]. done. }
    cbn [trim_right]. rewrite length_app in *. cbn [length] in *. zcase; [|lia].
    rewrite (sget_ok s str _ x Hok); [|lia|].
    2: { rewrite Nat2Z.id. replace str with ((a ++ c :: mid) ++ x :: b).
         - apply list_lookup_middle. rewrite length_app. simpl. lia.
         - rewrite Hs. cbn [app]. by rewrite <- !app_assoc. }
    mstep. destruct (in_cset cset x) eqn:Ex.
    + destruct (IH mid (x :: b)) as (mid' & b' & Ht & ?).
      * rewrite Hs. cbn [app]. by rewrite <- !app_assoc.
      * by constructor.
      * done.
      * lia.
      * exists mid', b'. replace (Z.of_nat (length a + (length mid + 1)) - 1)
          with (Z.of_nat (length a + length mid)) by lia. done.
    + exists (mid ++ [x]), b. rewrite length_app. cbn [length]. split_and!; [done..|].
      intros d. rewrite app_comm_cons, last_snoc. intros [= <-]. unfold P. by rewrite Ex.
Qed.

Lemma sdstrim_ok :
  exists s' a mid b, sdstrim s cset = Some s' /\ sds_ok s' mid /\ str = a ++ mid ++ b /\
    Forall P a /\ Forall P b /\
    (forall c, head mid = Some c -> ~ P c) /\ (forall c, last mid = Some c -> ~ P c).
Proof.
  unfold sdstrim. pose proof Hok as (ty & aux & alloc & tl & Hr & _).
  rewrite (raw_sdslen _ _ _ _ _ _ Hr). mstep.
  destruct (trim_left_ok (Z.to_nat (Z.of_nat (length str))) [] str) as (a & rest & Htl & Hs & Ha & Hh);
    [done|constructor|lia|].
  change (Z.of_nat (length [])) with 0 in Htl. rewrite Htl.
  mstep. destruct rest as [|c rest].
  - rewrite app_nil_r in Hs. subst a.
    assert (forall k, trim_right k s cset (Z.of_nat (length str)) (Z.of_nat (length str) - 1)
      = Some (Z.of_nat (length str) - 1)) as ->.
    { intros k. destruct k; cbn [trim_right]; rewrite Z.gtb_ltb, (proj2 (Z.ltb_ge _ _)) by lia; done. }
    mstep.
    replace (Z.of_nat (length str) - 1 - Z.of_nat (length str) + 1) with 0 by lia.
    destruct (shrink_ok s str (Z.of_nat (length str)) 0 (negb (Z.of_nat (length str) =? 0)) Hok)
      as (s' & Hs' & Hok'); try lia. exists s', str, [], []. rewrite !app_nil_r.
    rewrite take_0 in Hok'. split_and!; try done.
  - assert (Hpc : ~ P c) by (by apply Hh).
    destruct (trim_right_ok (Z.to_nat (Z.of_nat (length str))) a rest [] c) as (mid & b & Ht & Hs2 & Hb & Hl);
      [by rewrite app_nil_r|constructor|done|rewrite Hs, length_app; simpl; lia|].
    replace (Z.of_nat (length str) - 1) with (Z.of_nat (length a + length rest))
      by (rewrite Hs, length_app; simpl; lia).
    rewrite Ht. mstep.
    replace (Z.of_nat (length a + length mid) - Z.of_nat (length a) + 1) with (Z.of_nat (length (c :: mid)))
      by (simpl; lia).
    destruct (shrink_ok s str (Z.of_nat (length a)) (Z.of_nat (length (c :: mid)))
      (negb (Z.of_nat (length a) =? 0)) Hok) as (s' & Hs' & Hok'); [lia|lia| | |].
    { rewrite Hs2, !length_app. lia. } { intros Hz%negb_false_iff%Z.eqb_eq. lia. }
    exists s', a, (c :: mid), b. rewrite Hs2 in Hok'.
    rewrite !Nat2Z.id, drop_app_length, take_app_length in Hok'. split_and!; try done.
Qed.

End trim.

Lemma sdsclear_ok s str : sds_ok s str -> exists s', sdsclear s = Some s' /\ sds_ok s' [].
Proof.
  intros (ty & aux & alloc & tl & Hr & Ha). unfold sdsclear.
  assert (exists c t, str ++ 0 :: tl = [] ++ c :: t /\ (length t = length str + length tl)%nat)
    as (c & t & He & Hl).
  { destruct str as [|c str]; [by exists 0, tl|]. exists c, (str ++ 0 :: tl).
    split; [done|]. rewrite length_app. simpl. lia. }
  rewrite He in Hr. apply (finish_set_put _ _ _ _ _ _ _ _ _ Hr); [done| |].
  - eapply fits_le; [|apply (raw_fits _ _ _ _ _ _ Hr)]. lia.
  - simpl. lia.
Qed.

Lemma sbytes_ok s str : sds_ok s str -> sdslen s = Some (Z.of_nat (length str)) /\
  sbytes s 0 (Z.of_nat (length str)) = Some str /\ Forall is_byte str.
Proof.
  intros (ty & aux & alloc & tl & Hr & _). split; [by apply (raw_sdslen _ _ _ _ _ _ Hr)|].
  rewrite (raw_sbytes _ _ _ _ _ _ Hr) by lia. split; [by apply mload_app_l|].
  pose proof (raw_bytes _ _ _ _ _ _ Hr) as Hb. by apply Forall_app in Hb as [? _].
Qed.

Lemma sdsdup_ok s str :
  sds_ok s str -> Z.of_nat (length str) <= SDS_LIMIT ->
  exists s', sdsdup s = Some s' /\ sds_ok s' str.
Proof.
  intros Hok Hl. unfold sdsdup. destruct (sbytes_ok s str Hok) as (-> & Hb & Hby).
  mstep. rewrite Hb. mstep. apply sdsnewlen_ok; auto.
Qed.


(** ** Resizing *)

Lemma fits_inU64 ty n : 0 <= ty <= 4 -> fits ty n -> inU 64 n.
Proof.
  intros Hty Hf%fits_max; [|done]. rewrite sdsTypeMaxSize_eq in Hf. unfold inU.
  ty_cases ty; cbn [Z.eqb Pos.eqb] in Hf; zpow; lia.
Qed.

(** A block that holds the bytes [p], ready to be terminated and recorded
    with the allocated size [ns] *)
Definition resized (s : sds) (ns : Z) (p : list Z) : Prop :=
  exists ty aux len alloc c q, raw s ty aux len alloc (p ++ c :: q) /\
    fits ty (Z.of_nat (length p)) /\
    (ty <> 0 -> fits ty ns /\ Z.of_nat (length p) <= ns <= Z.of_nat (length p + length q)).

Lemma resized_finish s ns p n :
  resized s ns p -> n = Z.of_nat (length p) ->
  exists s', (s ← sput s n 0; s ← sdssetlen s n; sdssetalloc s ns) = Some s' /\ sds_ok s' p.
Proof.
  intros (ty & aux & len & alloc & c & q & Hr & Hf & Hns) ->.
  destruct (raw_sput _ _ _ _ _ _ p c q (Z.of_nat (length p)) 0 Hr) as (s1 & -> & Hr1); [done..|].
  mstep. destruct (raw_sdssetlen _ _ _ _ _ _ Hr1 _ Hf) as (s2 & -> & Hr2).
  mstep. destruct (raw_sdssetalloc _ _ _ _ _ _ Hr2 ns) as (s3 & -> & Hr3).
  { intros Hne. by apply Hns. }
  exists s3. split; [done|]. destruct (Z.eqb_spec ty 0).
  - exists ty, aux, alloc, q. split; [done|]. done.
  - exists ty, aux, ns, q. split; [done|]. intros Hne. by apply Hns.
Qed.

Lemma raw_AllocSize s ty aux len alloc body :
  raw s ty aux len alloc body -> (ty = 4 -> alloc < 2 ^ 64 - 18) ->
  sdsAllocSize s = Some (sdsHdrSize ty + (if ty =? 0 then len else alloc) + 1).
Proof.
  intros Hr Hal. pose proof (raw_ty _ _ _ _ _ _ Hr). pose proof (raw_hdr_alloc _ _ _ _ _ _ Hr) as Ha.
  pose proof (raw_type5_len _ _ _ _ _ _ Hr) as H5. pose proof (raw_fits_alloc _ _ _ _ _ _ Hr) as Hfa.
  unfold sdsAllocSize. rewrite (raw_sdsType _ _ _ _ _ _ Hr). mstep.
  ty_cases ty; cbn [hdr_w] in Ha; hdr_eval; [rewrite H5 by done; done|rewrite Ha by done; cbn..];
    try done.
  rewrite wrapU_id; [done|]. specialize (Hfa ltac:(done)). unfold inU, fits in *. zpow. cbn in Hfa. lia.
Qed.

Lemma resize_realloc_ok s ty aux len alloc p c q size :
  raw s ty aux len alloc (p ++ c :: q) -> type_for ty size ->
  Z.of_nat (length p) <= size <= SDS_LIMIT -> Z.of_nat (length p) <= len ->
  (ty <> 0 -> alloc <= Z.of_nat (length p + length q)) -> (ty = 4 -> alloc < 2 ^ 64 - 18) ->
  exists s' ns, resize_realloc s ty (Z.of_nat (length p)) (sdsHdrSize ty + size + 1) = Some (s', ns) /\
    resized s' ns p.
Proof.
  unfold SDS_LIMIT. intros Hr Hfor Hsz Hpl Hal Ha4. pose proof (raw_ty _ _ _ _ _ _ Hr) as Hty.
  pose proof (HdrSize_range ty Hty) as Hh. pose proof (raw_fits _ _ _ _ _ _ Hr) as Hfl.
  unfold resize_realloc. rewrite (raw_AllocSize _ _ _ _ _ _ Hr) by lia. mstep.
  assert (Hfp : fits ty (Z.of_nat (length p))) by (eapply fits_le; [|exact Hfl]; lia).
  destruct (match nallocx with Some f => _ | None => false end) eqn:Eo.
  { destruct nallocx as [f|] eqn:Ef; [|done]. zbool.
    pose proof (nallocx_ge f (sdsHdrSize ty + size + 1) Ef ltac:(zpow; lia)).
    do 2 eexists. split; [done|]. exists ty, aux, len, alloc, c, q. split_and!; [done..|].
    intros Hne. pose proof (raw_fits_alloc _ _ _ _ _ _ Hr Hne). destruct (Z.eqb_spec ty 0); [done|].
    replace (sdsHdrSize ty + alloc + 1 - sdsHdrSize ty - 1) with alloc by lia.
    rewrite wrapU_id by (by apply (fits_inU64 ty)). split; [done|]. specialize (Hal Hne). lia. }
  pose proof (usable_ge (sdsHdrSize ty + size + 1) ltac:(zpow; lia)) as Hus.
  rewrite cons_middle, app_assoc in Hr.
  destruct (realloc_raw _ _ _ _ _ _ _ (usable (sdsHdrSize ty + size + 1)) Hr)
    as (q' & Hr1 & Hl1 & Hby1); [rewrite length_app; simpl; lia|].
  set (newsh := mrealloc _ _ _) in *. clearbody newsh. rewrite Hl1.
  destruct (adjustTypeIfNeeded _ _ _) as [[adj t'] h'] eqn:Eadj.
  destruct (fun H => adjustTypeIfNeeded_ok ty size _ adj t' h' Hfor H Eadj)
    as (Ht' & -> & Hsz' & Hz & Hft & Hfu & Hadj); [lia|]. pose proof (HdrSize_range t' Ht') as Hh'.
  destruct adj.
  - unfold mmove. cbn [off]. pose proof (raw_sbytes _ _ _ _ _ _ Hr1 0 (Z.of_nat (length p) + 1)) as Hld.
    unfold sbytes in Hld. cbn [sh off] in Hld. rewrite Z.add_0_r in Hld. rewrite Hld by lia.
    rewrite mload_app_l by (rewrite length_app; simpl; lia). mstep.
    pose proof (raw_bytes _ _ _ _ _ _ Hr1) as Hb1. apply Forall_app in Hb1 as [Hb1 _].
    destruct (place_raw newsh t' (p ++ [c])) as (m & s1 & l1 & al & tl' & -> & Hs1 & Hr2 & Hl2);
      [done|done|done|rewrite length_app; simpl; lia|].
    mstep. rewrite Hs1. mstep.
    destruct (raw_sdssetlen _ _ _ _ _ _ Hr2 (Z.of_nat (length p))) as (s2 & -> & Hr3).
    { eapply fits_le; [|exact Hft]. lia. }
    mstep. do 2 eexists. split; [done|]. rewrite <- app_assoc in Hr3.
    rewrite length_app in Hl2. simpl in Hl2.
    exists t', 0, (Z.of_nat (length p)), al, c, tl'. split_and!; [done|eapply fits_le; [|exact Hft]; lia|].
    intros Hne. rewrite wrapU_id by (unfold inU; lia). split; [by apply Hfu|]. lia.
  - subst t'. mstep. do 2 eexists. split; [done|].
    pose proof (raw_length _ _ _ _ _ _ Hr1) as Hrl. cbn [sh] in Hrl. rewrite !length_app in Hrl. simpl in Hrl.
    rewrite <- app_assoc in Hr1. exists ty, aux, len, alloc, c, q'. split_and!; [done..|].
    intros Hne. rewrite wrapU_id by (unfold inU; lia). split; [by apply Hfu|]. lia.
Qed.

Lemma resize_malloc_ok s ty0 aux len alloc p c q ty size :
  raw s ty0 aux len alloc (p ++ c :: q) -> type_for ty size ->
  Z.of_nat (length p) <= size <= SDS_LIMIT ->
  exists s' ns, resize_malloc s ty (Z.of_nat (length p)) (sdsHdrSize ty + size + 1) = Some (s', ns) /\
    resized s' ns p.
Proof.
  unfold SDS_LIMIT. intros Hr Hfor Hsz. assert (Hty : 0 <= ty <= 4) by (destruct Hfor; lia).
  pose proof (HdrSize_range ty Hty) as Hh. unfold resize_malloc.
  destruct (malloc_usable_ok (sdsHdrSize ty + size + 1)) as [Hml Hmb]; [zpow; lia|].
  set (newsh := malloc_usable _) in *. clearbody newsh.
  destruct (adjustTypeIfNeeded _ _ _) as [[adj t'] h'] eqn:Eadj.
  destruct (fun H => adjustTypeIfNeeded_ok ty size _ adj t' h' Hfor H Eadj)
    as (Ht' & -> & Hsz' & Hz & Hft & Hfu & _); [lia|]. pose proof (HdrSize_range t' Ht') as Hh'.
  rewrite (raw_sbytes _ _ _ _ _ _ Hr) by lia. rewrite cons_middle, app_assoc in Hr |- *.
  rewrite mload_app_l by (rewrite length_app; simpl; lia). mstep.
  pose proof (raw_bytes _ _ _ _ _ _ Hr) as Hb1. apply Forall_app in Hb1 as [Hb1 _].
  destruct (place_raw newsh t' (p ++ [c])) as (m & s1 & l1 & al & tl' & -> & Hs1 & Hr2 & Hl2);
    [done|done|done|rewrite length_app; simpl; lia|].
  mstep. rewrite Hs1. mstep.
  do 2 eexists. split; [done|]. rewrite <- app_assoc in Hr2. rewrite length_app in Hl2. simpl in Hl2.
  exists t', 0, l1, al, c, tl'. split_and!; [done|eapply fits_le; [|exact Hft]; lia|].
  intros Hne. rewrite wrapU_id by (unfold inU; lia). split; [by apply Hfu|]. lia.
Qed.

Lemma sdsResize_ok s str size would_regrow :
  sds_ok s str -> 0 <= size <= SDS_LIMIT -> Z.of_nat (length (sh s)) < 2 ^ 64 ->
  exists s', sdsResize s size would_regrow = Some s' /\ sds_ok s' (take (Z.to_nat size) str).
Proof.
  intros Hok Hsz H64. pose proof Hok as (ty & aux & alloc & tl & Hr & Ha).
  pose proof (raw_ty _ _ _ _ _ _ Hr) as Hty. pose proof (HdrSize_range ty Hty) as Hh.
  pose proof (raw_length _ _ _ _ _ _ Hr) as Hrl. rewrite length_app in Hrl. simpl in Hrl.
  assert (H63 : 0 <= size < 2 ^ 63) by (unfold SDS_LIMIT in Hsz; zpow; lia).
  unfold sdsResize. rewrite (raw_sdsType _ _ _ _ _ _ Hr), (raw_sdslen _ _ _ _ _ _ Hr), (raw_sdsalloc _ _ _ _ _ _ Hr).
  mstep. destruct ((if ty =? 0 then _ else _) =? size) eqn:Eq; zbool.
  { exists s. split; [done|]. rewrite take_ge; [done|]. destruct (Z.eqb_spec ty 0); lia. }
  set (n := if size <? Z.of_nat (length str) then size else Z.of_nat (length str)).
  assert (Hn : n = Z.min size (Z.of_nat (length str))) by (unfold n; zcase; lia). clearbody n.
  set (p := take (Z.to_nat size) str).
  assert (Hlp : Z.of_nat (length p) = n) by (unfold p; rewrite length_take; lia).
  assert (exists c q, str ++ 0 :: tl = p ++ c :: q /\ (length p + length q = length str + length tl)%nat)
    as (c & q & Hpq & Hlq).
  { destruct (drop (length p) (str ++ 0 :: tl)) as [|c q] eqn:E.
    - apply (f_equal length) in E. rewrite length_drop, length_app in E. simpl in E. lia.
    - exists c, q. assert (Hp : take (length p) (str ++ 0 :: tl) = p).
      { rewrite take_app_le by lia. unfold p. rewrite length_take.
        destruct (Nat.le_ge_cases (Z.to_nat size) (length str)).
        - by rewrite Nat.min_l.
        - rewrite Nat.min_r by done. by rewrite !take_ge by lia. }
      split; [by rewrite <- Hp at 1; rewrite <- E, take_drop|].
      apply (f_equal length) in E. rewrite length_drop, length_app in E. simpl in E. lia. }
  rewrite Hpq in Hr. rewrite <- Hlp.
  set (t := if _ && _ then SDS_TYPE_8 else sdsReqType size).
  assert (Hfor : type_for t size).
  { pose proof (sdsReqType_for size H63) as H. unfold t, SDS_TYPE_8, SDS_TYPE_5 in *.
    destruct (Z.eqb_spec (sdsReqType size) 0) as [E|]; [|by rewrite andb_false_r].
    rewrite E in *. destruct would_regrow; [by apply type_for_8|done]. }
  clearbody t.
  assert (exists s' ns, (if (ty =? t) || (t <? ty) && (t >? SDS_TYPE_8)
    then resize_realloc s ty (Z.of_nat (length p)) (sdsHdrSize ty + size + 1)
    else resize_malloc s t (Z.of_nat (length p)) (sdsHdrSize t + size + 1)) = Some (s', ns) /\ resized s' ns p)
    as (s' & ns & -> & Hres).
  { zcase; [|by eapply resize_malloc_ok; [exact Hr|done|lia]].
    eapply resize_realloc_ok; [exact Hr| |lia|lia| |].
    - apply orb_true_iff in E as [E|E]; zbool; [by subst t|].
      destruct Hfor as [Hf1 Hf2]. split; [done|]. unfold SDS_TYPE_8 in *. lia.
    - lia.
    - intros ->. hdr_eval. lia. }
  mstep. by apply resized_finish.
Qed.


(** ** Adjusting the length *)

Lemma raw_set_hdr_len s ty aux len alloc body n :
  raw s ty aux len alloc body -> ty <> 0 -> sdssetlen s n = set_hdr_len (hdr_w ty) s n.
Proof.
  intros Hr Hne. pose proof (raw_ty _ _ _ _ _ _ Hr). unfold sdssetlen.
  rewrite (raw_sdsType _ _ _ _ _ _ Hr). mstep. ty_cases ty; done.
Qed.

Lemma incr_hdr_ok s ty aux len alloc body sub up down incr :
  raw s ty aux len alloc body -> ty <> 0 -> fits ty (len + incr) ->
  ((incr >=? 0) && (sub (alloc - len) >=? up incr)) || ((incr <? 0) && (len >=? down (- incr))) = true ->
  exists s', incr_hdr sub up down (hdr_w ty) s incr = Some (s', len + incr) /\
    raw s' ty aux (len + incr) alloc body.
Proof.
  intros Hr Hne Hf Has. unfold incr_hdr.
  rewrite (raw_hdr_len _ _ _ _ _ _ Hr), (raw_hdr_alloc _ _ _ _ _ _ Hr) by done.
  mstep. rewrite Has. cbn [cassert mbind option_bind].
  destruct (raw_sdssetlen _ _ _ _ _ _ Hr _ Hf) as (s' & Hs' & Hr').
  rewrite (raw_set_hdr_len _ _ _ _ _ _ _ Hr Hne) in Hs'. rewrite Hs'. mstep.
  rewrite (raw_hdr_len _ _ _ _ _ _ Hr') by done. mstep. eauto.
Qed.

(** The assertion holds when the length stays within the allocated size. *)
Lemma IncrLen_raw s ty aux len alloc body incr :
  raw s ty aux len alloc body -> (ty <> 0 -> len + incr <= alloc) -> 0 <= len + incr ->
  (ty = 0 -> incr <> 0 /\ len + incr < 32) -> (incr < 0 -> - incr < 2 ^ 32) -> len < 2 ^ 63 -> alloc < 2 ^ 64 ->
  (ty <> 0 -> len <= alloc) ->
  exists s', sdsIncrLen s incr = (s ← Some s'; sput s (len + incr) 0) /\
    raw s' ty aux (len + incr) alloc body.
Proof.
  intros Hr Hcap Hnn H5 H32 Hl63 Ha64 Hla. pose proof (raw_ty _ _ _ _ _ _ Hr) as Hty.
  assert (Hl0 : 0 <= len) by (apply (raw_fits _ _ _ _ _ _ Hr)).
  unfold sdsIncrLen. rewrite (raw_sdsType _ _ _ _ _ _ Hr). mstep.
  destruct (decide (ty = 0)) as [->|Hne].
  - rewrite (raw_type5_len _ _ _ _ _ _ Hr) by done. mstep.
    assert (fits 0 (len + incr)) as Hf by (unfold fits; simpl; lia).
    destruct (raw_sdssetlen _ _ _ _ _ _ Hr _ Hf) as (s' & Hs' & Hr').
    unfold sdssetlen in Hs'. rewrite (raw_sdsType _ _ _ _ _ _ Hr) in Hs'. mstep in Hs'.
    replace (_ || _) with true; [|symmetry; apply orb_true_iff].
    + cbn [cassert mbind option_bind]. rewrite Hs'. mstep. eauto.
    + specialize (H5 eq_refl). destruct (Z.ltb_spec 0 incr).
      * left. rewrite Z.gtb_ltb, !andb_true_iff, !Z.ltb_lt. lia.
      * right. rewrite Z.geb_leb, andb_true_iff, Z.ltb_lt, Z.leb_le.
        rewrite wrapU_id by (unfold inU; lia). lia.
  - pose proof (raw_fits_alloc _ _ _ _ _ _ Hr Hne) as Hfa. specialize (Hcap Hne). specialize (Hla Hne).
    assert (Hf : fits ty (len + incr)) by (eapply fits_le; [|exact Hfa]; lia).
    assert (Hgo : forall sub up down,
      (0 <= incr -> sub (alloc - len) >= up incr) -> (incr < 0 -> len >= down (- incr)) ->
      exists s', incr_hdr sub up down (hdr_w ty) s incr = Some (s', len + incr) /\
        raw s' ty aux (len + incr) alloc body).
    { intros sub up down Hu Hd. apply (incr_hdr_ok _ _ _ _ _ _ _ _ _ _ Hr Hne Hf).
      apply orb_true_iff. rewrite !andb_true_iff, !Z.geb_leb, !Z.leb_le, Z.ltb_lt. lia. }
    assert (Hmax := proj1 (fits_max ty alloc Hty) Hfa). rewrite sdsTypeMaxSize_eq in Hmax.
    assert (Hd32 : incr < 0 -> len >= u32 (- incr))
      by (intros; rewrite wrapU_id by (unfold inU; lia); lia).
    ty_cases ty; [done|..]; cbn [hdr_w Z.eqb Pos.eqb] in *.
    1,2: destruct (Hgo id id u32) as (s' & -> & Hr'); [unfold id; lia|done|eauto].
    + destruct (Hgo u32 u32 u32) as (s' & -> & Hr'); [|done|eauto].
      intros. rewrite !wrapU_id by (unfold inU; zpow; lia). lia.
    + destruct (Hgo u64 u64 u64) as (s' & -> & Hr'); [| |eauto].
      * intros. rewrite !wrapU_id by (unfold inU; zpow; lia). lia.
      * intros. rewrite !wrapU_id by (unfold inU; zpow; lia). lia.
Qed.

Lemma IncrLen_grow s str w n tl c :
  room s str n -> Z.of_nat (length w) <= n -> w <> [] -> n < 2 ^ 62 -> Z.of_nat (length str) < 2 ^ 62 ->
  Z.of_nat (length (sh s)) < 2 ^ 64 ->
  drop (Z.to_nat (off s)) (sh s) = str ++ w ++ c :: tl ->
  exists s', sdsIncrLen s (Z.of_nat (length w)) = Some s' /\ sds_ok s' (str ++ w).
Proof.
  intros (ty & aux & alloc & tl0 & Hr & Ha & H0) Hw Hne Hn Hls H64 Hb.
  assert (Hty0 : ty <> 0) by (intros ->; rewrite H0 in Hw by done; destruct w; [done|simpl in Hw; lia]).
  specialize (Ha Hty0). pose proof (raw_ty _ _ _ _ _ _ Hr) as Hty.
  pose proof (raw_length _ _ _ _ _ _ Hr) as Hrl. pose proof (HdrSize_range ty Hty).
  assert (Hbody : str ++ 0 :: tl0 = str ++ w ++ c :: tl).
  { rewrite <- Hb, (raw_sh _ _ _ _ _ _ Hr), (raw_off _ _ _ _ _ _ Hr).
    rewrite <- (length_header ty aux (Z.of_nat (length str)) alloc), Nat2Z.id by done. by rewrite drop_app_length. }
  pose proof (f_equal length Hbody) as Hbl. rewrite !length_app in Hbl. simpl in Hbl.
  rewrite Hbody in Hr, Hrl. rewrite !length_app in Hrl. simpl in Hrl.
  destruct (IncrLen_raw _ _ _ _ _ _ (Z.of_nat (length w)) Hr) as (s' & -> & Hr'); try lia.
  mstep. rewrite app_assoc in Hr'.
  destruct (raw_sput _ _ _ _ _ _ (str ++ w) c tl (Z.of_nat (length str) + Z.of_nat (length w)) 0 Hr')
    as (s2 & -> & Hr2); [done|rewrite length_app; lia|].
  exists s2. split; [done|]. exists ty, aux, alloc, tl. rewrite length_app, Nat2Z.inj_add.
  split; [done|]. lia.
Qed.

End operations.

(** ** The contract of the strings *)

Section contract.
Context (A : Allocator) (L : AllocatorLaws A).

(** [sdsnewlen] makes a string of the given bytes (or of zeroes), in a
    header large enough for the block the allocator gives, for every length
    up to the limit. *)
Theorem sdsnewlen_correct init str :
  Forall is_byte str -> Z.of_nat (length str) <= SDS_LIMIT ->
  (init = INIT str \/ init = INIT_NULL /\ str = replicate (length str) 0) ->
  exists s, sdsnewlen init (Z.of_nat (length str)) = Some s /\ sds_ok s str.
Proof. apply sdsnewlen_ok. Qed.

(** C26: after [sdsMakeRoomFor], greedy or not, the string is the same and at
    least the asked number of bytes is free, whether the block is grown in
    place, moved behind a larger header or copied to a header of another
    type. *)
Theorem sdsMakeRoomFor_correct s str addlen greedy :
  sds_ok s str -> 0 <= addlen -> Z.of_nat (length str) + addlen <= SDS_LIMIT ->
  exists s' avail, _sdsMakeRoomFor s addlen greedy = Some s' /\ sds_ok s' str /\
    sdsavail s' = Some avail /\ addlen <= avail.
Proof.
  intros Hok Hn Hl. destruct (MakeRoomFor_ok s str addlen greedy Hok Hn Hl) as (s' & Hs' & Hroom).
  pose proof Hroom as (ty & aux & alloc & tl & Hr & Ha & H0).
  exists s', (if ty =? 0 then 0 else alloc - Z.of_nat (length str)). split_and!; [done|by eapply room_ok| |].
  - apply (raw_sdsavail _ _ _ _ _ _ Hr). lia.
  - destruct (Z.eqb_spec ty 0) as [E|E]; [by rewrite H0|]. specialize (Ha E). lia.
Qed.

(** [sdscatlen] appends the bytes to the string. *)
Theorem sdscatlen_correct s str t :
  sds_ok s str -> Forall is_byte t -> Z.of_nat (length str) + Z.of_nat (length t) <= SDS_LIMIT ->
  exists s', sdscatlen s t (Z.of_nat (length t)) = Some s' /\ sds_ok s' (str ++ t).
Proof. apply catlen_ok. Qed.

(** [sdscpylen] replaces the string by the bytes, shorter or longer. *)
Theorem sdscpylen_correct s str t :
  sds_ok s str -> Forall is_byte t ->
  Z.of_nat (length str) <= SDS_LIMIT -> Z.of_nat (length t) <= SDS_LIMIT ->
  exists s', sdscpylen s t (Z.of_nat (length t)) = Some s' /\ sds_ok s' t.
Proof. apply cpylen_ok. Qed.

(** [sdsResize] to any size keeps the string, or its prefix of that size
    when it is longer, on every path: nothing to do, reallocation with or
    without a change of header, a copy to another header, and the shortcut
    that asks the allocator what a reallocation would give. *)
Theorem sdsResize_correct s str size would_regrow :
  sds_ok s str -> 0 <= size <= SDS_LIMIT -> Z.of_nat (length (sh s)) < 2 ^ 64 ->
  exists s', sdsResize s size would_regrow = Some s' /\ sds_ok s' (take (Z.to_nat size) str).
Proof. apply sdsResize_ok. Qed.

(** The documented use of [sdsIncrLen]: when the bytes [w] were written
    after the string, in the room made for them, the string becomes the
    string followed by [w]. *)
Theorem sdsIncrLen_correct s str w n c tl :
  room s str n -> Z.of_nat (length w) <= n -> w <> [] -> n < 2 ^ 62 -> Z.of_nat (length str) < 2 ^ 62 ->
  Z.of_nat (length (sh s)) < 2 ^ 64 -> drop (Z.to_nat (off s)) (sh s) = str ++ w ++ c :: tl ->
  exists s', sdsIncrLen s (Z.of_nat (length w)) = Some s' /\ sds_ok s' (str ++ w).
Proof. intros. by eapply IncrLen_grow. Qed.

End contract.

(** [sdsrange] keeps the inclusive range of bytes, with negative indexes
    counted from the end; a range that starts before the beginning is empty. *)
Theorem sdsrange_correct s str start end_ :
  sds_ok s str -> Z.of_nat (length str) <= SDS_LIMIT -> inS 63 start -> inS 63 end_ ->
  exists s', sdsrange s start end_ = Some s' /\ sds_ok s' (range_str str start end_).
Proof. apply sdsrange_ok. Qed.

(** [sdstrim] removes from both ends the longest runs of bytes that
    [strchr] finds in the set; what is left starts and ends with a byte that
    it does not find. *)
Theorem sdstrim_correct s str cset :
  sds_ok s str ->
  exists s' a mid b, sdstrim s cset = Some s' /\ sds_ok s' mid /\ str = a ++ mid ++ b /\
    Forall (fun c => in_cset cset c = true) a /\ Forall (fun c => in_cset cset c = true) b /\
    (forall c, head mid = Some c -> in_cset cset c <> true) /\
    (forall c, last mid = Some c -> in_cset cset c <> true).
Proof. apply sdstrim_ok. Qed.

(** A string in the header without free space, and one with a byte of it *)
Definition hello : sds := mkSds [40; 104; 101; 108; 108; 111; 0; 0xAA] 1.
Definition hi : sds := mkSds [2; 3; 1; 104; 105; 0; 0xAA] 3.

Lemma hello_ok : sds_ok hello [104; 101; 108; 108; 111].
Proof.
  exists 0, 0, 0, [0xAA]. split; [|done]. split; try done.
  - repeat constructor; unfold is_byte; lia.
Qed.

Lemma hi_ok : sds_ok hi [104; 105].
Proof.
  exists 1, 0, 3, [0xAA]. split; [|cbn; lia]. split; try done.
  - repeat constructor; unfold is_byte; lia.
Qed.

Ltac by_bytes := repeat constructor; unfold is_byte; lia.

Lemma sdsnewlen_correct_witness :
  exists s, @sdsnewlen block_allocator (INIT [104; 105]) 2 = Some s /\ sds_ok s [104; 105].
Proof.
  apply (sdsnewlen_correct block_allocator block_allocator_laws (INIT [104; 105]) [104; 105]).
  - by_bytes.
  - vm_compute. discriminate.
  - left. reflexivity.
Defined.

Lemma sdsMakeRoomFor_correct_witness :
  exists s' avail, @_sdsMakeRoomFor block_allocator hello 300 true = Some s' /\
    sds_ok s' [104; 101; 108; 108; 111] /\ sdsavail s' = Some avail /\ 300 <= avail.
Proof.
  apply (sdsMakeRoomFor_correct block_allocator block_allocator_laws).
  - exact hello_ok.
  - lia.
  - vm_compute. discriminate.
Defined.

Lemma sdscatlen_correct_witness :
  exists s', @sdscatlen block_allocator hi [33; 33] 2 = Some s' /\ sds_ok s' [104; 105; 33; 33].
Proof.
  apply (sdscatlen_correct block_allocator block_allocator_laws hi [104; 105] [33; 33]).
  - exact hi_ok.
  - by_bytes.
  - vm_compute. discriminate.
Defined.

Lemma sdscpylen_correct_witness :
  exists s', @sdscpylen block_allocator hello [33; 33] 2 = Some s' /\ sds_ok s' [33; 33].
Proof.
  apply (sdscpylen_correct block_allocator block_allocator_laws hello [104; 101; 108; 108; 111] [33; 33]).
  - exact hello_ok.
  - by_bytes.
  - vm_compute. discriminate.
  - vm_compute. discriminate.
Defined.

Lemma sdsResize_correct_witness :
  exists s', @sdsResize block_allocator hi 1 true = Some s' /\ sds_ok s' [104].
Proof.
  apply (sdsResize_correct block_allocator block_allocator_laws hi [104; 105] 1 true).
  - exact hi_ok.
  - split; vm_compute; discriminate.
  - vm_compute. reflexivity.
Defined.

Lemma sdsIncrLen_correct_witness :
  exists s', sdsIncrLen hi 1 = Some s' /\ sds_ok s' [104; 105; 0].
Proof.
  apply (sdsIncrLen_correct hi [104; 105] [0] 1 0xAA []).
  - destruct hi_ok as (ty & aux & alloc & tl & Hr & Ha).
    exists 1, 0, 3, [0xAA]. split; [|split; [cbn; lia|done]]. split; try done.
    by_bytes.
  - cbn. lia.
  - discriminate.
  - vm_compute. reflexivity.
  - vm_compute. reflexivity.
  - vm_compute. reflexivity.
  - reflexivity.
Defined.

Lemma sdsrange_correct_witness :
  exists s', sdsrange hello 1 (-2) = Some s' /\ sds_ok s' [101; 108; 108].
Proof.
  apply (sdsrange_correct hello [104; 101; 108; 108; 111] 1 (-2)).
  - exact hello_ok.
  - vm_compute. discriminate.
  - split; vm_compute; [discriminate|reflexivity].
  - split; vm_compute; [discriminate|reflexivity].
Defined.

Lemma sdstrim_correct_witness :
  exists s' a mid b, sdstrim hello [104; 111] = Some s' /\ sds_ok s' mid /\
    [104; 101; 108; 108; 111] = a ++ mid ++ b /\
    Forall (fun c => in_cset [104; 111] c = true) a /\ Forall (fun c => in_cset [104; 111] c = true) b /\
    (forall c, head mid = Some c -> in_cset [104; 111] c <> true) /\
    (forall c, last mid = Some c -> in_cset [104; 111] c <> true).
Proof. apply (sdstrim_correct hello). exact hello_ok. Defined.

(** The nul bytes at the ends of a string are trimmed although they are not
    in the set. *)
Example sdstrim_nul :
  (s ← sdstrim (mkSds [24; 0; 98; 0; 0] 1) [97]; l ← sdslen s; sbytes s 0 l) = Some [98].
Proof. reflexivity. Qed.

(** A start before the beginning gives the empty string, not a prefix. *)
Example sdsrange_before :
  (s ← sdsrange hello (-100) 2; l ← sdslen s; sbytes s 0 l) = Some [].
Proof. reflexivity. Qed.
