(* ===== verification/SdsText.v ===== *)
(** * Text functions on dynamic strings ([sds.c])

    Quoting and splitting: [sdscatrepr], [sdssplitargs], [sdssplitlen],
    [sdsjoinsds]. They only use a few operations of the
    strings, so they are written and proved against an interface, the class
    [SdsImpl] with its laws, and [sds_impl_laws] shows that the strings of
    [Sds] implement it.

    A C string is the list of its bytes, terminator included; a pointer into
    it is the list of the bytes from the pointer on. The character classes
    are the ones of the C locale. *)

From S2P Require Import Prelude Sds.

#[local] Open Scope Z_scope.

(** ** The interface *)

Class SdsImpl (S : Type) := {
  repr : S -> list Z -> Prop;
  impl_empty : option S;
  impl_newlen : list Z -> Z -> option S;
  impl_makeroom : S -> Z -> option S;
  impl_catlen : S -> list Z -> Z -> option S
}.

Class SdsImplLaws S `{SdsImpl S} : Prop := {
  impl_empty_ok : exists s, impl_empty = Some s /\ repr s [];
  impl_newlen_ok str : Forall is_byte str -> Z.of_nat (length str) <= SDS_LIMIT ->
    exists s, impl_newlen str (Z.of_nat (length str)) = Some s /\ repr s str;
  impl_makeroom_ok s str n : repr s str -> 0 <= n -> Z.of_nat (length str) + n <= SDS_LIMIT ->
    exists s', impl_makeroom s n = Some s' /\ repr s' str;
  impl_catlen_ok s str t : repr s str -> Forall is_byte t ->
    Z.of_nat (length str) + Z.of_nat (length t) <= SDS_LIMIT ->
    exists s', impl_catlen s t (Z.of_nat (length t)) = Some s' /\ repr s' (str ++ t)
}.

#[export] Instance sds_impl `{Allocator} : SdsImpl sds := {|
  repr := sds_ok;
  impl_empty := sdsempty;
  impl_newlen str n := sdsnewlen (INIT str) n;
  impl_makeroom := sdsMakeRoomFor;
  impl_catlen := sdscatlen
|}.

#[export] Instance sds_impl_laws `{A : Allocator} `{!AllocatorLaws A} : SdsImplLaws sds.
Proof.
  split.
  - apply (sdsnewlen_ok (INIT []) []); [constructor|unfold SDS_LIMIT; zpow; simpl; lia|auto].
  - intros str Hb Hl. apply sdsnewlen_ok; auto.
  - intros s str n Hs Hn Hl. destruct (MakeRoomFor_ok s str n true Hs Hn Hl) as (s' & Hs' & Hr).
    exists s'. split; [done|]. by eapply room_ok.
  - intros s str t. apply catlen_ok.
Qed.

(** ** Characters *)

Definition isprint (c : Z) : bool := (32 <=? c) && (c <=? 126).
Definition isspace (c : Z) : bool := (c =? 32) || ((9 <=? c) && (c <=? 13)).

Definition BACKSLASH : Z := 92.
Definition DQUOTE : Z := 34.
Definition SQUOTE : Z := 39.

Definition is_hex_digit (c : Z) : bool :=
  ((c >=? 48) && (c <=? 57)) || ((c >=? 97) && (c <=? 102)) || ((c >=? 65) && (c <=? 70)).

Definition hex_digit_to_int (c : Z) : Z :=
  match c with
  | 48 => 0 | 49 => 1 | 50 => 2 | 51 => 3 | 52 => 4
  | 53 => 5 | 54 => 6 | 55 => 7 | 56 => 8 | 57 => 9
  | 97 | 65 => 10
  | 98 | 66 => 11
  | 99 | 67 => 12
  | 100 | 68 => 13
  | 101 | 69 => 14
  | 102 | 70 => 15
  | _ => 0
  end.

(** A digit of [printf]'s [%x] *)
Definition hex_char (d : Z) : Z := if d <? 10 then 48 + d else 87 + d.

(** ** Operations *)

Section ops.
Context {S : Type} `{SdsImpl S}.

(** [sdscatlen(s, lit, len)] on a literal *)
Definition cat (s : S) (l : list Z) : option S := impl_catlen s l (Z.of_nat (length l)).

(** What [sdscatrepr] appends for a byte *)
Definition repr_char (c : Z) : list Z :=
  if (c =? BACKSLASH) || (c =? DQUOTE) then [BACKSLASH; c] else
  if c =? 10 then [BACKSLASH; 110] else
  if c =? 13 then [BACKSLASH; 114] else
  if c =? 9 then [BACKSLASH; 116] else
  if c =? 7 then [BACKSLASH; 97] else
  if c =? 8 then [BACKSLASH; 98] else
  if isprint c then [c]
  else [BACKSLASH; 120; hex_char (c / 16); hex_char (c mod 16)].

(** The escapes are appended by [sdscatprintf] with fixed formats in the code;
    here the formatted bytes are appended as they are, and a byte is printable
    as in the C locale, which the server keeps for its character types. *)
Fixpoint repr_loop (s : S) (p : list Z) : option S :=
  match p with
  | [] => Some s
  | c :: p => s ← cat s (repr_char c); repr_loop s p
  end.

Definition sdscatrepr (s : S) (p : list Z) (len : Z) : option S :=
  s ← impl_makeroom s (u64 (len + 2));
  s ← cat s [DQUOTE];
  bs ← mload p 0 len;
  s ← repr_loop s bs;
  cat s [DQUOTE].

Definition needs_repr_char (c : Z) : bool :=
  (c =? BACKSLASH) || (c =? DQUOTE) || (c =? 10) || (c =? 13) || (c =? 9) || (c =? 7) || (c =? 8) ||
  negb (isprint c) || isspace c.

(** [sdsneedsrepr] on the bytes of its argument *)
Definition sdsneedsrepr (str : list Z) : bool := existsb needs_repr_char str.

(** The outcome of reading one argument *)
Inductive token_result :=
| TokenDone (p : list Z) (current : S)
| TokenErr.

(** A backslash, an [x] and two hexadecimal digits *)
Definition is_hex_escape (p : list Z) : option bool :=
  c ← p !! 0%nat;
  if c =? BACKSLASH then
    c1 ← p !! 1%nat;
    if c1 =? 120 then
      c2 ← p !! 2%nat;
      if is_hex_digit c2 then c3 ← p !! 3%nat; Some (is_hex_digit c3) else Some false
    else Some false
  else Some false.

(** The byte [c0], then one that passes a test *)
Definition is_escape (c0 : Z) (test : Z -> bool) (p : list Z) : option bool :=
  c ← p !! 0%nat;
  if c =? c0 then c1 ← p !! 1%nat; Some (test c1) else Some false.

(** The quote is followed by something that is neither the end nor a space. *)
Definition bad_close (p : list Z) : option bool :=
  c1 ← p !! 1%nat; Some (negb (c1 =? 0) && negb (isspace c1)).

Definition unescape (c : Z) : Z :=
  if c =? 110 then 10 else if c =? 114 then 13 else if c =? 116 then 9
  else if c =? 98 then 8 else if c =? 97 then 7 else c.

(** One turn of [while(!done)]: an error, or [done], [inq], [insq], [current]
    and the pointer before the final [if (p[0]) p++] *)
Inductive turn_result :=
| TurnErr
| Turn (done inq insq : bool) (current : S) (p : list Z).

Definition turn_inq (current : S) (p : list Z) : option turn_result :=
  hex ← is_hex_escape p;
  if (hex : bool) then
    c2 ← p !! 2%nat; c3 ← p !! 3%nat;
    let byte := u8 (hex_digit_to_int c2 * 16 + hex_digit_to_int c3) in
    current ← cat current [byte];
    Some (Turn false true false current (drop 3 p))
  else
  esc ← is_escape BACKSLASH (fun c1 => negb (c1 =? 0)) p;
  if (esc : bool) then
    c ← p !! 1%nat;
    current ← cat current [unescape c];
    Some (Turn false true false current (drop 1 p))
  else
  c ← p !! 0%nat;
  if c =? DQUOTE then
    bad ← bad_close p;
    if (bad : bool) then Some TurnErr else Some (Turn true true false current p)
  else if c =? 0 then Some TurnErr
  else current ← cat current [c]; Some (Turn false true false current p).

Definition turn_insq (current : S) (p : list Z) : option turn_result :=
  esc ← is_escape BACKSLASH (fun c1 => c1 =? SQUOTE) p;
  if (esc : bool) then
    current ← cat current [SQUOTE];
    Some (Turn false false true current (drop 1 p))
  else
  c ← p !! 0%nat;
  if c =? SQUOTE then
    bad ← bad_close p;
    if (bad : bool) then Some TurnErr else Some (Turn true false true current p)
  else if c =? 0 then Some TurnErr
  else current ← cat current [c]; Some (Turn false false true current p).

Definition turn_plain (current : S) (p : list Z) : option turn_result :=
  c ← p !! 0%nat;
  if (c =? 32) || (c =? 10) || (c =? 13) || (c =? 9) || (c =? 0) then
    Some (Turn true false false current p)
  else if c =? DQUOTE then Some (Turn false true false current p)
  else if c =? SQUOTE then Some (Turn false false true current p)
  else current ← cat current [c]; Some (Turn false false false current p).

(** [if (p[0]) p++] *)
Definition advance (p : list Z) : option (list Z) :=
  c ← p !! 0%nat; Some (if c =? 0 then p else drop 1 p).

Fixpoint token_loop (fuel : nat) (inq insq : bool) (current : S) (p : list Z) : option token_result :=
  match fuel with
  | O => None
  | Datatypes.S fuel =>
      r ← (if inq then turn_inq current p else if insq then turn_insq current p
           else turn_plain current p);
      match r with
      | TurnErr => Some TokenErr
      | Turn d inq insq current p =>
          p ← advance p;
          if (d : bool) then Some (TokenDone p current) else token_loop fuel inq insq current p
      end
  end.

(** [while(p[0] && isspace(p[0])) p++] *)
Fixpoint skip_blanks (p : list Z) : option (list Z) :=
  match p with
  | [] => None
  | c :: tl => if negb (c =? 0) && isspace c then skip_blanks tl else Some p
  end.

(** The arguments read so far are in [vector]; [None] inside is the [NULL] of
    an error. *)
Fixpoint args_loop (fuel : nat) (vector : list S) (p : list Z) : option (option (list S)) :=
  match fuel with
  | O => None
  | Datatypes.S fuel =>
      p ← skip_blanks p;
      c ← p !! 0%nat;
      if c =? 0 then Some (Some vector) else
      current ← impl_empty;
      r ← token_loop (length p) false false current p;
      match r with
      | TokenErr => Some None
      | TokenDone p current => args_loop fuel (vector ++ [current]) p
      end
  end.

Definition sdssplitargs (line : list Z) : option (option (list S)) :=
  args_loop (length line) [] line.

(** [memcmp(s+j, sep, seplen) == 0] *)
Definition sep_at (s : list Z) (j : Z) (sep : list Z) : option bool :=
  bs ← mload s j (Z.of_nat (length sep)); Some (bool_decide (bs = sep)).

(** The [for] loop: the tokens and the start of the last one *)
Fixpoint split_loop (fuel : nat) (s sep : list Z) (tokens : list S) (start j : Z)
    : option (list S * Z) :=
  let len := Z.of_nat (length s) in
  let seplen := Z.of_nat (length sep) in
  if j <? len - (seplen - 1) then
    match fuel with
    | O => None
    | Datatypes.S fuel =>
        b ← sep_at s j sep;
        if (b : bool) then
          bs ← mload s start (j - start);
          t ← impl_newlen bs (j - start);
          split_loop fuel s sep (tokens ++ [t]) (j + seplen) (j + seplen - 1 + 1)
        else split_loop fuel s sep tokens start (j + 1)
    end
  else Some (tokens, start).

(** [None] inside is the [NULL] of an empty string or separator. *)
Definition sdssplitlen (s sep : list Z) : option (option (list S)) :=
  let len := Z.of_nat (length s) in
  if (Z.of_nat (length sep) <? 1) || (len <=? 0) then Some None else
  '(tokens, start) ← split_loop (length s) s sep [] 0 0;
  bs ← mload s start (len - start);
  t ← impl_newlen bs (len - start);
  Some (Some (tokens ++ [t])).

(** [sdsjoin] and [sdsjoinsds] on the bytes of the arguments *)
Fixpoint join_loop (join : S) (argv : list (list Z)) (sep : list Z) : option S :=
  match argv with
  | [] => Some join
  | [a] => cat join a
  | a :: argv => join ← cat join a; join ← cat join sep; join_loop join argv sep
  end.

Definition sdsjoinsds (argv : list (list Z)) (sep : list Z) : option S :=
  join ← impl_empty; join_loop join argv sep.

End ops.

(** ** Quoting *)

(** The quoted form of a string *)
Definition quote (str : list Z) : list Z := DQUOTE :: (str ≫= repr_char) ++ [DQUOTE].

Lemma repr_char_length c : (1 <= length (repr_char c) <= 4)%nat.
Proof. unfold repr_char. repeat case_match; simpl; lia. Qed.

Lemma hex_char_ok d :
  0 <= d < 16 -> is_hex_digit (hex_char d) = true /\ hex_digit_to_int (hex_char d) = d /\
  0 < hex_char d < 256.
Proof.
  intros Hd.
  assert (H : forallb (fun d => is_hex_digit (hex_char d) && (hex_digit_to_int (hex_char d) =? d) &&
    (0 <? hex_char d) && (hex_char d <? 256)) (seqZ 0 16) = true) by reflexivity.
  rewrite forallb_forall in H. specialize (H d). rewrite <- list_elem_of_In, elem_of_seqZ in H.
  specialize (H ltac:(lia)). zbool. done.
Qed.

Lemma repr_char_bytes c : is_byte c -> Forall (fun b => is_byte b /\ b <> 0) (repr_char c).
Proof.
  unfold is_byte. intros Hc. unfold repr_char, BACKSLASH, DQUOTE.
  destruct ((c =? 92) || (c =? 34)) eqn:E.
  { apply orb_true_iff in E. repeat constructor; destruct E; zbool; lia. }
  zbool. repeat (zcase; [repeat constructor; lia|]). destruct (isprint c) eqn:Ep.
  { unfold isprint in Ep. zbool. repeat constructor; lia. }
  pose proof (Z.div_mod c 16 ltac:(lia)). pose proof (Z.mod_pos_bound c 16 ltac:(lia)).
  destruct (hex_char_ok (c / 16)) as (_ & _ & Hx1); [lia|].
  destruct (hex_char_ok (c mod 16)) as (_ & _ & Hx2); [lia|].
  repeat constructor; lia.
Qed.

Lemma length_repr_chars str :
  (length str <= length (str ≫= repr_char) <= 4 * length str)%nat.
Proof.
  induction str as [|c str IH]; [simpl; lia|]. rewrite bind_cons, length_app.
  pose proof (repr_char_length c). simpl length. lia.
Qed.

Lemma repr_chars_bytes str :
  Forall is_byte str -> Forall (fun b => is_byte b /\ b <> 0) (str ≫= repr_char).
Proof.
  induction 1 as [|c str Hc Hstr IH]; [constructor|].
  rewrite bind_cons. apply Forall_app_2; [by apply repr_char_bytes|done].
Qed.

Section proofs.
Context {S : Type} `{HS : SdsImpl S} `{HL : !SdsImplLaws S}.

Lemma cat_ok s str t :
  repr s str -> Forall is_byte t -> Z.of_nat (length str) + Z.of_nat (length t) <= SDS_LIMIT ->
  exists s', cat s t = Some s' /\ repr s' (str ++ t).
Proof. apply impl_catlen_ok. Qed.

Lemma repr_loop_ok s str p :
  repr s str -> Forall is_byte p ->
  Z.of_nat (length str) + 4 * Z.of_nat (length p) <= SDS_LIMIT ->
  exists s', repr_loop s p = Some s' /\ repr s' (str ++ (p ≫= repr_char)).
Proof.
  intros Hs Hp. revert s str Hs. induction Hp as [|c p Hc Hp IH]; intros s str Hs Hl.
  { exists s. by rewrite app_nil_r. }
  cbn [length] in Hl. pose proof (repr_char_length c).
  destruct (cat_ok s str (repr_char c) Hs) as (s1 & Hs1 & Hr1); [|lia|].
  { eapply Forall_impl; [by apply repr_char_bytes|]. naive_solver. }
  cbn [repr_loop]. rewrite Hs1. mstep.
  destruct (IH s1 (str ++ repr_char c) Hr1) as (s' & -> & Hr'); [rewrite length_app; lia|].
  exists s'. split; [done|]. by rewrite bind_cons, app_assoc.
Qed.

Lemma sdscatrepr_ok s str p :
  repr s str -> Forall is_byte p ->
  Z.of_nat (length str) + 4 * Z.of_nat (length p) + 2 <= SDS_LIMIT ->
  exists s', sdscatrepr s p (Z.of_nat (length p)) = Some s' /\ repr s' (str ++ quote p).
Proof.
  intros Hs Hp Hl. unfold sdscatrepr.
  rewrite wrapU_id by (unfold inU, SDS_LIMIT in *; zpow; lia).
  destruct (impl_makeroom_ok s str (Z.of_nat (length p) + 2) Hs) as (s1 & -> & H1); [lia|lia|].
  mstep.
  destruct (cat_ok s1 str [DQUOTE] H1) as (s2 & -> & H2); [repeat constructor; done|simpl; lia|].
  mstep. rewrite mload_full by done. mstep.
  destruct (repr_loop_ok s2 _ p H2 Hp) as (s3 & -> & H3); [rewrite length_app; simpl; lia|].
  mstep. pose proof (length_repr_chars p).
  destruct (cat_ok s3 _ [DQUOTE] H3) as (s4 & -> & H4);
    [repeat constructor; done|rewrite !length_app; simpl; lia|].
  exists s4. split; [done|]. unfold quote. by rewrite <- !app_assoc in H4.
Qed.

(** ** Reading back a quoted string *)

Lemma advance_cons c p : c <> 0 -> advance (c :: p) = Some p.
Proof. intros Hc. unfold advance. cbn. by destruct (Z.eqb_spec c 0). Qed.

Lemma turn_repr_char cur str c rest :
  repr cur str -> is_byte c -> Z.of_nat (length str) + 1 <= SDS_LIMIT ->
  exists cur' p, turn_inq cur (repr_char c ++ rest) = Some (Turn false true false cur' p) /\
    advance p = Some rest /\ repr cur' (str ++ [c]).
Proof.
  intros Hs Hc Hl. unfold is_byte in Hc.
  destruct (cat_ok cur str [c] Hs) as (cur' & Hcat & Hr'); [repeat constructor; unfold is_byte; lia|done|].
  assert (Hesc : forall e, e <> 120 -> e <> 0 -> unescape e = c ->
    exists cur' p, turn_inq cur (BACKSLASH :: e :: rest) = Some (Turn false true false cur' p) /\
      advance p = Some rest /\ repr cur' (str ++ [c])).
  { intros e H120 H0 Hu. exists cur', (e :: rest). split; [|split; [by apply advance_cons|done]].
    unfold turn_inq, is_hex_escape, is_escape, BACKSLASH. cbn.
    destruct (Z.eqb_spec e 120), (Z.eqb_spec e 0); try done. cbn. rewrite Hu, Hcat. done. }
  unfold repr_char. destruct ((c =? BACKSLASH) || (c =? DQUOTE)) eqn:E.
  { unfold BACKSLASH, DQUOTE in E. apply orb_true_iff in E.
    destruct E; zbool; subst c; (apply Hesc; [done..|reflexivity]). }
  unfold BACKSLASH, DQUOTE in E. zbool.
  do 5 (zcase; [subst c; apply Hesc; done|]).
  destruct (isprint c) eqn:Ep.
  - unfold isprint in Ep. zbool. exists cur', (c :: rest). split; [|split; [apply advance_cons; lia|done]].
    unfold turn_inq, is_hex_escape, is_escape, BACKSLASH, DQUOTE. cbn.
    destruct (Z.eqb_spec c 92), (Z.eqb_spec c 34), (Z.eqb_spec c 0); try lia. cbn. by rewrite Hcat.
  - pose proof (Z.div_mod c 16 ltac:(lia)) as Hdm. pose proof (Z.mod_pos_bound c 16 ltac:(lia)).
    destruct (hex_char_ok (c / 16)) as (Hh1 & Hi1 & Hr1); [lia|].
    destruct (hex_char_ok (c mod 16)) as (Hh2 & Hi2 & Hr2); [lia|].
    exists cur', (hex_char (c mod 16) :: rest). split; [|split; [apply advance_cons; lia|done]].
    unfold turn_inq, is_hex_escape, BACKSLASH. cbn. rewrite Hh1. cbn. rewrite Hh2. cbn.
    rewrite Hi1, Hi2. replace (c / 16 * 16 + c mod 16) with c by lia.
    rewrite wrapU_id by (unfold inU; zpow; lia). by rewrite Hcat.
Qed.

(** What may follow a quoted argument *)
Definition ends_token (rest : list Z) : Prop :=
  exists c tl, rest = c :: tl /\ (c = 0 \/ c = 32).

Lemma token_loop_quoted fuel cur str p rest :
  repr cur str -> Forall is_byte p -> ends_token rest ->
  Z.of_nat (length str) + Z.of_nat (length p) <= SDS_LIMIT -> (length p < fuel)%nat ->
  exists cur', token_loop fuel true false cur ((p ≫= repr_char) ++ DQUOTE :: rest)
    = Some (TokenDone rest cur') /\ repr cur' (str ++ p).
Proof.
  intros Hs Hp Hend. revert fuel cur str Hs.
  induction Hp as [|c p Hc Hp IH]; intros fuel cur str Hs Hl Hf;
    (destruct fuel as [|fuel]; [simpl in Hf; lia|]); cbn [token_loop].
  - destruct Hend as (d & tl & -> & Hd). exists cur. rewrite app_nil_r. split; [|done].
    unfold turn_inq, is_hex_escape, is_escape, bad_close, DQUOTE, BACKSLASH. cbn.
    by destruct Hd as [->| ->].
  - rewrite bind_cons, <- app_assoc. cbn [length] in Hl, Hf.
    destruct (turn_repr_char cur str c ((p ≫= repr_char) ++ DQUOTE :: rest) Hs Hc)
      as (cur1 & p1 & -> & Hadv & Hr1); [lia|].
    mstep. rewrite Hadv. mstep.
    destruct (IH fuel cur1 (str ++ [c]) Hr1) as (cur' & -> & Hr'); [rewrite length_app; simpl; lia|lia|].
    exists cur'. split; [done|]. by rewrite <- app_assoc in Hr'.
Qed.

Lemma token_loop_quote fuel cur p rest :
  repr cur [] -> Forall is_byte p -> ends_token rest ->
  Z.of_nat (length p) <= SDS_LIMIT -> (length p + 1 < fuel)%nat ->
  exists cur', token_loop fuel false false cur (quote p ++ rest) = Some (TokenDone rest cur') /\
    repr cur' p.
Proof.
  intros Hs Hp Hend Hl Hf. destruct fuel as [|fuel]; [lia|]. cbn [token_loop].
  unfold quote. cbn [app]. rewrite <- app_assoc. cbn [app].
  unfold turn_plain, DQUOTE. cbn. fold DQUOTE.
  destruct (token_loop_quoted fuel cur [] p rest Hs Hp Hend) as (cur' & Ht & Hr'); [simpl; lia|lia|].
  exists cur'. split; [exact Ht|done].
Qed.

(** The line made of the quoted arguments separated by a space *)
Fixpoint quoted_line (args : list (list Z)) : list Z :=
  match args with
  | [] => [0]
  | a :: args => quote a ++ 32 :: quoted_line args
  end.

Lemma args_loop_quoted fuel vector done_ args :
  Forall2 repr vector done_ -> Forall (Forall is_byte) args ->
  Forall (fun a => Z.of_nat (length a) <= SDS_LIMIT) args -> (length args < fuel)%nat ->
  (exists v, args_loop fuel vector (quoted_line args) = Some (Some v) /\ Forall2 repr v (done_ ++ args)) /\
  (exists v, args_loop fuel vector (32 :: quoted_line args) = Some (Some v) /\ Forall2 repr v (done_ ++ args)).
Proof.
  revert fuel vector done_. induction args as [|a args IH]; intros fuel vector done_ Hv Hb Hl Hf;
    (destruct fuel as [|fuel]; [simpl in Hf; lia|]).
  { rewrite app_nil_r. split; exists vector; (split; [reflexivity|done]). }
  apply Forall_cons in Hb as [Ha Hb]. apply Forall_cons in Hl as [Hla Hl]. cbn [length] in Hf.
  assert (Hgo : exists v, (current ← impl_empty;
      r ← token_loop (length (quoted_line (a :: args))) false false current (quoted_line (a :: args));
      match r with
      | TokenErr => Some None
      | TokenDone p current => args_loop fuel (vector ++ [current]) p
      end) = Some (Some v) /\ Forall2 repr v (done_ ++ a :: args)).
  { destruct impl_empty_ok as (e & -> & He). cbn [mbind option_bind quoted_line].
    destruct (token_loop_quote (length (quote a ++ 32 :: quoted_line args)) e a (32 :: quoted_line args) He Ha)
      as (cur & -> & Hcur); [exists 32, (quoted_line args); auto|done| |].
    { rewrite length_app. unfold quote. cbn [length]. rewrite length_app.
      pose proof (length_repr_chars a). simpl. lia. }
    mstep.
    destruct (IH fuel (vector ++ [cur]) (done_ ++ [a])) as [_ (v & -> & Hv')];
      [apply Forall2_app; [done|by constructor]|done|done|lia|].
    exists v. rewrite <- app_assoc in Hv'. done. }
  split; exact Hgo.
Qed.

(** ** Any line is read safely *)

(** A pointer into a line that still has [n] bytes before its terminator *)
Definition in_line (p : list Z) (n : nat) : Prop :=
  exists q, p = q ++ [0] /\ length q = n /\ Forall (fun b => is_byte b /\ b <> 0) q.

Lemma in_line_0 p : in_line p 0 -> p = [0].
Proof. intros (q & -> & Hq & _). by destruct q. Qed.

Lemma in_line_S p n :
  in_line p (Datatypes.S n) -> exists c tl, p = c :: tl /\ is_byte c /\ c <> 0 /\ in_line tl n.
Proof.
  intros (q & -> & Hq & Hb). destruct q as [|c q]; [done|]. apply Forall_cons in Hb as [[??] ?].
  exists c, (q ++ [0]). split_and!; try done. exists q. auto.
Qed.

Lemma in_line_byte p n : in_line p n -> exists c, p !! 0%nat = Some c /\ is_byte c /\ (c = 0 <-> n = 0%nat).
Proof.
  destruct n; intros H.
  - rewrite (in_line_0 _ H). exists 0. done.
  - destruct (in_line_S _ _ H) as (c & tl & -> & Hb & Hc & _). exists c. done.
Qed.

(** What one turn leaves: at most one byte more in the argument, and a
    pointer further in the line unless it is done. *)
Definition turn_ok (str : list Z) (n : nat) (r : option turn_result) : Prop :=
  exists t, r = Some t /\
  match t with
  | TurnErr => True
  | Turn d _ _ cur p =>
      (exists str', repr cur str' /\ (length str' <= length str + 1)%nat) /\
      exists m, in_line p m /\ (m <= n)%nat /\ (if d then m = n else (0 < m)%nat)
  end.

Lemma turn_ok_same str n cur p (d q1 q2 : bool) :
  repr cur str -> in_line p n -> (d = false -> (0 < n)%nat) -> turn_ok str n (Some (Turn d q1 q2 cur p)).
Proof.
  intros Hr Hp Hd. eexists. split; [done|]. split; [exists str; split; [done|lia]|].
  exists n. destruct d; auto.
Qed.

Lemma turn_ok_cat str n cur c p m (q1 q2 : bool) :
  repr cur str -> is_byte c -> Z.of_nat (length str) + 1 <= SDS_LIMIT ->
  in_line p m -> (0 < m <= n)%nat ->
  turn_ok str n (cur' ← cat cur [c]; Some (Turn false q1 q2 cur' p)).
Proof.
  intros Hr Hc Hl Hp Hm. destruct (cat_ok cur str [c] Hr) as (cur' & -> & Hr');
    [by apply Forall_singleton|simpl; lia|].
  mstep. eexists. split; [done|]. split.
  - exists (str ++ [c]). rewrite length_app. split; [done|simpl; lia].
  - exists m. split_and!; [done|lia|lia].
Qed.

Lemma unescape_byte c : is_byte c -> is_byte (unescape c).
Proof. unfold unescape, is_byte. intros. repeat zcase; lia. Qed.

Lemma is_hex_escape_ok p n :
  in_line p n -> exists b, is_hex_escape p = Some b /\
    (b = true -> exists c2 c3, p !! 2%nat = Some c2 /\ p !! 3%nat = Some c3 /\
       in_line (drop 3 p) (n - 3) /\ (3 < n)%nat).
Proof.
  intros Hp. destruct n as [|n]; [rewrite (in_line_0 _ Hp); by exists false|].
  destruct (in_line_S _ _ Hp) as (c & p1 & -> & Hb & Hc & Hp1). unfold is_hex_escape. cbn.
  destruct (c =? BACKSLASH); [|by exists false].
  destruct n as [|n]; [rewrite (in_line_0 _ Hp1); by exists false|].
  destruct (in_line_S _ _ Hp1) as (c1 & p2 & -> & Hb1 & Hc1 & Hp2). cbn.
  destruct (c1 =? 120); [|by exists false].
  destruct n as [|n]; [rewrite (in_line_0 _ Hp2); by exists false|].
  destruct (in_line_S _ _ Hp2) as (c2 & p3 & -> & Hb2 & Hc2 & Hp3). cbn.
  destruct (is_hex_digit c2); [|by exists false].
  destruct n as [|n]; [rewrite (in_line_0 _ Hp3); by exists false|].
  destruct (in_line_S _ _ Hp3) as (c3 & p4 & -> & Hb3 & Hc3 & Hp4). cbn.
  eexists. split; [done|]. intros _. exists c2, c3. split_and!; try done. lia.
Qed.

Lemma is_escape_ok c0 test p n :
  in_line p n -> test 0 = false -> c0 <> 0 ->
  exists b, is_escape c0 test p = Some b /\
    (b = true -> exists c, p !! 1%nat = Some c /\ is_byte c /\ in_line (drop 1 p) (n - 1) /\ (1 < n)%nat).
Proof.
  intros Hp Ht Hc0. unfold is_escape. destruct n as [|n].
  { rewrite (in_line_0 _ Hp). cbn. by destruct c0; [|exists false..]. }
  destruct (in_line_S _ _ Hp) as (c & p1 & -> & Hb & Hc & Hp1). cbn.
  destruct (c =? c0); [|by exists false].
  destruct n as [|n]; [rewrite (in_line_0 _ Hp1); cbn; rewrite Ht; by exists false|].
  destruct (in_line_S _ _ Hp1) as (c1 & p2 & -> & Hb1 & Hc1 & Hp2). cbn.
  eexists. split; [done|]. intros _. exists c1. split_and!; try done. lia.
Qed.

Lemma bad_close_ok p n c : in_line p n -> p !! 0%nat = Some c -> c <> 0 -> exists b, bad_close p = Some b.
Proof.
  intros Hp Hc H0. destruct n as [|n]; [rewrite (in_line_0 _ Hp) in Hc; by simplify_eq/=|].
  destruct (in_line_S _ _ Hp) as (c' & p1 & -> & _ & _ & Hp1). unfold bad_close.
  destruct (in_line_byte _ _ Hp1) as (d & Hd & _).
  change ((c' :: p1) !! 1%nat) with (p1 !! 0%nat). rewrite Hd. cbn. eauto.
Qed.

Lemma turn_err_ok str n : turn_ok str n (Some TurnErr).
Proof. by exists TurnErr. Qed.

Section turns.
Context (cur : S) (str p : list Z) (n : nat).
Context (Hr : repr cur str) (Hp : in_line p n) (Hl : Z.of_nat (length str) + 1 <= SDS_LIMIT).

Lemma turn_inq_ok : turn_ok str n (turn_inq cur p).
Proof.
  unfold turn_inq. destruct (is_hex_escape_ok _ _ Hp) as (hex & -> & Hhex). mstep.
  destruct hex.
  { destruct Hhex as (c2 & c3 & -> & -> & Hp' & Hn); [done|]. mstep.
    apply turn_ok_cat with (m := (n - 3)%nat); try done; [|lia]. apply (wrapU_range 8). lia. }
  destruct (is_escape_ok BACKSLASH (fun c1 => negb (c1 =? 0)) _ _ Hp) as (esc & -> & Hesc); [done..|].
  mstep. destruct esc.
  { destruct Hesc as (c & -> & Hb & Hp' & Hn); [done|]. mstep.
    apply turn_ok_cat with (m := (n - 1)%nat); try done; [by apply unescape_byte|lia]. }
  destruct (in_line_byte _ _ Hp) as (c & Hc & Hb & H0). rewrite Hc. mstep.
  destruct (Z.eqb_spec c DQUOTE) as [->|].
  { destruct (bad_close_ok _ _ _ Hp Hc) as ([|] & ->); [done|apply turn_err_ok|].
    by apply turn_ok_same. }
  destruct (Z.eqb_spec c 0); [apply turn_err_ok|].
  apply turn_ok_cat with (m := n); try done. lia.
Qed.

Lemma turn_insq_ok : turn_ok str n (turn_insq cur p).
Proof.
  unfold turn_insq.
  destruct (is_escape_ok BACKSLASH (fun c1 => c1 =? SQUOTE) _ _ Hp) as (esc & -> & Hesc); [done..|].
  mstep. destruct esc.
  { destruct Hesc as (c & _ & Hb & Hp' & Hn); [done|].
    apply turn_ok_cat with (m := (n - 1)%nat); try done. lia. }
  destruct (in_line_byte _ _ Hp) as (c & Hc & Hb & H0). rewrite Hc. mstep.
  destruct (Z.eqb_spec c SQUOTE) as [->|].
  { destruct (bad_close_ok _ _ _ Hp Hc) as ([|] & ->); [done|apply turn_err_ok|].
    by apply turn_ok_same. }
  destruct (Z.eqb_spec c 0); [apply turn_err_ok|].
  apply turn_ok_cat with (m := n); try done. lia.
Qed.

Lemma turn_plain_ok : turn_ok str n (turn_plain cur p).
Proof.
  unfold turn_plain. destruct (in_line_byte _ _ Hp) as (c & -> & Hb & H0). mstep.
  destruct (_ || _) eqn:E; [by apply turn_ok_same|]. zbool.
  destruct (c =? DQUOTE); [apply turn_ok_same; try done; lia|].
  destruct (c =? SQUOTE); [apply turn_ok_same; try done; lia|].
  apply turn_ok_cat with (m := n); try done. lia.
Qed.

End turns.

Lemma advance_ok p m : in_line p m -> exists p', advance p = Some p' /\ in_line p' (m - 1).
Proof.
  destruct m as [|m]; intros Hp.
  - rewrite (in_line_0 _ Hp). exists [0]. split; [done|]. exists []. auto.
  - destruct (in_line_S _ _ Hp) as (c & tl & -> & _ & Hc & Htl). exists tl.
    rewrite advance_cons by done. split; [done|]. by rewrite Nat.sub_succ, Nat.sub_0_r.
Qed.

(** The argument never gets longer than the part of the line that was read. *)
Lemma token_loop_safe fuel inq insq cur str p n :
  repr cur str -> in_line p n -> Z.of_nat (length str + n) + 1 <= SDS_LIMIT -> (n < fuel)%nat ->
  exists r, token_loop fuel inq insq cur p = Some r /\
    match r with
    | TokenErr => True
    | TokenDone p' cur' => (exists str', repr cur' str') /\
        exists m, in_line p' m /\ (m <= n - 1)%nat
    end.
Proof.
  revert inq insq cur str p n. induction fuel as [|fuel IH]; intros inq insq cur str p n Hr Hp Hl Hf; [lia|].
  cbn [token_loop].
  assert (Ht : turn_ok str n (if inq then turn_inq cur p else if insq then turn_insq cur p else turn_plain cur p)).
  { destruct inq; [|destruct insq]; [apply turn_inq_ok|apply turn_insq_ok|apply turn_plain_ok]; done || lia. }
  destruct Ht as (t & -> & Ht). mstep.
  destruct t as [|d q1 q2 cur' p']; [by exists TokenErr|].
  destruct Ht as ((str' & Hr' & Hls) & m & Hp' & Hm & Hd).
  destruct (advance_ok _ _ Hp') as (p'' & -> & Hp''). mstep. destruct d.
  - eexists. split; [done|]. split; [eauto|]. exists (m - 1)%nat. split; [done|lia].
  - destruct (IH q1 q2 cur' str' p'' (m - 1)%nat Hr' Hp'') as (r & -> & Hres); [lia|lia|].
    exists r. split; [done|]. destruct r as [p3 cur3|]; [|done].
    destruct Hres as [? (m' & ? & ?)]. split; [done|]. exists m'. split; [done|lia].
Qed.

Lemma skip_blanks_ok p n : in_line p n -> exists p' m, skip_blanks p = Some p' /\ in_line p' m /\ (m <= n)%nat.
Proof.
  revert p. induction n as [|n IH]; intros p Hp.
  - rewrite (in_line_0 _ Hp). exists [0], 0%nat. split_and!; [done|exists []; auto|lia].
  - destruct (in_line_S _ _ Hp) as (c & tl & -> & _ & Hc & Htl). cbn [skip_blanks].
    destruct (_ && _); [|exists (c :: tl), (Datatypes.S n); split_and!; [done|done|lia]].
    destruct (IH tl Htl) as (p' & m & -> & ? & ?). exists p', m. split_and!; [done|done|lia].
Qed.

Lemma args_loop_safe fuel vector p n :
  Forall (fun s => exists str, repr s str) vector ->
  in_line p n -> Z.of_nat n + 1 <= SDS_LIMIT -> (n < fuel)%nat ->
  exists r, args_loop fuel vector p = Some r /\
    forall v, r = Some v -> Forall (fun s => exists str, repr s str) v.
Proof.
  revert vector p n. induction fuel as [|fuel IH]; intros vector p n Hv Hp Hl Hf; [lia|].
  cbn [args_loop]. destruct (skip_blanks_ok _ _ Hp) as (p1 & m & -> & Hp1 & Hm).
  mstep. destruct (in_line_byte _ _ Hp1) as (c & -> & _ & H0). mstep.
  destruct (Z.eqb_spec c 0) as [_|Hc]; [eexists; split; [done|]; by intros v [= ->]|].
  destruct impl_empty_ok as (e & -> & He). mstep.
  assert (Hlen : length p1 = Datatypes.S m).
  { destruct Hp1 as (q & -> & Hq & _). rewrite length_app. simpl. lia. }
  destruct (token_loop_safe (length p1) false false e [] p1 m He Hp1) as (r & -> & Hr); [simpl; lia|lia|].
  mstep. destruct r as [p2 cur|]; [|eexists; split; [done|]; by intros v].
  destruct Hr as [Hcur (m' & Hp2 & Hm')].
  apply (IH _ _ m'); [|done|lia|lia]. apply Forall_app_2; [done|by constructor].
Qed.

(** ** Splitting *)

(** [sep] does not start at any of the positions before [n] *)
Definition no_sep (sep t : list Z) (n : nat) : Prop :=
  forall k, (k < n)%nat -> take (length sep) (drop k t) <> sep.

(** The specification of splitting: the text before the first separator,
    then the rest. *)
Inductive splits (sep : list Z) : list Z -> list (list Z) -> Prop :=
| splits_last t : no_sep sep t (length t) -> splits sep t [t]
| splits_cons t rest ts :
    no_sep sep (t ++ sep ++ rest) (length t) -> splits sep rest ts ->
    splits sep (t ++ sep ++ rest) (t :: ts).

Lemma sep_at_ok s sep (j : nat) :
  (j + length sep <= length s)%nat ->
  sep_at s (Z.of_nat j) sep = Some (bool_decide (take (length sep) (drop j s) = sep)).
Proof.
  intros Hj. unfold sep_at. rewrite mload_Some by lia. mstep.
  by rewrite !Nat2Z.id.
Qed.

Lemma no_sep_step sep t n :
  no_sep sep t n -> take (length sep) (drop n t) <> sep -> no_sep sep t (n + 1).
Proof.
  intros Hn Hne k Hk. destruct (decide (k = n)) as [->|]; [done|]. apply Hn. lia.
Qed.

(** A position where the rest is shorter than the separator has no match. *)
Lemma no_sep_all sep t n :
  (0 < length sep)%nat -> no_sep sep t n -> (length t < n + length sep)%nat -> no_sep sep t (length t).
Proof.
  intros Hs Hn Hl k Hk. destruct (decide (k < n)%nat) as [Hkn|Hkn]; [by apply Hn|]. intros Heq.
  apply (f_equal length) in Heq. rewrite length_take, length_drop in Heq. lia.
Qed.

Lemma split_loop_ok fuel pre rest sep k tokens :
  (0 < length sep)%nat -> (k <= length rest)%nat -> (length rest - k <= fuel)%nat ->
  no_sep sep rest k -> Forall is_byte rest -> Z.of_nat (length rest) <= SDS_LIMIT ->
  exists ts strs pre' last,
    split_loop fuel (pre ++ rest) sep tokens (Z.of_nat (length pre)) (Z.of_nat (length pre + k))
      = Some (tokens ++ ts, Z.of_nat (length pre')) /\
    Forall2 repr ts strs /\ pre ++ rest = pre' ++ last /\ splits sep rest (strs ++ [last]) /\
    Forall is_byte last /\ Z.of_nat (length last) <= SDS_LIMIT.
Proof.
  intros Hsep. revert pre rest k tokens.
  induction fuel as [|fuel IH]; intros pre rest k tokens Hk Hf Hno Hb Hl; cbn [split_loop];
    rewrite length_app; (destruct (Z.ltb_spec (Z.of_nat (length pre + k))
      (Z.of_nat (length pre + length rest) - (Z.of_nat (length sep) - 1))) as [Hlt|Hge]).
  1: lia.
  1, 3: exists [], [], pre, rest; rewrite app_nil_r; split_and!; try done;
    constructor; apply (no_sep_all _ _ k); [done|done|lia].
  rewrite sep_at_ok by (rewrite length_app; lia). mstep.
  rewrite drop_app_ge, Nat.add_sub_swap, Nat.sub_diag by lia. cbn [Nat.add].
  case_bool_decide as Hm.
  - pose (t := take k rest). pose (rest' := drop (length sep) (drop k rest)).
    assert (Hrest : rest = t ++ sep ++ rest').
    { unfold t, rest'. transitivity (take k rest ++ drop k rest); [by rewrite take_drop|].
      f_equal. by rewrite <- Hm at 1; rewrite take_drop. }
    assert (Ht : length t = k) by (unfold t; rewrite length_take; lia).
    clearbody t rest'. subst rest k. rewrite !length_app in *.
    rewrite (mload_app_mid pre t) by lia. mstep.
    apply Forall_app in Hb as [Hbt Hb]. apply Forall_app in Hb as [_ Hb].
    destruct (impl_newlen_ok t Hbt ltac:(lia)) as (x & Hx & Hrx).
    replace (Z.of_nat (length pre + length t) - Z.of_nat (length pre)) with (Z.of_nat (length t)) by lia.
    rewrite Hx. mstep.
    destruct (IH (pre ++ t ++ sep) rest' 0%nat (tokens ++ [x]))
      as (ts & strs & pre' & last & Heq & Hts & Hpre & Hsp & Hbl); [lia|lia|intros ??; lia|done|lia|].
    rewrite !length_app, <- !app_assoc in Heq. rewrite <- !app_assoc in Hpre.
    exists (x :: ts), (t :: strs), pre', last.
    split; [etrans; [|exact Heq]; f_equal; lia|]. split; [by constructor|]. split; [done|].
    split; [cbn [app]; by constructor|done].
  - destruct (IH pre rest (k + 1)%nat tokens) as (ts & strs & pre' & last & Heq & ?);
      [lia|lia|by apply no_sep_step|done|done|].
    exists ts, strs, pre', last. split; [|done]. rewrite <- Heq. f_equal. lia.
Qed.

(** ** Joining *)

(** [argv] with [sep] between *)
Fixpoint joined (argv : list (list Z)) (sep : list Z) : list Z :=
  match argv with
  | [] => []
  | [a] => a
  | a :: argv => a ++ sep ++ joined argv sep
  end.

Lemma join_loop_ok s str argv sep :
  repr s str -> Forall (Forall is_byte) argv -> Forall is_byte sep ->
  Z.of_nat (length str + length (joined argv sep)) <= SDS_LIMIT ->
  exists s', join_loop s argv sep = Some s' /\ repr s' (str ++ joined argv sep).
Proof.
  intros Hs Ha Hsep. revert s str Hs. induction Ha as [|a argv Ha Hargv IH]; intros s str Hs Hl.
  { exists s. by rewrite app_nil_r. }
  destruct argv as [|b argv]; [cbn [joined] in *; apply cat_ok; [done|done|lia]|].
  change (join_loop s (a :: b :: argv) sep)
    with (join ← cat s a; join ← cat join sep; join_loop join (b :: argv) sep).
  change (joined (a :: b :: argv) sep) with (a ++ sep ++ joined (b :: argv) sep) in *.
  rewrite !length_app in Hl.
  destruct (cat_ok s str a Hs Ha) as (s1 & -> & H1); [lia|]. mstep.
  destruct (cat_ok s1 _ sep H1 Hsep) as (s2 & -> & H2); [rewrite length_app; lia|]. mstep.
  destruct (IH s2 _ H2) as (s' & -> & Hs'); [rewrite !length_app; lia|].
  exists s'. split; [done|]. by rewrite !app_assoc in *.
Qed.

(** Joining the pieces of a text gives the text back. *)
Lemma splits_joined sep t ts : splits sep t ts -> joined ts sep = t /\ ts <> [].
Proof.
  induction 1 as [t Ht|t rest ts Ht Hrest [IH Hne]]; [done|]. split; [|done].
  destruct ts as [|t' ts]; [done|].
  change (t ++ sep ++ joined (t' :: ts) sep = t ++ sep ++ rest). by rewrite IH.
Qed.

(** ** Contract *)

(** C27: [sdscatrepr] and [sdssplitargs] are inverse: for arguments of any
    bytes whose quoted form fits, [sdscatrepr] appends the quoted form to any
    string, and [sdssplitargs] on the line of the quoted arguments succeeds
    and returns strings with exactly the bytes of the arguments. *)
Theorem sdssplitargs_roundtrip (args : list (list Z)) :
  Forall (Forall is_byte) args ->
  Forall (fun a => 4 * Z.of_nat (length a) + 2 <= SDS_LIMIT) args ->
  (forall a, a ∈ args -> exists e s, impl_empty = Some e /\
     sdscatrepr e a (Z.of_nat (length a)) = Some s /\ repr s (quote a)) /\
  exists v, sdssplitargs (quoted_line args) = Some (Some v) /\ Forall2 repr v args.
Proof.
  intros Hb Hl. split.
  - intros a Ha. destruct impl_empty_ok as (e & He & Hr). exists e.
    rewrite Forall_forall in Hb, Hl.
    destruct (sdscatrepr_ok e [] a Hr (Hb a Ha)) as (s & Hs & Hr'); [specialize (Hl a Ha); simpl; lia|].
    exists s. done.
  - unfold sdssplitargs. apply (args_loop_quoted _ [] []); [constructor|done| |].
    + eapply Forall_impl; [exact Hl|]. simpl. lia.
    + clear. induction args as [|a args IH]; [simpl; lia|].
      cbn [quoted_line length]. rewrite length_app. cbn [length]. lia.
Qed.

(** C28: on every NUL-terminated line [sdssplitargs] reads no byte past the
    terminator, ends, and returns either [NULL] (unbalanced quotes) or a
    vector of valid strings. *)
Theorem sdssplitargs_safe (q : list Z) :
  Forall (fun b => is_byte b /\ b <> 0) q -> Z.of_nat (length q) + 1 <= SDS_LIMIT ->
  exists r, sdssplitargs (q ++ [0]) = Some r /\
    forall v, r = Some v -> Forall (fun s => exists str, repr s str) v.
Proof.
  intros Hq Hl. unfold sdssplitargs. rewrite length_app. cbn [length].
  apply (args_loop_safe _ _ _ (length q)); [constructor| |done|lia]. by exists q.
Qed.

(** [sdssplitlen] with a separator of any length returns the pieces of
    the text between the leftmost separators that do not overlap, and
    [sdsjoinsds] of these pieces with the separator gives the text back. *)
Theorem sdssplitlen_correct (s sep : list Z) :
  (0 < length sep)%nat -> (0 < length s)%nat -> Forall is_byte s -> Forall is_byte sep ->
  Z.of_nat (length s) <= SDS_LIMIT ->
  exists v ts, sdssplitlen s sep = Some (Some v) /\ Forall2 repr v ts /\ splits sep s ts /\
    exists j, sdsjoinsds ts sep = Some j /\ repr j s.
Proof.
  intros Hsep Hs Hb Hbs Hl. unfold sdssplitlen.
  destruct (Z.ltb_spec (Z.of_nat (length sep)) 1), (Z.leb_spec (Z.of_nat (length s)) 0); try lia. cbn [orb].
  destruct (split_loop_ok (length s) [] s sep 0 []) as (v & strs & pre & last & Heq & Hv & Hpre & Hsp & Hbl & Hll);
    [done|lia|lia|intros ??; lia|done|done|].
  change (Z.of_nat (length [] + 0)) with 0 in Heq. change (Z.of_nat (length [])) with 0 in Heq.
  cbn [app] in Heq, Hpre. rewrite Heq. mstep.
  rewrite Hpre, length_app.
  replace (Z.of_nat (length pre + length last) - Z.of_nat (length pre)) with (Z.of_nat (length last)) by lia.
  rewrite <- (app_nil_r (pre ++ last)), <- app_assoc, (mload_app_mid pre last []) by done. mstep.
  destruct (impl_newlen_ok last Hbl Hll) as (x & -> & Hx). mstep.
  destruct (splits_joined _ _ _ Hsp) as [Hj _].
  exists (v ++ [x]), (strs ++ [last]). split; [done|]. split; [apply Forall2_app; [done|by constructor]|].
  rewrite app_nil_r, <- Hpre. split; [done|].
  unfold sdsjoinsds. destruct impl_empty_ok as (e & -> & He). mstep.
  rewrite <- Hj. apply (join_loop_ok e []); [done| |done|rewrite Hj; simpl; lia].
  clear -Hsp Hb. induction Hsp as [t Ht|t rest ts Ht Hrest IH]; [by constructor|].
  apply Forall_app in Hb as [Hbt Hb]. apply Forall_app in Hb as [_ Hb]. constructor; auto.
Qed.

End proofs.

(** ** The contract on the strings of [Sds] *)

Abbreviation impl := (@sds_impl block_allocator).
Abbreviation impl_laws := (@sds_impl_laws block_allocator block_allocator_laws).

(** A word, and a string of a quote, a NUL, a backslash and a newline *)
Lemma sdssplitargs_roundtrip_witness :
  exists v : list sds, @sdssplitargs sds impl (quoted_line [[71; 69; 84]; [34; 0; 92; 10]]) = Some (Some v) /\
    Forall2 sds_ok v [[71; 69; 84]; [34; 0; 92; 10]].
Proof.
  apply (@sdssplitargs_roundtrip sds impl impl_laws [[71; 69; 84]; [34; 0; 92; 10]]).
  - repeat constructor; done.
  - repeat constructor; vm_compute; discriminate.
Defined.

(** A line with an unbalanced quote *)
Lemma sdssplitargs_safe_witness :
  exists r : option (list sds), @sdssplitargs sds impl ([97; 32; 34; 98; 32; 99] ++ [0]) = Some r.
Proof.
  destruct (@sdssplitargs_safe sds impl impl_laws [97; 32; 34; 98; 32; 99]) as (r & Hr & _).
  - repeat constructor; done.
  - vm_compute. discriminate.
  - exists r. exact Hr.
Defined.

Example sdssplitargs_unbalanced :
  @sdssplitargs sds impl [97; 32; 34; 98; 32; 99; 0] = Some None.
Proof. vm_compute. reflexivity. Qed.

(** Two separators in a row give an empty piece. *)
Lemma sdssplitlen_correct_witness :
  exists v ts, @sdssplitlen sds impl [97; 44; 44; 98] [44] = Some (Some v) /\ Forall2 sds_ok v ts /\
    splits [44] [97; 44; 44; 98] ts.
Proof.
  destruct (@sdssplitlen_correct sds impl impl_laws [97; 44; 44; 98] [44]) as (v & ts & Hv & Hr & Hsp & _).
  - simpl; lia.
  - simpl; lia.
  - repeat constructor; done.
  - repeat constructor; done.
  - vm_compute. discriminate.
  - exists v, ts. split; [exact Hv|]. split; [exact Hr|exact Hsp].
Defined.
