(* ===== verification/Object.v ===== *)
(** * String objects ([object.c])

    The [robj] of a string, in its three encodings: an integer in the pointer
    field, an sds of its own, and an sds in the block of the object. The
    definitions follow the functions of object.c on string objects; a failed
    [serverAssert], a [serverPanic] or an access out of bounds is [None]. The
    theorems show that the encodings are invisible: whatever the encoding,
    an object stands for a string of bytes, which the conversions keep and the
    comparisons compare. *)

From S2P Require Import Prelude Numstr Sds.

#[local] Open Scope Z_scope.

(** ** Objects *)

Definition OBJ_STRING : Z := 0.
Definition OBJ_ENCODING_RAW : Z := 0.
Definition OBJ_ENCODING_INT : Z := 1.
Definition OBJ_ENCODING_EMBSTR : Z := 8.
Definition OBJ_REFCOUNT_BITS : Z := 23.
Definition OBJ_SHARED_REFCOUNT : Z := Z.shiftl 1 OBJ_REFCOUNT_BITS - 1.
Definition OBJ_STATIC_REFCOUNT : Z := Z.shiftl 1 OBJ_REFCOUNT_BITS - 2.
Definition OBJ_FIRST_SPECIAL_REFCOUNT : Z := OBJ_STATIC_REFCOUNT.
Definition OBJ_SHARED_INTEGERS : Z := 10000.
Definition OBJ_ENCODING_EMBSTR_SIZE_LIMIT : Z := 44.
Definition PROTO_MBULK_BIG_ARG : Z := 1024 * 32.
Definition LUA_CMD_OBJCACHE_MAX_LEN : Z := 64.

(** What the [ptr] field of a string object holds *)
Inductive obj_ptr := PNULL | PLong (v : Z) | PSds (s : sds).

Record robj := mkRobj {
  o_type : Z;
  o_encoding : Z;
  o_refcount : Z;
  o_iskvobj : Z;
  o_metabits : Z;
  o_lru : Z;
  o_ptr : obj_ptr
}.

Definition set_encoding (o : robj) (e : Z) : robj :=
  mkRobj (o_type o) e (o_refcount o) (o_iskvobj o) (o_metabits o) (o_lru o) (o_ptr o).
Definition set_refcount (o : robj) (r : Z) : robj :=
  mkRobj (o_type o) (o_encoding o) r (o_iskvobj o) (o_metabits o) (o_lru o) (o_ptr o).
Definition set_ptr (o : robj) (p : obj_ptr) : robj :=
  mkRobj (o_type o) (o_encoding o) (o_refcount o) (o_iskvobj o) (o_metabits o) (o_lru o) p.

Definition sdsEncodedObject (o : robj) : bool :=
  (o_encoding o =? OBJ_ENCODING_RAW) || (o_encoding o =? OBJ_ENCODING_EMBSTR).

Definition createObject (type : Z) (ptr : obj_ptr) : robj :=
  mkRobj type OBJ_ENCODING_RAW 1 0 0 0 ptr.

Definition makeObjectShared (o : robj) : option robj :=
  _ ← cassert (o_refcount o =? 1);
  Some (set_refcount o OBJ_SHARED_REFCOUNT).

Definition incrRefCount (o : robj) : option robj :=
  if o_refcount o <? OBJ_FIRST_SPECIAL_REFCOUNT - 1 then Some (set_refcount o (o_refcount o + 1))
  else if o_refcount o =? OBJ_SHARED_REFCOUNT then Some o
  else None.

(** The inner [None] is an object that was freed. *)
Definition decrRefCount (o : robj) : option (option robj) :=
  if o_refcount o =? OBJ_SHARED_REFCOUNT then Some (Some o) else
  _ ← cassert (negb (o_refcount o <=? 0));
  let o := set_refcount o (o_refcount o - 1) in
  Some (if o_refcount o =? 0 then None else Some o).

(** [shared.integers[j]], as [createSharedObjects] makes it *)
Definition shared_integers (j : Z) : option robj :=
  o ← makeObjectShared (createObject OBJ_STRING (PLong j));
  Some (set_encoding o OBJ_ENCODING_INT).

(** The sds of an object *)
Definition o_sds (o : robj) : option sds :=
  match o_ptr o with PSds s => Some s | _ => None end.

(** [(long)o->ptr] *)
Definition o_long (o : robj) : option Z :=
  match o_ptr o with PLong v => Some v | _ => None end.

(** The settings and the state of the server that the functions read *)
Record server_state := mkServer {
  maxmemory : Z;
  maxmemory_policy : Z;
  in_script : bool
}.

(** [MAXMEMORY_FLAG_LRU|MAXMEMORY_FLAG_LFU|MAXMEMORY_FLAG_LRM] *)
Definition MAXMEMORY_FLAG_NO_SHARED_INTEGERS : Z := Z.lor (Z.lor 1 2) 8.

Inductive ll2strobj := LL2STROBJ_AUTO | LL2STROBJ_NO_SHARED | LL2STROBJ_NO_INT_ENC.

#[export] Instance ll2strobj_eq_dec : EqDecision ll2strobj.
Proof. solve_decision. Defined.

Section alloc.
Context `{Allocator}.

(** A buffer on the stack *)
Definition stack_buf (n : Z) : list Z := junk <$> seq 0 (Z.to_nat n).

Definition createRawStringObject (ptr : init_arg) (len : Z) : option robj :=
  s ← sdsnewlen ptr len;
  Some (createObject OBJ_STRING (PSds s)).

(** The sds is in the block of the object, after the 16 bytes of the struct. *)
Definition createEmbeddedStringObject (val_ptr : init_arg) (val_len : Z) : option robj :=
  let val_sds_size := sdsReqSize val_len SDS_TYPE_8 in
  let data := drop 16 (malloc_usable (16 + val_sds_size)) in
  s ← sdsnewplacement data SDS_TYPE_8 val_ptr val_len;
  Some (mkRobj OBJ_STRING OBJ_ENCODING_EMBSTR 1 0 0 0 (PSds s)).

Definition createStringObject (ptr : init_arg) (len : Z) : option robj :=
  if len <=? OBJ_ENCODING_EMBSTR_SIZE_LIMIT then createEmbeddedStringObject ptr len
  else createRawStringObject ptr len.

(** The inner [option] is a [NULL]. *)
Definition tryCreateRawStringObject (ptr : init_arg) (len : Z) : option (option robj) :=
  str ← sdstrynewlen ptr len;
  match str with
  | None => Some None
  | Some s => Some (Some (createObject OBJ_STRING (PSds s)))
  end.

Definition tryCreateStringObject (ptr : init_arg) (len : Z) : option (option robj) :=
  if len <=? OBJ_ENCODING_EMBSTR_SIZE_LIMIT then o ← createEmbeddedStringObject ptr len; Some (Some o)
  else tryCreateRawStringObject ptr len.

Definition createStringObjectFromLongLongWithOptions (value : Z) (flag : ll2strobj) : option robj :=
  if (value >=? 0) && (value <? OBJ_SHARED_INTEGERS) && bool_decide (flag = LL2STROBJ_AUTO)
  then shared_integers value
  else if ((value >=? LLONG_MIN) && (value <=? LLONG_MAX)) && negb (bool_decide (flag = LL2STROBJ_NO_INT_ENC))
  then
    let o := createObject OBJ_STRING PNULL in
    let o := set_encoding o OBJ_ENCODING_INT in
    Some (set_ptr o (PLong value))
  else
    '(len, buf) ← ll2string (stack_buf LONG_STR_SIZE) value;
    createStringObject (INIT buf) len.

Definition createStringObjectFromLongLong (value : Z) : option robj :=
  createStringObjectFromLongLongWithOptions value LL2STROBJ_AUTO.

Definition createStringObjectFromLongLongForValue (server : server_state) (value : Z) : option robj :=
  if (maxmemory server =? 0) ||
     (Z.land (maxmemory_policy server) MAXMEMORY_FLAG_NO_SHARED_INTEGERS =? 0)
  then createStringObjectFromLongLongWithOptions value LL2STROBJ_AUTO
  else createStringObjectFromLongLongWithOptions value LL2STROBJ_NO_SHARED.

Definition createStringObjectFromLongLongWithSds (value : Z) : option robj :=
  createStringObjectFromLongLongWithOptions value LL2STROBJ_NO_INT_ENC.

(** The bytes of an sds, as a function that gets its pointer reads them *)
Definition sds_init (s : sds) (len : Z) : option init_arg := bs ← sbytes s 0 len; Some (INIT bs).

Definition dupStringObject (o : robj) : option robj :=
  _ ← cassert (o_type o =? OBJ_STRING);
  if o_encoding o =? OBJ_ENCODING_RAW then
    s ← o_sds o; l ← sdslen s; i ← sds_init s l; createRawStringObject i l
  else if o_encoding o =? OBJ_ENCODING_EMBSTR then
    s ← o_sds o; l ← sdslen s; i ← sds_init s l; createEmbeddedStringObject i l
  else if o_encoding o =? OBJ_ENCODING_INT then
    let d := createObject OBJ_STRING PNULL in
    let d := set_encoding d OBJ_ENCODING_INT in
    Some (set_ptr d (o_ptr o))
  else None.

Definition trimStringObjectIfNeeded (server : server_state) (o : robj) (trim_small_values : bool)
    : option robj :=
  if negb (o_encoding o =? OBJ_ENCODING_RAW) then Some o else
  s ← o_sds o;
  len ← sdslen s;
  if (len >=? PROTO_MBULK_BIG_ARG) || trim_small_values ||
     (in_script server && (len <? LUA_CMD_OBJCACHE_MAX_LEN)) then
    avail ← sdsavail s;
    if avail >? len / 10 then s ← sdsRemoveFreeSpace s false; Some (set_ptr o (PSds s)) else Some o
  else Some o.

(** The object that is returned; the one that was passed is changed, freed or
    returned. *)
Definition tryObjectEncodingEx (server : server_state) (o : robj) (try_trim : bool) : option robj :=
  _ ← cassert (o_type o =? OBJ_STRING);
  if negb (sdsEncodedObject o) then Some o else
  if o_refcount o >? 1 then Some o else
  s ← o_sds o;
  len ← sdslen s;
  bs ← sbytes s 0 len;
  match (if len <=? 20 then string2l bs else None) with
  | Some value =>
      if o_encoding o =? OBJ_ENCODING_RAW then
        Some (set_ptr (set_encoding o OBJ_ENCODING_INT) (PLong value))
      else _ ← decrRefCount o; createStringObjectFromLongLongForValue server value
  | None =>
      if len <=? OBJ_ENCODING_EMBSTR_SIZE_LIMIT then
        if o_encoding o =? OBJ_ENCODING_EMBSTR then Some o
        else emb ← createEmbeddedStringObject (INIT bs) len; _ ← decrRefCount o; Some emb
      else if try_trim then trimStringObjectIfNeeded server o false else Some o
  end.

Definition tryObjectEncoding (server : server_state) (o : robj) : option robj :=
  tryObjectEncodingEx server o true.

(** [strlen] of a buffer that holds a terminated string *)
Fixpoint strlen (buf : list Z) : option Z :=
  match buf with
  | [] => None
  | c :: buf => if c =? 0 then Some 0 else n ← strlen buf; Some (n + 1)
  end.

Definition getDecodedObject (o : robj) : option robj :=
  if sdsEncodedObject o then incrRefCount o else
  if (o_type o =? OBJ_STRING) && (o_encoding o =? OBJ_ENCODING_INT) then
    v ← o_long o;
    '(_, buf) ← ll2string (stack_buf 32) v;
    len ← strlen buf;
    createStringObject (INIT buf) len
  else None.

(** ** Comparing *)

(** [memcmp] gives the sign of the first difference. *)
Fixpoint memcmp (a b : list Z) : Z :=
  match a, b with
  | x :: a, y :: b => if x <? y then -1 else if y <? x then 1 else memcmp a b
  | _, _ => 0
  end.

(** The characters and the length of an object, in [buf] when it is an integer *)
Definition obj_chars (o : robj) : option (list Z * Z) :=
  if sdsEncodedObject o then s ← o_sds o; l ← sdslen s; bs ← sbytes s 0 l; Some (bs, l)
  else v ← o_long o; '(l, buf) ← ll2string (stack_buf 128) v; bs ← mload buf 0 l; Some (bs, l).

(** [same] is whether [a] and [b] are the same pointer; [strcoll] is the
    comparison of the C library in the current locale. *)
Definition compareStringObjectsWithFlags (strcoll : list Z -> list Z -> Z) (same : bool) (a b : robj)
    (coll : bool) : option Z :=
  _ ← cassert ((o_type a =? OBJ_STRING) && (o_type b =? OBJ_STRING));
  if same then Some 0 else
  '(astr, alen) ← obj_chars a;
  '(bstr, blen) ← obj_chars b;
  if coll then Some (strcoll astr bstr) else
  let minlen := if alen <? blen then alen else blen in
  let cmp := memcmp (take (Z.to_nat minlen) astr) (take (Z.to_nat minlen) bstr) in
  if cmp =? 0 then Some (s32 (alen - blen)) else Some cmp.

Definition compareStringObjects (same : bool) (a b : robj) : option Z :=
  compareStringObjectsWithFlags (fun _ _ => 0) same a b false.

Definition collateStringObjects (strcoll : list Z -> list Z -> Z) (same : bool) (a b : robj) : option Z :=
  compareStringObjectsWithFlags strcoll same a b true.

Definition equalStringObjects (same : bool) (a b : robj) : option bool :=
  if (o_encoding a =? OBJ_ENCODING_INT) && (o_encoding b =? OBJ_ENCODING_INT) then
    v ← o_long a; w ← o_long b; Some (v =? w)
  else
    differ ←
      (if sdsEncodedObject a && sdsEncodedObject b then
         s ← o_sds a; t ← o_sds b; l ← sdslen s; m ← sdslen t; Some (negb (l =? m))
       else Some false);
    if (differ : bool) then Some false else
    c ← compareStringObjects same a b; Some (c =? 0).

Definition stringObjectLen (o : robj) : option Z :=
  _ ← cassert (o_type o =? OBJ_STRING);
  if sdsEncodedObject o then s ← o_sds o; sdslen s
  else v ← o_long o; sdigits10 v.

(** ** Numbers *)

(** The replies to a client that sent something else than a number *)
Inductive num_reply :=
| MsgGiven (msg : list Z)
| MsgNotInteger
| MsgOutOfRange
| MsgNotBetween (min max : Z).

(** [C_ERR], or [C_OK] and the value of [*target] *)
Definition getLongLongFromObject (o : option robj) : option (option Z) :=
  match o with
  | None => Some (Some 0)
  | Some o =>
      _ ← cassert (o_type o =? OBJ_STRING);
      if sdsEncodedObject o then
        s ← o_sds o; l ← sdslen s; bs ← sbytes s 0 l; Some (string2ll bs)
      else if o_encoding o =? OBJ_ENCODING_INT then v ← o_long o; Some (Some v)
      else None
  end.

(** The reply that was sent, or the value *)
Definition getLongLongFromObjectOrReply (o : option robj) (msg : option (list Z))
    : option (num_reply + Z) :=
  r ← getLongLongFromObject o;
  match r with
  | None => Some (inl (match msg with Some m => MsgGiven m | None => MsgNotInteger end))
  | Some v => Some (inr v)
  end.

Definition getLongFromObjectOrReply (o : option robj) (msg : option (list Z)) : option (num_reply + Z) :=
  r ← getLongLongFromObjectOrReply o msg;
  match r with
  | inl e => Some (inl e)
  | inr value =>
      if (value <? LLONG_MIN) || (value >? LLONG_MAX)
      then Some (inl (match msg with Some m => MsgGiven m | None => MsgOutOfRange end))
      else Some (inr value)
  end.

Definition getRangeLongFromObjectOrReply (o : option robj) (min max : Z) (msg : option (list Z))
    : option (num_reply + Z) :=
  r ← getLongFromObjectOrReply o msg;
  match r with
  | inl e => Some (inl e)
  | inr target =>
      if (target <? min) || (target >? max)
      then Some (inl (match msg with Some m => MsgGiven m | None => MsgNotBetween min max end))
      else Some (inr target)
  end.

Definition getPositiveLongFromObjectOrReply (o : option robj) (msg : option (list Z))
    : option (num_reply + Z) :=
  match msg with
  | Some _ => getRangeLongFromObjectOrReply o 0 LLONG_MAX msg
  | None => getRangeLongFromObjectOrReply o 0 LLONG_MAX
              (Some (bytes_of_string "value is out of range, must be positive"%string))
  end.

Definition getIntFromObjectOrReply (o : option robj) (msg : option (list Z)) : option (num_reply + Z) :=
  getRangeLongFromObjectOrReply o (- 2 ^ 31) (2 ^ 31 - 1) msg.
End alloc.

(** ** The string of an object *)

Definition obj_str (o : robj) (bs : list Z) : Prop :=
  o_type o = OBJ_STRING /\
  match o_ptr o with
  | PNULL => False
  | PLong v => o_encoding o = OBJ_ENCODING_INT /\ inS 64 v /\ signed_decimal v bs
  | PSds s => (o_encoding o = OBJ_ENCODING_RAW \/
                 o_encoding o = OBJ_ENCODING_EMBSTR /\ Z.of_nat (length bs) <= OBJ_ENCODING_EMBSTR_SIZE_LIMIT) /\
                sds_ok s bs /\ Z.of_nat (length bs) <= SDS_LIMIT
  end.

(** Small blocks are small, so that the length of an embedded string fits in
    one byte: the limit of 44 characters is chosen for blocks of 64 bytes. *)
Class EmbstrLaws (A : Allocator) : Prop := {
  emb_usable n : 20 <= n <= 64 -> usable n <= 275
}.

Lemma block_allocator_embstr : EmbstrLaws block_allocator.
Proof.
  split. intros n Hn. change (round16 n <= 275). unfold round16.
  pose proof (Z.div_mod (n + 15) 16 ltac:(lia)). pose proof (Z.mod_pos_bound (n + 15) 16 ltac:(lia)). lia.
Qed.

Section strings.
Context `{A : Allocator} `{!AllocatorLaws A} `{!EmbstrLaws A}.

Lemma signed_decimal_bytes v bs : signed_decimal v bs -> Forall is_byte bs.
Proof.
  assert (H : forall v s, decimal v s -> Forall is_byte s).
  { intros w s [Hd _]. eapply Forall_impl; [exact Hd|]. intros c. unfold is_digit, is_byte. lia. }
  unfold signed_decimal. destruct (v <? 0); [|apply H]. intros (t & -> & Ht).
  constructor; [unfold is_byte; lia|by eapply H].
Qed.

(** Only the first bytes of the source are copied. *)
Lemma placement_prefix buf ty str tl :
  sdsnewplacement buf ty (INIT (str ++ tl)) (Z.of_nat (length str)) =
  sdsnewplacement buf ty (INIT str) (Z.of_nat (length str)).
Proof. unfold sdsnewplacement. by rewrite mload_app_l, mload_full by done. Qed.

Lemma newlen_prefix str tl :
  sdsnewlen (INIT (str ++ tl)) (Z.of_nat (length str)) = sdsnewlen (INIT str) (Z.of_nat (length str)).
Proof.
  unfold sdsnewlen, _sdsnewlen. destruct (cassert _); [|done]. cbn [mbind option_bind andb].
  destruct (adjustTypeIfNeeded _ _ _) as [[??]?]. by rewrite placement_prefix.
Qed.

Lemma raw_object str tl :
  Forall is_byte str -> Z.of_nat (length str) <= SDS_LIMIT ->
  exists o, createRawStringObject (INIT (str ++ tl)) (Z.of_nat (length str)) = Some o /\ obj_str o str /\
    o_encoding o = OBJ_ENCODING_RAW /\ o_refcount o = 1.
Proof.
  intros Hb Hl. unfold createRawStringObject. rewrite newlen_prefix.
  destruct (sdsnewlen_ok (INIT str) str Hb Hl) as (s & -> & Hs); [by left|]. mstep.
  eexists. split; [done|]. split_and!; try done. split; [done|]. cbn [o_ptr createObject].
  split_and!; [by left|done|done].
Qed.

(** The place of an embedded string *)
Lemma embedded_room n :
  0 <= n <= OBJ_ENCODING_EMBSTR_SIZE_LIMIT ->
  let data := drop 16 (malloc_usable (16 + sdsReqSize n SDS_TYPE_8)) in
  Forall is_byte data /\ sdsHdrSize 1 + n + 1 <= Z.of_nat (length data) < 2 ^ 64 /\ fits 1 n /\
  fits 1 (Z.of_nat (length data) - sdsHdrSize 1 - 1).
Proof.
  unfold OBJ_ENCODING_EMBSTR_SIZE_LIMIT. intros Hn. cbv zeta.
  set (data := drop 16 (malloc_usable (16 + sdsReqSize n SDS_TYPE_8))).
  assert (Hreq : sdsReqSize n SDS_TYPE_8 = n + 4).
  { unfold sdsReqSize. change (sdsHdrSize SDS_TYPE_8) with 3. rewrite wrapU_id by (unfold inU; zpow; lia). lia. }
  pose proof (emb_usable (16 + (n + 4)) ltac:(lia)) as Hu. pose proof (usable_ge (16 + (n + 4)) ltac:(zpow; lia)).
  destruct (malloc_usable_ok (16 + (n + 4))) as [_ Hb]; [zpow; lia|].
  assert (Hlen : Z.of_nat (length data) = usable (16 + (n + 4)) - 16).
  { unfold data. rewrite Hreq, length_drop. unfold malloc_usable. rewrite Nat2Z.inj_sub_max, length_mrealloc by lia.
    lia. }
  split_and!; [unfold data; rewrite Hreq; auto with bytes| | | |]; unfold fits; rewrite ?Hlen;
    change (sdsHdrSize 1) with 3; try (zpow; lia); change (if 1 =? 0 then _ else _) with 256; lia.
Qed.

Lemma embedded_object str tl :
  Forall is_byte str -> Z.of_nat (length str) <= OBJ_ENCODING_EMBSTR_SIZE_LIMIT ->
  exists o, createEmbeddedStringObject (INIT (str ++ tl)) (Z.of_nat (length str)) = Some o /\ obj_str o str /\
    o_encoding o = OBJ_ENCODING_EMBSTR /\ o_refcount o = 1.
Proof.
  intros Hb Hl. unfold createEmbeddedStringObject. rewrite placement_prefix.
  destruct (embedded_room (Z.of_nat (length str))) as (H1 & H2 & H3 & H4); [lia|].
  destruct (sdsnewplacement_ok (drop 16 (malloc_usable (16 + sdsReqSize (Z.of_nat (length str)) SDS_TYPE_8)))
    SDS_TYPE_8 (INIT str) str) as (s & Hs & Hok); try done; [by left|]. rewrite Hs. mstep.
  eexists. split; [done|]. split_and!; try done. split; [done|]. cbn [o_ptr].
  split_and!; [by right|done|]. unfold OBJ_ENCODING_EMBSTR_SIZE_LIMIT, SDS_LIMIT in *. zpow. lia.
Qed.

Lemma string_object str tl :
  Forall is_byte str -> Z.of_nat (length str) <= SDS_LIMIT ->
  exists o, createStringObject (INIT (str ++ tl)) (Z.of_nat (length str)) = Some o /\ obj_str o str /\
    o_encoding o = (if Z.of_nat (length str) <=? OBJ_ENCODING_EMBSTR_SIZE_LIMIT
                    then OBJ_ENCODING_EMBSTR else OBJ_ENCODING_RAW) /\ o_refcount o = 1.
Proof.
  intros Hb Hl. unfold createStringObject. destruct (_ <=? _) eqn:E; zbool.
  - by apply embedded_object.
  - by apply raw_object.
Qed.

(** ** Objects of integers *)

Lemma int_object v bs refcount :
  inS 64 v -> signed_decimal v bs -> obj_str (mkRobj OBJ_STRING OBJ_ENCODING_INT refcount 0 0 0 (PLong v)) bs.
Proof. intros Hv Hs. split; [done|]. cbn [o_ptr o_encoding]. done. Qed.

Lemma stack_buf_length n : 0 <= n -> length (stack_buf n) = Z.to_nat n.
Proof. intros. unfold stack_buf. by rewrite length_fmap, length_seq. Qed.

Lemma longlong_object v bs flag :
  inS 64 v -> signed_decimal v bs ->
  exists o, createStringObjectFromLongLongWithOptions v flag = Some o /\ obj_str o bs /\
    o_encoding o = (if bool_decide (flag = LL2STROBJ_NO_INT_ENC) then OBJ_ENCODING_EMBSTR else OBJ_ENCODING_INT).
Proof.
  intros Hv Hs. unfold createStringObjectFromLongLongWithOptions.
  destruct (_ && _) eqn:E1.
  { apply andb_true_iff in E1 as [_ E1]. apply bool_decide_eq_true in E1 as ->. eexists. split; [done|].
    split; [by apply int_object|done]. }
  clear E1. rewrite Z.geb_leb. unfold inS in Hv. rewrite (proj2 (Z.leb_le LLONG_MIN v)), (proj2 (Z.leb_le v LLONG_MAX))
    by (unfold LLONG_MIN, LLONG_MAX; revert Hv; zpow; lia). cbn [andb].
  destruct (bool_decide _) eqn:E; cbn [negb]; [|eexists; split; [done|]; by split; [apply int_object|]].
  destruct (ll2string_fits (stack_buf LONG_STR_SIZE) v Hv) as (t & Ht & ->); [by rewrite stack_buf_length|].
  rewrite (signed_decimal_unique _ _ _ Hs Ht) in *. mstep.
  pose proof (signed_decimal_short _ _ Hv Ht) as Hshort.
  assert (Z.of_nat (length t) <= OBJ_ENCODING_EMBSTR_SIZE_LIMIT) by (unfold OBJ_ENCODING_EMBSTR_SIZE_LIMIT; lia).
  unfold createStringObject. rewrite (proj2 (Z.leb_le _ _)) by done.
  destruct (embedded_object t ([0] ++ drop (S (length t)) (stack_buf LONG_STR_SIZE))) as (o & -> & Ho & He & _);
    [by eapply signed_decimal_bytes|done|]. eauto.
Qed.

(** ** Conversions *)

Lemma string2l_string2ll s : string2l s = string2ll s.
Proof.
  unfold string2l. destruct (string2ll s) as [v|] eqn:E; [|done]. mstep.
  apply string2ll_sound in E as [Hv _]. unfold inS, LLONG_MIN, LLONG_MAX in *. revert Hv. zpow. intros Hv.
  rewrite (proj2 (Z.ltb_ge _ _)), Z.gtb_ltb, (proj2 (Z.ltb_ge _ _)) by lia. done.
Qed.

(** The encodings *)
Lemma obj_cases o bs :
  obj_str o bs ->
  (exists v, sdsEncodedObject o = false /\ o_encoding o = OBJ_ENCODING_INT /\ o_ptr o = PLong v /\
     inS 64 v /\ signed_decimal v bs) \/
  (exists s, sdsEncodedObject o = true /\ o_ptr o = PSds s /\ sds_ok s bs /\ Z.of_nat (length bs) <= SDS_LIMIT /\
     (o_encoding o = OBJ_ENCODING_RAW \/
      o_encoding o = OBJ_ENCODING_EMBSTR /\ Z.of_nat (length bs) <= OBJ_ENCODING_EMBSTR_SIZE_LIMIT)).
Proof.
  intros [Ht Hp]. unfold sdsEncodedObject. destruct (o_ptr o) as [|v|s]; [done| |].
  - destruct Hp as (-> & Hv & Hs). left. eauto 6.
  - destruct Hp as (Henc & Hs & Hl). right. exists s. split; [|done]. by destruct Henc as [-> | [-> _]].
Qed.

(** What [tryObjectEncoding] makes of an object that it may change *)
Definition best_encoding (o : robj) (bs : list Z) : Z :=
  if bool_decide (string2ll bs = None)
  then if Z.of_nat (length bs) <=? OBJ_ENCODING_EMBSTR_SIZE_LIMIT then OBJ_ENCODING_EMBSTR else o_encoding o
  else OBJ_ENCODING_INT.

Lemma trim_object server o bs trim_small :
  obj_str o bs -> (forall s, o_ptr o = PSds s -> Z.of_nat (length (sh s)) < 2 ^ 64) ->
  exists o', trimStringObjectIfNeeded server o trim_small = Some o' /\ obj_str o' bs /\ o_encoding o' = o_encoding o.
Proof.
  intros Ho Hsh. unfold trimStringObjectIfNeeded.
  destruct (o_encoding o =? OBJ_ENCODING_RAW) eqn:E; zbool; cbn [negb]; [|by eauto].
  pose proof Ho as Ho'. apply obj_cases in Ho' as [(v & _ & He & _)|(s & _ & Hp & Hs & Hl & Henc)];
    [by rewrite E in He|].
  unfold o_sds. rewrite Hp. mstep. destruct (sbytes_ok _ _ Hs) as (-> & _ & _).
  mstep. destruct (_ || _); [|eauto]. pose proof Hs as (ty & aux & alloc & tl & Hr & Ha).
  rewrite (raw_sdsavail _ _ _ _ _ _ Hr) by (intros; apply Ha; done). mstep. destruct (_ >? _); [|eauto].
  unfold sdsRemoveFreeSpace. destruct (sbytes_ok _ _ Hs) as (-> & _ & _). mstep.
  destruct (sdsResize_ok s bs (Z.of_nat (length bs)) false Hs) as (s' & -> & Hok); [lia|by apply Hsh|].
  rewrite Nat2Z.id, take_ge in Hok by done. mstep. eexists. split; [done|].
  destruct Ho as [Ht _]. split; [|done]. split; [done|]. cbn [o_ptr set_ptr]. done.
Qed.

Lemma encode_object server o bs try_trim :
  obj_str o bs -> 1 <= o_refcount o -> (forall s, o_ptr o = PSds s -> Z.of_nat (length (sh s)) < 2 ^ 64) ->
  exists o', tryObjectEncodingEx server o try_trim = Some o' /\ obj_str o' bs /\
    (o_refcount o = 1 -> o_encoding o' = best_encoding o bs).
Proof.
  intros Ho Hrc Hsh. pose proof Ho as [Ht _]. unfold tryObjectEncodingEx. rewrite Ht.
  change (cassert (OBJ_STRING =? OBJ_STRING)) with (Some ()). mstep.
  destruct (obj_cases _ _ Ho) as [(v & -> & He & Hp & Hv & Hs)|(s & -> & Hp & Hs & Hl & Henc)]; cbn [negb].
  { exists o. split_and!; [done|done|]. intros _. unfold best_encoding.
    by rewrite (string2ll_complete _ _ Hv Hs), bool_decide_false. }
  destruct (o_refcount o >? 1) eqn:E1; zbool; [exists o; split_and!; [done|done|lia]|].
  assert (Hdecr : exists r, decrRefCount o = Some r).
  { unfold decrRefCount. assert (o_refcount o = 1) as -> by lia. eexists. reflexivity. }
  destruct Hdecr as [r Hdecr]. unfold o_sds. rewrite Hp. destruct (sbytes_ok _ _ Hs) as (Hlen & Hget & Hb).
  mstep. rewrite Hlen. mstep. rewrite Hget. mstep.
  rewrite string2l_string2ll. unfold best_encoding.
  assert (Hcase : (if Z.of_nat (length bs) <=? 20 then string2ll bs else None) = string2ll bs).
  { destruct (_ <=? 20) eqn:E; zbool; [done|]. destruct (string2ll bs) as [v|] eqn:Ev; [|done].
    apply string2ll_sound in Ev as [Hv Hd]. pose proof (signed_decimal_short _ _ Hv Hd). lia. }
  rewrite Hcase. destruct (string2ll bs) as [v|] eqn:Ev.
  - apply string2ll_sound in Ev as [Hv Hd]. rewrite bool_decide_false by done.
    destruct (o_encoding o =? OBJ_ENCODING_RAW) eqn:Er.
    + eexists. split; [done|]. split; [|done]. split; [done|]. cbn. done.
    + rewrite Hdecr. mstep. unfold createStringObjectFromLongLongForValue.
      destruct (_ || _); [destruct (longlong_object v bs LL2STROBJ_AUTO Hv Hd) as (o' & -> & H1 & H2)
                         |destruct (longlong_object v bs LL2STROBJ_NO_SHARED Hv Hd) as (o' & -> & H1 & H2)]; eauto.
  - rewrite bool_decide_true by done. destruct (_ <=? OBJ_ENCODING_EMBSTR_SIZE_LIMIT) eqn:E2; zbool.
    + destruct (o_encoding o =? OBJ_ENCODING_EMBSTR) eqn:E3; zbool; [eauto|].
      destruct (embedded_object bs [] Hb E2) as (o' & Hc & H1 & H2 & _). rewrite app_nil_r in Hc. rewrite Hc.
      mstep. rewrite Hdecr. mstep. eauto.
    + destruct try_trim; [|eauto].
      destruct (trim_object server o bs false Ho Hsh) as (o' & -> & H1 & H2). eauto.
Qed.

Lemma strlen_app t tl : Forall is_byte t -> ~ 0 ∈ t -> strlen (t ++ 0 :: tl) = Some (Z.of_nat (length t)).
Proof.
  induction t as [|c t IH]; intros Hb Hn; [done|]. cbn [app strlen]. apply Forall_cons in Hb as [_ Hb].
  rewrite (proj2 (Z.eqb_neq c 0)) by (intros ->; apply Hn; by left).
  rewrite IH; [|done|intros Hin; apply Hn; by right]. cbn [mbind option_bind length]. f_equal. lia.
Qed.

Lemma signed_decimal_nonzero v t : signed_decimal v t -> ~ 0 ∈ t.
Proof.
  assert (H : forall v s, decimal v s -> ~ 0 ∈ s).
  { intros w s [Hd _] Hin. rewrite Forall_forall in Hd. specialize (Hd _ Hin). unfold is_digit in Hd. lia. }
  unfold signed_decimal. destruct (v <? 0); [|apply H]. intros (u & -> & Hu) [?|?]%elem_of_cons; [done|].
  by eapply H.
Qed.

(** An integer in a large buffer *)
Lemma ll2string_room n v :
  inS 64 v -> 21 <= n ->
  exists t, signed_decimal v t /\
    ll2string (stack_buf n) v = Some (Z.of_nat (length t), t ++ [0] ++ drop (S (length t)) (stack_buf n)).
Proof.
  intros Hv Hn. destruct (ll2string_spec (stack_buf n) v Hv) as (t & Ht & Hpr).
  pose proof (signed_decimal_short _ _ Hv Ht). exists t. split; [done|].
  by rewrite (proj2 (Z.ltb_lt _ _)) in Hpr by (rewrite stack_buf_length; lia).
Qed.

Lemma decode_object o bs :
  obj_str o bs -> o_refcount o < OBJ_FIRST_SPECIAL_REFCOUNT - 1 \/ o_refcount o = OBJ_SHARED_REFCOUNT ->
  exists o', getDecodedObject o = Some o' /\ obj_str o' bs /\ sdsEncodedObject o' = true.
Proof.
  intros Ho Hrc. pose proof Ho as [Ht _]. unfold getDecodedObject.
  destruct (obj_cases _ _ Ho) as [(v & -> & He & Hp & Hv & Hs)|(s & Henc & Hp & Hs & Hl & Hcase)].
  - rewrite Ht, He. cbn [andb Z.eqb]. change (OBJ_STRING =? OBJ_STRING) with true.
    change (OBJ_ENCODING_INT =? OBJ_ENCODING_INT) with true. cbn [andb]. unfold o_long. rewrite Hp.
    mstep. destruct (ll2string_room 32 v Hv) as (t & Htd & ->); [lia|]. mstep.
    rewrite (signed_decimal_unique _ _ _ Hs Htd) in *. pose proof (signed_decimal_bytes _ _ Htd) as Hb.
    cbn [app]. rewrite strlen_app by (done || by eapply signed_decimal_nonzero). mstep.
    pose proof (signed_decimal_short _ _ Hv Htd).
    destruct (string_object t (0 :: drop (S (length t)) (stack_buf 32)) Hb) as (o' & -> & H1 & H2 & _);
      [unfold SDS_LIMIT; zpow; lia|]. exists o'. split_and!; [done|done|]. unfold sdsEncodedObject. rewrite H2.
    by destruct (_ <=? _).
  - rewrite Henc. unfold incrRefCount.
    assert (Hkeep : forall r, obj_str (set_refcount o r) bs /\ sdsEncodedObject (set_refcount o r) = true).
    { intros r. split; [exact Ho|exact Henc]. }
    destruct Hrc as [Hlt | ->].
    + rewrite (proj2 (Z.ltb_lt _ _)) by done. destruct (Hkeep (o_refcount o + 1)). eauto.
    + eexists. split; [done|]. done.
Qed.

Lemma dup_object o bs :
  obj_str o bs ->
  exists o', dupStringObject o = Some o' /\ obj_str o' bs /\ o_encoding o' = o_encoding o /\ o_refcount o' = 1.
Proof.
  intros Ho. pose proof Ho as [Ht _]. unfold dupStringObject. rewrite Ht.
  change (cassert (OBJ_STRING =? OBJ_STRING)) with (Some ()). mstep.
  destruct (obj_cases _ _ Ho) as [(v & _ & He & Hp & Hv & Hs)|(s & Henc & Hp & Hs & Hl & Hcase)].
  - rewrite He, Hp. eexists. split; [done|]. split; [|done]. by apply int_object.
  - unfold o_sds, sds_init. rewrite Hp. destruct (sbytes_ok _ _ Hs) as (Hlen & Hget & Hb).
    destruct (raw_object bs [] Hb Hl) as (o1 & Hr & H1). rewrite app_nil_r in Hr.
    destruct Hcase as [-> | [-> Hsmall]].
    + cbn [Z.eqb mbind option_bind]. rewrite Hlen. mstep. rewrite Hget. mstep.
      change (OBJ_ENCODING_RAW =? OBJ_ENCODING_RAW) with true. cbv iota. eauto.
    + destruct (embedded_object bs [] Hb Hsmall) as (o2 & He & H2). rewrite app_nil_r in He.
      change (OBJ_ENCODING_EMBSTR =? OBJ_ENCODING_RAW) with false.
      change (OBJ_ENCODING_EMBSTR =? OBJ_ENCODING_EMBSTR) with true. cbv iota. mstep.
      rewrite Hlen. mstep. rewrite Hget. mstep. eauto.
Qed.

(** ** Comparisons *)

(** The order of strings of bytes *)
Fixpoint lex (a b : list Z) : comparison :=
  match a, b with
  | [], [] => Eq
  | [], _ => Lt
  | _, [] => Gt
  | x :: a, y :: b => match Z.compare x y with Eq => lex a b | c => c end
  end.

Lemma lex_eq a b : lex a b = Eq <-> a = b.
Proof.
  revert b. induction a as [|x a IH]; intros [|y b]; cbn [lex]; try done.
  destruct (Z.compare_spec x y) as [-> |?|?]; [|split; [done|intros [= -> ->]; lia]..].
  rewrite IH. split; [by intros ->|by intros [= ->]].
Qed.

Lemma memcmp_lex (a b : list Z) :
  let m := Nat.min (length a) (length b) in
  let c := memcmp (take m a) (take m b) in
  ((if c =? 0 then Z.of_nat (length a) - Z.of_nat (length b) else c) ?= 0) = lex a b.
Proof.
  cbv zeta. revert b. induction a as [|x a IH]; intros [|y b]; cbn [length Nat.min take memcmp lex]; try done.
  destruct (x <? y) eqn:E1; zbool; [by rewrite (proj2 (Z.compare_lt_iff x y))|].
  destruct (y <? x) eqn:E2; zbool; [by rewrite (proj2 (Z.compare_gt_iff x y))|].
  assert (x = y) as -> by lia. rewrite Z.compare_refl, <- IH. destruct (_ =? 0); [|done]. f_equal. lia.
Qed.

Lemma obj_chars_ok o bs : obj_str o bs -> obj_chars o = Some (bs, Z.of_nat (length bs)).
Proof.
  intros Ho. unfold obj_chars.
  destruct (obj_cases _ _ Ho) as [(v & -> & He & Hp & Hv & Hs)|(s & -> & Hp & Hs & Hl & Hcase)].
  - unfold o_long. rewrite Hp. mstep. destruct (ll2string_room 128 v Hv) as (t & Ht & ->); [lia|].
    rewrite (signed_decimal_unique _ _ _ Hs Ht). mstep. by rewrite mload_app_l.
  - unfold o_sds. rewrite Hp. destruct (sbytes_ok _ _ Hs) as (Hlen & Hget & _). mstep.
    rewrite Hlen. mstep. by rewrite Hget.
Qed.

Lemma compare_ok a b sa sb :
  obj_str a sa -> obj_str b sb -> Z.of_nat (length sa) < 2 ^ 31 -> Z.of_nat (length sb) < 2 ^ 31 ->
  exists c, compareStringObjects false a b = Some c /\ (c ?= 0) = lex sa sb.
Proof.
  intros Ha Hb Hla Hlb. pose proof Ha as [Hta _]. pose proof Hb as [Htb _].
  unfold compareStringObjects, compareStringObjectsWithFlags. rewrite Hta, Htb.
  change (cassert _) with (Some ()). mstep.
  rewrite (obj_chars_ok _ _ Ha), (obj_chars_ok _ _ Hb). mstep.
  set (m := if _ <? _ then _ else _).
  assert (Hm : Z.to_nat m = Nat.min (length sa) (length sb))
    by (unfold m; destruct (_ <? _) eqn:E; zbool; rewrite Nat2Z.id; lia).
  rewrite Hm, wrapS_id by (try unfold inS; revert Hla Hlb; zpow; lia).
  pose proof (memcmp_lex sa sb) as Hlex. cbv zeta in Hlex. destruct (_ =? 0); eauto.
Qed.

Lemma sdigits10_length v t : inS 64 v -> signed_decimal v t -> sdigits10 v = Some (Z.of_nat (length t)).
Proof.
  intros Hv Ht. destruct (proj2 (digits10_exact v) Hv) as (d & -> & Hd). f_equal.
  assert (Huniq : forall s, decimal (Z.abs v) s -> d = Z.of_nat (length s)).
  { intros s Hs. destruct Hd as (H1 & H2 & H3). destruct (Z.eq_dec (Z.abs v) 0) as [E|E].
    - rewrite E in *. rewrite (decimal_zero _ Hs). simpl.
      destruct (Z.eq_dec d 1) as [|Hne]; [done|]. specialize (H3 ltac:(lia)).
      pose proof (Z.pow_pos_nonneg 10 (d - 1) ltac:(lia) ltac:(lia)). lia.
    - pose proof (decimal_length _ _ Hs E) as Hlen.
      assert (1 <= Z.of_nat (length s)).
      { destruct (Z.le_gt_cases 1 (Z.of_nat (length s))) as [|Hz]; [done|].
        destruct s; [|simpl in Hz; lia]. simpl in Hlen. lia. }
      destruct (Z.lt_trichotomy d (Z.of_nat (length s))) as [Hlt|[|Hgt]]; [|done|]; exfalso.
      + pose proof (Z.pow_le_mono_r 10 d (Z.of_nat (length s) - 1) ltac:(lia) ltac:(lia)). lia.
      + specialize (H3 ltac:(lia)).
        pose proof (Z.pow_le_mono_r 10 (Z.of_nat (length s)) (d - 1) ltac:(lia) ltac:(lia)). lia. }
  unfold signed_decimal in Ht. destruct (v <? 0) eqn:E; zbool.
  - destruct Ht as (u & -> & Hu). rewrite (Huniq u) by (by replace (Z.abs v) with (- v) by lia). simpl. lia.
  - rewrite (Huniq t) by (by replace (Z.abs v) with v by lia). simpl. lia.
Qed.

(** ** Contract *)

(** C37: the encodings of a string object are interchangeable. Whatever its
    encoding, [tryObjectEncoding] returns a well formed object of the same
    string, and when it may change the object its encoding is the integer when
    the string is the text of one, else the embedded one up to 44 characters;
    [getDecodedObject] returns an object of the same string that is not an
    integer, and [dupStringObject] an unshared one in the same encoding. *)
Theorem string_conversions_typed server o bs try_trim :
  obj_str o bs -> 1 <= o_refcount o < OBJ_FIRST_SPECIAL_REFCOUNT - 1 ->
  (forall s, o_ptr o = PSds s -> Z.of_nat (length (sh s)) < 2 ^ 64) ->
  (exists o', tryObjectEncodingEx server o try_trim = Some o' /\ obj_str o' bs /\
     (o_refcount o = 1 -> o_encoding o' = best_encoding o bs)) /\
  (exists o', getDecodedObject o = Some o' /\ obj_str o' bs /\ sdsEncodedObject o' = true) /\
  (exists o', dupStringObject o = Some o' /\ obj_str o' bs /\ o_encoding o' = o_encoding o /\ o_refcount o' = 1).
Proof.
  intros Ho Hrc Hsh. split_and!; [apply encode_object|apply decode_object|apply dup_object]; done || lia || auto.
Qed.

(** The comparisons see only the strings. For strings shorter than 2 GB,
    [compareStringObjects] has the sign of their order as strings of bytes,
    [equalStringObjects], with its shortcuts for two integers and for
    different lengths, tells whether they are equal, and [stringObjectLen] is
    the number of characters, also of an integer that is not printed. *)
Theorem string_comparisons_correct a b sa sb :
  obj_str a sa -> obj_str b sb -> Z.of_nat (length sa) < 2 ^ 31 -> Z.of_nat (length sb) < 2 ^ 31 ->
  (exists c, compareStringObjects false a b = Some c /\ (c ?= 0) = lex sa sb) /\
  equalStringObjects false a b = Some (bool_decide (sa = sb)) /\
  stringObjectLen a = Some (Z.of_nat (length sa)).
Proof.
  intros Ha Hb Hla Hlb. destruct (compare_ok _ _ _ _ Ha Hb Hla Hlb) as (c & Hc & Hlex).
  assert (Hzero : (c =? 0) = bool_decide (sa = sb)).
  { assert (Hiff : c = 0 <-> sa = sb) by (rewrite <- lex_eq, <- Hlex; by rewrite Z.compare_eq_iff).
    destruct (Z.eqb_spec c 0); [rewrite bool_decide_true|rewrite bool_decide_false]; tauto. }
  split_and!; [eauto| |].
  - unfold equalStringObjects. rewrite Hc. mstep. rewrite Hzero.
    destruct (obj_cases _ _ Ha) as [(v & -> & He & Hp & Hv & Hs)|(s & -> & Hp & Hs & Hl & Hcase)];
    destruct (obj_cases _ _ Hb) as [(w & -> & He' & Hp' & Hw & Hs')|(s' & -> & Hp' & Hs' & Hl' & Hcase')];
      cbn [andb].
    + rewrite He, He'. unfold o_long. rewrite Hp, Hp'. change (_ && _) with true. mstep.
      f_equal. destruct (Z.eqb_spec v w) as [-> |Hne].
      * rewrite bool_decide_true; [done|]. by eapply signed_decimal_unique.
      * rewrite bool_decide_false; [done|]. intros ->. apply Hne.
        apply (string2ll_complete _ _ Hv) in Hs. apply (string2ll_complete _ _ Hw) in Hs'. congruence.
    + rewrite He. destruct Hcase' as [-> | [-> _]]; done.
    + destruct Hcase as [-> | [-> _]]; done.
    + replace ((o_encoding a =? _) && _) with false by (by destruct Hcase as [-> | [-> _]]).
      unfold o_sds. rewrite Hp, Hp'. destruct (sbytes_ok _ _ Hs) as (Hla' & _).
      destruct (sbytes_ok _ _ Hs') as (Hlb' & _). mstep. rewrite Hla'. mstep.
      rewrite Hlb'. mstep. destruct (Z.eqb_spec (Z.of_nat (length sa)) (Z.of_nat (length sb))) as [|Hne]; [done|].
      cbn [negb]. rewrite bool_decide_false; [done|]. intros ->. done.
  - pose proof Ha as [Ht _]. unfold stringObjectLen. rewrite Ht. change (cassert _) with (Some ()).
    mstep.
    destruct (obj_cases _ _ Ha) as [(v & -> & He & Hp & Hv & Hs)|(s & -> & Hp & Hs & Hl & Hcase)].
    + unfold o_long. rewrite Hp. mstep. by apply sdigits10_length.
    + unfold o_sds. rewrite Hp. mstep. by destruct (sbytes_ok _ _ Hs) as (-> & _).
Qed.

(** Numbers in arguments. [getRangeLongFromObjectOrReply] accepts exactly
    the objects whose string is the canonical text of an integer of 64 bits in
    the range, and gives that integer; a missing object counts as 0; for every
    other one it sends the caller's message, or says whether the string is not
    an integer or the integer is out of the range. *)
Theorem getRangeLong_exact o bs min max msg :
  obj_str o bs ->
  getRangeLongFromObjectOrReply (Some o) min max msg =
    Some (match string2ll bs with
          | None => inl (default MsgNotInteger (MsgGiven <$> msg))
          | Some v => if (min <=? v) && (v <=? max) then inr v
                      else inl (default (MsgNotBetween min max) (MsgGiven <$> msg))
          end) /\
  getRangeLongFromObjectOrReply None min max msg =
    Some (if (min <=? 0) && (0 <=? max) then inr 0
          else inl (default (MsgNotBetween min max) (MsgGiven <$> msg))).
Proof.
  assert (Hrange : forall v, (v <? min) || (v >? max) = negb ((min <=? v) && (v <=? max))).
  { intros v. rewrite Z.gtb_ltb, !Z.ltb_antisym. by destruct (_ <=? _), (_ <=? _). }
  assert (Hlong : forall v, inS 64 v -> (v <? LLONG_MIN) || (v >? LLONG_MAX) = false).
  { intros v. unfold inS, LLONG_MIN, LLONG_MAX. zpow. intros Hv.
    rewrite Z.gtb_ltb, !(proj2 (Z.ltb_ge _ _)) by lia. done. }
  intros Ho. unfold getRangeLongFromObjectOrReply, getLongFromObjectOrReply, getLongLongFromObjectOrReply.
  split.
  - assert (Hget : getLongLongFromObject (Some o) = Some (string2ll bs)).
    { pose proof Ho as [Ht _]. unfold getLongLongFromObject. rewrite Ht. change (cassert _) with (Some ()).
      mstep.
      destruct (obj_cases _ _ Ho) as [(v & -> & He & Hp & Hv & Hs)|(s & -> & Hp & Hs & Hl & Hcase)].
      - rewrite He. change (OBJ_ENCODING_INT =? OBJ_ENCODING_INT) with true. unfold o_long. rewrite Hp.
        mstep. by rewrite (string2ll_complete _ _ Hv Hs).
      - unfold o_sds. rewrite Hp. destruct (sbytes_ok _ _ Hs) as (Hlen & Hb & _). mstep.
        rewrite Hlen. mstep. by rewrite Hb. }
    rewrite Hget. mstep. destruct (string2ll bs) as [v|] eqn:Ev; mstep.
    + rewrite Hlong by (by apply string2ll_sound in Ev as [? ?]). mstep. rewrite Hrange.
      destruct (_ && _); [done|]. by destruct msg.
    + by destruct msg.
  - unfold getLongLongFromObject. mstep. rewrite Hlong by (by split). mstep.
    rewrite Hrange. destruct (_ && _); [done|]. by destruct msg.
Qed.
End strings.

(** ** The theorems on concrete objects *)

Definition ex_int : robj := mkRobj OBJ_STRING OBJ_ENCODING_INT 1 0 0 0 (PLong (-12)).

Lemma ex_int_ok : obj_str ex_int [45; 49; 50].
Proof.
  split; [done|]. cbn. split_and!; [done|by split|]. apply (string2ll_sound [45; 49; 50] (-12)). reflexivity.
Qed.

Definition ex_raw : robj := createObject OBJ_STRING (PSds hello).

Lemma ex_raw_ok : obj_str ex_raw [104; 101; 108; 108; 111].
Proof. split; [done|]. cbn [o_ptr ex_raw createObject]. split_and!; [by left|exact hello_ok|by vm_compute]. Qed.

Lemma string_conversions_typed_witness :
  exists o, tryObjectEncodingEx (H:=block_allocator) (mkServer 0 0 false) ex_raw true = Some o /\
    obj_str o [104; 101; 108; 108; 111] /\ o_encoding o = OBJ_ENCODING_EMBSTR.
Proof.
  destruct (proj1 (@string_conversions_typed block_allocator block_allocator_laws block_allocator_embstr
    (mkServer 0 0 false) ex_raw [104; 101; 108; 108; 111] true ex_raw_ok ltac:(done)
    ltac:(intros s [= <-]; reflexivity))) as (o & Ho & Hs & He).
  exists o. split_and!; [exact Ho|exact Hs|exact (He eq_refl)].
Defined.

Lemma string_comparisons_correct_witness :
  equalStringObjects (H:=block_allocator) false ex_int ex_raw = Some false /\
  stringObjectLen ex_int = Some 3.
Proof.
  destruct (@string_comparisons_correct block_allocator ex_int ex_raw _ _ ex_int_ok ex_raw_ok
    ltac:(done) ltac:(done)) as (_ & H1 & H2). split; [exact H1|exact H2].
Defined.

Lemma getRangeLong_exact_witness :
  getRangeLongFromObjectOrReply (Some ex_int) 0 10 None = Some (inl (MsgNotBetween 0 10)).
Proof. apply (getRangeLong_exact ex_int _ 0 10 None ex_int_ok). Defined.

(** A string whose length differs by 4 GB from that of an integer: the
    difference of the lengths is 0 once it is an [int]. *)
Example length_difference_wraps : s32 (2 - (2 + 2 ^ 32)) = 0.
Proof. reflexivity. Qed.
