(* ===== verification/Rio.v ===== *)
(** * Streams ([rio.c], [rio.h])

    The streams that persistence and replication write to and read from. The
    backend of a stream is a record of operations in the C code, and here an
    interface, [RioBackend], with its laws, [RioLaws]; the in-memory buffer
    implements it. [rioWrite] and [rioRead] cut the data in chunks, keep the
    checksum of what went through and remember errors: the theorems are proved
    for every backend that keeps the laws, and applied to the buffer. *)

From S2P Require Import Prelude Crc64 Sds.

#[local] Open Scope Z_scope.

(** ** The backends *)

(** [read] gives the bytes, or [None] for the 0 that the function returns;
    [write] tells whether it succeeded. The outer [option] is a failed
    assertion or an access out of bounds. *)
Class RioBackend (S : Type) := {
  be_read : S -> Z -> option (option (list Z) * S);
  be_write : S -> list Z -> option (bool * S);
  be_tell : S -> Z
}.

(** What the code relies on. The stream [rio_rep s past rest] has let the
    bytes [past] through and has the bytes [rest] left to read; a stream is
    written at its end. *)
Class RioLaws (S : Type) `{RioBackend S} := {
  rio_rep : S -> list Z -> list Z -> Prop;
  read_ok s past bs rest : rio_rep s past (bs ++ rest) -> bs <> [] ->
    exists s', be_read s (Z.of_nat (length bs)) = Some (Some bs, s') /\ rio_rep s' (past ++ bs) rest;
  read_short s past rest n : rio_rep s past rest -> Z.of_nat (length rest) < n -> n < 2 ^ 64 ->
    exists s', be_read s n = Some (None, s');
  write_ok s past bs : rio_rep s past [] -> Forall is_byte bs ->
    Z.of_nat (length past) + Z.of_nat (length bs) <= SDS_LIMIT ->
    exists s', be_write s bs = Some (true, s') /\ rio_rep s' (past ++ bs) [];
  rep_bytes s past rest : rio_rep s past rest -> Forall is_byte rest;
  rep_length s past rest : rio_rep s past rest -> Z.of_nat (length rest) < 2 ^ 63
}.

(** ** The memory buffer *)

Record rio_buffer := mkBuffer { b_ptr : sds; b_pos : Z }.

Section buffer.
Context `{Allocator}.

Definition rioBufferWrite (r : rio_buffer) (buf : list Z) : option (bool * rio_buffer) :=
  s ← sdscatlen (b_ptr r) buf (Z.of_nat (length buf));
  Some (true, mkBuffer s (b_pos r + Z.of_nat (length buf))).

(** The difference is unsigned. *)
Definition rioBufferRead (r : rio_buffer) (len : Z) : option (option (list Z) * rio_buffer) :=
  l ← sdslen (b_ptr r);
  if u64 (l - b_pos r) <? len then Some (None, r) else
  bs ← sbytes (b_ptr r) (b_pos r) len;
  Some (Some bs, mkBuffer (b_ptr r) (b_pos r + len)).

Definition rioBufferTell (r : rio_buffer) : Z := b_pos r.

#[export] Instance rioBufferIO : RioBackend rio_buffer := {|
  be_read := rioBufferRead;
  be_write := rioBufferWrite;
  be_tell := rioBufferTell
|}.
End buffer.

(** ** Streams *)

Definition RIO_FLAG_READ_ERROR : Z := Z.shiftl 1 0.
Definition RIO_FLAG_WRITE_ERROR : Z := Z.shiftl 1 1.

(** The [update_cksum] field *)
Inductive cksum_fn := NoChecksum | GenericUpdateChecksum.

(** [r_crc] is the static data of the checksum code. *)
Record rio (S : Type) := mkRio {
  r_io : S;
  update_cksum : cksum_fn;
  cksum : Z;
  flags : Z;
  processed_bytes : Z;
  max_processing_chunk : Z;
  r_crc : crc_globals
}.
Arguments mkRio {S}.
Arguments r_io {S}.
Arguments update_cksum {S}.
Arguments cksum {S}.
Arguments flags {S}.
Arguments processed_bytes {S}.
Arguments max_processing_chunk {S}.
Arguments r_crc {S}.

(** The tables of the checksum code, and the address of a buffer, on which
    that code depends *)
Class CrcEnv := { crc_table : table; buf_addr : list Z -> Z }.

Section rio.
Context {S : Type} `{RioBackend S} `{CrcEnv}.

Definition set_io (r : rio S) (s : S) : rio S :=
  mkRio s (update_cksum r) (cksum r) (flags r) (processed_bytes r) (max_processing_chunk r) (r_crc r).
Definition set_flags (r : rio S) (f : Z) : rio S :=
  mkRio (r_io r) (update_cksum r) (cksum r) f (processed_bytes r) (max_processing_chunk r) (r_crc r).
Definition add_processed (r : rio S) (n : Z) : rio S :=
  mkRio (r_io r) (update_cksum r) (cksum r) (flags r) (u64 (processed_bytes r + n))
    (max_processing_chunk r) (r_crc r).
Definition set_chunk (r : rio S) (n : Z) : rio S :=
  mkRio (r_io r) (update_cksum r) (cksum r) (flags r) (processed_bytes r) n (r_crc r).
Definition set_update_cksum (r : rio S) (f : cksum_fn) : rio S :=
  mkRio (r_io r) f (cksum r) (flags r) (processed_bytes r) (max_processing_chunk r) (r_crc r).

Definition rioGenericUpdateChecksum (r : rio S) (buf : list Z) : option (rio S) :=
  '(c, g) ← crc64 (r_crc r) crc_table (cksum r) (buf_addr buf) buf;
  Some (mkRio (r_io r) (update_cksum r) c (flags r) (processed_bytes r) (max_processing_chunk r) g).

(** [if (r->update_cksum) r->update_cksum(r,buf,len);] *)
Definition do_update_cksum (r : rio S) (buf : list Z) : option (rio S) :=
  match update_cksum r with
  | NoChecksum => Some r
  | GenericUpdateChecksum => rioGenericUpdateChecksum r buf
  end.

Definition chunk_len (r : rio S) (len : Z) : Z :=
  if negb (max_processing_chunk r =? 0) && (max_processing_chunk r <? len)
  then max_processing_chunk r else len.

(** As many turns as the loops can take: one without a limit on the chunks *)
Definition rio_fuel (r : rio S) (len : Z) : nat :=
  if max_processing_chunk r =? 0 then 1 else Z.to_nat len.

Fixpoint rioWrite_loop (fuel : nat) (r : rio S) (buf : list Z) : option (Z * rio S) :=
  let len := Z.of_nat (length buf) in
  if len =? 0 then Some (1, r) else
  match fuel with
  | O => None
  | Datatypes.S fuel =>
      let bytes_to_write := chunk_len r len in
      let chunk := take (Z.to_nat bytes_to_write) buf in
      r ← do_update_cksum r chunk;
      '(ok, s) ← be_write (r_io r) chunk;
      let r := set_io r s in
      if negb ok then Some (0, set_flags r (Z.lor (flags r) RIO_FLAG_WRITE_ERROR)) else
      rioWrite_loop fuel (add_processed r bytes_to_write) (drop (Z.to_nat bytes_to_write) buf)
  end.

Definition rioWrite (r : rio S) (buf : list Z) : option (Z * rio S) :=
  if negb (Z.land (flags r) RIO_FLAG_WRITE_ERROR =? 0) then Some (0, r) else
  rioWrite_loop (rio_fuel r (Z.of_nat (length buf))) r buf.

(** [acc] are the bytes already stored in the caller's buffer. *)
Fixpoint rioRead_loop (fuel : nat) (r : rio S) (len : Z) (acc : list Z) : option (option (list Z) * rio S) :=
  if len =? 0 then Some (Some acc, r) else
  match fuel with
  | O => None
  | Datatypes.S fuel =>
      let bytes_to_read := chunk_len r len in
      '(bs, s) ← be_read (r_io r) bytes_to_read;
      let r := set_io r s in
      match bs with
      | None => Some (None, set_flags r (Z.lor (flags r) RIO_FLAG_READ_ERROR))
      | Some bs =>
          r ← do_update_cksum r bs;
          rioRead_loop fuel (add_processed r bytes_to_read) (len - bytes_to_read) (acc ++ bs)
      end
  end.

(** The bytes, or [None] for the returned 0 *)
Definition rioRead (r : rio S) (len : Z) : option (option (list Z) * rio S) :=
  if negb (Z.land (flags r) RIO_FLAG_READ_ERROR =? 0) then Some (None, r) else
  rioRead_loop (rio_fuel r len) r len [].

Definition rioTell (r : rio S) : Z := be_tell (r_io r).

Definition rioAbort (r : rio S) : rio S :=
  set_flags r (Z.lor (flags r) (Z.lor RIO_FLAG_READ_ERROR RIO_FLAG_WRITE_ERROR)).

Definition rioGetReadError (r : rio S) : bool := negb (Z.land (flags r) RIO_FLAG_READ_ERROR =? 0).
Definition rioGetWriteError (r : rio S) : bool := negb (Z.land (flags r) RIO_FLAG_WRITE_ERROR =? 0).
Definition rioClearErrors (r : rio S) : rio S :=
  set_flags r (Z.land (flags r) (Z.lnot (Z.lor RIO_FLAG_READ_ERROR RIO_FLAG_WRITE_ERROR))).
End rio.

Definition rioInitWithBuffer (g : crc_globals) (s : sds) : rio rio_buffer :=
  mkRio (mkBuffer s 0) NoChecksum 0 0 0 0 g.

(** ** The buffer keeps the laws *)

Section buffer_laws.
Context `{A : Allocator} `{!AllocatorLaws A}.

Definition buffer_rep (b : rio_buffer) (past rest : list Z) : Prop :=
  sds_ok (b_ptr b) (past ++ rest) /\ b_pos b = Z.of_nat (length past) /\
  Z.of_nat (length (past ++ rest)) <= SDS_LIMIT.

Lemma sbytes_mid s a b c :
  sds_ok s (a ++ b ++ c) -> sbytes s (Z.of_nat (length a)) (Z.of_nat (length b)) = Some b.
Proof.
  intros (ty & aux & alloc & tl & Hr & _). rewrite (raw_sbytes _ _ _ _ _ _ Hr) by lia.
  rewrite <- !app_assoc. by apply mload_app_mid.
Qed.

#[export] Instance buffer_laws : RioLaws rio_buffer.
Proof.
  refine {| rio_rep := buffer_rep |}; unfold buffer_rep; cbn [be_read be_write rioBufferIO].
  - intros [p pos] past bs rest (Hs & Hpos & Hl) Hne. cbn [b_ptr b_pos] in *. subst pos. unfold rioBufferRead.
    cbn [b_ptr b_pos]. destruct (sbytes_ok _ _ Hs) as (-> & _). mstep.
    rewrite !length_app in Hl |- *. unfold SDS_LIMIT in Hl. revert Hl. zpow. intros Hl.
    rewrite wrapU_id by (unfold inU; zpow; lia). rewrite (proj2 (Z.ltb_ge _ _)) by lia.
    rewrite (sbytes_mid _ _ _ _ Hs). mstep. eexists. split; [done|]. cbn [b_ptr b_pos].
    rewrite <- app_assoc, !length_app. split_and!; [done|lia|]. unfold SDS_LIMIT. zpow. lia.
  - intros [p pos] past rest n (Hs & Hpos & Hl) Hn Hmax. cbn [b_ptr b_pos] in *. subst pos. unfold rioBufferRead.
    cbn [b_ptr b_pos]. destruct (sbytes_ok _ _ Hs) as (-> & _). mstep.
    rewrite length_app in Hl |- *. unfold SDS_LIMIT in Hl. revert Hl. zpow. intros Hl.
    rewrite wrapU_id by (unfold inU; zpow; lia). rewrite (proj2 (Z.ltb_lt _ _)) by lia. eauto.
  - intros [p pos] past bs (Hs & Hpos & Hl) Hb Hlim. cbn [b_ptr b_pos] in *. subst pos. unfold rioBufferWrite.
    cbn [b_ptr b_pos]. rewrite app_nil_r in Hs, Hl. destruct (catlen_ok p past bs Hs Hb Hlim) as (s' & -> & Hs').
    mstep. eexists. split; [done|]. cbn [b_ptr b_pos]. rewrite app_nil_r, length_app.
    split_and!; [done|lia|lia].
  - intros b past rest (Hs & _). apply sbytes_ok in Hs as (_ & _ & Hb). by apply Forall_app in Hb as [_ ?].
  - intros b past rest (_ & _ & Hl). rewrite length_app in Hl. unfold SDS_LIMIT in Hl. revert Hl. zpow. lia.
Defined.
End buffer_laws.

(** ** Any backend *)

Section streams.
Context {S : Type} `{B : RioBackend S} `{L : !RioLaws S} `{E : CrcEnv}.
Context (Htable : table_ok crc_table).

(** The checksum after some bytes *)
Definition sum_after (f : cksum_fn) (c : Z) (bs : list Z) : Z :=
  match f with NoChecksum => c | GenericUpdateChecksum => crc_ref c bs end.

(** A stream without error: what went through, what is left to read and the
    checksum *)
Record rio_ok (r : rio S) (past rest : list Z) (c : Z) : Prop := {
  ok_rep : rio_rep (r_io r) past rest;
  ok_flags : flags r = 0;
  ok_chunk : 0 <= max_processing_chunk r;
  ok_cksum : cksum r = c;
  ok_range : inU 64 c;
  ok_cache : cache_ok (combine_cache (r_crc r));
  ok_processed : inU 64 (processed_bytes r)
}.

(** What the operations on a stream do not change *)
Definition same_setup (r r' : rio S) : Prop :=
  update_cksum r' = update_cksum r /\ max_processing_chunk r' = max_processing_chunk r.

Lemma sum_after_app f c a b : sum_after f c (a ++ b) = sum_after f (sum_after f c a) b.
Proof. destruct f; [done|]. apply crc_ref_app. Qed.

Lemma update_ok (r : rio S) bs :
  inU 64 (cksum r) -> cache_ok (combine_cache (r_crc r)) -> Forall is_byte bs -> Z.of_nat (length bs) < 2 ^ 63 ->
  exists g, do_update_cksum r bs =
      Some (mkRio (r_io r) (update_cksum r) (sum_after (update_cksum r) (cksum r) bs) (flags r)
              (processed_bytes r) (max_processing_chunk r) g) /\
    inU 64 (sum_after (update_cksum r) (cksum r) bs) /\ cache_ok (combine_cache g).
Proof.
  intros Hc Hg Hb Hl. unfold do_update_cksum, sum_after. destruct r as [io f c fl pb ch g]. cbn in *.
  destruct f; [eauto|]. unfold rioGenericUpdateChecksum, crc64. cbn.
  destruct (crcspeed64little_ok crc_table Htable g c (buf_addr bs) bs Hg Hc Hb Hl) as (g' & -> & Hg').
  mstep. exists g'. split_and!; [done|by apply crc_ref_range|done].
Qed.

Lemma chunk_len_range (r : rio S) len : 0 <= max_processing_chunk r -> 0 < len -> 1 <= chunk_len r len <= len.
Proof.
  intros Hc Hl. unfold chunk_len. destruct (max_processing_chunk r =? 0) eqn:E0; zbool; cbn [negb andb]; [lia|].
  destruct (_ <? _) eqn:E1; zbool; lia.
Qed.

(** The loops have enough turns. *)
Definition fuel_for (r : rio S) (len : Z) (fuel : nat) : Prop :=
  (max_processing_chunk r = 0 -> 0 < len -> (1 <= fuel)%nat) /\
  (max_processing_chunk r <> 0 -> len <= Z.of_nat fuel).

Lemma rio_fuel_ok (r : rio S) len : 0 <= len -> fuel_for r len (rio_fuel r len).
Proof. intros Hl. unfold fuel_for, rio_fuel. destruct (Z.eqb_spec (max_processing_chunk r) 0); lia. Qed.

Lemma fuel_for_step (r r' : rio S) len fuel :
  0 <= max_processing_chunk r -> 0 < len -> max_processing_chunk r' = max_processing_chunk r ->
  fuel_for r len (Datatypes.S fuel) -> fuel_for r' (len - chunk_len r len) fuel.
Proof.
  intros Hc Hl Hr' [H1 H2]. pose proof (chunk_len_range r len Hc Hl). unfold fuel_for. rewrite Hr'.
  split; [|lia]. intros Hz. unfold chunk_len. rewrite Hz. simpl. lia.
Qed.

Lemma sum_after_nil f c : sum_after f c [] = c.
Proof. by destruct f. Qed.

Lemma u64_add_assoc a b c : u64 (u64 (a + b) + c) = u64 (a + (b + c)).
Proof. unfold wrapU. by rewrite Zplus_mod_idemp_l, Z.add_assoc. Qed.

(** Writing, whatever the chunks *)
Lemma write_loop fuel r past bs c :
  rio_ok r past [] c -> Forall is_byte bs -> Z.of_nat (length past) + Z.of_nat (length bs) <= SDS_LIMIT ->
  fuel_for r (Z.of_nat (length bs)) fuel ->
  exists r', rioWrite_loop fuel r bs = Some (1, r') /\ same_setup r r' /\
    rio_ok r' (past ++ bs) [] (sum_after (update_cksum r) c bs) /\
    processed_bytes r' = u64 (processed_bytes r + Z.of_nat (length bs)).
Proof.
  revert r past bs c. induction fuel as [|fuel IH]; intros r past bs c Hr Hb Hlim Hf; cbn [rioWrite_loop];
    destruct (Z.eqb_spec (Z.of_nat (length bs)) 0) as [E0|E0].
  1,3: destruct bs; [|simpl in E0; lia]; exists r; rewrite app_nil_r, sum_after_nil, Z.add_0_r;
    (split_and!; try done); symmetry; apply wrapU_id, Hr.
  { destruct Hf as [H1 H2]. destruct (Z.eq_dec (max_processing_chunk r) 0) as [Ez|Ez];
      [specialize (H1 Ez)|specialize (H2 Ez)]; lia. }
  destruct Hr as [Hrep Hfl Hch Hck Hrg Hca Hpb].
  pose proof (chunk_len_range r (Z.of_nat (length bs)) Hch ltac:(lia)) as Hn.
  apply (fuel_for_step r r (Z.of_nat (length bs)) fuel Hch ltac:(lia) eq_refl) in Hf. set (n := chunk_len r _) in *.
  set (chunk := take (Z.to_nat n) bs). set (bs' := drop (Z.to_nat n) bs).
  assert (Hsplit : bs = chunk ++ bs') by (symmetry; apply take_drop).
  assert (Hlc : Z.of_nat (length chunk) = n) by (unfold chunk; rewrite length_take; lia).
  assert (Hlb : Z.of_nat (length bs') = Z.of_nat (length bs) - n) by (unfold bs'; rewrite length_drop; lia).
  pose proof Hb as Hb'. rewrite Hsplit in Hb'. apply Forall_app in Hb' as [Hb1 Hb2].
  unfold SDS_LIMIT in Hlim. revert Hlim. zpow. intros Hlim. rewrite <- Hck in Hrg.
  destruct (update_ok r chunk Hrg Hca Hb1 ltac:(zpow; lia)) as (g & -> & Hrg' & Hca'). cbn [mbind option_bind r_io].
  destruct (write_ok _ past chunk Hrep Hb1) as (s' & -> & Hrep'); [unfold SDS_LIMIT; zpow; lia|].
  cbn [mbind option_bind negb]. set (r1 := add_processed _ n).
  assert (Hr1 : rio_ok r1 (past ++ chunk) [] (sum_after (update_cksum r) c chunk)).
  { split; cbn; rewrite <- ?Hck; try done. apply wrapU_range. lia. }
  destruct (IH r1 (past ++ chunk) bs' _ Hr1 Hb2) as (r' & Hrun & Hsame & Hok & Hproc).
  { rewrite length_app. unfold SDS_LIMIT. zpow. lia. }
  { rewrite Hlb. exact Hf. }
  exists r'. split; [exact Hrun|]. split; [exact Hsame|]. split.
  - rewrite Hsplit at 1 2. rewrite app_assoc, sum_after_app. exact Hok.
  - rewrite Hproc. cbn. rewrite u64_add_assoc. f_equal. lia.
Qed.

Lemma write_stream r past bs c :
  rio_ok r past [] c -> Forall is_byte bs -> Z.of_nat (length past) + Z.of_nat (length bs) <= SDS_LIMIT ->
  exists r', rioWrite r bs = Some (1, r') /\ same_setup r r' /\
    rio_ok r' (past ++ bs) [] (sum_after (update_cksum r) c bs) /\
    processed_bytes r' = u64 (processed_bytes r + Z.of_nat (length bs)).
Proof.
  intros Hr Hb Hl. unfold rioWrite. rewrite (ok_flags _ _ _ _ Hr). cbn [Z.land Z.eqb negb].
  apply write_loop; try done. apply rio_fuel_ok. lia.
Qed.

(** Reading, whatever the chunks *)
Lemma read_loop fuel r past bs rest c acc :
  rio_ok r past (bs ++ rest) c -> fuel_for r (Z.of_nat (length bs)) fuel ->
  exists r', rioRead_loop fuel r (Z.of_nat (length bs)) acc = Some (Some (acc ++ bs), r') /\ same_setup r r' /\
    rio_ok r' (past ++ bs) rest (sum_after (update_cksum r) c bs) /\
    processed_bytes r' = u64 (processed_bytes r + Z.of_nat (length bs)).
Proof.
  revert r past bs c acc. induction fuel as [|fuel IH]; intros r past bs c acc Hr Hf; cbn [rioRead_loop];
    destruct (Z.eqb_spec (Z.of_nat (length bs)) 0) as [E0|E0].
  1,3: destruct bs; [|simpl in E0; lia]; exists r; rewrite !app_nil_r, sum_after_nil, Z.add_0_r;
    (split_and!; try done); symmetry; apply wrapU_id, Hr.
  { destruct Hf as [H1 H2]. destruct (Z.eq_dec (max_processing_chunk r) 0) as [Ez|Ez];
      [specialize (H1 Ez)|specialize (H2 Ez)]; lia. }
  destruct Hr as [Hrep Hfl Hch Hck Hrg Hca Hpb].
  pose proof (chunk_len_range r (Z.of_nat (length bs)) Hch ltac:(lia)) as Hn.
  apply (fuel_for_step r r (Z.of_nat (length bs)) fuel Hch ltac:(lia) eq_refl) in Hf. set (n := chunk_len r _) in *.
  set (chunk := take (Z.to_nat n) bs). set (bs' := drop (Z.to_nat n) bs).
  assert (Hsplit : bs = chunk ++ bs') by (symmetry; apply take_drop).
  assert (Hlc : Z.of_nat (length chunk) = n) by (unfold chunk; rewrite length_take; lia).
  assert (Hlb : Z.of_nat (length bs') = Z.of_nat (length bs) - n) by (unfold bs'; rewrite length_drop; lia).
  pose proof (rep_bytes _ _ _ Hrep) as Hb. pose proof (rep_length _ _ _ Hrep) as Hlen.
  rewrite Hsplit, <- app_assoc in Hrep, Hb. apply Forall_app in Hb as [Hb1 _]. rewrite length_app in Hlen.
  destruct (read_ok _ past chunk (bs' ++ rest) Hrep) as (s' & Hread & Hrep').
  { intros Hz. rewrite Hz in Hlc. simpl in Hlc. lia. }
  rewrite <- Hlc, Hread. mstep. rewrite <- Hck in Hrg.
  destruct (update_ok (set_io r s') chunk Hrg Hca Hb1 ltac:(lia)) as (g & -> & Hrg' & Hca').
  mstep. set (r1 := add_processed _ _).
  assert (Hr1 : rio_ok r1 (past ++ chunk) (bs' ++ rest) (sum_after (update_cksum r) c chunk)).
  { split; cbn; rewrite <- ?Hck; try done. apply wrapU_range. lia. }
  destruct (IH r1 (past ++ chunk) bs' _ (acc ++ chunk) Hr1) as (r' & Hrun & Hsame & Hok & Hproc).
  { rewrite Hlb. exact Hf. }
  exists r'. rewrite Hlb in Hrun. rewrite Hlc, Hrun, <- app_assoc, <- Hsplit.
  split; [done|]. split; [exact Hsame|]. split.
  - rewrite Hsplit at 1 2. rewrite app_assoc, sum_after_app. exact Hok.
  - rewrite Hproc. cbn. rewrite u64_add_assoc. f_equal. lia.
Qed.

Lemma read_stream r past bs rest c :
  rio_ok r past (bs ++ rest) c ->
  exists r', rioRead r (Z.of_nat (length bs)) = Some (Some bs, r') /\ same_setup r r' /\
    rio_ok r' (past ++ bs) rest (sum_after (update_cksum r) c bs) /\
    processed_bytes r' = u64 (processed_bytes r + Z.of_nat (length bs)).
Proof.
  intros Hr. unfold rioRead. rewrite (ok_flags _ _ _ _ Hr). cbn [Z.land Z.eqb negb].
  destruct (read_loop (rio_fuel r (Z.of_nat (length bs))) r past bs rest c [] Hr) as (r' & H); [|eauto].
  apply rio_fuel_ok. lia.
Qed.

(** A read of more than there is fails and leaves its mark. *)
Lemma short_loop fuel r past rest c n acc :
  rio_ok r past rest c -> Z.of_nat (length rest) < n < 2 ^ 64 -> fuel_for r n fuel ->
  exists r', rioRead_loop fuel r n acc = Some (None, r') /\ rioGetReadError r' = true.
Proof.
  revert r past rest c n acc. induction fuel as [|fuel IH]; intros r past rest c n acc Hr Hn Hf; cbn [rioRead_loop];
    rewrite (proj2 (Z.eqb_neq n 0)) by lia.
  { destruct Hf as [H1 H2]. destruct (Z.eq_dec (max_processing_chunk r) 0) as [Ez|Ez];
      [specialize (H1 Ez)|specialize (H2 Ez)]; lia. }
  destruct Hr as [Hrep Hfl Hch Hck Hrg Hca Hpb]. pose proof (chunk_len_range r n Hch ltac:(lia)) as Hk.
  apply (fuel_for_step r r n fuel Hch ltac:(lia) eq_refl) in Hf. set (k := chunk_len r n) in *.
  destruct (Z.le_gt_cases k (Z.of_nat (length rest))) as [Hle|Hgt].
  - set (chunk := take (Z.to_nat k) rest). set (rest' := drop (Z.to_nat k) rest).
    assert (Hsplit : rest = chunk ++ rest') by (symmetry; apply take_drop).
    assert (Hlc : Z.of_nat (length chunk) = k) by (unfold chunk; rewrite length_take; lia).
    assert (Hlb : Z.of_nat (length rest') = Z.of_nat (length rest) - k) by (unfold rest'; rewrite length_drop; lia).
    pose proof (rep_bytes _ _ _ Hrep) as Hb. pose proof (rep_length _ _ _ Hrep) as Hlen.
    rewrite Hsplit in Hrep, Hb. apply Forall_app in Hb as [Hb1 _].
    destruct (read_ok _ past chunk rest' Hrep) as (s' & Hread & Hrep').
    { intros Hz. rewrite Hz in Hlc. simpl in Hlc. lia. }
    rewrite <- Hlc, Hread. mstep. rewrite <- Hck in Hrg.
    destruct (update_ok (set_io r s') chunk Hrg Hca Hb1 ltac:(lia)) as (g & -> & Hrg' & Hca').
    mstep. set (r1 := add_processed _ _). rewrite Hlc.
    apply (IH r1 (past ++ chunk) rest' (sum_after (update_cksum r) c chunk)).
    + split; cbn; rewrite <- ?Hck; try done. apply wrapU_range. lia.
    + lia.
    + exact Hf.
  - destruct (read_short _ past rest k Hrep Hgt ltac:(lia)) as (s' & ->). mstep.
    eexists. split; [done|]. unfold rioGetReadError. cbn. by rewrite Hfl.
Qed.

Lemma short_stream r past rest c n :
  rio_ok r past rest c -> Z.of_nat (length rest) < n < 2 ^ 64 ->
  exists r', rioRead r n = Some (None, r') /\ rioGetReadError r' = true.
Proof.
  intros Hr Hn. unfold rioRead. rewrite (ok_flags _ _ _ _ Hr). cbn [Z.land Z.eqb negb].
  eapply short_loop; [done|done|]. apply rio_fuel_ok. lia.
Qed.

Lemma read_sticky (r : rio S) n : rioGetReadError r = true -> rioRead r n = Some (None, r).
Proof. unfold rioGetReadError, rioRead. by intros ->. Qed.
End streams.

(** ** Contract of the buffer *)

Section contract.
Context `{A : Allocator} `{!AllocatorLaws A} `{E : CrcEnv}.

Lemma init_table t0 : crc64_init t0 = Some crc_table -> table_ok crc_table.
Proof. intros Hi. destruct (crc64_init_eq t0) as (t & Ht & Hok). rewrite Hi in Ht. by injection Ht as ->. Qed.

Lemma init_ok g s bs chunk f :
  cache_ok (combine_cache g) -> sds_ok s bs -> Z.of_nat (length bs) <= SDS_LIMIT -> 0 <= chunk ->
  rio_ok (set_update_cksum (set_chunk (rioInitWithBuffer g s) chunk) f) [] bs 0.
Proof. intros Hg Hs Hl Hc. by split. Qed.

(** C33: what is written to a stream is read back, with the same checksum. The
    bytes that [rioWrite] puts in a buffer in pieces of any size are read from
    it by [rioRead] in pieces of any other size; the checksums that the two
    sides keep piece by piece are both the CRC-64 of all the bytes; and a
    read past the end fails, marks the stream and makes every later read
    fail. *)
Theorem rio_buffer_roundtrip t0 g s0 bs wchunk rchunk :
  crc64_init t0 = Some crc_table -> cache_ok (combine_cache g) -> sds_ok s0 [] ->
  Forall is_byte bs -> Z.of_nat (length bs) <= SDS_LIMIT -> 0 <= wchunk -> 0 <= rchunk ->
  exists r1 r2,
    rioWrite (set_update_cksum (set_chunk (rioInitWithBuffer g s0) wchunk) GenericUpdateChecksum) bs
      = Some (1, r1) /\
    rioRead (set_update_cksum (set_chunk (rioInitWithBuffer (r_crc r1) (b_ptr (r_io r1))) rchunk)
               GenericUpdateChecksum) (Z.of_nat (length bs)) = Some (Some bs, r2) /\
    cksum r1 = crc_ref 0 bs /\ cksum r2 = crc_ref 0 bs /\ rioTell r1 = Z.of_nat (length bs) /\
    processed_bytes r1 = Z.of_nat (length bs) /\
    forall n, 0 < n < 2 ^ 64 ->
      exists r3, rioRead r2 n = Some (None, r3) /\ rioGetReadError r3 = true /\
        forall k, rioRead r3 k = Some (None, r3).
Proof.
  intros Hinit Hg Hs Hb Hl Hw Hr. pose proof (init_table _ Hinit) as Ht.
  destruct (write_stream Ht _ [] bs 0 (init_ok g s0 [] wchunk GenericUpdateChecksum Hg Hs ltac:(done) Hw) Hb Hl)
    as (r1 & Hw1 & Hsame1 & Hok1 & Hp1).
  pose proof (ok_rep _ _ _ _ Hok1) as (Hs1 & Hpos1 & _). rewrite app_nil_r in Hs1. cbn [app] in Hs1, Hpos1.
  pose proof (init_ok (r_crc r1) (b_ptr (r_io r1)) bs rchunk GenericUpdateChecksum
    (ok_cache _ _ _ _ Hok1) Hs1 Hl Hr) as Hi2.
  rewrite <- (app_nil_r bs) in Hi2.
  destruct (read_stream Ht _ [] bs [] 0 Hi2) as (r2 & Hr2 & Hsame2 & Hok2 & Hp2).
  exists r1, r2. split_and!; [done|done|by apply Hok1|by apply Hok2|exact Hpos1| |].
  - rewrite Hp1. cbn. rewrite wrapU_id; [done|]. unfold inU. unfold SDS_LIMIT in Hl. revert Hl. zpow. lia.
  - intros n Hn. destruct (short_stream Ht r2 _ [] _ n Hok2) as (r3 & Hr3 & Herr); [simpl; lia|].
    exists r3. split_and!; [done|done|]. intros k. by apply read_sticky.
Qed.
End contract.

(** ** The theorem on a concrete stream *)

#[local] Instance ex_crc_env : CrcEnv :=
  {| crc_table := default (fun _ _ => 0) (crc64_init (fun _ _ => 0)); buf_addr _ := 3 |}.

Lemma ex_crc_init : crc64_init (fun _ _ => 0) = Some crc_table.
Proof. destruct (crc64_init_eq (fun _ _ => 0)) as (t & Ht & _). cbn. rewrite Ht. done. Qed.

Definition ex_globals : crc_globals := mkGlobals 8 16 (replicate 64 (replicate 64 0)).
Definition ex_sds : sds := default (mkSds [] 0) (sdsempty (H:=block_allocator)).

Lemma ex_sds_ok : sds_ok ex_sds [].
Proof.
  destruct (@sdsnewlen_ok block_allocator block_allocator_laws (INIT []) []) as (s & Hs & Hok);
    [done|done|by left|]. unfold ex_sds, sdsempty. change (Z.of_nat (length (@nil Z))) with 0 in Hs. by rewrite Hs.
Qed.

Lemma rio_buffer_roundtrip_witness :
  exists r1 r2,
    rioWrite (H:=rioBufferIO (H:=block_allocator))
      (set_update_cksum (set_chunk (rioInitWithBuffer ex_globals ex_sds) 2) GenericUpdateChecksum) [1; 2; 3]
      = Some (1, r1) /\
    rioRead (H:=rioBufferIO (H:=block_allocator))
      (set_update_cksum (set_chunk (rioInitWithBuffer (r_crc r1) (b_ptr (r_io r1))) 0) GenericUpdateChecksum) 3
      = Some (Some [1; 2; 3], r2) /\ cksum r2 = crc_ref 0 [1; 2; 3].
Proof.
  destruct (@rio_buffer_roundtrip block_allocator block_allocator_laws ex_crc_env (fun _ _ => 0) ex_globals ex_sds
    [1; 2; 3] 2 0 ex_crc_init) as (r1 & r2 & H1 & H2 & _ & H3 & _);
    [by left|exact ex_sds_ok|repeat constructor; unfold is_byte; lia|by vm_compute|lia|lia|].
  exists r1, r2. split_and!; [exact H1|exact H2|exact H3].
Defined.
