(* ===== verification/Rdb.v ===== *)
(** * The RDB format: lengths, integers and strings ([rdb.c])

    How the snapshot file and the payloads of DUMP and RESTORE store lengths
    and strings: a length in one, two, five or nine bytes; a string as an
    integer, compressed, or verbatim. The functions write to and read from a
    stream of [Rio]; loading is written in a small monad, whose state is the
    stream and whose computations return, or exit when a corrupt file makes
    the server stop. The theorems put the parts of the development together:
    integers as text, compression, dynamic strings, string objects and
    streams. *)

From S2P Require Import Prelude Endianconv Numstr Lzf Crc64 Sds Object Rio.

#[local] Open Scope Z_scope.
#[local] Open Scope redis_scope.

Definition RDB_6BITLEN : Z := 0.
Definition RDB_14BITLEN : Z := 1.
Definition RDB_32BITLEN : Z := 0x80.
Definition RDB_64BITLEN : Z := 0x81.
Definition RDB_ENCVAL : Z := 3.
Definition RDB_LENERR : Z := 2 ^ 64 - 1.
Definition RDB_ENC_INT8 : Z := 0.
Definition RDB_ENC_INT16 : Z := 1.
Definition RDB_ENC_INT32 : Z := 2.
Definition RDB_ENC_LZF : Z := 3.
Definition RDB_LOAD_NONE : Z := 0.
Definition RDB_LOAD_ENC : Z := Z.shiftl 1 0.
Definition RDB_LOAD_PLAIN : Z := Z.shiftl 1 1.
Definition RDB_LOAD_SDS : Z := Z.shiftl 1 2.

(** ** Errors *)

(** Where a file is loaded from *)
Record rdb_env := mkRdbEnv {
  isRestoreContext : bool;
  rdbCheckMode : bool;
  rdbFileBeingLoaded : option bool     (* and whether the file is a FIFO *)
}.

(** A function returns, or the process exits. *)
Inductive outcome (A : Type) := Returns (a : A) | Exits.
Arguments Returns {A}.
Arguments Exits {A}.

(** Whether the function returns; else the process exits, from here or from
    the check of the file. *)
Definition rdbReportError (env : rdb_env) (corruption_error : bool) : outcome unit :=
  if isRestoreContext env then Returns tt
  else if rdbCheckMode env then Exits
  else match rdbFileBeingLoaded env with
       | Some is_fifo => if is_fifo then Returns tt else Exits
       | None => if corruption_error then Exits else Returns tt
       end.

(** ** Saving

    The stream can be [NULL], and then nothing is written but the size is
    computed. The results are the returned value, -1 for an error, and the
    stream. *)

Section save.
Context {S : Type} `{RioBackend S} `{CrcEnv} `{Allocator}.

Definition rdbWriteRaw (rdb : option (rio S)) (p : list Z) : option (Z * option (rio S)) :=
  match rdb with
  | None => Some (Z.of_nat (length p), None)
  | Some r =>
      '(ok, r) ← rioWrite r p;
      if ok =? 0 then Some (-1, Some r) else Some (Z.of_nat (length p), Some r)
  end.

Definition rdbSaveType (rdb : option (rio S)) (type : Z) : option (Z * option (rio S)) :=
  rdbWriteRaw rdb [type].

Definition rdbSaveMillisecondTime (rdb : option (rio S)) (t : Z) : option (Z * option (rio S)) :=
  rdbWriteRaw rdb (le_encode 8 t).

(** [double] values are their 64 bits. *)
Definition rdbSaveBinaryDoubleValue (rdb : option (rio S)) (val : Z) : option (Z * option (rio S)) :=
  rdbWriteRaw rdb (le_encode 8 val).

Definition rdbSaveLen (rdb : option (rio S)) (len : Z) : option (Z * option (rio S)) :=
  if len <? Z.shiftl 1 6 then
    let buf := [u8 (Z.lor (Z.land len 0xFF) (Z.shiftl RDB_6BITLEN 6))] in
    '(n, rdb) ← rdbWriteRaw rdb buf;
    if n =? -1 then Some (-1, rdb) else Some (1, rdb)
  else if len <? Z.shiftl 1 14 then
    let buf := [u8 (Z.lor (Z.land (Z.shiftr len 8) 0xFF) (Z.shiftl RDB_14BITLEN 6)); Z.land len 0xFF] in
    '(n, rdb) ← rdbWriteRaw rdb buf;
    if n =? -1 then Some (-1, rdb) else Some (2, rdb)
  else if len <=? UINT32_MAX then
    '(n, rdb) ← rdbWriteRaw rdb [RDB_32BITLEN];
    if n =? -1 then Some (-1, rdb) else
    len32 ← intrev32 len;
    '(n, rdb) ← rdbWriteRaw rdb (le_encode 4 len32);
    if n =? -1 then Some (-1, rdb) else Some (1 + 4, rdb)
  else
    '(n, rdb) ← rdbWriteRaw rdb [RDB_64BITLEN];
    if n =? -1 then Some (-1, rdb) else
    len ← intrev64 len;
    '(n, rdb) ← rdbWriteRaw rdb (le_encode 8 len);
    if n =? -1 then Some (-1, rdb) else Some (1 + 8, rdb).

(** The bytes stored in [enc]; none when the integer is too large *)
Definition rdbEncodeInteger (value : Z) : list Z :=
  let byte k := Z.land (Z.shiftr value k) 0xFF in
  if (value >=? - Z.shiftl 1 7) && (value <=? Z.shiftl 1 7 - 1) then
    [Z.lor (Z.shiftl RDB_ENCVAL 6) RDB_ENC_INT8; byte 0]
  else if (value >=? - Z.shiftl 1 15) && (value <=? Z.shiftl 1 15 - 1) then
    [Z.lor (Z.shiftl RDB_ENCVAL 6) RDB_ENC_INT16; byte 0; byte 8]
  else if (value >=? - Z.shiftl 1 31) && (value <=? Z.shiftl 1 31 - 1) then
    [Z.lor (Z.shiftl RDB_ENCVAL 6) RDB_ENC_INT32; byte 0; byte 8; byte 16; byte 24]
  else [].

Definition rdbTryIntegerEncoding (s : list Z) : list Z :=
  match string2ll s with
  | Some value => rdbEncodeInteger value
  | None => []
  end.

Definition rdbSaveLzfBlob (rdb : option (rio S)) (data : list Z) (original_len : Z)
    : option (Z * option (rio S)) :=
  let compress_len := Z.of_nat (length data) in
  let byte := Z.lor (Z.shiftl RDB_ENCVAL 6) RDB_ENC_LZF in
  '(n, rdb) ← rdbWriteRaw rdb [byte];
  if n =? -1 then Some (-1, rdb) else
  let nwritten := n in
  '(n, rdb) ← rdbSaveLen rdb compress_len;
  if n =? -1 then Some (-1, rdb) else
  let nwritten := nwritten + n in
  '(n, rdb) ← rdbSaveLen rdb original_len;
  if n =? -1 then Some (-1, rdb) else
  let nwritten := nwritten + n in
  '(n, rdb) ← rdbWriteRaw rdb data;
  if n =? -1 then Some (-1, rdb) else
  let nwritten := nwritten + n in
  Some (nwritten, rdb).

(** [htab] are the contents of the hash table of the compressor. *)
Definition rdbSaveLzfStringObject (htab : Z -> Z) (rdb : option (rio S)) (s : list Z)
    : option (Z * option (rio S)) :=
  let len := Z.of_nat (length s) in
  if len <=? 4 then Some (0, rdb) else
  let outlen := len - 4 in
  let out := take (Z.to_nat outlen) (malloc_usable (outlen + 1)) in
  r ← lzf_compress htab s out;
  match r with
  | None => Some (0, rdb)
  | Some (comprlen, out) =>
      if comprlen =? 0 then Some (0, rdb) else
      data ← mload out 0 comprlen;
      rdbSaveLzfBlob rdb data len
  end.

Definition rdbSaveRawString (rdb_compression : bool) (htab : Z -> Z) (rdb : option (rio S)) (s : list Z)
    : option (Z * option (rio S)) :=
  let len := Z.of_nat (length s) in
  let verbatim rdb :=
    '(n, rdb) ← rdbSaveLen rdb len;
    if n =? -1 then Some (-1, rdb) else
    let nwritten := n in
    if len >? 0 then
      '(n, rdb) ← rdbWriteRaw rdb s;
      if n =? -1 then Some (-1, rdb) else Some (nwritten + len, rdb)
    else Some (nwritten, rdb) in
  let buf := if len <=? 11 then rdbTryIntegerEncoding s else [] in
  let enclen := Z.of_nat (length buf) in
  if enclen >? 0 then
    '(n, rdb) ← rdbWriteRaw rdb buf;
    if n =? -1 then Some (-1, rdb) else Some (enclen, rdb)
  else if rdb_compression && (len >? 20) then
    '(n, rdb) ← rdbSaveLzfStringObject htab rdb s;
    if n =? -1 then Some (-1, rdb) else
    if n >? 0 then Some (n, rdb) else verbatim rdb
  else verbatim rdb.

Definition rdbSaveLongLongAsStringObject (rdb : option (rio S)) (value : Z) : option (Z * option (rio S)) :=
  let buf := rdbEncodeInteger value in
  let enclen := Z.of_nat (length buf) in
  if enclen >? 0 then rdbWriteRaw rdb buf
  else
    '(enclen, buf) ← ll2string (stack_buf 32) value;
    _ ← cassert (enclen <? 32);
    '(n, rdb) ← rdbSaveLen rdb enclen;
    if n =? -1 then Some (-1, rdb) else
    let nwritten := n in
    data ← mload buf 0 enclen;
    '(n, rdb) ← rdbWriteRaw rdb data;
    if n =? -1 then Some (-1, rdb) else Some (nwritten + n, rdb).

Definition rdbSaveStringObject (rdb_compression : bool) (htab : Z -> Z) (rdb : option (rio S)) (obj : robj)
    : option (Z * option (rio S)) :=
  if o_encoding obj =? OBJ_ENCODING_INT then
    v ← o_long obj; rdbSaveLongLongAsStringObject rdb v
  else
    _ ← cassert (sdsEncodedObject obj);
    s ← o_sds obj; l ← sdslen s; bs ← sbytes s 0 l;
    rdbSaveRawString rdb_compression htab rdb bs.
End save.

(** ** Loading *)

Definition RM (S A : Type) : Type := rio S -> option (outcome A * rio S).

Section monad.
Context {S : Type}.

Definition rret {A} (a : A) : RM S A := fun r => Some (Returns a, r).

Definition rbind {A B} (m : RM S A) (k : A -> RM S B) : RM S B := fun r =>
  match m r with
  | Some (Returns a, r) => k a r
  | Some (Exits, r) => Some (Exits, r)
  | None => None
  end.

(** A step that does not use the stream *)
Definition rlift {A} (o : option A) : RM S A := fun r => a ← o; Some (Returns a, r).

Definition rout {A} (o : outcome A) : RM S A := fun r => Some (o, r).

Definition rread `{RioBackend S} `{CrcEnv} (n : Z) : RM S (option (list Z)) := fun r =>
  '(bs, r) ← rioRead r n; Some (Returns bs, r).
End monad.

Notation "x <~ m ; k" := (rbind m (fun x => k))
  (at level 20, m at level 100, k at level 200) : redis_scope.
Notation "' p <~ m ; k" := (rbind m (fun x => match x with p => k end))
  (at level 20, p pattern, m at level 100, k at level 200) : redis_scope.

(** The pointer that a string is loaded to *)
Inductive rdb_val :=
| VPlain (block : list Z)
| VSds (s : sds)
| VObj (o : robj).

(** The returned pointer, and what is stored in [*lenptr] and in [*usable] *)
Record loaded := mkLoaded {
  l_val : option rdb_val;
  l_len : option Z;
  l_usable : option Z
}.

Definition load_null : loaded := mkLoaded None None None.

Section load.
Context {S : Type} `{RioBackend S} `{CrcEnv} `{Allocator}.
Context (env : rdb_env) (server : server_state).

Definition rdbReportCorruptRDB : RM S unit := rout (rdbReportError env true).

(** The type, or -1 *)
Definition rdbLoadType : RM S Z :=
  b <~ rread 1 ;
  match b with
  | None => rret (-1)
  | Some buf => rlift (rd buf 0)
  end.

Definition rdbLoadTime : RM S Z :=
  b <~ rread 4 ;
  match b with
  | None => rret (-1)
  | Some buf => rret (s32 (le_decode buf))
  end.

(** On a little endian host, whatever the version of the file *)
Definition rdbLoadMillisecondTime : RM S Z :=
  b <~ rread 8 ;
  match b with
  | None => rret LLONG_MAX
  | Some buf => rret (s64 (le_decode buf))
  end.

(** The 64 bits of the [double], or an error *)
Definition rdbLoadBinaryDoubleValue : RM S (option Z) :=
  b <~ rread 8 ;
  match b with
  | None => rret None
  | Some buf => rret (Some (le_decode buf))
  end.

(** [*isencoded] and [*lenptr], or [None] for the error -1 *)
Definition rdbLoadLenByRef : RM S (option (bool * Z)) :=
  b <~ rread 1 ;
  match b with
  | None => rret None
  | Some buf =>
      buf0 <~ rlift (rd buf 0) ;
      let type := Z.shiftr (Z.land buf0 0xC0) 6 in
      if type =? RDB_ENCVAL then rret (Some (true, Z.land buf0 0x3F))
      else if type =? RDB_6BITLEN then rret (Some (false, Z.land buf0 0x3F))
      else if type =? RDB_14BITLEN then
        b <~ rread 1 ;
        match b with
        | None => rret None
        | Some buf =>
            buf1 <~ rlift (rd buf 0) ;
            rret (Some (false, Z.lor (Z.shiftl (Z.land buf0 0x3F) 8) buf1))
        end
      else if buf0 =? RDB_32BITLEN then
        b <~ rread 4 ;
        match b with
        | None => rret None
        | Some buf => len <~ rlift (intrev32 (le_decode buf)) ; rret (Some (false, len))
        end
      else if buf0 =? RDB_64BITLEN then
        b <~ rread 8 ;
        match b with
        | None => rret None
        | Some buf => len <~ rlift (intrev64 (le_decode buf)) ; rret (Some (false, len))
        end
      else _ <~ rdbReportCorruptRDB ; rret None
  end.

(** [*isencoded] and the length, [RDB_LENERR] for an error *)
Definition rdbLoadLen : RM S (bool * Z) :=
  r <~ rdbLoadLenByRef ;
  match r with
  | None => rret (false, RDB_LENERR)
  | Some (isencoded, len) => rret (isencoded, len)
  end.

Definition MALLOC_MIN_SIZE (x : Z) : Z := if x >? 0 then x else 8.

Definition zmalloc_usable (size : Z) : list Z := malloc_usable (MALLOC_MIN_SIZE size).

Definition ztrymalloc_usable (size : Z) : option (list Z) :=
  if size >=? (2 ^ 64 - 1) / 2 then None
  else if try_ok (MALLOC_MIN_SIZE size) then Some (malloc_usable (MALLOC_MIN_SIZE size)) else None.

Definition plain_flag (flags : Z) : bool := negb (Z.land flags RDB_LOAD_PLAIN =? 0).
Definition sds_flag (flags : Z) : bool := negb (Z.land flags RDB_LOAD_SDS =? 0).
Definition enc_flag (flags : Z) : bool := negb (Z.land flags RDB_LOAD_ENC =? 0).

(** [if (usable) *usable = sdsAllocSize(p);], where [p] must not be [NULL] *)
Definition sds_usable (want_usable : bool) (p : option sds) : option (option Z) :=
  if want_usable then s ← p; n ← sdsAllocSize s; Some (Some n) else Some None.

(** The value of an integer in the form that the flags ask for;
    [want_usable] is whether [usable] is not [NULL]. *)
Definition integer_value (flags : Z) (want_usable : bool) (val : Z) : RM S loaded :=
  if plain_flag flags || sds_flag flags then
    '(len, buf) <~ rlift (ll2string (stack_buf LONG_STR_SIZE) val) ;
    bs <~ rlift (mload buf 0 len) ;
    if plain_flag flags then
      let p := zmalloc_usable len in
      m <~ rlift (mstore p 0 bs) ;
      rret (mkLoaded (Some (VPlain m)) (Some len)
              (if want_usable then Some (Z.of_nat (length p)) else None))
    else
      p <~ rlift (sdsnewlen SDS_NOINIT len) ;
      us <~ rlift (sds_usable want_usable (Some p)) ;
      s <~ rlift (smemcpy p 0 bs) ;
      rret (mkLoaded (Some (VSds s)) (Some len) us)
  else if enc_flag flags then
    o <~ rlift (createStringObjectFromLongLongForValue server val) ;
    rret (mkLoaded (Some (VObj o)) None None)
  else
    o <~ rlift (createStringObjectFromLongLongWithSds val) ;
    rret (mkLoaded (Some (VObj o)) None None).

Definition rdbLoadIntegerObject (enctype flags : Z) (want_usable : bool) : RM S loaded :=
  let finish := integer_value flags want_usable in
  if enctype =? RDB_ENC_INT8 then
    b <~ rread 1 ;
    match b with
    | None => rret load_null
    | Some enc => e0 <~ rlift (rd enc 0) ; finish (wrapS 8 e0)
    end
  else if enctype =? RDB_ENC_INT16 then
    b <~ rread 2 ;
    match b with
    | None => rret load_null
    | Some enc =>
        e0 <~ rlift (rd enc 0) ; e1 <~ rlift (rd enc 1) ;
        finish (wrapS 16 (Z.lor e0 (Z.shiftl e1 8)))
    end
  else if enctype =? RDB_ENC_INT32 then
    b <~ rread 4 ;
    match b with
    | None => rret load_null
    | Some enc =>
        e0 <~ rlift (rd enc 0) ; e1 <~ rlift (rd enc 1) ; e2 <~ rlift (rd enc 2) ; e3 <~ rlift (rd enc 3) ;
        finish (wrapS 32 (Z.lor (Z.lor (Z.lor e0 (Z.shiftl e1 8)) (Z.shiftl e2 16)) (Z.shiftl e3 24)))
    end
  else _ <~ rdbReportCorruptRDB ; rret load_null.

(** What [lzf_decompress] returns *)
Definition lzf_ret (r : lzf_result) : Z := match r with LzfOk n => n | _ => 0 end.

Definition rdbLoadLzfStringObject (flags : Z) (want_usable : bool) : RM S loaded :=
  let robj_flag := negb (plain_flag flags || sds_flag flags) in
  '(_, clen) <~ rdbLoadLen ;
  if clen =? RDB_LENERR then rret load_null else
  '(_, len) <~ rdbLoadLen ;
  if len =? RDB_LENERR then rret load_null else
  match ztrymalloc_usable clen with
  | None => rret load_null
  | Some _ =>
      if plain_flag flags then
        match ztrymalloc_usable len with
        | None => rret load_null
        | Some val =>
            let us := if want_usable then Some (Z.of_nat (length val)) else None in
            c <~ rread clen ;
            match c with
            | None => rret (mkLoaded None (Some len) us)
            | Some c =>
                out <~ rlift (mload val 0 len) ;
                '(res, out) <~ rlift (lzf_decompress c out) ;
                val <~ rlift (mstore val 0 out) ;
                if negb (lzf_ret res =? len) then
                  _ <~ rdbReportCorruptRDB ; rret (mkLoaded None (Some len) us)
                else rret (mkLoaded (Some (VPlain val)) (Some len) us)
            end
        end
      else
        val <~ rlift (sdstrynewlen SDS_NOINIT len) ;
        us <~ rlift (sds_usable want_usable val) ;
        match val with
        | None => rret (mkLoaded None None us)
        | Some val =>
            c <~ rread clen ;
            match c with
            | None => rret (mkLoaded None (Some len) us)
            | Some c =>
                out <~ rlift (sbytes val 0 len) ;
                '(res, out) <~ rlift (lzf_decompress c out) ;
                val <~ rlift (smemcpy val 0 out) ;
                if negb (lzf_ret res =? len) then
                  _ <~ rdbReportCorruptRDB ; rret (mkLoaded None (Some len) us)
                else rret (mkLoaded (Some (if robj_flag then VObj (createObject OBJ_STRING (PSds val))
                                           else VSds val)) (Some len) us)
            end
        end
  end.

Definition rdbGenericLoadStringObjectUsable (flags : Z) (want_usable : bool) : RM S loaded :=
  let robj_flag := negb (plain_flag flags || sds_flag flags) in
  '(isencoded, len) <~ rdbLoadLen ;
  if len =? RDB_LENERR then rret load_null else
  if (isencoded : bool) then
    if (len =? RDB_ENC_INT8) || (len =? RDB_ENC_INT16) || (len =? RDB_ENC_INT32) then
      rdbLoadIntegerObject len flags want_usable
    else if len =? RDB_ENC_LZF then rdbLoadLzfStringObject flags want_usable
    else _ <~ rdbReportCorruptRDB ; rret load_null
  else if robj_flag then
    let us := if want_usable then Some 0 else None in
    o <~ rlift (tryCreateStringObject SDS_NOINIT len) ;
    match o with
    | None => rret (mkLoaded None None us)
    | Some o =>
        if len =? 0 then rret (mkLoaded (Some (VObj o)) None us) else
        b <~ rread len ;
        match b with
        | None => rret (mkLoaded None None us)
        | Some bs =>
            s <~ rlift (o_sds o) ;
            s <~ rlift (smemcpy s 0 bs) ;
            rret (mkLoaded (Some (VObj (set_ptr o (PSds s)))) None us)
        end
    end
  else if plain_flag flags then
    match ztrymalloc_usable len with
    | None => rret load_null
    | Some buf =>
        let us := if want_usable then Some (Z.of_nat (length buf)) else None in
        if len =? 0 then rret (mkLoaded (Some (VPlain buf)) (Some len) us) else
        b <~ rread len ;
        match b with
        | None => rret (mkLoaded None (Some len) us)
        | Some bs => m <~ rlift (mstore buf 0 bs) ; rret (mkLoaded (Some (VPlain m)) (Some len) us)
        end
    end
  else
    p <~ rlift (sdstrynewlen SDS_NOINIT len) ;
    us <~ rlift (sds_usable want_usable p) ;
    match p with
    | None => rret (mkLoaded None None us)
    | Some buf =>
        if len =? 0 then rret (mkLoaded (Some (VSds buf)) (Some len) us) else
        b <~ rread len ;
        match b with
        | None => rret (mkLoaded None (Some len) us)
        | Some bs => s <~ rlift (smemcpy buf 0 bs) ; rret (mkLoaded (Some (VSds s)) (Some len) us)
        end
    end.

Definition rdbGenericLoadStringObject (flags : Z) : RM S loaded := rdbGenericLoadStringObjectUsable flags false.
Definition rdbLoadStringObject : RM S loaded := rdbGenericLoadStringObject RDB_LOAD_NONE.
Definition rdbLoadEncodedStringObject : RM S loaded := rdbGenericLoadStringObject RDB_LOAD_ENC.
End load.
