(* ===== verification/RdbSpec.v ===== *)
(** * The RDB format: what is saved is loaded

    A small logic of saving and loading: [saves] and [loads] say which bytes a
    function puts in the stream, takes from it, and [cut] what it does when
    the stream ends too early. The rules follow the structure of the
    functions, and the theorems are proved with them for every stream that
    keeps the laws of [Rio]. *)

From S2P Require Import Prelude Endianconv Gf2 Numstr Lzf Crc64 Sds Object Rio Rdb.

#[local] Open Scope Z_scope.
#[local] Open Scope redis_scope.

Section logic.
Context {S : Type} `{B : RioBackend S} `{L : !RioLaws S} `{E : CrcEnv}.
Context (Htable : table_ok crc_table).

(** ** Saving *)

(** The function appends the bytes [bs] to the stream and returns [n]; without
    a stream it returns the same. *)
Definition saves (f : option (rio S) -> option (Z * option (rio S))) (bs : list Z) (n : Z) : Prop :=
  f None = Some (n, None) /\
  forall r past c, rio_ok r past [] c -> Z.of_nat (length past) + Z.of_nat (length bs) <= SDS_LIMIT ->
    exists r', f (Some r) = Some (n, Some r') /\ same_setup r r' /\
      rio_ok r' (past ++ bs) [] (sum_after (update_cksum r) c bs).

Lemma same_setup_trans r1 r2 r3 : same_setup (S:=S) r1 r2 -> same_setup r2 r3 -> same_setup r1 r3.
Proof. intros [H1 H2] [H3 H4]. split; congruence. Qed.

Lemma saves_ret n : saves (fun rdb => Some (n, rdb)) [] n.
Proof.
  split; [done|]. intros r past c Hr _. exists r. rewrite app_nil_r, sum_after_nil. done.
Qed.

Lemma saves_raw bs : Forall is_byte bs -> saves (fun rdb => rdbWriteRaw rdb bs) bs (Z.of_nat (length bs)).
Proof.
  intros Hb. split; [done|]. intros r past c Hr Hl. unfold rdbWriteRaw.
  destruct (write_stream Htable r past bs c Hr Hb Hl) as (r' & -> & Hsame & Hok & _). mstep.
  exists r'. done.
Qed.

Lemma saves_bind f g a b n m :
  saves f a n -> n <> -1 -> saves (g n) b m ->
  saves (fun rdb => '(n, rdb) ← f rdb; if n =? -1 then Some (-1, rdb) else g n rdb) (a ++ b) m.
Proof.
  intros [Hf0 Hf] Hn [Hg0 Hg]. apply Z.eqb_neq in Hn. split.
  - rewrite Hf0. mstep. by rewrite Hn.
  - intros r past c Hr Hl. rewrite length_app in Hl.
    destruct (Hf r past c Hr) as (r1 & -> & Hs1 & Hr1); [lia|]. mstep. rewrite Hn.
    destruct (Hg r1 (past ++ a) _ Hr1) as (r2 & -> & Hs2 & Hr2); [rewrite length_app; lia|].
    exists r2. split; [done|]. split; [by eapply same_setup_trans|].
    rewrite app_assoc, sum_after_app. destruct Hs1 as [Hs1 _]. by rewrite Hs1 in Hr2.
Qed.

Lemma saves_last f a n m :
  saves f a n -> n <> -1 ->
  saves (fun rdb => '(n, rdb) ← f rdb; if n =? -1 then Some (-1, rdb) else Some (m n, rdb)) a (m n).
Proof.
  intros Hf Hn. pose proof (saves_bind f (fun n rdb => Some (m n, rdb)) a [] n (m n) Hf Hn (saves_ret _)) as H.
  by rewrite app_nil_r in H.
Qed.

(** A step that does not use the stream *)
Lemma saves_lift {A} (o : option A) a g bs n :
  o = Some a -> saves (g a) bs n -> saves (fun rdb => x ← o; g x rdb) bs n.
Proof. by intros ->. Qed.

Lemma saves_ext f g bs n : (forall rdb, f rdb = g rdb) -> saves g bs n -> saves f bs n.
Proof. intros He [H0 H1]. split; [by rewrite He|]. intros r past c Hr Hl. rewrite He. by apply H1. Qed.

(** ** Loading *)

(** The function takes the bytes [bs] from the stream and returns a value in
    [P]. *)
Definition loads {A} (m : RM S A) (bs : list Z) (P : A -> Prop) : Prop :=
  forall r past rest c, rio_ok r past (bs ++ rest) c ->
    exists a r', m r = Some (Returns a, r') /\ P a /\ same_setup r r' /\
      rio_ok r' (past ++ bs) rest (sum_after (update_cksum r) c bs).

(** On a stream that ends inside of [bs] it returns a value in [P], and the
    stream is marked. *)
Definition cut {A} (m : RM S A) (bs : list Z) (P : A -> Prop) : Prop :=
  forall r past pre suf c, rio_ok r past pre c -> bs = pre ++ suf -> suf <> [] ->
    exists a r', m r = Some (Returns a, r') /\ P a /\ rioGetReadError r' = true.

Lemma loads_ret {A} (a : A) (P : A -> Prop) : P a -> loads (rret a) [] P.
Proof.
  intros HP r past rest c Hr. exists a, r. rewrite app_nil_r, sum_after_nil. done.
Qed.

Lemma loads_lift {A} (o : option A) a (P : A -> Prop) : o = Some a -> P a -> loads (rlift o) [] P.
Proof.
  intros -> HP r past rest c Hr. exists a, r. rewrite app_nil_r, sum_after_nil. done.
Qed.

Lemma loads_read bs n : n = Z.of_nat (length bs) -> loads (rread n) bs (eq (Some bs)).
Proof.
  intros -> r past rest c Hr. unfold rread.
  destruct (read_stream Htable r past bs rest c Hr) as (r' & -> & Hs & Hok & _). mstep.
  exists (Some bs), r'. done.
Qed.

Lemma loads_bind {A A'} (m : RM S A) (k : A -> RM S A') a b P Q :
  loads m a P -> (forall x, P x -> loads (k x) b Q) -> loads (rbind m k) (a ++ b) Q.
Proof.
  intros Hm Hk r past rest c Hr. rewrite <- app_assoc in Hr.
  destruct (Hm r past (b ++ rest) c Hr) as (x & r1 & Hm1 & HP & Hs1 & Hr1).
  destruct (Hk x HP r1 (past ++ a) rest _ Hr1) as (y & r2 & Hk2 & HQ & Hs2 & Hr2).
  exists y, r2. unfold rbind. rewrite Hm1. split; [done|]. split; [done|]. split; [by eapply same_setup_trans|].
  rewrite app_assoc, sum_after_app. destruct Hs1 as [Hs1 _]. by rewrite Hs1 in Hr2.
Qed.

(** The rule for a first step that reads nothing *)
Lemma loads_step {A A'} (m : RM S A) (k : A -> RM S A') b P Q :
  loads m [] P -> (forall x, P x -> loads (k x) b Q) -> loads (rbind m k) b Q.
Proof. apply (loads_bind m k [] b). Qed.

Lemma loads_impl {A} (m : RM S A) bs (P Q : A -> Prop) :
  loads m bs P -> (forall a, P a -> Q a) -> loads m bs Q.
Proof.
  intros Hm HPQ r past rest c Hr. destruct (Hm r past rest c Hr) as (a & r' & H1 & H2 & H3). eauto 6.
Qed.

Lemma cut_nil {A} (m : RM S A) P : cut m [] P.
Proof. intros r past pre suf c _ Hp Hne. by symmetry in Hp; apply app_eq_nil in Hp as [_ ->]. Qed.

Lemma cut_read bs n :
  n = Z.of_nat (length bs) -> n < 2 ^ 64 -> cut (rread n) bs (eq None).
Proof.
  intros -> Hn r past pre suf c Hr -> Hne. unfold rread.
  assert (Hlt : (length pre < length (pre ++ suf))%nat) by (rewrite length_app; destruct suf; [done|simpl; lia]).
  destruct (short_stream Htable r past pre c (Z.of_nat (length (pre ++ suf))) Hr) as (r' & -> & Herr); [lia|].
  mstep. eauto.
Qed.

(** A step that leaves the stream alone and returns a value in [P] *)
Definition quiet {A} (m : RM S A) (P : A -> Prop) : Prop := forall r, exists a, m r = Some (Returns a, r) /\ P a.

Lemma quiet_ret {A} (a : A) (P : A -> Prop) : P a -> quiet (rret a) P.
Proof. intros HP r. exists a. done. Qed.

Lemma cut_bind {A A'} (m : RM S A) (k : A -> RM S A') a b P P' Q :
  loads m a P -> cut m a P' -> (forall x, P x -> cut (k x) b Q) -> (forall x, P' x -> quiet (k x) Q) ->
  cut (rbind m k) (a ++ b) Q.
Proof.
  intros Hm Hcut Hk Hq r past pre suf c Hr Heq Hne. unfold rbind.
  symmetry in Heq. apply app_eq_inv in Heq as [(d & -> & ->)|(d & -> & ->)].
  - destruct (Hm r past d c Hr) as (x & r1 & -> & HP & Hs1 & Hr1).
    destruct (Hk x HP r1 (past ++ a) d suf _ Hr1 eq_refl Hne) as (y & r2 & Hy). eauto.
  - destruct d as [|z d].
    + rewrite app_nil_r in Hm, Hcut. cbn [app] in Hne.
      destruct (Hm r past [] c ltac:(by rewrite app_nil_r)) as (x & r1 & -> & HP & Hs1 & Hr1).
      destruct (Hk x HP r1 (past ++ pre) [] b _ Hr1 eq_refl Hne) as (y & r2 & Hy). eauto.
    + destruct (Hcut r past pre (z :: d) c Hr eq_refl ltac:(done)) as (x & r1 & -> & HP & Herr).
      destruct (Hq x HP r1) as (y & Hy & HQ). eauto.
Qed.

(** The rule for a first step that reads nothing *)
Lemma cut_step {A A'} (m : RM S A) (k : A -> RM S A') b P Q :
  loads m [] P -> (forall x, P x -> cut (k x) b Q) -> cut (rbind m k) b Q.
Proof.
  intros Hm Hk. apply (cut_bind m k [] b P (fun _ => False) Q); [done|apply cut_nil|done|done].
Qed.

Lemma cut_impl {A} (m : RM S A) bs (P Q : A -> Prop) : cut m bs P -> (forall a, P a -> Q a) -> cut m bs Q.
Proof.
  intros Hm HPQ r past pre suf c Hr Heq Hne.
  destruct (Hm r past pre suf c Hr Heq Hne) as (a & r' & H1 & H2 & H3). eauto 6.
Qed.

(** Both at once: loading [bs] gives a value in [P], and one in [Q] when it is cut short *)
Definition reads {A} (m : RM S A) (bs : list Z) (P Q : A -> Prop) : Prop := loads m bs P /\ cut m bs Q.

Lemma reads_ret {A} (a : A) (P Q : A -> Prop) : P a -> reads (rret a) [] P Q.
Proof. intros HP. split; [by apply loads_ret|apply cut_nil]. Qed.

Lemma reads_bind {A A'} (m : RM S A) (k : A -> RM S A') a b P P' Q Q' :
  reads m a P P' -> (forall x, P x -> reads (k x) b Q Q') -> (forall x, P' x -> quiet (k x) Q') ->
  reads (rbind m k) (a ++ b) Q Q'.
Proof.
  intros [Hm Hc] Hk Hq. split.
  - eapply loads_bind; [done|]. intros x HP. by apply Hk.
  - eapply cut_bind; [done|done| |done]. intros x HP. by apply Hk.
Qed.

Lemma reads_step {A A'} (o : option A) x (k : A -> RM S A') b Q Q' :
  o = Some x -> reads (k x) b Q Q' -> reads (rbind (rlift o) k) b Q Q'.
Proof.
  intros Ho [Hl Hc]. split.
  - eapply loads_step; [by apply (loads_lift o x (eq x))|]. by intros ? <-.
  - eapply cut_step; [by apply (loads_lift o x (eq x))|]. by intros ? <-.
Qed.

Lemma reads_read {A'} (k : option (list Z) -> RM S A') n a b Q Q' :
  n = Z.of_nat (length a) -> n < 2 ^ 64 -> reads (k (Some a)) b Q Q' -> quiet (k None) Q' ->
  reads (rbind (rread n) k) (a ++ b) Q Q'.
Proof.
  intros Hn Hlt Hk Hq. eapply reads_bind; [split; [by apply loads_read|by apply cut_read]| |].
  - by intros ? <-.
  - by intros ? <-.
Qed.

(** The last step of a function *)
Lemma reads_last {A'} (k : option (list Z) -> RM S A') n a Q Q' :
  n = Z.of_nat (length a) -> n < 2 ^ 64 -> reads (k (Some a)) [] Q Q' -> quiet (k None) Q' ->
  reads (rbind (rread n) k) a Q Q'.
Proof. intros ????. rewrite <- (app_nil_r a). by apply reads_read. Qed.

(** ** Lengths *)

(** The big endian bytes of a number *)
Definition be_encode (n : nat) (v : Z) : list Z := reverse (le_encode n v).

Definition len_bytes (len : Z) : list Z :=
  if len <? 64 then [len]
  else if len <? 16384 then [64 + len / 256; len mod 256]
  else if len <=? UINT32_MAX then RDB_32BITLEN :: be_encode 4 len
  else RDB_64BITLEN :: be_encode 8 len.

Lemma be_encode_bytes n v : Forall is_byte (be_encode n v).
Proof. unfold be_encode. apply Forall_reverse, le_encode_bytes. Qed.

Lemma be_encode_length n v : length (be_encode n v) = n.
Proof. unfold be_encode. by rewrite length_reverse, length_le_encode. Qed.

Lemma swap_encode n v : le_encode n (be_decode (le_encode n v)) = be_encode n v.
Proof.
  unfold be_decode, be_encode. pose proof (le_encode_decode (reverse (le_encode n v))) as H.
  rewrite length_reverse, length_le_encode in H. apply H, be_encode_bytes.
Qed.

Lemma swap_decode n v : 0 <= v < 2 ^ (8 * Z.of_nat n) -> be_decode (le_encode n (le_decode (be_encode n v))) = v.
Proof.
  intros Hv. pose proof (le_encode_decode (be_encode n v) (be_encode_bytes n v)) as H.
  rewrite be_encode_length in H. rewrite H. unfold be_decode, be_encode. rewrite reverse_involutive.
  by rewrite le_decode_encode, Z.mod_small.
Qed.

Lemma len_bytes_ok len : inU 64 len -> Forall is_byte (len_bytes len).
Proof.
  unfold inU. intros Hl. unfold len_bytes. destruct (len <? 64) eqn:E1; zbool.
  { repeat constructor; lia. }
  destruct (len <? 16384) eqn:E2; zbool.
  { pose proof (Z.div_lt_upper_bound len 256 64). pose proof (Z.div_pos len 256).
    pose proof (Z.mod_pos_bound len 256). repeat constructor; unfold is_byte; lia. }
  destruct (_ <=? _); (constructor; [unfold is_byte, RDB_32BITLEN, RDB_64BITLEN; lia|apply be_encode_bytes]).
Qed.

Lemma low_byte x : Z.land x 0xFF = x mod 256.
Proof. change 0xFF with (Z.ones 8). by rewrite Z.land_ones. Qed.

(** The bytes that [rdbSaveLen] computes *)
Lemma len_byte6 len : 0 <= len < 64 -> u8 (Z.lor (Z.land len 0xFF) (Z.shiftl RDB_6BITLEN 6)) = len.
Proof.
  intros Hl. change (Z.shiftl RDB_6BITLEN 6) with 0. rewrite Z.lor_0_r, low_byte.
  rewrite (Z.mod_small len) by lia. apply wrapU_id. unfold inU. zpow. lia.
Qed.

Lemma len_byte14 len : 64 <= len < 16384 ->
  u8 (Z.lor (Z.land (Z.shiftr len 8) 0xFF) (Z.shiftl RDB_14BITLEN 6)) = 64 + len / 256.
Proof.
  intros Hl. rewrite low_byte, Z.shiftr_div_pow2 by lia. change (2 ^ 8) with 256.
  pose proof (Z.div_lt_upper_bound len 256 64 ltac:(lia) ltac:(lia)). pose proof (Z.div_pos len 256 ltac:(lia) ltac:(lia)).
  rewrite (Z.mod_small (len / 256)) by lia. generalize dependent (len / 256). intros x Hx1 Hx2.
  pose proof (byte_forall (fun y => (64 <=? y) || (u8 (Z.lor y (Z.shiftl RDB_14BITLEN 6)) =? 64 + y))
    eq_refl x ltac:(unfold is_byte; lia)) as Hx. apply orb_true_iff in Hx as [Hx|Hx]; zbool; lia.
Qed.

Lemma saves_len len :
  inU 64 len -> saves (fun rdb => rdbSaveLen rdb len) (len_bytes len) (Z.of_nat (length (len_bytes len))).
Proof.
  intros Hl. pose proof (len_bytes_ok len Hl) as Hb. unfold inU in Hl. revert Hb. unfold rdbSaveLen, len_bytes.
  change (Z.shiftl 1 6) with 64. change (Z.shiftl 1 14) with 16384.
  destruct (len <? 64) eqn:E1; zbool.
  { intros Hb. rewrite len_byte6 by lia. by apply (saves_last _ [len] 1 (fun _ => 1)); [apply (saves_raw [len])|]. }
  destruct (len <? 16384) eqn:E2; zbool.
  { intros Hb. rewrite len_byte14, low_byte by lia.
    by apply (saves_last _ [_; _] 2 (fun _ => 2)); [apply (saves_raw [_; _])|]. }
  assert (Hbe : forall n len, saves (fun rdb => rdbWriteRaw rdb (be_encode n len)) (be_encode n len) (Z.of_nat n)).
  { intros n v. pose proof (saves_raw (be_encode n v) (be_encode_bytes n v)) as H. by rewrite be_encode_length in H. }
  destruct (len <=? UINT32_MAX) eqn:E3; zbool; intros [Hb1 Hb2]%Forall_cons; cbn [length]; rewrite be_encode_length.
  - apply (saves_bind _ _ [RDB_32BITLEN] (be_encode 4 len) 1); [by apply (saves_raw [_]); constructor|done|].
    eapply saves_lift; [apply intrev32_eq|]. rewrite swap_encode.
    by apply (saves_last _ _ 4 (fun _ => 1 + 4)); [apply Hbe|].
  - apply (saves_bind _ _ [RDB_64BITLEN] (be_encode 8 len) 1); [by apply (saves_raw [_]); constructor|done|].
    eapply saves_lift; [apply intrev64_eq|]. rewrite swap_encode.
    by apply (saves_last _ _ 8 (fun _ => 1 + 8)); [apply Hbe|].
Qed.

Ltac quiet_end := apply quiet_ret; reflexivity.

(** The first byte of a length *)
Lemma len_first6 b : is_byte b -> b < 64 -> Z.shiftr (Z.land b 0xC0) 6 = RDB_6BITLEN /\ Z.land b 0x3F = b.
Proof.
  intros Hb Hlt. pose proof (byte_forall (fun b => (64 <=? b) || ((Z.shiftr (Z.land b 0xC0) 6 =? RDB_6BITLEN) &&
    (Z.land b 0x3F =? b))) eq_refl b Hb) as H. apply orb_true_iff in H as [H|H]; zbool; [lia|done].
Qed.

Lemma len_first14 b : is_byte b -> 64 <= b < 128 ->
  Z.shiftr (Z.land b 0xC0) 6 = RDB_14BITLEN /\ Z.land b 0x3F = b - 64.
Proof.
  intros Hb Hlt. pose proof (byte_forall (fun b => negb ((64 <=? b) && (b <? 128)) ||
    ((Z.shiftr (Z.land b 0xC0) 6 =? RDB_14BITLEN) && (Z.land b 0x3F =? b - 64))) eq_refl b Hb) as H.
  apply orb_true_iff in H as [H|H]; zbool; [|done]. apply andb_false_iff in H as [?|?]; zbool; lia.
Qed.

Lemma len_first_enc e : 0 <= e < 64 ->
  Z.shiftr (Z.land (192 + e) 0xC0) 6 = RDB_ENCVAL /\ Z.land (192 + e) 0x3F = e.
Proof.
  intros He. pose proof (byte_forall (fun b => (64 <=? b) || ((Z.shiftr (Z.land (192 + b) 0xC0) 6 =? RDB_ENCVAL) &&
    (Z.land (192 + b) 0x3F =? b))) eq_refl e ltac:(unfold is_byte; lia)) as H.
  apply orb_true_iff in H as [H|H]; zbool; [lia|done].
Qed.

Lemma rd_byte0 b l : rd (b :: l) 0 = Some b.
Proof. done. Qed.

Context (env : rdb_env).

Lemma reads_len_enc e : 0 <= e < 64 ->
  reads (rdbLoadLenByRef env) [192 + e] (eq (Some (true, e))) (eq None).
Proof.
  intros He. unfold rdbLoadLenByRef. apply (reads_read _ 1 [192 + e] []); [done|done| |quiet_end].
  eapply reads_step; [apply rd_byte0|]. destruct (len_first_enc e He) as [-> ->].
  by apply reads_ret.
Qed.

Lemma reads_len len : inU 64 len ->
  reads (rdbLoadLenByRef env) (len_bytes len) (eq (Some (false, len))) (eq None).
Proof.
  intros Hl. pose proof (len_bytes_ok len Hl) as Hb. unfold inU in Hl. revert Hb. unfold rdbLoadLenByRef, len_bytes.
  destruct (len <? 64) eqn:E1; zbool.
  { intros [Hb _]%Forall_cons. apply (reads_read _ 1 [len] []); [done|done| |quiet_end].
    eapply reads_step; [apply rd_byte0|]. destruct (len_first6 len Hb E1) as [-> ->]. by apply reads_ret. }
  destruct (len <? 16384) eqn:E2; zbool.
  { intros [Hb1 [Hb2 _]%Forall_cons]%Forall_cons.
    pose proof (Z.div_lt_upper_bound len 256 64 ltac:(lia) ltac:(lia)).
    pose proof (Z.div_pos len 256 ltac:(lia) ltac:(lia)).
    apply (reads_read _ 1 [64 + len / 256] [len mod 256]); [done|done| |quiet_end].
    eapply reads_step; [apply rd_byte0|]. destruct (len_first14 _ Hb1 ltac:(lia)) as [-> ->].
    apply (reads_read _ 1 [len mod 256] []); [done|done| |quiet_end].
    eapply reads_step; [apply rd_byte0|]. apply reads_ret. do 2 f_equal.
    replace (64 + len / 256 - 64) with (len / 256) by lia. pose proof (Z.div_mod len 256 ltac:(lia)).
    unfold is_byte in Hb2. rewrite Z.lor_comm, lor_shiftl_add by (zpow; lia). zpow. lia. }
  destruct (len <=? UINT32_MAX) eqn:E3; zbool; intros [Hb1 Hb2]%Forall_cons.
  - apply (reads_read _ 1 [RDB_32BITLEN] (be_encode 4 len)); [done|done| |quiet_end].
    eapply reads_step; [apply rd_byte0|]. cbn [Z.land Z.shiftr Z.eqb].
    apply (reads_last _ 4 (be_encode 4 len)); [by rewrite be_encode_length|done| |quiet_end].
    eapply reads_step; [apply intrev32_eq|]. rewrite swap_decode by (change (2 ^ _) with (2 ^ 32); zpow; lia).
    by apply reads_ret.
  - apply (reads_read _ 1 [RDB_64BITLEN] (be_encode 8 len)); [done|done| |quiet_end].
    eapply reads_step; [apply rd_byte0|].
    apply (reads_last _ 8 (be_encode 8 len)); [by rewrite be_encode_length|done| |quiet_end].
    eapply reads_step; [apply intrev64_eq|]. rewrite swap_decode by (change (2 ^ _) with (2 ^ 64); lia).
    by apply reads_ret.
Qed.
End logic.

(** ** Strings *)

Section strings.
Context {S : Type} `{B : RioBackend S} `{L : !RioLaws S} `{E : CrcEnv}.
Context `{A : Allocator} `{!AllocatorLaws A} `{!EmbstrLaws A}.
Context (Htable : table_ok crc_table) (env : rdb_env) (server : server_state).

(** The loaded value is the string [s], in the form that the flags ask for. *)
Definition val_str (flags : Z) (s : list Z) (l : loaded) : Prop :=
  match l_val l with
  | Some (VPlain block) => plain_flag flags = true /\ (exists tl, block = s ++ tl) /\
                             l_len l = Some (Z.of_nat (length s))
  | Some (VSds x) => plain_flag flags = false /\ sds_flag flags = true /\ sds_ok x s /\
                       l_len l = Some (Z.of_nat (length s))
  | Some (VObj o) => plain_flag flags = false /\ sds_flag flags = false /\ obj_str o s
  | None => False
  end.

Definition null_val (l : loaded) : Prop := l_val l = None.

Lemma sds_overwrite s str bs :
  sds_ok s str -> length bs = length str -> Forall is_byte bs ->
  exists s', smemcpy s 0 bs = Some s' /\ sds_ok s' bs.
Proof.
  intros (ty & aux & alloc & tl & Hr & Ha) Hl Hb.
  destruct (raw_store _ _ _ _ _ _ Hr (bs ++ 0 :: tl) 0 bs) as (s' & Hs & Hr'); [done|by apply mstore_app_l|done|].
  exists s'. split; [done|]. exists ty, aux, alloc, tl. rewrite Hl. done.
Qed.

Lemma sds_usable_ok want s str : sds_ok s str -> exists us, sds_usable want (Some s) = Some us.
Proof.
  intros (ty & aux & alloc & tl & Hr & _). unfold sds_usable. destruct want; [|eauto].
  mstep. pose proof (raw_ty _ _ _ _ _ _ Hr). pose proof (raw_hdr_alloc _ _ _ _ _ _ Hr) as Hal.
  pose proof (raw_type5_len _ _ _ _ _ _ Hr) as H5. unfold sdsAllocSize.
  rewrite (raw_sdsType _ _ _ _ _ _ Hr). mstep.
  ty_cases ty; cbn [hdr_w] in Hal; [rewrite H5 by done|rewrite Hal by done..]; mstep; eauto.
Qed.

Lemma zmalloc_room n : 0 <= n < 2 ^ 62 ->
  n <= Z.of_nat (length (malloc_usable (MALLOC_MIN_SIZE n))).
Proof.
  intros Hn. unfold MALLOC_MIN_SIZE. destruct (n >? 0) eqn:E0; zbool.
  - destruct (malloc_usable_ok n) as [? _]; [revert Hn; zpow; lia|lia].
  - lia.
Qed.

Lemma reads_integer_value flags want v s :
  inS 64 v -> signed_decimal v s ->
  reads (integer_value (S:=S) server flags want v) [] (val_str flags s) null_val.
Proof.
  intros Hv Hs. unfold integer_value. pose proof (signed_decimal_bytes _ _ Hs) as Hb.
  pose proof (signed_decimal_short _ _ Hv Hs) as Hshort.
  destruct (plain_flag flags || sds_flag flags) eqn:Ef.
  - destruct (ll2string_fits (stack_buf LONG_STR_SIZE) v Hv) as (t & Ht & Hpr); [by rewrite stack_buf_length|].
    rewrite <- (signed_decimal_unique _ _ _ Hs Ht) in Hpr. clear t Ht.
    eapply reads_step; [exact Hpr|]. cbv iota beta. eapply reads_step; [by apply mload_app_l|].
    destruct (plain_flag flags) eqn:Ep.
    + pose proof (zmalloc_room (Z.of_nat (length s)) ltac:(zpow; lia)) as Hroom.
      set (block := zmalloc_usable (Z.of_nat (length s))).
      assert (Hblk : block = take (length s) block ++ drop (length s) block) by (by rewrite take_drop).
      eapply reads_step.
      { rewrite Hblk. apply mstore_app_l. rewrite length_take. unfold block, zmalloc_usable. lia. }
      apply reads_ret. cbn [l_val l_len val_str]. split_and!; [done|eauto|done].
    + destruct (sdsnewlen_noinit (Z.of_nat (length s)) false) as (x & str & Hx & Hok & Hlx);
        [unfold SDS_LIMIT; zpow; lia|done|].
      eapply reads_step; [unfold sdsnewlen; by rewrite Hx|].
      destruct (sds_usable_ok want x str Hok) as (us & Hus). eapply reads_step; [exact Hus|].
      destruct (sds_overwrite x str s Hok ltac:(lia) Hb) as (x' & Hst & Hok').
      eapply reads_step; [exact Hst|]. apply reads_ret. cbn [l_val l_len val_str]. done.
  - apply orb_false_iff in Ef as [Ep Es].
    assert (Hobj : forall o, obj_str o s -> val_str flags s (mkLoaded (Some (VObj o)) None None)) by done.
    destruct (enc_flag flags).
    + assert (Ho : exists o, createStringObjectFromLongLongForValue server v = Some o /\ obj_str o s).
      { unfold createStringObjectFromLongLongForValue. destruct (_ || _);
          [destruct (longlong_object v s LL2STROBJ_AUTO Hv Hs) as (o & H1 & H2 & _)
          |destruct (longlong_object v s LL2STROBJ_NO_SHARED Hv Hs) as (o & H1 & H2 & _)]; eauto. }
      destruct Ho as (o & Ho & Hos). eapply reads_step; [exact Ho|]. apply reads_ret. by apply Hobj.
    + destruct (longlong_object v s LL2STROBJ_NO_INT_ENC Hv Hs) as (o & Ho & Hos & _).
      eapply reads_step; [exact Ho|]. apply reads_ret. by apply Hobj.
Qed.

(** *** Integers *)

(** The encoding of an integer: its kind, and its bytes, least first *)
Definition int_kind (v : Z) : option (Z * nat) :=
  if (- 128 <=? v) && (v <=? 127) then Some (RDB_ENC_INT8, 1%nat)
  else if (- 32768 <=? v) && (v <=? 32767) then Some (RDB_ENC_INT16, 2%nat)
  else if (- 2147483648 <=? v) && (v <=? 2147483647) then Some (RDB_ENC_INT32, 4%nat)
  else None.

Lemma byte_at v k : 0 <= k -> Z.land (Z.shiftr v k) 0xFF = v / 2 ^ k mod 256.
Proof. intros Hk. by rewrite low_byte, Z.shiftr_div_pow2. Qed.

Lemma encode_integer v :
  rdbEncodeInteger v = match int_kind v with Some (k, n) => (192 + k) :: le_encode n v | None => [] end.
Proof.
  unfold rdbEncodeInteger, int_kind. cbv zeta. rewrite !Z.geb_leb.
  change (- Z.shiftl 1 7) with (-128). change (Z.shiftl 1 7 - 1) with 127.
  change (- Z.shiftl 1 15) with (-32768). change (Z.shiftl 1 15 - 1) with 32767.
  change (- Z.shiftl 1 31) with (-2147483648). change (Z.shiftl 1 31 - 1) with 2147483647.
  rewrite !byte_at by lia. change (2 ^ 0) with 1. rewrite Z.div_1_r.
  destruct ((-128 <=? v) && _); [done|]. destruct ((-32768 <=? v) && _).
  { cbn [le_encode]. change (2 ^ 8) with 256. done. }
  destruct (_ && _); [|done]. cbn [le_encode]. rewrite !Z.div_div by lia. done.
Qed.

Lemma int_kind_range v k n : int_kind v = Some (k, n) ->
  inS (8 * Z.of_nat n) v /\ ((k = 0 /\ n = 1%nat) \/ (k = 1 /\ n = 2%nat) \/ (k = 2 /\ n = 4%nat)).
Proof.
  unfold int_kind, inS, RDB_ENC_INT8, RDB_ENC_INT16, RDB_ENC_INT32.
  destruct ((-128 <=? v) && (v <=? 127)) eqn:E1; [intros [= <- <-]; zbool; cbn; zpow; split; [lia|auto]|].
  destruct ((-32768 <=? v) && (v <=? 32767)) eqn:E2; [intros [= <- <-]; zbool; cbn; zpow; split; [lia|auto]|].
  destruct ((-2147483648 <=? v) && (v <=? 2147483647)) eqn:E3; intros [= <- <-]; zbool; cbn; zpow; split; [lia|auto].
Qed.

Lemma wrapS_mod w v : 1 <= w -> inS w v -> wrapS w (v mod 2 ^ w) = v.
Proof. intros Hw Hv. change (v mod 2 ^ w) with (wrapU w v). rewrite wrapS_wrapU by lia. by apply wrapS_id. Qed.

Lemma reads_integer v k n flags want s :
  int_kind v = Some (k, n) -> signed_decimal v s ->
  reads (rdbLoadIntegerObject (S:=S) env server k flags want) (le_encode n v) (val_str flags s) null_val.
Proof.
  intros Hk Hs. apply int_kind_range in Hk as [Hv Hcase].
  assert (Hv64 : inS 64 v).
  { unfold inS in *. revert Hv. destruct Hcase as [[_ ->]|[[_ ->]|[_ ->]]]; cbn; zpow; lia. }
  pose proof (Z.mod_pos_bound v 256 ltac:(lia)). pose proof (Z.mod_pos_bound (v / 256) 256 ltac:(lia)).
  pose proof (Z.mod_pos_bound (v / 256 / 256) 256 ltac:(lia)).
  pose proof (Z.mod_pos_bound (v / 256 / 256 / 256) 256 ltac:(lia)).
  assert (Hend : forall w x, 1 <= w -> inS w v -> x = v mod 2 ^ w ->
    reads (integer_value (S:=S) server flags want (wrapS w x)) [] (val_str flags s) null_val).
  { intros w x Hw Hin ->. rewrite wrapS_mod by done. by apply reads_integer_value. }
  unfold rdbLoadIntegerObject. cbv zeta. rewrite <- (app_nil_r (le_encode n v)).
  destruct Hcase as [[-> ->]|[[-> ->]|[-> ->]]].
  - apply (reads_read Htable _ 1 (le_encode 1 v) []); [done|done| |by apply quiet_ret].
    eapply reads_step; [apply rd_byte0|]. by apply Hend.
  - apply (reads_read Htable _ 2 (le_encode 2 v) []); [done|done| |by apply quiet_ret].
    do 2 (eapply reads_step; [reflexivity|]). apply Hend; [lia|done|].
    rewrite lor_shiftl_add by (zpow; lia). pose proof (le_decode_encode 2 v) as Hd. cbn [le_encode le_decode] in Hd.
    change (8 * Z.of_nat 2) with 16 in Hd. rewrite <- Hd. zpow. lia.
  - apply (reads_read Htable _ 4 (le_encode 4 v) []); [done|done| |by apply quiet_ret].
    do 4 (eapply reads_step; [reflexivity|]). apply Hend; [lia|done|].
    rewrite (lor_shiftl_add _ _ 8), (lor_shiftl_add _ _ 16), (lor_shiftl_add _ _ 24) by (zpow; lia).
    pose proof (le_decode_encode 4 v) as Hd. cbn [le_encode le_decode] in Hd.
    change (8 * Z.of_nat 4) with 32 in Hd. rewrite <- Hd. zpow. lia.
Qed.

(** *** Allocations *)

(** The allocations that loading a string of [n] bytes asks for succeed. *)
Definition can_alloc (n : Z) : Prop := forall k, k <= n + 18 -> try_ok k = true.

Lemma ztry_ok n : 0 <= n <= SDS_LIMIT -> can_alloc n ->
  ztrymalloc_usable n = Some (malloc_usable (MALLOC_MIN_SIZE n)).
Proof.
  unfold SDS_LIMIT. intros Hn Htry. unfold ztrymalloc_usable. rewrite Z.geb_leb, (proj2 (Z.leb_gt _ _)).
  - rewrite Htry; [done|]. unfold MALLOC_MIN_SIZE. destruct (_ >? _); lia.
  - change ((2 ^ 64 - 1) / 2) with 9223372036854775807. revert Hn. zpow. lia.
Qed.

(** A block takes the bytes of a string. *)
Lemma block_store n (bs : list Z) : 0 <= n <= SDS_LIMIT -> Z.of_nat (length bs) = n ->
  exists tl old, mstore (malloc_usable (MALLOC_MIN_SIZE n)) 0 bs = Some (bs ++ tl) /\
    mload (malloc_usable (MALLOC_MIN_SIZE n)) 0 n = Some old /\ length old = length bs.
Proof.
  unfold SDS_LIMIT. intros Hn Hl. assert (Hroom : n <= Z.of_nat (length (malloc_usable (MALLOC_MIN_SIZE n)))).
  { unfold MALLOC_MIN_SIZE. destruct (n >? 0) eqn:E0; zbool; [|lia].
    destruct (malloc_usable_ok n) as [? _]; [revert Hn; zpow; lia|lia]. }
  set (blk := malloc_usable _) in *. exists (drop (length bs) blk), (take (length bs) blk).
  assert (Hlt : length (take (length bs) blk) = length bs) by (rewrite length_take; lia).
  split_and!; [| |done].
  - rewrite <- (take_drop (length bs) blk) at 1. by apply mstore_app_l.
  - pose proof (mload_app_l (take (length bs) blk) (drop (length bs) blk) n) as H.
    rewrite take_drop, Hlt in H. by apply H.
Qed.

Lemma try_object n : 0 <= n <= SDS_LIMIT -> can_alloc n ->
  exists o x str, tryCreateStringObject SDS_NOINIT n = Some (Some o) /\ o_sds o = Some x /\ sds_ok x str /\
    Z.of_nat (length str) = n /\ obj_str o str /\
    forall x' bs, sds_ok x' bs -> Z.of_nat (length bs) = n -> obj_str (set_ptr o (PSds x')) bs.
Proof.
  intros Hn Htry. unfold tryCreateStringObject. destruct (n <=? OBJ_ENCODING_EMBSTR_SIZE_LIMIT) eqn:E0; zbool.
  - destruct (embedded_room n) as (H1 & H2 & H3 & H4); [lia|].
    set (data := drop 16 _) in *. set (str := take (Z.to_nat n) (drop (Z.to_nat (sdsHdrSize 1)) data)).
    assert (Hlen : Z.of_nat (length str) = n).
    { unfold str. change (sdsHdrSize 1) with 3 in *. rewrite length_take, length_drop. lia. }
    destruct (sdsnewplacement_ok data SDS_TYPE_8 SDS_NOINIT str) as (x & Hx & Hok); try (rewrite Hlen; done); try done.
    { unfold str. auto with bytes. }
    { right; right. split; [done|]. by rewrite <- (Nat2Z.id (length str)), Hlen. }
    rewrite Hlen in Hx. unfold createEmbeddedStringObject. fold data. rewrite Hx. mstep.
    assert (Hobj : forall x' bs, sds_ok x' bs -> Z.of_nat (length bs) = n ->
      obj_str (mkRobj OBJ_STRING OBJ_ENCODING_EMBSTR 1 0 0 0 (PSds x')) bs).
    { intros x' bs Hx' Hbs. split; [done|]. cbn. split_and!; [right; split; [done|lia]|done|lia]. }
    eexists _, x, str. split; [done|]. split_and!; try done. by apply Hobj.
  - unfold tryCreateRawStringObject, sdstrynewlen.
    destruct (sdsnewlen_noinit n true Hn ltac:(by intros _)) as (x & str & -> & Hok & Hlen). mstep.
    assert (Hobj : forall x' bs, sds_ok x' bs -> Z.of_nat (length bs) = n ->
      obj_str (createObject OBJ_STRING (PSds x')) bs).
    { intros x' bs Hx' Hbs. split; [done|]. cbn. split_and!; [by left|done|lia]. }
    eexists _, x, str. split; [done|]. split_and!; try done. by apply Hobj.
Qed.

(** *** Strings that are stored verbatim *)

Lemma reads_loadlen len : inU 64 len ->
  reads (rdbLoadLen (S:=S) env) (len_bytes len) (eq (false, len)) (eq (false, RDB_LENERR)).
Proof.
  intros Hl. unfold rdbLoadLen. rewrite <- (app_nil_r (len_bytes len)).
  eapply reads_bind; [by apply reads_len| |].
  - intros ? <-. by apply reads_ret.
  - intros ? <-. by apply quiet_ret.
Qed.

Lemma reads_loadlen_enc e : 0 <= e < 64 ->
  reads (rdbLoadLen (S:=S) env) [192 + e] (eq (true, e)) (eq (false, RDB_LENERR)).
Proof.
  intros He. unfold rdbLoadLen. rewrite <- (app_nil_r [192 + e]).
  eapply reads_bind; [by apply reads_len_enc| |].
  - intros ? <-. by apply reads_ret.
  - intros ? <-. by apply quiet_ret.
Qed.

Lemma reads_verbatim s flags want :
  Forall is_byte s -> Z.of_nat (length s) <= SDS_LIMIT -> can_alloc (Z.of_nat (length s)) ->
  reads (rdbGenericLoadStringObjectUsable (S:=S) env server flags want) (len_bytes (Z.of_nat (length s)) ++ s)
    (val_str flags s) null_val.
Proof.
  intros Hb Hl Htry. pose proof Hl as Hl'. unfold SDS_LIMIT in Hl'. revert Hl'. zpow. intros Hl'.
  unfold rdbGenericLoadStringObjectUsable. cbv zeta.
  eapply reads_bind; [apply reads_loadlen; unfold inU; zpow; lia| |].
  2: { intros ? <-. by apply quiet_ret. }
  intros ? <-. cbv iota beta. rewrite (proj2 (Z.eqb_neq _ RDB_LENERR)) by (unfold RDB_LENERR; zpow; lia).
  destruct (plain_flag flags || sds_flag flags) eqn:Ef; cbn [negb].
  - destruct (plain_flag flags) eqn:Ep.
    + rewrite ztry_ok by (done || lia). destruct (block_store (Z.of_nat (length s)) s ltac:(lia) eq_refl) as (tl & ? & Hst & _).
      destruct (Z.eqb_spec (Z.of_nat (length s)) 0) as [Ez|Ez].
      * destruct s; [|simpl in Ez; lia]. apply reads_ret. unfold val_str. cbn. split_and!; [done|by eexists|done].
      * apply (reads_last Htable _ _ s); [done|zpow; lia| |by apply quiet_ret].
        eapply reads_step; [exact Hst|]. apply reads_ret. unfold val_str. cbn. split_and!; [done|by eexists|done].
    + cbn [orb] in Ef. unfold sdstrynewlen.
      destruct (sdsnewlen_noinit (Z.of_nat (length s)) true ltac:(lia) ltac:(by intros _)) as (x & str & Hx & Hok & Hlen).
      eapply reads_step; [exact Hx|]. destruct (sds_usable_ok want x str Hok) as (us & Hus).
      eapply reads_step; [exact Hus|].
      destruct (Z.eqb_spec (Z.of_nat (length s)) 0) as [Ez|Ez].
      * destruct s; [|simpl in Ez; lia]. apply reads_ret. unfold val_str. cbn. destruct str; [done|simpl in Hlen; lia].
      * apply (reads_last Htable _ _ s); [done|zpow; lia| |by apply quiet_ret].
        destruct (sds_overwrite x str s Hok ltac:(lia) Hb) as (x' & Hst & Hok').
        eapply reads_step; [exact Hst|]. apply reads_ret. unfold val_str. cbn. done.
  - apply orb_false_iff in Ef as [Ep Es].
    destruct (try_object (Z.of_nat (length s)) ltac:(lia) Htry) as (o & x & str & Ho & Hx & Hok & Hlen & Hstr & Hset).
    eapply reads_step; [exact Ho|]. destruct (Z.eqb_spec (Z.of_nat (length s)) 0) as [Ez|Ez].
    + destruct s; [|simpl in Ez; lia]. apply reads_ret. unfold val_str. cbn. destruct str; [done|simpl in Hlen; lia].
    + apply (reads_last Htable _ _ s); [done|zpow; lia| |by apply quiet_ret].
      eapply reads_step; [exact Hx|].
      destruct (sds_overwrite x str s Hok ltac:(lia) Hb) as (x' & Hst & Hok').
      eapply reads_step; [exact Hst|]. apply reads_ret. unfold val_str. cbn [l_val]. split_and!; [done|done|].
      by apply Hset.
Qed.

(** *** Strings that are stored compressed *)

(** [data] is what the decompressor needs to give [s]. *)
Definition lzf_of (s data : list Z) : Prop := forall buf, (length s <= length buf)%nat ->
  lzf_decompress data buf = Some (LzfOk (Z.of_nat (length s)), s ++ drop (length s) buf).

Lemma can_alloc_le n m : n <= m -> can_alloc m -> can_alloc n.
Proof. intros Hle Hm k Hk. apply Hm. lia. Qed.

Lemma lzf_fits s data str :
  lzf_of s data -> length str = length s -> lzf_decompress data str = Some (LzfOk (Z.of_nat (length s)), s).
Proof. intros Hlzf Hl. rewrite Hlzf by lia. by rewrite drop_ge, app_nil_r by lia. Qed.

Lemma reads_lzf s data flags want :
  Forall is_byte s -> Z.of_nat (length s) <= SDS_LIMIT -> Z.of_nat (length data) <= Z.of_nat (length s) ->
  can_alloc (Z.of_nat (length s)) -> lzf_of s data ->
  reads (rdbLoadLzfStringObject (S:=S) env flags want)
    (len_bytes (Z.of_nat (length data)) ++ len_bytes (Z.of_nat (length s)) ++ data) (val_str flags s) null_val.
Proof.
  intros Hb Hl Hd Htry Hlzf. pose proof Hl as Hl'. unfold SDS_LIMIT in Hl'. revert Hl'. zpow. intros Hl'.
  assert (Hlen : forall n, 0 <= n <= Z.of_nat (length s) -> inU 64 n /\ (n =? RDB_LENERR) = false).
  { intros n Hn. unfold inU, RDB_LENERR. zpow. split; [lia|]. apply Z.eqb_neq. lia. }
  destruct (Hlen (Z.of_nat (length data)) ltac:(lia)) as [Hu1 He1].
  destruct (Hlen (Z.of_nat (length s)) ltac:(lia)) as [Hu2 He2].
  unfold rdbLoadLzfStringObject. cbv zeta.
  eapply reads_bind; [by apply reads_loadlen| |]; [intros ? <-|intros ? <-; by apply quiet_ret].
  cbv iota beta. rewrite He1. eapply reads_bind; [by apply reads_loadlen| |]; [intros ? <-|intros ? <-; by apply quiet_ret].
  cbv iota beta. rewrite He2. rewrite (ztry_ok (Z.of_nat (length data))) by (lia || by eapply can_alloc_le).
  destruct (plain_flag flags) eqn:Ep.
  - rewrite ztry_ok by (done || lia).
    apply (reads_last Htable _ _ data); [done|zpow; lia| |by apply quiet_ret].
    destruct (block_store (Z.of_nat (length s)) s ltac:(lia) eq_refl) as (tl & old & Hst & Hld & Hlo).
    eapply reads_step; [exact Hld|].
    eapply reads_step; [apply lzf_fits; [done|lia]|]. cbv iota beta. eapply reads_step; [exact Hst|].
    cbn [lzf_ret]. rewrite Z.eqb_refl. apply reads_ret. unfold val_str. cbn. split_and!; [done|by eexists|done].
  - unfold sdstrynewlen.
    destruct (sdsnewlen_noinit (Z.of_nat (length s)) true ltac:(lia) ltac:(by intros _)) as (x & str & Hx & Hok & Hls).
    eapply reads_step; [exact Hx|]. destruct (sds_usable_ok want x str Hok) as (us & Hus).
    eapply reads_step; [exact Hus|].
    apply (reads_last Htable _ _ data); [done|zpow; lia| |by apply quiet_ret].
    destruct (sbytes_ok _ _ Hok) as (_ & Hget & _). rewrite Hls in Hget.
    eapply reads_step; [exact Hget|]. eapply reads_step; [apply lzf_fits; [done|lia]|]. cbv iota beta.
    destruct (sds_overwrite x str s Hok ltac:(lia) Hb) as (x' & Hst & Hok').
    eapply reads_step; [exact Hst|]. cbn [lzf_ret]. rewrite Z.eqb_refl. apply reads_ret. unfold val_str. cbn.
    destruct (sds_flag flags); cbn; [done|]. split_and!; [done|done|]. split; [done|]. cbn. split_and!; [by left|done|lia].
Qed.

(** *** Any stored string *)

(** The bytes that stand for a string: as an integer, compressed, verbatim *)
Inductive stored (s : list Z) : list Z -> Prop :=
| stored_int v k n : int_kind v = Some (k, n) -> signed_decimal v s -> stored s ([192 + k] ++ le_encode n v)
| stored_lzf data : Z.of_nat (length data) <= Z.of_nat (length s) -> lzf_of s data ->
    stored s ([192 + RDB_ENC_LZF] ++ len_bytes (Z.of_nat (length data)) ++ len_bytes (Z.of_nat (length s)) ++ data)
| stored_verbatim : stored s (len_bytes (Z.of_nat (length s)) ++ s).

Lemma reads_encoded e bs flags want P :
  0 <= e < 64 ->
  reads (if (e =? RDB_ENC_INT8) || (e =? RDB_ENC_INT16) || (e =? RDB_ENC_INT32) then
           rdbLoadIntegerObject (S:=S) env server e flags want
         else if e =? RDB_ENC_LZF then rdbLoadLzfStringObject env flags want
         else rbind (rdbReportCorruptRDB env) (fun _ => rret load_null)) bs P null_val ->
  reads (rdbGenericLoadStringObjectUsable (S:=S) env server flags want) ([192 + e] ++ bs) P null_val.
Proof.
  intros He Hr. unfold rdbGenericLoadStringObjectUsable. cbv zeta.
  eapply reads_bind; [by apply reads_loadlen_enc| |]; [intros ? <-|intros ? <-; by apply quiet_ret].
  cbv iota beta. rewrite (proj2 (Z.eqb_neq _ RDB_LENERR)) by (unfold RDB_LENERR; zpow; lia). done.
Qed.

Lemma reads_stored s bs flags want :
  stored s bs -> Forall is_byte s -> Z.of_nat (length s) <= SDS_LIMIT -> can_alloc (Z.of_nat (length s)) ->
  reads (rdbGenericLoadStringObjectUsable (S:=S) env server flags want) bs (val_str flags s) null_val.
Proof.
  intros [v k n Hk Hs|data Hd Hlzf|] Hb Hl Htry.
  - pose proof (reads_integer v k n flags want s Hk Hs) as Hr.
    apply int_kind_range in Hk as [_ Hcase].
    destruct Hcase as [[-> ->]|[[-> ->]|[-> ->]]]; (apply reads_encoded; [lia|exact Hr]).
  - apply reads_encoded; [unfold RDB_ENC_LZF; lia|]. by apply reads_lzf.
  - by apply reads_verbatim.
Qed.

(** ** Saving strings *)

Lemma len_bytes_nonempty len : 1 <= Z.of_nat (length (len_bytes len)) <= 9.
Proof.
  unfold len_bytes. repeat case_match; cbn [length]; rewrite ?be_encode_length; lia.
Qed.

Lemma saves_verbatim s :
  Forall is_byte s -> Z.of_nat (length s) <= SDS_LIMIT ->
  saves (S:=S) (fun rdb =>
    '(n, rdb) ← rdbSaveLen rdb (Z.of_nat (length s));
    if n =? -1 then Some (-1, rdb) else
    if Z.of_nat (length s) >? 0 then
      '(n', rdb) ← rdbWriteRaw rdb s;
      if n' =? -1 then Some (-1, rdb) else Some (n + Z.of_nat (length s), rdb)
    else Some (n, rdb)) (len_bytes (Z.of_nat (length s)) ++ s)
    (Z.of_nat (length (len_bytes (Z.of_nat (length s)) ++ s))).
Proof.
  intros Hb Hl. pose proof (len_bytes_nonempty (Z.of_nat (length s))) as Hne. rewrite length_app, Nat2Z.inj_add.
  apply (saves_bind _ (fun n rdb => if Z.of_nat (length s) >? 0 then
      '(n', rdb) ← rdbWriteRaw rdb s;
      if n' =? -1 then Some (-1, rdb) else Some (n + Z.of_nat (length s), rdb)
    else Some (n, rdb)) _ _ (Z.of_nat (length (len_bytes (Z.of_nat (length s)))))); [|lia|].
  - apply saves_len; [done|]. unfold inU. unfold SDS_LIMIT in Hl. revert Hl. zpow. lia.
  - destruct (Z.of_nat (length s) >? 0) eqn:E0; zbool.
    + apply (saves_last _ s (Z.of_nat (length s)) (fun _ => _)); [by apply saves_raw|lia].
    + destruct s; [|simpl in E0; lia]. rewrite Z.add_0_r. apply saves_ret.
Qed.

Lemma saves_blob data len :
  Forall is_byte data -> inU 64 len -> inU 64 (Z.of_nat (length data)) ->
  let bs := [192 + RDB_ENC_LZF] ++ len_bytes (Z.of_nat (length data)) ++ len_bytes len ++ data in
  saves (S:=S) (fun rdb => rdbSaveLzfBlob rdb data len) bs (Z.of_nat (length bs)).
Proof.
  intros Hb Hl Hd. cbv zeta. pose proof (len_bytes_nonempty (Z.of_nat (length data))).
  pose proof (len_bytes_nonempty len). rewrite !length_app, !Nat2Z.inj_add. cbn [length]. unfold rdbSaveLzfBlob.
  apply (saves_bind _ _ _ _ 1); [by apply (saves_raw Htable [_]); constructor|done|]. cbv zeta beta.
  apply (saves_bind _ _ _ _ (Z.of_nat (length (len_bytes (Z.of_nat (length data)))))); [by apply saves_len|lia|].
  cbv beta. apply (saves_bind _ _ _ _ (Z.of_nat (length (len_bytes len)))); [by apply saves_len|lia|].
  cbv beta. rewrite !Z.add_assoc. change (Z.of_nat 1) with 1.
  apply (saves_last _ data (Z.of_nat (length data)) (fun n => _ + n)); [by apply saves_raw|lia].
Qed.

Lemma saves_lzf htab s :
  Forall is_byte s -> Z.of_nat (length s) <= SDS_LIMIT -> (forall i, slot_ok (htab i)) ->
  exists bs, saves (S:=S) (fun rdb => rdbSaveLzfStringObject htab rdb s) bs (Z.of_nat (length bs)) /\
    (bs = [] \/ stored s bs).
Proof.
  intros Hb Hl Hht. pose proof Hl as Hl'. unfold SDS_LIMIT in Hl'. revert Hl'. zpow. intros Hl'.
  unfold rdbSaveLzfStringObject. cbv zeta.
  destruct (Z.of_nat (length s) <=? 4) eqn:E4; zbool; [exists []; split; [apply saves_ret|by left]|].
  set (out := take _ (malloc_usable _)).
  assert (Hout : Z.of_nat (length out) <= Z.of_nat (length s) - 4) by (unfold out; rewrite length_take; lia).
  destruct (lzf_compress_ok htab s out Hb ltac:(lia)) as (r & -> & Hr); [|done|].
  { unfold slot_ok. change MAX_OFF with 8192. zpow. lia. }
  mstep. destruct r as [[n o]|]; [|exists []; split; [apply saves_ret|by left]].
  destruct Hr as (Hn & Hlo & Hby & Hlzf). destruct (n =? 0) eqn:E0; [exists []; split; [apply saves_ret|by left]|].
  zbool. rewrite mload_Some by lia. mstep. change (Z.to_nat 0) with 0%nat. rewrite drop_0.
  set (data := take (Z.to_nat n) o) in *. assert (Hdl : Z.of_nat (length data) = n) by (unfold data; rewrite length_take; lia).
  eexists. split; [apply saves_blob; [done|unfold inU; zpow; lia..]|].
  right. apply stored_lzf; [lia|done].
Qed.

Lemma try_integer s :
  rdbTryIntegerEncoding s = [] \/ stored s (rdbTryIntegerEncoding s) /\ Forall is_byte (rdbTryIntegerEncoding s).
Proof.
  unfold rdbTryIntegerEncoding. destruct (string2ll s) as [v|] eqn:Ev; [|by left]. apply string2ll_sound in Ev as [Hv Hs].
  rewrite encode_integer. destruct (int_kind v) as [[k n]|] eqn:Ek; [|by left]. right.
  split; [by apply (stored_int s v k n)|]. apply int_kind_range in Ek as [_ Hk].
  constructor; [unfold is_byte; lia|apply le_encode_bytes].
Qed.

Lemma saves_raw_string compression htab s :
  Forall is_byte s -> Z.of_nat (length s) <= SDS_LIMIT -> (forall i, slot_ok (htab i)) ->
  exists bs, saves (S:=S) (fun rdb => rdbSaveRawString compression htab rdb s) bs (Z.of_nat (length bs)) /\ stored s bs.
Proof.
  intros Hb Hl Hht. pose proof (saves_verbatim s Hb Hl) as Hv. unfold rdbSaveRawString. cbv zeta.
  set (buf := if Z.of_nat (length s) <=? 11 then _ else _).
  assert (Hbuf : buf = [] \/ stored s buf /\ Forall is_byte buf).
  { unfold buf. destruct (_ <=? 11); [apply try_integer|by left]. }
  destruct (Z.of_nat (length buf) >? 0) eqn:E0; zbool.
  - destruct Hbuf as [-> | [Hst Hby]]; [simpl in E0; lia|]. exists buf. split; [|done].
    apply (saves_last _ buf (Z.of_nat (length buf)) (fun _ => _)); [by apply saves_raw|lia].
  - destruct (compression && _); [|eexists; split; [exact Hv|apply stored_verbatim]].
    destruct (saves_lzf htab s Hb Hl Hht) as (bs & Hlzf & Hbs).
    destruct (Z.of_nat (length bs) >? 0) eqn:E1.
    + exists bs. destruct Hbs as [-> | Hst]; [done|]. split; [|done]. rewrite <- (app_nil_r bs) at 1.
      apply (saves_bind _ _ bs [] (Z.of_nat (length bs))); [done|lia|]. rewrite E1. apply saves_ret.
    + eexists. split; [|apply stored_verbatim]. zbool. destruct bs; [|simpl in E1; lia].
      apply (saves_bind _ _ [] _ 0); [done|done|exact Hv].
Qed.

Lemma saves_longlong v s :
  inS 64 v -> signed_decimal v s ->
  exists bs, saves (S:=S) (fun rdb => rdbSaveLongLongAsStringObject rdb v) bs (Z.of_nat (length bs)) /\ stored s bs.
Proof.
  intros Hv Hs. unfold rdbSaveLongLongAsStringObject. cbv zeta. rewrite encode_integer.
  pose proof (signed_decimal_bytes _ _ Hs) as Hb. pose proof (signed_decimal_short _ _ Hv Hs) as Hshort.
  destruct (int_kind v) as [[k n]|] eqn:Ek.
  - exists ((192 + k) :: le_encode n v). split; [|by apply (stored_int s v k n)].
    apply int_kind_range in Ek as [_ Hk]. apply saves_raw; [done|].
    constructor; [unfold is_byte; lia|apply le_encode_bytes].
  - cbn [length Z.of_nat Z.gtb Z.compare].
    destruct (ll2string_fits (stack_buf 32) v Hv) as (t & Ht & Hpr); [rewrite stack_buf_length by lia; change (Z.to_nat LONG_STR_SIZE) with 21%nat; lia|].
    rewrite <- (signed_decimal_unique _ _ _ Hs Ht) in Hpr. clear t Ht.
    eexists. split; [|apply stored_verbatim]. rewrite length_app, Nat2Z.inj_add.
    eapply saves_lift; [exact Hpr|]. cbv iota beta. unfold cassert. rewrite (proj2 (Z.ltb_lt _ 32)) by lia. mstep.
    pose proof (len_bytes_nonempty (Z.of_nat (length s))).
    apply (saves_bind _ _ _ _ (Z.of_nat (length (len_bytes (Z.of_nat (length s)))))); [|lia|].
    { apply saves_len; [done|]. unfold inU. zpow. lia. }
    eapply saves_lift; [by apply mload_app_l|].
    apply (saves_last _ s (Z.of_nat (length s)) (fun n => _ + n)); [by apply saves_raw|lia].
Qed.

Lemma obj_str_bytes o s : obj_str o s -> Forall is_byte s /\ Z.of_nat (length s) <= SDS_LIMIT.
Proof.
  intros [_ Ho]. destruct (o_ptr o) as [|v|x]; [done| |].
  - destruct Ho as (_ & Hv & Hs). split; [by eapply signed_decimal_bytes|].
    pose proof (signed_decimal_short _ _ Hv Hs). unfold SDS_LIMIT. zpow. lia.
  - destruct Ho as (_ & Hok & Hl). by destruct (sbytes_ok _ _ Hok) as (_ & _ & ?).
Qed.

Lemma saves_object compression htab o s :
  obj_str o s -> (forall i, slot_ok (htab i)) ->
  exists bs, saves (S:=S) (fun rdb => rdbSaveStringObject compression htab rdb o) bs (Z.of_nat (length bs)) /\ stored s bs.
Proof.
  intros [Ht Ho] Hht. unfold rdbSaveStringObject. destruct (o_ptr o) as [|v|x] eqn:Hp; [done| |].
  - destruct Ho as (-> & Hv & Hs). cbn [Z.eqb]. change (OBJ_ENCODING_INT =? OBJ_ENCODING_INT) with true.
    unfold o_long. rewrite Hp. mstep. by apply saves_longlong.
  - destruct Ho as (He & Hok & Hl). destruct (sbytes_ok _ _ Hok) as (Hlen & Hget & Hb).
    assert (Henc : (o_encoding o =? OBJ_ENCODING_INT) = false /\ sdsEncodedObject o = true).
    { unfold sdsEncodedObject. destruct He as [-> | [-> _]]; done. }
    destruct Henc as [-> ->]. unfold o_sds. rewrite Hp. cbn [cassert mbind option_bind].
    rewrite Hlen. mstep. rewrite Hget. mstep. by apply saves_raw_string.
Qed.
End strings.

(** ** Streams with any contents *)

Section hostile.
Context {S : Type} `{B : RioBackend S} `{L : !RioLaws S} `{E : CrcEnv}.
Context `{A : Allocator} `{!AllocatorLaws A}.
Context (Htable : table_ok crc_table) (env : rdb_env) (server : server_state).

(** Whatever the stream holds the function goes on in bounds: it exits, or it
    returns a value in [P] with the stream still good, or one in [Q]. *)
Definition safe {T} (m : RM S T) (P Q : T -> Prop) : Prop :=
  forall r past rest c, rio_ok r past rest c -> exists o r', m r = Some (o, r') /\
    match o with
    | Exits => True
    | Returns a => P a /\ (exists past' rest' c', rio_ok r' past' rest' c') \/ Q a
    end.

Lemma safe_ret {T} (a : T) (P Q : T -> Prop) : P a \/ Q a -> safe (rret a) P Q.
Proof. intros HP r past rest c Hr. eexists _, _. split; [done|]. destruct HP; [left; eauto|by right]. Qed.

Lemma safe_bind {T T'} (m : RM S T) (k : T -> RM S T') P Q P' Q' :
  safe m P Q -> (forall x, P x -> safe (k x) P' Q') -> (forall x, Q x -> quiet (k x) Q') -> safe (rbind m k) P' Q'.
Proof.
  intros Hm Hk Hq r past rest c Hr. destruct (Hm r past rest c Hr) as (o & r1 & Hm1 & Ho). unfold rbind. rewrite Hm1.
  destruct o as [a|]; [|by eexists _, _]. destruct Ho as [[HP (past1 & rest1 & c1 & Hr1)]|HQ].
  - by apply (Hk a HP r1 past1 rest1 c1).
  - destruct (Hq a HQ r1) as (y & -> & HQ'). eexists _, _. split; [done|]. by right.
Qed.

Lemma safe_step {T T'} (o : option T) x (k : T -> RM S T') P Q :
  o = Some x -> safe (k x) P Q -> safe (rbind (rlift o) k) P Q.
Proof. intros -> Hk r past rest c Hr. by apply (Hk r past rest c). Qed.

Lemma safe_read {T} (k : option (list Z) -> RM S T) n P Q :
  0 <= n < 2 ^ 64 -> (forall bs, Z.of_nat (length bs) = n -> Forall is_byte bs -> safe (k (Some bs)) P Q) ->
  quiet (k None) Q -> safe (rbind (rread n) k) P Q.
Proof.
  intros Hn Hk Hq.
  apply (safe_bind _ _ (fun b => exists bs, b = Some bs /\ Z.of_nat (length bs) = n /\ Forall is_byte bs) (eq None)).
  - intros r past rest c Hr. unfold rread. destruct (Z.le_gt_cases n (Z.of_nat (length rest))) as [Hle|Hgt].
    + assert (Hlen : Z.of_nat (length (take (Z.to_nat n) rest)) = n) by (rewrite length_take; lia).
      pose proof (rep_bytes _ _ _ (ok_rep _ _ _ _ Hr)) as Hb.
      rewrite <- (take_drop (Z.to_nat n) rest) in Hr.
      destruct (read_stream Htable _ _ _ _ _ Hr) as (r' & Hrd & _ & Hok & _). rewrite Hlen in Hrd.
      rewrite Hrd. mstep. eexists _, _. split; [done|]. left. split; [|eauto].
      eexists. split_and!; [done|done|auto with bytes].
    + destruct (short_stream Htable r past rest c n Hr ltac:(lia)) as (r' & -> & _). mstep.
      eexists _, _. split; [done|]. by right.
  - intros ? (bs & -> & ? & ?). by apply Hk.
  - by intros ? <-.
Qed.

Lemma safe_corrupt {T} (a : T) (P Q : T -> Prop) : P a ->
  safe (rbind (rdbReportCorruptRDB env) (fun _ => rret a)) P Q.
Proof.
  intros HP r past rest c Hr. unfold rdbReportCorruptRDB, rout, rbind.
  destruct (rdbReportError env true); [|by eexists _, _]. eexists _, _. split; [done|]. left; eauto.
Qed.

Lemma byte_tags b : is_byte b -> 0 <= Z.land b 0x3F < 64.
Proof.
  intros Hb. pose proof (byte_forall (fun b => (0 <=? Z.land b 0x3F) && (Z.land b 0x3F <? 64)) eq_refl b Hb) as H.
  apply andb_true_iff in H as [H1 H2]. zbool. lia.
Qed.

Definition len_safe (r : option (bool * Z)) : Prop :=
  match r with None => True | Some (_, len) => inU 64 len end.

Lemma safe_len : safe (rdbLoadLenByRef (S:=S) env) len_safe (eq None).
Proof.
  assert (Hone : forall bs : list Z, Z.of_nat (length bs) = 1 -> exists b, bs = [b]).
  { intros [|b [|]] H; simpl in H; try lia. eauto. }
  unfold rdbLoadLenByRef. apply safe_read; [zpow; lia| |by apply quiet_ret].
  intros bs (b & ->)%Hone [Hb _]%Forall_cons. eapply safe_step; [done|]. pose proof (byte_tags b Hb) as Htag. cbv zeta.
  destruct (_ =? RDB_ENCVAL); [apply safe_ret; left; unfold len_safe, inU; zpow; lia|].
  destruct (_ =? RDB_6BITLEN); [apply safe_ret; left; unfold len_safe, inU; zpow; lia|].
  destruct (_ =? RDB_14BITLEN).
  { apply safe_read; [zpow; lia| |by apply quiet_ret]. intros bs (b1 & ->)%Hone [Hb1 _]%Forall_cons.
    eapply safe_step; [done|]. apply safe_ret. left. unfold len_safe, inU, is_byte in *.
    rewrite Z.lor_comm, lor_shiftl_add by (zpow; lia). zpow. lia. }
  destruct (b =? RDB_32BITLEN).
  { apply safe_read; [zpow; lia| |by apply quiet_ret]. intros bs Hl Hbs. eapply safe_step; [apply intrev32_eq|].
    apply safe_ret. left. unfold len_safe, inU. pose proof (be_decode_range (le_encode 4 (le_decode bs)) (le_encode_bytes _ _)) as H.
    rewrite length_le_encode in H. revert H. change (2 ^ (8 * Z.of_nat 4)) with (2 ^ 32). zpow. lia. }
  destruct (b =? RDB_64BITLEN).
  { apply safe_read; [zpow; lia| |by apply quiet_ret]. intros bs Hl Hbs. eapply safe_step; [apply intrev64_eq|].
    apply safe_ret. left. unfold len_safe, inU. pose proof (be_decode_range (le_encode 8 (le_decode bs)) (le_encode_bytes _ _)) as H.
    rewrite length_le_encode in H. revert H. change (2 ^ (8 * Z.of_nat 8)) with (2 ^ 64). zpow. lia. }
  by apply safe_corrupt.
Qed.

Lemma safe_loadlen :
  safe (rdbLoadLen (S:=S) env) (fun p => inU 64 (snd p)) (eq (false, RDB_LENERR)).
Proof.
  unfold rdbLoadLen. eapply safe_bind; [apply safe_len| |].
  - intros [[e len]|] Hl; apply safe_ret; left; [done|]. unfold inU, RDB_LENERR. cbn [snd]. zpow. lia.
  - intros ? <-. by apply quiet_ret.
Qed.

Lemma ztry_room n block : 0 <= n -> ztrymalloc_usable n = Some block -> n <= Z.of_nat (length block).
Proof.
  intros Hn. unfold ztrymalloc_usable. change ((2 ^ 64 - 1) / 2) with 9223372036854775807.
  destruct (_ >=? _) eqn:Ev; [done|]. rewrite Z.geb_leb in Ev. zbool.
  destruct (try_ok _); [|done]. intros [= <-]. unfold MALLOC_MIN_SIZE.
  destruct (n >? 0) eqn:E0; zbool; [|lia]. destruct (malloc_usable_ok n) as [? _]; [zpow; lia|lia].
Qed.

(** A block of memory that holds the string that was announced, or [NULL] *)
Definition plain_ok (l : loaded) : Prop :=
  match l_val l with
  | None => True
  | Some (VPlain block) => exists n, l_len l = Some n /\ 0 <= n <= Z.of_nat (length block)
  | Some _ => False
  end.

Lemma safe_integer_value flags want v :
  plain_flag flags = true -> inS 64 v -> safe (integer_value (S:=S) server flags want v) plain_ok plain_ok.
Proof.
  intros Hp Hv. unfold integer_value. rewrite Hp. cbn [orb].
  destruct (ll2string_fits (stack_buf LONG_STR_SIZE) v Hv) as (t & Ht & Hpr); [by rewrite stack_buf_length|].
  eapply safe_step; [exact Hpr|]. cbv iota beta. eapply safe_step; [by apply mload_app_l|].
  pose proof (signed_decimal_short _ _ Hv Ht).
  pose proof (zmalloc_room (Z.of_nat (length t)) ltac:(zpow; lia)) as Hroom.
  set (block := zmalloc_usable (Z.of_nat (length t))). assert (Hl : (length t <= length block)%nat).
  { unfold block, zmalloc_usable. lia. }
  assert (Hst : mstore block 0 t = Some (t ++ drop (length t) block)).
  { rewrite <- (take_drop (length t) block) at 1. apply mstore_app_l. rewrite length_take. lia. }
  eapply safe_step; [exact Hst|]. apply safe_ret. left. cbn. eexists. split; [done|].
  rewrite length_app, length_drop. lia.
Qed.

Lemma safe_integer enctype flags want :
  plain_flag flags = true -> safe (rdbLoadIntegerObject (S:=S) env server enctype flags want) plain_ok plain_ok.
Proof.
  intros Hp. unfold rdbLoadIntegerObject. cbv zeta.
  assert (Hend : forall w x, 1 <= w <= 64 -> safe (integer_value (S:=S) server flags want (wrapS w x)) plain_ok plain_ok).
  { intros w x Hw. apply safe_integer_value; [done|]. pose proof (wrapS_range w x ltac:(lia)) as H.
    unfold inS in *. pose proof (Z.pow_le_mono_r 2 (w - 1) (64 - 1) ltac:(lia) ltac:(lia)). lia. }
  repeat (destruct (_ =? _);
    [apply safe_read; [zpow; lia| |by apply quiet_ret]; intros bs Hl Hb;
     repeat match goal with |- safe (rbind (rlift (rd bs ?i)) _) _ _ =>
       destruct (rd_Some bs i ltac:(lia)) as (? & ? & _); eapply safe_step; [done|] end; apply Hend; lia|]).
  by apply safe_corrupt.
Qed.

Lemma store_room (block bs : list Z) : (length bs <= length block)%nat ->
  mstore block 0 bs = Some (bs ++ drop (length bs) block).
Proof.
  intros Hl. rewrite <- (take_drop (length bs) block) at 1. apply mstore_app_l. rewrite length_take. lia.
Qed.

Lemma safe_lzf flags want :
  plain_flag flags = true -> safe (rdbLoadLzfStringObject (S:=S) env flags want) plain_ok plain_ok.
Proof.
  intros Hp. unfold rdbLoadLzfStringObject. cbv zeta. rewrite Hp.
  apply (safe_bind _ _ _ _ _ _ safe_loadlen); [|intros ? <-; by apply quiet_ret].
  intros [e1 clen] Hc. cbn [snd] in Hc. destruct (clen =? RDB_LENERR); [by apply safe_ret; left|].
  apply (safe_bind _ _ _ _ _ _ safe_loadlen); [|intros ? <-; by apply quiet_ret].
  intros [e2 len] Hl. cbn [snd] in Hl. destruct (len =? RDB_LENERR); [by apply safe_ret; left|].
  destruct (ztrymalloc_usable clen); [|by apply safe_ret; left].
  destruct (ztrymalloc_usable len) as [block|] eqn:Eb; [|by apply safe_ret; left].
  unfold inU in Hc, Hl. apply ztry_room in Eb; [|lia].
  apply safe_read; [done| |by apply quiet_ret]. intros cs _ Hcs.
  eapply safe_step; [apply mload_Some; lia|]. set (old := take _ _).
  assert (Hold : Z.of_nat (length old) = len) by (unfold old; rewrite length_take, length_drop; lia).
  destruct (decompress_loop_safe (length cs) cs old 0 0 Hcs) as (res & out & Hd & Hlo & _); [lia..|].
  eapply safe_step; [exact Hd|]. cbv iota beta. eapply safe_step; [apply store_room; lia|].
  destruct (negb _); [by apply safe_corrupt|]. apply safe_ret. left. cbn. eexists. split; [done|].
  rewrite length_app, length_drop. lia.
Qed.

Lemma safe_load flags want :
  plain_flag flags = true -> safe (rdbGenericLoadStringObjectUsable (S:=S) env server flags want) plain_ok plain_ok.
Proof.
  intros Hp. unfold rdbGenericLoadStringObjectUsable. cbv zeta. rewrite Hp. cbn [orb negb].
  apply (safe_bind _ _ _ _ _ _ safe_loadlen); [|intros ? <-; by apply quiet_ret].
  intros [isenc len] Hl. cbn [snd] in Hl. destruct (len =? RDB_LENERR); [by apply safe_ret; left|].
  destruct isenc.
  { destruct (_ || _); [by apply safe_integer|]. destruct (len =? RDB_ENC_LZF); [by apply safe_lzf|].
    by apply safe_corrupt. }
  destruct (ztrymalloc_usable len) as [block|] eqn:Eb; [|by apply safe_ret; left].
  unfold inU in Hl. apply ztry_room in Eb; [|lia].
  destruct (len =? 0); [apply safe_ret; left; cbn; eexists; split; [done|lia]|].
  apply safe_read; [done| |by apply quiet_ret]. intros bs Hbs _.
  eapply safe_step; [apply store_room; lia|]. apply safe_ret. left. cbn. eexists. split; [done|].
  rewrite length_app, length_drop. lia.
Qed.
End hostile.

(** ** The properties *)

Section properties.
Context {S : Type} `{B : RioBackend S} `{L : !RioLaws S} `{E : CrcEnv}.
Context `{A : Allocator} `{!AllocatorLaws A} `{!EmbstrLaws A}.
Context (env : rdb_env) (server : server_state).

(** C21: lengths are stored without loss. Every 64-bit length is written in one,
    two, five or nine bytes, the same number is returned when there is no
    stream; from these bytes it is read back, not marked as encoded, and
    nothing more is taken from the stream; and a stream that ends inside of
    them gives the error. *)
Theorem rdb_len_roundtrip t0 len :
  crc64_init t0 = Some crc_table -> inU 64 len ->
  saves (S:=S) (fun rdb => rdbSaveLen rdb len) (len_bytes len) (Z.of_nat (length (len_bytes len))) /\
  loads (S:=S) (rdbLoadLenByRef env) (len_bytes len) (eq (Some (false, len))) /\
  cut (S:=S) (rdbLoadLenByRef env) (len_bytes len) (eq None) /\
  Z.of_nat (length (len_bytes len)) =
    (if len <? 64 then 1 else if len <? 16384 then 2 else if len <? 2 ^ 32 then 5 else 9).
Proof.
  intros Hinit Hl. pose proof (init_table _ Hinit) as Ht. split_and!.
  - by apply saves_len.
  - by apply reads_len.
  - by apply reads_len.
  - unfold len_bytes. destruct (len <? 64); [done|]. destruct (len <? 16384); [done|].
    assert (Heq : (len <=? UINT32_MAX) = (len <? 2 ^ 32)).
    { apply eq_true_iff_eq. rewrite Z.leb_le, Z.ltb_lt. zpow. lia. }
    rewrite Heq. destruct (len <? 2 ^ 32); cbn [length]; by rewrite be_encode_length.
Qed.

(** C19: strings survive being stored. Whatever the encoding of a string object
    (an integer, an embedded string, a separate one), with or without
    compression and whatever the hash table of the compressor holds,
    [rdbSaveStringObject] writes some bytes and returns their number; from
    these bytes [rdbGenericLoadStringObjectUsable] gives the same string, in
    the form that the flags ask for (a block, a dynamic string, an object),
    and takes nothing more from the stream. *)
Theorem rdb_string_roundtrip t0 compression htab o s :
  crc64_init t0 = Some crc_table -> obj_str o s -> can_alloc (Z.of_nat (length s)) -> (forall i, slot_ok (htab i)) ->
  exists bs, saves (S:=S) (fun rdb => rdbSaveStringObject compression htab rdb o) bs (Z.of_nat (length bs)) /\
    forall flags want, loads (S:=S) (rdbGenericLoadStringObjectUsable env server flags want) bs (val_str flags s).
Proof.
  intros Hinit Ho Htry Hht. destruct (obj_str_bytes _ _ Ho) as [Hb Hl]. pose proof (init_table _ Hinit) as Ht.
  destruct (saves_object Ht compression htab o s Ho Hht) as (bs & Hsave & Hst).
  exists bs. split; [done|]. intros flags want. by apply reads_stored.
Qed.

(** A string that is cut short is refused. When the stream ends inside of
    the bytes of a stored string (as an integer, compressed or verbatim)
    loading returns [NULL] for every choice of flags and the stream is marked
    as broken; it neither exits nor returns a part of the string. *)
Theorem rdb_string_truncated t0 s bs flags want :
  crc64_init t0 = Some crc_table -> stored s bs -> Forall is_byte s -> Z.of_nat (length s) <= SDS_LIMIT ->
  can_alloc (Z.of_nat (length s)) ->
  cut (S:=S) (rdbGenericLoadStringObjectUsable env server flags want) bs null_val.
Proof. intros Hinit Hst Hb Hl Htry. pose proof (init_table _ Hinit). by eapply reads_stored. Qed.

(** C20: a payload cannot make the loader go out of bounds. Whatever bytes the
    stream holds, in whatever context, loading a string to a plain block (the
    way the payloads of all packed collections are loaded) reads and writes
    inside of its blocks only; if it returns a block, the announced length is
    inside of the block. *)
Theorem rdb_load_plain_safe t0 flags want r past rest c :
  crc64_init t0 = Some crc_table -> plain_flag flags = true -> rio_ok (S:=S) r past rest c ->
  exists o r', rdbGenericLoadStringObjectUsable env server flags want r = Some (o, r') /\
    match o with Exits => True | Returns l => plain_ok l end.
Proof.
  intros Hinit Hp Hr. pose proof (init_table _ Hinit) as Ht.
  destruct (safe_load Ht env server flags want Hp r past rest c Hr) as (o & r' & Hm & Ho).
  exists o, r'. split; [done|]. destruct o; [|done]. destruct Ho as [[? _]|?]; done.
Qed.
End properties.

(** ** The properties on a concrete stream *)

#[local] Existing Instance ex_crc_env.
#[local] Existing Instance block_allocator.
#[local] Existing Instance block_allocator_laws.
#[local] Existing Instance block_allocator_embstr.

Definition ex_env : rdb_env := mkRdbEnv true false None.
Definition ex_server : server_state := mkServer 0 0 false.

(** The string <<hello>>, in an object *)
Definition ex_hello : list Z := [104; 101; 108; 108; 111].
Definition ex_obj : robj :=
  default (createObject OBJ_STRING PNULL) (createStringObject (INIT ex_hello) 5).

Lemma ex_obj_ok : obj_str ex_obj ex_hello.
Proof.
  destruct (@string_object block_allocator _ _ ex_hello []) as (o & Ho & Hs & _); [by repeat constructor|done|].
  rewrite app_nil_r in Ho. unfold ex_obj. change 5 with (Z.of_nat (length ex_hello)). by rewrite Ho.
Qed.

(** A buffer with some contents *)
Definition ex_stream (bs : list Z) : rio rio_buffer :=
  rioInitWithBuffer ex_globals (default ex_sds (sdsnewlen (INIT bs) (Z.of_nat (length bs)))).

Lemma ex_stream_ok bs :
  Forall is_byte bs -> Z.of_nat (length bs) <= SDS_LIMIT -> rio_ok (ex_stream bs) [] bs 0.
Proof.
  intros Hb Hl. destruct (@sdsnewlen_ok block_allocator _ (INIT bs) bs Hb Hl) as (s & Hs & Hok); [by left|].
  unfold ex_stream. rewrite Hs. by apply (@init_ok block_allocator _ ex_globals s bs 0 NoChecksum); [left| | |].
Qed.

Lemma rdb_len_roundtrip_witness :
  rdbSaveLen (S:=rio_buffer) None 70000 = Some (5, None) /\
  exists r', rdbLoadLenByRef ex_env (ex_stream (len_bytes 70000))
    = Some (Returns (Some (false, 70000)), r').
Proof.
  destruct (@rdb_len_roundtrip rio_buffer _ _ _ ex_env (fun _ _ => 0) 70000
    ex_crc_init) as ([H1 _] & H2 & _); [by vm_compute|].
  split; [exact H1|].
  destruct (H2 (ex_stream (len_bytes 70000)) [] [] 0) as (a & r' & Hl & <- & _).
  - rewrite app_nil_r. apply ex_stream_ok; [apply len_bytes_ok|]; by vm_compute.
  - exists r'. exact Hl.
Defined.

Lemma rdb_string_roundtrip_witness :
  exists bs, rdbSaveStringObject (S:=rio_buffer) true (fun _ => 0) None ex_obj = Some (Z.of_nat (length bs), None) /\
    loads (S:=rio_buffer) (rdbGenericLoadStringObjectUsable ex_env ex_server RDB_LOAD_SDS true) bs
      (val_str RDB_LOAD_SDS ex_hello).
Proof.
  destruct (@rdb_string_roundtrip rio_buffer _ _ _ block_allocator _ _ ex_env ex_server
    (fun _ _ => 0) true (fun _ => 0) ex_obj ex_hello ex_crc_init ex_obj_ok) as (bs & [H1 _] & H2).
  - done.
  - intros i. by vm_compute.
  - exists bs. split; [exact H1|exact (H2 RDB_LOAD_SDS true)].
Defined.

Lemma rdb_string_truncated_witness :
  exists l r', rdbGenericLoadStringObjectUsable ex_env ex_server RDB_LOAD_NONE false (ex_stream [5; 104; 101])
      = Some (Returns l, r') /\
    l_val l = None /\ rioGetReadError r' = true.
Proof.
  destruct (@rdb_string_truncated rio_buffer _ _ _ block_allocator _ _ ex_env ex_server
    (fun _ _ => 0) ex_hello (5 :: ex_hello) RDB_LOAD_NONE false ex_crc_init (stored_verbatim ex_hello))
    with (r := ex_stream [5; 104; 101]) (past := @nil Z) (pre := [5; 104; 101]) (suf := [108; 108; 111]) (c := 0)
    as (l & r' & H1 & H2 & H3).
  - by repeat constructor.
  - done.
  - done.
  - apply ex_stream_ok; [by repeat constructor|done].
  - done.
  - done.
  - exists l, r'. split_and!; [exact H1|exact H2|exact H3].
Defined.

Lemma rdb_load_plain_safe_witness :
  exists o r', rdbGenericLoadStringObjectUsable ex_env ex_server RDB_LOAD_PLAIN true (ex_stream [0xC3; 2; 9; 0xE0; 255]) = Some (o, r') /\
    match o with Exits => True | Returns l => plain_ok l end.
Proof.
  apply (@rdb_load_plain_safe rio_buffer _ _ _ block_allocator _ ex_env ex_server
    (fun _ _ => 0) RDB_LOAD_PLAIN true (ex_stream [0xC3; 2; 9; 0xE0; 255]) [] [0xC3; 2; 9; 0xE0; 255] 0 ex_crc_init).
  - done.
  - apply ex_stream_ok; [by repeat constructor|done].
Defined.

(** A length that is close to 2^64: the allocation of a dynamic string of
    that length does not fail, an assertion does. *)
Example huge_length_asserts :
  rdbGenericLoadStringObject ex_env ex_server
    RDB_LOAD_NONE (ex_stream [0x81; 255; 255; 255; 255; 255; 255; 255; 254]) = None.
Proof. vm_compute. reflexivity. Qed.
