(* ===== verification/Bitops.v ===== *)
(** * Bitmaps ([bitops.c])

    A string as an array of bits, the first bit being the most significant of
    the first byte. [redisPopcount] counts the ones and [redisBitpos] finds
    the first one or zero, a word at a time where the alignment allows it; the
    bitfield functions read and write integers of any width at any bit, and
    detect overflow. The theorems compare each of them with the list of the
    bits ([bits_of]), which is also how they compose.

    A pointer into the string with the count of the bytes left is the list of
    these bytes; [addr] is the address, on which the alignment depends. *)

From S2P Require Import Prelude Gf2.

#[local] Open Scope Z_scope.

(** ** Counting *)

Definition B2 (n : Z) : list Z := [n; n + 1; n + 1; n + 2].
Definition B4 (n : Z) : list Z := B2 n ++ B2 (n + 1) ++ B2 (n + 1) ++ B2 (n + 2).
Definition B6 (n : Z) : list Z := B4 n ++ B4 (n + 1) ++ B4 (n + 1) ++ B4 (n + 2).
Definition bitsinbyte : list Z := B6 0 ++ B6 1 ++ B6 1 ++ B6 2.

(** The builtin of the compiler: the number of ones in a word *)
Fixpoint ones (n : nat) (v : Z) : Z :=
  match n with O => 0 | S n => Z.b2z (Z.testbit v (Z.of_nat n)) + ones n v end.
Definition popcountll (v : Z) : Z := ones 64 v.

Fixpoint pop_align (align addr : Z) (p : list Z) (bits : Z) : option (list Z * Z) :=
  match p with
  | [] => Some ([], bits)
  | b :: p' =>
      if Z.land addr align =? 0 then Some (p, bits) else
      n ← rd bitsinbyte b; pop_align align (u64 (addr + 1)) p' (bits + n)
  end.

(** [*(uint64_t* )(p + i)] and [*p4++] *)
Definition load64 (p : list Z) (i : Z) : option Z := bs ← mload p i 8; Some (le_decode bs).
Definition load32 (p : list Z) (i : Z) : option Z := bs ← mload p i 4; Some (le_decode bs).

Fixpoint pop_loop32 (fuel : nat) (p : list Z) (cnt0 cnt1 cnt2 cnt3 : Z) : option (list Z * Z) :=
  if Z.of_nat (length p) >=? 32 then
    match fuel with
    | O => None
    | S fuel =>
        w0 ← load64 p 0; w1 ← load64 p 8; w2 ← load64 p 16; w3 ← load64 p 24;
        pop_loop32 fuel (drop 32 p) (u64 (cnt0 + popcountll w0)) (u64 (cnt1 + popcountll w1))
          (u64 (cnt2 + popcountll w2)) (u64 (cnt3 + popcountll w3))
    end
  else Some (p, u64 (cnt0 + cnt1 + cnt2 + cnt3)).

Definition pop_aux (aux : Z) : Z :=
  let aux := u32 (aux - Z.land (Z.shiftr aux 1) 0x55555555) in
  u32 (Z.land aux 0x33333333 + Z.land (Z.shiftr aux 2) 0x33333333).

Definition pop_nibbles (aux : Z) : Z := Z.land (u32 (aux + Z.shiftr aux 4)) 0x0F0F0F0F.

Fixpoint pop_loop28 (fuel : nat) (p : list Z) (bits : Z) : option (list Z * Z) :=
  if Z.of_nat (length p) >=? 28 then
    match fuel with
    | O => None
    | S fuel =>
        aux1 ← load32 p 0; aux2 ← load32 p 4; aux3 ← load32 p 8; aux4 ← load32 p 12;
        aux5 ← load32 p 16; aux6 ← load32 p 20; aux7 ← load32 p 24;
        let n aux := pop_nibbles (pop_aux aux) in
        let sum := u32 (n aux1 + n aux2 + n aux3 + n aux4 + n aux5 + n aux6 + n aux7) in
        pop_loop28 fuel (drop 28 p) (bits + Z.shiftr (u32 (sum * 0x01010101)) 24)
    end
  else Some (p, bits).

Fixpoint pop_remain (p : list Z) (bits : Z) : option Z :=
  match p with
  | [] => Some bits
  | b :: p => n ← rd bitsinbyte b; pop_remain p (bits + n)
  end.

(** [use_popcnt] is whether the processor has the instruction. *)
Definition redisPopcount (use_popcnt : bool) (addr : Z) (s : list Z) : option Z :=
  let align := if use_popcnt then 7 else 3 in
  '(p, bits) ← pop_align align addr s 0;
  if use_popcnt then
    '(p, cnt) ← pop_loop32 (length p) p 0 0 0 0;
    pop_remain p (bits + cnt)
  else
    '(p, bits) ← pop_loop28 (length p) p bits;
    pop_remain p bits.

(** ** Searching *)

(** [found], the bytes left and the position *)
Fixpoint bitpos_align (skipval addr : Z) (c : list Z) (pos : Z) : bool * list Z * Z :=
  match c with
  | [] => (false, [], pos)
  | b :: c' =>
      if Z.land addr 7 =? 0 then (false, c, pos) else
      if negb (b =? skipval) then (true, c, pos)
      else bitpos_align skipval (u64 (addr + 1)) c' (pos + 8)
  end.

Fixpoint bitpos_words (fuel : nat) (skipval : Z) (l : list Z) (pos : Z) : option (list Z * Z) :=
  if Z.of_nat (length l) >=? 8 then
    match fuel with
    | O => None
    | S fuel =>
        w ← load64 l 0;
        if negb (w =? skipval) then Some (l, pos)
        else bitpos_words fuel skipval (drop 8 l) (pos + 64)
    end
  else Some (l, pos).

Fixpoint bitpos_load (n : nat) (c : list Z) (word : Z) : Z :=
  match n with
  | O => word
  | S n =>
      let word := u64 (Z.shiftl word 8) in
      match c with
      | [] => bitpos_load n [] word
      | b :: c => bitpos_load n c (Z.lor word b)
      end
  end.

(** The panic at the end is [None]. *)
Fixpoint bitpos_scan (n : nat) (one word : Z) (bit : bool) (pos : Z) : option Z :=
  match n with
  | O => None
  | S n =>
      if one =? 0 then None
      else if eqb (negb (Z.land one word =? 0)) bit then Some pos
      else bitpos_scan n (Z.shiftr one 1) word bit (pos + 1)
  end.

(** The position is a [long long] in the code and unbounded here: they agree
    for strings of less than 2^60 bytes. *)
Definition redisBitpos (addr : Z) (s : list Z) (bit : bool) : option Z :=
  let '(found, c, pos) := bitpos_align (if bit then 0 else 255) addr s 0 in
  '(l, pos) ← (if found then Some (c, pos)
               else bitpos_words (length c) (if bit then 0 else UINT64_MAX) c pos);
  let word := bitpos_load 8 l 0 in
  if bit && (word =? 0) then Some (-1) else
  let one := u64 (Z.lnot (Z.shiftr UINT64_MAX 1)) in
  bitpos_scan 65 one word bit pos.

(** ** Bitfields *)

(** Turn [j] of the loop, for [j] from [bits - n] *)
Fixpoint set_bits (n : nat) (p : list Z) (offset value : Z) : option (list Z) :=
  match n with
  | O => Some p
  | S n =>
      let bitval := Z.b2z (negb (Z.land value (u64 (Z.shiftl 1 (Z.of_nat n))) =? 0)) in
      let byte := Z.shiftr offset 3 in
      let bit := 7 - Z.land offset 0x7 in
      byteval ← rd p byte;
      let byteval := Z.land byteval (u64 (Z.lnot (Z.shiftl 1 bit))) in
      let byteval := Z.lor byteval (u64 (Z.shiftl bitval bit)) in
      p ← mstore p byte [Z.land byteval 0xff];
      set_bits n p (u64 (offset + 1)) value
  end.

Definition setUnsignedBitfield (p : list Z) (offset bits value : Z) : option (list Z) :=
  set_bits (Z.to_nat bits) p offset value.

Definition setSignedBitfield (p : list Z) (offset bits value : Z) : option (list Z) :=
  setUnsignedBitfield p offset bits (u64 value).

Fixpoint get_bits (n : nat) (p : list Z) (offset value : Z) : option Z :=
  match n with
  | O => Some value
  | S n =>
      let byte := Z.shiftr offset 3 in
      let bit := 7 - Z.land offset 0x7 in
      byteval ← rd p byte;
      let bitval := Z.land (Z.shiftr byteval bit) 1 in
      get_bits n p (u64 (offset + 1)) (Z.lor (u64 (Z.shiftl value 1)) bitval)
  end.

Definition getUnsignedBitfield (p : list Z) (offset bits : Z) : option Z :=
  get_bits (Z.to_nat bits) p offset 0.

Definition getSignedBitfield (p : list Z) (offset bits : Z) : option Z :=
  u ← getUnsignedBitfield p offset bits;
  let value := s64 u in
  if (bits <? 64) && negb (Z.land (u64 value) (u64 (Z.shiftl 1 (bits - 1))) =? 0)
  then Some (s64 (Z.lor (u64 value) (u64 (Z.shiftl UINT64_MAX bits))))
  else Some value.

Inductive overflow := BFOVERFLOW_WRAP | BFOVERFLOW_SAT | BFOVERFLOW_FAIL.

(** The returned value, and what is stored in [*limit] *)
Definition checkUnsignedBitfieldOverflow (value incr bits : Z) (owtype : overflow) : Z * option Z :=
  let max := if bits =? 64 then UINT64_MAX else u64 (u64 (Z.shiftl 1 bits) - 1) in
  let maxincr := s64 (u64 (max - value)) in
  let minincr := s64 (u64 (- value)) in
  let handle_wrap :=
    let mask := u64 (Z.shiftl UINT64_MAX bits) in
    let res := u64 (value + incr) in
    (1, Some (Z.land res (u64 (Z.lnot mask)))) in
  if (value >? max) || ((incr >? 0) && (incr >? maxincr)) then
    match owtype with
    | BFOVERFLOW_WRAP => handle_wrap
    | BFOVERFLOW_SAT => (1, Some max)
    | BFOVERFLOW_FAIL => (1, None)
    end
  else if (incr <? 0) && (incr <? minincr) then
    match owtype with
    | BFOVERFLOW_WRAP => handle_wrap
    | BFOVERFLOW_SAT => (-1, Some 0)
    | BFOVERFLOW_FAIL => (-1, None)
    end
  else (0, None).

(** [min-value] can overflow before [value] is checked; it wraps around, and
    is not used then. *)
Definition checkSignedBitfieldOverflow (value incr bits : Z) (owtype : overflow) : Z * option Z :=
  let max := if bits =? 64 then INT64_MAX else Z.shiftl 1 (bits - 1) - 1 in
  let min := - max - 1 in
  let maxincr := s64 (u64 (max - value)) in
  let minincr := s64 (min - value) in
  let handle_wrap :=
    let msb := u64 (Z.shiftl 1 (bits - 1)) in
    let c := u64 (u64 value + u64 incr) in
    let c :=
      if bits <? 64 then
        let mask := u64 (Z.shiftl UINT64_MAX bits) in
        if negb (Z.land c msb =? 0) then Z.lor c mask else Z.land c (u64 (Z.lnot mask))
      else c in
    (1, Some (s64 c)) in
  if (value >? max) || (negb (bits =? 64) && (incr >? maxincr)) ||
     ((value >=? 0) && (incr >? 0) && (incr >? maxincr)) then
    match owtype with
    | BFOVERFLOW_WRAP => handle_wrap
    | BFOVERFLOW_SAT => (1, Some max)
    | BFOVERFLOW_FAIL => (1, None)
    end
  else if (value <? min) || (negb (bits =? 64) && (incr <? minincr)) ||
          ((value <? 0) && (incr <? 0) && (incr <? minincr)) then
    match owtype with
    | BFOVERFLOW_WRAP => handle_wrap
    | BFOVERFLOW_SAT => (-1, Some min)
    | BFOVERFLOW_FAIL => (-1, None)
    end
  else (0, None).

(** ** The bits of a string *)

(** The [n] low bits of a number, the most significant first *)
Fixpoint zbits (n : nat) (v : Z) : list bool :=
  match n with O => [] | S n => Z.testbit v (Z.of_nat n) :: zbits n v end.

Definition bits_of (p : list Z) : list bool := p ≫= zbits 8.

Lemma length_zbits n v : length (zbits n v) = n.
Proof. induction n; simpl; auto. Qed.

Lemma bits_of_cons b p : bits_of (b :: p) = zbits 8 b ++ bits_of p.
Proof. done. Qed.

Lemma bits_of_app p q : bits_of (p ++ q) = bits_of p ++ bits_of q.
Proof. apply bind_app. Qed.

Lemma length_bits_of p : length (bits_of p) = (8 * length p)%nat.
Proof.
  induction p as [|b p IH]; [done|]. rewrite bits_of_cons, length_app, length_zbits, IH. simpl length. lia.
Qed.

Lemma zbits_app n m v : zbits (n + m) v = zbits n (Z.shiftr v (Z.of_nat m)) ++ zbits m v.
Proof.
  induction n as [|n IH]; [done|]. cbn [Nat.add zbits app]. f_equal; [|done].
  rewrite Z.shiftr_spec by lia. f_equal. lia.
Qed.

Lemma zbits_ext n v w : (forall i, 0 <= i < Z.of_nat n -> Z.testbit v i = Z.testbit w i) -> zbits n v = zbits n w.
Proof.
  induction n as [|n IH]; intros H; [done|]. cbn [zbits]. f_equal; [apply H; lia|]. apply IH. intros. apply H. lia.
Qed.

Lemma zbits_bits n v w : zbits n v = zbits n w -> forall i, 0 <= i < Z.of_nat n -> Z.testbit v i = Z.testbit w i.
Proof.
  induction n as [|n IH]; intros H i Hi; [lia|]. cbn [zbits] in H. injection H as H1 H2.
  destruct (Z.eq_dec i (Z.of_nat n)) as [->|]; [done|]. apply IH; [done|lia].
Qed.

(** Numbers of a width with the same bits are equal. *)
Lemma zbits_inj n v w : zbits n v = zbits n w -> wrapU (Z.of_nat n) v = wrapU (Z.of_nat n) w.
Proof.
  intros H. unfold wrapU. apply Z.bits_inj'. intros i Hi. destruct (Z.lt_ge_cases i (Z.of_nat n)).
  - rewrite !Z.mod_pow2_bits_low by lia. apply (zbits_bits n); [done|lia].
  - by rewrite !Z.mod_pow2_bits_high by lia.
Qed.

(** A bit that is moved in from the right *)
Lemma zbits_snoc n v b : zbits (S n) (Z.lor (Z.shiftl v 1) (Z.b2z b)) = zbits n v ++ [b].
Proof.
  replace (S n) with (n + 1)%nat by lia. rewrite zbits_app. f_equal.
  - f_equal. rewrite Z.shiftr_lor, Z.shiftr_shiftl_l by lia. replace (Z.shiftr (Z.b2z b) _) with 0 by (by destruct b).
    by rewrite Z.lor_0_r, Z.shiftl_0_r.
  - cbn [zbits]. f_equal. rewrite Z.lor_spec, Z.shiftl_spec by lia. by destruct b, v.
Qed.

(** ** Bitfields *)

Lemma offset_split off : 0 <= off ->
  off = 8 * Z.shiftr off 3 + Z.land off 7 /\ 0 <= Z.land off 7 < 8 /\ 0 <= Z.shiftr off 3.
Proof.
  intros Ho. change 7 with (Z.ones 3). rewrite Z.land_ones, Z.shiftr_div_pow2 by lia. change (2 ^ 3) with 8.
  pose proof (Z.div_mod off 8 ltac:(lia)). pose proof (Z.mod_pos_bound off 8 ltac:(lia)).
  pose proof (Z.div_pos off 8 ltac:(lia) ltac:(lia)). lia.
Qed.

(** The bit at an offset is a bit of a byte. *)
Lemma bits_of_mid p1 b p2 k : (k < 8)%nat ->
  bits_of (p1 ++ b :: p2) !! (8 * length p1 + k)%nat = zbits 8 b !! k.
Proof.
  intros Hk. rewrite bits_of_app, bits_of_cons, lookup_app_r by (rewrite length_bits_of; lia).
  rewrite length_bits_of, lookup_app_l by (rewrite length_zbits; lia). f_equal. lia.
Qed.

Lemma bits_insert_mid p1 b b' p2 k x : (k < 8)%nat -> zbits 8 b' = <[k := x]> (zbits 8 b) ->
  bits_of (p1 ++ b' :: p2) = <[(8 * length p1 + k)%nat := x]> (bits_of (p1 ++ b :: p2)).
Proof.
  intros Hk Hb. rewrite !bits_of_app, !bits_of_cons, Hb.
  rewrite <- (length_bits_of p1), insert_app_r, insert_app_l by (rewrite length_zbits; lia). done.
Qed.

(** Testing a bit with a mask *)
Lemma mask_test v n : 0 <= n < 64 -> negb (Z.land v (u64 (Z.shiftl 1 n)) =? 0) = Z.testbit v n.
Proof.
  intros Hn. rewrite Z.shiftl_1_l. rewrite wrapU_id.
  2: { unfold inU. split; [apply Z.pow_nonneg; lia|]. apply Z.pow_lt_mono_r; lia. }
  destruct (Z.testbit v n) eqn:E.
  - apply negb_true_iff, Z.eqb_neq. intros H0. apply (f_equal (fun x => Z.testbit x n)) in H0.
    by rewrite Z.land_spec, Z.pow2_bits_true, E, Z.bits_0 in H0 by lia.
  - apply negb_false_iff, Z.eqb_eq, Z.bits_inj'. intros i Hi. rewrite Z.land_spec, Z.bits_0.
    destruct (Z.eq_dec i n) as [->|]; [by rewrite E|]. rewrite Z.pow2_bits_false by lia. apply andb_false_r.
Qed.

Definition set_bit_of (b k : Z) (x : bool) : Z :=
  Z.land (Z.lor (Z.land b (u64 (Z.lnot (Z.shiftl 1 (7 - k))))) (u64 (Z.shiftl (Z.b2z x) (7 - k)))) 0xff.

Lemma eight k (P : Z -> Prop) : 0 <= k < 8 -> P 0 -> P 1 -> P 2 -> P 3 -> P 4 -> P 5 -> P 6 -> P 7 -> P k.
Proof. intros Hk. assert (k = 0 \/ k = 1 \/ k = 2 \/ k = 3 \/ k = 4 \/ k = 5 \/ k = 6 \/ k = 7) by lia. naive_solver. Qed.

(** An equation on a byte, by evaluation on all of them *)
Lemma byte_equation {T} `{EqDecision T} (f g : Z -> T) :
  forallb (fun n => bool_decide (f (Z.of_nat n) = g (Z.of_nat n))) (seq 0 256) = true ->
  forall b, is_byte b -> f b = g b.
Proof.
  intros H b Hb. pose proof (byte_forall (fun b => bool_decide (f b = g b)) H b Hb) as Hd.
  by apply bool_decide_eq_true in Hd.
Qed.

Lemma set_bit_bits b k x : is_byte b -> 0 <= k < 8 -> zbits 8 (set_bit_of b k x) = <[Z.to_nat k := x]> (zbits 8 b).
Proof.
  intros Hb Hk. pattern k. apply (eight k); [done|..]; revert b Hb; apply byte_equation; by destruct x; vm_compute.
Qed.

Lemma get_bit_bits b k : is_byte b -> 0 <= k < 8 ->
  exists x, Z.land (Z.shiftr b (7 - k)) 1 = Z.b2z x /\ zbits 8 b !! Z.to_nat k = Some x.
Proof.
  intros Hb Hk. exists (Z.testbit b (7 - k)). split.
  - change 1 with (Z.ones 1). rewrite Z.land_ones, <- Z.bit0_mod by lia. by rewrite Z.shiftr_spec.
  - pattern k. apply (eight k); [exact Hk|reflexivity..].
Qed.

Section fields.
Context (p : list Z).
Hypothesis Hbytes : Forall is_byte p.

(** The byte that an offset is in *)
Lemma offset_byte off : 0 <= off < 8 * Z.of_nat (length p) ->
  exists p1 b p2, p = p1 ++ b :: p2 /\ Z.shiftr off 3 = Z.of_nat (length p1) /\ is_byte b /\
    rd p (Z.shiftr off 3) = Some b /\ Z.to_nat off = (8 * length p1 + Z.to_nat (Z.land off 7))%nat.
Proof.
  intros Ho. destruct (offset_split off ltac:(lia)) as (H1 & H2 & H3).
  destruct (rd_Some p (Z.shiftr off 3) ltac:(lia)) as (b & Hb & _).
  destruct (rd_inv _ _ _ Hb) as [_ Hl]. pose proof (Forall_lookup_1 _ _ _ _ Hbytes Hl) as Hbb.
  exists (take (Z.to_nat (Z.shiftr off 3)) p), b, (drop (S (Z.to_nat (Z.shiftr off 3))) p).
  apply lookup_lt_Some in Hl as Hlt. rewrite length_take.
  split_and!; [by rewrite take_drop_middle|lia|done|done|lia].
Qed.

Lemma set_one off x : 0 <= off < 8 * Z.of_nat (length p) ->
  exists b p', rd p (Z.shiftr off 3) = Some b /\
    mstore p (Z.shiftr off 3) [set_bit_of b (Z.land off 7) x] = Some p' /\
    bits_of p' = <[Z.to_nat off := x]> (bits_of p) /\ length p' = length p /\ Forall is_byte p'.
Proof.
  intros Ho. destruct (offset_byte off Ho) as (p1 & b & p2 & Hp & Hl & Hb & Hrd & Hoff).
  destruct (offset_split off ltac:(lia)) as (_ & Hk & _).
  exists b, (p1 ++ set_bit_of b (Z.land off 7) x :: p2). split_and!; [done| | | |].
  - rewrite Hp. by apply (mstore_app_mid p1 [b] [_] p2).
  - rewrite Hoff, Hp. apply bits_insert_mid; [lia|]. by apply set_bit_bits.
  - by rewrite Hp, !length_app.
  - rewrite Hp in Hbytes. apply Forall_app in Hbytes as [? [_ ?]%Forall_cons]. apply Forall_app_2; [done|].
    constructor; [|done]. unfold set_bit_of. change 0xff with (Z.ones 8). apply land_ones_range. lia.
Qed.

Lemma get_one off : 0 <= off < 8 * Z.of_nat (length p) ->
  exists b x, rd p (Z.shiftr off 3) = Some b /\ Z.land (Z.shiftr b (7 - Z.land off 7)) 1 = Z.b2z x /\
    bits_of p !! Z.to_nat off = Some x.
Proof.
  intros Ho. destruct (offset_byte off Ho) as (p1 & b & p2 & Hp & Hl & Hb & Hrd & Hoff).
  destruct (offset_split off ltac:(lia)) as (_ & Hk & _).
  destruct (get_bit_bits b _ Hb Hk) as (x & H1 & H2). exists b, x. split_and!; [done|done|].
  rewrite Hoff, Hp, bits_of_mid by lia. done.
Qed.
End fields.

Lemma take_S_insert {T} (l : list T) i x : (i < length l)%nat -> take (S i) (<[i := x]> l) = take i l ++ [x].
Proof.
  intros Hi. rewrite (take_S_r _ _ x) by (by apply list_lookup_insert_eq). by rewrite take_insert_ge by lia.
Qed.

Lemma set_bits_ok n p off value :
  Forall is_byte p -> 0 <= off -> off + Z.of_nat n <= 8 * Z.of_nat (length p) < 2 ^ 64 -> (n <= 64)%nat ->
  exists p', set_bits n p off value = Some p' /\ length p' = length p /\ Forall is_byte p' /\
    bits_of p' = take (Z.to_nat off) (bits_of p) ++ zbits n value ++ drop (Z.to_nat off + n) (bits_of p).
Proof.
  revert p off. induction n as [|n IH]; intros p off Hb Ho Hl Hn; cbn [set_bits zbits].
  { exists p. split_and!; [done..|]. cbn [app]. by rewrite Nat.add_0_r, take_drop. }
  destruct (set_one p Hb off (Z.testbit value (Z.of_nat n)) ltac:(lia)) as (b & p1 & Hrd & Hst & Hbits & Hlen & Hb1).
  rewrite Hrd. mstep. rewrite mask_test by lia. fold (set_bit_of b (Z.land off 7) (Z.testbit value (Z.of_nat n))).
  rewrite Hst. mstep. rewrite wrapU_id by (unfold inU; lia).
  destruct (IH p1 (off + 1) Hb1 ltac:(lia) ltac:(lia) ltac:(lia)) as (p' & -> & Hlen' & Hb' & Hbits').
  exists p'. split_and!; [done|lia|done|]. rewrite Hbits', Hbits.
  replace (Z.to_nat (off + 1)) with (S (Z.to_nat off)) by lia.
  rewrite take_S_insert by (rewrite length_bits_of; lia). rewrite drop_insert_lt by lia.
  rewrite <- app_assoc. cbn [app]. do 4 f_equal. lia.
Qed.

Lemma get_bits_ok n p off v k :
  Forall is_byte p -> 0 <= off -> off + Z.of_nat n <= 8 * Z.of_nat (length p) < 2 ^ 64 -> (k + n <= 64)%nat ->
  inU (Z.of_nat k) v ->
  exists v', get_bits n p off v = Some v' /\ inU (Z.of_nat (k + n)) v' /\
    zbits (k + n) v' = zbits k v ++ take n (drop (Z.to_nat off) (bits_of p)).
Proof.
  revert off v k. induction n as [|n IH]; intros off v k Hb Ho Hl Hn Hv; cbn [get_bits].
  { exists v. rewrite Nat.add_0_r. cbn [take]. rewrite app_nil_r. done. }
  destruct (get_one p Hb off ltac:(lia)) as (b & x & -> & Hx & Hbit). mstep. rewrite Hx.
  assert (Hs : inU (Z.of_nat (S k)) (Z.lor (Z.shiftl v 1) (Z.b2z x))).
  { unfold inU in *. rewrite Nat2Z.inj_succ, Z.pow_succ_r, Z.lor_comm, lor_shiftl_add by (destruct x; simpl; lia).
    destruct x; simpl; lia. }
  assert (Hw : u64 (Z.shiftl v 1) = Z.shiftl v 1).
  { apply wrapU_id. unfold inU in *. rewrite Z.shiftl_mul_pow2 by lia.
    pose proof (Z.pow_le_mono_r 2 (Z.of_nat (S k)) 64 ltac:(lia) ltac:(lia)).
    rewrite Nat2Z.inj_succ, Z.pow_succ_r in * by lia. lia. }
  rewrite Hw, (wrapU_id 64 (off + 1)) by (unfold inU; lia).
  destruct (IH (off + 1) _ (S k) Hb ltac:(lia) ltac:(lia) ltac:(lia) Hs) as (v' & -> & Hv' & Hz).
  exists v'. replace (k + S n)%nat with (S k + n)%nat by lia. split_and!; [done|done|].
  rewrite Hz, zbits_snoc, <- app_assoc. f_equal. rewrite (drop_S _ x (Z.to_nat off)) by done.
  cbn [take app]. do 2 f_equal. f_equal. lia.
Qed.

(** ** Signs and overflow *)

Definition high_mask (bits : Z) : Z := u64 (Z.shiftl UINT64_MAX bits).

Lemma pow_split bits : 0 <= bits <= 64 -> 2 ^ 64 = 2 ^ (64 - bits) * 2 ^ bits.
Proof. intros. rewrite <- Z.pow_add_r by lia. f_equal. lia. Qed.

Lemma high_mask_eq bits : 0 <= bits <= 64 -> high_mask bits = Z.shiftl (Z.ones (64 - bits)) bits.
Proof.
  intros Hb. unfold high_mask, wrapU. change UINT64_MAX with (Z.ones 64). rewrite !Z.shiftl_mul_pow2 by lia.
  rewrite !Z.ones_equiv, <- !Z.sub_1_r. pose proof (pow_split bits Hb) as Hp. pose proof (pow2_pos bits ltac:(lia)).
  pose proof (pow2_pos (64 - bits) ltac:(lia)).
  symmetry. apply (Z.mod_unique_pos _ _ (2 ^ bits - 1)); nia.
Qed.

(** A word with the high bits set, and cleared *)
Lemma mask_set c bits : inU 64 c -> 0 <= bits <= 64 -> Z.lor c (high_mask bits) = c mod 2 ^ bits + (2 ^ 64 - 2 ^ bits).
Proof.
  intros Hc Hb. rewrite high_mask_eq by done.
  assert (Heq : Z.lor c (Z.shiftl (Z.ones (64 - bits)) bits) = Z.lor (c mod 2 ^ bits) (Z.shiftl (Z.ones (64 - bits)) bits)).
  { apply Z.bits_inj'. intros i Hi. rewrite !Z.lor_spec. destruct (Z.lt_ge_cases i bits) as [Hlt|Hge].
    { by rewrite Z.mod_pow2_bits_low by lia. }
    rewrite Z.mod_pow2_bits_high, Z.shiftl_spec by lia. destruct (Z.lt_ge_cases i 64) as [H64|H64].
    - rewrite Z.ones_spec_low by lia. by rewrite orb_true_r.
    - apply (inU_bits 64) with (i := i) in Hc; [|lia|lia]. rewrite Hc. done. }
  pose proof (pow2_pos bits ltac:(lia)). pose proof (Z.mod_pos_bound c (2 ^ bits) ltac:(lia)).
  rewrite Heq, lor_shiftl_add by lia. rewrite Z.ones_equiv, <- Z.sub_1_r.
  rewrite (pow_split bits Hb). lia.
Qed.

Lemma mask_clear c bits : 0 <= bits <= 64 -> Z.land c (u64 (Z.lnot (high_mask bits))) = c mod 2 ^ bits.
Proof.
  intros Hb. rewrite <- Z.land_ones by lia. f_equal. rewrite high_mask_eq by done.
  unfold wrapU. rewrite Z.shiftl_mul_pow2, !Z.ones_equiv, <- !Z.sub_1_r by lia. unfold Z.lnot.
  rewrite <- Z.sub_1_r. pose proof (pow_split bits Hb). pose proof (pow2_pos bits ltac:(lia)).
  pose proof (pow2_pos (64 - bits) ltac:(lia)).
  symmetry. apply (Z.mod_unique_pos _ _ (-1)); nia.
Qed.

Lemma wrapS_mod_cases bits z : 1 <= bits ->
  wrapS bits z = let m := z mod 2 ^ bits in if m <? 2 ^ (bits - 1) then m else m - 2 ^ bits.
Proof.
  intros Hb. cbv zeta. rewrite <- (wrapS_wrapU bits z) by done. fold (wrapU bits z).
  pose proof (wrapU_range bits z ltac:(lia)) as Hr. unfold inU in Hr. unfold wrapS.
  assert (Hp : 2 ^ bits = 2 * 2 ^ (bits - 1)) by (rewrite <- Z.pow_succ_r by lia; f_equal; lia).
  destruct (_ <? _) eqn:E; zbool.
  - rewrite Z.mod_small by lia. lia.
  - rewrite <- (Z.mod_unique_pos (wrapU bits z + 2 ^ (bits - 1)) (2 ^ bits) 1 (wrapU bits z - 2 ^ (bits - 1))); lia.
Qed.

Lemma top_bit c bits : 1 <= bits -> Z.testbit c (bits - 1) = negb (c mod 2 ^ bits <? 2 ^ (bits - 1)).
Proof.
  intros Hb. assert (Hp : 2 ^ bits = 2 * 2 ^ (bits - 1)) by (rewrite <- Z.pow_succ_r by lia; f_equal; lia).
  rewrite <- (Z.mod_pow2_bits_low c bits) by lia. pose proof (pow2_pos (bits - 1) ltac:(lia)).
  pose proof (Z.mod_pos_bound c (2 ^ bits) ltac:(lia)) as Hr. set (m := c mod 2 ^ bits) in *.
  rewrite Z.testbit_odd, Z.shiftr_div_pow2 by lia. destruct (m <? _) eqn:E; zbool.
  - by rewrite Z.div_small by lia.
  - rewrite <- (Z.div_unique_pos m (2 ^ (bits - 1)) 1 (m - 2 ^ (bits - 1))) by lia. done.
Qed.

(** The sign is spread over the high bits of the word. *)
Lemma sign_extend c bits : inU 64 c -> 1 <= bits < 64 ->
  s64 (if Z.testbit c (bits - 1) then Z.lor c (high_mask bits) else Z.land c (u64 (Z.lnot (high_mask bits))))
  = wrapS bits c.
Proof.
  intros Hc Hb. rewrite (wrapS_mod_cases bits c), top_bit by lia. cbv zeta. rewrite mask_set, mask_clear by (done || lia).
  pose proof (pow2_pos bits ltac:(lia)). pose proof (Z.mod_pos_bound c (2 ^ bits) ltac:(lia)).
  assert (Hp : 2 ^ bits = 2 * 2 ^ (bits - 1)) by (rewrite <- Z.pow_succ_r by lia; f_equal; lia).
  pose proof (Z.pow_le_mono_r 2 bits 63 ltac:(lia) ltac:(lia)) as Hle. revert Hle.
  set (m := c mod 2 ^ bits) in *.
  destruct (_ <? _) eqn:E; cbn [negb]; zbool; rewrite wrapS_mod_cases by lia; cbv zeta; zpow; intros.
  - rewrite Z.mod_small by lia. rewrite (proj2 (Z.ltb_lt _ _)) by lia. done.
  - rewrite Z.mod_small by lia. rewrite (proj2 (Z.ltb_ge _ _)) by lia. lia.
Qed.

(** Only the low bits of the value matter. *)
Lemma set_bits_u64 n p off value : (n <= 64)%nat -> set_bits n p off (u64 value) = set_bits n p off value.
Proof.
  revert p off. induction n as [|n IH]; intros p off Hn; [done|]. cbn [set_bits].
  rewrite !mask_test by lia. replace (Z.testbit (u64 value) (Z.of_nat n)) with (Z.testbit value (Z.of_nat n))
    by (unfold wrapU; by rewrite Z.mod_pow2_bits_low by lia).
  destruct (rd p _); [|done]. mstep. destruct (mstore p _ _); [|done]. mstep. apply IH. lia.
Qed.

Lemma s64_u64 u : inU 64 u -> u64 (s64 u) = u.
Proof.
  intros Hu. rewrite wrapS_mod_cases by lia. cbv zeta. unfold wrapU. rewrite (Z.mod_small u) by done.
  unfold inU in Hu. destruct (_ <? _); [by apply Z.mod_small|].
  rewrite <- (Z_mod_plus_full _ 1). replace (u - 2 ^ 64 + 1 * 2 ^ 64) with u by lia. by apply Z.mod_small.
Qed.

Lemma get_signed_ok p offset bits u :
  getUnsignedBitfield p offset bits = Some u -> inU bits u -> 1 <= bits <= 64 ->
  getSignedBitfield p offset bits = Some (wrapS bits u).
Proof.
  intros Hget Hu Hb. unfold getSignedBitfield. rewrite Hget. mstep.
  assert (Hu64 : inU 64 u).
  { unfold inU in *. pose proof (Z.pow_le_mono_r 2 bits 64 ltac:(lia) ltac:(lia)). lia. }
  rewrite s64_u64, mask_test by (done || lia). destruct (bits <? 64) eqn:E; zbool; cbn [andb].
  - pose proof (sign_extend u bits Hu64 ltac:(lia)) as Hs. fold (high_mask bits).
    destruct (Z.testbit u (bits - 1)); [by f_equal|]. rewrite mask_clear, Z.mod_small in Hs by (done || lia). by f_equal.
  - by replace bits with 64 by lia.
Qed.

(** The value that a field holds *)
Lemma get_unsigned_ok p offset bits :
  Forall is_byte p -> 0 <= offset -> 0 <= bits <= 64 -> offset + bits <= 8 * Z.of_nat (length p) < 2 ^ 64 ->
  exists u, getUnsignedBitfield p offset bits = Some u /\ inU bits u /\
    zbits (Z.to_nat bits) u = take (Z.to_nat bits) (drop (Z.to_nat offset) (bits_of p)).
Proof.
  intros Hp Ho Hb Hl. unfold getUnsignedBitfield.
  destruct (get_bits_ok (Z.to_nat bits) p offset 0 0 Hp Ho ltac:(lia) ltac:(lia)) as (u & Hu & Hr & Hz); [done|].
  exists u. cbn [Nat.add] in Hr. rewrite Z2Nat.id in Hr by lia. done.
Qed.

(** A field after it was written *)
Lemma set_get p offset bits value p' :
  bits_of p' = take (Z.to_nat offset) (bits_of p) ++ zbits (Z.to_nat bits) value ++
                 drop (Z.to_nat offset + Z.to_nat bits) (bits_of p) ->
  length p' = length p -> Forall is_byte p' -> 0 <= offset -> 1 <= bits <= 64 ->
  offset + bits <= 8 * Z.of_nat (length p) < 2 ^ 64 ->
  getUnsignedBitfield p' offset bits = Some (wrapU bits value).
Proof.
  intros Hbits Hlen Hb' Ho Hb Hl.
  destruct (get_unsigned_ok p' offset bits Hb' Ho ltac:(lia) ltac:(lia)) as (u & -> & Hu & Hz).
  rewrite Hbits, drop_app_length', take_app_length' in Hz
    by (rewrite ?length_zbits, ?length_take, ?length_bits_of; lia).
  apply zbits_inj in Hz. rewrite Z2Nat.id in Hz by lia. rewrite (wrapU_id bits u Hu) in Hz. by rewrite Hz.
Qed.

(** C34: a bitfield holds what was stored in it. Writing an integer of 1 to 64
    bits at any bit of a string stays in the string, changes exactly the bits
    of the field, and reading the field gives the integer back: signed ones
    with [setSignedBitfield] and [getSignedBitfield], and unsigned ones. *)
Theorem bitfield_roundtrip p offset bits value :
  Forall is_byte p -> 0 <= offset -> 1 <= bits <= 64 -> offset + bits <= 8 * Z.of_nat (length p) < 2 ^ 64 ->
  exists p', setSignedBitfield p offset bits value = Some p' /\ setUnsignedBitfield p offset bits value = Some p' /\
    length p' = length p /\ Forall is_byte p' /\
    bits_of p' = take (Z.to_nat offset) (bits_of p) ++ zbits (Z.to_nat bits) value ++
                   drop (Z.to_nat offset + Z.to_nat bits) (bits_of p) /\
    (inS bits value -> getSignedBitfield p' offset bits = Some value) /\
    (inU bits value -> getUnsignedBitfield p' offset bits = Some value).
Proof.
  intros Hp Ho Hb Hl. unfold setSignedBitfield, setUnsignedBitfield.
  destruct (set_bits_ok (Z.to_nat bits) p offset value Hp Ho ltac:(lia) ltac:(lia)) as (p' & Hset & Hlen & Hb' & Hbits).
  pose proof (set_get p offset bits value p' Hbits Hlen Hb' Ho Hb Hl) as Hget.
  exists p'. split_and!; [|done|done|done|done| |].
  - rewrite <- Hset. apply set_bits_u64. lia.
  - intros Hv. rewrite (get_signed_ok _ _ _ _ Hget) by (apply wrapU_range || lia; lia).
    rewrite wrapS_wrapU, wrapS_id by (done || lia). done.
  - intros Hv. by rewrite wrapU_id in Hget.
Qed.

(** *** Overflow *)

(** What the checks say of the sum [t] of a field that holds the numbers from
    [min] to [max], where [wrapped] is the sum modulo the width *)
Definition overflow_spec (min max wrapped t : Z) (owtype : overflow) : Z * option Z :=
  if (min <=? t) && (t <=? max) then (0, None) else
  match owtype with
  | BFOVERFLOW_WRAP => (1, Some wrapped)
  | BFOVERFLOW_SAT => if t >? max then (1, Some max) else (-1, Some min)
  | BFOVERFLOW_FAIL => (if t >? max then 1 else -1, None)
  end.

Lemma spec_in min max w t ow : min <= t <= max -> overflow_spec min max w t ow = (0, None).
Proof.
  intros H. unfold overflow_spec. rewrite (proj2 (Z.leb_le _ _)), (proj2 (Z.leb_le _ _)) by lia. done.
Qed.

Lemma spec_over min max w t ow : max < t -> overflow_spec min max w t ow =
  match ow with BFOVERFLOW_WRAP => (1, Some w) | BFOVERFLOW_SAT => (1, Some max) | BFOVERFLOW_FAIL => (1, None) end.
Proof.
  intros H. unfold overflow_spec. rewrite (proj2 (Z.leb_gt t max)), andb_false_r by lia.
  rewrite Z.gtb_ltb, (proj2 (Z.ltb_lt _ _)) by lia. done.
Qed.

Lemma spec_under min max w t ow : t < min <= max -> overflow_spec min max w t ow =
  match ow with BFOVERFLOW_WRAP => (1, Some w) | BFOVERFLOW_SAT => (-1, Some min) | BFOVERFLOW_FAIL => (-1, None) end.
Proof.
  intros H. unfold overflow_spec. rewrite (proj2 (Z.leb_gt min t)) by lia. cbn [andb].
  rewrite Z.gtb_ltb, (proj2 (Z.ltb_ge _ _)) by lia. done.
Qed.

Lemma mod_mod_pow z a b : 0 <= a <= b -> (z mod 2 ^ b) mod 2 ^ a = z mod 2 ^ a.
Proof.
  intros Hab. apply Z.bits_inj'. intros i Hi. destruct (Z.lt_ge_cases i a).
  - by rewrite !Z.mod_pow2_bits_low by lia.
  - by rewrite !Z.mod_pow2_bits_high by lia.
Qed.

Lemma wrapS_u64_add bits x y : 1 <= bits <= 64 -> wrapS bits (u64 (u64 x + u64 y)) = wrapS bits (x + y).
Proof.
  intros Hb. rewrite !wrapS_mod_cases by lia. unfold wrapU. rewrite <- Zplus_mod, mod_mod_pow by lia. done.
Qed.

Lemma check_unsigned value incr bits ow :
  1 <= bits <= 63 -> inU 64 value -> inS 64 incr -> inU bits value \/ incr = 0 ->
  checkUnsignedBitfieldOverflow value incr bits ow =
    overflow_spec 0 (2 ^ bits - 1) (wrapU bits (value + incr)) (value + incr) ow.
Proof.
  unfold inU, inS. change (2 ^ (64 - 1)) with (2 ^ 63). intros Hb Hv Hi Hcase. unfold checkUnsignedBitfieldOverflow.
  pose proof (pow2_pos bits ltac:(lia)) as Hpos. pose proof (Z.pow_le_mono_r 2 bits 63 ltac:(lia) ltac:(lia)) as Hle.
  assert (Hmax : u64 (u64 (Z.shiftl 1 bits) - 1) = 2 ^ bits - 1).
  { rewrite Z.shiftl_1_l. assert (2 ^ 63 < 2 ^ 64) by (zpow; lia). rewrite (wrapU_id 64 (2 ^ bits)) by (unfold inU; lia).
    apply wrapU_id. unfold inU. lia. }
  rewrite (proj2 (Z.eqb_neq bits 64)), Hmax by lia. cbv zeta. fold (high_mask bits).
  assert (Hres : Z.land (u64 (value + incr)) (u64 (Z.lnot (high_mask bits))) = wrapU bits (value + incr)).
  { rewrite mask_clear by lia. unfold wrapU. apply mod_mod_pow. lia. }
  rewrite Hres, !wrapS_wrapU by lia.
  destruct (value >? 2 ^ bits - 1) eqn:E1; zbool; cbn [orb].
  { rewrite spec_over by lia. done. }
  rewrite !wrapS_id by (unfold inS; change (2 ^ (64 - 1)) with (2 ^ 63); lia).
  destruct ((incr >? 0) && (incr >? 2 ^ bits - 1 - value)) eqn:E2.
  { zbool. rewrite spec_over by lia. done. }
  destruct ((incr <? 0) && (incr <? - value)) eqn:E3.
  { zbool. rewrite spec_under by lia. done. }
  rewrite spec_in; [done|]. apply andb_false_iff in E2, E3. destruct E2, E3; zbool; lia.
Qed.

Lemma wrap_result c bits : inU 64 c -> 1 <= bits <= 64 ->
  s64 (if bits <? 64 then if negb (Z.land c (u64 (Z.shiftl 1 (bits - 1))) =? 0) then Z.lor c (high_mask bits)
                          else Z.land c (u64 (Z.lnot (high_mask bits))) else c) = wrapS bits c.
Proof.
  intros Hc Hb. rewrite mask_test by lia. destruct (bits <? 64) eqn:E; zbool.
  - apply sign_extend; [done|lia].
  - by replace bits with 64 by lia.
Qed.

Lemma check_signed value incr bits ow :
  1 <= bits <= 64 -> inS 64 value -> inS 64 incr ->
  inS bits value \/ incr = 0 /\ 2 ^ (bits - 1) - 1 - value < 2 ^ 63 ->
  checkSignedBitfieldOverflow value incr bits ow =
    overflow_spec (- 2 ^ (bits - 1)) (2 ^ (bits - 1) - 1) (wrapS bits (value + incr)) (value + incr) ow.
Proof.
  intros Hb Hv Hi Hcase. unfold checkSignedBitfieldOverflow. cbv zeta. fold (high_mask bits).
  rewrite wrap_result by (done || apply wrapU_range; lia).
  assert (Hw : wrapS bits (u64 (u64 value + u64 incr)) = wrapS bits (value + incr)) by (by apply wrapS_u64_add).
  rewrite Hw. assert (Hmax : (if bits =? 64 then INT64_MAX else Z.shiftl 1 (bits - 1) - 1) = 2 ^ (bits - 1) - 1).
  { destruct (Z.eqb_spec bits 64) as [-> |]; [done|]. by rewrite Z.shiftl_1_l. }
  rewrite Hmax. replace (- (2 ^ (bits - 1) - 1) - 1) with (- 2 ^ (bits - 1)) by lia. rewrite wrapS_wrapU by lia.
  pose proof (pow2_pos (bits - 1) ltac:(lia)) as Hpos.
  pose proof (Z.pow_le_mono_r 2 (bits - 1) 63 ltac:(lia) ltac:(lia)) as Hle.
  assert (Hle' : bits <> 64 -> 2 ^ (bits - 1) <= 2 ^ 62) by (intros; apply Z.pow_le_mono_r; lia).
  unfold inS in *. change (2 ^ (64 - 1)) with (2 ^ 63) in *.
  assert (H64 : bits = 64 -> 2 ^ (bits - 1) = 2 ^ 63) by (by intros ->).
  set (h := 2 ^ (bits - 1)) in *. clearbody h. clear Hmax Hw.
  destruct (value >? h - 1) eqn:E1; zbool; cbn [orb].
  { rewrite spec_over by lia. done. }
  assert (Hmaxincr : bits <> 64 \/ 0 <= value -> s64 (h - 1 - value) = h - 1 - value).
  { intros Hc. apply wrapS_id; [lia|]. unfold inS. change (2 ^ (64 - 1)) with (2 ^ 63). revert Hle' Hle. zpow. lia. }
  assert (Hminincr : bits <> 64 \/ value < 0 -> s64 (- h - value) = - h - value).
  { intros Hc. apply wrapS_id; [lia|]. unfold inS. change (2 ^ (64 - 1)) with (2 ^ 63). revert Hle' Hle. zpow. lia. }
  destruct (_ || _) eqn:E2.
  { rewrite spec_over; [done|]. apply orb_true_iff in E2 as [E2|E2]; zbool; [rewrite Hmaxincr in * by auto; lia|].
    rewrite Hmaxincr in * by lia. lia. }
  destruct ((value <? - h) || _ || _) eqn:E3.
  { rewrite spec_under; [done|]. apply orb_true_iff in E3 as [[E3|E3]%orb_true_iff|E3]; zbool; [lia| |].
    - rewrite Hminincr in * by auto. lia.
    - rewrite Hminincr in * by lia. lia. }
  apply orb_false_iff in E2 as [E2 E2'], E3 as [[E3 E3']%orb_false_iff E3'']. zbool. rewrite spec_in; [done|].
  destruct (Z.eqb_spec bits 64) as [Hbits|Hbits]; cbn [negb andb] in *.
  - specialize (H64 Hbits). clear Hle'. destruct (Z.lt_ge_cases value 0).
    + rewrite Hminincr in * by auto. rewrite (proj2 (Z.ltb_lt value 0)) in E3'' by lia. cbn [andb] in E3''.
      apply andb_false_iff in E3'' as [?|?]; zbool; lia.
    + rewrite Hmaxincr in * by auto. rewrite Z.geb_leb, (proj2 (Z.leb_le 0 value)) in E2' by lia. cbn [andb] in E2'.
      apply andb_false_iff in E2' as [?|?]; zbool; lia.
  - rewrite Hmaxincr, Hminincr in * by auto. zbool. lia.
Qed.

(** What the signed check answers for a value to set that is too far below the
    field: the distance to the largest value wraps, and the value is taken for
    an overflow. *)
Definition far_below_spec (max wrapped : Z) (owtype : overflow) : Z * option Z :=
  match owtype with
  | BFOVERFLOW_WRAP => (1, Some wrapped)
  | BFOVERFLOW_SAT => (1, Some max)
  | BFOVERFLOW_FAIL => (1, None)
  end.

Lemma check_signed_far value bits ow :
  1 <= bits <= 63 -> inS 64 value -> 2 ^ 63 <= 2 ^ (bits - 1) - 1 - value ->
  checkSignedBitfieldOverflow value 0 bits ow = far_below_spec (2 ^ (bits - 1) - 1) (wrapS bits value) ow.
Proof.
  intros Hb Hv Hfar. unfold checkSignedBitfieldOverflow. cbv zeta. fold (high_mask bits).
  rewrite wrap_result by (done || apply wrapU_range || lia; lia).
  rewrite wrapS_u64_add, Z.add_0_r by lia. rewrite (proj2 (Z.eqb_neq bits 64)), Z.shiftl_1_l by lia. cbn [negb andb].
  pose proof (Z.pow_le_mono_r 2 (bits - 1) 62 ltac:(lia) ltac:(lia)) as Hle. rewrite wrapS_wrapU by lia.
  unfold inS in Hv. set (h := 2 ^ (bits - 1)) in *. clearbody h.
  assert (Hneg : s64 (h - 1 - value) = h - 1 - value - 2 ^ 64).
  { rewrite <- (wrapS_id 64 (h - 1 - value - 2 ^ 64)) by (unfold inS; revert Hv Hfar Hle; zpow; lia).
    unfold wrapS. replace (h - 1 - value - 2 ^ 64 + 2 ^ (64 - 1)) with (h - 1 - value + 2 ^ (64 - 1) + (-1) * 2 ^ 64) by lia.
    rewrite Z.mod_add by (zpow; lia). done. }
  rewrite Hneg. replace (0 >? h - 1 - value - 2 ^ 64) with true
    by (symmetry; rewrite Z.gtb_ltb; apply Z.ltb_lt; revert Hv Hle; zpow; lia).
  rewrite orb_true_r. by destruct ow.
Qed.

(** C35: what the checks of bitfields answer. For an unsigned field of 1 to 63
    bits (the widths that BITFIELD accepts) and a signed one of 1 to 64 bits
    that holds [value], an increment is reported exactly when the sum is out of
    the range of the field. The answer is [overflow_spec]: 1 for an overflow
    and -1 for an underflow, except that with WRAP an underflow is also
    answered 1 and not the -1 that the comment of the functions promises; the
    result to store is the sum modulo the width with WRAP, the end of the range
    that was passed with SAT. For a value to set, with no increment, the same
    holds although the value need not fit, but in a signed field of at most 63
    bits only when the distance from the value up to the largest one of the
    field is less than 2^63. The values further below are reported too, but as
    an overflow: the answer is 1 and SAT stores the largest value of the field
    in place of the smallest. *)
Theorem bitfield_overflow_exact value incr bits ow :
  1 <= bits <= 64 -> inS 64 incr ->
  (bits <= 63 -> inU 64 value -> inU bits value \/ incr = 0 ->
   checkUnsignedBitfieldOverflow value incr bits ow =
     overflow_spec 0 (2 ^ bits - 1) (wrapU bits (value + incr)) (value + incr) ow) /\
  (inS 64 value -> inS bits value \/ incr = 0 /\ 2 ^ (bits - 1) - 1 - value < 2 ^ 63 ->
   checkSignedBitfieldOverflow value incr bits ow =
     overflow_spec (- 2 ^ (bits - 1)) (2 ^ (bits - 1) - 1) (wrapS bits (value + incr)) (value + incr) ow) /\
  (bits <= 63 -> inS 64 value -> 2 ^ 63 <= 2 ^ (bits - 1) - 1 - value ->
   checkSignedBitfieldOverflow value 0 bits ow = far_below_spec (2 ^ (bits - 1) - 1) (wrapS bits value) ow).
Proof.
  intros Hb Hi. split_and!; intros.
  - apply check_unsigned; [lia|done..].
  - by apply check_signed.
  - apply check_signed_far; [lia|done..].
Qed.

Lemma bitfield_roundtrip_witness :
  exists p', setSignedBitfield [255; 255; 255] 7 10 (-300) = Some p' /\ getSignedBitfield p' 7 10 = Some (-300).
Proof.
  destruct (bitfield_roundtrip [255; 255; 255] 7 10 (-300)) as (p' & H1 & _ & _ & _ & _ & H2 & _);
    [repeat constructor; lia|lia|lia|simpl; zpow; lia|].
  exists p'. split; [exact H1|]. apply H2. unfold inS. zpow. lia.
Defined.

Lemma bitfield_overflow_exact_witness :
  checkSignedBitfieldOverflow (-100) (-100) 8 BFOVERFLOW_SAT = (-1, Some (-128)) /\
  checkUnsignedBitfieldOverflow 200 100 8 BFOVERFLOW_WRAP = (1, Some 44) /\
  checkSignedBitfieldOverflow INT64_MIN 0 8 BFOVERFLOW_SAT = (1, Some 127).
Proof.
  split_and!.
  - apply (proj1 (proj2 (bitfield_overflow_exact (-100) (-100) 8 BFOVERFLOW_SAT ltac:(lia) ltac:(unfold inS; zpow; lia))));
      [|left]; unfold inS; zpow; lia.
  - apply (proj1 (bitfield_overflow_exact 200 100 8 BFOVERFLOW_WRAP ltac:(lia) ltac:(unfold inS; zpow; lia)));
      [| |left]; unfold inU; zpow; lia.
  - apply (proj2 (proj2 (bitfield_overflow_exact INT64_MIN 0 8 BFOVERFLOW_SAT ltac:(lia) ltac:(unfold inS; zpow; lia))));
      unfold inS; zpow; lia.
Defined.

(** A value close to the smallest of 64 bits that is set in a field of 8 bits:
    the distance to the largest of the field is not a signed number, and the
    value is saturated to the wrong end. *)
Example set_saturates_wrong : checkSignedBitfieldOverflow INT64_MIN 0 8 BFOVERFLOW_SAT = (1, Some 127).
Proof. reflexivity. Qed.

(** An underflow that wraps is reported as an overflow. *)
Example wrap_reports_overflow : checkUnsignedBitfieldOverflow 1 (-2) 8 BFOVERFLOW_WRAP = (1, Some 255).
Proof. reflexivity. Qed.

(** ** Searching a bit *)

Fixpoint index_of (b : bool) (l : list bool) : option Z :=
  match l with
  | [] => None
  | x :: l => if eqb x b then Some 0 else i ← index_of b l; Some (i + 1)
  end.

(** The first position of a bit; a string is followed by zeros, and -1 is for
    a string without ones. *)
Definition bitpos_spec (bit : bool) (s : list Z) : Z :=
  match index_of bit (bits_of s) with
  | Some i => i
  | None => if bit then -1 else 8 * Z.of_nat (length s)
  end.

Lemma index_of_app b l1 l2 : index_of b (l1 ++ l2) =
  match index_of b l1 with Some i => Some i | None => i ← index_of b l2; Some (Z.of_nat (length l1) + i) end.
Proof.
  induction l1 as [|x l1 IH]; cbn [index_of app].
  { destruct (index_of b l2); done. }
  destruct (eqb x b); [done|]. rewrite IH. destruct (index_of b l1) as [i|]; [done|]. mstep.
  destruct (index_of b l2) as [i|]; [|done]. mstep. f_equal. cbn [length]. lia.
Qed.

Lemma index_of_false n : index_of false (replicate (S n) false) = Some 0.
Proof. done. Qed.

Lemma index_of_true n : index_of true (replicate n false) = None.
Proof. induction n as [|n IH]; [done|]. cbn [replicate index_of eqb]. by rewrite IH. Qed.

(** The byte in which the bit does not occur *)
Definition skip_byte (bit : bool) : Z := if bit then 0 else 255.

Lemma skip_byte_iff bit b : is_byte b -> index_of bit (zbits 8 b) = None <-> b = skip_byte bit.
Proof.
  intros Hb. assert (H : bool_decide (index_of bit (zbits 8 b) = None) = (b =? skip_byte bit)).
  { revert b Hb. apply byte_equation. by destruct bit; vm_compute. }
  rewrite <- (bool_decide_eq_true (index_of bit (zbits 8 b) = None)), H. apply Z.eqb_eq.
Qed.

Lemma skip_bytes_iff bit p : Forall is_byte p ->
  index_of bit (bits_of p) = None <-> Forall (eq (skip_byte bit)) p.
Proof.
  induction 1 as [|b p Hb Hp IH]; [done|]. rewrite bits_of_cons, index_of_app, Forall_cons, <- IH.
  pose proof (skip_byte_iff bit b Hb) as Hs. destruct (index_of bit (zbits 8 b)) as [i|].
  - split; [done|]. intros [<- _]. by rewrite <- (proj2 Hs eq_refl).
  - destruct (index_of bit (bits_of p)); [split; [done|intros [_ [=]]]|]. split; [|done]. intros _.
    split; [|done]. symmetry. by apply Hs.
Qed.

(** *** The steps of the search *)

Lemma align_spec bit addr c pos found c' pos' :
  Forall is_byte c -> bitpos_align (skip_byte bit) addr c pos = (found, c', pos') ->
  exists sk, c = sk ++ c' /\ pos' = pos + 8 * Z.of_nat (length sk) /\ index_of bit (bits_of sk) = None /\
    (found = true -> index_of bit (bits_of (take 8 c')) <> None).
Proof.
  intros Hc. revert addr pos. induction Hc as [|b c Hb Hc IH]; intros addr pos; cbn [bitpos_align].
  { intros [= <- <- <-]. exists []. split_and!; [done|simpl; lia|done|done]. }
  destruct (_ =? 0); [intros [= <- <- <-]; exists []; split_and!; [done|simpl; lia|done|done]|].
  destruct (Z.eqb_spec b (skip_byte bit)) as [Eb|Eb]; cbn [negb].
  - intros (sk & -> & -> & Hsk & Hf)%IH. exists (b :: sk). split_and!; [done|simpl length; lia| |done].
    rewrite bits_of_cons, index_of_app, Hsk, (proj2 (skip_byte_iff bit b Hb) Eb). done.
  - intros [= <- <- <-]. exists []. split_and!; [done|simpl; lia|done|]. intros _.
    cbn [take]. rewrite bits_of_cons, index_of_app. rewrite <- (skip_byte_iff bit b Hb) in Eb.
    by destruct (index_of bit (zbits 8 b)).
Qed.

Definition skip_word (bit : bool) : Z := if bit then 0 else UINT64_MAX.

Lemma skip_word_iff bit w : length w = 8%nat -> Forall is_byte w ->
  le_decode w = skip_word bit <-> index_of bit (bits_of w) = None.
Proof.
  intros Hl Hw. assert (Hskip : le_encode 8 (skip_word bit) = replicate 8 (skip_byte bit)) by (by destruct bit).
  assert (Hdec : le_decode (replicate 8 (skip_byte bit)) = skip_word bit) by (by destruct bit).
  rewrite skip_bytes_iff by done. split; intros H.
  - rewrite <- (le_encode_decode w Hw), Hl, H, Hskip. apply Forall_replicate_eq.
  - rewrite <- Hdec. f_equal. symmetry. apply replicate_as_elem_of. split; [done|]. intros y Hy.
    rewrite Forall_forall in H. by rewrite (H y Hy).
Qed.

Lemma words_spec bit fuel l pos :
  Forall is_byte l -> (length l <= fuel)%nat ->
  exists sk l', bitpos_words fuel (skip_word bit) l pos = Some (l', pos + 8 * Z.of_nat (length sk)) /\ l = sk ++ l' /\
    index_of bit (bits_of sk) = None /\ ((length l' < 8)%nat \/ index_of bit (bits_of (take 8 l')) <> None).
Proof.
  revert l pos. induction fuel as [|fuel IH]; intros l pos Hl Hf; cbn [bitpos_words];
    destruct (_ >=? 8) eqn:E; rewrite Z.geb_leb in E; zbool;
    try (exists [], l; split_and!; [simpl; do 2 f_equal; lia|done|done|left; lia]).
  unfold load64. rewrite mload_Some by lia. mstep. change (Z.to_nat 0) with 0%nat. rewrite drop_0.
  change (Z.to_nat 8) with 8%nat. assert (Hl8 : length (take 8 l) = 8%nat) by (rewrite length_take; lia).
  pose proof (skip_word_iff bit (take 8 l) Hl8 ltac:(auto with bytes)) as Hw.
  destruct (Z.eqb_spec (le_decode (take 8 l)) (skip_word bit)) as [Ew|Ew]; cbn [negb].
  - destruct (IH (drop 8 l) (pos + 64)) as (sk & l' & -> & Hd & Hsk & Hend); [auto with bytes|rewrite length_drop; lia|].
    exists (take 8 l ++ sk), l'. split_and!; [|by rewrite <- app_assoc, <- Hd, take_drop| |done].
    + rewrite length_app, Hl8. do 2 f_equal. lia.
    + by rewrite bits_of_app, index_of_app, Hsk, (proj1 Hw Ew).
  - exists [], l. split_and!; [simpl; do 2 f_equal; lia|done|done|]. right. by rewrite <- Hw.
Qed.

Lemma push_bits word b k : is_byte b -> inU (8 * Z.of_nat k) word -> (k <= 7)%nat ->
  let word' := Z.lor (u64 (Z.shiftl word 8)) b in
  inU (8 * Z.of_nat (S k)) word' /\ zbits (8 * S k) word' = zbits (8 * k) word ++ zbits 8 b.
Proof.
  unfold is_byte, inU. intros Hb Hw Hk. cbv zeta.
  pose proof (Z.pow_le_mono_r 2 (8 * Z.of_nat (S k)) 64 ltac:(lia) ltac:(lia)) as Hle.
  assert (Hp : 2 ^ (8 * Z.of_nat (S k)) = 256 * 2 ^ (8 * Z.of_nat k)).
  { change 256 with (2 ^ 8). rewrite <- Z.pow_add_r by lia. f_equal. lia. }
  rewrite wrapU_id, Z.lor_comm by (unfold inU; rewrite Z.shiftl_mul_pow2 by lia; change (2 ^ 8) with 256; lia).
  split; [rewrite lor_shiftl_add by (zpow; lia); change (2 ^ 8) with 256; lia|].
  replace (8 * S k)%nat with (8 * k + 8)%nat by lia. rewrite zbits_app. f_equal.
  - f_equal. rewrite Z.shiftr_lor, Z.shiftr_shiftl_l by lia. change (Z.of_nat 8) with 8.
    rewrite Z.shiftr_div_pow2, Z.div_small by (zpow; lia). by rewrite Z.sub_diag, Z.shiftl_0_r.
  - apply zbits_ext. intros i Hi. rewrite Z.lor_spec, Z.shiftl_spec_low by lia. apply orb_false_r.
Qed.

Lemma load_spec n c word k : (k + n = 8)%nat -> inU (8 * Z.of_nat k) word -> Forall is_byte c ->
  inU 64 (bitpos_load n c word) /\
  zbits 64 (bitpos_load n c word) = zbits (8 * k) word ++ bits_of (take n c) ++ replicate (8 * (n - length c)) false.
Proof.
  revert c word k. induction n as [|n IH]; intros c word k Hk Hw Hc; cbn [bitpos_load].
  { replace k with 8%nat in * by lia. split; [done|]. cbn [take bits_of mbind list_bind app Nat.sub]. rewrite Nat.mul_0_r.
    cbn [replicate]. by rewrite app_nil_r. }
  destruct c as [|b c].
  - destruct (push_bits word 0 k ltac:(unfold is_byte; lia) Hw ltac:(lia)) as [Hw' Hz]. rewrite Z.lor_0_r in *.
    destruct (IH [] _ (S k) ltac:(lia) Hw' Hc) as [Hr ->]. split; [done|]. rewrite Hz, <- app_assoc. f_equal.
    rewrite !take_nil. cbn [bits_of mbind list_bind app length]. rewrite !Nat.sub_0_r.
    replace (8 * S n)%nat with (8 + 8 * n)%nat by lia. by rewrite replicate_add.
  - apply Forall_cons in Hc as [Hb Hc]. destruct (push_bits word b k Hb Hw ltac:(lia)) as [Hw' Hz].
    destruct (IH c _ (S k) ltac:(lia) Hw' Hc) as [Hr ->]. split; [done|].
    rewrite Hz, <- !app_assoc. cbn [take length Nat.sub]. by rewrite bits_of_cons, <- app_assoc.
Qed.

Lemma scan_spec n word bit pos : (n <= 64)%nat ->
  bitpos_scan (S n) (Z.shiftr (2 ^ Z.of_nat n) 1) word bit pos = (i ← index_of bit (zbits n word); Some (pos + i)).
Proof.
  revert pos. induction n as [|n IH]; intros pos Hn; [done|].
  assert (Hone : Z.shiftr (2 ^ Z.of_nat (S n)) 1 = 2 ^ Z.of_nat n).
  { rewrite Nat2Z.inj_succ, Z.pow_succ_r, Z.shiftr_div_pow2 by lia. change (2 ^ 1) with 2. rewrite Z.mul_comm. by apply Z.div_mul. }
  rewrite Hone. remember (S n) as m. cbn [bitpos_scan zbits]. subst m. pose proof (pow2_pos (Z.of_nat n) ltac:(lia)).
  rewrite (proj2 (Z.eqb_neq _ 0)) by lia. rewrite Z.land_comm. pose proof (mask_test word (Z.of_nat n) ltac:(lia)) as Hm.
  rewrite Z.shiftl_1_l, wrapU_id in Hm by (unfold inU; split; [lia|apply Z.pow_lt_mono_r; lia]). rewrite Hm.
  cbn [zbits index_of]. destruct (eqb _ bit); [mstep; f_equal; lia|]. rewrite IH by lia.
  destruct (index_of bit (zbits n word)); [|done]. mstep. f_equal. lia.
Qed.

Lemma no_ones n w : index_of true (zbits n w) = None -> zbits n w = zbits n 0.
Proof.
  induction n as [|n IH]; [done|]. cbn [zbits index_of]. destruct (Z.testbit w _); [done|]. cbn [eqb].
  destruct (index_of true (zbits n w)); [done|]. intros _. rewrite IH by done. by rewrite Z.bits_0.
Qed.

(** The word that is scanned, and what follows *)
Lemma last_word bit l pos :
  Forall is_byte l -> (length l < 8)%nat \/ index_of bit (bits_of (take 8 l)) <> None ->
  (let word := bitpos_load 8 l 0 in
   if bit && (word =? 0) then Some (-1)
   else bitpos_scan 65 (u64 (Z.lnot (Z.shiftr UINT64_MAX 1))) word bit pos)
  = Some (match index_of bit (bits_of l) with
          | Some i => pos + i
          | None => if bit then -1 else pos + 8 * Z.of_nat (length l)
          end).
Proof.
  intros Hl Hend. cbv zeta. destruct (load_spec 8 l 0 0 eq_refl ltac:(done) Hl) as [Hr Hz].
  change (zbits (8 * 0) 0) with (@nil bool) in Hz. rewrite app_nil_l in Hz. set (word := bitpos_load 8 l 0) in *.
  change (u64 (Z.lnot (Z.shiftr UINT64_MAX 1))) with (Z.shiftr (2 ^ Z.of_nat 64) 1). rewrite scan_spec, Hz by lia.
  assert (Hsplit : index_of bit (bits_of l) = index_of bit (bits_of (take 8 l))).
  { rewrite <- (take_drop 8 l) at 1. rewrite bits_of_app, index_of_app.
    destruct (index_of bit (bits_of (take 8 l))); [done|]. destruct Hend as [Hend|Hend]; [|done].
    by rewrite drop_ge by lia. }
  assert (Hzero : (word =? 0) = true -> index_of true (zbits 64 word) = None) by (by intros ->%Z.eqb_eq).
  rewrite Hsplit, index_of_app. rewrite Hz, index_of_app, index_of_true in Hzero.
  destruct (index_of bit (bits_of (take 8 l))) as [i|] eqn:Ei.
  - mstep. destruct bit; [|done]. cbn [andb]. destruct (word =? 0); [|done]. by rewrite Ei in Hzero; specialize (Hzero eq_refl).
  - destruct Hend as [Hend|Hend]; [|done]. rewrite take_ge in * by lia. destruct bit; cbn [andb].
    + rewrite index_of_true. destruct (word =? 0) eqn:E0; [done|]. exfalso. zbool. apply E0.
      rewrite <- (wrapU_id 64 word Hr). change 0 with (wrapU (Z.of_nat 64) 0). apply (zbits_inj 64), no_ones.
      by rewrite Hz, index_of_app, Ei, index_of_true.
    + replace (8 * (8 - length l))%nat with (S (8 * (8 - length l) - 1)) by lia. rewrite index_of_false. mstep.
      rewrite length_bits_of. do 2 f_equal. lia.
Qed.

(** C36: the search of a bit is exact. Whatever the alignment of the string,
    [redisBitpos] returns the position of the first one or the first zero,
    without leaving the string; without ones it returns -1, without zeros the
    position after the last bit; it never reaches its panic. (Of the code this
    holds up to 2^60 bytes, where positions leave [long long].) *)
Theorem redisBitpos_exact addr s bit :
  Forall is_byte s -> redisBitpos addr s bit = Some (bitpos_spec bit s).
Proof.
  intros Hs. unfold redisBitpos, bitpos_spec. fold (skip_byte bit) (skip_word bit).
  destruct (bitpos_align (skip_byte bit) addr s 0) as [[found c] pos] eqn:Ea.
  destruct (align_spec _ _ _ _ _ _ _ Hs Ea) as (sk & -> & -> & Hsk & Hfound). apply Forall_app in Hs as [_ Hc].
  rewrite bits_of_app, index_of_app, Hsk, length_app, length_bits_of.
  assert (Hmid : exists sk2 l, (if found then Some (c, 0 + 8 * Z.of_nat (length sk))
      else bitpos_words (length c) (skip_word bit) c (0 + 8 * Z.of_nat (length sk))) =
      Some (l, 8 * Z.of_nat (length sk) + 8 * Z.of_nat (length sk2)) /\ c = sk2 ++ l /\
      index_of bit (bits_of sk2) = None /\ ((length l < 8)%nat \/ index_of bit (bits_of (take 8 l)) <> None)).
  { destruct found.
    - exists [], c. split_and!; [do 2 f_equal; simpl; lia|done|done|]. right. by apply Hfound.
    - destruct (words_spec bit (length c) c (0 + 8 * Z.of_nat (length sk)) Hc ltac:(lia)) as (sk2 & l & -> & H).
      exists sk2, l. done. }
  destruct Hmid as (sk2 & l & -> & -> & Hsk2 & Hend). mstep. apply Forall_app in Hc as [_ Hl].
  rewrite last_word by done. rewrite bits_of_app, index_of_app, Hsk2, length_app, length_bits_of.
  destruct (index_of bit (bits_of l)) as [i|]; mstep; [f_equal; lia|]. destruct bit; [done|]. f_equal. lia.
Qed.

Lemma redisBitpos_exact_witness :
  redisBitpos 3 [0; 0; 0; 0; 0; 0; 0; 0; 0; 0; 0; 0; 0; 0; 16] true = Some 115 /\
  redisBitpos 6 [255; 255; 255] false = Some 24.
Proof.
  split.
  - rewrite redisBitpos_exact; [reflexivity|]. repeat constructor; lia.
  - rewrite redisBitpos_exact; [reflexivity|]. repeat constructor; lia.
Defined.

(** ** Counting the ones *)

Fixpoint count_ones (l : list bool) : Z :=
  match l with [] => 0 | x :: l => Z.b2z x + count_ones l end.

Lemma count_ones_app l1 l2 : count_ones (l1 ++ l2) = count_ones l1 + count_ones l2.
Proof. induction l1; simpl; lia. Qed.

Lemma count_ones_range l : 0 <= count_ones l <= Z.of_nat (length l).
Proof. induction l as [|[] l IH]; cbn [count_ones length Z.b2z]; lia. Qed.

Lemma ones_count n v : ones n v = count_ones (zbits n v).
Proof. induction n; simpl; lia. Qed.

Definition byte_ones (b : Z) : Z := count_ones (zbits 8 b).

Lemma bits_of_ones_cons b p : count_ones (bits_of (b :: p)) = byte_ones b + count_ones (bits_of p).
Proof. by rewrite bits_of_cons, count_ones_app. Qed.

Lemma table_ones b : is_byte b -> rd bitsinbyte b = Some (byte_ones b).
Proof. revert b. apply byte_equation. by vm_compute. Qed.

Lemma ones_range p : 0 <= count_ones (bits_of p) <= 8 * Z.of_nat (length p).
Proof. pose proof (count_ones_range (bits_of p)) as H. rewrite length_bits_of in H. lia. Qed.

Lemma align_count align addr p bits :
  Forall is_byte p ->
  exists p', pop_align align addr p bits = Some (p', bits + count_ones (bits_of p) - count_ones (bits_of p')) /\
    Forall is_byte p' /\ (length p' <= length p)%nat /\ count_ones (bits_of p') <= count_ones (bits_of p).
Proof.
  intros Hp. revert addr bits. induction Hp as [|b p Hb Hp IH]; intros addr bits; cbn [pop_align].
  { exists []. split_and!; [do 2 f_equal; lia|done|done|done]. }
  destruct (_ =? 0).
  { exists (b :: p). split_and!; [do 2 f_equal; lia|by constructor|done|done]. }
  rewrite table_ones by done. mstep. destruct (IH (u64 (addr + 1)) (bits + byte_ones b)) as (p' & -> & Hp' & Hl & Hle).
  exists p'. rewrite bits_of_ones_cons. pose proof (count_ones_range (zbits 8 b)). fold (byte_ones b) in *.
  split_and!; [do 2 f_equal; lia|done|simpl; lia|lia].
Qed.

Lemma remain_count p bits : Forall is_byte p -> pop_remain p bits = Some (bits + count_ones (bits_of p)).
Proof.
  intros Hp. revert bits. induction Hp as [|b p Hb Hp IH]; intros bits; cbn [pop_remain]; [f_equal; simpl; lia|].
  rewrite table_ones by done. mstep. rewrite IH, bits_of_ones_cons. f_equal. lia.
Qed.

(** *** The words of the instruction *)

Lemma count_word l : Forall is_byte l -> count_ones (zbits (8 * length l) (le_decode l)) = count_ones (bits_of l).
Proof.
  induction 1 as [|b l Hb Hl IH]; [done|]. cbn [length le_decode]. replace (8 * S (length l))%nat with (8 * length l + 8)%nat by lia.
  rewrite zbits_app, count_ones_app, bits_of_ones_cons, <- IH. unfold is_byte in Hb.
  assert (Hs : Z.shiftr (b + 256 * le_decode l) (Z.of_nat 8) = le_decode l).
  { rewrite Z.shiftr_div_pow2 by lia. change (2 ^ Z.of_nat 8) with 256.
    rewrite Z.mul_comm, Z.div_add, Z.div_small by lia. lia. }
  rewrite Hs. assert (Hz : zbits 8 (b + 256 * le_decode l) = zbits 8 b).
  { apply zbits_ext. intros i Hi. rewrite <- (Z.mod_pow2_bits_low _ 8) by lia. change (2 ^ 8) with 256.
    rewrite Z.mul_comm, Z_mod_plus_full. rewrite Z.mod_small by lia. done. }
  rewrite Hz. unfold byte_ones. lia.
Qed.

Lemma load64_count p i : Forall is_byte p -> 0 <= i -> i + 8 <= Z.of_nat (length p) ->
  exists w, load64 p i = Some w /\ popcountll w = count_ones (bits_of (take 8 (drop (Z.to_nat i) p))) /\ 0 <= popcountll w.
Proof.
  intros Hp Hi Hl. unfold load64. rewrite mload_Some by lia. mstep. eexists. split; [done|]. unfold popcountll.
  change (Z.to_nat 8) with 8%nat. set (w := take 8 _). assert (Hw : length w = 8%nat).
  { unfold w. rewrite length_take, length_drop. lia. }
  rewrite ones_count. replace 64%nat with (8 * length w)%nat by lia. rewrite count_word by (unfold w; auto with bytes).
  split; [done|apply ones_range].
Qed.

(** The ones of the next [n] bytes, and of the bytes after them *)
Lemma count_split n p : count_ones (bits_of p) = count_ones (bits_of (take n p)) + count_ones (bits_of (drop n p)).
Proof. rewrite <- (take_drop n p) at 1. by rewrite bits_of_app, count_ones_app. Qed.

Lemma loop32_count fuel p c0 c1 c2 c3 :
  Forall is_byte p -> (length p <= fuel)%nat -> 0 <= c0 -> 0 <= c1 -> 0 <= c2 -> 0 <= c3 ->
  c0 + c1 + c2 + c3 + count_ones (bits_of p) < 2 ^ 64 ->
  exists p', pop_loop32 fuel p c0 c1 c2 c3
      = Some (p', c0 + c1 + c2 + c3 + count_ones (bits_of p) - count_ones (bits_of p')) /\ Forall is_byte p'.
Proof.
  revert p c0 c1 c2 c3. induction fuel as [|fuel IH]; intros p c0 c1 c2 c3 Hp Hf H0 H1 H2 H3 Hsum; cbn [pop_loop32].
  all: destruct (_ >=? 32) eqn:E; rewrite Z.geb_leb in E; zbool; [try lia|].
  all: pose proof (ones_range p).
  1, 3: exists p; split; [|done]; rewrite wrapU_id by (unfold inU; lia); do 2 f_equal; lia.
  destruct (load64_count p 0 Hp) as (w0 & -> & Hw0 & Hn0); [lia..|]. destruct (load64_count p 8 Hp) as (w1 & -> & Hw1 & Hn1); [lia..|].
  destruct (load64_count p 16 Hp) as (w2 & -> & Hw2 & Hn2); [lia..|]. destruct (load64_count p 24 Hp) as (w3 & -> & Hw3 & Hn3); [lia..|].
  mstep. assert (Hcount : count_ones (bits_of p) =
    popcountll w0 + popcountll w1 + popcountll w2 + popcountll w3 + count_ones (bits_of (drop 32 p))).
  { rewrite Hw0, Hw1, Hw2, Hw3. pose proof (count_split 8 p) as S0. pose proof (count_split 8 (drop 8 p)) as S1.
    pose proof (count_split 8 (drop 16 p)) as S2. pose proof (count_split 8 (drop 24 p)) as S3.
    rewrite drop_drop in S1, S2, S3. change (Z.to_nat 0) with 0%nat. rewrite drop_0.
    change (Z.to_nat 8) with 8%nat. change (Z.to_nat 16) with 16%nat. change (Z.to_nat 24) with 24%nat.
    cbn [Nat.add] in S1, S2, S3. lia. }
  pose proof (ones_range (drop 32 p)). rewrite !wrapU_id by (unfold inU; lia).
  destruct (IH (drop 32 p) (c0 + popcountll w0) (c1 + popcountll w1) (c2 + popcountll w2) (c3 + popcountll w3))
    as (p' & -> & Hp'); try lia; [auto with bytes|rewrite length_drop; lia|].
  exists p'. split; [|done]. do 2 f_equal. lia.
Qed.

(** *** The words in lanes of bytes *)

Lemma testbit_cons b l i : is_byte b -> 0 <= i ->
  Z.testbit (le_decode (b :: l)) i = if i <? 8 then Z.testbit b i else Z.testbit (le_decode l) (i - 8).
Proof.
  unfold is_byte. intros Hb Hi. cbn [le_decode]. destruct (i <? 8) eqn:E; zbool.
  - rewrite <- (Z.mod_pow2_bits_low _ 8) by lia. change (2 ^ 8) with 256.
    rewrite Z.mul_comm, Z_mod_plus_full, Z.mod_small by lia. done.
  - replace (Z.testbit (b + 256 * le_decode l) i) with (Z.testbit (Z.shiftr (b + 256 * le_decode l) 8) (i - 8)).
    + rewrite Z.shiftr_div_pow2 by lia. change (2 ^ 8) with 256. rewrite Z.mul_comm, Z.div_add, Z.div_small by lia. done.
    + rewrite Z.shiftr_spec by lia. f_equal. lia.
Qed.

Lemma byte_high b i : is_byte b -> 8 <= i -> Z.testbit b i = false.
Proof. intros Hb Hi. apply (proj1 (inU_bits 8 b ltac:(lia))); [exact Hb|done]. Qed.

(** A shift and a mask that keeps no bit of the next lane act on each lane. *)
Lemma lanes_land l k m : Forall is_byte l -> 0 <= k <= 8 -> 0 <= m < 2 ^ (8 - k) ->
  Z.land (Z.shiftr (le_decode l) k) (le_decode (replicate (length l) m))
  = le_decode ((fun b => Z.land (Z.shiftr b k) m) <$> l).
Proof.
  intros Hl Hk Hm. assert (Hmb : is_byte m).
  { pose proof (Z.pow_le_mono_r 2 (8 - k) 8 ltac:(lia) ltac:(lia)) as H. revert H. zpow. unfold is_byte. lia. }
  induction Hl as [|b l Hb Hl IH]; [apply Z.land_0_r|]. cbn [length replicate fmap list_fmap].
  apply Z.bits_inj'. intros i Hi. rewrite Z.land_spec, Z.shiftr_spec by lia.
  assert (Hlane : is_byte (Z.land (Z.shiftr b k) m)) by (apply (land_range 8); [lia|done]).
  rewrite !testbit_cons by (done || lia). destruct (i <? 8) eqn:E; zbool.
  - rewrite Z.land_spec, Z.shiftr_spec by lia. destruct (i + k <? 8) eqn:E'; zbool; [done|].
    rewrite (proj1 (inU_bits (8 - k) m ltac:(lia)) Hm i) by lia. by rewrite !andb_false_r.
  - rewrite (proj2 (Z.ltb_ge _ _)) by lia. fold (list_fmap _ _ (fun b => Z.land (Z.shiftr b k) m) l).
    change (list_fmap _ _ (fun b => Z.land (Z.shiftr b k) m) l) with ((fun b => Z.land (Z.shiftr b k) m) <$> l).
    rewrite <- IH, Z.land_spec, Z.shiftr_spec by lia. do 2 f_equal. lia.
Qed.

Lemma lanes_add (f g : Z -> Z) l : le_decode (f <$> l) + le_decode (g <$> l) = le_decode ((fun b => f b + g b) <$> l).
Proof. induction l as [|b l IH]; [done|]. rewrite !fmap_cons. cbn [le_decode]. lia. Qed.

Lemma lanes_sub (f g : Z -> Z) l : le_decode (f <$> l) - le_decode (g <$> l) = le_decode ((fun b => f b - g b) <$> l).
Proof. induction l as [|b l IH]; [done|]. rewrite !fmap_cons. cbn [le_decode]. lia. Qed.

Lemma lanes_u32 l : length l = 4%nat -> Forall is_byte l -> u32 (le_decode l) = le_decode l.
Proof. intros Hl Hb. apply wrapU_id. pose proof (le_decode_range l Hb) as H. rewrite Hl in H. exact H. Qed.

Definition lane1 (b : Z) : Z := b - Z.land (Z.shiftr b 1) 0x55.
Definition lane2 (b : Z) : Z := Z.land (Z.shiftr (lane1 b) 0) 0x33 + Z.land (Z.shiftr (lane1 b) 2) 0x33.

Lemma lane1_byte b : is_byte b -> is_byte (lane1 b).
Proof.
  intros Hb. pose proof (byte_forall (fun b => (0 <=? lane1 b) && (lane1 b <? 256)) eq_refl b Hb) as H.
  apply andb_true_iff in H as [H1 H2]. zbool. done.
Qed.

(** The nibbles of the second step are small enough for the third. *)
Lemma lane2_small b : is_byte b -> 0 <= lane2 b /\ lane2 b / 16 <= 4 /\ lane2 b mod 16 <= 4 /\
  (lane2 b + lane2 b / 16) mod 16 = byte_ones b /\ is_byte (lane2 b).
Proof.
  intros Hb. pose proof (byte_forall (fun b => (0 <=? lane2 b) && (lane2 b / 16 <=? 4) && (lane2 b mod 16 <=? 4) &&
    ((lane2 b + lane2 b / 16) mod 16 =? byte_ones b) && (lane2 b <? 256)) eq_refl b Hb) as H.
  repeat (apply andb_true_iff in H as [H ?]). zbool. unfold is_byte. lia.
Qed.

Lemma pop_aux_lanes l : length l = 4%nat -> Forall is_byte l -> pop_aux (le_decode l) = le_decode (lane2 <$> l).
Proof.
  intros Hl Hb. unfold pop_aux. change 0x55555555 with (le_decode (replicate 4 0x55)).
  change 0x33333333 with (le_decode (replicate 4 0x33)). rewrite <- Hl.
  rewrite (lanes_land l 1 0x55) by (done || lia || (zpow; lia)).
  assert (H1 : le_decode l - le_decode ((fun b => Z.land (Z.shiftr b 1) 0x55) <$> l) = le_decode (lane1 <$> l)).
  { unfold lane1. rewrite <- (lanes_sub (fun b => b)). by rewrite list_fmap_id. }
  assert (Hb1 : Forall is_byte (lane1 <$> l)) by (apply Forall_fmap; eapply Forall_impl; [done|]; apply lane1_byte).
  rewrite H1, lanes_u32 by (by rewrite ?length_fmap).
  pose proof (lanes_land (lane1 <$> l) 0 0x33 Hb1 ltac:(lia) ltac:(zpow; lia)) as H0. rewrite Z.shiftr_0_r in H0.
  pose proof (lanes_land (lane1 <$> l) 2 0x33 Hb1 ltac:(lia) ltac:(zpow; lia)) as H2.
  rewrite length_fmap in H0, H2. rewrite H0, H2, <- !list_fmap_compose, lanes_add.
  apply lanes_u32; [by rewrite length_fmap|]. apply Forall_fmap. eapply Forall_impl; [done|]. intros b Hbb. by apply lane2_small.
Qed.

Lemma nibbles_lanes x0 x1 x2 x3 :
  Forall (fun x => 0 <= x /\ x / 16 <= 4 /\ x mod 16 <= 4) [x0; x1; x2; x3] ->
  pop_nibbles (le_decode [x0; x1; x2; x3]) = le_decode ((fun x => (x + x / 16) mod 16) <$> [x0; x1; x2; x3]).
Proof.
  rewrite !Forall_cons. intros (H0 & H1 & H2 & H3 & _).
  assert (Hsplit : forall x, x = 16 * (x / 16) + x mod 16 /\ 0 <= x mod 16 < 16).
  { intros x. pose proof (Z.div_mod x 16 ltac:(lia)). pose proof (Z.mod_pos_bound x 16 ltac:(lia)). lia. }
  pose proof (Hsplit x0) as S0. pose proof (Hsplit x1) as S1. pose proof (Hsplit x2) as S2. pose proof (Hsplit x3) as S3.
  set (h := fun x y => x + x / 16 + 16 * (y mod 16)).
  assert (Hsum : le_decode [x0; x1; x2; x3] + Z.shiftr (le_decode [x0; x1; x2; x3]) 4
    = le_decode [h x0 x1; h x1 x2; h x2 x3; h x3 0]).
  { rewrite Z.shiftr_div_pow2 by lia. change (2 ^ 4) with 16. cbn [le_decode]. unfold h. rewrite Zmod_0_l.
    rewrite <- (Z.div_unique_pos (x0 + 256 * (x1 + 256 * (x2 + 256 * (x3 + 256 * 0)))) 16
      (x0 / 16 + 16 * (x1 mod 16) + 256 * (x1 / 16 + 16 * (x2 mod 16) + 256 * (x2 / 16 + 16 * (x3 mod 16) + 256 * (x3 / 16))))
      (x0 mod 16)) by lia. lia. }
  assert (Hb : Forall is_byte [h x0 x1; h x1 x2; h x2 x3; h x3 0]).
  { unfold h, is_byte. rewrite Zmod_0_l. repeat constructor; lia. }
  unfold pop_nibbles. rewrite Hsum, lanes_u32 by done.
  pose proof (lanes_land _ 0 0x0F Hb ltac:(lia) ltac:(zpow; lia)) as Hm. rewrite Z.shiftr_0_r in Hm.
  change (le_decode (replicate (length [h x0 x1; h x1 x2; h x2 x3; h x3 0]) 15)) with 0x0F0F0F0F in Hm. rewrite Hm.
  assert (Hh : forall x y, Z.land (Z.shiftr (h x y) 0) 15 = (x + x / 16) mod 16).
  { intros x y. rewrite Z.shiftr_0_r. change 15 with (Z.ones 4). rewrite Z.land_ones by lia. change (2 ^ 4) with 16.
    unfold h. rewrite (Z.mul_comm 16). apply Z_mod_plus_full. }
  cbn [fmap list_fmap le_decode]. by rewrite !Hh.
Qed.

(** A word of 32 bits is turned into the counts of its bytes. *)
Lemma load32_count p i : Forall is_byte p -> 0 <= i -> i + 4 <= Z.of_nat (length p) ->
  exists w a b c d, load32 p i = Some w /\ pop_nibbles (pop_aux w) = a + 256 * (b + 256 * (c + 256 * d)) /\
    a + b + c + d = count_ones (bits_of (take 4 (drop (Z.to_nat i) p))) /\
    (0 <= a <= 8 /\ 0 <= b <= 8 /\ 0 <= c <= 8 /\ 0 <= d <= 8).
Proof.
  intros Hp Hi Hl. unfold load32. rewrite mload_Some by lia. mstep. change (Z.to_nat 4) with 4%nat.
  set (l := take 4 (drop (Z.to_nat i) p)). assert (Hlen : length l = 4%nat) by (unfold l; rewrite length_take, length_drop; lia).
  assert (Hb : Forall is_byte l) by (unfold l; auto with bytes). exists (le_decode l).
  rewrite pop_aux_lanes by done. destruct l as [|x0 [|x1 [|x2 [|x3 [|]]]]]; try done. clear Hlen.
  rewrite !fmap_cons, fmap_nil. rewrite nibbles_lanes.
  2: { change [lane2 x0; lane2 x1; lane2 x2; lane2 x3] with (lane2 <$> [x0; x1; x2; x3]). apply Forall_fmap.
       eapply Forall_impl; [exact Hb|]. intros x Hx. destruct (lane2_small x Hx) as (? & ? & ? & _). done. }
  rewrite !Forall_cons in Hb. destruct Hb as (B0 & B1 & B2 & B3 & _). cbn [fmap list_fmap le_decode].
  destruct (lane2_small x0 B0) as (_ & _ & _ & -> & _). destruct (lane2_small x1 B1) as (_ & _ & _ & -> & _).
  destruct (lane2_small x2 B2) as (_ & _ & _ & -> & _). destruct (lane2_small x3 B3) as (_ & _ & _ & -> & _).
  exists (byte_ones x0), (byte_ones x1), (byte_ones x2), (byte_ones x3).
  assert (Hr : forall x, 0 <= byte_ones x <= 8) by (intros x; apply (count_ones_range (zbits 8 x))).
  split_and!; try apply Hr; [done|lia|]. rewrite !bits_of_ones_cons. cbn [bits_of mbind list_bind count_ones]. lia.
Qed.

(** The multiplication adds the lanes in the highest one. *)
Lemma add_lanes a b c d : 0 <= a <= 56 -> 0 <= b <= 56 -> 0 <= c <= 56 -> 0 <= d <= 56 ->
  Z.shiftr (u32 (u32 (a + 256 * (b + 256 * (c + 256 * d))) * 0x01010101)) 24 = a + b + c + d.
Proof.
  intros Ha Hb Hc Hd. rewrite (wrapU_id 32 (a + _)) by (unfold inU; zpow; lia). unfold wrapU. zpow.
  rewrite <- (Z.mod_unique_pos _ 4294967296 (b + c + d + 256 * (c + d) + 65536 * d)
    (a + 256 * (a + b) + 65536 * (a + b + c) + 16777216 * (a + b + c + d))) by lia.
  rewrite Z.shiftr_div_pow2 by lia. zpow.
  rewrite <- (Z.div_unique_pos _ 16777216 (a + b + c + d) (a + 256 * (a + b) + 65536 * (a + b + c))) by lia. lia.
Qed.

Lemma loop28_count fuel p bits :
  Forall is_byte p -> (length p <= fuel)%nat ->
  exists p', pop_loop28 fuel p bits = Some (p', bits + count_ones (bits_of p) - count_ones (bits_of p')) /\
    Forall is_byte p'.
Proof.
  revert p bits. induction fuel as [|fuel IH]; intros p bits Hp Hf; cbn [pop_loop28].
  all: destruct (_ >=? 28) eqn:E; rewrite Z.geb_leb in E; zbool; [try lia|].
  1, 3: exists p; split; [|done]; do 2 f_equal; lia.
  destruct (load32_count p 0 Hp) as (w1 & a1 & b1 & c1 & d1 & -> & Hw1 & Hs1 & R1); [lia..|].
  destruct (load32_count p 4 Hp) as (w2 & a2 & b2 & c2 & d2 & -> & Hw2 & Hs2 & R2); [lia..|].
  destruct (load32_count p 8 Hp) as (w3 & a3 & b3 & c3 & d3 & -> & Hw3 & Hs3 & R3); [lia..|].
  destruct (load32_count p 12 Hp) as (w4 & a4 & b4 & c4 & d4 & -> & Hw4 & Hs4 & R4); [lia..|].
  destruct (load32_count p 16 Hp) as (w5 & a5 & b5 & c5 & d5 & -> & Hw5 & Hs5 & R5); [lia..|].
  destruct (load32_count p 20 Hp) as (w6 & a6 & b6 & c6 & d6 & -> & Hw6 & Hs6 & R6); [lia..|].
  destruct (load32_count p 24 Hp) as (w7 & a7 & b7 & c7 & d7 & -> & Hw7 & Hs7 & R7); [lia..|].
  mstep. rewrite Hw1, Hw2, Hw3, Hw4, Hw5, Hw6, Hw7.
  match goal with |- context [u32 (u32 ?x * _)] => replace x with
    ((a1 + a2 + a3 + a4 + a5 + a6 + a7) + 256 * ((b1 + b2 + b3 + b4 + b5 + b6 + b7) +
      256 * ((c1 + c2 + c3 + c4 + c5 + c6 + c7) + 256 * (d1 + d2 + d3 + d4 + d5 + d6 + d7)))) by lia end.
  rewrite add_lanes by lia.
  pose proof (count_split 4 p) as S1. pose proof (count_split 4 (drop 4 p)) as S2.
  pose proof (count_split 4 (drop 8 p)) as S3. pose proof (count_split 4 (drop 12 p)) as S4.
  pose proof (count_split 4 (drop 16 p)) as S5. pose proof (count_split 4 (drop 20 p)) as S6.
  pose proof (count_split 4 (drop 24 p)) as S7. rewrite drop_drop in S2, S3, S4, S5, S6, S7.
  cbn [Nat.add] in S2, S3, S4, S5, S6, S7. change (Z.to_nat 0) with 0%nat in Hs1. rewrite drop_0 in Hs1.
  change (Z.to_nat 4) with 4%nat in Hs2. change (Z.to_nat 8) with 8%nat in Hs3.
  change (Z.to_nat 12) with 12%nat in Hs4. change (Z.to_nat 16) with 16%nat in Hs5.
  change (Z.to_nat 20) with 20%nat in Hs6. change (Z.to_nat 24) with 24%nat in Hs7.
  match goal with |- context [pop_loop28 fuel _ ?x] => destruct (IH (drop 28 p) x) as (p' & -> & Hp') end;
    [auto with bytes|rewrite length_drop; lia|].
  exists p'. split; [|done]. do 2 f_equal. lia.
Qed.

(** The count of the ones is exact. With the instruction of the processor,
    32 bytes at a time, and without it, by arithmetic on the lanes of seven
    words at a time, [redisPopcount] gives the number of ones in the string,
    whatever its alignment, and reads nothing outside of it. *)
Theorem redisPopcount_exact use_popcnt addr s :
  Forall is_byte s -> Z.of_nat (length s) < 2 ^ 60 ->
  redisPopcount use_popcnt addr s = Some (count_ones (bits_of s)).
Proof.
  intros Hs Hl. unfold redisPopcount. cbv zeta.
  destruct (align_count (if use_popcnt then 7 else 3) addr s 0 Hs) as (p & -> & Hp & Hlp & Hle). mstep.
  pose proof (ones_range p). destruct use_popcnt.
  - destruct (loop32_count (length p) p 0 0 0 0 Hp) as (p' & -> & Hp'); try lia. mstep.
    rewrite remain_count by done. f_equal. lia.
  - destruct (loop28_count (length p) p (0 + count_ones (bits_of s) - count_ones (bits_of p)) Hp ltac:(lia)) as (p' & -> & Hp').
    mstep. rewrite remain_count by done. f_equal. lia.
Qed.

Lemma redisPopcount_exact_witness :
  redisPopcount false 1 (replicate 40 7) = Some 120 /\ redisPopcount true 5 (replicate 40 7) = Some 120.
Proof.
  split.
  - rewrite (redisPopcount_exact false 1 (replicate 40 7)); [reflexivity| |by vm_compute]. repeat constructor; lia.
  - rewrite (redisPopcount_exact true 5 (replicate 40 7)); [reflexivity| |by vm_compute]. repeat constructor; lia.
Defined.
