(* ===== verification/Zskiplist.v ===== *)
(** * The skip list of sorted sets ([t_zset.c]): the model

    A sorted set keeps its elements in the order of their scores, and of their
    names for equal scores, in a skip list: every node is in the list of level
    0, some are in the lists of higher levels too, and each link of these lists
    knows how many elements it skips, its span, so that ranks are computed on
    the way.

    The memory of the list is a map from addresses to nodes; a pointer is an
    address, [NULL] is [None], and a load from an address that holds no node,
    or from a level that the node does not have, is an undefined behaviour
    ([None]). A node and its embedded string are one allocation, of [block]
    bytes; the string is represented by its characters. The span of level 0 is
    always 1 but for the last node, and its field holds the number of levels
    and the offset of the string, as in the code. A [double] is its 64 bits,
    compared as IEEE 754 does.

    [ZskiplistOps] proves that the operations implement sorted lists. *)

From stdpp Require Import gmap.
From S2P Require Import Prelude Numstr Sds Object.

#[local] Open Scope Z_scope.

Definition ZSKIPLIST_MAXLEVEL : nat := 32.
Definition ZSKIPLIST_MAX_SEARCH : Z := 10.
Definition ZSL_OFFSET_NO_ELE : Z := 65535.
Definition RAND_MAX : Z := 2147483647.

(** ** Doubles *)

Definition dbl_magnitude (d : Z) : Z := Z.land d (Z.ones 63).
Definition isnan (d : Z) : bool := dbl_magnitude d >? 0x7FF0000000000000.

(** Numbers that are not NaN compare as their signed magnitudes. *)
Definition dbl_key (d : Z) : Z := if Z.testbit d 63 then - dbl_magnitude d else dbl_magnitude d.
Definition dbl_lt (a b : Z) : bool := negb (isnan a) && negb (isnan b) && (dbl_key a <? dbl_key b).
Definition dbl_le (a b : Z) : bool := negb (isnan a) && negb (isnan b) && (dbl_key a <=? dbl_key b).
Definition dbl_eq (a b : Z) : bool := negb (isnan a) && negb (isnan b) && (dbl_key a =? dbl_key b).

(** ** Nodes *)

Record zskiplistLevel := mkLevel { forward : option positive; span : Z }.

Record zskiplistNode := mkNode {
  score : Z;
  backward : option positive;
  level : list zskiplistLevel;
  ele : list Z;
  block : Z
}.

Record zskiplist := mkZsl {
  header : positive;
  tail : option positive;
  zlength : Z;
  zlevel : nat;
  alloc_size : Z
}.

(** The list and the nodes in memory *)
Record zmem := mkMem { nodes : gmap positive zskiplistNode; zsl : zskiplist }.

Definition set_score (x : zskiplistNode) (s : Z) : zskiplistNode :=
  mkNode s (backward x) (level x) (ele x) (block x).
Definition set_backward (x : zskiplistNode) (p : option positive) : zskiplistNode :=
  mkNode (score x) p (level x) (ele x) (block x).
Definition put_level (x : zskiplistNode) (i : nat) (l : zskiplistLevel) : zskiplistNode :=
  mkNode (score x) (backward x) (<[i := l]> (level x)) (ele x) (block x).

(** [x->level[i].forward = p] *)
Definition set_forward (x : zskiplistNode) (i : nat) (p : option positive) : option zskiplistNode :=
  l ← level x !! i; Some (put_level x i (mkLevel p (span l))).

Definition zslGetNodeSpanAtLevel (x : zskiplistNode) (i : nat) : option Z :=
  l ← level x !! i;
  Some (if (0 <? i)%nat then span l else match forward l with Some _ => 1 | None => 0 end).

Definition zslSetNodeSpanAtLevel (x : zskiplistNode) (i : nat) (s : Z) : option zskiplistNode :=
  if (0 <? i)%nat then l ← level x !! i; Some (put_level x i (mkLevel (forward l) (u64 s))) else Some x.

Definition zslIncrNodeSpanAtLevel (x : zskiplistNode) (i : nat) (incr : Z) : option zskiplistNode :=
  if (0 <? i)%nat then l ← level x !! i; Some (put_level x i (mkLevel (forward l) (u64 (span l + incr)))) else Some x.

Definition zslDecrNodeSpanAtLevel (x : zskiplistNode) (i : nat) (decr : Z) : option zskiplistNode :=
  if (0 <? i)%nat then l ← level x !! i; Some (put_level x i (mkLevel (forward l) (u64 (span l - decr)))) else Some x.

(** [zslGetNodeInfo(x)->levels], the third byte of the field *)
Definition node_levels (x : zskiplistNode) : option nat :=
  l ← level x !! 0%nat; Some (Z.to_nat (Z.land (Z.shiftr (span l) 16) 0xff)).

Definition zslSetNodeInfo (x : zskiplistNode) (levels : nat) (sdsoffset : Z) : option zskiplistNode :=
  l ← level x !! 0%nat;
  Some (put_level x 0 (mkLevel (forward l) (u16 sdsoffset + Z.shiftl (u8 (Z.of_nat levels)) 16))).

(** [zslGetNodeInfo(x)->levels = levels] *)
Definition set_node_levels (x : zskiplistNode) (levels : nat) : option zskiplistNode :=
  l ← level x !! 0%nat;
  Some (put_level x 0 (mkLevel (forward l)
    (Z.lor (Z.land (span l) (Z.lnot (Z.shiftl 0xff 16))) (Z.shiftl (u8 (Z.of_nat levels)) 16)))).

(** ** Comparisons *)

Definition sdscmp (s1 s2 : list Z) : Z :=
  let l1 := Z.of_nat (length s1) in
  let l2 := Z.of_nat (length s2) in
  let minlen := if l1 <? l2 then l1 else l2 in
  let cmp := memcmp (take (Z.to_nat minlen) s1) (take (Z.to_nat minlen) s2) in
  if cmp =? 0 then (if l1 >? l2 then 1 else if l1 <? l2 then -1 else 0) else cmp.

(** The code finds the element at an offset in the block of the node, after
    the levels; here it is a field of the node. *)
Definition zslGetNodeElement (x : zskiplistNode) : list Z := ele x.

Definition zslCompareWithNode (sc : Z) (el : list Z) (n : option zskiplistNode) : Z :=
  match n with
  | None => -1
  | Some n =>
      if dbl_lt sc (score n) then -1
      else if dbl_lt (score n) sc then 1
      else sdscmp el (zslGetNodeElement n)
  end.

(** ** Memory *)

Definition set_nodes (m : zmem) (h : gmap positive zskiplistNode) : zmem := mkMem h (zsl m).
Definition set_zsl (m : zmem) (z : zskiplist) : zmem := mkMem (nodes m) z.

(** A change of the node at an address *)
Definition at_node (m : zmem) (p : positive) (f : zskiplistNode -> option zskiplistNode) : option zmem :=
  x ← nodes m !! p; x ← f x; Some (set_nodes m (<[p := x]> (nodes m))).

Definition zskiplist_size : Z := 40.
Definition level_size : Z := 16.
Definition node_fixed_size : Z := 16.

Section alloc.
Context `{Allocator}.
(** What newly allocated memory holds *)
Context (raw : nat -> zskiplistLevel).

Definition zslCreateHeaderNode (m : zmem) (p : positive) : option zmem :=
  let usable_size := usable (node_fixed_size + Z.of_nat ZSKIPLIST_MAXLEVEL * level_size) in
  let zn := mkNode 0 None (replicate ZSKIPLIST_MAXLEVEL (mkLevel None 0)) [] usable_size in
  zn ← zslSetNodeInfo zn ZSKIPLIST_MAXLEVEL ZSL_OFFSET_NO_ELE;
  let z := zsl m in
  Some (mkMem (<[p := zn]> (nodes m))
          (mkZsl (header z) (tail z) (zlength z) (zlevel z) (u64 (alloc_size z + usable_size)))).

(** [p] is the address that the allocator gives. *)
Definition zslCreateNode (m : zmem) (p : positive) (levels : nat) (sc : Z) (el : list Z) : option zmem :=
  let ele_len := Z.of_nat (length el) in
  let sds_hdr_len := sdsHdrSize (sdsReqType ele_len) in
  let node_size := node_fixed_size + Z.of_nat levels * level_size in
  let sds_buf_size := sds_hdr_len + ele_len + 1 in
  let usable_size := usable (node_size + sds_buf_size) in
  let sds_offset := node_size + sds_hdr_len in
  let zn := mkNode sc None (raw <$> seq 0 levels) el usable_size in
  zn ← zslSetNodeInfo zn levels sds_offset;
  let z := zsl m in
  Some (mkMem (<[p := zn]> (nodes m))
          (mkZsl (header z) (tail z) (zlength z) (zlevel z) (u64 (alloc_size z + usable_size)))).

(** [p] is the address of the header. *)
Definition zslCreate (p : positive) : option zmem :=
  zslCreateHeaderNode (mkMem ∅ (mkZsl p None 0 1 (usable zskiplist_size))) p.
End alloc.

Definition zslFreeNode (m : zmem) (p : positive) : option zmem :=
  x ← nodes m !! p;
  let z := zsl m in
  Some (mkMem (delete p (nodes m))
          (mkZsl (header z) (tail z) (zlength z) (zlevel z) (u64 (alloc_size z - block x)))).

(** The numbers that [random] returns are an argument; they must go on until
    one of them is not under the threshold. *)
Definition threshold : Z := RAND_MAX / 4.

Fixpoint random_loop (rs : list Z) (levels : nat) : option nat :=
  match rs with
  | [] => None
  | r :: rs => if r <? threshold then random_loop rs (S levels) else Some levels
  end.

Definition zslRandomLevel (rs : list Z) : option nat :=
  levels ← random_loop rs 1;
  Some (if (levels <? ZSKIPLIST_MAXLEVEL)%nat then levels else ZSKIPLIST_MAXLEVEL).

(** ** Walking *)

(** [while (cond) { rank += zslGetNodeSpanAtLevel(x,i); x = x->level[i].forward; }],
    where the condition is on [x->level[i].forward], the rank and the span.
    The list has no cycle, so the turns are at most its length. *)
Section walk.
Context (m : zmem).

(** A pointer with the node it points to, [NULL] for the [None] inside *)
Definition deref (p : option positive) : option (option zskiplistNode) :=
  match p with None => Some None | Some p => n ← nodes m !! p; Some (Some n) end.

Fixpoint walk (fuel : nat) (cond : option zskiplistNode -> Z -> Z -> bool) (i : nat) (x : positive) (rank : Z)
    : option (positive * Z) :=
  nd ← nodes m !! x;
  l ← level nd !! i;
  next ← deref (forward l);
  s ← zslGetNodeSpanAtLevel nd i;
  if cond next rank s then
    match fuel with
    | O => None
    | S fuel => q ← forward l; walk fuel cond i q (u64 (rank + s))
    end
  else Some (x, rank).

Definition walk_fuel : nat := Z.to_nat (zlength (zsl m)).

(** [for (i = n-1; i >= 0; i--) { ...; update[i] = x; }]: what is stored in
    [update] and in [rank], the level 0 first *)
Fixpoint search (cond : option zskiplistNode -> Z -> Z -> bool) (n : nat) (x : positive) (rank : Z)
    : option (list (positive * Z)) :=
  match n with
  | O => Some []
  | S i =>
      '(x, rank) ← walk walk_fuel cond i x rank;
      rest ← search cond i x rank;
      Some (rest ++ [(x, rank)])
  end.
End walk.

(** [for (i = first; i < last; i++)], where [f] is the body for the level [i]
    and what the arrays hold for it *)
Fixpoint for_levels {U} (f : zmem -> nat -> U -> option zmem) (m : zmem) (i : nat) (us : list U) : option zmem :=
  match us with
  | [] => Some m
  | u :: us => m ← f m i u; for_levels f m (S i) us
  end.

(** The condition of a search for a place *)
Definition cmp_gt (sc : Z) (el : list Z) (next : option zskiplistNode) (_ _ : Z) : bool :=
  zslCompareWithNode sc el next >? 0.
Definition cmp_ge (sc : Z) (el : list Z) (next : option zskiplistNode) (_ _ : Z) : bool :=
  zslCompareWithNode sc el next >=? 0.

(** ** Insertion *)

(** A new level of the list: [update[i]] is the header. *)
Definition raise_level (m : zmem) (i : nat) (_ : positive * Z) : option zmem :=
  at_node m (header (zsl m)) (fun x => zslSetNodeSpanAtLevel x i (zlength (zsl m))).

Definition link_level (node : positive) (rank0 : Z) (m : zmem) (i : nat) (ur : positive * Z) : option zmem :=
  let '(u, rank) := ur in
  ux ← nodes m !! u; ul ← level ux !! i;
  m ← at_node m node (fun x => set_forward x i (forward ul));
  m ← at_node m u (fun x => set_forward x i (Some node));
  ux ← nodes m !! u;
  s ← zslGetNodeSpanAtLevel ux i;
  m ← at_node m node (fun x => zslSetNodeSpanAtLevel x i (u64 (s - u64 (rank0 - rank))));
  at_node m u (fun x => zslSetNodeSpanAtLevel x i (u64 (u64 (rank0 - rank) + 1))).

Definition incr_span (m : zmem) (i : nat) (ur : positive * Z) : option zmem :=
  at_node m (fst ur) (fun x => zslIncrNodeSpanAtLevel x i 1).

Definition set_tail (m : zmem) (p : option positive) : zmem :=
  let z := zsl m in set_zsl m (mkZsl (header z) p (zlength z) (zlevel z) (alloc_size z)).
Definition set_zlength (m : zmem) (n : Z) : zmem :=
  let z := zsl m in set_zsl m (mkZsl (header z) (tail z) (u64 n) (zlevel z) (alloc_size z)).
Definition set_zlevel (m : zmem) (n : nat) : zmem :=
  let z := zsl m in set_zsl m (mkZsl (header z) (tail z) (zlength z) n (alloc_size z)).

(** [if (level > zsl->level) ...] *)
Definition grow_level (m : zmem) (levels : nat) (ur : list (positive * Z)) : option (zmem * list (positive * Z)) :=
  let hd := header (zsl m) in
  let n := zlevel (zsl m) in
  if (n <? levels)%nat then
    let new := replicate (levels - n) (hd, 0) in
    m ← for_levels raise_level m n new;
    m ← at_node (set_zlevel m levels) hd (fun x => set_node_levels x levels);
    Some (m, ur ++ new)
  else Some (m, ur).

(** The backward pointers, the tail and the length *)
Definition link_back (m : zmem) (node u0 : positive) : option zmem :=
  let hd := header (zsl m) in
  m ← at_node m node (fun x => Some (set_backward x (if bool_decide (u0 = hd) then None else Some u0)));
  nd ← nodes m !! node; l ← level nd !! 0%nat;
  m ← match forward l with
      | Some f => at_node m f (fun x => Some (set_backward x (Some node)))
      | None => Some (set_tail m (Some node))
      end;
  Some (set_zlength m (zlength (zsl m) + 1)).

Definition zslInsertNode (m : zmem) (node : positive) : option zmem :=
  nd ← nodes m !! node;
  let sc := score nd in
  let el := zslGetNodeElement nd in
  levels ← node_levels nd;
  _ ← cassert (negb (isnan sc));
  let hd := header (zsl m) in
  ur ← search m (cmp_gt sc el) (zlevel (zsl m)) hd 0;
  '(m, ur) ← grow_level m levels ur;
  '(u0, rank0) ← ur !! 0%nat;
  m ← for_levels (link_level node rank0) m 0 (take levels ur);
  m ← for_levels incr_span m levels (drop levels ur);
  link_back m node u0.

Definition zslInsert `{Allocator} (raw : nat -> zskiplistLevel) (rs : list Z) (m : zmem) (p : positive)
    (sc : Z) (el : list Z) : option zmem :=
  _ ← cassert (negb (isnan sc));
  levels ← zslRandomLevel rs;
  m ← zslCreateNode raw m p levels sc el;
  zslInsertNode m p.

(** ** Deletion *)

Definition unlink_level (x : positive) (m : zmem) (i : nat) (u : positive) : option zmem :=
  ux ← nodes m !! u; ul ← level ux !! i;
  if bool_decide (forward ul = Some x) then
    nd ← nodes m !! x;
    s ← zslGetNodeSpanAtLevel nd i;
    m ← at_node m u (fun n => zslIncrNodeSpanAtLevel n i (u64 (s - 1)));
    l ← level nd !! i;
    at_node m u (fun n => set_forward n i (forward l))
  else at_node m u (fun n => zslDecrNodeSpanAtLevel n i 1).

Definition unlink_back (m : zmem) (x : positive) : option zmem :=
  nd ← nodes m !! x; l ← level nd !! 0%nat;
  match forward l with
  | Some f => at_node m f (fun n => Some (set_backward n (backward nd)))
  | None => Some (set_tail m (backward nd))
  end.

(** [n] is [zsl->level]. *)
Fixpoint lower_level (m : zmem) (n : nat) : option zmem :=
  match n with
  | S (S k as n1) =>
      hd ← nodes m !! header (zsl m);
      l ← level hd !! n1;
      match forward l with
      | None =>
          m ← at_node m (header (zsl m)) (fun x => l ← level x !! n1; Some (put_level x n1 (mkLevel (forward l) 0)));
          lower_level (set_zlevel m n1) n1
      | Some _ => Some m
      end
  | _ => Some m
  end.

(** [update[i]] is read for the levels of the list only. *)
Definition zslUnlinkNode (m : zmem) (x : positive) (update : list positive) : option zmem :=
  _ ← cassert (zlevel (zsl m) <=? length update)%nat;
  m ← for_levels (unlink_level x) m 0 (take (zlevel (zsl m)) update);
  m ← unlink_back m x;
  m ← lower_level m (zlevel (zsl m));
  Some (set_zlength m (zlength (zsl m) - 1)).

(** The search of a node that is in the list, for [zslDelete] and
    [zslUpdateScore]: the nodes before it, after the assertion that it was found *)
Definition find_update (m : zmem) (node : positive) : option (list positive) :=
  nd ← nodes m !! node;
  ur ← search m (cmp_gt (score nd) (zslGetNodeElement nd)) (zlevel (zsl m)) (header (zsl m)) 0;
  let update : list positive := map fst ur in
  x ← update !! 0%nat;
  xn ← nodes m !! x; l ← level xn !! 0%nat;
  _ ← cassert (bool_decide (forward l = Some node));
  Some update.

Definition zslDelete (m : zmem) (node : positive) : option zmem :=
  update ← find_update m node;
  m ← zslUnlinkNode m node update;
  zslFreeNode m node.

Definition zslUpdateScore (m : zmem) (node : positive) (newscore : Z) : option zmem :=
  nd ← nodes m !! node;
  l ← level nd !! 0%nat;
  prev ← deref m (backward nd);
  next ← deref m (forward l);
  if (match prev with None => true | Some b => dbl_lt (score b) newscore end) &&
     (match next with None => true | Some f => dbl_lt newscore (score f) end) then
    at_node m node (fun x => Some (set_score x newscore))
  else
    update ← find_update m node;
    m ← zslUnlinkNode m node update;
    m ← at_node m node (fun x => Some (set_score x newscore));
    zslInsertNode m node.

(** ** Ranks *)

Fixpoint rank_loop (m : zmem) (sc : Z) (el : list Z) (n : nat) (x : positive) (rank : Z) : option Z :=
  match n with
  | O => Some 0
  | S i =>
      '(x, rank) ← walk m (walk_fuel m) (cmp_ge sc el) i x rank;
      nd ← nodes m !! x;
      if negb (bool_decide (x = header (zsl m))) && (zslCompareWithNode sc el (Some nd) =? 0) then Some rank
      else rank_loop m sc el i x rank
  end.

Definition zslGetRank (m : zmem) (sc : Z) (el : list Z) : option Z :=
  rank_loop m sc el (zlevel (zsl m)) (header (zsl m)) 0.

Fixpoint distance_loop (m : zmem) (fuel : nat) (x : option positive) (distance : Z) : option Z :=
  match x with
  | None => Some distance
  | Some x =>
      match fuel with
      | O => None
      | S fuel =>
          nd ← nodes m !! x;
          levels ← node_levels nd;
          let i := (levels - 1)%nat in
          s ← zslGetNodeSpanAtLevel nd i;
          l ← level nd !! i;
          distance_loop m fuel (forward l) (u64 (distance + s))
      end
  end.

Definition zslGetRankByNode (m : zmem) (x : positive) : option Z :=
  d ← distance_loop m (walk_fuel m) (Some x) 0;
  Some (u64 (zlength (zsl m) - d)).

Definition rank_le (rank : Z) (next : option zskiplistNode) (traversed s : Z) : bool :=
  bool_decide (next <> None) && (u64 (traversed + s) <=? rank).

Fixpoint by_rank_loop (m : zmem) (rank : Z) (n : nat) (x : positive) (traversed : Z) : option (option positive) :=
  match n with
  | O => Some None
  | S i =>
      '(x, traversed) ← walk m (walk_fuel m) (rank_le rank) i x traversed;
      if traversed =? rank then Some (Some x) else by_rank_loop m rank i x traversed
  end.

(** [n] is [start_level + 1]. *)
Definition zslGetElementByRankFromNode (m : zmem) (start_node : positive) (n : nat) (rank : Z)
    : option (option positive) :=
  by_rank_loop m rank n start_node 0.

Definition zslGetElementByRank (m : zmem) (rank : Z) : option (option positive) :=
  zslGetElementByRankFromNode m (header (zsl m)) (zlevel (zsl m)) rank.

(** ** Ranges *)

Record zrangespec := mkRange { zmin : Z; zmax : Z; zminex : bool; zmaxex : bool }.

Definition zslValueGteMin (value : Z) (spec : zrangespec) : bool :=
  if zminex spec then dbl_lt (zmin spec) value else dbl_le (zmin spec) value.

Definition zslValueLteMax (value : Z) (spec : zrangespec) : bool :=
  if zmaxex spec then dbl_lt value (zmax spec) else dbl_le value (zmax spec).

(** The shared strings that stand for the infinities are values of their own. *)
Inductive lexvalue := minstring | maxstring | lexstr (s : list Z).

Record zlexrangespec := mkLexRange { lexmin : lexvalue; lexmax : lexvalue; lexminex : bool; lexmaxex : bool }.

Definition sdscmplex (a b : lexvalue) : Z :=
  match a, b with
  | minstring, minstring | maxstring, maxstring => 0
  | minstring, _ | _, maxstring => -1
  | maxstring, _ | _, minstring => 1
  | lexstr a, lexstr b => sdscmp a b
  end.

Definition zslLexValueGteMin (value : list Z) (spec : zlexrangespec) : bool :=
  if lexminex spec then sdscmplex (lexstr value) (lexmin spec) >? 0 else sdscmplex (lexstr value) (lexmin spec) >=? 0.

Definition zslLexValueLteMax (value : list Z) (spec : zlexrangespec) : bool :=
  if lexmaxex spec then sdscmplex (lexstr value) (lexmax spec) <? 0 else sdscmplex (lexstr value) (lexmax spec) <=? 0.

(** The functions on ranges of scores and on ranges of names have the same
    text, but for the tests of a node. *)
Section range.
Context (gte_min lte_max : zskiplistNode -> bool).

(** The last node must reach the start of the range, the first one must not
    be after its end; [empty] tells that no value is in the range. *)
Definition is_in_range (m : zmem) (empty : bool) : option bool :=
  if empty then Some false
  else
    x ← deref m (tail (zsl m));
    match x with
    | None => Some false
    | Some x =>
        if negb (gte_min x) then Some false
        else
          hd ← nodes m !! header (zsl m);
          l ← level hd !! 0%nat;
          y ← deref m (forward l);
          match y with
          | None => Some false
          | Some y => Some (lte_max y)
          end
    end.

Definition before_min (next : option zskiplistNode) (_ _ : Z) : bool :=
  match next with None => false | Some x => negb (gte_min x) end.
Definition upto_max (next : option zskiplistNode) (_ _ : Z) : bool :=
  match next with None => false | Some x => lte_max x end.

(** A sum of [long]s, which must not overflow *)
Definition long (z : Z) : option Z := if bool_decide (inS 64 z) then Some z else None.

Fixpoint steps_forward (m : zmem) (k : nat) (x : option positive) : option (option positive) :=
  match k with
  | O => Some x
  | S k => p ← x; nd ← nodes m !! p; l ← level nd !! 0%nat; steps_forward m k (forward l)
  end.

Fixpoint steps_backward (m : zmem) (k : nat) (x : option positive) : option (option positive) :=
  match k with
  | O => Some x
  | S k => p ← x; nd ← nodes m !! p; steps_backward m k (backward nd)
  end.

(** Where a search ends: what it found at level 0 *)
Definition search_end (m : zmem) (cond : option zskiplistNode -> Z -> Z -> bool) (n : nat) (x : positive) (rank : Z)
    : option (positive * Z) :=
  ur ← search m cond n x rank;
  Some (match ur with [] => (x, rank) | u :: _ => u end).

(** The two directions; [x] and [rank] are the last node at the top level that
    is before the range, and its rank. The result is the node and its rank,
    [NULL] is the [None] inside. *)
Definition nth_forward (m : zmem) (x : positive) (rank n : Z) : option (option (positive * Z)) :=
  let z := zsl m in
  let last_highest_level_node := x in
  let last_highest_level_rank := s64 rank in
  '(x, rank) ← search_end m before_min (zlevel z - 1) x rank;
  let edge_rank := s64 rank in
  target ← long (edge_rank + n);
  if zlength z <=? u64 target then Some None
  else
    x ← (if n <? ZSKIPLIST_MAX_SEARCH then steps_forward m (Z.to_nat (n + 1)) (Some x)
         else zslGetElementByRankFromNode m last_highest_level_node (zlevel z)
                (u64 (edge_rank + 1 + n - last_highest_level_rank)));
    match x with
    | None => Some None
    | Some p => nd ← nodes m !! p; Some (if lte_max nd then Some (p, u64 (edge_rank + n + 1)) else None)
    end.

Definition nth_backward (m : zmem) (x : positive) (rank n : Z) : option (option (positive * Z)) :=
  let z := zsl m in
  let last_highest_level_node := x in
  let last_highest_level_rank := s64 rank in
  '(x, rank) ← search_end m upto_max (zlevel z) x rank;
  let edge_rank := s64 rank in
  minus_n ← long (- n);
  if edge_rank <? minus_n then Some None
  else
    x ← (if n + 1 >? - ZSKIPLIST_MAX_SEARCH then steps_backward m (Z.to_nat (- n - 1)) (Some x)
         else zslGetElementByRankFromNode m last_highest_level_node (zlevel z)
                (u64 (edge_rank + 1 + n - last_highest_level_rank)));
    match x with
    | None => Some None
    | Some p => nd ← nodes m !! p; Some (if gte_min nd then Some (p, u64 (edge_rank + n + 1)) else None)
    end.

Definition nth_in_range (m : zmem) (empty : bool) (n : Z) : option (option (positive * Z)) :=
  ok ← is_in_range m empty;
  if negb ok then Some None
  else
    '(x, rank) ← walk m (walk_fuel m) before_min (zlevel (zsl m) - 1) (header (zsl m)) 0;
    if 0 <=? n then nth_forward m x rank n else nth_backward m x rank n.

(** ** Deletion of a range *)

Section delete.
Context {D : Type} (dictDelete : D -> list Z -> D).

(** [while (x && cond) { ... }]; the condition is on the node and on
    [traversed]. The fuel is the number of elements. *)
Fixpoint delete_loop (fuel : nat) (cond : zskiplistNode -> Z -> bool) (m : zmem) (d : D) (update : list positive)
    (x : option positive) (traversed removed : Z) : option (zmem * D * Z) :=
  match x with
  | None => Some (m, d, removed)
  | Some p =>
      nd ← nodes m !! p;
      if cond nd traversed then
        match fuel with
        | O => None
        | S fuel =>
            l ← level nd !! 0%nat;
            let next := forward l in
            m ← zslUnlinkNode m p update;
            x ← nodes m !! p;
            let d := dictDelete d (zslGetNodeElement x) in
            m ← zslFreeNode m p;
            delete_loop fuel cond m d update next (u64 (traversed + 1)) (u64 (removed + 1))
        end
      else Some (m, d, removed)
  end.

(** The node after the one that a search ended at *)
Definition next_of (m : zmem) (update : list positive) : option (option positive) :=
  x ← update !! 0%nat; nd ← nodes m !! x; l ← level nd !! 0%nat; Some (forward l).

Definition delete_range (m : zmem) (d : D) : option (zmem * D * Z) :=
  ur ← search m before_min (zlevel (zsl m)) (header (zsl m)) 0;
  let update : list positive := map fst ur in
  x ← next_of m update;
  delete_loop (walk_fuel m) (fun nd _ => lte_max nd) m d update x 0 0.
End delete.
End range.

Definition zslIsInRange (m : zmem) (range : zrangespec) : option bool :=
  is_in_range (fun x => zslValueGteMin (score x) range) (fun x => zslValueLteMax (score x) range) m
    (dbl_lt (zmax range) (zmin range) || (dbl_eq (zmin range) (zmax range) && (zminex range || zmaxex range))).

Definition zslNthInRange (m : zmem) (range : zrangespec) (n : Z) : option (option (positive * Z)) :=
  nth_in_range (fun x => zslValueGteMin (score x) range) (fun x => zslValueLteMax (score x) range) m
    (dbl_lt (zmax range) (zmin range) || (dbl_eq (zmin range) (zmax range) && (zminex range || zmaxex range))) n.

Definition lex_empty (range : zlexrangespec) : bool :=
  let cmp := sdscmplex (lexmin range) (lexmax range) in
  (cmp >? 0) || ((cmp =? 0) && (lexminex range || lexmaxex range)).

Definition zslIsInLexRange (m : zmem) (range : zlexrangespec) : option bool :=
  is_in_range (fun x => zslLexValueGteMin (zslGetNodeElement x) range)
    (fun x => zslLexValueLteMax (zslGetNodeElement x) range) m (lex_empty range).

Definition zslNthInLexRange (m : zmem) (range : zlexrangespec) (n : Z) : option (option (positive * Z)) :=
  nth_in_range (fun x => zslLexValueGteMin (zslGetNodeElement x) range)
    (fun x => zslLexValueLteMax (zslGetNodeElement x) range) m (lex_empty range) n.

Definition zslDeleteRangeByScore {D} (dictDelete : D -> list Z -> D) (m : zmem) (range : zrangespec) (d : D)
    : option (zmem * D * Z) :=
  delete_range (fun x => zslValueGteMin (score x) range) (fun x => zslValueLteMax (score x) range) dictDelete m d.

Definition zslDeleteRangeByLex {D} (dictDelete : D -> list Z -> D) (m : zmem) (range : zlexrangespec) (d : D)
    : option (zmem * D * Z) :=
  delete_range (fun x => zslLexValueGteMin (zslGetNodeElement x) range)
    (fun x => zslLexValueLteMax (zslGetNodeElement x) range) dictDelete m d.

Definition rank_lt (start : Z) (next : option zskiplistNode) (traversed s : Z) : bool :=
  bool_decide (next <> None) && (u64 (traversed + s) <? start).

Definition zslDeleteRangeByRank {D} (dictDelete : D -> list Z -> D) (m : zmem) (start end_ : Z) (d : D)
    : option (zmem * D * Z) :=
  ur ← search m (rank_lt start) (zlevel (zsl m)) (header (zsl m)) 0;
  let update : list positive := map fst ur in
  '(_, traversed) ← ur !! 0%nat;
  x ← next_of m update;
  delete_loop dictDelete (walk_fuel m) (fun _ traversed => traversed <=? end_) m d update x (u64 (traversed + 1)) 0.

(** ** Freeing a list *)

Fixpoint free_loop (fuel : nat) (m : zmem) (node : option positive) : option zmem :=
  match node with
  | None => Some m
  | Some p =>
      match fuel with
      | O => None
      | S fuel => nd ← nodes m !! p; l ← level nd !! 0%nat; m ← zslFreeNode m p; free_loop fuel m (forward l)
      end
  end.

(** The memory that is left, but for the structure itself *)
Definition zslFree (m : zmem) : option zmem :=
  hd ← nodes m !! header (zsl m);
  l ← level hd !! 0%nat;
  m ← zslFreeNode m (header (zsl m));
  free_loop (walk_fuel m) m (forward l).
