(* ===== verification/ZskiplistInv.v ===== *)
(** * The skip list of sorted sets: its invariant, and searching

    The elements of a list are a sequence [L], strictly ordered by score and
    name; [H] stands for the header. Level [i] of the list is described by
    [hop]: the link of an element leads to the next one that has more than [i]
    levels, and its span is the number of places in between. Each level is a
    predicate of its own ([level_ok]), so that an operation that goes from level
    to level is followed one level at a time. *)

From stdpp Require Import gmap sorting.
From S2P Require Import Prelude Numstr Sds Object Zskiplist.

#[local] Open Scope Z_scope.

(** ** The order of elements *)

Record elem := mkElem { ptr : positive; e_score : Z; e_ele : list Z; height : nat; e_block : Z }.

#[export] Instance elem_eq_dec : EqDecision elem.
Proof. solve_decision. Defined.

(** Scores first, then names *)
Definition zcmp (s1 : Z) (e1 : list Z) (s2 : Z) (e2 : list Z) : comparison :=
  match dbl_key s1 ?= dbl_key s2 with Eq => lex e1 e2 | c => c end.

Definition zlt (a b : elem) : Prop := zcmp (e_score a) (e_ele a) (e_score b) (e_ele b) = Lt.

#[export] Instance zlt_dec : RelDecision zlt.
Proof. intros a b. unfold zlt. apply comparison_eq_dec. Defined.

Lemma lex_antisym a b : lex b a = CompOpp (lex a b).
Proof.
  revert b. induction a as [|x a IH]; intros [|y b]; cbn [lex]; try done.
  rewrite (Z.compare_antisym x y). destruct (x ?= y); cbn; auto.
Qed.

Lemma lex_trans a b c : lex a b = Lt -> lex b c = Lt -> lex a c = Lt.
Proof.
  revert b c. induction a as [|x a IH]; intros [|y b] [|z c]; cbn [lex]; try done.
  destruct (Z.compare_spec x y), (Z.compare_spec y z), (Z.compare_spec x z); subst; try done; try lia. apply IH.
Qed.

Lemma zcmp_antisym s1 e1 s2 e2 : zcmp s2 e2 s1 e1 = CompOpp (zcmp s1 e1 s2 e2).
Proof.
  unfold zcmp. rewrite (Z.compare_antisym (dbl_key s1)). destruct (dbl_key s1 ?= dbl_key s2); cbn; auto using lex_antisym.
Qed.

Lemma zcmp_trans s1 e1 s2 e2 s3 e3 :
  zcmp s1 e1 s2 e2 = Lt -> zcmp s2 e2 s3 e3 = Lt -> zcmp s1 e1 s3 e3 = Lt.
Proof.
  unfold zcmp. destruct (Z.compare_spec (dbl_key s1) (dbl_key s2)), (Z.compare_spec (dbl_key s2) (dbl_key s3)),
    (Z.compare_spec (dbl_key s1) (dbl_key s3)); try done; try lia. apply lex_trans.
Qed.

Lemma zcmp_eq s1 e1 s2 e2 : zcmp s1 e1 s2 e2 = Eq <-> dbl_key s1 = dbl_key s2 /\ e1 = e2.
Proof.
  unfold zcmp. rewrite <- lex_eq. destruct (Z.compare_spec (dbl_key s1) (dbl_key s2)); split; try done; try tauto; lia.
Qed.

#[export] Instance zlt_strict : StrictOrder zlt.
Proof.
  split.
  - intros a Ha. unfold zlt in Ha.
    assert (zcmp (e_score a) (e_ele a) (e_score a) (e_ele a) = Eq) by by apply zcmp_eq. congruence.
  - intros a b c. apply zcmp_trans.
Qed.

Lemma sdscmp_lex a b : (sdscmp a b ?= 0) = lex a b.
Proof.
  unfold sdscmp. set (la := Z.of_nat (length a)). set (lb := Z.of_nat (length b)).
  assert (Hm : Z.to_nat (if la <? lb then la else lb) = Nat.min (length a) (length b)).
  { unfold la, lb. destruct (_ <? _) eqn:E; zbool; lia. }
  rewrite Hm. rewrite <- (memcmp_lex a b). cbv zeta. fold la lb. destruct (_ =? 0); [|done].
  destruct (la >? lb) eqn:E1; [|destruct (la <? lb) eqn:E2]; zbool; symmetry.
  - apply Z.compare_gt_iff. lia.
  - apply Z.compare_lt_iff. lia.
  - apply Z.compare_eq_iff. lia.
Qed.

(** The comparison of the code is that order. *)
Lemma compare_zcmp sc el n :
  isnan sc = false -> isnan (score n) = false ->
  (zslCompareWithNode sc el (Some n) ?= 0) = zcmp sc el (score n) (ele n).
Proof.
  intros H1 H2. unfold zslCompareWithNode, dbl_lt, zcmp. rewrite H1, H2. cbn [negb andb].
  destruct (Z.compare_spec (dbl_key sc) (dbl_key (score n))) as [E|E|E].
  - rewrite E, !Z.ltb_irrefl. apply sdscmp_lex.
  - by rewrite (proj2 (Z.ltb_lt _ _) E).
  - rewrite (proj2 (Z.ltb_ge _ _)) by lia. by rewrite (proj2 (Z.ltb_lt _ _) E).
Qed.

(** ** Sorted lists *)

(** The specification of insertion *)
Fixpoint zinsert (e : elem) (L : list elem) : list elem :=
  match L with
  | [] => [e]
  | x :: L => if decide (zlt e x) then e :: x :: L else x :: zinsert e L
  end.

Lemma zinsert_split e A B :
  Forall (fun x => zlt x e) A -> Forall (fun x => zlt e x) B -> zinsert e (A ++ B) = A ++ e :: B.
Proof.
  induction 1 as [|x A Hx HA IH]; cbn [app zinsert]; intros HB.
  - destruct HB as [|b B Hb HB]; [done|]. cbn [zinsert]. by rewrite decide_True.
  - rewrite decide_False; [by rewrite IH|]. intros Hex. apply (irreflexivity zlt e). by trans x.
Qed.

Lemma StronglySorted_app_iff {A} (R : A -> A -> Prop) (l1 l2 : list A) :
  StronglySorted R (l1 ++ l2) <->
  StronglySorted R l1 /\ StronglySorted R l2 /\ (forall x y, x ∈ l1 -> y ∈ l2 -> R x y).
Proof.
  induction l1 as [|a l1 IH]; cbn [app].
  - split; [|tauto]. intros Hs. split_and!; [constructor|done|set_solver].
  - split.
    + intros Hs. apply StronglySorted_inv in Hs as [Hs Ha]. apply IH in Hs as (H1 & H2 & H3).
      rewrite Forall_app, !Forall_forall in Ha. split_and!; [constructor; [done|apply Forall_forall, Ha]|done|].
      intros x y [-> |Hx]%elem_of_cons Hy; [by apply Ha|by apply H3].
    + intros (H1 & H2 & H3). apply StronglySorted_inv in H1 as [H1 Ha]. constructor.
      * apply IH. split_and!; [done..|]. intros x y Hx Hy. apply H3; [set_solver|done].
      * apply Forall_app. split; [done|]. apply Forall_forall. intros y Hy. apply H3; set_solver.
Qed.

(** Where an element goes that is not in a sorted list *)
Lemma place_split e L :
  StronglySorted zlt L -> e_ele e ∉ e_ele <$> L ->
  exists A B, L = A ++ B /\ Forall (fun x => zlt x e) A /\ Forall (fun x => zlt e x) B.
Proof.
  induction 1 as [|x L Hs IH Hx]; intros Hin; [by exists [], []|].
  rewrite fmap_cons, not_elem_of_cons in Hin. destruct Hin as [Hne Hin].
  destruct (zcmp (e_score x) (e_ele x) (e_score e) (e_ele e)) eqn:E.
  - apply zcmp_eq in E as [_ E]. congruence.
  - destruct (IH Hin) as (A & B & -> & HA & HB). exists (x :: A), B. split_and!; [done|by constructor|done].
  - exists [], (x :: L). split_and!; [done..|].
    assert (Hex : zlt e x) by (unfold zlt; by rewrite zcmp_antisym, E).
    constructor; [done|]. eapply Forall_impl; [apply Hx|]. intros y Hy. by trans x.
Qed.

Lemma sorted_insert e A B :
  StronglySorted zlt (A ++ B) -> Forall (fun x => zlt x e) A -> Forall (fun x => zlt e x) B ->
  StronglySorted zlt (A ++ e :: B).
Proof.
  rewrite !StronglySorted_app_iff, !Forall_forall. intros (H1 & H2 & H3) HA HB. split_and!; [done| |].
  - constructor; [done|by apply Forall_forall].
  - intros x y Hx [-> |Hy]%elem_of_cons; auto.
Qed.

(** A predicate that can only go from true to false along a list splits it. *)
Definition downward {A} (f : A -> bool) (l : list A) : Prop := StronglySorted (fun a b => f b = true -> f a = true) l.

Lemma downward_split {A} (f : A -> bool) (l : list A) :
  downward f l -> exists l1 l2, l = l1 ++ l2 /\ Forall (fun x => f x = true) l1 /\ Forall (fun x => f x = false) l2.
Proof.
  induction 1 as [|x l Hs (l1 & l2 & -> & H1 & H2) Hx].
  - by exists [], [].
  - destruct (f x) eqn:E.
    + exists (x :: l1), l2. auto.
    + exists [], (x :: l1 ++ l2). split_and!; [done..|]. constructor; [done|].
      eapply Forall_impl; [apply Hx|]. cbn. intros y Hy. destruct (f y); [|done]. by specialize (Hy eq_refl).
Qed.

Lemma app_cons_split {A} (l1 l2 pre : list A) e suf :
  l1 ++ l2 = pre ++ e :: suf ->
  (exists k, l1 = pre ++ e :: k /\ suf = k ++ l2) \/ (exists k, pre = l1 ++ k /\ l2 = k ++ e :: suf).
Proof.
  intros Heq. destruct (app_eq_inv _ _ _ _ Heq) as [([|y k] & -> & Hk)|(k & -> & Hk)]; [|left|right; eauto].
  - right. exists []. rewrite !app_nil_r. split; [done|]. by rewrite Hk.
  - injection Hk as <- ->. eauto.
Qed.

Lemma sorted_downward (f : elem -> bool) (l : list elem) :
  StronglySorted zlt l -> (forall a b, a ∈ l -> b ∈ l -> zlt a b -> f b = true -> f a = true) -> downward f l.
Proof.
  intros Hs Hf. induction Hs as [|x l Hs IH Hx]; constructor.
  - apply IH. intros a b Ha Hb. apply Hf; set_solver.
  - apply Forall_forall. intros y Hy. apply Hf; [set_solver..|]. by apply (proj1 (Forall_forall _ _) Hx).
Qed.

(** ** Levels *)

(** Where the link of level [i] of an element leads, when the elements [l]
    follow it, and its span *)
Fixpoint hop (i : nat) (l : list elem) : option positive * Z :=
  match l with
  | [] => (None, 0)
  | e :: l => if (i <? height e)%nat then (Some (ptr e), 1) else ((hop i l).1, (hop i l).2 + 1)
  end.

Definition low (i : nat) (e : elem) : Prop := (height e <= i)%nat.

Lemma hop_app_low i l1 l2 :
  Forall (low i) l1 -> hop i (l1 ++ l2) = ((hop i l2).1, (hop i l2).2 + Z.of_nat (length l1)).
Proof.
  induction 1 as [|e l He Hl IH]; cbn [app hop length].
  - rewrite Z.add_0_r. by destruct (hop i l2).
  - unfold low in He. rewrite (proj2 (Nat.ltb_ge _ _) He), IH. cbn [fst snd]. f_equal. lia.
Qed.

Lemma hop_high i l1 u l2 l3 : (i < height u)%nat -> hop i (l1 ++ u :: l2) = hop i (l1 ++ u :: l3).
Proof.
  intros Hu. induction l1 as [|e l IH]; cbn [app hop].
  - by rewrite (proj2 (Nat.ltb_lt _ _) Hu).
  - by rewrite IH.
Qed.

Lemma hop_cons_high i u l : (i < height u)%nat -> hop i (u :: l) = (Some (ptr u), 1).
Proof. intros Hu. cbn [hop]. by rewrite (proj2 (Nat.ltb_lt _ _) Hu). Qed.

Lemma hop_low i l : Forall (low i) l -> hop i l = (None, Z.of_nat (length l)).
Proof. intros Hl. rewrite <- (app_nil_r l) at 1. by rewrite hop_app_low. Qed.

(** Either no element has the level, or the link leads to the first one. *)
Lemma level_split i l :
  Forall (low i) l \/ exists l1 u l2, l = l1 ++ u :: l2 /\ Forall (low i) l1 /\ (i < height u)%nat.
Proof.
  induction l as [|e l [IH|(l1 & u & l2 & -> & H1 & H2)]]; [by left|..]; destruct (decide (i < height e)%nat) as [Hu|Hu].
  - right. by exists [], e, l.
  - left. constructor; [unfold low; lia|done].
  - right. by exists [], e, (l1 ++ u :: l2).
  - right. exists (e :: l1), u, l2. split_and!; [done| |done]. constructor; [unfold low; lia|done].
Qed.

Lemma hop_split i l :
  (hop i l = (None, Z.of_nat (length l)) /\ Forall (low i) l) \/
  exists l1 u l2, l = l1 ++ u :: l2 /\ Forall (low i) l1 /\ (i < height u)%nat /\
    hop i l = (Some (ptr u), Z.of_nat (length l1) + 1).
Proof.
  destruct (level_split i l) as [Hl|(l1 & u & l2 & -> & H1 & H2)].
  - left. split; [by apply hop_low|done].
  - right. exists l1, u, l2. split_and!; try done. rewrite hop_app_low, hop_cons_high by done. cbn. f_equal. lia.
Qed.

Lemma hop_range i l : 0 <= (hop i l).2 <= Z.of_nat (length l).
Proof.
  induction l as [|e l IH]; cbn [hop length]; [by cbn|]. destruct (_ <? _)%nat; cbn [snd]; lia.
Qed.

Lemma hop_in i l p : (hop i l).1 = Some p -> exists e, e ∈ l /\ p = ptr e.
Proof.
  destruct (hop_split i l) as [[-> _]|(l1 & u & l2 & -> & _ & _ & ->)]; [done|]. intros [= <-]. exists u. set_solver.
Qed.

(** ** Nodes *)

Notation heap := (gmap positive zskiplistNode).

(** The node at [p] has a link of level [i] to [f] with span [s]; at level 0
    the field of the span holds other data. *)
Definition entry (h : heap) (p : positive) (i : nat) (fs : option positive * Z) : Prop :=
  exists nd l, h !! p = Some nd /\ level nd !! i = Some l /\ forward l = fs.1 /\ (i = O \/ span l = fs.2).

Definition level_ok (h : heap) (C : list elem) (i : nat) : Prop :=
  forall pre e suf, C = pre ++ e :: suf -> (i < height e)%nat -> entry h (ptr e) i (hop i suf).

Definition node_data (e : elem) (nd : zskiplistNode) : Prop :=
  score nd = e_score e /\ ele nd = e_ele e /\ block nd = e_block e /\ length (level nd) = height e.

Definition holds (h : heap) (e : elem) : Prop := exists nd, h !! ptr e = Some nd /\ node_data e nd.

(** The number of levels is recorded in the node. *)
Definition info_ok (h : heap) (e : elem) : Prop :=
  exists nd, h !! ptr e = Some nd /\ node_levels nd = Some (height e).

(** The backward links of [L], when [p] is before it *)
Fixpoint back_ok (h : heap) (p : option positive) (L : list elem) : Prop :=
  match L with
  | [] => True
  | e :: L => (exists nd, h !! ptr e = Some nd /\ backward nd = p) /\ back_ok h (Some (ptr e)) L
  end.

(** The pointer to the last element, or [p] *)
Definition lastp (p : option positive) (L : list elem) : option positive := from_option (fun e => Some (ptr e)) p (last L).

Lemma lastp_snoc p L e : lastp p (L ++ [e]) = Some (ptr e).
Proof. unfold lastp. by rewrite last_snoc. Qed.

Lemma lastp_cons p e L : lastp p (e :: L) = lastp (Some (ptr e)) L.
Proof. unfold lastp. rewrite last_cons. by destruct (last L). Qed.

Lemma lastp_app p A B : lastp p (A ++ B) = lastp (lastp p A) B.
Proof. unfold lastp. rewrite last_app. by destruct (last B). Qed.

Lemma back_ok_app h p A B : back_ok h p (A ++ B) <-> back_ok h p A /\ back_ok h (lastp p A) B.
Proof.
  revert p. induction A as [|e A IH]; intros p; cbn [app back_ok]; [by split; [|intros [_ ?]]|].
  rewrite IH, lastp_cons. tauto.
Qed.

Lemma back_ok_frame h h' p L :
  (forall e, e ∈ L -> forall nd, h !! ptr e = Some nd -> exists nd', h' !! ptr e = Some nd' /\ backward nd' = backward nd) ->
  back_ok h p L -> back_ok h' p L.
Proof.
  revert p. induction L as [|e L IH]; intros p Hf; cbn [back_ok]; [done|]. intros [(nd & Hn & Hb) HL]. split.
  - destruct (Hf e ltac:(set_solver) nd Hn) as (nd' & Hn' & Hb'). exists nd'. by rewrite Hb'.
  - apply IH; [|done]. intros x Hx. apply Hf. set_solver.
Qed.

Lemma level_ok_suffix h pre C i : level_ok h (pre ++ C) i -> level_ok h C i.
Proof. intros Hl pre' e suf -> Hi. apply (Hl (pre ++ pre') e suf); [by rewrite <- app_assoc|done]. Qed.

(** What the code reads as the span *)
Lemma entry_span h p i l nd lv :
  entry h p i (hop i l) -> h !! p = Some nd -> level nd !! i = Some lv -> Forall (fun e => 1 <= height e)%nat l ->
  forward lv = (hop i l).1 /\ zslGetNodeSpanAtLevel nd i = Some (hop i l).2.
Proof.
  intros (nd' & lv' & Hn & Hl & Hf & Hs) Hn2 Hl2 Hh. simplify_eq. split; [done|].
  unfold zslGetNodeSpanAtLevel. rewrite Hl. mstep. destruct i as [|i]; cbn [Nat.ltb Nat.leb].
  - rewrite Hf. destruct l as [|e l]; [done|]. inversion Hh; subst. cbn [hop].
    rewrite (proj2 (Nat.ltb_lt _ _)) by lia. done.
  - destruct Hs as [? | ->]; done.
Qed.

(** ** Searching *)

(** A walk goes along the elements [A] and stops before the elements [B]: its
    condition holds for the nodes of [A], which are the first ones. The rank
    and the span that it is given add to the place of the node. *)
Definition stops (cond : option zskiplistNode -> Z -> Z -> bool) (A B : list elem) : Prop :=
  (forall r s, cond None r s = false) /\
  (forall P e S nd r s, P <> [] -> A ++ B = P ++ e :: S -> node_data e nd -> 0 <= r -> 0 <= s -> r + s = Z.of_nat (length P) ->
     cond (Some nd) r s = bool_decide (length P < length A)%nat).

(** The last element of [A] that has level [i], and its place *)
Definition pred_at (A : list elem) (i : nat) (ur : positive * Z) : Prop :=
  exists A1 u A2, A = A1 ++ u :: A2 /\ (i < height u)%nat /\ Forall (low i) A2 /\ ur = (ptr u, Z.of_nat (length A1)).

Lemma deref_holds m e : holds (nodes m) e -> exists nd, deref m (Some (ptr e)) = Some (Some nd) /\ node_data e nd.
Proof. intros (nd & Hn & Hd). exists nd. cbn [deref]. rewrite Hn. done. Qed.

Section search.
Context (m : zmem) (cond : option zskiplistNode -> Z -> Z -> bool) (A B : list elem).
Hypothesis Hcond : stops cond A B.
Hypothesis Hdata : Forall (holds (nodes m)) (A ++ B).
Hypothesis Hheight : Forall (fun e => 1 <= height e)%nat (A ++ B).
Hypothesis Hlen : Z.of_nat (length (A ++ B)) < 2 ^ 63.

Lemma walk_ok i fuel A1 x A2 :
  level_ok (nodes m) (A ++ B) i -> A = A1 ++ x :: A2 -> (i < height x)%nat -> (length A2 <= fuel)%nat ->
  exists ur, walk m fuel cond i (ptr x) (Z.of_nat (length A1)) = Some ur /\ pred_at A i ur.
Proof.
  intros Hl. revert A1 x A2. induction fuel as [fuel IH] using lt_wf_ind. intros A1 x A2 HA Hx Hf.
  assert (HC : A ++ B = A1 ++ x :: (A2 ++ B)) by by rewrite HA, <- app_assoc.
  destruct (Hl _ _ _ HC Hx) as (nd & lv & Hn & Hlv & Hfw & Hsp).
  assert (Hh2 : Forall (fun e => 1 <= height e)%nat (A2 ++ B)).
  { rewrite HC in Hheight. apply Forall_app in Hheight as [_ Hh]. by inversion Hh. }
  destruct (entry_span (nodes m) (ptr x) i (A2 ++ B) nd lv) as [Hfw' Hspan]; [by exists nd, lv|done..|].
  rewrite (ltac:(by destruct fuel) : walk m fuel cond i (ptr x) (Z.of_nat (length A1)) =
    (nd ← nodes m !! ptr x; l ← level nd !! i; next ← deref m (forward l); s ← zslGetNodeSpanAtLevel nd i;
     if cond next (Z.of_nat (length A1)) s then
       match fuel with O => None | S fuel => q ← forward l; walk m fuel cond i q (u64 (Z.of_nat (length A1) + s)) end
     else Some (ptr x, Z.of_nat (length A1)))).
  rewrite Hn. mstep. rewrite Hlv. mstep. rewrite Hspan, Hfw'.
  destruct (hop_split i (A2 ++ B)) as [[Heq Hlow]|(l1 & u & l2 & Heq & Hlow & Hu & Hhop)].
  - rewrite Heq. cbn [fst snd deref]. mstep. rewrite (proj1 Hcond). eexists. split; [done|].
    exists A1, x, A2. split_and!; try done. by apply Forall_app in Hlow as [? _].
  - rewrite Hhop. cbn [fst snd].
    assert (HC2 : A ++ B = (A1 ++ x :: l1) ++ u :: l2) by by rewrite HC, Heq, <- app_assoc.
    destruct (deref_holds m u) as (ndu & -> & Hdu).
    { rewrite HC2 in Hdata. apply Forall_app in Hdata as [_ Hd]. by inversion Hd. }
    mstep. rewrite (proj2 Hcond (A1 ++ x :: l1) u l2 ndu); [|by destruct A1|done..|lia|lia|rewrite length_app; cbn; lia].
    destruct (bool_decide_reflect (length (A1 ++ x :: l1) < length A)%nat) as [Hlt|Hge].
    + assert (HA2 : exists k, A2 = l1 ++ u :: k).
      { rewrite HA, !length_app in Hlt. cbn [length] in Hlt.
        destruct (app_eq_inv _ _ _ _ Heq) as [([|y k] & -> & Hk)|(k & -> & Hk)].
        - rewrite app_nil_r in Hlt. lia.
        - injection Hk as -> ->. eauto.
        - rewrite length_app in Hlt. lia. }
      destruct HA2 as [k ->]. rewrite length_app in Hf. cbn [length] in Hf.
      destruct fuel as [|fuel]; [lia|]. mstep.
      replace (u64 (Z.of_nat (length A1) + (Z.of_nat (length l1) + 1))) with (Z.of_nat (length (A1 ++ x :: l1))).
      * apply (IH fuel) with (A2 := k); [lia| |done|lia]. by rewrite HA, <- app_assoc.
      * rewrite length_app. cbn [length]. rewrite wrapU_id; [lia|].
        rewrite HC2, !length_app in Hlen. cbn [length] in Hlen. unfold inU. zpow. lia.
    + eexists. split; [done|]. exists A1, x, A2. split_and!; try done.
      rewrite HA, !length_app in Hge. cbn [length] in Hge.
      assert (HA2 : A2 = take (length A2) l1).
      { rewrite <- (take_app_le l1 (u :: l2)) by lia. rewrite <- Heq. by rewrite take_app_length. }
      rewrite HA2. by apply Forall_take.
Qed.

(** The whole search, from the top level down: the last elements of [A] *)
Lemma search_ok n A1 x A2 :
  (forall i, (i < n)%nat -> level_ok (nodes m) (A ++ B) i) -> A = A1 ++ x :: A2 -> (n <= height x)%nat ->
  (length A <= S (walk_fuel m))%nat ->
  exists ur, search m cond n (ptr x) (Z.of_nat (length A1)) = Some ur /\ length ur = n /\
    (forall i u, ur !! i = Some u -> pred_at A i u).
Proof.
  revert A1 x A2. induction n as [|n IH]; intros A1 x A2 Hl HA Hx Hf; cbn [search].
  { exists []. by split_and!. }
  destruct (walk_ok n (walk_fuel m) A1 x A2) as ([p r] & -> & Hp); [auto with lia..| |].
  { rewrite HA, length_app in Hf. cbn [length] in Hf. lia. }
  mstep. pose proof Hp as (B1 & u & B2 & HA' & Hu & Hlow & [= -> ->]).
  destruct (IH B1 u B2) as (ur & -> & Hlen' & Hur); [auto with lia|done|lia|done|].
  mstep. eexists. split; [done|]. split; [rewrite length_app; cbn; lia|].
  intros i v Hv. apply lookup_app_Some in Hv as [Hv|[Hge Hv]]; [by apply Hur|].
  apply list_lookup_singleton_Some in Hv as [Hi <-]. assert (i = n) as -> by lia. done.
Qed.
End search.

Lemma stops_pred cond (f : elem -> bool) x A B :
  (forall r s, cond None r s = false) -> (forall e nd r s, e ∈ A ++ B -> node_data e nd -> cond (Some nd) r s = f e) ->
  Forall (fun e => f e = true) A -> Forall (fun e => f e = false) B -> stops cond (x :: A) B.
Proof.
  intros Hn Hc HA HB. split; [done|]. intros [|y P] e S nd r s HP Heq Hd _ _ _; [done|]. injection Heq as <- Heq.
  rewrite (Hc e) by (rewrite ?Heq; set_solver). cbn [length].
  destruct (app_cons_split _ _ _ _ _ Heq) as [(k & -> & ->)|(k & -> & ->)].
  - rewrite Forall_app, Forall_cons in HA. rewrite bool_decide_true by (rewrite length_app; cbn; lia). apply HA.
  - rewrite Forall_app, Forall_cons in HB. rewrite bool_decide_false by (rewrite length_app; cbn; lia). apply HB.
Qed.

(** ** What operations leave as it is *)

(** A relation of the nodes at the same addresses *)
Definition lift (R : zskiplistNode -> zskiplistNode -> Prop) (h h' : heap) : Prop :=
  forall p, option_Forall2 R (h !! p) (h' !! p).

Definition same_body (a b : zskiplistNode) : Prop :=
  score a = score b /\ ele a = ele b /\ block a = block b /\ length (level a) = length (level b).
Definition same_info (a b : zskiplistNode) : Prop := node_levels a = node_levels b.
Definition same_back (a b : zskiplistNode) : Prop := backward a = backward b.
(** The field of the span of level 0 is not a span. *)
Definition links (j : nat) (l : zskiplistLevel) : option positive * Z := (forward l, if (0 <? j)%nat then span l else 0).
Definition same_level (j : nat) (a b : zskiplistNode) : Prop := links j <$> level a !! j = links j <$> level b !! j.

#[export] Instance same_body_preorder : PreOrder same_body.
Proof. split; [by intros a|]. unfold same_body. intros a b c (? & ? & ? & ?) (? & ? & ? & ?). split_and!; congruence. Qed.
#[export] Instance same_info_preorder : PreOrder same_info.
Proof. split; [by intros a|]. unfold same_info. intros a b c. congruence. Qed.
#[export] Instance same_back_preorder : PreOrder same_back.
Proof. split; [by intros a|]. unfold same_back. intros a b c. congruence. Qed.
#[export] Instance same_level_preorder j : PreOrder (same_level j).
Proof. split; [by intros a|]. unfold same_level. intros a b c. congruence. Qed.
#[export] Instance lift_preorder R `{!PreOrder R} : PreOrder (lift R).
Proof.
  split; [by intros h p|]. intros h1 h2 h3 H12 H23 p. specialize (H12 p). specialize (H23 p). by etrans.
Qed.

Lemma lift_insert R `{!Reflexive R} (h : heap) q nd nd' : h !! q = Some nd -> R nd nd' -> lift R h (<[q := nd']> h).
Proof.
  intros Hq HR p. destruct (decide (p = q)) as [-> |Hne].
  - rewrite Hq, lookup_insert_eq. by constructor.
  - by rewrite lookup_insert_ne.
Qed.

Lemma lift_lookup R h h' p nd : lift R h h' -> h !! p = Some nd -> exists nd', h' !! p = Some nd' /\ R nd nd'.
Proof. intros HR Hp. specialize (HR p). rewrite Hp in HR. inversion HR; subst. eauto. Qed.

Lemma lift_dom R h h' : lift R h h' -> dom h' = dom h.
Proof.
  intros HR. apply set_eq. intros p. rewrite !elem_of_dom. specialize (HR p). by destruct HR.
Qed.

Lemma holds_lift h h' e : lift same_body h h' -> holds h e -> holds h' e.
Proof.
  intros Hl (nd & Hn & H1 & H2 & H3 & H4). destruct (lift_lookup _ _ _ _ _ Hl Hn) as (nd' & Hn' & E1 & E2 & E3 & E4).
  exists nd'. split; [done|]. split_and!; congruence.
Qed.

Lemma info_lift h h' e : lift same_info h h' -> info_ok h e -> info_ok h' e.
Proof.
  intros Hl (nd & Hn & H1). destruct (lift_lookup _ _ _ _ _ Hl Hn) as (nd' & Hn' & E). exists nd'.
  split; [done|]. by rewrite <- E.
Qed.

Lemma back_lift h h' p L : lift same_back h h' -> back_ok h p L -> back_ok h' p L.
Proof.
  intros Hl. apply back_ok_frame. intros e _ nd Hn. destruct (lift_lookup _ _ _ _ _ Hl Hn) as (nd' & Hn' & E).
  exists nd'. by rewrite E.
Qed.

Lemma entry_lift h h' p i fs : lift (same_level i) h h' -> entry h p i fs -> entry h' p i fs.
Proof.
  intros Hl (nd & l & Hn & Hlv & H1 & H2). destruct (lift_lookup _ _ _ _ _ Hl Hn) as (nd' & Hn' & E).
  unfold same_level in E. rewrite Hlv in E. destruct (level nd' !! i) as [l'|] eqn:El; [|done].
  injection E as E1 E2. exists nd', l'. split_and!; [done..|congruence|].
  destruct i as [|i]; [by left|]. right. cbn in E2. destruct H2; [done|]. congruence.
Qed.

Lemma level_lift h h' C i : lift (same_level i) h h' -> level_ok h C i -> level_ok h' C i.
Proof. intros Hl Hc pre e suf HC Hi. eapply entry_lift; eauto. Qed.

(** A change of the links of level [i] only *)
Definition only_level (i : nat) (h h' : heap) : Prop :=
  lift same_body h h' /\ lift same_info h h' /\ lift same_back h h' /\ forall j, j <> i -> lift (same_level j) h h'.

#[export] Instance only_level_preorder i : PreOrder (only_level i).
Proof.
  split; [by intros h|]. intros h1 h2 h3 (A1 & A2 & A3 & A4) (B1 & B2 & B3 & B4).
  split_and!; [by etrans..|]. intros j Hj. etrans; eauto.
Qed.

Lemma only_level_put h q nd i l l0 :
  h !! q = Some nd -> level nd !! i = Some l0 -> (i = O -> span l = span l0) ->
  only_level i h (<[q := put_level nd i l]> h).
Proof.
  intros Hq Hl Hs. split_and!.
  - apply (lift_insert _ _ _ nd); [done|]. split_and!; try done. cbn. by rewrite length_insert.
  - apply (lift_insert _ _ _ nd); [done|]. unfold same_info, node_levels. cbn [put_level level].
    destruct i as [|i].
    + rewrite Hl, list_lookup_insert_eq by eauto using lookup_lt_Some. mstep. by rewrite Hs.
    + by rewrite list_lookup_insert_ne by lia.
  - by apply (lift_insert _ _ _ nd).
  - intros j Hj. apply (lift_insert _ _ _ nd); [done|]. unfold same_level. cbn [put_level level]. by rewrite list_lookup_insert_ne.
Qed.

(** ** Loops over levels *)

Section for_levels.
Context {U : Type} (f : zmem -> nat -> U -> option zmem) (z : zskiplist) (D : list elem).
(** What the body needs to know of the arrays, and what it does to its level *)
Context (P : nat -> U -> Prop) (Q Q' : nat -> heap -> Prop).
Hypothesis HQ : forall i h h', lift (same_level i) h h' -> Q i h -> Q i h'.
Hypothesis HQ' : forall i h h', lift (same_level i) h h' -> Q' i h -> Q' i h'.
Hypothesis Hf : forall m i u,
  zsl m = z -> P i u -> Forall (holds (nodes m)) D -> Q i (nodes m) ->
  exists m', f m i u = Some m' /\ zsl m' = z /\ only_level i (nodes m) (nodes m') /\ Q' i (nodes m').

Lemma for_levels_ok us i m :
  zsl m = z -> (forall k u, us !! k = Some u -> P (i + k)%nat u) -> Forall (holds (nodes m)) D ->
  (forall j, (i <= j < i + length us)%nat -> Q j (nodes m)) ->
  exists m', for_levels f m i us = Some m' /\ zsl m' = z /\
    lift same_body (nodes m) (nodes m') /\ lift same_info (nodes m) (nodes m') /\ lift same_back (nodes m) (nodes m') /\
    (forall j, (j < i \/ i + length us <= j)%nat -> lift (same_level j) (nodes m) (nodes m')) /\
    (forall j, (i <= j < i + length us)%nat -> Q' j (nodes m')).
Proof.
  revert i m. induction us as [|u us IH]; intros i m Hz HP HD HC; cbn [for_levels length].
  { exists m. split_and!; try done. intros j Hj. lia. }
  cbn [length] in HC.
  destruct (Hf m i u) as (m1 & -> & Hz1 & (Ho1 & Ho2 & Ho3 & Ho4) & Hl1); [done| |done|apply HC; lia|].
  { rewrite <- (Nat.add_0_r i). by apply HP. }
  mstep. destruct (IH (S i) m1) as (m2 & -> & Hz2 & Hb2 & Hi2 & Hk2 & Hs2 & Hl2); [done|..].
  - intros k v Hv. rewrite Nat.add_succ_comm. by apply HP.
  - eapply Forall_impl; [apply HD|]. intros e. by apply holds_lift.
  - intros j Hj. eapply HQ; [apply Ho4|apply HC]; lia.
  - exists m2. split_and!; [done..|by etrans|by etrans|by etrans| |].
    + intros j Hj. etrans; [apply Ho4|apply Hs2]; lia.
    + intros j Hj. destruct (decide (j = i)) as [-> |]; [|apply Hl2; lia].
      eapply HQ'; [apply Hs2; lia|done].
Qed.
End for_levels.

(** ** One level with a part replaced *)

Lemma level_splice h h' A1 u A2 R R' B i :
  level_ok h (A1 ++ u :: A2 ++ R ++ B) i -> (i < height u)%nat -> Forall (low i) A2 ->
  (forall e, e ∈ A1 ++ B -> h' !! ptr e = h !! ptr e) ->
  entry h' (ptr u) i (hop i (A2 ++ R' ++ B)) ->
  (forall pre e suf, R' = pre ++ e :: suf -> (i < height e)%nat -> entry h' (ptr e) i (hop i (suf ++ B))) ->
  level_ok h' (A1 ++ u :: A2 ++ R' ++ B) i.
Proof.
  intros Hl Hu Hlow Hframe Hnew HR pre e suf Heq Hi.
  assert (Hkeep : forall fs, e ∈ A1 ++ B -> entry h (ptr e) i fs -> entry h' (ptr e) i fs).
  { intros fs He (nd & l & Hn & Hrest). exists nd, l. rewrite Hframe by done. done. }
  destruct (app_cons_split _ _ _ _ _ Heq) as [(k & -> & ->)|(k & -> & Heq2)].
  { apply Hkeep; [set_solver|]. rewrite (hop_high i k u _ (A2 ++ R ++ B)) by done.
    apply (Hl pre e); [by rewrite <- app_assoc|done]. }
  destruct k as [|u' k]; [injection Heq2 as -> <-; done|]. injection Heq2 as <- Heq2.
  destruct (app_cons_split _ _ _ _ _ Heq2) as [(k2 & -> & _)|(k2 & -> & Heq3)].
  { rewrite Forall_app, Forall_cons in Hlow. destruct Hlow as (_ & He & _). unfold low in He. lia. }
  destruct (app_cons_split _ _ _ _ _ Heq3) as [(k3 & -> & ->)|(k3 & -> & Heq4)]; [by eapply HR|].
  apply Hkeep; [rewrite Heq4; set_solver|].
  apply (Hl (A1 ++ u :: A2 ++ R ++ k3) e); [|done]. by rewrite Heq4, <- !app_assoc, <- app_comm_cons, <- !app_assoc.
Qed.

(** ** Writing a link *)

(** The field of the span, when a span is written *)
Definition new_span (i : nat) (l : zskiplistLevel) (s : Z) : Z := if (0 <? i)%nat then s else span l.

Lemma put_level_id nd i l : level nd !! i = Some l -> put_level nd i l = nd.
Proof. intros Hl. destruct nd. unfold put_level. cbn in *. by rewrite list_insert_id. Qed.

Lemma put_level_put nd i l l' : put_level (put_level nd i l) i l' = put_level nd i l'.
Proof. unfold put_level. cbn. by rewrite list_insert_insert_eq. Qed.

Lemma put_level_lookup nd i l l0 : level nd !! i = Some l0 -> level (put_level nd i l) !! i = Some l.
Proof. intros Hl. cbn. apply list_lookup_insert_eq. eauto using lookup_lt_Some. Qed.

Lemma set_forward_put nd i l p : level nd !! i = Some l -> set_forward nd i p = Some (put_level nd i (mkLevel p (span l))).
Proof. intros Hl. unfold set_forward. by rewrite Hl. Qed.

Lemma set_span_put nd i l s :
  level nd !! i = Some l -> zslSetNodeSpanAtLevel nd i s = Some (put_level nd i (mkLevel (forward l) (new_span i l (u64 s)))).
Proof.
  intros Hl. unfold zslSetNodeSpanAtLevel, new_span. rewrite Hl. destruct (0 <? i)%nat; [done|].
  rewrite put_level_id; [done|]. by destruct l.
Qed.

Lemma incr_span_put nd i l s :
  level nd !! i = Some l ->
  zslIncrNodeSpanAtLevel nd i s = Some (put_level nd i (mkLevel (forward l) (new_span i l (u64 (span l + s))))).
Proof.
  intros Hl. unfold zslIncrNodeSpanAtLevel, new_span. rewrite Hl. destruct (0 <? i)%nat; [done|].
  rewrite put_level_id; [done|]. by destruct l.
Qed.

Lemma decr_span_put nd i l s :
  level nd !! i = Some l ->
  zslDecrNodeSpanAtLevel nd i s = Some (put_level nd i (mkLevel (forward l) (new_span i l (u64 (span l - s))))).
Proof.
  intros Hl. unfold zslDecrNodeSpanAtLevel, new_span. rewrite Hl. destruct (0 <? i)%nat; [done|].
  rewrite put_level_id; [done|]. by destruct l.
Qed.

Lemma at_node_eq m p f nd nd' :
  nodes m !! p = Some nd -> f nd = Some nd' -> at_node m p f = Some (set_nodes m (<[p := nd']> (nodes m))).
Proof. intros Hn Hf. unfold at_node. rewrite Hn. mstep. by rewrite Hf. Qed.

Lemma entry_put (h : heap) p nd i f s l0 fs :
  h !! p = Some nd -> level nd !! i = Some l0 -> f = fs.1 -> (i <> O -> s = fs.2) ->
  entry (<[p := put_level nd i (mkLevel f (new_span i l0 s))]> h) p i fs.
Proof.
  intros Hn Hl -> Hs. eexists _, _. rewrite lookup_insert_eq. split; [done|]. split; [by eapply put_level_lookup|].
  split; [done|]. cbn [span]. unfold new_span. destruct i as [|i]; [by left|right]. cbn. auto.
Qed.

Lemma new_span_0 i l s : i = O -> new_span i l s = span l.
Proof. by intros ->. Qed.

(** ** The invariant *)

(** The number of levels of the list *)
Definition top (L : list elem) : nat := foldr Nat.max 1%nat (height <$> L).

Lemma top_ge L : (1 <= top L)%nat.
Proof. induction L as [|e L IH]; unfold top; cbn; [lia|]. fold (top L). lia. Qed.

Lemma top_cons e L : top (e :: L) = Nat.max (height e) (top L).
Proof. done. Qed.

Lemma top_low L i : (top L <= i)%nat -> Forall (low i) L.
Proof.
  induction L as [|e L IH]; [constructor|]. rewrite top_cons. intros Hi. constructor; [unfold low; lia|apply IH; lia].
Qed.

Lemma top_middle A e B : top (A ++ e :: B) = Nat.max (height e) (top (A ++ B)).
Proof. induction A as [|x A IH]; cbn [app]; [done|]. rewrite !top_cons, IH. lia. Qed.

(** The nodes in memory are linked as the list [L]. In the middle of an
    operation the list may have more levels than its elements need. *)
Record linked (m : zmem) (H : elem) (L : list elem) : Prop := {
  sk_header : header (zsl m) = ptr H;
  sk_max : height H = ZSKIPLIST_MAXLEVEL;
  sk_data : Forall (holds (nodes m)) (H :: L);
  sk_info : Forall (info_ok (nodes m)) L;
  sk_levels : forall i, (i < zlevel (zsl m))%nat -> level_ok (nodes m) (H :: L) i;
  sk_above : forall i, (zlevel (zsl m) <= i < ZSKIPLIST_MAXLEVEL)%nat -> entry (nodes m) (ptr H) i (None, 0);
  sk_back : back_ok (nodes m) None L;
  sk_tail : tail (zsl m) = lastp None L;
  sk_length : zlength (zsl m) = Z.of_nat (length L);
  sk_small : Z.of_nat (length L) < 2 ^ 63 - 2;
  sk_level : (top L <= zlevel (zsl m) <= ZSKIPLIST_MAXLEVEL)%nat;
  sk_heights : Forall (fun e => 1 <= height e <= ZSKIPLIST_MAXLEVEL)%nat L;
  sk_nodup : NoDup (ptr <$> H :: L);
  sk_sorted : StronglySorted zlt L;
  sk_members : NoDup (e_ele <$> L);
  sk_nan : Forall (fun e => isnan (e_score e) = false) L
}.

Definition blocks (L : list elem) : Z := foldr (fun e s => e_block e + s) 0 L.

(** The state between operations: the elements are [L], with no level to
    spare, no other node is allocated, and the bytes are counted. *)
Record skiplist (base : Z) (m : zmem) (H : elem) (L : list elem) : Prop := {
  sk_linked : linked m H L;
  sk_top : zlevel (zsl m) = top L;
  sk_dom : dom (nodes m) = list_to_set (ptr <$> H :: L);
  sk_alloc : alloc_size (zsl m) = u64 (base + blocks (H :: L))
}.

Lemma linked_level m H L : linked m H L -> (1 <= zlevel (zsl m) <= ZSKIPLIST_MAXLEVEL)%nat.
Proof.
  intros Hl. pose proof (sk_level _ _ _ Hl). pose proof (top_ge L). lia.
Qed.

(** What is searched for, from the header *)
Lemma search_linked m H A B cond :
  linked m H (A ++ B) -> stops cond (H :: A) B ->
  exists ur, search m cond (zlevel (zsl m)) (header (zsl m)) 0 = Some ur /\ length ur = zlevel (zsl m) /\
    (forall i u, ur !! i = Some u -> pred_at (H :: A) i u).
Proof.
  intros Hl Hc. pose proof (linked_level _ _ _ Hl) as Ht.
  pose proof (sk_small _ _ _ Hl) as Hsmall. rewrite (sk_header _ _ _ Hl).
  apply (search_ok m cond (H :: A) B Hc (sk_data _ _ _ Hl)) with (A1 := []) (A2 := A).
  - constructor; [rewrite (sk_max _ _ _ Hl); unfold ZSKIPLIST_MAXLEVEL; lia|].
    eapply Forall_impl; [apply (sk_heights _ _ _ Hl)|]. cbn. lia.
  - cbn [app length]. lia.
  - apply (sk_levels _ _ _ Hl).
  - done.
  - rewrite (sk_max _ _ _ Hl). lia.
  - unfold walk_fuel. rewrite (sk_length _ _ _ Hl), length_app. cbn [length]. lia.
Qed.
