(* ===== verification/ZskiplistOps.v ===== *)
(** * The skip list of sorted sets: insertion, deletion, change of a score *)

From stdpp Require Import gmap sorting.
From S2P Require Import Prelude Numstr Sds Object Zskiplist ZskiplistInv.

#[local] Open Scope Z_scope.

(** ** Linking and unlinking at one level *)

Lemma u64_nat (n : Z) : 0 <= n < 2 ^ 63 -> u64 n = n.
Proof. intros Hn. apply wrapU_id. unfold inU. zpow. lia. Qed.

Lemma nodup_out (pre suf : list elem) e x : NoDup (ptr <$> pre ++ e :: suf) -> x ∈ pre ++ suf -> ptr x <> ptr e.
Proof.
  rewrite <- Permutation_middle, fmap_cons, NoDup_cons. intros [Hn _] Hx Heq. apply Hn. rewrite <- Heq.
  by apply list_elem_of_fmap_2.
Qed.

Lemma insert_twice (h : heap) p q a b c d :
  p <> q -> <[p := a]> (<[q := b]> (<[p := c]> (<[q := d]> h))) = <[p := a]> (<[q := b]> h).
Proof. intros Hne. rewrite (insert_insert_ne _ q p), insert_insert_eq by done. by rewrite insert_insert_eq. Qed.

(** What the code writes when it links a node at a level *)
Lemma link_level_eq m e u rank0 rank i nx nl ux ul :
  e <> u -> nodes m !! e = Some nx -> level nx !! i = Some nl -> nodes m !! u = Some ux -> level ux !! i = Some ul ->
  let d := u64 (rank0 - rank) in
  link_level e rank0 m i (u, rank) = Some (set_nodes m
    (<[u := put_level ux i (mkLevel (Some e) (new_span i ul (u64 (u64 (d + 1)))))]>
    (<[e := put_level nx i (mkLevel (forward ul) (new_span i nl (u64 (u64 ((if (0 <? i)%nat then span ul else 1) - d)))))]>
     (nodes m)))).
Proof.
  intros Hne Hnx Hnl Hux Hul. cbv zeta.
  unfold link_level. rewrite Hux. mstep. rewrite Hul. mstep.
  rewrite (at_node_eq m e _ nx _ Hnx (set_forward_put nx i nl _ Hnl)). mstep.
  rewrite (at_node_eq _ u _ ux (put_level ux i (mkLevel (Some e) (span ul))));
    [|cbn [set_nodes nodes]; by rewrite lookup_insert_ne|by apply set_forward_put].
  mstep. cbn [set_nodes nodes zsl]. rewrite lookup_insert_eq. mstep.
  unfold zslGetNodeSpanAtLevel at 1. rewrite (put_level_lookup _ _ _ _ Hul). mstep. cbn [span forward].
  erewrite (at_node_eq _ e _ (put_level nx i (mkLevel (forward ul) (span nl))));
    [|cbn [set_nodes nodes]; rewrite lookup_insert_ne by done; by rewrite lookup_insert_eq
     |by rewrite (set_span_put _ _ _ _ (put_level_lookup _ _ _ _ Hnl)), put_level_put].
  mstep. cbn [set_nodes nodes zsl].
  erewrite (at_node_eq _ u _ (put_level ux i (mkLevel (Some e) (span ul))));
    [|cbn [set_nodes nodes]; rewrite lookup_insert_ne by done; by rewrite lookup_insert_eq
     |by rewrite (set_span_put _ _ _ _ (put_level_lookup _ _ _ _ Hul)), put_level_put].
  cbn [set_nodes nodes zsl]. by rewrite insert_twice.
Qed.

Section link.
Context (A B : list elem) (e : elem).
Hypothesis Hnodup : NoDup (ptr <$> A ++ e :: B).
Hypothesis Hlen : Z.of_nat (length (A ++ B)) < 2 ^ 63 - 1.

Lemma u_ne_e A1 u A2 : A = A1 ++ u :: A2 -> ptr u <> ptr e.
Proof. intros ->. eapply nodup_out; [done|]. set_solver. Qed.

Lemma link_frame A1 u A2 x : A = A1 ++ u :: A2 -> x ∈ A1 ++ B -> ptr x <> ptr u /\ ptr x <> ptr e.
Proof.
  intros -> Hx. split.
  - rewrite <- app_assoc in Hnodup. cbn [app] in Hnodup. eapply nodup_out; [done|]. set_solver.
  - eapply nodup_out; [done|]. set_solver.
Qed.

Lemma link_level_ok m i ur :
  pred_at A i ur /\ (i < height e)%nat -> Forall (holds (nodes m)) (e :: A) -> level_ok (nodes m) (A ++ B) i ->
  exists m', link_level (ptr e) (Z.of_nat (length A) - 1) m i ur = Some m' /\ zsl m' = zsl m /\
    only_level i (nodes m) (nodes m') /\ level_ok (nodes m') (A ++ e :: B) i.
Proof.
  intros [(A1 & u & A2 & HA & Hu & Hlow & ->) He] Hd Hl. inversion Hd as [|? ? (nx & Hnx & Hdx) _]; subst x l.
  pose proof (u_ne_e _ _ _ HA) as Hne. pose proof (fun x => link_frame _ _ _ x HA) as Hframe.
  assert (HlA : Z.of_nat (length A) = Z.of_nat (length A1) + Z.of_nat (length A2) + 1).
  { rewrite HA, length_app. cbn [length]. lia. }
  rewrite length_app in Hlen. pose proof (hop_range i B) as HB.
  rewrite HA, <- app_assoc in Hl |- *. cbn [app] in Hl |- *.
  destruct (Hl A1 u (A2 ++ B) eq_refl Hu) as (ux & ul & Hux & Hul & Hf & Hs).
  destruct (lookup_lt_is_Some_2 (level nx) i) as [nl Hnl]; [destruct Hdx as (_ & _ & _ & ->); lia|].
  rewrite hop_app_low in Hf, Hs by done. cbn [fst snd] in Hf, Hs.
  rewrite <- HA, (link_level_eq m (ptr e) (ptr u) _ _ i nx nl ux ul) by done.
  eexists. split; [done|]. cbn [set_nodes nodes zsl]. split; [done|].
  replace (Z.of_nat (length A) - 1 - Z.of_nat (length A1)) with (Z.of_nat (length A2)) by lia.
  rewrite (u64_nat (Z.of_nat (length A2))), (u64_nat (_ + 1)), (u64_nat (_ + 1)) by lia.
  split.
  { etrans; eapply only_level_put; try done; [by intros ->|by rewrite lookup_insert_ne|by intros ->]. }
  apply (level_splice (nodes m) _ A1 u A2 [] [e] B); try done.
  - intros x Hx. destruct (Hframe x Hx). by rewrite !lookup_insert_ne.
  - apply entry_put; [by rewrite lookup_insert_ne|done|..];
      rewrite hop_app_low by done; cbn [app]; rewrite hop_cons_high by done; cbn [fst snd]; [done|lia].
  - intros pre x suf Hx Hix. destruct pre as [|? [|??]]; [|done..]. injection Hx as <- <-. cbn [app].
    rewrite insert_insert_ne by done. apply entry_put; [by rewrite lookup_insert_ne|done..|].
    intros Hi. destruct Hs as [?|Hs]; [done|]. rewrite (proj2 (Nat.ltb_lt 0 i)) by lia.
    rewrite Hs. rewrite (u64_nat (_ - _)), u64_nat by lia. lia.
Qed.

(** The levels that the new element does not have *)
Lemma incr_span_ok m i ur :
  pred_at A i ur /\ (height e <= i)%nat -> Forall (holds (nodes m)) (e :: A) -> level_ok (nodes m) (A ++ B) i ->
  exists m', incr_span m i ur = Some m' /\ zsl m' = zsl m /\
    only_level i (nodes m) (nodes m') /\ level_ok (nodes m') (A ++ e :: B) i.
Proof.
  intros [(A1 & u & A2 & HA & Hu & Hlow & ->) He] Hd Hl.
  pose proof (fun x => link_frame _ _ _ x HA) as Hframe.
  assert (HlA : Z.of_nat (length A) = Z.of_nat (length A1) + Z.of_nat (length A2) + 1).
  { rewrite HA, length_app. cbn [length]. lia. }
  rewrite length_app in Hlen. pose proof (hop_range i B) as HB.
  rewrite HA, <- app_assoc in Hl |- *. cbn [app] in Hl |- *.
  destruct (Hl A1 u (A2 ++ B) eq_refl Hu) as (ux & ul & Hux & Hul & Hf & Hs).
  rewrite hop_app_low in Hf, Hs by done. cbn [fst snd] in Hf, Hs.
  unfold incr_span. cbn [fst]. rewrite (at_node_eq m (ptr u) _ ux _ Hux (incr_span_put ux i ul 1 Hul)).
  eexists. split; [done|]. cbn [set_nodes nodes zsl]. split; [done|].
  split. { eapply only_level_put; try done. by intros ->. }
  apply (level_splice (nodes m) _ A1 u A2 [] [e] B); try done.
  - intros x Hx. destruct (Hframe x Hx). by rewrite !lookup_insert_ne.
  - assert (Hlow2 : Forall (low i) (A2 ++ [e])) by (apply Forall_app; split; [done|by repeat constructor]).
    rewrite app_assoc, hop_app_low by done. apply entry_put; try done. intros Hi. destruct Hs as [?|Hs]; [done|].
    rewrite length_app. cbn [fst snd length]. rewrite Hs, u64_nat by lia. lia.
  - intros pre x suf Hx Hix. destruct pre as [|? [|??]]; [|done..]. injection Hx as <- <-. lia.
Qed.

(** Unlinking [e] *)
Lemma unlink_level_ok m i u :
  (exists r, pred_at A i (u, r)) -> Forall (holds (nodes m)) (e :: A) -> level_ok (nodes m) (A ++ e :: B) i ->
  exists m', unlink_level (ptr e) m i u = Some m' /\ zsl m' = zsl m /\
    only_level i (nodes m) (nodes m') /\ level_ok (nodes m') (A ++ B) i /\ nodes m' !! ptr e = nodes m !! ptr e.
Proof.
  intros (r & A1 & w & A2 & HA & Hu & Hlow & [= -> ->]) Hd Hl. inversion Hd as [|? ? (nx & Hnx & Hdx) _]; subst x l.
  pose proof (u_ne_e _ _ _ HA) as Hne. pose proof (fun x => link_frame _ _ _ x HA) as Hframe.
  assert (HlA : Z.of_nat (length A) = Z.of_nat (length A1) + Z.of_nat (length A2) + 1).
  { rewrite HA, length_app. cbn [length]. lia. }
  rewrite length_app in Hlen. pose proof (hop_range i B) as HB.
  rewrite HA, <- app_assoc in Hl |- *. cbn [app] in Hl |- *.
  destruct (Hl A1 w (A2 ++ e :: B) eq_refl Hu) as (ux & ul & Hux & Hul & Hf & Hs).
  rewrite hop_app_low in Hf, Hs by done. cbn [fst snd] in Hf, Hs.
  unfold unlink_level. rewrite Hux. mstep. rewrite Hul. mstep.
  destruct (decide (i < height e)%nat) as [He|He].
  - rewrite hop_cons_high in Hf, Hs by done. cbn [fst snd] in Hf, Hs. rewrite Hf, bool_decide_true, Hnx by done. mstep.
    destruct (Hl (A1 ++ w :: A2) e B) as (nx' & nl & Hnx' & Hnl & Hfe & Hse); [by rewrite <- app_assoc|done|]. simplify_eq.
    unfold zslGetNodeSpanAtLevel. rewrite Hnl. mstep.
    rewrite (at_node_eq m (ptr w) _ ux _ Hux (incr_span_put ux i ul _ Hul)). mstep.
    erewrite (at_node_eq _ (ptr w)); [|by cbn [set_nodes nodes]; rewrite lookup_insert_eq
      |by rewrite (set_forward_put _ _ _ _ (put_level_lookup _ _ _ _ Hul)), put_level_put].
    eexists. split; [done|]. cbn [set_nodes nodes zsl]. split; [done|]. rewrite insert_insert_eq.
    split; [eapply only_level_put; try done; by intros ->|]. split; [|by rewrite lookup_insert_ne].
    apply (level_splice (nodes m) _ A1 w A2 [e] [] B); try done.
    + intros x Hx. destruct (Hframe x Hx). by rewrite !lookup_insert_ne.
    + cbn [app]. rewrite hop_app_low by done. apply entry_put; try done. intros Hi. cbn [fst snd].
      destruct Hs as [?|Hs]; [done|]. destruct Hse as [?|Hse]; [done|].
      rewrite (proj2 (Nat.ltb_lt 0 i)) by lia. rewrite Hs, Hse. unfold wrapU. rewrite Zplus_mod_idemp_r.
      rewrite Z.mod_small by lia. lia.
    + intros [|??] x suf Hx Hix; done.
  - rewrite bool_decide_false.
    2: { rewrite Hf. cbn [hop]. rewrite (proj2 (Nat.ltb_ge _ _)) by lia. cbn [fst]. intros (x & Hx & Hp)%hop_in.
         destruct (Hframe x); [set_solver|done]. }
    rewrite (at_node_eq m (ptr w) _ ux _ Hux (decr_span_put ux i ul 1 Hul)).
    eexists. split; [done|]. cbn [set_nodes nodes zsl]. split; [done|].
    split; [eapply only_level_put; try done; by intros ->|]. split; [|by rewrite lookup_insert_ne].
    cbn [hop] in Hf, Hs. rewrite (proj2 (Nat.ltb_ge _ _)) in Hf, Hs by lia. cbn [fst snd] in Hf, Hs.
    apply (level_splice (nodes m) _ A1 w A2 [e] [] B); try done.
    + intros x Hx. destruct (Hframe x Hx). by rewrite !lookup_insert_ne.
    + cbn [app]. rewrite hop_app_low by done. apply entry_put; try done. intros Hi. cbn [fst snd].
      destruct Hs as [?|Hs]; [done|]. rewrite Hs, u64_nat by lia. lia.
    + intros [|??] x suf Hx Hix; done.
Qed.
End link.

(** ** Insertion *)

Lemma linked_nodes m H L e : linked m H L -> e ∈ H :: L -> holds (nodes m) e.
Proof. intros Hl He. by apply (proj1 (Forall_forall _ _) (sk_data _ _ _ Hl)). Qed.

(** The condition of the search for a place *)
Lemma stops_gt H A B sc el :
  isnan sc = false -> Forall (fun e => isnan (e_score e) = false) (A ++ B) ->
  Forall (fun x => zcmp sc el (e_score x) (e_ele x) = Gt) A -> Forall (fun x => zcmp sc el (e_score x) (e_ele x) <> Gt) B ->
  stops (cmp_gt sc el) (H :: A) B.
Proof.
  intros Hn Hnan HA HB. apply (stops_pred _ (fun x => bool_decide (zcmp sc el (e_score x) (e_ele x) = Gt))).
  - done.
  - intros e nd r s He (Hs & Hel & _). unfold cmp_gt. rewrite <- Hs, <- Hel, <- compare_zcmp.
    + unfold Z.gtb. by destruct (_ ?= 0).
    + done.
    + rewrite Hs. by apply (proj1 (Forall_forall _ _) Hnan).
  - eapply Forall_impl; [apply HA|]. cbn. intros x Hx. by rewrite bool_decide_true.
  - eapply Forall_impl; [apply HB|]. cbn. intros x Hx. by rewrite bool_decide_false.
Qed.

Lemma raise_level_ok m H i ur :
  header (zsl m) = ptr H -> (1 <= i)%nat -> 0 <= zlength (zsl m) < 2 ^ 63 ->
  entry (nodes m) (ptr H) i (None, 0) ->
  exists m', raise_level m i ur = Some m' /\ zsl m' = zsl m /\ only_level i (nodes m) (nodes m') /\
    entry (nodes m') (ptr H) i (None, zlength (zsl m)).
Proof.
  intros Hh Hi Hz (nd & l & Hn & Hl & Hf & Hs). unfold raise_level. rewrite Hh.
  rewrite (at_node_eq m (ptr H) _ nd _ Hn (set_span_put nd i l _ Hl)). eexists. split; [done|].
  cbn [set_nodes nodes zsl]. split; [done|]. split; [eapply only_level_put; try done; by intros ->|].
  apply entry_put; try done. intros _. by rewrite u64_nat.
Qed.

Lemma set_node_levels_same nd n l :
  level nd !! O = Some l ->
  exists nd', set_node_levels nd n = Some nd' /\ same_body nd nd' /\ same_back nd nd' /\ forall j, same_level j nd nd'.
Proof.
  intros Hl. unfold set_node_levels. rewrite Hl. mstep. eexists. split; [done|].
  split; [split_and!; try done; symmetry; apply length_insert|]. split; [done|].
  intros [|j]; unfold same_level; cbn [put_level level].
  - rewrite Hl, list_lookup_insert_eq by eauto using lookup_lt_Some. done.
  - by rewrite list_lookup_insert_ne by lia.
Qed.

(** A change that keeps what the elements are and how they are linked *)
Lemma info_insert_ne (h : heap) q nd e : ptr e <> q -> info_ok h e -> info_ok (<[q := nd]> h) e.
Proof. intros Hne (x & Hx & Hi). exists x. by rewrite lookup_insert_ne. Qed.

Lemma linked_header_ne m H L e : linked m H L -> e ∈ L -> ptr e <> ptr H.
Proof. intros Hl He. apply (nodup_out [] L H e); [apply (sk_nodup _ _ _ Hl)|done]. Qed.

Lemma level_ok_header h H L i (Hlow : Forall (low i) L) : entry h (ptr H) i (hop i L) -> level_ok h (H :: L) i.
Proof.
  intros He [|x pre] e suf Heq Hi; [by injection Heq as <- <-|]. injection Heq as <- ->.
  rewrite Forall_app, Forall_cons in Hlow. destruct Hlow as (_ & Hl & _). unfold low in Hl. lia.
Qed.

Lemma grow_level_ok m H A B e ur :
  linked m H (A ++ B) -> holds (nodes m) e -> info_ok (nodes m) e -> ptr e <> ptr H ->
  (height e <= ZSKIPLIST_MAXLEVEL)%nat -> length ur = zlevel (zsl m) ->
  (forall i u, ur !! i = Some u -> pred_at (H :: A) i u) ->
  exists m' ur', grow_level m (height e) ur = Some (m', ur') /\ linked m' H (A ++ B) /\
    zlevel (zsl m') = Nat.max (height e) (zlevel (zsl m)) /\ holds (nodes m') e /\ info_ok (nodes m') e /\
    length ur' = zlevel (zsl m') /\ (forall i u, ur' !! i = Some u -> pred_at (H :: A) i u) /\
    dom (nodes m') = dom (nodes m) /\ alloc_size (zsl m') = alloc_size (zsl m).
Proof.
  intros Hl He Hi Hne Hmax Hlen Hur. unfold grow_level. destruct (_ <? _)%nat eqn:Hlt.
  2: { apply Nat.ltb_ge in Hlt. exists m, ur. split_and!; try done. lia. }
  apply Nat.ltb_lt in Hlt. set (n := zlevel (zsl m)) in *. pose proof (linked_level _ _ _ Hl) as Hn. fold n in Hn.
  set (new := replicate (height e - n) (header (zsl m), 0)).
  assert (Hnew : length new = (height e - n)%nat) by apply length_replicate.
  destruct (for_levels_ok raise_level (zsl m) [] (fun i _ => (1 <= i)%nat)
    (fun i h => entry h (ptr H) i (None, 0)) (fun i h => entry h (ptr H) i (None, zlength (zsl m)))) 
    with (us := new) (i := n) (m := m) as (m1 & -> & Hz1 & Hb1 & Hi1 & Hk1 & Hs1 & Hl1).
  - intros i h h'. apply entry_lift.
  - intros i h h'. apply entry_lift.
  - intros m0 i u Hz Hi0 _ Hent. rewrite <- Hz. apply raise_level_ok; [by rewrite Hz, (sk_header _ _ _ Hl)|done| |done].
    rewrite Hz, (sk_length _ _ _ Hl). pose proof (sk_small _ _ _ Hl). lia.
  - done.
  - intros k u _. lia.
  - constructor.
  - intros j Hj. apply (sk_above _ _ _ Hl). lia.
  - mstep. rewrite Hnew in *. destruct (linked_nodes m H (A ++ B) H Hl) as (nd & Hnd & Hdata); [set_solver|].
    destruct (lift_lookup _ _ _ _ _ Hb1 Hnd) as (nd1 & Hnd1 & Hbody).
    destruct (lookup_lt_is_Some_2 (level nd1) O) as [l Hl0].
    { destruct Hbody as (_ & _ & _ & <-), Hdata as (_ & _ & _ & ->). rewrite (sk_max _ _ _ Hl). unfold ZSKIPLIST_MAXLEVEL. lia. }
    destruct (set_node_levels_same nd1 (height e) l Hl0) as (nd2 & Hset & Hbody2 & Hback2 & Hlev2).
    rewrite (at_node_eq (set_zlevel m1 (height e)) (header (zsl m)) _ nd1 nd2);
      [|by rewrite (sk_header _ _ _ Hl)|done].
    mstep. eexists _, _. split; [done|]. cbn [set_nodes set_zlevel set_zsl nodes zsl zlevel alloc_size].
    rewrite (sk_header _ _ _ Hl). set (h2 := <[ptr H := nd2]> (nodes m1)).
    assert (Hb2 : lift same_body (nodes m) h2) by (etrans; [done|by eapply lift_insert; first apply _]).
    assert (Hk2 : lift same_back (nodes m) h2) by (etrans; [done|by eapply lift_insert; first apply _]).
    assert (Hs2 : forall j, lift (same_level j) (nodes m1) h2) by (intros j; by eapply lift_insert; first apply _).
    assert (Hi2 : forall x, ptr x <> ptr H -> info_ok (nodes m) x -> info_ok h2 x).
    { intros x Hx Hxi. apply info_insert_ne; [done|]. by eapply info_lift. }
    split_and!; try done.
    + split; cbn [set_nodes set_zlevel set_zsl nodes zsl zlevel header tail zlength]; rewrite ?Hz1; try apply Hl.
      * eapply Forall_impl; [apply (sk_data _ _ _ Hl)|]. intros x. by apply holds_lift.
      * apply Forall_forall. intros x Hx. apply Hi2; [by eapply linked_header_ne|].
        by apply (proj1 (Forall_forall _ _) (sk_info _ _ _ Hl)).
      * intros i Hie. destruct (decide (i < n)%nat) as [Hin|Hin].
        -- eapply level_lift; [apply Hs2|]. eapply level_lift; [apply Hs1; lia|]. by apply (sk_levels _ _ _ Hl).
        -- assert (Hlow : Forall (low i) (A ++ B)) by (apply top_low; pose proof (sk_level _ _ _ Hl); lia).
           apply level_ok_header; [done|]. eapply entry_lift; [apply Hs2|]. rewrite hop_low by done.
           rewrite <- (sk_length _ _ _ Hl). apply Hl1. lia.
      * intros i Hie. eapply entry_lift; [apply Hs2|]. eapply entry_lift; [apply Hs1; lia|].
        apply (sk_above _ _ _ Hl). lia.
      * by eapply back_lift; [|apply (sk_back _ _ _ Hl)].
      * pose proof (sk_level _ _ _ Hl). lia.
    + lia.
    + by eapply holds_lift.
    + by apply Hi2.
    + rewrite length_app, Hnew, Hlen. lia.
    + intros i u Hu. apply lookup_app_Some in Hu as [Hu|[Hge Hu]]; [by apply Hur|].
      apply lookup_replicate in Hu as [-> Hi3]. exists [], H, A. rewrite (sk_header _ _ _ Hl), (sk_max _ _ _ Hl).
      split_and!; try done; [lia|]. apply (Forall_app _ A B), top_low. pose proof (sk_level _ _ _ Hl). lia.
    + by eapply lift_dom.
    + by rewrite Hz1.
Qed.

Lemma pred_zero H A p r :
  pred_at (H :: A) 0 (p, r) -> Forall (fun e => 1 <= height e)%nat A ->
  r = Z.of_nat (length A) /\ Some p = lastp (Some (ptr H)) A.
Proof.
  intros (A1 & u & A2 & HA & _ & Hlow & [= -> ->]) Hh.
  assert (A2 = []) as ->.
  { destruct A2 as [|x A2]; [done|]. assert (Hx : x ∈ A).
    { destruct A1 as [|y A1]; injection HA as -> ->; set_solver. }
    apply (proj1 (Forall_forall _ _) Hh) in Hx. inversion Hlow as [|? ? Hl _]. unfold low in Hl. lia. }
  rewrite <- lastp_cons with (p := None), HA, lastp_snoc. split; [|done].
  apply (f_equal length) in HA. rewrite length_app in HA. cbn [length] in HA. lia.
Qed.

Lemma set_backward_lift (h : heap) q nd p :
  h !! q = Some nd ->
  let h' := <[q := set_backward nd p]> h in
  lift same_body h h' /\ lift same_info h h' /\ forall j, lift (same_level j) h h'.
Proof. intros Hq. split_and!; [by eapply lift_insert; first apply _..|]. intros j. by eapply lift_insert; first apply _. Qed.

(** The levels of the list, once the new element is linked *)
Lemma link_phase m H A B e ur :
  linked m H (A ++ B) -> holds (nodes m) e -> NoDup (ptr <$> H :: A ++ e :: B) -> (height e <= zlevel (zsl m))%nat ->
  length ur = zlevel (zsl m) -> (forall i u, ur !! i = Some u -> pred_at (H :: A) i u) ->
  exists m1 m2,
    for_levels (link_level (ptr e) (Z.of_nat (length A))) m 0 (take (height e) ur) = Some m1 /\
    for_levels incr_span m1 (height e) (drop (height e) ur) = Some m2 /\ zsl m2 = zsl m /\
    lift same_body (nodes m) (nodes m2) /\ lift same_info (nodes m) (nodes m2) /\ lift same_back (nodes m) (nodes m2) /\
    (forall i, (zlevel (zsl m) <= i)%nat -> lift (same_level i) (nodes m) (nodes m2)) /\
    (forall i, (i < zlevel (zsl m))%nat -> level_ok (nodes m2) (H :: A ++ e :: B) i).
Proof.
  intros Hl He Hnd Hh Hlen Hur. pose proof (sk_small _ _ _ Hl) as Hsmall.
  assert (Hlt : length (take (height e) ur) = height e) by (rewrite length_take; lia).
  assert (HD : Forall (holds (nodes m)) (e :: H :: A)).
  { constructor; [done|]. by apply (Forall_app _ (H :: A) B), (sk_data _ _ _ Hl). }
  assert (Hsz : Z.of_nat (length ((H :: A) ++ B)) < 2 ^ 63 - 1) by (cbn [app length]; lia).
  assert (HlenA : Z.of_nat (length (H :: A)) - 1 = Z.of_nat (length A)) by (cbn [length]; lia).
  destruct (for_levels_ok (link_level (ptr e) (Z.of_nat (length A))) (zsl m) (e :: H :: A)
    (fun i u => pred_at (H :: A) i u /\ (i < height e)%nat)
    (fun i h => level_ok h (H :: A ++ B) i) (fun i h => level_ok h (H :: A ++ e :: B) i))
    with (us := take (height e) ur) (i := O) (m := m) as (m1 & H1 & Hz1 & Hb1 & Hi1 & Hk1 & Hs1 & Hl1); try done.
  { intros i h h'. apply level_lift. }
  { intros i h h'. apply level_lift. }
  { intros m0 i u Hz HP HD0 HQ. rewrite <- HlenA, <- Hz. by apply (link_level_ok (H :: A) B). }
  { intros k u Hk. apply lookup_take_Some in Hk as [Hk ?]. split; [by apply Hur|lia]. }
  { intros j Hj. apply (sk_levels _ _ _ Hl). lia. }
  destruct (for_levels_ok incr_span (zsl m) (e :: H :: A)
    (fun i u => pred_at (H :: A) i u /\ (height e <= i)%nat)
    (fun i h => level_ok h (H :: A ++ B) i) (fun i h => level_ok h (H :: A ++ e :: B) i))
    with (us := drop (height e) ur) (i := height e) (m := m1) as (m2 & H2 & Hz2 & Hb2 & Hi2 & Hk2 & Hs2 & Hl2); try done.
  { intros i h h'. apply level_lift. }
  { intros i h h'. apply level_lift. }
  { intros m0 i u Hz HP HD0 HQ. rewrite <- Hz. by apply (incr_span_ok (H :: A) B). }
  { intros k u Hk. rewrite lookup_drop in Hk. split; [by apply Hur|lia]. }
  { eapply Forall_impl; [apply HD|]. intros x. by apply holds_lift. }
  { rewrite length_drop. intros j Hj. eapply level_lift; [apply Hs1; lia|]. apply (sk_levels _ _ _ Hl). lia. }
  rewrite length_drop in Hs2, Hl2. exists m1, m2. split_and!; try done; [by etrans..| |].
  - intros i Hi. etrans; [apply Hs1|apply Hs2]; lia.
  - intros i Hi. destruct (decide (i < height e)%nat); [|apply Hl2; lia].
    eapply level_lift; [apply Hs2; lia|]. apply Hl1. lia.
Qed.

Lemma back_insert (h h' : heap) A e B :
  back_ok h None (A ++ B) -> (exists nd, h' !! ptr e = Some nd /\ backward nd = lastp None A) ->
  (forall x, x ∈ A ++ drop 1 B -> forall nd, h !! ptr x = Some nd -> exists nd', h' !! ptr x = Some nd' /\ backward nd' = backward nd) ->
  match B with [] => True | b :: _ => exists nd, h' !! ptr b = Some nd /\ backward nd = Some (ptr e) end ->
  back_ok h' None (A ++ e :: B).
Proof.
  rewrite !back_ok_app. intros [HA HB] He Hf Hb. cbn [back_ok]. split_and!; [|done|].
  - eapply back_ok_frame; [|done]. intros x Hx. apply Hf. set_solver.
  - destruct B as [|b B]; [done|]. cbn [back_ok] in HB |- *. split; [done|].
    eapply back_ok_frame; [|apply HB]. intros x Hx. apply Hf. cbn. set_solver.
Qed.

Lemma link_back_ok m H A B e u0 :
  header (zsl m) = ptr H -> NoDup (ptr <$> H :: A ++ e :: B) -> Forall (holds (nodes m)) (A ++ e :: B) ->
  Forall (fun e => 1 <= height e)%nat (A ++ e :: B) -> Some u0 = lastp (Some (ptr H)) A ->
  level_ok (nodes m) (H :: A ++ e :: B) 0 -> back_ok (nodes m) None (A ++ B) -> tail (zsl m) = lastp None (A ++ B) ->
  exists m', link_back m (ptr e) u0 = Some m' /\
    zsl m' = mkZsl (ptr H) (lastp None (A ++ e :: B)) (u64 (zlength (zsl m) + 1)) (zlevel (zsl m)) (alloc_size (zsl m)) /\
    lift same_body (nodes m) (nodes m') /\ lift same_info (nodes m) (nodes m') /\
    (forall j, lift (same_level j) (nodes m) (nodes m')) /\ back_ok (nodes m') None (A ++ e :: B).
Proof.
  intros Hh Hnd Hd Hht Hu0 Hl Hb Ht. unfold link_back. cbv zeta.
  assert (Hprev : (if bool_decide (u0 = header (zsl m)) then None else Some u0) = lastp None A).
  { rewrite Hh. destruct (last A) as [x|] eqn:Ex.
    - apply last_Some in Ex as [A' ->]. rewrite lastp_snoc in Hu0 |- *. injection Hu0 as ->.
      rewrite bool_decide_false; [done|]. eapply (nodup_out [] _ H x); [apply Hnd|]. set_solver.
    - apply last_None in Ex as ->. injection Hu0 as Hu0. by rewrite Hu0, bool_decide_true. }
  rewrite Hprev. rewrite Forall_app, Forall_cons in Hd. destruct Hd as (HdA & (nd & Hn & Hdn) & HdB).
  rewrite (at_node_eq m (ptr e) (fun x => Some (set_backward x (lastp None A))) nd _ Hn eq_refl). mstep. cbn [set_nodes nodes zsl]. rewrite lookup_insert_eq. mstep.
  destruct (Hl (H :: A) e B eq_refl) as (nd' & l & Hn' & Hlv & Hf & _).
  { rewrite Forall_app, Forall_cons in Hht. lia. }
  rewrite Hn in Hn'. injection Hn' as <-. cbn [set_backward level]. rewrite Hlv. mstep. rewrite Hf.
  destruct (set_backward_lift (nodes m) (ptr e) nd (lastp None A) Hn) as (Hb1 & Hi1 & Hs1).
  destruct B as [|b B]; cbn [hop fst].
  - mstep. eexists. split; [done|]. cbn [set_nodes set_zlength set_tail set_zsl nodes zsl header tail zlength zlevel alloc_size].
    split_and!; try done; [by rewrite Hh, lastp_snoc|]. apply (back_insert (nodes m)); try done.
    + rewrite lookup_insert_eq. by eexists.
    + intros x Hx y Hy. cbn in Hx. rewrite app_nil_r in Hx. exists y. rewrite lookup_insert_ne; [done|].
      apply not_eq_sym. eapply (nodup_out (H :: A) [] e x); [apply Hnd|]. set_solver.
  - rewrite Forall_app, !Forall_cons in Hht. rewrite (proj2 (Nat.ltb_lt _ _)) by lia. cbn [fst].
    assert (Hbe : ptr b <> ptr e) by (eapply (nodup_out (H :: A) (b :: B) e b); [apply Hnd|]; set_solver).
    apply Forall_cons in HdB as [(nb & Hnb & Hdb) HdB].
    erewrite (at_node_eq _ (ptr b) _ nb); [|by cbn [set_nodes nodes]; rewrite lookup_insert_ne|done].
    mstep. eexists. split; [done|]. cbn [set_nodes set_zlength set_tail set_zsl nodes zsl header tail zlength zlevel alloc_size].
    destruct (set_backward_lift (<[ptr e := set_backward nd (lastp None A)]> (nodes m)) (ptr b) nb (Some (ptr e)))
      as (Hb2 & Hi2 & Hs2); [by rewrite lookup_insert_ne|].
    split_and!; [|by etrans|by etrans|intros j; etrans; [apply Hs1|apply Hs2]|].
    + by rewrite Hh, Ht, !lastp_app, !lastp_cons.
    + apply (back_insert (nodes m)); try done.
      * rewrite lookup_insert_ne by done. rewrite lookup_insert_eq. by eexists.
      * intros x Hx y Hy. exists y. cbn [drop] in Hx. rewrite !lookup_insert_ne; [done|..]; apply not_eq_sym.
        -- eapply (nodup_out (H :: A) (b :: B) e x); [apply Hnd|]. set_solver.
        -- eapply (nodup_out (H :: A ++ [e]) B b x); [|set_solver]. cbn [app]. by rewrite <- app_assoc.
      * rewrite lookup_insert_eq. by eexists.
Qed.

(** The invariant, from what the loops did *)
Lemma linked_insert m m' H A B e :
  linked m H (A ++ B) -> header (zsl m') = header (zsl m) -> zlevel (zsl m') = zlevel (zsl m) ->
  tail (zsl m') = lastp None (A ++ e :: B) -> zlength (zsl m') = u64 (zlength (zsl m) + 1) ->
  Forall (holds (nodes m')) (H :: A ++ e :: B) -> Forall (info_ok (nodes m')) (A ++ e :: B) ->
  (forall i, (i < zlevel (zsl m))%nat -> level_ok (nodes m') (H :: A ++ e :: B) i) ->
  (forall i, (zlevel (zsl m) <= i)%nat -> lift (same_level i) (nodes m) (nodes m')) ->
  back_ok (nodes m') None (A ++ e :: B) -> NoDup (ptr <$> H :: A ++ e :: B) ->
  (1 <= height e <= zlevel (zsl m))%nat -> isnan (e_score e) = false -> e_ele e ∉ e_ele <$> A ++ B ->
  Forall (fun x => zlt x e) A -> Forall (fun x => zlt e x) B -> Z.of_nat (length (A ++ B)) < 2 ^ 63 - 3 ->
  linked m' H (A ++ e :: B).
Proof.
  intros Hl E1 E2 E3 E4 Hd Hi Hlv Hab Hb Hnd Hh Hnan Hele HA HB Hsmall. pose proof (sk_level _ _ _ Hl) as Hlev.
  split; rewrite ?E1, ?E2, ?E3, ?E4; try done; try apply Hl.
  - intros i Hi'. eapply entry_lift; [apply Hab; lia|]. by apply (sk_above _ _ _ Hl).
  - rewrite (sk_length _ _ _ Hl), u64_nat by lia. rewrite !length_app. cbn [length]. lia.
  - rewrite !length_app in *. cbn [length]. lia.
  - rewrite top_middle. lia.
  - rewrite <- Permutation_middle. constructor; [lia|]. apply (sk_heights _ _ _ Hl).
  - apply sorted_insert; [apply (sk_sorted _ _ _ Hl)|done..].
  - rewrite <- Permutation_middle, fmap_cons, NoDup_cons. split; [done|]. apply (sk_members _ _ _ Hl).
  - rewrite <- Permutation_middle. constructor; [done|]. apply (sk_nan _ _ _ Hl).
Qed.

Lemma zslInsertNode_ok m H A B e :
  linked m H (A ++ B) -> holds (nodes m) e -> info_ok (nodes m) e -> ptr e ∉ ptr <$> H :: A ++ B ->
  (1 <= height e <= ZSKIPLIST_MAXLEVEL)%nat -> isnan (e_score e) = false -> e_ele e ∉ e_ele <$> A ++ B ->
  Forall (fun x => zlt x e) A -> Forall (fun x => zlt e x) B -> Z.of_nat (length (A ++ B)) < 2 ^ 63 - 3 ->
  exists m', zslInsertNode m (ptr e) = Some m' /\ linked m' H (A ++ e :: B) /\
    zlevel (zsl m') = Nat.max (height e) (zlevel (zsl m)) /\
    dom (nodes m') = dom (nodes m) /\ alloc_size (zsl m') = alloc_size (zsl m).
Proof.
  intros Hl He Hi Hnot Hh Hnan Hele HA HB Hsmall.
  assert (Hnd : NoDup (ptr <$> H :: A ++ e :: B)).
  { rewrite app_comm_cons, <- Permutation_middle, fmap_cons, NoDup_cons. split; [done|apply (sk_nodup _ _ _ Hl)]. }
  destruct (search_linked m H A B (cmp_gt (e_score e) (e_ele e)) Hl) as (ur & Hs & Hlen & Hur).
  { apply stops_gt; [done|apply (sk_nan _ _ _ Hl)|..]; eapply Forall_impl; try apply HA; try apply HB; unfold zlt; cbn.
    - intros x Hx. by rewrite zcmp_antisym, Hx.
    - intros x Hx. by rewrite Hx. }
  pose proof He as (nd & Hn & Hsc & Hel & _). pose proof Hi as (nd' & Hn' & Hlv). rewrite Hn in Hn'. injection Hn' as <-.
  unfold zslInsertNode. rewrite Hn. mstep. unfold zslGetNodeElement. rewrite Hlv, Hsc, Hel, Hnan. mstep. cbn [negb cassert]. mstep.
  rewrite Hs. mstep.
  destruct (grow_level_ok m H A B e ur Hl He Hi) as (m1 & ur1 & -> & Hl1 & Hz1 & He1 & Hi1 & Hlen1 & Hur1 & Hdom1 & Hal1);
    [by apply not_elem_of_cons in Hnot as [? _]|lia|done..|]. mstep.
  pose proof (linked_level _ _ _ Hl1) as Hlev1.
  destruct (lookup_lt_is_Some_2 ur1 O) as [[u0 r0] Hu0]; [lia|]. rewrite Hu0. mstep.
  assert (Hht : Forall (fun e => 1 <= height e)%nat (A ++ e :: B)).
  { pose proof (sk_heights _ _ _ Hl) as Hx. apply Forall_app in Hx as [Hx1 Hx2].
    apply Forall_app. split; [|constructor; [lia|]]; eapply Forall_impl; try apply Hx1; try apply Hx2; cbn; lia. }
  destruct (pred_zero H A u0 r0 (Hur1 _ _ Hu0)) as [-> Hu]; [by apply Forall_app in Hht as [? _]|].
  destruct (link_phase m1 H A B e ur1) as (m2 & m3 & -> & Hm3 & Hz3 & Hb3 & Hi3 & Hk3 & Hs3 & Hl3); [done..|lia|done|done|].
  mstep. rewrite Hm3. mstep.
  assert (Hd3 : Forall (holds (nodes m3)) (H :: A ++ e :: B)).
  { rewrite app_comm_cons, <- Permutation_middle. constructor; [by eapply holds_lift|].
    eapply Forall_impl; [apply (sk_data _ _ _ Hl1)|]. intros x. by apply holds_lift. }
  assert (Hi3' : Forall (info_ok (nodes m3)) (A ++ e :: B)).
  { rewrite <- Permutation_middle. constructor; [by eapply info_lift|].
    eapply Forall_impl; [apply (sk_info _ _ _ Hl1)|]. intros x. by apply info_lift. }
  destruct (link_back_ok m3 H A B e u0) as (m4 & -> & Hz4 & Hb4 & Hi4 & Hs4 & Hk4); try done.
  { rewrite Hz3. apply Hl1. }
  { by inversion Hd3. }
  { apply Hl3. lia. }
  { by eapply back_lift; [|apply (sk_back _ _ _ Hl1)]. }
  { rewrite Hz3. apply Hl1. }
  exists m4. split; [done|]. split_and!.
  - apply (linked_insert m1); rewrite ?Hz4; cbn [header tail zlength zlevel]; rewrite ?Hz3; try done.
    + by rewrite (sk_header _ _ _ Hl1).
    + eapply Forall_impl; [apply Hd3|]. intros x. by apply holds_lift.
    + eapply Forall_impl; [apply Hi3'|]. intros x. by apply info_lift.
    + intros i Hi'. eapply level_lift; [apply Hs4|]. by apply Hl3.
    + intros i Hi'. etrans; [by apply Hs3|apply Hs4].
    + lia.
  - rewrite Hz4, <- Hz1. cbn [zlevel]. by rewrite Hz3.
  - rewrite (lift_dom _ _ _ Hb4), (lift_dom _ _ _ Hb3). done.
  - rewrite Hz4. cbn [alloc_size]. by rewrite Hz3.
Qed.

(** Nodes that are not in the list do not matter. *)
Lemma linked_frame m m' H L :
  linked m H L -> (forall e, e ∈ H :: L -> nodes m' !! ptr e = nodes m !! ptr e) ->
  header (zsl m') = header (zsl m) -> tail (zsl m') = tail (zsl m) -> zlength (zsl m') = zlength (zsl m) ->
  zlevel (zsl m') = zlevel (zsl m) -> linked m' H L.
Proof.
  intros Hl Hf E1 E2 E3 E4. split; rewrite ?E1, ?E2, ?E3, ?E4; try apply Hl.
  - apply Forall_forall. intros e He. unfold holds. rewrite Hf by done. by eapply linked_nodes.
  - apply Forall_forall. intros e He. unfold info_ok. rewrite Hf by set_solver.
    by apply (proj1 (Forall_forall _ _) (sk_info _ _ _ Hl)).
  - intros i Hi pre e suf HC Hie. unfold entry. rewrite Hf by (rewrite HC; set_solver).
    by apply (sk_levels _ _ _ Hl i Hi pre).
  - intros i Hi. unfold entry. rewrite Hf by set_solver. by apply (sk_above _ _ _ Hl).
  - eapply back_ok_frame; [|apply (sk_back _ _ _ Hl)]. intros e He nd Hn. exists nd. by rewrite Hf by set_solver.
Qed.

(** The bytes of a node *)
Definition node_block `{AL : Allocator} (levels : nat) (el : list Z) : Z :=
  let len := Z.of_nat (length el) in
  usable (node_fixed_size + Z.of_nat levels * level_size + (sdsHdrSize (sdsReqType len) + len + 1)).

Lemma info_levels (off : Z) (levels : nat) :
  (levels < 256)%nat ->
  Z.to_nat (Z.land (Z.shiftr (u16 off + Z.shiftl (u8 (Z.of_nat levels)) 16) 16) 0xff) = levels.
Proof.
  intros Hl. rewrite (wrapU_id 8) by (unfold inU; zpow; lia). pose proof (wrapU_range 16 off ltac:(lia)) as Ho.
  unfold inU in Ho. zpow. rewrite Z.shiftl_mul_pow2, Z.shiftr_div_pow2 by lia. zpow.
  rewrite Z.div_add, Z.div_small by lia. change 255 with (Z.ones 8). rewrite Z.land_ones by lia. zpow.
  rewrite Z.mod_small by lia. lia.
Qed.

Lemma zslCreateNode_ok `{AL : Allocator} raw m p levels sc el :
  (1 <= levels <= ZSKIPLIST_MAXLEVEL)%nat ->
  exists nd, zslCreateNode raw m p levels sc el =
    Some (mkMem (<[p := nd]> (nodes m)) (mkZsl (header (zsl m)) (tail (zsl m)) (zlength (zsl m)) (zlevel (zsl m))
            (u64 (alloc_size (zsl m) + node_block levels el)))) /\
    node_data (mkElem p sc el levels (node_block levels el)) nd /\ node_levels nd = Some levels.
Proof.
  intros Hl. unfold zslCreateNode, zslSetNodeInfo. cbn [level].
  destruct levels as [|k]; [lia|]. cbn [seq fmap list_fmap lookup list_lookup]. mstep.
  eexists. split; [done|]. split.
  - split_and!; try done. cbn. by rewrite length_fmap, length_seq.
  - unfold node_levels. cbn [put_level level]. cbn [insert list_insert lookup list_lookup]. mstep. f_equal. apply info_levels.
    unfold ZSKIPLIST_MAXLEVEL in Hl. lia.
Qed.

Lemma zslRandomLevel_range rs levels : zslRandomLevel rs = Some levels -> (1 <= levels <= ZSKIPLIST_MAXLEVEL)%nat.
Proof.
  assert (Hgo : forall rs n k, random_loop rs n = Some k -> (n <= k)%nat).
  { induction rs0 as [|r rs0 IH]; intros n k; cbn [random_loop]; [done|]. destruct (_ <? _); [|by intros [= ->]].
    intros Hk%IH. lia. }
  unfold zslRandomLevel. destruct (random_loop rs 1) as [k|] eqn:E; [|done]. apply Hgo in E. mstep. intros [= <-].
  destruct (Nat.ltb_spec k ZSKIPLIST_MAXLEVEL); unfold ZSKIPLIST_MAXLEVEL in *; lia.
Qed.

Lemma blocks_middle A e B : blocks (A ++ e :: B) = e_block e + blocks (A ++ B).
Proof. unfold blocks. induction A as [|x A IH]; cbn [app foldr]; [done|]. rewrite IH. lia. Qed.

Lemma set_middle (A B : list elem) e :
  list_to_set (C := gset positive) (ptr <$> A ++ e :: B) = {[ptr e]} ∪ list_to_set (ptr <$> A ++ B).
Proof. rewrite !fmap_app, fmap_cons. set_solver. Qed.

(** The new element goes between the ones before it and the ones after it. *)
Lemma zslInsert_ok `{AL : Allocator} raw base m H A B p rs levels sc el :
  let e := mkElem p sc el levels (node_block levels el) in
  skiplist base m H (A ++ B) -> nodes m !! p = None -> isnan sc = false -> el ∉ e_ele <$> A ++ B ->
  zslRandomLevel rs = Some levels -> Z.of_nat (length (A ++ B)) < 2 ^ 63 - 3 ->
  Forall (fun x => zlt x e) A -> Forall (fun x => zlt e x) B ->
  exists m', zslInsert raw rs m p sc el = Some m' /\ skiplist base m' H (A ++ e :: B).
Proof.
  intros e [Hl Htop Hdom Hal] Hp Hnan Hel Hr Hsmall HA HB. pose proof (zslRandomLevel_range _ _ Hr) as Hlev.
  unfold zslInsert. rewrite Hnan. cbn [negb cassert]. mstep. rewrite Hr. mstep.
  destruct (zslCreateNode_ok raw m p levels sc el Hlev) as (nd & -> & Hnd & Hinfo). mstep. set (m1 := mkMem _ _).
  assert (Hout : forall x, x ∈ H :: A ++ B -> ptr x <> p).
  { intros x Hx Hxp. destruct (linked_nodes _ _ _ _ Hl Hx) as (? & Hn & _). rewrite Hxp in Hn. congruence. }
  destruct (zslInsertNode_ok m1 H A B e) as (m2 & Hm2 & Hl2 & Hz2 & Hdom2 & Hal2); try done.
  - apply (linked_frame m); try done. intros x Hx. apply lookup_insert_ne. apply not_eq_sym. by apply Hout.
  - exists nd. split; [apply lookup_insert_eq|done].
  - exists nd. split; [apply lookup_insert_eq|done].
  - intros (x & Hpx & Hx)%list_elem_of_fmap. by apply (Hout x).
  - exists m2. split; [done|]. split; [done|..].
    + by rewrite Hz2, top_middle, <- Htop.
    + rewrite Hdom2. cbn [m1 nodes]. by rewrite dom_insert_L, Hdom, !(app_comm_cons A), set_middle.
    + rewrite Hal2. cbn [m1 zsl alloc_size]. rewrite Hal, !(app_comm_cons A), blocks_middle. unfold wrapU.
      rewrite Zplus_mod_idemp_l. f_equal. cbn [e e_block app]. lia.
Qed.

(** Inserting a new name puts it at its place in the sorted list, with the
    number of levels that was drawn; all the levels are linked, the spans are
    the numbers of elements skipped, and the bytes of the node are counted. *)
Theorem zslInsert_refines `{AL : Allocator} raw base m H L p rs levels sc el :
  skiplist base m H L -> nodes m !! p = None -> isnan sc = false -> el ∉ e_ele <$> L ->
  zslRandomLevel rs = Some levels -> Z.of_nat (length L) < 2 ^ 63 - 3 ->
  exists m', zslInsert raw rs m p sc el = Some m' /\
    skiplist base m' H (zinsert (mkElem p sc el levels (node_block levels el)) L).
Proof.
  intros Hs Hp Hnan Hel Hr Hsmall.
  destruct (place_split (mkElem p sc el levels (node_block levels el)) L) as (A & B & -> & HA & HB); [by eapply sk_sorted, sk_linked|done|].
  rewrite zinsert_split by done. by apply zslInsert_ok.
Qed.

(** ** Deletion *)

Lemma top_forall_low L i : (1 <= i)%nat -> Forall (low i) L -> (top L <= i)%nat.
Proof. intros Hi. induction 1 as [|e L He HL IH]; [done|]. rewrite top_cons. unfold low in He. lia. Qed.

Lemma linked_put_above m m' H L i nd l :
  linked m H L -> (top L <= i)%nat -> zlevel (zsl m) = S i -> nodes m !! ptr H = Some nd -> level nd !! i = Some l ->
  forward l = None -> (1 <= i)%nat -> m' = set_zlevel (set_nodes m (<[ptr H := put_level nd i (mkLevel (forward l) 0)]> (nodes m))) i ->
  linked m' H L.
Proof.
  intros Hl Htop Hz Hn Hlv Hf Hi ->. pose proof (sk_level _ _ _ Hl) as Hlevel.
  assert (Ho : only_level i (nodes m) (<[ptr H := put_level nd i (mkLevel (forward l) 0)]> (nodes m))).
  { eapply only_level_put; try done. lia. }
  destruct Ho as (Hb & Hinf & Hk & Hs).
  split; cbn [set_nodes set_zlevel set_zsl nodes zsl zlevel header tail zlength]; try apply Hl.
  - eapply Forall_impl; [apply (sk_data _ _ _ Hl)|]. intros x. by apply holds_lift.
  - eapply Forall_impl; [apply (sk_info _ _ _ Hl)|]. intros x. by apply info_lift.
  - intros j Hj. eapply level_lift; [apply Hs; lia|]. apply (sk_levels _ _ _ Hl). lia.
  - intros j Hj. destruct (decide (j = i)) as [-> |Hne].
    + eexists _, _. rewrite lookup_insert_eq. split; [done|]. split; [by eapply put_level_lookup|]. split; [done|by right].
    + eapply entry_lift; [by apply Hs|]. apply (sk_above _ _ _ Hl). lia.
  - by eapply back_lift; [|apply (sk_back _ _ _ Hl)].
  - lia.
Qed.

(** Levels that no element needs are removed; the length is to be [k]. *)
Lemma lower_level_ok k m H L :
  linked (set_zlength m k) H L ->
  exists m', lower_level m (zlevel (zsl m)) = Some m' /\ linked (set_zlength m' k) H L /\ zlevel (zsl m') = top L /\
    alloc_size (zsl m') = alloc_size (zsl m) /\ zlength (zsl m') = zlength (zsl m) /\
    lift same_body (nodes m) (nodes m') /\ lift same_info (nodes m) (nodes m').
Proof.
  remember (zlevel (zsl m)) as n eqn:Hn. revert m Hn. induction n as [|n IH]; intros m Hn Hl.
  all: pose proof (linked_level _ _ _ Hl) as Hlev; pose proof (sk_level _ _ _ Hl) as Hle.
  all: cbn [set_zlength set_zsl zsl zlevel] in Hlev, Hle; rewrite <- Hn in Hlev, Hle; pose proof (top_ge L) as Ht.
  { lia. }
  destruct n as [|n].
  { exists m. split_and!; try done. lia. }
  change (lower_level m (S (S n))) with
    (hd ← nodes m !! header (zsl m); l ← level hd !! S n;
     match forward l with
     | None => m ← at_node m (header (zsl m)) (fun x => l ← level x !! S n; Some (put_level x (S n) (mkLevel (forward l) 0)));
         lower_level (set_zlevel m (S n)) (S n)
     | Some _ => Some m end).
  assert (Hhd : header (zsl m) = ptr H) by apply (sk_header _ _ _ Hl). rewrite Hhd.
  assert (Hent : entry (nodes m) (ptr H) (S n) (hop (S n) L)).
  { apply (sk_levels _ _ _ Hl (S n)) with (pre := []); [cbn; lia|done|]. rewrite (sk_max _ _ _ Hl). lia. }
  destruct Hent as (nd & l & Hnd & Hlv & Hf & Hs).
  rewrite Hnd. mstep. rewrite Hlv. mstep.
  destruct (hop_split (S n) L) as [[Hhop Hlow]|(l1 & u & l2 & -> & _ & Hu & Hhop)]; rewrite Hhop in Hf; cbn [fst] in Hf; rewrite Hf.
  - rewrite (at_node_eq m (ptr H) _ nd (put_level nd (S n) (mkLevel (forward l) 0))); [|done|by rewrite Hlv]. mstep.
    match goal with |- context [lower_level ?x _] => set (m1 := x) end.
    destruct (IH m1) as (m2 & -> & Hl2 & Hz2 & Hal2 & Hlen2 & Hb2 & Hi2); [done| |].
    + apply (linked_put_above (set_zlength m k) _ H L (S n) nd l); try done; [by apply top_forall_low; [lia|]|lia].
    + destruct (only_level_put (nodes m) (ptr H) nd (S n) (mkLevel (forward l) 0) l) as (Hb & Hinf & _); [done..|].
      exists m2. split_and!; try done; by etrans.
  - exists m. split_and!; try done. rewrite top_middle in Hle |- *. lia.
Qed.

Lemma unlink_phase m H A B e us :
  linked m H (A ++ e :: B) -> length us = zlevel (zsl m) ->
  (forall i u, us !! i = Some u -> exists r, pred_at (H :: A) i (u, r)) ->
  exists m', for_levels (unlink_level (ptr e)) m 0 us = Some m' /\ zsl m' = zsl m /\
    lift same_body (nodes m) (nodes m') /\ lift same_info (nodes m) (nodes m') /\ lift same_back (nodes m) (nodes m') /\
    (forall i, (zlevel (zsl m) <= i)%nat -> lift (same_level i) (nodes m) (nodes m')) /\
    (forall i, (i < zlevel (zsl m))%nat -> level_ok (nodes m') (H :: A ++ B) i /\
       ((i < height e)%nat -> entry (nodes m') (ptr e) i (hop i B))).
Proof.
  intros Hl Hlen Hus. pose proof (sk_small _ _ _ Hl) as Hsmall.
  assert (HD : Forall (holds (nodes m)) (e :: H :: A)).
  { pose proof (sk_data _ _ _ Hl) as Hd. rewrite Forall_cons, Forall_app, Forall_cons in Hd.
    rewrite !Forall_cons. tauto. }
  destruct (for_levels_ok (unlink_level (ptr e)) (zsl m) (e :: H :: A)
    (fun i u => exists r, pred_at (H :: A) i (u, r)) (fun i h => level_ok h (H :: A ++ e :: B) i)
    (fun i h => level_ok h (H :: A ++ B) i /\ ((i < height e)%nat -> entry h (ptr e) i (hop i B))))
    with (us := us) (i := O) (m := m) as (m1 & H1 & Hz1 & Hb1 & Hi1 & Hk1 & Hs1 & Hl1); try done.
  { intros i h h'. apply level_lift. }
  { intros i h h' Hh [Hx Hy]. split; [by eapply level_lift|]. intros Hi. eapply entry_lift; [done|auto]. }
  { intros m0 i u Hz HP HD0 HQ. rewrite <- Hz.
    destruct (unlink_level_ok (H :: A) B e (sk_nodup _ _ _ Hl)) with (m := m0) (i := i) (u := u)
      as (m' & Hm' & Hz' & Ho & Hlv & Hsame); try done.
    { rewrite !length_app in Hsmall |- *. cbn [length] in Hsmall |- *. lia. }
    exists m'. split_and!; try done. intros Hi. unfold entry. rewrite Hsame. by apply (HQ (H :: A)). }
  { intros j Hj. apply (sk_levels _ _ _ Hl). lia. }
  exists m1. split_and!; try done.
  - intros i Hi. apply Hs1. lia.
  - intros i Hi. apply Hl1. lia.
Qed.

Lemma unlink_back_ok m H A B e :
  NoDup (ptr <$> H :: A ++ e :: B) -> Forall (holds (nodes m)) (A ++ e :: B) ->
  Forall (fun e => 1 <= height e)%nat (A ++ e :: B) ->
  entry (nodes m) (ptr e) 0 (hop 0 B) -> back_ok (nodes m) None (A ++ e :: B) -> tail (zsl m) = lastp None (A ++ e :: B) ->
  exists m', unlink_back m (ptr e) = Some m' /\
    zsl m' = mkZsl (header (zsl m)) (lastp None (A ++ B)) (zlength (zsl m)) (zlevel (zsl m)) (alloc_size (zsl m)) /\
    lift same_body (nodes m) (nodes m') /\ lift same_info (nodes m) (nodes m') /\
    (forall j, lift (same_level j) (nodes m) (nodes m')) /\ back_ok (nodes m') None (A ++ B).
Proof.
  intros Hnd Hd Hh (nd & l & Hn & Hlv & Hf & _) Hb Ht. unfold unlink_back. rewrite Hn. mstep. rewrite Hlv. mstep.
  rewrite back_ok_app in Hb. cbn [back_ok] in Hb. destruct Hb as (HbA & (nd' & Hn' & Hbe) & HbB).
  rewrite Hn in Hn'. injection Hn' as <-. rewrite Hf, Hbe. destruct B as [|b B]; cbn [hop fst].
  - eexists. split; [done|]. cbn [set_tail set_zsl nodes zsl]. rewrite app_nil_r. by split_and!.
  - rewrite Forall_app, !Forall_cons in Hh, Hd. rewrite (proj2 (Nat.ltb_lt _ _)) by lia. cbn [fst].
    destruct Hd as (_ & _ & (nb & Hnb & _) & _).
    rewrite (at_node_eq m (ptr b) (fun n => Some (set_backward n (lastp None A))) nb _ Hnb eq_refl).
    eexists. split; [done|]. cbn [set_nodes nodes zsl].
    destruct (set_backward_lift (nodes m) (ptr b) nb (lastp None A) Hnb) as (Hb2 & Hi2 & Hs2). split_and!; try done.
    + rewrite lastp_app, !lastp_cons in Ht. by rewrite lastp_app, lastp_cons, <- Ht; destruct (zsl m).
    + apply back_ok_app. cbn [back_ok] in HbB |- *. split_and!.
      * eapply back_ok_frame; [|done]. intros x Hx y Hy. exists y. rewrite lookup_insert_ne; [done|]. apply not_eq_sym.
        eapply (nodup_out (H :: A ++ [e]) B b x); [|set_solver]. cbn [app]. by rewrite <- app_assoc.
      * rewrite lookup_insert_eq. by eexists.
      * eapply back_ok_frame; [|apply HbB]. intros x Hx y Hy. exists y. rewrite lookup_insert_ne; [done|]. apply not_eq_sym.
        eapply (nodup_out (H :: A ++ [e]) B b x); [|set_solver]. cbn [app]. by rewrite <- app_assoc.
Qed.

Lemma forall_middle {A} (P : A -> Prop) l1 x l2 : Forall P (l1 ++ x :: l2) -> Forall P (l1 ++ l2).
Proof. rewrite !Forall_app, Forall_cons. tauto. Qed.

Lemma nodup_middle {A B} (f : A -> B) l1 x l2 : NoDup (f <$> l1 ++ x :: l2) -> NoDup (f <$> l1 ++ l2) /\ f x ∉ f <$> l1 ++ l2.
Proof. rewrite <- Permutation_middle, fmap_cons, NoDup_cons. tauto. Qed.

Lemma sorted_middle l1 x l2 : StronglySorted zlt (l1 ++ x :: l2) ->
  StronglySorted zlt (l1 ++ l2) /\ Forall (fun y => zlt y x) l1 /\ Forall (fun y => zlt x y) l2.
Proof.
  rewrite !StronglySorted_app_iff. intros (H1 & H2 & H3). apply StronglySorted_inv in H2 as [H2 H4].
  split_and!; try done; [|apply Forall_forall].
  - intros a b Ha Hb. apply H3; [done|set_solver].
  - intros y Hy. apply H3; [done|set_solver].
Qed.

Lemma linked_remove m m' H A B e :
  linked m H (A ++ e :: B) -> header (zsl m') = header (zsl m) -> zlevel (zsl m') = zlevel (zsl m) ->
  tail (zsl m') = lastp None (A ++ B) -> zlength (zsl m') = u64 (zlength (zsl m) - 1) ->
  Forall (holds (nodes m')) (H :: A ++ B) -> Forall (info_ok (nodes m')) (A ++ B) ->
  (forall i, (i < zlevel (zsl m))%nat -> level_ok (nodes m') (H :: A ++ B) i) ->
  (forall i, (zlevel (zsl m) <= i)%nat -> lift (same_level i) (nodes m) (nodes m')) ->
  back_ok (nodes m') None (A ++ B) -> linked m' H (A ++ B).
Proof.
  intros Hl E1 E2 E3 E4 Hd Hi Hlv Hab Hb. pose proof (sk_level _ _ _ Hl) as Hlev. rewrite top_middle in Hlev.
  pose proof (sk_small _ _ _ Hl) as Hsmall. rewrite length_app in Hsmall. cbn [length] in Hsmall.
  split; rewrite ?E1, ?E2, ?E3, ?E4; try done; try apply Hl.
  - intros i Hi'. eapply entry_lift; [apply Hab; lia|]. by apply (sk_above _ _ _ Hl).
  - rewrite (sk_length _ _ _ Hl), !length_app. cbn [length]. rewrite u64_nat by lia. lia.
  - rewrite length_app. lia.
  - lia.
  - by eapply forall_middle, (sk_heights _ _ _ Hl).
  - by apply (nodup_middle ptr (H :: A) e), (sk_nodup _ _ _ Hl).
  - by eapply sorted_middle, (sk_sorted _ _ _ Hl).
  - by apply (nodup_middle e_ele A e), (sk_members _ _ _ Hl).
  - by eapply forall_middle, (sk_nan _ _ _ Hl).
Qed.

Lemma zslUnlinkNode_ok m H A B e update :
  linked m H (A ++ e :: B) -> (zlevel (zsl m) <= length update)%nat ->
  (forall i u, (i < zlevel (zsl m))%nat -> update !! i = Some u -> exists r, pred_at (H :: A) i (u, r)) ->
  exists m', zslUnlinkNode m (ptr e) update = Some m' /\ linked m' H (A ++ B) /\ zlevel (zsl m') = top (A ++ B) /\
    holds (nodes m') e /\ info_ok (nodes m') e /\
    dom (nodes m') = dom (nodes m) /\ alloc_size (zsl m') = alloc_size (zsl m).
Proof.
  intros Hl Hlen Hup. unfold zslUnlinkNode. rewrite (proj2 (Nat.leb_le _ _) Hlen). cbn [cassert]. mstep.
  destruct (unlink_phase m H A B e (take (zlevel (zsl m)) update) Hl) as (m1 & -> & Hz1 & Hb1 & Hi1 & Hk1 & Hs1 & Hl1).
  { rewrite length_take. lia. }
  { intros i u Hu. apply lookup_take_Some in Hu as [Hu Hi]. eauto. }
  mstep. pose proof (linked_level _ _ _ Hl) as Hlev.
  pose proof (sk_data _ _ _ Hl) as Hd. apply Forall_cons in Hd as [HdH Hd].
  pose proof (sk_heights _ _ _ Hl) as Hht. pose proof (sk_info _ _ _ Hl) as Hinf.
  assert (Hle : forall x, x ∈ A ++ e :: B -> holds (nodes m1) x /\ info_ok (nodes m1) x /\ (1 <= height x)%nat).
  { intros x Hx. pose proof (proj1 (Forall_forall _ _) Hht x Hx) as Hhx. cbn in Hhx. split_and!; [| |lia].
    - eapply holds_lift; [done|]. by apply (proj1 (Forall_forall _ _) Hd).
    - eapply info_lift; [done|]. by apply (proj1 (Forall_forall _ _) Hinf). }
  destruct (unlink_back_ok m1 H A B e) as (m2 & -> & Hz2 & Hb2 & Hi2 & Hs2 & Hk2).
  { apply (sk_nodup _ _ _ Hl). }
  { apply Forall_forall. intros x Hx. by apply Hle. }
  { apply Forall_forall. intros x Hx. by apply Hle. }
  { apply Hl1; [lia|]. apply Hle. set_solver. }
  { by eapply back_lift; [|apply (sk_back _ _ _ Hl)]. }
  { rewrite Hz1. apply Hl. }
  mstep. destruct (lower_level_ok (zlength (zsl m2) - 1) m2 H (A ++ B)) as (m3 & -> & Hl3 & Hz3 & Hal3 & Hlen3 & Hb3 & Hi3).
  - apply (linked_remove m _ H A B e); cbn [set_zlength set_zsl nodes zsl header tail zlength zlevel]; rewrite ?Hz2;
      cbn [header tail zlength zlevel]; rewrite ?Hz1; try done.
    + constructor; [by eapply holds_lift, holds_lift|]. apply Forall_forall. intros x Hx. eapply holds_lift; [done|].
      apply Hle. set_solver.
    + apply Forall_forall. intros x Hx. eapply info_lift; [done|]. apply Hle. set_solver.
    + intros i Hi. eapply level_lift; [apply Hs2|]. by apply Hl1.
    + intros i Hi. etrans; [by apply Hs1|apply Hs2].
  - mstep. rewrite Hlen3. exists (set_zlength m3 (zlength (zsl m2) - 1)). split; [done|].
    destruct (Hle e) as (He1 & He2 & _); [set_solver|].
    split_and!; [done|done| | | |].
    + by eapply holds_lift, holds_lift.
    + by eapply info_lift, info_lift.
    + cbn [set_zlength set_zsl nodes]. rewrite (lift_dom _ _ _ Hb3), (lift_dom _ _ _ Hb2). by apply lift_dom in Hb1.
    + cbn [set_zlength set_zsl zsl alloc_size]. rewrite Hal3, Hz2. cbn [alloc_size]. by rewrite Hz1.
Qed.

Lemma find_update_ok m H A B e :
  linked m H (A ++ e :: B) ->
  exists us, find_update m (ptr e) = Some us /\ length us = zlevel (zsl m) /\
    (forall i u, us !! i = Some u -> exists r, pred_at (H :: A) i (u, r)).
Proof.
  intros Hl. destruct (sorted_middle _ _ _ (sk_sorted _ _ _ Hl)) as (_ & HA & HB).
  destruct (linked_nodes m H _ e Hl) as (nd & Hn & Hsc & Hel & _); [set_solver|].
  pose proof (sk_nan _ _ _ Hl) as Hnan.
  destruct (search_linked m H A (e :: B) (cmp_gt (e_score e) (e_ele e)) Hl) as (ur & Hs & Hlen & Hur).
  { apply stops_gt; [|done|..].
    - apply (proj1 (Forall_forall _ _) Hnan e). set_solver.
    - eapply Forall_impl; [apply HA|]. unfold zlt. cbn. intros x Hx. by rewrite zcmp_antisym, Hx.
    - constructor; [by rewrite (proj2 (zcmp_eq _ _ _ _))|].
      eapply Forall_impl; [apply HB|]. unfold zlt. cbn. intros x Hx. by rewrite Hx. }
  unfold find_update, zslGetNodeElement. rewrite Hn. mstep. rewrite Hsc, Hel, Hs. mstep.
  pose proof (linked_level _ _ _ Hl) as Hlev.
  destruct (lookup_lt_is_Some_2 ur O) as [[u0 r0] Hu0]; [lia|].
  assert (Hfst : forall i, map fst ur !! i = fst <$> ur !! i) by (intros i; apply list_lookup_fmap).
  rewrite Hfst, Hu0. cbn [fmap option_fmap option_map fst]. mstep.
  pose proof (Hur _ _ Hu0) as (A1 & u & A2 & HA' & Hu & Hlow & [= -> ->]).
  destruct (sk_levels _ _ _ Hl O ltac:(lia) A1 u (A2 ++ e :: B)) as (nu & l & Hnu & Hlv & Hf & _); [|done|].
  { by rewrite app_comm_cons, HA', <- app_assoc. }
  rewrite Hnu. mstep. rewrite Hlv. mstep. rewrite Hf, hop_app_low, hop_cons_high; [|..|done].
  2: { pose proof (proj1 (Forall_forall _ _) (sk_heights _ _ _ Hl) e). cbn in *. set_solver by lia. }
  cbn [fst]. rewrite bool_decide_true by done. cbn [cassert]. mstep. eexists. split; [done|].
  split; [by rewrite length_map|]. intros i v Hv. rewrite Hfst in Hv. destruct (ur !! i) as [[v' r]|] eqn:Ei; [|done].
  injection Hv as <-. eauto.
Qed.

(** Unlinking and freeing: what deletions of one element and of ranges do *)
Lemma unlink_free_ok base m H A B e update :
  skiplist base m H (A ++ e :: B) -> (zlevel (zsl m) <= length update)%nat ->
  (forall i u, (i < zlevel (zsl m))%nat -> update !! i = Some u -> exists r, pred_at (H :: A) i (u, r)) ->
  exists m1 m2 nd, zslUnlinkNode m (ptr e) update = Some m1 /\ nodes m1 !! ptr e = Some nd /\ node_data e nd /\
    zslFreeNode m1 (ptr e) = Some m2 /\ skiplist base m2 H (A ++ B) /\ (zlevel (zsl m2) <= zlevel (zsl m))%nat.
Proof.
  intros [Hl Htop Hdom Hal] Hlen Hus.
  destruct (zslUnlinkNode_ok m H A B e update Hl Hlen Hus) as (m1 & Hm1 & Hl1 & Hz1 & (nd & Hn & Hd) & _ & Hdom1 & Hal1).
  destruct (nodup_middle ptr (H :: A) e B (sk_nodup _ _ _ Hl)) as [_ Hout].
  exists m1. eexists _, nd. do 3 (split; [done|]). split; [unfold zslFreeNode; by rewrite Hn|]. split; [split|].
  - apply (linked_frame m1); try done. intros x Hx. cbn [nodes]. apply lookup_delete_ne. intros Hp. apply Hout.
    rewrite Hp. by apply list_elem_of_fmap_2.
  - done.
  - cbn [nodes]. rewrite dom_delete_L, Hdom1, Hdom, (app_comm_cons A (e :: B)), set_middle. cbn [app] in *.
    assert (Hnin : ptr e ∉ (list_to_set (ptr <$> H :: A ++ B) : gset positive)) by by rewrite elem_of_list_to_set.
    set_solver.
  - destruct Hd as (_ & _ & Hblk & _).
    cbn [zsl alloc_size]. rewrite Hal1, Hal, Hblk, (app_comm_cons A (e :: B)), blocks_middle. unfold wrapU.
    rewrite Zminus_mod_idemp_l. f_equal. cbn [app]. lia.
  - cbn [zsl zlevel]. rewrite Hz1, Htop, top_middle. lia.
Qed.

Lemma zslDelete_ok base m H A B e :
  skiplist base m H (A ++ e :: B) -> exists m', zslDelete m (ptr e) = Some m' /\ skiplist base m' H (A ++ B).
Proof.
  intros Hs. unfold zslDelete. destruct (find_update_ok m H A B e (sk_linked _ _ _ _ Hs)) as (us & -> & Hlen & Hus). mstep.
  destruct (unlink_free_ok base m H A B e us Hs) as (m1 & m2 & nd & -> & _ & _ & Hf & Hs2 & _); [lia|eauto|]. mstep. eauto.
Qed.

(** ** Change of a score *)

Definition rescore (e : elem) (s : Z) : elem := mkElem (ptr e) s (e_ele e) (height e) (e_block e).

Lemma hop_rescore i l1 e s l2 : hop i (l1 ++ rescore e s :: l2) = hop i (l1 ++ e :: l2).
Proof. induction l1 as [|x l1 IH]; cbn [app hop]; [done|]. by rewrite IH. Qed.

Lemma level_ok_rescore h C1 e s C2 i : level_ok h (C1 ++ e :: C2) i -> level_ok h (C1 ++ rescore e s :: C2) i.
Proof.
  intros Hl pre x suf Heq Hi. destruct (app_cons_split _ _ _ _ _ Heq) as [(k & -> & ->)|(k & -> & Heq2)].
  - rewrite hop_rescore. apply (Hl pre x); [by rewrite <- app_assoc|done].
  - destruct k as [|y k]; injection Heq2 as <- ->.
    + by apply (Hl C1 e).
    + apply (Hl (C1 ++ e :: k) x); [by rewrite <- app_assoc|done].
Qed.

Lemma back_ok_rescore h p l1 e s l2 : back_ok h p (l1 ++ rescore e s :: l2) <-> back_ok h p (l1 ++ e :: l2).
Proof. by rewrite !back_ok_app. Qed.

Lemma lastp_rescore p l1 e s l2 : lastp p (l1 ++ rescore e s :: l2) = lastp p (l1 ++ e :: l2).
Proof. by rewrite !lastp_app, !lastp_cons. Qed.

Lemma set_score_lift (h : heap) q nd s :
  h !! q = Some nd ->
  let h' := <[q := set_score nd s]> h in
  lift same_info h h' /\ lift same_back h h' /\ forall j, lift (same_level j) h h'.
Proof. intros Hq. split_and!; [by eapply lift_insert; first apply _..|]. intros j. by eapply lift_insert; first apply _. Qed.

(** In place: the element stays where it is. *)
Lemma linked_rescore m H A B e s nd :
  linked m H (A ++ e :: B) -> nodes m !! ptr e = Some nd -> isnan s = false ->
  Forall (fun x => zlt x (rescore e s)) A -> Forall (fun x => zlt (rescore e s) x) B ->
  linked (set_nodes m (<[ptr e := set_score nd s]> (nodes m))) H (A ++ rescore e s :: B).
Proof.
  intros Hl Hn Hnan HA HB. destruct (set_score_lift (nodes m) (ptr e) nd s Hn) as (Hi & Hk & Hs).
  destruct (sorted_middle _ _ _ (sk_sorted _ _ _ Hl)) as (Hsort & _ & _).
  assert (Hother : forall x, x ∈ (H :: A) ++ B -> holds (<[ptr e := set_score nd s]> (nodes m)) x).
  { intros x Hx. pose proof (nodup_out (H :: A) B e x (sk_nodup _ _ _ Hl) Hx). unfold holds. rewrite lookup_insert_ne by done.
    eapply linked_nodes; [done|]. set_solver. }
  assert (Hfm : forall {C} (f : elem -> C), f (rescore e s) = f e -> f <$> A ++ rescore e s :: B = f <$> A ++ e :: B).
  { intros C f Hf. by rewrite !fmap_app, !fmap_cons, Hf. }
  split; cbn [set_nodes nodes zsl]; try apply Hl.
  - change (H :: A ++ ?x :: B) with ((H :: A) ++ x :: B). rewrite <- Permutation_middle. constructor.
    + exists (set_score nd s). rewrite lookup_insert_eq. split; [done|].
      destruct (linked_nodes m H _ e Hl) as (nd' & Hn' & Hd); [set_solver|]. rewrite Hn in Hn'. injection Hn' as <-.
      destruct Hd as (_ & ? & ? & ?). by split_and!.
    + by apply Forall_forall.
  - pose proof (sk_info _ _ _ Hl) as Hinf. rewrite Forall_app, Forall_cons in Hinf |- *. destruct Hinf as (H1 & H2 & H3).
    split_and!; [|by apply (info_lift (nodes m)) with (e := e)|]; eapply Forall_impl; try apply H1; try apply H3; intros x; by apply info_lift.
  - intros i Hlt. apply (level_ok_rescore _ (H :: A)). eapply level_lift; [apply Hs|]. by apply (sk_levels _ _ _ Hl).
  - intros i Hlt. eapply entry_lift; [apply Hs|]. by apply (sk_above _ _ _ Hl).
  - apply back_ok_rescore. by eapply back_lift; [|apply (sk_back _ _ _ Hl)].
  - rewrite lastp_rescore. apply Hl.
  - rewrite (sk_length _ _ _ Hl), !length_app. done.
  - pose proof (sk_small _ _ _ Hl) as Hx. rewrite length_app in Hx |- *. done.
  - pose proof (sk_level _ _ _ Hl) as Hx. rewrite top_middle in Hx |- *. done.
  - pose proof (sk_heights _ _ _ Hl) as Hx. rewrite Forall_app, Forall_cons in Hx |- *. done.
  - rewrite fmap_cons, Hfm by done. apply (sk_nodup _ _ _ Hl).
  - by apply sorted_insert.
  - rewrite Hfm by done. apply (sk_members _ _ _ Hl).
  - pose proof (sk_nan _ _ _ Hl) as Hx. rewrite Forall_app, Forall_cons in Hx |- *. tauto.
Qed.

Lemma neighbours m H A B e nd :
  linked m H (A ++ e :: B) -> nodes m !! ptr e = Some nd ->
  exists l, level nd !! O = Some l /\ backward nd = lastp None A /\ forward l = ptr <$> head B.
Proof.
  intros Hl Hn. pose proof (linked_level _ _ _ Hl) as Hlev. pose proof (sk_heights _ _ _ Hl) as Hh.
  rewrite Forall_app, Forall_cons in Hh. destruct Hh as (_ & Hhe & HhB).
  destruct (sk_levels _ _ _ Hl O ltac:(lia) (H :: A) e B eq_refl) as (nd' & l & Hn' & Hlv & Hf & _); [lia|].
  rewrite Hn in Hn'. injection Hn' as <-. exists l. split; [done|].
  pose proof (sk_back _ _ _ Hl) as Hb. apply back_ok_app in Hb as [_ [(nd' & Hn' & Hb) _]].
  rewrite Hn in Hn'. injection Hn' as <-. split; [done|]. rewrite Hf. destruct B as [|b B]; [done|].
  apply Forall_cons in HhB as [Hb' _]. by rewrite hop_cons_high by lia.
Qed.

Lemma dbl_lt_zlt a b : dbl_lt (e_score a) (e_score b) = true -> zlt a b.
Proof.
  unfold dbl_lt, zlt, zcmp. intros Hlt. apply andb_true_iff in Hlt as [_ Hlt]. apply Z.ltb_lt in Hlt.
  by rewrite (proj2 (Z.compare_lt_iff _ _) Hlt).
Qed.

(** The test of the fast path *)
Lemma fast_path_ok m H A B e s nd l prev next :
  linked m H (A ++ e :: B) -> nodes m !! ptr e = Some nd -> level nd !! O = Some l ->
  deref m (backward nd) = Some prev -> deref m (forward l) = Some next ->
  match prev with None => true | Some b => dbl_lt (score b) s end = true ->
  match next with None => true | Some f => dbl_lt s (score f) end = true ->
  Forall (fun x => zlt x (rescore e s)) A /\ Forall (fun x => zlt (rescore e s) x) B.
Proof.
  intros Hl Hn Hlv Hprev Hnext Hp Hx. destruct (neighbours m H A B e nd Hl Hn) as (l' & Hlv' & Hbk & Hfw).
  rewrite Hlv in Hlv'. injection Hlv' as <-. rewrite Hbk in Hprev. rewrite Hfw in Hnext.
  destruct (sorted_middle _ _ _ (sk_sorted _ _ _ Hl)) as (Hsort & _ & _). apply StronglySorted_app_iff in Hsort as (HsA & HsB & _).
  split.
  - destruct (last A) as [a|] eqn:Ea; [|by apply last_None in Ea as ->]. apply last_Some in Ea as [A' ->].
    rewrite lastp_snoc in Hprev. destruct (deref_holds m a) as (na & Hna & Hd).
    { eapply linked_nodes; [done|]. set_solver. }
    rewrite Hna in Hprev. injection Hprev as <-. destruct Hd as (Hsc & _). rewrite Hsc in Hp.
    assert (Ha : zlt a (rescore e s)) by by apply dbl_lt_zlt.
    apply Forall_app. split; [|by constructor]. apply StronglySorted_app_iff in HsA as (_ & _ & HsA).
    apply Forall_forall. intros y Hy. trans a; [apply HsA; [done|set_solver]|done].
  - destruct B as [|b B]; [done|]. cbn [head fmap option_fmap option_map] in Hnext.
    destruct (deref_holds m b) as (nb & Hnb & Hd).
    { eapply linked_nodes; [done|]. set_solver. }
    rewrite Hnb in Hnext. injection Hnext as <-. destruct Hd as (Hsc & _). rewrite Hsc in Hx.
    assert (Hb : zlt (rescore e s) b) by by apply dbl_lt_zlt.
    constructor; [done|]. apply StronglySorted_inv in HsB as [_ HsB].
    eapply Forall_impl; [apply HsB|]. intros y Hy. by trans b.
Qed.

(** The slow path: the node is unlinked and linked again at its new place. *)
Lemma update_slow_ok base m H A B e newscore :
  skiplist base m H (A ++ e :: B) -> isnan newscore = false ->
  exists m',
    (update ← find_update m (ptr e); m ← zslUnlinkNode m (ptr e) update;
     m ← at_node m (ptr e) (fun x => Some (set_score x newscore)); zslInsertNode m (ptr e)) = Some m' /\
    skiplist base m' H (zinsert (rescore e newscore) (A ++ B)).
Proof.
  intros [Hl Htop Hdom Hal] Hnan. destruct (find_update_ok m H A B e Hl) as (us & -> & Hlen & Hus). mstep.
  destruct (zslUnlinkNode_ok m H A B e us Hl) as (m1 & -> & Hl1 & Hz1 & (nd & Hn & Hd) & Hi & Hdom1 & Hal1); [lia|eauto|]. mstep.
  destruct Hi as (nd' & Hn' & Hi). rewrite Hn in Hn'. injection Hn' as <-.
  rewrite (at_node_eq m1 (ptr e) (fun x => Some (set_score x newscore)) nd _ Hn eq_refl). mstep.
  destruct (nodup_middle ptr (H :: A) e B (sk_nodup _ _ _ Hl)) as [_ Hout]. cbn [app] in Hout.
  destruct (nodup_middle e_ele A e B (sk_members _ _ _ Hl)) as [_ Hmem].
  pose proof (proj1 (Forall_forall _ _) (sk_heights _ _ _ Hl) e ltac:(set_solver)) as Hhe. cbn in Hhe.
  pose proof (sk_small _ _ _ Hl) as Hsmall. rewrite length_app in Hsmall. cbn [length] in Hsmall.
  destruct (place_split (rescore e newscore) (A ++ B) (sk_sorted _ _ _ Hl1) Hmem) as (A' & B' & HAB & HA' & HB').
  match goal with |- context [zslInsertNode ?x _] => set (m2 := x) end. rewrite HAB in *.
  destruct (zslInsertNode_ok m2 H A' B' (rescore e newscore)) as (m3 & Hm3 & Hl3 & Hz3 & Hdom3 & Hal3); try done.
  - apply (linked_frame m1); try done. intros x Hx. apply lookup_insert_ne. intros Hp. apply Hout.
    cbn [ptr rescore] in Hp. rewrite Hp. by apply list_elem_of_fmap_2.
  - exists (set_score nd newscore). split; [apply lookup_insert_eq|]. destruct Hd as (_ & ? & ? & ?). by split_and!.
  - exists (set_score nd newscore). split; [apply lookup_insert_eq|done].
  - rewrite <- HAB, length_app. lia.
  - change (ptr e) with (ptr (rescore e newscore)). exists m3. split; [done|]. rewrite zinsert_split by done.
    assert (Hdom2 : dom (nodes m2) = dom (nodes m)).
    { cbn [m2 set_nodes nodes]. rewrite dom_insert_lookup_L by (by exists nd). done. }
    split; [done|..].
    + rewrite Hz3, top_middle. cbn [m2 set_nodes zsl]. by rewrite Hz1.
    + rewrite Hdom3, Hdom2, Hdom, !(app_comm_cons A), !(app_comm_cons A'), !set_middle. cbn [app]. by rewrite HAB.
    + rewrite Hal3. cbn [m2 set_nodes zsl]. rewrite Hal1, Hal, !(app_comm_cons A), !(app_comm_cons A'), !blocks_middle.
      cbn [app]. by rewrite HAB.
Qed.

Lemma zslUpdateScore_ok base m H A B e newscore :
  skiplist base m H (A ++ e :: B) -> isnan newscore = false ->
  exists m', zslUpdateScore m (ptr e) newscore = Some m' /\
    skiplist base m' H (zinsert (rescore e newscore) (A ++ B)).
Proof.
  intros Hs Hnan. pose proof Hs as [Hl Htop Hdom Hal]. unfold zslUpdateScore.
  destruct (linked_nodes m H _ e Hl) as (nd & Hn & Hd); [set_solver|]. rewrite Hn. mstep.
  destruct (neighbours m H A B e nd Hl Hn) as (l & Hlv & Hbk & Hfw). rewrite Hlv. mstep.
  assert (Hder : forall p, (exists x, x ∈ A ++ e :: B /\ p = Some (ptr x)) \/ p = None -> exists q, deref m p = Some q).
  { intros p [(x & Hx & ->)| ->]; [|by eexists]. destruct (deref_holds m x) as (nx & -> & _); [|by eexists].
    eapply linked_nodes; [done|]. set_solver. }
  destruct (Hder (backward nd)) as [prev Hprev].
  { rewrite Hbk. destruct (last A) as [a|] eqn:Ea; [|apply last_None in Ea as ->; by right].
    apply last_Some in Ea as [A' ->]. rewrite lastp_snoc. left. exists a. set_solver. }
  destruct (Hder (forward l)) as [next Hnext].
  { rewrite Hfw. destruct B as [|b B]; [by right|]. left. exists b. set_solver. }
  rewrite Hprev. mstep. rewrite Hnext. mstep.
  assert (Hset : dom (<[ptr e := set_score nd newscore]> (nodes m)) = dom (nodes m)).
  { apply dom_insert_lookup_L. by exists nd. }
  match goal with |- context [if ?a && ?b then _ else _] => destruct (a && b) eqn:Hc end.
  - apply andb_true_iff in Hc as [Hc1 Hc2].
    destruct (fast_path_ok m H A B e newscore nd l prev next) as [HA HB]; try done.
    rewrite (at_node_eq m (ptr e) (fun x => Some (set_score x newscore)) nd _ Hn eq_refl).
    eexists. split; [done|]. rewrite zinsert_split by done. split.
    + by apply linked_rescore.
    + cbn [set_nodes zsl]. by rewrite Htop, !top_middle.
    + cbn [set_nodes nodes]. by rewrite Hset, Hdom, !(app_comm_cons A), !set_middle.
    + cbn [set_nodes zsl]. by rewrite Hal, !(app_comm_cons A), !blocks_middle.
  - by apply update_slow_ok.
Qed.

(** ** A new list, and the end of a list *)

Definition header_elem `{AL : Allocator} (p : positive) : elem :=
  mkElem p 0 [] ZSKIPLIST_MAXLEVEL (usable (node_fixed_size + Z.of_nat ZSKIPLIST_MAXLEVEL * level_size)).

Lemma zslCreate_ok `{AL : Allocator} p :
  exists m, zslCreate p = Some m /\ skiplist (usable zskiplist_size) m (header_elem p) [].
Proof.
  eexists. split; [done|]. split; [split|..]; try done; cbn [nodes zsl].
  - constructor; [|constructor]. eexists. split; [apply lookup_insert_eq|done].
  - cbn [zlevel zsl]. intros i Hi. assert (i = O) as -> by lia. intros pre x suf Heq _. destruct pre as [|? [|]]; [|done..].
    injection Heq as <- <-. eexists _, _. split; [apply lookup_insert_eq|]. split; [reflexivity|]. split; [done|by left].
  - cbn [zlevel zsl]. intros i Hi. eexists _, _. split; [apply lookup_insert_eq|]. cbn [put_level level header_elem ptr].
    split; [|split; [|right]].
    + rewrite list_lookup_insert_ne by lia. apply lookup_replicate_2. lia.
    + done.
    + done.
  - cbn. unfold ZSKIPLIST_MAXLEVEL. lia.
  - apply NoDup_singleton.
  - constructor.
  - constructor.
  - rewrite dom_insert_L, dom_empty_L. cbn. set_solver.
  - cbn [alloc_size zsl blocks foldr header_elem e_block]. by rewrite Z.add_0_r.
Qed.

(** Freeing the elements from level 0 *)
Lemma free_loop_ok base m L :
  NoDup (ptr <$> L) -> Forall (fun e => 1 <= height e)%nat L -> Forall (holds (nodes m)) L ->
  level_ok (nodes m) L 0 -> dom (nodes m) = list_to_set (ptr <$> L) -> alloc_size (zsl m) = u64 (base + blocks L) ->
  forall fuel, (length L <= fuel)%nat ->
  exists m', free_loop fuel m (ptr <$> head L) = Some m' /\ nodes m' = ∅ /\ alloc_size (zsl m') = u64 base.
Proof.
  revert m. induction L as [|e L IH]; intros m Hnd Hh Hd Hl Hdom Hal fuel Hf.
  - exists m. cbn [head fmap option_fmap option_map]. split; [by destruct fuel|]. split.
    + apply dom_empty_inv_L. by rewrite Hdom.
    + rewrite Hal. cbn. by rewrite Z.add_0_r.
  - cbn [length head fmap option_fmap option_map] in *. destruct fuel as [|fuel]; [lia|]. cbn [free_loop].
    apply Forall_cons in Hh as [He Hh]. apply Forall_cons in Hd as [(nd & Hn & _ & _ & Hblk & _) Hd].
    destruct (Hl [] e L eq_refl He) as (nd' & l & Hn' & Hlv & Hfw & _). rewrite Hn in Hn'. injection Hn' as <-.
    rewrite Hn. mstep. rewrite Hlv. mstep. unfold zslFreeNode. rewrite Hn. mstep. rewrite Hfw.
    rewrite fmap_cons, NoDup_cons in Hnd. destruct Hnd as [Hnin Hnd].
    assert (Hfr : forall x, x ∈ L -> delete (ptr e) (nodes m) !! ptr x = nodes m !! ptr x).
    { intros x Hx. apply lookup_delete_ne. intros Hp. apply Hnin. rewrite Hp. by apply list_elem_of_fmap_2. }
    replace (hop 0 L).1 with (ptr <$> head L).
    2: { destruct L as [|y L]; [done|]. apply Forall_cons in Hh as [Hy _]. by rewrite hop_cons_high by lia. }
    apply IH; cbn [nodes zsl alloc_size]; try done; try lia.
    + apply Forall_forall. intros x Hx. unfold holds. rewrite Hfr by done. by apply (proj1 (Forall_forall _ _) Hd).
    + intros pre x suf HL Hi. unfold entry. rewrite Hfr by (rewrite HL; set_solver).
      apply (Hl (e :: pre)); [by rewrite HL|done].
    + rewrite dom_delete_L, Hdom, fmap_cons, list_to_set_cons.
      assert (ptr e ∉ (list_to_set (ptr <$> L) : gset positive)) by by rewrite elem_of_list_to_set. set_solver.
    + rewrite Hal, Hblk. cbn [blocks foldr]. fold (blocks L). unfold wrapU. rewrite Zminus_mod_idemp_l. f_equal. lia.
Qed.

Lemma zslFree_ok base m H L :
  skiplist base m H L -> exists m', zslFree m = Some m' /\ nodes m' = ∅ /\ alloc_size (zsl m') = u64 base.
Proof.
  intros [Hl Htop Hdom Hal]. pose proof (linked_level _ _ _ Hl) as Hlev.
  assert (Hh : Forall (fun e => 1 <= height e)%nat (H :: L)).
  { constructor; [rewrite (sk_max _ _ _ Hl); lia|]. eapply Forall_impl; [apply (sk_heights _ _ _ Hl)|]. cbn. lia. }
  destruct (free_loop_ok base m (H :: L) (sk_nodup _ _ _ Hl) Hh (sk_data _ _ _ Hl) (sk_levels _ _ _ Hl O ltac:(lia)) Hdom Hal
    (S (walk_fuel m))) as (m' & Hm' & Hrest).
  { unfold walk_fuel. rewrite (sk_length _ _ _ Hl). cbn [length]. lia. }
  exists m'. split; [|done]. rewrite <- Hm'. unfold zslFree. rewrite (sk_header _ _ _ Hl).
  cbn [head fmap option_fmap option_map free_loop]. destruct (nodes m !! ptr H) as [nd|] eqn:En; [|done]. mstep.
  destruct (level nd !! O) as [l|]; [|done]. mstep. unfold zslFreeNode. rewrite En. mstep. done.
Qed.
