(* ===== verification/ZskiplistRank.v ===== *)
(** * The skip list of sorted sets: ranks

    Three ways between an element and its place: by comparisons from the header
    ([zslGetRank]), by the links from a node to the end ([zslGetRankByNode]),
    and from a rank to a node by the spans ([zslGetElementByRank]). *)

From stdpp Require Import gmap sorting.
From S2P Require Import Prelude Numstr Sds Object Zskiplist ZskiplistInv ZskiplistOps.

#[local] Open Scope Z_scope.

(** ** A part of a list that starts at a node *)

(** The elements [C], the first of which has [n] levels, are linked in memory. *)
Record zchain (m : zmem) (n : nat) (C : list elem) : Prop := {
  ch_data : Forall (holds (nodes m)) C;
  ch_heights : Forall (fun e => 1 <= height e)%nat C;
  ch_levels : forall i, (i < n)%nat -> level_ok (nodes m) C i;
  ch_small : Z.of_nat (length C) < 2 ^ 63 - 1;
  ch_fuel : (length C <= S (walk_fuel m))%nat
}.

Lemma linked_zchain m H L : linked m H L -> zchain m (zlevel (zsl m)) (H :: L).
Proof.
  intros Hl. pose proof (sk_small _ _ _ Hl) as Hs. split.
  - apply (sk_data _ _ _ Hl).
  - constructor; [rewrite (sk_max _ _ _ Hl); unfold ZSKIPLIST_MAXLEVEL; lia|].
    eapply Forall_impl; [apply (sk_heights _ _ _ Hl)|]. cbn. lia.
  - apply (sk_levels _ _ _ Hl).
  - cbn [length]. lia.
  - cbn [length]. unfold walk_fuel. rewrite (sk_length _ _ _ Hl). lia.
Qed.

Lemma zchain_suffix m n C1 C2 : zchain m n (C1 ++ C2) -> zchain m n C2.
Proof.
  intros [H1 H2 H3 H4 H5]. rewrite length_app in H4, H5. apply Forall_app in H1 as [_ H1]. apply Forall_app in H2 as [_ H2].
  split; [done|done| |lia|lia]. intros i Hi. eapply level_ok_suffix. by apply H3.
Qed.

Lemma zchain_walk m n A B cond i A1 x A2 :
  zchain m n (A ++ B) -> stops cond A B -> (i < n)%nat -> A = A1 ++ x :: A2 -> (i < height x)%nat ->
  exists ur, walk m (walk_fuel m) cond i (ptr x) (Z.of_nat (length A1)) = Some ur /\ pred_at A i ur.
Proof.
  intros [H1 H2 H3 H4 H5] Hc Hi HA Hx. apply (walk_ok m cond A B Hc H1 H2) with (A2 := A2); try done; [lia|by apply H3|].
  rewrite HA, !length_app in H5. cbn [length] in H5. lia.
Qed.

Lemma zchain_search m n A B cond k A1 x A2 :
  zchain m n (A ++ B) -> stops cond A B -> (k <= n)%nat -> A = A1 ++ x :: A2 -> (k <= height x)%nat ->
  exists ur, search m cond k (ptr x) (Z.of_nat (length A1)) = Some ur /\ length ur = k /\
    (forall i u, ur !! i = Some u -> pred_at A i u).
Proof.
  intros [H1 H2 H3 H4 H5] Hc Hk HA Hx. apply (search_ok m cond A B Hc H1 H2) with (A2 := A2); try done; [lia|auto with lia|].
  rewrite length_app in H5. lia.
Qed.

(** At level 0 the walk ends at the last element. *)
Lemma pred_at_zero (A2 : list elem) : Forall (fun e => 1 <= height e)%nat A2 -> Forall (low 0) A2 -> A2 = [].
Proof.
  intros Hh Hl. destruct A2 as [|x A2]; [done|]. inversion Hh; inversion Hl; subst. unfold low in *. lia.
Qed.

(** ** From a rank to a node *)

Lemma stops_rank_le rank A B :
  Z.of_nat (length (A ++ B)) < 2 ^ 63 -> 0 <= rank ->
  length A = Nat.min (length (A ++ B)) (Z.to_nat (rank + 1)) -> stops (rank_le rank) A B.
Proof.
  intros Hs Hr HA. split; [done|]. intros P e S nd r s _ Heq _ Hr0 Hs0 Hsum. unfold rank_le.
  rewrite Heq, length_app in HA, Hs. cbn [length] in HA, Hs.
  rewrite bool_decide_true by done. cbn [andb]. rewrite Hsum, u64_nat by lia.
  apply eq_true_iff_eq. rewrite Z.leb_le, bool_decide_eq_true. lia.
Qed.

Lemma by_rank_loop_ok m n0 A B rank n A1 x A2 :
  zchain m n0 (A ++ B) -> 0 <= rank -> length A = Nat.min (length (A ++ B)) (Z.to_nat (rank + 1)) ->
  (n <= n0)%nat -> A = A1 ++ x :: A2 -> (n <= height x)%nat -> (n = O -> A2 = [] /\ Z.of_nat (length A1) <> rank) ->
  by_rank_loop m rank n (ptr x) (Z.of_nat (length A1)) = Some (ptr <$> (A ++ B) !! Z.to_nat rank).
Proof.
  intros Hc Hr HlA. pose proof (ch_small _ _ _ Hc) as Hsmall.
  assert (Hst : stops (rank_le rank) A B) by (apply stops_rank_le; [lia|done..]).
  revert A1 x A2. induction n as [|i IH]; intros A1 x A2 Hn HA Hx H0; cbn [by_rank_loop].
  - destruct (H0 eq_refl) as [-> Hne]. rewrite lookup_ge_None_2; [done|].
    assert (length A = S (length A1)) by (rewrite HA, length_app; cbn; lia). lia.
  - destruct (zchain_walk m n0 A B (rank_le rank) i A1 x A2 Hc Hst) as (ur & -> & B1 & u & B2 & HB & Hu & Hlow & ->); [lia|done|lia|].
    mstep. destruct (Z.eqb_spec (Z.of_nat (length B1)) rank) as [Heq|Hne].
    + rewrite <- Heq, Nat2Z.id, HB, <- app_assoc. cbn [app]. rewrite list_lookup_middle by done. done.
    + apply (IH B1 u B2); [lia|done|lia|]. intros ->. split; [|done]. apply pred_at_zero; [|done].
      pose proof (ch_heights _ _ _ Hc) as Hh. rewrite HB, <- app_assoc in Hh. cbn [app] in Hh.
      rewrite Forall_app, Forall_cons, Forall_app in Hh. tauto.
Qed.

(** From a node with [n] levels, the node [rank] places further *)
Lemma by_rank_from_ok m n C x rank :
  zchain m n (x :: C) -> (1 <= n <= height x)%nat -> 0 <= rank ->
  zslGetElementByRankFromNode m (ptr x) n rank = Some (ptr <$> (x :: C) !! Z.to_nat rank).
Proof.
  intros Hc Hn Hr. unfold zslGetElementByRankFromNode.
  set (k := Z.to_nat (rank + 1)). rewrite <- (take_drop k (x :: C)) in Hc. rewrite <- (take_drop k (x :: C)).
  assert (Hk : exists j, k = S j) by (exists (Z.to_nat rank); unfold k; lia). destruct Hk as [j Hj].
  apply (by_rank_loop_ok m n (take k (x :: C)) (drop k (x :: C)) rank n [] x (take j C)); try done.
  - rewrite take_drop. rewrite length_take. fold k. lia.
  - by rewrite Hj.
  - lia.
  - lia.
Qed.

(** The header has rank 0; there is no element after the last one. *)
Lemma zslGetElementByRank_ok base m H L rank :
  skiplist base m H L -> 0 <= rank ->
  zslGetElementByRank m rank = Some (ptr <$> (H :: L) !! Z.to_nat rank).
Proof.
  intros [Hl _ _ _] Hr. unfold zslGetElementByRank. rewrite (sk_header _ _ _ Hl).
  pose proof (linked_level _ _ _ Hl). apply by_rank_from_ok; [by apply linked_zchain| |done].
  rewrite (sk_max _ _ _ Hl). lia.
Qed.

(** ** From a node to its rank *)

Lemma distance_loop_ok m n C e fuel d :
  zchain m n (e :: C) -> Forall (info_ok (nodes m)) (e :: C) -> Forall (fun x => height x <= n)%nat (e :: C) ->
  (length C < fuel)%nat -> 0 <= d -> d + Z.of_nat (length C) < 2 ^ 63 ->
  distance_loop m fuel (Some (ptr e)) d = Some (d + Z.of_nat (length C)).
Proof.
  revert C e d. induction fuel as [|fuel IH]; intros C e d Hc Hinfo Hh Hf Hd0 Hd; [lia|]. cbn [distance_loop].
  apply Forall_cons in Hinfo as [(nd & Hn & Hlv) Hinfo]. rewrite Hn. mstep. rewrite Hlv. mstep.
  pose proof (ch_heights _ _ _ Hc) as Hge. apply Forall_cons in Hge as [Hge1 Hge]. apply Forall_cons in Hh as [Hh1 Hh].
  set (i := (height e - 1)%nat). pose proof (ch_levels _ _ _ Hc i ltac:(lia) [] e C eq_refl ltac:(lia)) as Hent.
  pose proof Hent as (nd' & l & Hn' & Hl & _). rewrite Hn in Hn'. injection Hn' as <-.
  destruct (entry_span _ _ _ _ _ _ Hent Hn Hl Hge) as [Hfw Hsp]. rewrite Hsp. mstep. rewrite Hl. mstep. rewrite Hfw.
  pose proof (hop_range i C) as Hrange. rewrite u64_nat by lia.
  destruct (hop_split i C) as [[Heq _]|(l1 & u & l2 & -> & _ & _ & Heq)]; rewrite Heq; cbn [fst snd].
  - destruct fuel; done.
  - rewrite length_app in *. cbn [length] in *. rewrite (IH l2 u).
    + f_equal. lia.
    + by apply (zchain_suffix m n (e :: l1)).
    + by apply Forall_app in Hinfo as [_ ?].
    + by apply Forall_app in Hh as [_ ?].
    + lia.
    + lia.
    + lia.
Qed.

Lemma zslGetRankByNode_ok base m H A B e :
  skiplist base m H (A ++ e :: B) -> zslGetRankByNode m (ptr e) = Some (Z.of_nat (length A) + 1).
Proof.
  intros [Hl Htop _ _]. pose proof (sk_small _ _ _ Hl) as Hs. pose proof (sk_length _ _ _ Hl) as Hlen.
  unfold zslGetRankByNode. rewrite length_app in Hs, Hlen. cbn [length] in Hs, Hlen.
  rewrite (distance_loop_ok m (zlevel (zsl m)) B e).
  - mstep. f_equal. rewrite Hlen, u64_nat by lia. lia.
  - by apply (zchain_suffix _ _ (H :: A)), linked_zchain.
  - pose proof (sk_info _ _ _ Hl) as Hi. by apply Forall_app in Hi as [_ ?].
  - rewrite Htop. pose proof (top_low (A ++ e :: B) _ (Nat.le_refl _)) as Hlow. by apply Forall_app in Hlow as [_ ?].
  - unfold walk_fuel. rewrite Hlen. lia.
  - lia.
  - lia.
Qed.

(** ** From a score and a name to the rank *)

(** The place of the element, 0 when there is none *)
Definition rank_of (sc : Z) (el : list Z) (L : list elem) : Z :=
  match list_find (fun x => zcmp sc el (e_score x) (e_ele x) = Eq) L with
  | Some (k, _) => Z.of_nat k + 1
  | None => 0
  end.

Section rank.
Context (sc : Z) (el : list Z).
Notation cmp x := (zcmp sc el (e_score x) (e_ele x)).

Lemma cmp_zlt x y : zlt x y -> cmp y <> Lt -> cmp x = Gt.
Proof.
  unfold zlt. intros Hxy Hy. destruct (cmp y) eqn:E; [|done|].
  - apply zcmp_eq in E as [E1 E2]. unfold zcmp in Hxy |- *. rewrite E1, E2, Z.compare_antisym.
    destruct (dbl_key (e_score x) ?= dbl_key (e_score y)) eqn:E3; cbn; [|done|done]. by rewrite lex_antisym, Hxy.
  - rewrite zcmp_antisym in E |- *. destruct (zcmp (e_score y) _ _ _) eqn:E2; try done.
    by rewrite (zcmp_trans _ _ _ _ _ _ Hxy E2).
Qed.

Lemma rank_split L :
  StronglySorted zlt L -> exists A B, L = A ++ B /\ Forall (fun x => cmp x <> Lt) A /\ Forall (fun x => cmp x = Lt) B.
Proof.
  intros Hs. destruct (downward_split (fun x => bool_decide (cmp x <> Lt)) L) as (A & B & -> & HA & HB).
  - apply sorted_downward; [done|]. intros a b _ _ Hab Hb%bool_decide_eq_true. apply bool_decide_eq_true.
    by rewrite (cmp_zlt a b).
  - exists A, B. split_and!; [done|..]; eapply Forall_impl; try apply HA; try apply HB; cbn.
    + intros x Hx. by apply bool_decide_eq_true in Hx.
    + intros x Hx. apply bool_decide_eq_false in Hx. by apply dec_stable.
Qed.

Lemma rank_of_hit P u S : StronglySorted zlt (P ++ u :: S) -> cmp u = Eq -> rank_of sc el (P ++ u :: S) = Z.of_nat (length P) + 1.
Proof.
  intros Hs Hu. unfold rank_of. destruct (sorted_middle _ _ _ Hs) as (_ & HP & _).
  rewrite list_find_app_r; [cbn [list_find]; rewrite decide_True by done; cbn; lia|].
  apply list_find_None. eapply Forall_impl; [apply HP|]. cbn. intros x Hx. by rewrite (cmp_zlt x u) by (done || by rewrite Hu).
Qed.

Lemma rank_of_miss L : Forall (fun x => cmp x <> Eq) L -> rank_of sc el L = 0.
Proof. intros HL. unfold rank_of. by rewrite (proj2 (list_find_None _ _)). Qed.

Lemma stops_ge H A B :
  isnan sc = false -> Forall (fun e => isnan (e_score e) = false) (A ++ B) ->
  Forall (fun x => cmp x <> Lt) A -> Forall (fun x => cmp x = Lt) B -> stops (cmp_ge sc el) (H :: A) B.
Proof.
  intros Hn Hnan HA HB. apply (stops_pred _ (fun x => bool_decide (cmp x <> Lt))).
  - done.
  - intros e nd r s He (Hs & Hel & _). unfold cmp_ge. rewrite <- Hs, <- Hel, <- compare_zcmp.
    + unfold Z.geb. by destruct (_ ?= 0).
    + done.
    + rewrite Hs. by apply (proj1 (Forall_forall _ _) Hnan).
  - eapply Forall_impl; [apply HA|]. cbn. intros x Hx. by rewrite bool_decide_true.
  - eapply Forall_impl; [apply HB|]. cbn. intros x Hx. by rewrite bool_decide_false by (rewrite Hx; tauto).
Qed.

Lemma rank_loop_ok m H A B n A1 x A2 :
  linked m H (A ++ B) -> isnan sc = false -> Forall (fun x => cmp x <> Lt) A -> Forall (fun x => cmp x = Lt) B ->
  (n <= zlevel (zsl m))%nat -> H :: A = A1 ++ x :: A2 -> (n <= height x)%nat ->
  (n = O -> A2 = [] /\ (A1 <> [] -> cmp x <> Eq)) ->
  rank_loop m sc el n (ptr x) (Z.of_nat (length A1)) = Some (rank_of sc el (A ++ B)).
Proof.
  intros Hl Hnan HA HB. pose proof (linked_zchain _ _ _ Hl) as Hc. change (H :: A ++ B) with ((H :: A) ++ B) in Hc.
  pose proof (stops_ge H A B Hnan (sk_nan _ _ _ Hl) HA HB) as Hst.
  pose proof (sk_sorted _ _ _ Hl) as Hsort.
  revert A1 x A2. induction n as [|i IH]; intros A1 x A2 Hn HAx Hx H0; cbn [rank_loop].
  - destruct (H0 eq_refl) as [-> Hne]. rewrite rank_of_miss; [done|]. apply Forall_app. split.
    + destruct A1 as [|h A1]; injection HAx as <- ->; [done|]. apply Forall_app. split; [|constructor; [by apply Hne|done]].
      rewrite <- app_assoc in Hsort. cbn [app] in Hsort. destruct (sorted_middle _ _ _ Hsort) as (_ & HP & _).
      eapply Forall_impl; [apply HP|]. cbn. intros y Hy. rewrite (cmp_zlt y x Hy); [done|].
      apply Forall_app in HA as [_ HA]. by apply Forall_cons in HA as [? _].
    + eapply Forall_impl; [apply HB|]. cbn. intros y Hy. by rewrite Hy.
  - destruct (zchain_walk m (zlevel (zsl m)) (H :: A) B (cmp_ge sc el) i A1 x A2 Hc Hst) as (ur & -> & B1 & u & B2 & HB1 & Hu & Hlow & ->);
      [lia|done|lia|]. mstep.
    destruct (linked_nodes m H (A ++ B) u Hl) as (nd & Hnd & Hsc & Hel & _).
    { change (H :: A ++ B) with ((H :: A) ++ B). rewrite HB1. set_solver. }
    rewrite Hnd. mstep. rewrite (sk_header _ _ _ Hl).
    assert (Hrec : (B1 <> [] -> cmp u <> Eq) -> rank_loop m sc el i (ptr u) (Z.of_nat (length B1)) = Some (rank_of sc el (A ++ B))).
    { intros Hmiss. apply (IH B1 u B2); [lia|done|lia|]. intros ->. split; [|done]. apply pred_at_zero; [|done].
      pose proof (ch_heights _ _ _ Hc) as Hh. rewrite HB1, <- app_assoc in Hh. cbn [app] in Hh.
      rewrite Forall_app, Forall_cons, Forall_app in Hh. tauto. }
    destruct B1 as [|h B1].
    { injection HB1 as -> _. rewrite bool_decide_true by done. cbn [negb andb]. by apply Hrec. }
    injection HB1 as <- ->. rewrite bool_decide_false.
    2: { eapply (linked_header_ne m H _ u); [done|]. set_solver. }
    cbn [negb andb]. rewrite <- app_assoc in Hsort |- *. cbn [app] in Hsort |- *.
    assert (Hnu : isnan (score nd) = false).
    { rewrite Hsc. apply (proj1 (Forall_forall _ _) (sk_nan _ _ _ Hl)). set_solver. }
    pose proof (compare_zcmp sc el nd Hnan Hnu) as Hcmp. rewrite Hsc, Hel in Hcmp.
    destruct (Z.eqb_spec (zslCompareWithNode sc el (Some nd)) 0) as [E|E].
    + rewrite E in Hcmp. cbn in Hcmp. rewrite rank_of_hit by done. f_equal. cbn [length]. lia.
    + rewrite <- app_assoc in Hrec. apply Hrec. intros _. rewrite <- Hcmp. by rewrite Z.compare_eq_iff.
Qed.
End rank.

Lemma zslGetRank_ok base m H L sc el :
  skiplist base m H L -> isnan sc = false -> zslGetRank m sc el = Some (rank_of sc el L).
Proof.
  intros [Hl _ _ _] Hnan. destruct (rank_split sc el L (sk_sorted _ _ _ Hl)) as (A & B & -> & HA & HB).
  unfold zslGetRank. rewrite (sk_header _ _ _ Hl). pose proof (linked_level _ _ _ Hl).
  apply (rank_loop_ok sc el m H A B (zlevel (zsl m)) [] H A); try done; [|lia]. rewrite (sk_max _ _ _ Hl). lia.
Qed.
