(* ===== verification/ZskiplistRange.v ===== *)
(** * The skip list of sorted sets: ranges of scores, of names, of ranks

    The functions on ranges are proved once, for two tests that can only go one
    way along the list; ranges of scores satisfy this always, ranges of names
    when the scores are all equal. *)

From stdpp Require Import gmap sorting.
From S2P Require Import Prelude Numstr Sds Object Zskiplist ZskiplistInv ZskiplistOps ZskiplistRank.

#[local] Open Scope Z_scope.

(** ** The specification *)

(** The elements that satisfy [f], with their ranks; the first rank is [k]. *)
Fixpoint ranked (f : elem -> bool) (k : Z) (L : list elem) : list (positive * Z) :=
  match L with
  | [] => []
  | e :: L => if f e then (ptr e, k) :: ranked f (k + 1) L else ranked f (k + 1) L
  end.

(** Negative places count from the end. *)
Definition pick {A} (n : Z) (l : list A) : option A :=
  if 0 <=? n then l !! Z.to_nat n
  else if 0 <=? Z.of_nat (length l) + n then l !! Z.to_nat (Z.of_nat (length l) + n) else None.

Lemma ranked_app f k A B : ranked f k (A ++ B) = ranked f k A ++ ranked f (k + Z.of_nat (length A)) B.
Proof.
  revert k. induction A as [|e A IH]; intros k; cbn [app ranked length].
  - by rewrite Z.add_0_r.
  - rewrite IH. replace (k + 1 + Z.of_nat (length A)) with (k + Z.of_nat (S (length A))) by lia. by destruct (f e).
Qed.

Lemma ranked_none f k A : Forall (fun e => f e = false) A -> ranked f k A = [].
Proof. intros HA. revert k. induction HA as [|e A He HA IH]; intros k; cbn [ranked]; [done|]. by rewrite He. Qed.

Lemma ranked_all f k A :
  Forall (fun e => f e = true) A ->
  length (ranked f k A) = length A /\ forall i, ranked f k A !! i = (fun e => (ptr e, k + Z.of_nat i)) <$> A !! i.
Proof.
  intros HA. revert k. induction HA as [|e A He HA IH]; intros k; cbn [ranked]; [done|]. rewrite He.
  destruct (IH (k + 1)) as [H1 H2]. split; [cbn; by rewrite H1|]. intros [|i]; cbn; [by rewrite Z.add_0_r|].
  rewrite H2. destruct (A !! i); [|done]. cbn. do 2 f_equal. lia.
Qed.

Lemma pick_nil {A} n : pick n (@nil A) = None.
Proof. unfold pick. destruct (0 <=? n); [done|]. by destruct (_ <=? _). Qed.

(** ** Walking along the elements *)

Lemma search_end_ok m n A B cond k A1 x A2 :
  zchain m n (A ++ B) -> stops cond A B -> (k <= n)%nat -> A = A1 ++ x :: A2 -> (k <= height x)%nat -> (k = O -> A2 = []) ->
  exists A0 z, A = A0 ++ [z] /\ search_end m cond k (ptr x) (Z.of_nat (length A1)) = Some (ptr z, Z.of_nat (length A0)).
Proof.
  intros Hc Hst Hk HA Hx H0. unfold search_end.
  destruct (zchain_search m n A B cond k A1 x A2 Hc Hst Hk HA Hx) as (ur & -> & Hlen & Hur). mstep.
  destruct ur as [|u ur]; cbn [length] in Hlen.
  - rewrite (H0 ltac:(lia)) in HA. by exists A1, x.
  - destruct (Hur O u eq_refl) as (B1 & y & B2 & HB & _ & Hlow & ->). assert (B2 = []) as ->.
    { apply pred_at_zero; [|done]. pose proof (ch_heights _ _ _ Hc) as Hh. rewrite HB, <- app_assoc in Hh. cbn [app] in Hh.
      rewrite Forall_app, Forall_cons, Forall_app in Hh. tauto. }
    by exists B1, y.
Qed.

Lemma steps_forward_ok m n C1 x C2 k :
  zchain m n (C1 ++ x :: C2) -> (1 <= n)%nat -> (k <= S (length C2))%nat ->
  steps_forward m k (Some (ptr x)) = Some (ptr <$> (x :: C2) !! k).
Proof.
  revert C1 x C2. induction k as [|k IH]; intros C1 x C2 Hc Hn Hk; cbn [steps_forward]; [done|]. mstep.
  pose proof (ch_heights _ _ _ Hc) as Hh. rewrite Forall_app, Forall_cons in Hh. destruct Hh as (_ & Hx & Hh).
  destruct (ch_levels _ _ _ Hc O ltac:(lia) C1 x C2 eq_refl ltac:(lia)) as (nd & l & -> & Hl & Hf & _). mstep.
  rewrite Hl. mstep. rewrite Hf. destruct C2 as [|y C2]; cbn [hop fst length] in *.
  - destruct k; [done|lia].
  - inversion Hh; subst. rewrite (proj2 (Nat.ltb_lt _ _)) by lia. cbn [fst].
    change ((x :: y :: C2) !! S k) with ((y :: C2) !! k). apply (IH (C1 ++ [x])); [by rewrite <- app_assoc|done|lia].
Qed.

Lemma steps_backward_ok m H L1 x L2 k :
  linked m H (L1 ++ x :: L2) -> (k <= length L1)%nat ->
  steps_backward m k (Some (ptr x)) = Some (ptr <$> (L1 ++ [x]) !! (length L1 - k)%nat).
Proof.
  intros Hl. revert x L2 Hl k. induction L1 as [|y L1 IH] using rev_ind; intros x L2 Hl k Hk.
  { cbn [length] in Hk |- *. by assert (k = O) as -> by lia. }
  destruct k as [|k].
  { cbn [steps_backward]. rewrite Nat.sub_0_r, list_lookup_middle by done. done. }
  cbn [steps_backward]. mstep. pose proof (sk_back _ _ _ Hl) as Hb. apply back_ok_app in Hb as [_ [(nd & -> & Hb) _]]. mstep.
  rewrite Hb, lastp_snoc. rewrite <- app_assoc in Hl. cbn [app] in Hl. rewrite length_app in Hk |- *. cbn [length] in Hk |- *.
  rewrite (IH y (x :: L2)) by (done || lia). do 2 f_equal. symmetry.
  replace (length L1 + 1 - S k)%nat with (length L1 - k)%nat by lia.
  apply lookup_app_l. rewrite length_app. cbn. lia.
Qed.

Lemma zsl_first_ok m H L :
  linked m H L -> exists nd l, nodes m !! ptr H = Some nd /\ level nd !! O = Some l /\ forward l = ptr <$> head L.
Proof.
  intros Hl. pose proof (linked_level _ _ _ Hl) as Hlev.
  destruct (sk_levels _ _ _ Hl O ltac:(lia) [] H L eq_refl) as (nd & l & Hnd & Hlv & Hf & _).
  { rewrite (sk_max _ _ _ Hl). lia. }
  exists nd, l. split_and!; try done. rewrite Hf. pose proof (sk_heights _ _ _ Hl) as Hh.
  destruct L as [|y L]; [done|]. inversion Hh; subst. by rewrite hop_cons_high by lia.
Qed.

(** ** The elements in a range *)

Lemma suffix_lookup {A} (l1 l2 : list A) i : l2 !! i = (l1 ++ l2) !! (length l1 + i)%nat.
Proof. rewrite lookup_app_r by lia. f_equal. lia. Qed.

Section nth.
Context (gte lte : zskiplistNode -> bool) (gmin lmax : elem -> bool).
Hypothesis Hgte : forall e nd, node_data e nd -> gte nd = gmin e.
Hypothesis Hlte : forall e nd, node_data e nd -> lte nd = lmax e.

Definition inside (e : elem) : bool := gmin e && lmax e.

(** The list is in three parts: before the range, in it, after it. *)
Lemma range_split L :
  downward (fun e => negb (gmin e)) L -> downward lmax L ->
  exists A M B, L = A ++ M ++ B /\ Forall (fun e => gmin e = false) A /\ Forall (fun e => gmin e = true) (M ++ B) /\
    Forall (fun e => lmax e = true) M /\ Forall (fun e => lmax e = false) B.
Proof.
  intros H1 H2. destruct (downward_split _ L H1) as (A & R & -> & HA & HR).
  destruct (downward_split lmax R) as (M & B & -> & HM & HB).
  { unfold downward in H2. apply StronglySorted_app_iff in H2. tauto. }
  exists A, M, B. split_and!; try done; eapply Forall_impl; try apply HA; try apply HR; cbn; intros x; by destruct (gmin x).
Qed.

Lemma inside_false A : Forall (fun e => gmin e = false) A -> Forall (fun e => inside e = false) A.
Proof. intros HA. eapply Forall_impl; [apply HA|]. unfold inside. cbn. by intros x ->. Qed.

Lemma inside_after B : Forall (fun e => lmax e = false) B -> Forall (fun e => inside e = false) B.
Proof. intros HB. eapply Forall_impl; [apply HB|]. unfold inside. cbn. intros x ->. apply andb_false_r. Qed.

Lemma inside_middle M : Forall (fun e => gmin e = true) M -> Forall (fun e => lmax e = true) M -> Forall (fun e => inside e = true) M.
Proof. rewrite !Forall_forall. unfold inside. intros H1 H2 x Hx. by rewrite H1, H2. Qed.

Lemma ranked_middle A M B :
  Forall (fun e => gmin e = false) A -> Forall (fun e => gmin e = true) (M ++ B) ->
  Forall (fun e => lmax e = true) M -> Forall (fun e => lmax e = false) B ->
  ranked inside 1 (A ++ M ++ B) = ranked inside (1 + Z.of_nat (length A)) M.
Proof.
  intros HA HMB HM HB. rewrite !ranked_app, (ranked_none _ _ A), (ranked_none _ _ B), app_nil_r.
  - done.
  - by apply inside_after.
  - by apply inside_false.
Qed.

Lemma downward_first f (e : elem) L : downward f (e :: L) -> f e = false -> Forall (fun x => f x = false) (e :: L).
Proof.
  intros Hd He. apply StronglySorted_inv in Hd as [_ Hd]. constructor; [done|].
  eapply Forall_impl; [apply Hd|]. cbn. intros x Hx. destruct (f x); [|done]. by rewrite Hx in He.
Qed.

Lemma downward_last f L (e : elem) : downward f (L ++ [e]) -> f e = true -> Forall (fun x => f x = true) (L ++ [e]).
Proof.
  intros Hd He. apply StronglySorted_app_iff in Hd as (_ & _ & Hd). apply Forall_app. split; [|by constructor].
  apply Forall_forall. intros x Hx. by apply (Hd x e); [done|set_solver|].
Qed.

Context (m : zmem) (H : elem) (L : list elem) (empty : bool).
Hypothesis Hl : linked m H L.
Hypothesis Hmin : downward (fun e => negb (gmin e)) L.
Hypothesis Hmax : downward lmax L.
Hypothesis Hempty : empty = true -> Forall (fun e => inside e = false) L.
Hypothesis Hproper : empty = false -> Forall (fun e => gmin e = false -> lmax e = true) L.

Lemma is_in_range_ok :
  exists b, is_in_range gte lte m empty = Some b /\ (b = true -> empty = false) /\
    (b = false -> Forall (fun e => inside e = false) L).
Proof.
  unfold is_in_range. destruct empty; [by exists false; split_and!; auto|].
  rewrite (sk_tail _ _ _ Hl). destruct (last L) as [z|] eqn:Ez.
  2: { apply last_None in Ez as ->. cbn [lastp last from_option deref]. mstep. by exists false. }
  apply last_Some in Ez as [L' HL]. pose proof Hmin as Hmin'. rewrite HL in Hmin'.
  assert (Ht : lastp None L = Some (ptr z)) by (by rewrite HL, lastp_snoc). rewrite Ht.
  destruct (deref_holds m z) as (nz & -> & Hz); [eapply linked_nodes; [done|rewrite HL; set_solver]|]. mstep.
  rewrite (Hgte z nz Hz). destruct (gmin z) eqn:Eg; cbn [negb].
  2: { exists false. split_and!; try done. intros _. apply inside_false. rewrite HL.
       eapply Forall_impl; [apply (downward_last _ _ _ Hmin'); by rewrite Eg|]. cbn. intros x. by destruct (gmin x). }
  destruct (zsl_first_ok m H L Hl) as (nd & l & Hnd & Hlv & Hf). rewrite (sk_header _ _ _ Hl), Hnd. mstep. rewrite Hlv. mstep.
  rewrite Hf. destruct L as [|y L0] eqn:EL; [by destruct L'|]. cbn [head fmap option_fmap option_map].
  destruct (deref_holds m y) as (ny & -> & Hy); [eapply linked_nodes; [done|set_solver]|]. mstep.
  rewrite (Hlte y ny Hy). exists (lmax y). split_and!; try done. intros Hy0. apply inside_after. by apply downward_first.
Qed.

Lemma s64_nat z : 0 <= z < 2 ^ 63 -> s64 z = z.
Proof. intros Hz. apply wrapS_id; [lia|]. unfold inS. zpow. lia. Qed.

Lemma u64_neg d : - 2 ^ 63 <= d < 0 -> u64 d = 2 ^ 64 + d.
Proof. intros Hd. unfold wrapU. symmetry. apply (Z.mod_unique d (2 ^ 64) (-1)); zpow; lia. Qed.

Lemma long_ok z : - 2 ^ 63 <= z < 2 ^ 63 -> long z = Some z.
Proof. intros Hz. unfold long. rewrite bool_decide_true; [done|]. unfold inS. zpow. lia. Qed.

Lemma stops_before A B :
  Forall (fun e => gmin e = false) A -> Forall (fun e => gmin e = true) B -> stops (before_min gte) (H :: A) B.
Proof.
  intros HA HB. apply (stops_pred _ (fun e => negb (gmin e))); [done|..].
  - intros e nd r s _ Hd. cbn. by rewrite (Hgte e nd Hd).
  - eapply Forall_impl; [apply HA|]. cbn. by intros x ->.
  - eapply Forall_impl; [apply HB|]. cbn. by intros x ->.
Qed.

Lemma stops_upto A B :
  Forall (fun e => lmax e = true) A -> Forall (fun e => lmax e = false) B -> stops (upto_max lte) (H :: A) B.
Proof.
  intros HA HB. apply (stops_pred _ lmax); [done| |done|done]. intros e nd r s _ Hd. cbn. by rewrite (Hlte e nd Hd).
Qed.

(** What is read at the place that was reached *)
Lemma read_test (test : zskiplistNode -> bool) (f : elem -> bool) k (e : elem) (r : Z) :
  (forall e nd, node_data e nd -> test nd = f e) -> (H :: L) !! k = Some e ->
  (nd ← nodes m !! ptr e; Some (if test nd then Some (ptr e, r) else None)) = Some (if f e then Some (ptr e, r) else None).
Proof.
  intros Ht He. destruct (linked_nodes m H L e Hl) as (nd & -> & Hd); [by eapply list_elem_of_lookup_2|]. mstep.
  by rewrite (Ht e nd Hd).
Qed.

Lemma nth_forward_ok A R A1 x A2 n :
  L = A ++ R -> Forall (fun e => gmin e = false) A -> Forall (fun e => gmin e = true) R -> 0 <= n < 2 ^ 62 ->
  Z.of_nat (length L) < 2 ^ 62 ->
  H :: A = A1 ++ x :: A2 -> (zlevel (zsl m) <= height x)%nat -> (zlevel (zsl m) = 1%nat -> A2 = []) ->
  nth_forward gte lte m (ptr x) (Z.of_nat (length A1)) n =
    Some (e ← R !! Z.to_nat n; if lmax e then Some (ptr e, Z.of_nat (length A) + n + 1) else None).
Proof.
  intros HL HA HR Hn Hsmall HAx Hx H0. pose proof (linked_zchain _ _ _ Hl) as Hc. pose proof (linked_level _ _ _ Hl) as Hlev.
  pose proof (sk_length _ _ _ Hl) as Hlen. rewrite HL in Hc. change (H :: A ++ R) with ((H :: A) ++ R) in Hc.
  unfold nth_forward.
  destruct (search_end_ok m _ (H :: A) R _ (zlevel (zsl m) - 1) A1 x A2 Hc (stops_before A R HA HR))
    as (A0 & z & HAz & ->); [lia|done|lia|intros; apply H0; lia|]. mstep.
  assert (HlA : length A = length A0).
  { apply (f_equal length) in HAz. rewrite length_app in HAz. cbn [length] in HAz. lia. }
  assert (HlA1 : (length A1 <= length A)%nat).
  { apply (f_equal length) in HAx. rewrite length_app in HAx. cbn [length] in HAx. lia. }
  assert (HlL : length L = (length A + length R)%nat) by by rewrite HL, length_app.
  rewrite <- HlA, !s64_nat by lia. rewrite long_ok by lia. mstep. rewrite (u64_nat (_ + n)) by lia. rewrite Hlen.
  destruct (Z.leb_spec (Z.of_nat (length L)) (Z.of_nat (length A) + n)) as [Hge|Hlt].
  { by rewrite lookup_ge_None_2 by lia. }
  destruct (lookup_lt_is_Some_2 R (Z.to_nat n)) as [e He]; [lia|]. rewrite He. mstep.
  assert (Hat : forall k, k = (length A + Z.to_nat n + 1)%nat -> (H :: L) !! k = Some e).
  { intros k ->. replace (length A + Z.to_nat n + 1)%nat with (length (H :: A) + Z.to_nat n)%nat by (cbn [length]; lia).
    rewrite HL, (app_comm_cons A R). by rewrite <- suffix_lookup. }
  assert (Hreach : (if n <? ZSKIPLIST_MAX_SEARCH then steps_forward m (Z.to_nat (n + 1)) (Some (ptr z))
      else zslGetElementByRankFromNode m (ptr x) (zlevel (zsl m)) (u64 (Z.of_nat (length A) + 1 + n - Z.of_nat (length A1))))
      = Some (Some (ptr e))).
  { destruct (n <? ZSKIPLIST_MAX_SEARCH).
    - rewrite (steps_forward_ok m (zlevel (zsl m)) A0 z R); [|by rewrite HAz, <- app_assoc in Hc|lia|lia].
      replace (Z.to_nat (n + 1)) with (S (Z.to_nat n)) by lia.
      change ((z :: R) !! S (Z.to_nat n)) with (R !! Z.to_nat n). by rewrite He.
    - rewrite u64_nat by lia. rewrite HAx, <- app_assoc in Hc. cbn [app] in Hc.
      rewrite (by_rank_from_ok m (zlevel (zsl m)) (A2 ++ R) x); [|by eapply zchain_suffix|lia|lia].
      rewrite (suffix_lookup A1 (x :: A2 ++ R)), (app_comm_cons A2 R x), app_assoc, <- HAx. cbn [app]. rewrite <- HL.
      by rewrite (Hat _) by lia. }
  rewrite Hreach. mstep.
  rewrite (read_test lte lmax _ e _ Hlte (Hat _ eq_refl)). by rewrite u64_nat by lia.
Qed.

Lemma nth_backward_ok A M B A1 x A2 n :
  L = A ++ M ++ B -> Forall (fun e => gmin e = false) A -> Forall (fun e => lmax e = true) (A ++ M) ->
  Forall (fun e => lmax e = false) B -> - 2 ^ 62 < n < 0 -> Z.of_nat (length L) < 2 ^ 62 ->
  H :: A = A1 ++ x :: A2 -> (zlevel (zsl m) <= height x)%nat ->
  nth_backward gte lte m (ptr x) (Z.of_nat (length A1)) n =
    Some (let k := Z.of_nat (length (A ++ M)) + n in
          if 0 <=? k then e ← (A ++ M) !! Z.to_nat k; if gmin e then Some (ptr e, k + 1) else None else None).
Proof.
  intros HL HA HAM HB Hn Hsmall HAx Hx. pose proof (linked_zchain _ _ _ Hl) as Hc. pose proof (linked_level _ _ _ Hl) as Hlev.
  assert (HL2 : L = (A ++ M) ++ B) by by rewrite <- app_assoc. rewrite HL2 in Hc. change (H :: (A ++ M) ++ B) with ((H :: A ++ M) ++ B) in Hc.
  assert (HAMx : H :: A ++ M = A1 ++ x :: (A2 ++ M)) by by rewrite app_comm_cons, HAx, <- app_assoc.
  unfold nth_backward.
  destruct (search_end_ok m _ (H :: A ++ M) B _ (zlevel (zsl m)) A1 x (A2 ++ M) Hc (stops_upto (A ++ M) B HAM HB))
    as (A0 & z & HAz & ->); [lia|done|lia|lia|]. mstep.
  set (N := length (A ++ M)) in *.
  assert (HlA : N = length A0) by (apply (f_equal length) in HAz; rewrite length_app in HAz; cbn [length] in HAz; unfold N; lia).
  assert (HlA1 : (length A1 <= N)%nat).
  { apply (f_equal length) in HAMx. rewrite length_app in HAMx. cbn [length] in HAMx. unfold N. lia. }
  assert (HlL : length L = (N + length B)%nat) by (rewrite HL2, length_app; done).
  rewrite <- HlA, !s64_nat by lia. rewrite long_ok by lia. mstep. cbv zeta.
  destruct (Z.ltb_spec (Z.of_nat N) (- n)) as [Hlt|Hge].
  { by rewrite (proj2 (Z.leb_gt _ _)) by lia. }
  rewrite (proj2 (Z.leb_le _ _)) by lia. set (k := Z.to_nat (Z.of_nat N + n)).
  assert (Hk : Z.of_nat k = Z.of_nat N + n) by (unfold k; lia). clearbody k.
  destruct (lookup_lt_is_Some_2 (A ++ M) k) as [e He]; [fold N; lia|]. rewrite He. mstep.
  assert (Hat : (H :: L) !! S k = Some e).
  { change (L !! k = Some e). rewrite HL2. by apply lookup_app_l_Some. }
  destruct (n + 1 >? - ZSKIPLIST_MAX_SEARCH).
  - destruct A0 as [|h A0]; [cbn [length] in HlA; lia|]. injection HAz as <- HAz.
    rewrite (steps_backward_ok m H A0 z B); [|by rewrite HL2, HAz, <- app_assoc in Hl|cbn [length] in HlA; lia].
    rewrite <- HAz. replace (length A0 - Z.to_nat (- n - 1))%nat with k by (cbn [length] in HlA; lia).
    rewrite He. cbn [fmap option_fmap option_map]. mstep.
    rewrite (read_test gte gmin _ e _ Hgte Hat). rewrite u64_nat by lia. do 3 f_equal. 
  - rewrite HAMx, <- app_assoc in Hc. cbn [app] in Hc. apply zchain_suffix in Hc.
    destruct (Z.leb_spec (Z.of_nat (length A1)) (Z.of_nat (S k))) as [Hin|Hout].
    + rewrite (u64_nat (_ - _)) by lia. rewrite (by_rank_from_ok m (zlevel (zsl m)) ((A2 ++ M) ++ B) x); [|done|lia|lia].
      rewrite (suffix_lookup A1), app_comm_cons, app_assoc, <- HAMx. cbn [app]. rewrite <- HL2.
      replace (length A1 + _)%nat with (S k) by lia. rewrite Hat. cbn [fmap option_fmap option_map]. mstep.
      rewrite (read_test gte gmin _ e _ Hgte Hat). rewrite u64_nat by lia. done.
    + rewrite (by_rank_from_ok m (zlevel (zsl m)) ((A2 ++ M) ++ B) x); [|done|lia|apply wrapU_range; lia].
      rewrite lookup_ge_None_2.
      2: { pose proof (ch_small _ _ _ Hc) as Hcs. rewrite u64_neg by lia. zpow. lia. }
      cbn [fmap option_fmap option_map]. mstep.
      assert (HeA : gmin e = false).
      { apply (proj1 (Forall_forall _ _) HA). rewrite lookup_app_l in He; [by eapply list_elem_of_lookup_2|].
        apply (f_equal length) in HAx. rewrite length_app in HAx. cbn [length] in HAx. lia. }
      by rewrite HeA.
Qed.

(** What was found, in terms of the elements in the range *)
Lemma read_forward (a : Z) M B n :
  Forall (fun e => lmax e = true) M -> Forall (fun e => lmax e = false) B -> 0 <= n ->
  (e ← (M ++ B) !! Z.to_nat n; if lmax e then Some (ptr e, a + n + 1) else None) =
  (fun e => (ptr e, 1 + a + Z.of_nat (Z.to_nat n))) <$> M !! Z.to_nat n.
Proof.
  intros HM HB Hn. destruct (decide (Z.to_nat n < length M)%nat) as [Hin|Hout].
  - rewrite lookup_app_l by done. destruct (lookup_lt_is_Some_2 M (Z.to_nat n) Hin) as [e He]. rewrite He. mstep.
    assert (Hle : lmax e = true) by (apply (proj1 (Forall_forall _ _) HM); by eapply list_elem_of_lookup_2).
    rewrite Hle. cbn [fmap option_fmap option_map]. do 2 f_equal. lia.
  - rewrite (lookup_ge_None_2 M) by lia. cbn [fmap option_fmap option_map].
    rewrite lookup_app_r by lia. destruct (B !! _) as [e|] eqn:He; mstep; [|done].
    apply list_elem_of_lookup_2 in He. by rewrite (proj1 (Forall_forall _ _) HB e He).
Qed.

Lemma read_backward A M n :
  Forall (fun e => gmin e = false) A -> Forall (fun e => gmin e = true) M -> n < 0 ->
  let k := Z.of_nat (length A) + Z.of_nat (length M) + n in
  (if 0 <=? k then e ← (A ++ M) !! Z.to_nat k; if gmin e then Some (ptr e, k + 1) else None else None) =
  (if 0 <=? Z.of_nat (length M) + n then
     (fun e => (ptr e, 1 + Z.of_nat (length A) + Z.of_nat (Z.to_nat (Z.of_nat (length M) + n)))) <$>
       M !! Z.to_nat (Z.of_nat (length M) + n)
   else None).
Proof.
  intros HA HM Hn. cbv zeta. destruct (Z.leb_spec 0 (Z.of_nat (length M) + n)) as [Hin|Hout].
  - rewrite (proj2 (Z.leb_le _ _)) by lia. rewrite lookup_app_r by lia.
    replace (Z.to_nat (Z.of_nat (length A) + Z.of_nat (length M) + n) - length A)%nat with (Z.to_nat (Z.of_nat (length M) + n)) by lia.
    destruct (lookup_lt_is_Some_2 M (Z.to_nat (Z.of_nat (length M) + n))) as [e He]; [lia|]. rewrite He. mstep.
    rewrite (proj1 (Forall_forall _ _) HM e) by (by eapply list_elem_of_lookup_2).
    cbn [fmap option_fmap option_map]. do 2 f_equal. lia.
  - destruct (Z.leb_spec 0 (Z.of_nat (length A) + Z.of_nat (length M) + n)) as [Hk|Hk]; [|done].
    destruct ((A ++ M) !! _) as [e|] eqn:He; mstep; [|done]. rewrite lookup_app_l in He by lia.
    apply list_elem_of_lookup_2 in He. by rewrite (proj1 (Forall_forall _ _) HA e He).
Qed.

Lemma nth_in_range_ok n :
  - 2 ^ 62 < n < 2 ^ 62 -> Z.of_nat (length L) < 2 ^ 62 ->
  nth_in_range gte lte m empty n = Some (pick n (ranked inside 1 L)).
Proof.
  intros Hn Hsmall. unfold nth_in_range. destruct is_in_range_ok as (b & -> & Hb1 & Hb0). mstep.
  destruct b; cbn [negb].
  2: { by rewrite ranked_none, pick_nil by auto. }
  specialize (Hproper (Hb1 eq_refl)). pose proof (linked_level _ _ _ Hl) as Hlev.
  destruct (range_split L Hmin Hmax) as (A & M & B & HL & HA & HMB & HM & HB).
  pose proof (linked_zchain _ _ _ Hl) as Hc. rewrite HL in Hc. change (H :: A ++ M ++ B) with ((H :: A) ++ (M ++ B)) in Hc.
  destruct (zchain_walk m (zlevel (zsl m)) (H :: A) (M ++ B) (before_min gte) (zlevel (zsl m) - 1) [] H A Hc)
    as (ur & Hw & A1 & x & A2 & HAx & Hx & Hlo & ->); [by apply stops_before|lia|done|rewrite (sk_max _ _ _ Hl); lia|].
  rewrite (sk_header _ _ _ Hl). cbn [length] in Hw. change (Z.of_nat 0) with 0 in Hw. rewrite Hw. mstep.
  assert (HMg : Forall (fun e => gmin e = true) M) by by apply Forall_app in HMB as [? _].
  destruct (ranked_all inside (1 + Z.of_nat (length A)) M (inside_middle M HMg HM)) as [Hlen Hlook].
  rewrite HL, ranked_middle by done. unfold pick. rewrite Hlen, !Hlook. destruct (Z.leb_spec 0 n) as [Hpos|Hneg].
  - rewrite (nth_forward_ok A (M ++ B) A1 x A2) by (done || lia || (intros Hz; apply pred_at_zero; [|by rewrite Hz in Hlo];
      pose proof (ch_heights _ _ _ Hc) as Hh; rewrite HAx, <- app_assoc in Hh; cbn [app] in Hh;
      rewrite Forall_app, Forall_cons, Forall_app in Hh; tauto)).
    f_equal. by apply read_forward.
  - assert (HAM : Forall (fun e => lmax e = true) (A ++ M)).
    { apply Forall_app. split; [|done]. rewrite HL, Forall_app in Hproper. destruct Hproper as [Hp _].
      rewrite !Forall_forall in *. auto. }
    rewrite (nth_backward_ok A M B A1 x A2) by (done || lia). cbv zeta. rewrite length_app, Nat2Z.inj_add.
    f_equal. by apply read_backward.
Qed.
End nth.

(** ** Ranges of scores *)

Definition range_empty (range : zrangespec) : bool :=
  dbl_lt (zmax range) (zmin range) || (dbl_eq (zmin range) (zmax range) && (zminex range || zmaxex range)).

Definition score_gte (range : zrangespec) (e : elem) : bool := zslValueGteMin (e_score e) range.
Definition score_lte (range : zrangespec) (e : elem) : bool := zslValueLteMax (e_score e) range.
Definition in_score_range (range : zrangespec) : elem -> bool := inside (score_gte range) (score_lte range).

Lemma zlt_key a b : zlt a b -> dbl_key (e_score a) <= dbl_key (e_score b).
Proof. unfold zlt, zcmp. destruct (Z.compare_spec (dbl_key (e_score a)) (dbl_key (e_score b))); (done || lia). Qed.

Ltac score_tac :=
  unfold score_gte, score_lte, zslValueGteMin, zslValueLteMax, range_empty, dbl_lt, dbl_le, dbl_eq in *;
  repeat match goal with E : isnan _ = false |- _ => rewrite !E in *; clear E end; cbn [negb andb orb] in *;
  repeat match goal with |- context [if ?b then _ else _] => destruct b end;
  rewrite ?negb_true_iff, ?negb_false_iff, ?orb_true_iff, ?orb_false_iff, ?andb_true_iff, ?andb_false_iff,
    ?Z.ltb_lt, ?Z.ltb_ge, ?Z.leb_le, ?Z.leb_gt, ?Z.eqb_eq, ?Z.eqb_neq in *.

Section score.
Context (m : zmem) (H : elem) (L : list elem) (range : zrangespec).
Hypothesis Hl : linked m H L.
Hypothesis Hmin : isnan (zmin range) = false.
Hypothesis Hmax : isnan (zmax range) = false.

Lemma score_nan e : e ∈ L -> isnan (e_score e) = false.
Proof. apply (proj1 (Forall_forall _ _) (sk_nan _ _ _ Hl)). Qed.

Lemma score_gte_downward : downward (fun e => negb (score_gte range e)) L.
Proof.
  apply sorted_downward; [apply (sk_sorted _ _ _ Hl)|]. intros a b Ha%score_nan Hb%score_nan Hab%zlt_key. score_tac; lia.
Qed.

Lemma score_lte_downward : downward (score_lte range) L.
Proof.
  apply sorted_downward; [apply (sk_sorted _ _ _ Hl)|]. intros a b Ha%score_nan Hb%score_nan Hab%zlt_key. score_tac; lia.
Qed.

Lemma score_empty : range_empty range = true -> Forall (fun e => inside (score_gte range) (score_lte range) e = false) L.
Proof.
  intros He. apply Forall_forall. intros e Hn%score_nan. unfold inside. apply not_true_is_false. intros Hin. revert He Hin.
  score_tac; cbn; intuition (try discriminate; lia).
Qed.

Lemma score_proper : range_empty range = false -> Forall (fun e => score_gte range e = false -> score_lte range e = true) L.
Proof.
  intros He. apply Forall_forall. intros e Hn%score_nan. revert He. score_tac; cbn; intuition (try discriminate; lia).
Qed.
End score.

(** The node at place [n] of a range of scores, with its rank, is the one
    that the list of the elements in the range has at that place, counted from
    the end when [n] is negative; there is none when the place is outside.
    This covers ranges that are empty, and both ways to go: node by node, or by
    the ranks from the last node of the top level. *)
Theorem zslNthInRange_correct base m H L range n :
  skiplist base m H L -> isnan (zmin range) = false -> isnan (zmax range) = false ->
  - 2 ^ 62 < n < 2 ^ 62 -> Z.of_nat (length L) < 2 ^ 62 ->
  zslNthInRange m range n = Some (pick n (ranked (in_score_range range) 1 L)).
Proof.
  intros [Hl _ _ _] Hmin Hmax Hn Hs. unfold zslNthInRange, in_score_range.
  apply (nth_in_range_ok _ _ (score_gte range) (score_lte range)) with (H := H); try done.
  - unfold score_gte. by intros e nd (-> & _).
  - unfold score_lte. by intros e nd (-> & _).
  - by eapply score_gte_downward.
  - by eapply score_lte_downward.
  - by eapply score_empty.
  - by eapply score_proper.
Qed.

(** ** Ranges of names *)

Definition lexcmp (a b : lexvalue) : comparison :=
  match a, b with
  | minstring, minstring | maxstring, maxstring => Eq
  | minstring, _ | _, maxstring => Lt
  | maxstring, _ | _, minstring => Gt
  | lexstr a, lexstr b => lex a b
  end.

Lemma sdscmplex_cmp a b : (sdscmplex a b ?= 0) = lexcmp a b.
Proof. destruct a, b; try done. apply sdscmp_lex. Qed.

Lemma lexcmp_trans a b c : lexcmp a b = Lt -> lexcmp b c = Lt -> lexcmp a c = Lt.
Proof. destruct a, b, c; try done. apply lex_trans. Qed.

Lemma lexcmp_eq a b : lexcmp a b = Eq <-> a = b.
Proof. destruct a, b; cbn; split; try done; [by intros ->%lex_eq|]. intros [= ->]. by apply lex_eq. Qed.

Lemma lexcmp_antisym a b : lexcmp b a = CompOpp (lexcmp a b).
Proof. destruct a, b; try done. apply lex_antisym. Qed.

Definition lex_gte (range : zlexrangespec) (e : elem) : bool := zslLexValueGteMin (e_ele e) range.
Definition lex_lte (range : zlexrangespec) (e : elem) : bool := zslLexValueLteMax (e_ele e) range.
Definition in_lex_range (range : zlexrangespec) : elem -> bool := inside (lex_gte range) (lex_lte range).

(** The tests, as comparisons *)
Lemma lex_gte_cmp range e :
  lex_gte range e = match lexcmp (lexmin range) (lexstr (e_ele e)) with Lt => true | Eq => negb (lexminex range) | Gt => false end.
Proof.
  unfold lex_gte, zslLexValueGteMin. unfold Z.gtb, Z.geb. rewrite sdscmplex_cmp, lexcmp_antisym.
  by destruct (lexcmp (lexmin range) _), (lexminex range).
Qed.

Lemma lex_lte_cmp range e :
  lex_lte range e = match lexcmp (lexstr (e_ele e)) (lexmax range) with Lt => true | Eq => negb (lexmaxex range) | Gt => false end.
Proof.
  unfold lex_lte, zslLexValueLteMax. unfold Z.ltb, Z.leb. rewrite sdscmplex_cmp.
  by destruct (lexcmp _ (lexmax range)), (lexmaxex range).
Qed.

Lemma lex_empty_cmp range :
  lex_empty range = match lexcmp (lexmin range) (lexmax range) with Gt => true | Eq => lexminex range || lexmaxex range | Lt => false end.
Proof.
  unfold lex_empty. cbv zeta. unfold Z.gtb. rewrite Z.eqb_compare, sdscmplex_cmp. by destruct (lexcmp _ _).
Qed.

(** Comparisons of three values *)
Lemma lexcmp_trans_le a b c : lexcmp a b = Lt -> lexcmp b c <> Gt -> lexcmp a c = Lt.
Proof.
  intros H1 H2. destruct (lexcmp b c) eqn:E; [|by eapply lexcmp_trans|done]. by apply lexcmp_eq in E as <-.
Qed.

Section lexrange.
Context (m : zmem) (H : elem) (L : list elem) (range : zlexrangespec) (s : Z).
Hypothesis Hl : linked m H L.
(** The scores are all equal. *)
Hypothesis Hscore : Forall (fun e => dbl_key (e_score e) = s) L.

Lemma same_score_lex a b : a ∈ L -> b ∈ L -> zlt a b -> lexcmp (lexstr (e_ele a)) (lexstr (e_ele b)) = Lt.
Proof.
  intros Ha Hb. unfold zlt, zcmp. rewrite (proj1 (Forall_forall _ _) Hscore a Ha), (proj1 (Forall_forall _ _) Hscore b Hb).
  by rewrite Z.compare_refl.
Qed.

Lemma lex_gte_downward : downward (fun e => negb (lex_gte range e)) L.
Proof.
  apply sorted_downward; [apply (sk_sorted _ _ _ Hl)|]. intros a b Ha Hb Hab%same_score_lex; [|done..].
  rewrite !lex_gte_cmp. destruct (lexcmp (lexmin range) (lexstr (e_ele a))) eqn:E; [| |done].
  - apply lexcmp_eq in E as ->. by rewrite Hab.
  - by rewrite (lexcmp_trans _ _ _ E Hab).
Qed.

Lemma lex_lte_downward : downward (lex_lte range) L.
Proof.
  apply sorted_downward; [apply (sk_sorted _ _ _ Hl)|]. intros a b Ha Hb Hab%same_score_lex; [|done..].
  rewrite !lex_lte_cmp. destruct (lexcmp (lexstr (e_ele b)) (lexmax range)) eqn:E; [| |done].
  - apply lexcmp_eq in E as <-. by rewrite Hab.
  - by rewrite (lexcmp_trans _ _ _ Hab E).
Qed.

Lemma lex_empty_inside : lex_empty range = true -> Forall (fun e => inside (lex_gte range) (lex_lte range) e = false) L.
Proof.
  intros He. apply Forall_forall. intros e _. unfold inside. rewrite lex_gte_cmp, lex_lte_cmp. rewrite lex_empty_cmp in He.
  destruct (lexcmp (lexmin range) (lexstr (e_ele e))) eqn:E1, (lexcmp (lexstr (e_ele e)) (lexmax range)) eqn:E2;
    try done; try by rewrite andb_false_r.
  - apply lexcmp_eq in E1, E2. rewrite E1, E2 in He. rewrite (proj2 (lexcmp_eq _ _)) in He by done.
    by destruct (lexminex range), (lexmaxex range).
  - apply lexcmp_eq in E1. rewrite E1, E2 in He. done.
  - apply lexcmp_eq in E2. rewrite <- E2, E1 in He. done.
  - by rewrite (lexcmp_trans _ _ _ E1 E2) in He.
Qed.

Lemma lex_proper : lex_empty range = false -> Forall (fun e => lex_gte range e = false -> lex_lte range e = true) L.
Proof.
  intros He. apply Forall_forall. intros e _. rewrite lex_gte_cmp, lex_lte_cmp. rewrite lex_empty_cmp in He.
  destruct (lexcmp (lexmin range) (lexstr (e_ele e))) eqn:E1; [|done|]; intros Hex.
  - apply lexcmp_eq in E1. rewrite <- E1. destruct (lexcmp (lexmin range) (lexmax range)); try done.
    by destruct (lexminex range), (lexmaxex range).
  - rewrite lexcmp_antisym in E1. destruct (lexcmp (lexstr (e_ele e)) (lexmin range)) eqn:E2; try done.
    by rewrite (lexcmp_trans_le _ _ _ E2) by (intros E; by rewrite E in He).
Qed.
End lexrange.

(** The same for ranges of names, in a list whose scores are all
    equal. *)
Theorem zslNthInLexRange_correct base m H L range s n :
  skiplist base m H L -> Forall (fun e => dbl_key (e_score e) = s) L ->
  - 2 ^ 62 < n < 2 ^ 62 -> Z.of_nat (length L) < 2 ^ 62 ->
  zslNthInLexRange m range n = Some (pick n (ranked (in_lex_range range) 1 L)).
Proof.
  intros [Hl _ _ _] Hs Hn Hsm. unfold zslNthInLexRange, in_lex_range.
  apply (nth_in_range_ok _ _ (lex_gte range) (lex_lte range)) with (H := H); try done.
  - unfold lex_gte. by intros e nd (_ & <- & _).
  - unfold lex_lte. by intros e nd (_ & <- & _).
  - by eapply lex_gte_downward.
  - by eapply lex_lte_downward.
  - by eapply lex_empty_inside.
  - by eapply lex_proper.
Qed.

(** ** Deletion of a range *)

Section delete.
Context {D : Type} (dictDelete : D -> list Z -> D).
Context (cond : zskiplistNode -> Z -> bool) (base : Z) (H : elem) (A B : list elem).

(** The elements [M] are deleted: the condition holds for them, and not for
    what comes after them. *)
Lemma delete_loop_ok M fuel m d update t r :
  skiplist base m H (A ++ M ++ B) -> (length M <= fuel)%nat -> (zlevel (zsl m) <= length update)%nat ->
  (forall i u, (i < zlevel (zsl m))%nat -> update !! i = Some u -> exists r, pred_at (H :: A) i (u, r)) ->
  (forall M1 e M2 nd, M = M1 ++ e :: M2 -> node_data e nd -> cond nd (t + Z.of_nat (length M1)) = true) ->
  (forall b nd, head B = Some b -> node_data b nd -> cond nd (t + Z.of_nat (length M)) = false) ->
  0 <= t -> t + Z.of_nat (length M) < 2 ^ 63 -> 0 <= r -> r + Z.of_nat (length M) < 2 ^ 63 ->
  exists m', delete_loop dictDelete fuel cond m d update (ptr <$> head (M ++ B)) t r =
      Some (m', foldl dictDelete d (e_ele <$> M), r + Z.of_nat (length M)) /\ skiplist base m' H (A ++ B).
Proof.
  revert fuel m d t r. induction M as [|e M IH]; intros fuel m d t r Hs Hf Hlen Hup HM HB Ht0 Ht Hr0 Hr.
  - exists m. cbn [app fmap list_fmap foldl length] in *. rewrite Z.add_0_r in *. split; [|done].
    destruct B as [|b B']; [by destruct fuel|]. destruct (linked_nodes m H _ b (sk_linked _ _ _ _ Hs)) as (nb & Hnb & Hd); [set_solver|].
    cbn [head fmap option_fmap option_map]. destruct fuel; cbn [delete_loop]; rewrite Hnb; mstep; by rewrite (HB b nb).
  - cbn [app length] in *. destruct fuel as [|fuel]; [lia|]. cbn [head fmap option_fmap option_map delete_loop].
    pose proof (sk_linked _ _ _ _ Hs) as Hl.
    destruct (linked_nodes m H _ e Hl) as (nd & Hn & Hd); [set_solver|]. rewrite Hn. mstep.
    pose proof (HM [] e M nd eq_refl Hd) as Hc. cbn [length] in Hc. rewrite Z.add_0_r in Hc. rewrite Hc.
    destruct (neighbours m H A (M ++ B) e nd Hl Hn) as (l & Hlv & _ & Hfw). rewrite Hlv. mstep. rewrite Hfw.
    destruct (unlink_free_ok base m H A (M ++ B) e update Hs Hlen Hup) as (m1 & m2 & nd1 & -> & Hn1 & Hd1 & Hfree & Hs2 & Hz2).
    mstep. rewrite Hn1. mstep. rewrite Hfree. mstep. unfold zslGetNodeElement. destruct Hd1 as (_ & -> & _).
    rewrite (u64_nat (t + 1)), (u64_nat (r + 1)) by lia.
    destruct (IH fuel m2 (dictDelete d (e_ele e)) (t + 1) (r + 1)) as (m' & Hm' & Hs'); try done; try lia.
    + intros i u Hi. apply Hup. lia.
    + intros M1 x M2 nx -> Hdx. replace (t + 1 + Z.of_nat (length M1)) with (t + Z.of_nat (length (e :: M1))) by (cbn [length]; lia).
      by apply (HM (e :: M1) x M2).
    + intros b nb Hb Hdb. replace (t + 1 + Z.of_nat (length M)) with (t + Z.of_nat (S (length M))) by lia. by apply (HB b).
    + exists m'. split; [|done]. rewrite Hm'. cbn [fmap list_fmap foldl]. do 2 f_equal. lia.
Qed.
End delete.

(** Where the deletion starts *)
Lemma next_of_ok m H A B ur :
  linked m H (A ++ B) -> length ur = zlevel (zsl m) -> (forall i u, ur !! i = Some u -> pred_at (H :: A) i u) ->
  next_of m (map fst ur) = Some (ptr <$> head B) /\ exists p, ur !! O = Some (p, Z.of_nat (length A)).
Proof.
  intros Hl Hlen Hur. pose proof (linked_level _ _ _ Hl) as Hlev. destruct ur as [|[u0 r0] ur]; [cbn [length] in Hlen; lia|].
  destruct (Hur O (u0, r0) eq_refl) as (A1 & u & A2 & HA & Hu & Hlow & [= -> ->]). assert (A2 = []) as ->.
  { apply pred_at_zero; [|done]. pose proof (ch_heights _ _ _ (linked_zchain _ _ _ Hl)) as Hh.
    rewrite app_comm_cons, HA, <- app_assoc in Hh. cbn [app] in Hh. rewrite Forall_app, Forall_cons, Forall_app in Hh. tauto. }
  split.
  - unfold next_of. cbn [map fst]. change ((ptr u :: map fst ur) !! O) with (Some (ptr u)). mstep.
    destruct (sk_levels _ _ _ Hl O ltac:(lia) A1 u B) as (nd & l & -> & Hlv & Hf & _).
    { by rewrite app_comm_cons, HA, <- app_assoc. }
    { done. }
    mstep. rewrite Hlv. mstep. rewrite Hf. f_equal. pose proof (sk_heights _ _ _ Hl) as Hh.
    rewrite Forall_app in Hh. destruct Hh as [_ Hh]. destruct B as [|b B]; [done|]. inversion Hh; subst. by rewrite hop_cons_high by lia.
  - eexists. cbn. do 3 f_equal. apply (f_equal length) in HA. rewrite length_app in HA. cbn [length] in HA. lia.
Qed.

Lemma map_fst_lookup (ur : list (positive * Z)) i u : map fst ur !! i = Some u -> exists r, ur !! i = Some (u, r).
Proof.
  intros Hu. change (map fst ur) with (fst <$> ur) in Hu. rewrite list_lookup_fmap in Hu.
  destruct (ur !! i) as [[v r]|]; [|done]. injection Hu as <-. eauto.
Qed.

Lemma filter_all {A} (P : A -> Prop) `{!forall x, Decision (P x)} l : Forall P l -> filter P l = l.
Proof. induction 1 as [|x l Hx Hl IH]; [done|]. by rewrite filter_cons_True, IH. Qed.

Lemma filter_parts (f : elem -> bool) A M B :
  Forall (fun e => f e = false) A -> Forall (fun e => f e = true) M -> Forall (fun e => f e = false) B ->
  filter (fun e => f e = true) (A ++ M ++ B) = M /\ filter (fun e => f e = false) (A ++ M ++ B) = A ++ B.
Proof.
  assert (Hno : forall (b : bool) l, Forall (fun e => f e = negb b) l -> filter (fun e => f e = b) l = []).
  { intros b l Hl. induction Hl as [|x l Hx Hl IH]; [done|]. rewrite filter_cons_False, IH; [done|]. rewrite Hx. by destruct b. }
  intros HA HM HB. rewrite !filter_app. split.
  - by rewrite (Hno true A), (Hno true B), (filter_all _ M), app_nil_r by done.
  - by rewrite (filter_all _ A), (filter_all _ B), (Hno false M) by done.
Qed.

Lemma delete_range_ok {D} (dictDelete : D -> list Z -> D) gte lte gmin lmax base m H L d :
  (forall e nd, node_data e nd -> gte nd = gmin e) -> (forall e nd, node_data e nd -> lte nd = lmax e) ->
  skiplist base m H L -> downward (fun e => negb (gmin e)) L -> downward lmax L ->
  let M := filter (fun e => inside gmin lmax e = true) L in
  exists m', delete_range gte lte dictDelete m d = Some (m', foldl dictDelete d (e_ele <$> M), Z.of_nat (length M)) /\
    skiplist base m' H (filter (fun e => inside gmin lmax e = false) L).
Proof.
  intros Hg Hlt Hs Hmin Hmax. cbv zeta. destruct (range_split gmin lmax L Hmin Hmax) as (A & M & B & -> & HA & HMB & HM & HB).
  pose proof HMB as HMB'. apply Forall_app in HMB' as [HMg _].
  destruct (filter_parts (inside gmin lmax) A M B) as [-> ->];
    [by apply inside_false|by apply inside_middle|by apply inside_after|].
  pose proof (sk_linked _ _ _ _ Hs) as Hl. unfold delete_range.
  destruct (search_linked m H A (M ++ B) (before_min gte) Hl) as (ur & -> & Hlen & Hur); [by apply (stops_before gte gmin)|].
  mstep. destruct (next_of_ok m H A (M ++ B) ur Hl Hlen Hur) as [-> _]. mstep.
  pose proof (sk_small _ _ _ Hl) as Hsmall. rewrite !length_app in Hsmall.
  apply (delete_loop_ok dictDelete (fun nd _ => lte nd) base H A B M) with (r := 0) (t := 0); try done; try lia.
  - unfold walk_fuel. rewrite (sk_length _ _ _ Hl), !length_app. lia.
  - rewrite length_map. lia.
  - intros i u Hi (r & Hu)%map_fst_lookup. eauto.
  - intros M1 e M2 nd -> Hd. rewrite (Hlt e nd Hd). rewrite Forall_app, Forall_cons in HM. tauto.
  - intros b nd Hb Hd. rewrite (Hlt b nd Hd). destruct B as [|b' B]; [done|]. injection Hb as ->. by apply Forall_cons in HB as [? _].
Qed.

Lemma zslDeleteRangeByScore_ok {D} (dictDelete : D -> list Z -> D) base m H L range d :
  skiplist base m H L -> isnan (zmin range) = false -> isnan (zmax range) = false ->
  let M := filter (fun e => in_score_range range e = true) L in
  exists m', zslDeleteRangeByScore dictDelete m range d = Some (m', foldl dictDelete d (e_ele <$> M), Z.of_nat (length M)) /\
    skiplist base m' H (filter (fun e => in_score_range range e = false) L).
Proof.
  intros Hs Hmin Hmax. pose proof (sk_linked _ _ _ _ Hs) as Hl.
  apply (delete_range_ok dictDelete _ _ (score_gte range) (score_lte range)); try done.
  - unfold score_gte. by intros e nd (-> & _).
  - unfold score_lte. by intros e nd (-> & _).
  - by eapply score_gte_downward.
  - by eapply score_lte_downward.
Qed.

Lemma zslDeleteRangeByLex_ok {D} (dictDelete : D -> list Z -> D) base m H L range s d :
  skiplist base m H L -> Forall (fun e => dbl_key (e_score e) = s) L ->
  let M := filter (fun e => in_lex_range range e = true) L in
  exists m', zslDeleteRangeByLex dictDelete m range d = Some (m', foldl dictDelete d (e_ele <$> M), Z.of_nat (length M)) /\
    skiplist base m' H (filter (fun e => in_lex_range range e = false) L).
Proof.
  intros Hs Hsc. pose proof (sk_linked _ _ _ _ Hs) as Hl.
  apply (delete_range_ok dictDelete _ _ (lex_gte range) (lex_lte range)); try done.
  - unfold lex_gte. by intros e nd (_ & <- & _).
  - unfold lex_lte. by intros e nd (_ & <- & _).
  - by eapply lex_gte_downward.
  - by eapply lex_lte_downward.
Qed.

Lemma stops_rank_lt start H A B :
  Z.of_nat (length (H :: A ++ B)) < 2 ^ 63 -> length A = Nat.min (length (A ++ B)) (Z.to_nat (start - 1)) ->
  stops (rank_lt start) (H :: A) B.
Proof.
  intros Hs HA. split; [done|]. intros P e Q nd r s HP Heq _ Hr0 Hs0 Hsum. unfold rank_lt.
  assert (Hlen : length (H :: A ++ B) = (length P + S (length Q))%nat) by (change (H :: A ++ B) with ((H :: A) ++ B); by rewrite Heq, length_app).
  cbn [length] in Hlen, Hs |- *. destruct P as [|p P]; [done|]. cbn [length] in *.
  rewrite bool_decide_true by done. cbn [andb]. rewrite Hsum, u64_nat by lia.
  apply eq_true_iff_eq. rewrite Z.ltb_lt, bool_decide_eq_true. lia.
Qed.

(** Ranks start at 1; both ends are included. *)
Lemma zslDeleteRangeByRank_ok {D} (dictDelete : D -> list Z -> D) base m H L start end_ d :
  skiplist base m H L ->
  let R := drop (Z.to_nat (start - 1)) L in
  let k := (Z.to_nat end_ - Z.to_nat (start - 1))%nat in
  exists m', zslDeleteRangeByRank dictDelete m start end_ d =
      Some (m', foldl dictDelete d (e_ele <$> take k R), Z.of_nat (length (take k R))) /\
    skiplist base m' H (take (Z.to_nat (start - 1)) L ++ drop k R).
Proof.
  intros Hs. cbv zeta. set (j := Z.to_nat (start - 1)). set (k := (Z.to_nat end_ - j)%nat).
  assert (HL : L = take j L ++ take k (drop j L) ++ drop k (drop j L)) by by rewrite !take_drop.
  set (A := take j L) in *. set (M := take k (drop j L)) in *. set (B := drop k (drop j L)) in *.
  assert (HlA : length A = Nat.min (length L) j) by (unfold A; rewrite length_take; lia).
  assert (HlM : length M = Nat.min k (length L - j)) by (unfold M; rewrite length_take, length_drop; lia).
  assert (HlB : length B = (length L - j - k)%nat) by (unfold B; rewrite !length_drop; lia).
  clearbody A M B. subst L. pose proof (sk_linked _ _ _ _ Hs) as Hl. pose proof (sk_small _ _ _ Hl) as Hsmall.
  unfold zslDeleteRangeByRank.
  destruct (search_linked m H A (M ++ B) (rank_lt start) Hl) as (ur & -> & Hlen & Hur).
  { apply stops_rank_lt; [cbn [length]; lia|]. fold j. lia. }
  mstep. destruct (next_of_ok m H A (M ++ B) ur Hl Hlen Hur) as [-> (p & ->)]. mstep.
  rewrite !length_app in *. rewrite u64_nat by lia.
  apply (delete_loop_ok dictDelete (fun _ t => t <=? end_) base H A B M) with (r := 0); try done; try lia.
  - unfold walk_fuel. rewrite (sk_length _ _ _ Hl), !length_app. lia.
  - rewrite length_map. lia.
  - intros i u Hi (r & Hu)%map_fst_lookup. eauto.
  - intros M1 e M2 nd HM Hd. apply (f_equal length) in HM. rewrite length_app in HM. cbn [length] in HM. apply Z.leb_le. lia.
  - intros b nd Hb Hd. destruct B as [|b' B]; [done|]. cbn [length] in *. apply Z.leb_gt. lia.
Qed.
