(* ===== verification/ZskiplistSpec.v ===== *)
(** * The skip list of sorted sets: what its users may rely on

    Sessions: whatever operations are done, in whatever order, the list in
    memory is the sorted list that the same operations give on sequences, and
    nothing is left allocated at the end. Then the properties of the operations
    that only read, and of the deletions of ranges. *)

From stdpp Require Import gmap sorting.
From S2P Require Import Prelude Numstr Sds Object Zskiplist ZskiplistInv ZskiplistOps ZskiplistRank ZskiplistRange.

#[local] Open Scope Z_scope.

(** ** Sessions *)

Inductive zop :=
  | Insert (p : positive) (rs : list Z) (sc : Z) (el : list Z)
  | Delete (p : positive)
  | UpdateScore (p : positive) (sc : Z)
  | DeleteByScore (range : zrangespec)
  | DeleteByRank (start end_ : Z).

Section session.
Context `{AL : Allocator} (raw : nat -> zskiplistLevel).

(** The operations of the code; the dictionary is left out. *)
Definition zstep (m : zmem) (op : zop) : option zmem :=
  match op with
  | Insert p rs sc el => zslInsert raw rs m p sc el
  | Delete p => zslDelete m p
  | UpdateScore p sc => zslUpdateScore m p sc
  | DeleteByScore range => '(m, _, _) ← zslDeleteRangeByScore (fun _ _ => tt) m range tt; Some m
  | DeleteByRank start end_ => '(m, _, _) ← zslDeleteRangeByRank (fun _ _ => tt) m start end_ tt; Some m
  end.

Definition zrun (m : zmem) (ops : list zop) : option zmem := foldl (fun m op => m ← m; zstep m op) (Some m) ops.

(** The operations on sequences. There is no result for what callers must not
    do: a score that is not a number, a name that is there already, an address
    that is in use, a node that is not in the list. *)
Definition astep (H : elem) (L : list elem) (op : zop) : option (list elem) :=
  match op with
  | Insert p rs sc el =>
      levels ← zslRandomLevel rs;
      if bool_decide (isnan sc = false /\ el ∉ e_ele <$> L /\ p ∉ ptr <$> H :: L /\ Z.of_nat (length L) < 2 ^ 63 - 3)
      then Some (zinsert (mkElem p sc el levels (node_block levels el)) L) else None
  | Delete p => if bool_decide (p ∈ ptr <$> L) then Some (filter (fun e => ptr e <> p) L) else None
  | UpdateScore p sc =>
      '(_, e) ← list_find (fun e => ptr e = p) L;
      if isnan sc then None else Some (zinsert (rescore e sc) (filter (fun e => ptr e <> p) L))
  | DeleteByScore range =>
      if isnan (zmin range) || isnan (zmax range) then None
      else Some (filter (fun e => in_score_range range e = false) L)
  | DeleteByRank start end_ =>
      let j := Z.to_nat (start - 1) in Some (take j L ++ drop (Z.to_nat end_ - j) (drop j L))
  end.

Definition arun (H : elem) (L : list elem) (ops : list zop) : option (list elem) :=
  foldl (fun L op => L ← L; astep H L op) (Some L) ops.

Lemma filter_ptr A e B :
  NoDup (ptr <$> A ++ e :: B) -> filter (fun x => ptr x <> ptr e) (A ++ e :: B) = A ++ B.
Proof.
  intros Hnd. destruct (nodup_middle ptr A e B Hnd) as [_ Hout].
  rewrite filter_app, filter_cons_False by tauto. rewrite <- filter_app. apply filter_all.
  apply Forall_forall. intros x Hx Hp. apply Hout. rewrite <- Hp. by apply list_elem_of_fmap_2.
Qed.

Lemma zstep_ok base m H L op L' :
  skiplist base m H L -> astep H L op = Some L' -> exists m', zstep m op = Some m' /\ skiplist base m' H L'.
Proof.
  intros Hs. pose proof (sk_linked _ _ _ _ Hs) as Hl. pose proof (sk_nodup _ _ _ Hl) as Hnd.
  destruct op as [p rs sc el|p|p sc|range|start end_]; cbn [astep zstep].
  - destruct (zslRandomLevel rs) as [levels|] eqn:Hr; [|done]. mstep. case_bool_decide as Hc; [|done]. intros [= <-].
    destruct Hc as (Hnan & Hel & Hp & Hlen). set (e := mkElem p sc el levels _).
    destruct (place_split e L (sk_sorted _ _ _ Hl) Hel) as (A & B & -> & HA & HB). rewrite zinsert_split by done.
    apply zslInsert_ok; try done. apply not_elem_of_dom. by rewrite (sk_dom _ _ _ _ Hs), elem_of_list_to_set.
  - case_bool_decide as Hp; [|done]. intros [= <-]. apply list_elem_of_fmap in Hp as (e & -> & He).
    apply list_elem_of_split in He as (A & B & ->). rewrite filter_ptr; [by apply zslDelete_ok|].
    rewrite fmap_cons, NoDup_cons in Hnd. tauto.
  - destruct (list_find _ L) as [[i e]|] eqn:Hf; [|done]. mstep. destruct (isnan sc) eqn:Hnan; [done|]. intros [= <-].
    apply list_find_Some in Hf as (Hi & <- & _). apply list_elem_of_lookup_2, list_elem_of_split in Hi as (A & B & ->).
    rewrite filter_ptr; [by apply zslUpdateScore_ok|]. rewrite fmap_cons, NoDup_cons in Hnd. tauto.
  - destruct (isnan (zmin range)) eqn:H1; [done|]. destruct (isnan (zmax range)) eqn:H2; [done|]. cbn [orb]. intros [= <-].
    destruct (zslDeleteRangeByScore_ok (fun _ _ => tt) base m H L range tt Hs H1 H2) as (m' & -> & Hs'). mstep. eauto.
  - intros [= <-]. destruct (zslDeleteRangeByRank_ok (fun _ _ => tt) base m H L start end_ tt Hs) as (m' & -> & Hs').
    mstep. eauto.
Qed.

Lemma arun_cons H L op ops : arun H L (op :: ops) = L' ← astep H L op; arun H L' ops.
Proof.
  unfold arun. cbn [foldl]. mstep. destruct (astep H L op); [done|]. mstep.
  induction ops as [|o ops IH]; [done|]. cbn [foldl]. mstep. done.
Qed.

Lemma zrun_cons m op ops : zrun m (op :: ops) = m' ← zstep m op; zrun m' ops.
Proof.
  unfold zrun. cbn [foldl]. mstep. destruct (zstep m op); [done|]. mstep.
  induction ops as [|o ops IH]; [done|]. cbn [foldl]. mstep. done.
Qed.

Lemma zrun_ok base m H L ops L' :
  skiplist base m H L -> arun H L ops = Some L' -> exists m', zrun m ops = Some m' /\ skiplist base m' H L'.
Proof.
  revert m L. induction ops as [|op ops IH]; intros m L Hs.
  { intros [= <-]. by exists m. }
  rewrite arun_cons, zrun_cons. destruct (astep H L op) as [L1|] eqn:Ha; [|done]. mstep. intros Hr.
  destruct (zstep_ok base m H L op L1 Hs Ha) as (m1 & -> & Hs1). mstep. by apply (IH m1 L1).
Qed.

(** C5: a list is created, used and freed. Whatever insertions, deletions,
    changes of scores and deletions of ranges are done in between, every one
    of them returns without an undefined behaviour, the list in memory is
    linked, at all its levels, as the sorted list that the same operations give
    on sequences, and freeing it leaves no node allocated and only the bytes of
    the structure itself in the count of bytes. *)
Theorem zsl_session_refines p ops L :
  arun (header_elem p) [] ops = Some L ->
  exists m m' m'', zslCreate p = Some m /\ zrun m ops = Some m' /\
    skiplist (usable zskiplist_size) m' (header_elem p) L /\
    zslFree m' = Some m'' /\ nodes m'' = ∅ /\ alloc_size (zsl m'') = u64 (usable zskiplist_size).
Proof.
  intros Hr. destruct (zslCreate_ok p) as (m & Hm & Hs). destruct (zrun_ok _ _ _ _ _ _ Hs Hr) as (m' & Hm' & Hs').
  destruct (zslFree_ok _ _ _ _ Hs') as (m'' & Hm'' & Hd & Ha). exists m, m', m''. done.
Qed.
End session.

(** ** Ranks *)

(** The rank found by comparisons is the place of the element in the
    sorted list, or 0 when the element is not there; for an element of the list
    the rank found from its node is the same, and the node found by that rank
    is the node of the element; no node is found beyond the last rank. *)
Theorem zsl_ranks_correct base m H L :
  skiplist base m H L ->
  (forall sc el, isnan sc = false -> zslGetRank m sc el = Some (rank_of sc el L)) /\
  (forall A e B, L = A ++ e :: B ->
     let rank := Z.of_nat (length A) + 1 in
     zslGetRank m (e_score e) (e_ele e) = Some rank /\ zslGetRankByNode m (ptr e) = Some rank /\
     zslGetElementByRank m rank = Some (Some (ptr e))) /\
  (forall rank, Z.of_nat (length L) < rank -> zslGetElementByRank m rank = Some None).
Proof.
  intros Hs. pose proof (sk_linked _ _ _ _ Hs) as Hl. split_and!.
  - intros sc el. by apply zslGetRank_ok with (base := base) (H := H).
  - intros A e B ->. cbv zeta. split_and!.
    + rewrite (zslGetRank_ok base m H (A ++ e :: B)); [|done|].
      * f_equal. apply rank_of_hit; [apply (sk_sorted _ _ _ Hl)|by apply zcmp_eq].
      * apply (proj1 (Forall_forall _ _) (sk_nan _ _ _ Hl)). set_solver.
    + by eapply zslGetRankByNode_ok.
    + rewrite (zslGetElementByRank_ok base m H (A ++ e :: B)) by (done || lia).
      replace (Z.to_nat (Z.of_nat (length A) + 1)) with (S (length A)) by lia.
      change ((H :: A ++ e :: B) !! S (length A)) with ((A ++ e :: B) !! length A). by rewrite list_lookup_middle.
  - intros rank Hr. rewrite (zslGetElementByRank_ok base m H L) by (done || lia).
    by rewrite lookup_ge_None_2 by (cbn [length]; lia).
Qed.

(** ** Deletion of ranges *)

(** Deletion by scores, by names (when the scores are all equal) and by
    ranks removes from the list exactly the elements of the range, deletes
    them from the dictionary in their order, and returns their number. *)
Theorem zslDeleteRange_refines {D} (dictDelete : D -> list Z -> D) base m H L d :
  skiplist base m H L ->
  (forall range, isnan (zmin range) = false -> isnan (zmax range) = false ->
     let M := filter (fun e => in_score_range range e = true) L in
     exists m', zslDeleteRangeByScore dictDelete m range d = Some (m', foldl dictDelete d (e_ele <$> M), Z.of_nat (length M)) /\
       skiplist base m' H (filter (fun e => in_score_range range e = false) L)) /\
  (forall range s, Forall (fun e => dbl_key (e_score e) = s) L ->
     let M := filter (fun e => in_lex_range range e = true) L in
     exists m', zslDeleteRangeByLex dictDelete m range d = Some (m', foldl dictDelete d (e_ele <$> M), Z.of_nat (length M)) /\
       skiplist base m' H (filter (fun e => in_lex_range range e = false) L)) /\
  (forall start end_,
     let j := Z.to_nat (start - 1) in
     let k := (Z.to_nat end_ - j)%nat in
     let M := take k (drop j L) in
     exists m', zslDeleteRangeByRank dictDelete m start end_ d = Some (m', foldl dictDelete d (e_ele <$> M), Z.of_nat (length M)) /\
       skiplist base m' H (take j L ++ drop k (drop j L))).
Proof.
  intros Hs. split_and!.
  - intros range H1 H2. by apply zslDeleteRangeByScore_ok.
  - intros range s Hsc. by apply zslDeleteRangeByLex_ok with (s := s).
  - intros start end_. by apply zslDeleteRangeByRank_ok.
Qed.

(** ** Examples *)

(** The numbers 1, 2 and 3 *)
Definition d1 : Z := 0x3FF0000000000000.
Definition d2 : Z := 0x4000000000000000.
Definition d3 : Z := 0x4008000000000000.

(** Fresh memory holds anything. *)
Definition ex_raw (n : nat) : zskiplistLevel := mkLevel (Some 1%positive) 77.
Definition ex_header : elem := @header_elem block_allocator 1.
Definition ex_base : Z := @usable block_allocator zskiplist_size.

Definition ex_ops : list zop :=
  [Insert 2 [0; RAND_MAX] d2 [98]; Insert 3 [RAND_MAX] d1 [97; 97]; Insert 4 [0; 0; RAND_MAX] d2 [97];
   Insert 5 [RAND_MAX] d3 [122]; UpdateScore 3 d3; Delete 2].

Definition ex_state (ops : list zop) : zmem :=
  default (mkMem ∅ (mkZsl 1 None 0 1 0)) (m ← @zslCreate block_allocator 1; @zrun block_allocator ex_raw m ops).

Definition ex_L : list elem := default [] (@arun block_allocator ex_header [] ex_ops).

Lemma ex_state_ok ops L :
  @arun block_allocator ex_header [] ops = Some L -> skiplist ex_base (ex_state ops) ex_header L.
Proof.
  intros Hr. destruct (@zslCreate_ok block_allocator 1) as (m & Hm & Hs).
  destruct (@zrun_ok block_allocator ex_raw _ _ _ _ _ _ Hs Hr) as (m' & Hm' & Hs'). unfold ex_state. rewrite Hm. mstep.
  by rewrite Hm'.
Qed.

Lemma ex_ok : skiplist ex_base (ex_state ex_ops) ex_header ex_L.
Proof. apply ex_state_ok. vm_compute. reflexivity. Qed.

(** Three elements of the same score *)
Definition ex_same : list zop :=
  [Insert 2 [0; RAND_MAX] d2 [98]; Insert 3 [RAND_MAX] d2 [97]; Insert 4 [RAND_MAX] d2 [99]].
Definition ex_same_L : list elem := default [] (@arun block_allocator ex_header [] ex_same).

Lemma ex_same_ok : skiplist ex_base (ex_state ex_same) ex_header ex_same_L.
Proof. apply ex_state_ok. vm_compute. reflexivity. Qed.

(** ** Witnesses *)

Lemma zsl_session_refines_witness :
  exists m m' m'', @zslCreate block_allocator 1 = Some m /\ @zrun block_allocator ex_raw m ex_ops = Some m' /\
    skiplist ex_base m' ex_header ex_L /\
    zslFree m' = Some m'' /\ nodes m'' = ∅ /\ alloc_size (zsl m'') = u64 ex_base.
Proof. apply (@zsl_session_refines block_allocator ex_raw 1 ex_ops ex_L). vm_compute. reflexivity. Defined.

Lemma zslInsert_refines_witness :
  exists m', @zslInsert block_allocator ex_raw [0; RAND_MAX] (ex_state ex_ops) 9 d1 [99] = Some m' /\
    skiplist ex_base m' ex_header
      (zinsert (mkElem 9 d1 [99] 2 (@node_block block_allocator 2 [99])) ex_L).
Proof.
  apply (@zslInsert_refines block_allocator ex_raw ex_base (ex_state ex_ops) ex_header ex_L 9 [0; RAND_MAX] 2 d1 [99]).
  - exact ex_ok.
  - vm_compute. reflexivity.
  - vm_compute. reflexivity.
  - apply (bool_decide_unpack _). vm_compute. exact I.
  - vm_compute. reflexivity.
  - vm_compute. reflexivity.
Defined.

Lemma zsl_ranks_correct_witness :
  zslGetRank (ex_state ex_ops) d3 [97; 97] = Some 2 /\ zslGetRank (ex_state ex_ops) d3 [97] = Some 0 /\
  zslGetElementByRank (ex_state ex_ops) 4 = Some None.
Proof.
  destruct (zsl_ranks_correct ex_base (ex_state ex_ops) ex_header ex_L ex_ok) as (H1 & H2 & H3). split; [|split].
  - exact (H1 d3 [97; 97] eq_refl).
  - exact (H1 d3 [97] eq_refl).
  - apply H3. vm_compute. reflexivity.
Defined.

Lemma zslDeleteRange_refines_witness :
  exists m', zslDeleteRangeByRank (fun d e => e :: d) (ex_state ex_ops) 2 2 [] = Some (m', [[97; 97]], 1) /\
    skiplist ex_base m' ex_header (take 1 ex_L ++ drop 2 ex_L).
Proof. exact (proj2 (proj2 (zslDeleteRange_refines (fun d e => e :: d) ex_base (ex_state ex_ops) ex_header ex_L [] ex_ok)) 2 2). Defined.

Lemma zslNthInRange_correct_witness :
  zslNthInRange (ex_state ex_ops) (mkRange d2 d3 true false) (-1) = Some (Some (5%positive, 3)).
Proof.
  rewrite (zslNthInRange_correct ex_base (ex_state ex_ops) ex_header ex_L (mkRange d2 d3 true false) (-1) ex_ok eq_refl eq_refl);
    [vm_compute; reflexivity|vm_compute; split; reflexivity|vm_compute; reflexivity].
Defined.

Lemma zslNthInLexRange_correct_witness :
  zslNthInLexRange (ex_state ex_same) (mkLexRange (lexstr [97]) maxstring true false) 1 = Some (Some (4%positive, 3)).
Proof.
  rewrite (zslNthInLexRange_correct ex_base (ex_state ex_same) ex_header ex_same_L
    (mkLexRange (lexstr [97]) maxstring true false) (dbl_key d2) 1 ex_same_ok);
    [vm_compute; reflexivity|repeat constructor|vm_compute; split; reflexivity|vm_compute; reflexivity].
Defined.
