(* ===== verification/Dict.v ===== *)
(** * Hash tables ([dict.c], [dict.h]): the model

    A dict has two tables of chained buckets; while a rehashing is in
    progress, the buckets of the first are moved one by one to the second by
    the operations themselves. This file holds the operations; [DictOps]
    proves that they implement a finite map and [DictScan] that the cursors
    of [dictScan] miss no element.

    A pointer to an entry is the chain that starts there, a constructor per
    kind of pointer: [NULL], a tagged pointer to a key (which has no next
    field), an entry without value and an entry with a value, [None] for a
    value field that was not written yet. The link to an entry, a
    [dictEntry **] in the code, is its table, bucket and position in the
    chain. The functions of the [dictType] are the fields of a class; the
    calls of those that only inform the owner of the dict are recorded in the
    dict. [dict_can_resize], a global of the code, is an argument. A failed
    assertion or an access outside of a table is [None]. *)

From S2P Require Import Prelude.

#[local] Open Scope Z_scope.

Inductive dictResizeEnable := DICT_RESIZE_ENABLE | DICT_RESIZE_AVOID | DICT_RESIZE_FORBID.

#[export] Instance dictResizeEnable_eq_dec : EqDecision dictResizeEnable.
Proof. solve_decision. Defined.

(** What [_dictResize] does: the resize, nothing, or nothing for lack of memory *)
Inductive resize_result := RESIZE_OK | RESIZE_SKIPPED | RESIZE_NOMEM.

#[export] Instance resize_result_eq_dec : EqDecision resize_result.
Proof. solve_decision. Defined.

(** Keys are compared by contents; [resizeAllowed] gets the memory asked for
    and the two integers whose quotient is the fill ratio. The other callbacks
    that act on a key or a value are left out, since the model has no heap for
    keys and values: [keyDup] and [valDup] (the types of [functions.c] copy
    their string keys, to an equal string; the others store what they are
    given), and [keyDestructor] and [valDestructor], which release the memory of
    a key or value that leaves the dict. *)
Class dictType (SK K V : Type) := {
  hashFunction : K -> Z;
  keyCompare : K -> K -> bool;
  keyFromStoredKey : SK -> K;
  resizeAllowed : Z -> Z -> Z -> bool;
  no_value : bool;
  force_full_rehash : bool
}.

(** A call of a callback of the type *)
Inductive callback := rehashingStarted | rehashingCompleted | bucketChanged (delta : Z).

Inductive chain (SK V : Type) :=
| Null
| KeyPtr (key : SK)
| EntryNoValue (key : SK) (next : chain SK V)
| Entry (key : SK) (val : option V) (next : chain SK V).
Arguments Null {SK V}.
Arguments KeyPtr {SK V}.
Arguments EntryNoValue {SK V}.
Arguments Entry {SK V}.

Record htab (SK V : Type) := mkHt {
  ht_table : list (chain SK V);
  ht_used : Z;
  ht_size_exp : Z
}.
Arguments mkHt {SK V}.
Arguments ht_table {SK V}.
Arguments ht_used {SK V}.
Arguments ht_size_exp {SK V}.

Record dict (SK V : Type) := mkDict {
  ht0 : htab SK V;
  ht1 : htab SK V;
  rehashidx : Z;
  pauserehash : Z;
  pauseAutoResize : Z;
  calls : list callback
}.
Arguments mkDict {SK V}.
Arguments ht0 {SK V}.
Arguments ht1 {SK V}.
Arguments rehashidx {SK V}.
Arguments pauserehash {SK V}.
Arguments pauseAutoResize {SK V}.
Arguments calls {SK V}.

Definition dict_force_resize_ratio : Z := 4.
Definition HASHTABLE_MIN_FILL : Z := 8.
Definition DICT_HT_INITIAL_EXP : Z := 2.
Definition DICT_HT_INITIAL_SIZE : Z := Z.shiftl 1 DICT_HT_INITIAL_EXP.

Definition DICTHT_SIZE (exp : Z) : Z := if exp =? -1 then 0 else u64 (Z.shiftl 1 exp).
Definition DICTHT_SIZE_MASK (exp : Z) : Z := if exp =? -1 then 0 else u64 (DICTHT_SIZE exp - 1).

(** [__builtin_clzl] of a positive number of 64 bits *)
Definition clzl (x : Z) : Z := 63 - Z.log2 x.

Definition _dictNextExp (size : Z) : Z :=
  if size <=? DICT_HT_INITIAL_SIZE then DICT_HT_INITIAL_EXP else
  if size >=? INT64_MAX then 63 else
  64 - clzl (size - 1).

(** A position of an entry: table, bucket, place in the chain *)
Record dictEntryLink := mkLink { l_table : bool; l_idx : Z; l_pos : nat }.

#[export] Instance dictEntryLink_eq_dec : EqDecision dictEntryLink.
Proof. solve_decision. Defined.

Section ops.
Context {SK K V : Type} `{T : dictType SK K V}.

#[local] Abbreviation chain := (chain SK V).
#[local] Abbreviation htab := (htab SK V).
#[local] Abbreviation dict := (dict SK V).

(** ** Fields *)

Definition ht (d : dict) (t : bool) : htab := if t then ht1 d else ht0 d.
Definition set_ht (d : dict) (t : bool) (h : htab) : dict :=
  if t then mkDict (ht0 d) h (rehashidx d) (pauserehash d) (pauseAutoResize d) (calls d)
  else mkDict h (ht1 d) (rehashidx d) (pauserehash d) (pauseAutoResize d) (calls d).
Definition set_rehashidx (d : dict) (i : Z) : dict :=
  mkDict (ht0 d) (ht1 d) i (pauserehash d) (pauseAutoResize d) (calls d).
Definition set_pauserehash (d : dict) (n : Z) : dict :=
  mkDict (ht0 d) (ht1 d) (rehashidx d) n (pauseAutoResize d) (calls d).
Definition set_used (d : dict) (t : bool) (n : Z) : dict :=
  set_ht d t (mkHt (ht_table (ht d t)) n (ht_size_exp (ht d t))).
Definition call (d : dict) (c : callback) : dict :=
  mkDict (ht0 d) (ht1 d) (rehashidx d) (pauserehash d) (pauseAutoResize d) (calls d ++ [c]).

Definition dict_exp (d : dict) (t : bool) : Z := ht_size_exp (ht d t).
Definition used (d : dict) (t : bool) : Z := ht_used (ht d t).

(** [d->ht_table[t][idx]], read and written *)
Definition bucket (d : dict) (t : bool) (idx : Z) : option chain :=
  if idx <? 0 then None else ht_table (ht d t) !! Z.to_nat idx.
Definition set_bucket (d : dict) (t : bool) (idx : Z) (c : chain) : option dict :=
  _ ← bucket d t idx;
  Some (set_ht d t (mkHt (<[Z.to_nat idx := c]> (ht_table (ht d t))) (used d t) (dict_exp d t))).

Definition dictSize (d : dict) : Z := u64 (used d false + used d true).
Definition dictBuckets (d : dict) : Z := u64 (DICTHT_SIZE (dict_exp d false) + DICTHT_SIZE (dict_exp d true)).
Definition dictIsRehashing (d : dict) : bool := negb (rehashidx d =? -1).

(** ** Entries *)

Definition entryIsKey (de : chain) : bool := match de with KeyPtr _ => true | _ => false end.

Definition dictGetNext (de : chain) : chain :=
  match de with
  | EntryNoValue _ next | Entry _ _ next => next
  | _ => Null
  end.

Definition dictGetKey (de : chain) : option SK :=
  match de with
  | Null => None
  | KeyPtr sk | EntryNoValue sk _ | Entry sk _ _ => Some sk
  end.

Definition dictGetVal (de : chain) : option (option V) :=
  match de with Entry _ v _ => Some v | _ => None end.

Definition dictSetNext (de next : chain) : option chain :=
  match de with
  | EntryNoValue sk _ => Some (EntryNoValue sk next)
  | Entry sk v _ => Some (Entry sk v next)
  | _ => None
  end.

(** ** Creation *)

Definition _dictReset (d : dict) (t : bool) : dict := set_ht d t (mkHt [] 0 (-1)).

Definition _dictInit : dict := mkDict (mkHt [] 0 (-1)) (mkHt [] 0 (-1)) (-1) 0 0 [].

Definition dictCreate : dict := _dictInit.

(** ** Rehashing *)

(** The body of the loop over the entries of a bucket *)
Definition rehash_entry (d : dict) (idx : Z) (de : chain) : option dict :=
  storedKey ← dictGetKey de;
  let h :=
    if dict_exp d true >? dict_exp d false then
      Z.land (hashFunction (keyFromStoredKey storedKey)) (DICTHT_SIZE_MASK (dict_exp d true))
    else Z.land idx (DICTHT_SIZE_MASK (dict_exp d true)) in
  dst ← bucket d true h;
  de ← (if no_value then
          match dst with
          | Null => Some (KeyPtr storedKey)
          | _ => if entryIsKey de then Some (EntryNoValue storedKey dst) else dictSetNext de dst
          end
        else dictSetNext de dst);
  d ← set_bucket d true h de;
  let d := set_used d false (u64 (used d false - 1)) in
  Some (set_used d true (u64 (used d true + 1))).

Fixpoint rehash_chain (d : dict) (idx : Z) (de : chain) : option dict :=
  match de with
  | Null => Some d
  | KeyPtr _ => rehash_entry d idx de
  | EntryNoValue _ next | Entry _ _ next => d ← rehash_entry d idx de; rehash_chain d idx next
  end.

Definition rehashEntriesInBucketAtIndex (d : dict) (idx : Z) : option dict :=
  de ← bucket d false idx;
  d ← rehash_chain d idx de;
  set_bucket d false idx Null.

Definition dictCheckRehashingCompleted (d : dict) : bool * dict :=
  if negb (used d false =? 0) then (false, d) else
  let d := call d rehashingCompleted in
  let d := call d (bucketChanged (- DICTHT_SIZE (dict_exp d false))) in
  let d := set_ht d false (ht1 d) in
  let d := _dictReset d true in
  (true, set_rehashidx d (-1)).

Context (dict_can_resize : dictResizeEnable).

(** The test on the sizes that [DICT_RESIZE_AVOID] adds *)
Definition rehash_avoided (d : dict) : bool :=
  let s0 := DICTHT_SIZE (dict_exp d false) in
  let s1 := DICTHT_SIZE (dict_exp d true) in
  bool_decide (dict_can_resize = DICT_RESIZE_AVOID) &&
  (((s1 >? s0) && (s1 <? u64 (dict_force_resize_ratio * s0))) ||
   ((s1 <? s0) && (s0 <? u64 (HASHTABLE_MIN_FILL * dict_force_resize_ratio * s1)))).

(** [while(d->ht_table[0][d->rehashidx] == NULL)]: the visits left and whether
    they were used up *)
Fixpoint skip_empty (empty_visits : nat) (d : dict) : option (dict * nat * bool) :=
  b ← bucket d false (rehashidx d);
  match b with
  | Null =>
      match empty_visits with
      | O => None
      | S O => Some (set_rehashidx d (rehashidx d + 1), O, true)
      | S empty_visits => skip_empty empty_visits (set_rehashidx d (rehashidx d + 1))
      end
  | _ => Some (d, empty_visits, false)
  end.

(** [while(n-- && d->ht_used[0] != 0)]: the dict and whether the visits were
    used up *)
Fixpoint rehash_loop (n empty_visits : nat) (d : dict) : option (dict * bool) :=
  match n with
  | O => Some (d, false)
  | S n =>
      if used d false =? 0 then Some (d, false) else
      _ ← cassert (DICTHT_SIZE (dict_exp d false) >? u64 (rehashidx d));
      '(d, empty_visits, stop) ← skip_empty empty_visits d;
      if (stop : bool) then Some (d, true) else
      d ← rehashEntriesInBucketAtIndex d (rehashidx d);
      rehash_loop n empty_visits (set_rehashidx d (rehashidx d + 1))
  end.

(** [n] is an [int] that the callers make positive (1, 100 or 1000); the number
    of empty buckets to visit, which is computed first, must fit one too. *)
Definition dictRehash (d : dict) (n : nat) : option (bool * dict) :=
  _ ← cassert (Z.of_nat n * 10 <=? INT32_MAX);
  if bool_decide (dict_can_resize = DICT_RESIZE_FORBID) || negb (dictIsRehashing d)
  then Some (false, d) else
  if rehash_avoided d then Some (false, d) else
  '(d, stop) ← rehash_loop n (n * 10) d;
  if (stop : bool) then Some (true, d) else
  let '(completed, d) := dictCheckRehashingCompleted d in
  Some (negb completed, d).

Definition _dictRehashStep (d : dict) : option dict :=
  if pauserehash d =? 0 then '(_, d) ← dictRehash d 1; Some d else Some d.

Definition _dictBucketRehash (d : dict) (idx : Z) : option (bool * dict) :=
  if negb (pauserehash d =? 0) then Some (false, d) else
  if bool_decide (dict_can_resize = DICT_RESIZE_FORBID) || negb (dictIsRehashing d)
  then Some (false, d) else
  if rehash_avoided d then Some (false, d) else
  d ← rehashEntriesInBucketAtIndex d idx;
  Some (true, snd (dictCheckRehashingCompleted d)).

Definition _dictRehashStepIfNeeded (d : dict) (visitedIdx : Z) : option dict :=
  if negb (dictIsRehashing d) || negb (pauserehash d =? 0) then Some d else
  here ← (if s64 visitedIdx >=? rehashidx d then
            b ← bucket d false visitedIdx; Some (match b with Null => false | _ => true end)
          else Some false);
  if (here : bool) then '(_, d) ← _dictBucketRehash d visitedIdx; Some d
  else '(_, d) ← dictRehash d 1; Some d.

(** ** Resizing *)

(** [while (dictRehash(d, 1000))] *)
Fixpoint full_rehash (fuel : nat) (d : dict) : option dict :=
  match fuel with
  | O => None
  | S fuel =>
      '(more, d) ← dictRehash d 1000;
      if (more : bool) then full_rehash fuel d else Some d
  end.

(** [nomem] is what the allocation does when it may fail: a caller that does
    not pass [malloc_failed] is killed by a failure, and passes [false]. *)
Definition _dictResize (d : dict) (size : Z) (nomem : bool) : option (resize_result * dict) :=
  _ ← cassert (negb (dictIsRehashing d));
  let new_exp := _dictNextExp size in
  let newsize := DICTHT_SIZE new_exp in
  if (newsize <? size) || (u64 (newsize * 8) <? newsize) then Some (RESIZE_SKIPPED, d) else
  if new_exp =? dict_exp d false then Some (RESIZE_SKIPPED, d) else
  if nomem then Some (RESIZE_NOMEM, d) else
  let new_ht := mkHt (replicate (Z.to_nat newsize) Null) 0 new_exp in
  let d := set_ht d true new_ht in
  let d := set_rehashidx d 0 in
  let d := call d rehashingStarted in
  let d := call d (bucketChanged (DICTHT_SIZE (dict_exp d true))) in
  if bool_decide (ht_table (ht0 d) = []) || (used d false =? 0) then
    let d := call d rehashingCompleted in
    let d := call d (bucketChanged (- DICTHT_SIZE (dict_exp d false))) in
    let d := set_ht d false new_ht in
    let d := _dictReset d true in
    Some (RESIZE_OK, set_rehashidx d (-1))
  else if force_full_rehash then
    d ← full_rehash (S (length (ht_table (ht0 d)))) d;
    Some (RESIZE_OK, d)
  else Some (RESIZE_OK, d).

Definition _dictExpand (d : dict) (size : Z) (nomem : bool) : option (resize_result * dict) :=
  if dictIsRehashing d || (used d false >? size) || (DICTHT_SIZE (dict_exp d false) >=? size)
  then Some (RESIZE_SKIPPED, d) else _dictResize d size nomem.

(** [true] is [DICT_OK]. *)
Definition dictExpand (d : dict) (size : Z) : option (bool * dict) :=
  '(r, d) ← _dictExpand d size false; Some (bool_decide (r = RESIZE_OK), d).

Definition dictTryExpand (d : dict) (size : Z) (nomem : bool) : option (bool * dict) :=
  '(r, d) ← _dictExpand d size nomem; Some (bool_decide (r <> RESIZE_NOMEM), d).

Definition dictShrink (d : dict) (size : Z) : option (bool * dict) :=
  if dictIsRehashing d || (used d false >? size) || (DICTHT_SIZE (dict_exp d false) <=? size)
  then Some (false, d) else
  '(r, d) ← _dictResize d size false; Some (bool_decide (r = RESIZE_OK), d).

Definition dictTypeResizeAllowed (d : dict) (size : Z) : bool :=
  resizeAllowed (u64 (DICTHT_SIZE (_dictNextExp size) * 8)) (used d false) (DICTHT_SIZE (dict_exp d false)).

(** [DICT_OK] is [true]. *)
Definition dictExpandIfNeeded (d : dict) : option (bool * dict) :=
  if dictIsRehashing d then Some (true, d) else
  if DICTHT_SIZE (dict_exp d false) =? 0 then
    '(_, d) ← dictExpand d DICT_HT_INITIAL_SIZE; Some (true, d)
  else if (bool_decide (dict_can_resize = DICT_RESIZE_ENABLE) &&
            (used d false >=? DICTHT_SIZE (dict_exp d false))) ||
          (negb (bool_decide (dict_can_resize = DICT_RESIZE_FORBID)) &&
            (used d false >=? u64 (dict_force_resize_ratio * DICTHT_SIZE (dict_exp d false))))
  then
    d ← (if dictTypeResizeAllowed d (u64 (used d false + 1))
         then '(_, d) ← dictExpand d (u64 (used d false + 1)); Some d else Some d);
    Some (true, d)
  else Some (false, d).

Definition _dictExpandIfNeeded (d : dict) : option (bool * dict) :=
  if pauseAutoResize d >? 0 then Some (false, d) else dictExpandIfNeeded d.

Definition dictShrinkIfNeeded (d : dict) : option (bool * dict) :=
  if dictIsRehashing d then Some (true, d) else
  if DICTHT_SIZE (dict_exp d false) <=? DICT_HT_INITIAL_SIZE then Some (true, d) else
  if (bool_decide (dict_can_resize = DICT_RESIZE_ENABLE) &&
       (u64 (used d false * HASHTABLE_MIN_FILL) <=? DICTHT_SIZE (dict_exp d false))) ||
     (negb (bool_decide (dict_can_resize = DICT_RESIZE_FORBID)) &&
       (u64 (used d false * HASHTABLE_MIN_FILL * dict_force_resize_ratio)
          <=? DICTHT_SIZE (dict_exp d false)))
  then
    d ← (if dictTypeResizeAllowed d (used d false)
         then '(_, d) ← dictShrink d (used d false); Some d else Some d);
    Some (true, d)
  else Some (false, d).

Definition _dictShrinkIfNeeded (d : dict) : option dict :=
  if pauseAutoResize d >? 0 then Some d else '(_, d) ← dictShrinkIfNeeded d; Some d.

(** ** Lookup *)

(** The place of a key in a chain *)
Fixpoint chain_find (key : K) (c : chain) : option nat :=
  match c with
  | Null => None
  | KeyPtr sk => if keyCompare key (keyFromStoredKey sk) then Some O else None
  | EntryNoValue sk next | Entry sk _ next =>
      if keyCompare key (keyFromStoredKey sk) then Some O else S <$> chain_find key next
  end.

(** One turn of the loop over the tables *)
Definition find_in_table (d : dict) (t : bool) (hash : Z) (key : K) : option (Z * option dictEntryLink) :=
  let idx := Z.land hash (DICTHT_SIZE_MASK (dict_exp d t)) in
  he ← bucket d t idx;
  Some (idx, mkLink t idx <$> chain_find key he).

(** The loop over the tables, from an index of the first one: the last index
    and the link of the key *)
Definition find_in_tables (d : dict) (idx hash : Z) (key : K) : option (Z * option dictEntryLink) :=
  '(idx, found) ←
    (if s64 idx <? rehashidx d then Some (idx, None) else find_in_table d false hash key);
  match found with
  | Some l => Some (idx, Some l)
  | None => if negb (dictIsRehashing d) then Some (idx, None) else find_in_table d true hash key
  end.

(** [dictFindLinkInternal(d, key, &bucket)]: the link of the key, and the bucket
    that was searched last *)
Definition dictFindLinkInternal (d : dict) (key : K) : option (dict * option dictEntryLink * dictEntryLink) :=
  let hash := hashFunction key in
  let idx := Z.land hash (DICTHT_SIZE_MASK (dict_exp d false)) in
  d ← _dictRehashStepIfNeeded d idx;
  '(idx, found) ← find_in_tables d idx hash key;
  let table := match found with Some l => l_table l | None => dictIsRehashing d end in
  Some (d, found, mkLink table idx 0).

(** [dictFindLink(d, key, &bucket)] *)
Definition dictFindLinkBucket (d : dict) (key : K) : option (dict * option dictEntryLink * option dictEntryLink) :=
  if dictSize d =? 0 then Some (d, None, None)
  else '(d, l, b) ← dictFindLinkInternal d key; Some (d, l, Some b).

(** [dictFindLink(d, key, NULL)] *)
Definition dictFindLink (d : dict) (key : K) : option (dict * option dictEntryLink) :=
  if dictSize d =? 0 then Some (d, None) else
  let hash := hashFunction key in
  let idx := Z.land hash (DICTHT_SIZE_MASK (dict_exp d false)) in
  d ← _dictRehashStepIfNeeded d idx;
  '(_, l) ← find_in_tables d idx hash key;
  Some (d, l).

(** The entry at a place of a chain *)
Fixpoint chain_at (c : chain) (pos : nat) : chain :=
  match pos with
  | O => c
  | S pos => chain_at (dictGetNext c) pos
  end.

Definition entry_at (d : dict) (l : dictEntryLink) : option chain :=
  c ← bucket d (l_table l) (l_idx l); Some (chain_at c (l_pos l)).

(** [Null] is the [NULL] of a key that is not there. *)
Definition dictFind (d : dict) (key : K) : option (dict * chain) :=
  '(d, l) ← dictFindLink d key;
  match l with
  | Some l => de ← entry_at d l; Some (d, de)
  | None => Some (d, Null)
  end.

(** [None] inside is [NULL]. *)
Definition dictFetchValue (d : dict) (key : K) : option (dict * option (option V)) :=
  '(d, he) ← dictFind d key;
  match he with
  | Null => Some (d, None)
  | _ => v ← dictGetVal he; Some (d, Some v)
  end.

(** ** Insertion *)

(** The bucket to insert at, or the link of the existing entry *)
Definition dictFindLinkForInsert (d : dict) (key : K) : option (dict * (dictEntryLink + dictEntryLink)) :=
  let hash := hashFunction key in
  let idx := Z.land hash (DICTHT_SIZE_MASK (dict_exp d false)) in
  d ← _dictRehashStepIfNeeded d idx;
  '(_, d) ← _dictExpandIfNeeded d;
  '(idx, found) ← find_in_tables d idx hash key;
  match found with
  | Some l => Some (d, inr l)
  | None => _ ← bucket d (dictIsRehashing d) idx; Some (d, inl (mkLink (dictIsRehashing d) idx 0))
  end.

Definition dictInsertKeyAtLink (d : dict) (key : SK) (link : dictEntryLink) : option dict :=
  let htidx := dictIsRehashing d in
  _ ← cassert (Bool.eqb (l_table link) htidx && (0 <=? l_idx link) &&
               (l_idx link <=? DICTHT_SIZE_MASK (dict_exp d htidx)));
  b ← bucket d htidx (l_idx link);
  let entry :=
    if no_value then match b with Null => KeyPtr key | _ => EntryNoValue key b end
    else Entry key None b in
  d ← set_bucket d htidx (l_idx link) entry;
  Some (set_used d htidx (u64 (used d htidx + 1))).

(** [dictSetKeyAtLink(d, key, &link, 1)], for a key that is not in the dict *)
Definition dictSetKeyAtLink (d : dict) (key : SK) (link : option dictEntryLink) : option dict :=
  let snap := (dict_exp d false, dict_exp d true) in
  '(_, d) ← dictExpandIfNeeded d;
  '(d, l) ←
    (match link with
     | Some l =>
         if bool_decide ((dict_exp d false, dict_exp d true) = snap) then Some (d, l)
         else '(d, found, b) ← dictFindLinkInternal d (keyFromStoredKey key);
              _ ← cassert (bool_decide (found = None)); Some (d, b)
     | None =>
         '(d, found, b) ← dictFindLinkInternal d (keyFromStoredKey key);
         _ ← cassert (bool_decide (found = None)); Some (d, b)
     end);
  dictInsertKeyAtLink d key l.

(** The link of the new entry, or of the existing one *)
Definition dictAddRaw (d : dict) (key : SK) : option (dict * (dictEntryLink + dictEntryLink)) :=
  '(d, r) ← dictFindLinkForInsert d (keyFromStoredKey key);
  match r with
  | inr existing => Some (d, inr existing)
  | inl position => d ← dictInsertKeyAtLink d key position; Some (d, inl position)
  end.

(** [de->v.val = val] at a place of a chain; only an entry with a value has
    the field. *)
Fixpoint chain_set_val (c : chain) (pos : nat) (val : V) : option chain :=
  match c, pos with
  | Entry sk _ next, O => Some (Entry sk (Some val) next)
  | Entry sk v next, S pos => next ← chain_set_val next pos val; Some (Entry sk v next)
  | EntryNoValue sk next, S pos => next ← chain_set_val next pos val; Some (EntryNoValue sk next)
  | _, _ => None
  end.

Definition dictSetVal (d : dict) (l : dictEntryLink) (val : V) : option dict :=
  c ← bucket d (l_table l) (l_idx l);
  c ← chain_set_val c (l_pos l) val;
  set_bucket d (l_table l) (l_idx l) c.

(** [true] is [DICT_OK]. *)
Definition dictAdd (d : dict) (key : SK) (val : V) : option (bool * dict) :=
  '(d, r) ← dictAddRaw d key;
  match r with
  | inr _ => Some (false, d)
  | inl entry => d ← (if no_value then Some d else dictSetVal d entry val); Some (true, d)
  end.

Definition dictReplace (d : dict) (key : SK) (val : V) : option (bool * dict) :=
  '(d, r) ← dictAddRaw d key;
  match r with
  | inl entry => d ← dictSetVal d entry val; Some (true, d)
  | inr existing => d ← dictSetVal d existing val; Some (false, d)
  end.

Definition dictAddOrFind (d : dict) (key : SK) : option (dict * dictEntryLink) :=
  '(d, r) ← dictAddRaw d key;
  match r with inl entry | inr entry => Some (d, entry) end.

(** ** Deletion *)

(** Unlinks the entry at a place of a chain: the entry and the new chain *)
Fixpoint chain_unlink (c : chain) (pos : nat) : option (chain * chain) :=
  match pos with
  | O => match c with Null => None | _ => Some (c, dictGetNext c) end
  | S pos => '(he, next) ← chain_unlink (dictGetNext c) pos; c ← dictSetNext c next; Some (he, c)
  end.

Definition unlink_at (d : dict) (l : dictEntryLink) : option (dict * chain) :=
  c ← bucket d (l_table l) (l_idx l);
  '(he, c) ← chain_unlink c (l_pos l);
  d ← set_bucket d (l_table l) (l_idx l) c;
  Some (set_used d (l_table l) (u64 (used d (l_table l) - 1)), he).

(** [Null] is the [NULL] of a key that is not there. *)
Definition dictGenericDelete (d : dict) (key : K) : option (dict * chain) :=
  if dictSize d =? 0 then Some (d, Null) else
  let h := hashFunction key in
  let idx := Z.land h (DICTHT_SIZE_MASK (dict_exp d false)) in
  d ← _dictRehashStepIfNeeded d idx;
  '(_, found) ← find_in_tables d idx h key;
  match found with
  | Some l => '(d, he) ← unlink_at d l; d ← _dictShrinkIfNeeded d; Some (d, he)
  | None => Some (d, Null)
  end.

Definition dictDelete (d : dict) (key : K) : option (bool * dict) :=
  '(d, he) ← dictGenericDelete d key; Some (match he with Null => false | _ => true end, d).

Definition dictUnlink (d : dict) (key : K) : option (dict * chain) := dictGenericDelete d key.

Definition dictTwoPhaseUnlinkFind (d : dict) (key : K) : option (dict * option dictEntryLink) :=
  if dictSize d =? 0 then Some (d, None) else
  d ← (if dictIsRehashing d then _dictRehashStep d else Some d);
  let h := hashFunction key in
  let idx := Z.land h (DICTHT_SIZE_MASK (dict_exp d false)) in
  '(_, found) ← find_in_tables d idx h key;
  match found with
  | Some l => Some (set_pauserehash d (u32 (pauserehash d + 1)), Some l)
  | None => Some (d, None)
  end.

Definition dictTwoPhaseUnlinkFree (d : dict) (plink : option dictEntryLink) : option dict :=
  match plink with
  | None => Some d
  | Some l =>
      '(d, _) ← unlink_at d l;
      d ← _dictShrinkIfNeeded d;
      Some (set_pauserehash d (u32 (pauserehash d - 1)))
  end.

(** ** Emptying *)

Fixpoint chain_length (c : chain) : nat :=
  match c with
  | Null => O
  | KeyPtr _ => 1%nat
  | EntryNoValue _ next | Entry _ _ next => S (chain_length next)
  end.

(** The loop that frees the entries: the counter at the end *)
Fixpoint clear_loop (table : list chain) (used : Z) : Z :=
  match table with
  | [] => used
  | c :: table => if used >? 0 then clear_loop table (u64 (used - Z.of_nat (chain_length c))) else used
  end.

Definition _dictClear (d : dict) (t : bool) : dict :=
  let d := set_used d t (clear_loop (ht_table (ht d t)) (used d t)) in
  _dictReset d t.

Definition dictEmpty (d : dict) : dict :=
  let d := if dictIsRehashing d then call d rehashingCompleted else d in
  let d := call d (bucketChanged (- dictBuckets d)) in
  let d := _dictClear d false in
  let d := _dictClear d true in
  mkDict (ht0 d) (ht1 d) (-1) 0 0 (calls d).

(** ** Scanning *)

(** The loop of [rev]: the shifts are 32, 16, 8, 4, 2, 1. *)
Definition rev_step (vm : Z * Z) (s : Z) : Z * Z :=
  let '(v, mask) := vm in
  let mask := Z.lxor mask (u64 (Z.shiftl mask s)) in
  (Z.lor (Z.land (Z.shiftr v s) mask) (Z.land (u64 (Z.shiftl v s)) (u64 (Z.lnot mask))), mask).

Definition rev (v : Z) : Z := fst (foldl rev_step (v, UINT64_MAX) [32; 16; 8; 4; 2; 1]).

(** The entries of a chain, in order *)
Fixpoint entries (c : chain) : list (SK * option V) :=
  match c with
  | Null => []
  | KeyPtr sk => [(sk, None)]
  | EntryNoValue sk next => (sk, None) :: entries next
  | Entry sk v next => (sk, v) :: entries next
  end.

(** [v |= ~m; v = rev(v); v++; v = rev(v)] *)
Definition next_cursor (v m : Z) : Z :=
  let v := Z.lor v (u64 (Z.lnot m)) in
  rev (u64 (rev v + 1)).

(** The entries that [dictScanDefragBucket] passes to the function, when the
    function leaves the dict alone and nothing is defragmented *)
Definition dictScanDefragBucket (d : dict) (t : bool) (idx : Z) : option (list (SK * option V)) :=
  c ← bucket d t idx; Some (entries c).

(** The [do] loop over the expansions of the cursor in the larger table *)
Fixpoint scan_expansions (fuel : nat) (d : dict) (t : bool) (m0 m1 v : Z) (emitted : list (SK * option V))
    : option (Z * list (SK * option V)) :=
  match fuel with
  | O => None
  | S fuel =>
      es ← dictScanDefragBucket d t (Z.land v m1);
      let v := next_cursor v m1 in
      if Z.land v (Z.lxor m0 m1) =? 0 then Some (v, emitted ++ es)
      else scan_expansions fuel d t m0 m1 v (emitted ++ es)
  end.

(** The new cursor and the entries passed to the function *)
Definition dictScan (d : dict) (v : Z) : option (Z * list (SK * option V)) :=
  if dictSize d =? 0 then Some (0, []) else
  if negb (dictIsRehashing d) then
    let m0 := DICTHT_SIZE_MASK (dict_exp d false) in
    es ← dictScanDefragBucket d false (Z.land v m0);
    Some (next_cursor v m0, es)
  else
    let t0 := DICTHT_SIZE (dict_exp d false) >? DICTHT_SIZE (dict_exp d true) in
    let t1 := negb t0 in
    let m0 := DICTHT_SIZE_MASK (dict_exp d t0) in
    let m1 := DICTHT_SIZE_MASK (dict_exp d t1) in
    es ← dictScanDefragBucket d t0 (Z.land v m0);
    scan_expansions (length (ht_table (ht d t1))) d t1 m0 m1 v es.

End ops.
