(* ===== verification/DictOps.v ===== *)
(** * Hash tables: the operations implement a finite map

    The invariant of a dict ([dict_wf]) and the refinement of finite maps
    ([dict_repr]): every operation of [Dict], the steps of incremental
    rehashing that it makes included, keeps the invariant and acts on the
    finite map of the entries as its name says. *)

From S2P Require Import Prelude Dict.
From stdpp Require Import gmap.

#[local] Open Scope Z_scope.

(** What the code relies on of the callbacks of a type: the comparison
    decides equality of keys and hashes are numbers of 64 bits. *)
Class dictTypeLaws (SK K V : Type) `{EqDecision K} (T : dictType SK K V) : Prop := {
  keyCompare_ok (k1 k2 : K) : keyCompare k1 k2 = bool_decide (k1 = k2);
  hash_range (k : K) : inU 64 (hashFunction k)
}.

(** ** Sizes and masks *)

Lemma size_pow e : 0 <= e < 64 -> DICTHT_SIZE e = 2 ^ e.
Proof.
  intros He. unfold DICTHT_SIZE. destruct (Z.eqb_spec e (-1)); [lia|].
  rewrite Z.shiftl_1_l. apply wrapU_id. unfold inU. pose proof (Z.pow_pos_nonneg 2 e).
  pose proof (Z.pow_lt_mono_r 2 e 64). lia.
Qed.

Lemma mask_land e x : 0 <= e < 64 -> Z.land x (DICTHT_SIZE_MASK e) = x mod 2 ^ e.
Proof.
  intros He. unfold DICTHT_SIZE_MASK. destruct (Z.eqb_spec e (-1)); [lia|].
  rewrite size_pow by done. pose proof (Z.pow_pos_nonneg 2 e). pose proof (Z.pow_lt_mono_r 2 e 64).
  rewrite wrapU_id by (unfold inU; lia).
  replace (2 ^ e - 1) with (Z.ones e) by (rewrite Z.ones_equiv; lia). apply Z.land_ones. lia.
Qed.

Lemma next_exp_range size : 0 < size -> 2 <= _dictNextExp size <= 63.
Proof.
  intros Hs. unfold _dictNextExp, DICT_HT_INITIAL_SIZE, DICT_HT_INITIAL_EXP, clzl. rewrite Z.shiftl_1_l.
  destruct (Z.leb_spec size (2 ^ 2)); [lia|]. rewrite Z.geb_leb.
  destruct (Z.leb_spec INT64_MAX size); [lia|].
  assert (2 <= Z.log2 (size - 1)) by (apply Z.log2_le_pow2; lia).
  assert (Z.log2 (size - 1) < 63) by (apply Z.log2_lt_pow2; lia). lia.
Qed.

(** ** Entries *)

Section entries.
Context {SK K V : Type} `{EqDecision K, !Countable K} {T : dictType SK K V}.

#[local] Abbreviation chain := (chain SK V).
#[local] Abbreviation htab := (htab SK V).
#[local] Abbreviation dict := (dict SK V).

Definition ekey (e : SK * option V) : K := keyFromStoredKey (fst e).

Definition tbl_entries (l : list chain) : list (SK * option V) := l ≫= entries.
Definition ht_entries (h : htab) : list (SK * option V) := tbl_entries (ht_table h).
Definition elements (d : dict) : list (SK * option V) := ht_entries (ht0 d) ++ ht_entries (ht1 d).

(** A dict of keys has no entries with a value, the others no other entries. *)
Fixpoint chain_kind (c : chain) : Prop :=
  match c with
  | Null => True
  | KeyPtr _ => no_value = true
  | EntryNoValue _ next => no_value = true /\ chain_kind next
  | Entry _ _ next => no_value = false /\ chain_kind next
  end.

Lemma insert_entries (l : list chain) i c c' :
  l !! i = Some c -> tbl_entries (<[i := c']> l) ++ entries c ≡ₚ tbl_entries l ++ entries c'.
Proof.
  intros Hi. rewrite <- (take_drop_middle l i c Hi) at 2.
  rewrite (insert_take_drop _ _ _ (lookup_lt_Some _ _ _ Hi)).
  unfold tbl_entries. rewrite !bind_app, !bind_cons. solve_Permutation.
Qed.

Lemma tbl_entries_elem (l : list chain) e :
  e ∈ tbl_entries l <-> exists i c, l !! i = Some c /\ e ∈ entries c.
Proof.
  unfold tbl_entries. rewrite list_elem_of_bind. split.
  - intros (c & He & Hc). apply list_elem_of_lookup in Hc as [i Hi]. eauto.
  - intros (i & c & Hi & He). exists c. split; [done|]. by eapply list_elem_of_lookup_2.
Qed.

Lemma entries_length (c : chain) : length (entries c) = chain_length c.
Proof. induction c; simpl; congruence. Qed.

Lemma entries_nil (c : chain) : entries c = [] <-> c = Null.
Proof. by destruct c. Qed.

Lemma tbl_entries_replicate n : tbl_entries (replicate n Null) = [].
Proof. induction n as [|n IH]; [done|]. exact IH. Qed.

Lemma tbl_entries_nil (l : list chain) i c : tbl_entries l = [] -> l !! i = Some c -> c = Null.
Proof.
  intros Hl Hi. apply entries_nil. destruct (entries c) as [|e es] eqn:E; [done|].
  assert (e ∈ tbl_entries l) as He; [|rewrite Hl in He; by apply elem_of_nil in He].
  apply tbl_entries_elem. exists i, c. rewrite E. split; [done|constructor].
Qed.

(** ** The invariant *)

(** A table that was never made, or a power of two of buckets, each entry in
    the bucket of its hash *)
Record ht_wf (h : htab) : Prop := {
  ht_shape : ht_size_exp h = -1 /\ ht_table h = [] \/
    2 <= ht_size_exp h <= 60 /\ Z.of_nat (length (ht_table h)) = 2 ^ ht_size_exp h;
  ht_place i c e : ht_table h !! i = Some c -> e ∈ entries c ->
    Z.land (hashFunction (ekey e)) (DICTHT_SIZE_MASK (ht_size_exp h)) = Z.of_nat i;
  ht_kind c : c ∈ ht_table h -> chain_kind c
}.

Definition counted (h : htab) : Prop := ht_used h = Z.of_nat (length (ht_entries h)).

(** The sum of the changes in the number of buckets that were reported *)
Fixpoint bucket_sum (l : list callback) : Z :=
  match l with
  | [] => 0
  | bucketChanged n :: l => n + bucket_sum l
  | _ :: l => bucket_sum l
  end.

Lemma bucket_sum_app l1 l2 : bucket_sum (l1 ++ l2) = bucket_sum l1 + bucket_sum l2.
Proof. induction l1 as [|[] l1 IH]; simpl; lia. Qed.

(** The most entries a dict is used with *)
Definition DICT_LIMIT : Z := 2 ^ 62.

(** Rehashing is over, or both tables are there, of different sizes, and the
    buckets before [rehashidx] are empty. *)
Definition rehash_wf (d : dict) : Prop :=
  rehashidx d = -1 /\ ht1 d = mkHt [] 0 (-1) \/
  0 <= rehashidx d <= DICTHT_SIZE (dict_exp d false) /\
  dict_exp d false <> -1 /\ dict_exp d true <> -1 /\ dict_exp d false <> dict_exp d true /\
  forall i c, Z.of_nat i < rehashidx d -> ht_table (ht0 d) !! i = Some c -> c = Null.

Record dict_wf (d : dict) : Prop := {
  wf_ht0 : ht_wf (ht0 d);
  wf_ht1 : ht_wf (ht1 d);
  wf_count0 : counted (ht0 d);
  wf_count1 : counted (ht1 d);
  wf_rehash : rehash_wf d;
  wf_nodup : NoDup (ekey <$> elements d);
  wf_limit : Z.of_nat (length (elements d)) <= DICT_LIMIT;
  wf_calls : bucket_sum (calls d) = DICTHT_SIZE (dict_exp d false) + DICTHT_SIZE (dict_exp d true);
  wf_pause : 0 <= pauserehash d
}.

(** The finite map of the entries *)
Definition dict_map (d : dict) : gmap K (SK * option V) :=
  list_to_map ((fun e => (ekey e, e)) <$> elements d).

Definition dict_repr (d : dict) (m : gmap K (SK * option V)) : Prop := dict_wf d /\ dict_map d = m.

Lemma keys_fst (l : list (SK * option V)) :
  ((fun e => (ekey e, e)) <$> l).*1 = ekey <$> l.
Proof. induction l as [|e l IH]; [done|]. simpl. by f_equal. Qed.

Lemma dict_map_lookup d k e :
  NoDup (ekey <$> elements d) -> dict_map d !! k = Some e <-> e ∈ elements d /\ ekey e = k.
Proof.
  intros Hn. unfold dict_map. rewrite <- elem_of_list_to_map by by rewrite keys_fst.
  rewrite list_elem_of_fmap. naive_solver.
Qed.

Lemma dict_map_perm d d' :
  NoDup (ekey <$> elements d) -> elements d' ≡ₚ elements d -> dict_map d' = dict_map d.
Proof.
  intros Hn Hp. unfold dict_map. apply list_to_map_proper; [|by apply fmap_Permutation].
  rewrite keys_fst. by rewrite Hp.
Qed.

Lemma dict_map_cons d d' e :
  NoDup (ekey <$> elements d') -> elements d' ≡ₚ e :: elements d ->
  dict_map d' = <[ekey e := e]> (dict_map d).
Proof.
  intros Hn Hp. unfold dict_map.
  rewrite (list_to_map_proper _ ((fun e => (ekey e, e)) <$> (e :: elements d))); [done| |].
  - by rewrite keys_fst.
  - by apply fmap_Permutation.
Qed.

Lemma dict_map_none d k :
  dict_map d !! k = None <-> k ∉ (ekey <$> elements d).
Proof. unfold dict_map. by rewrite <- not_elem_of_list_to_map, keys_fst. Qed.

End entries.

(** ** Buckets *)

Section buckets.
Context {SK K V : Type} `{EqDecision K, !Countable K} {T : dictType SK K V} {L : dictTypeLaws SK K V T}.

#[local] Abbreviation chain := (chain SK V).
#[local] Abbreviation htab := (htab SK V).
#[local] Abbreviation dict := (dict SK V).

#[local] Arguments tbl_entries : simpl never.

Implicit Types (d : dict) (h : htab) (c de : chain) (t : bool) (k : K) (e : SK * option V).

(** The bucket of a key *)
Definition slot (h : htab) (k : K) : Z :=
  Z.land (hashFunction k) (DICTHT_SIZE_MASK (ht_size_exp h)).

Lemma slot_mod h k : ht_wf h -> ht_size_exp h <> -1 -> slot h k = hashFunction k mod 2 ^ ht_size_exp h.
Proof. intros [[[? _]|[? _]] _ _] He; [done|]. apply mask_land. lia. Qed.

Lemma slot_bucket h k :
  ht_wf h -> ht_size_exp h <> -1 -> exists i c, slot h k = Z.of_nat i /\ ht_table h !! i = Some c.
Proof.
  intros Hwf He. pose proof (slot_mod h k Hwf He) as Hs. destruct Hwf as [[[? _]|[He' Hl]] _ _]; [done|].
  pose proof (Z.mod_pos_bound (hashFunction k) (2 ^ ht_size_exp h)) as Hm.
  pose proof (Z.pow_pos_nonneg 2 (ht_size_exp h)). exists (Z.to_nat (slot h k)).
  destruct (lookup_lt_is_Some_2 (ht_table h) (Z.to_nat (slot h k))) as [c Hc]; [lia|].
  exists c. split; [lia|done].
Qed.

Lemma slot_mask h k : ht_wf h -> ht_size_exp h <> -1 -> slot h k <= DICTHT_SIZE_MASK (ht_size_exp h).
Proof.
  intros Hwf He. rewrite slot_mod by done. destruct Hwf as [[[? _]|[He' _]] _ _]; [done|].
  unfold DICTHT_SIZE_MASK. destruct (Z.eqb_spec (ht_size_exp h) (-1)); [done|]. rewrite size_pow by lia.
  pose proof (Z.mod_pos_bound (hashFunction k) (2 ^ ht_size_exp h)).
  pose proof (Z.pow_pos_nonneg 2 (ht_size_exp h)). pose proof (Z.pow_lt_mono_r 2 (ht_size_exp h) 64).
  rewrite wrapU_id by (unfold inU; lia). lia.
Qed.

Lemma bucket_nat d t i : bucket d t (Z.of_nat i) = ht_table (ht d t) !! i.
Proof. unfold bucket. destruct (Z.ltb_spec (Z.of_nat i) 0); [lia|]. by rewrite Nat2Z.id. Qed.

Lemma set_bucket_nat d t i c c' :
  ht_table (ht d t) !! i = Some c ->
  set_bucket d t (Z.of_nat i) c' =
    Some (set_ht d t (mkHt (<[i := c']> (ht_table (ht d t))) (used d t) (dict_exp d t))).
Proof. intros Hi. unfold set_bucket. rewrite bucket_nat, Hi. mstep. by rewrite Nat2Z.id. Qed.

Lemma ht_wf_insert h i c n :
  ht_wf h -> chain_kind c ->
  (forall e, e ∈ entries c -> slot h (ekey e) = Z.of_nat i) ->
  ht_wf (mkHt (<[i := c]> (ht_table h)) n (ht_size_exp h)).
Proof.
  intros [Hsh Hpl Hki] Hk He. split; cbn [ht_table ht_size_exp].
  - rewrite length_insert. destruct Hsh as [[? ->]|?]; [left|right]; auto.
  - intros j c' e Hj Hin. apply list_lookup_insert_Some in Hj as [(-> & -> & _)|[_ Hj]]; [by apply He|].
    by eapply Hpl.
  - intros c' (j & Hj)%list_elem_of_lookup.
    apply list_lookup_insert_Some in Hj as [(-> & -> & _)|[_ Hj]]; [done|].
    apply Hki. by eapply list_elem_of_lookup_2.
Qed.

(** The contents of a table after a write to a bucket *)
Lemma ht_entries_put h i c c' e :
  ht_table h !! i = Some c -> entries c' ≡ₚ e :: entries c ->
  tbl_entries (<[i := c']> (ht_table h)) ≡ₚ e :: ht_entries h.
Proof.
  intros Hi Hp. apply (Permutation_app_inv_r (entries c)). rewrite insert_entries, Hp by done.
  solve_Permutation.
Qed.

Lemma chain_kind_next de : chain_kind de -> chain_kind (dictGetNext de).
Proof. by destruct de; simpl; try tauto. Qed.

Lemma bucket_kind h i c : ht_wf h -> ht_table h !! i = Some c -> chain_kind c.
Proof. intros Hwf Hi. apply (ht_kind _ Hwf). by eapply list_elem_of_lookup_2. Qed.

Lemma bucket_place h i c e : ht_wf h -> ht_table h !! i = Some c -> e ∈ entries c -> slot h (ekey e) = Z.of_nat i.
Proof. intros Hwf. apply (ht_place _ Hwf). Qed.

(** ** Moving entries *)

(** The entry that [rehash_entry] makes of an entry, in front of a bucket *)
Lemma moved_entry de dst e :
  chain_kind de -> chain_kind dst -> entries de = e :: entries (dictGetNext de) ->
  exists c', (if no_value then
          match dst with
          | Null => Some (KeyPtr (fst e))
          | _ => if entryIsKey de then Some (EntryNoValue (fst e) dst) else dictSetNext de dst
          end
        else dictSetNext de dst) = Some c' /\ entries c' = e :: entries dst /\ chain_kind c'.
Proof.
  intros Hk Hd He. destruct de as [|sk|sk next|sk v next]; cbn in Hk, He; simplify_eq.
  - rewrite Hk. destruct dst; eexists; (split; [reflexivity|]); cbn; auto.
  - destruct Hk as [Hnv Hk]. rewrite Hnv. destruct dst; eexists; (split; [reflexivity|]); cbn; auto.
  - destruct Hk as [Hnv Hk]. rewrite Hnv. eexists. split; [reflexivity|]. cbn. auto.
Qed.

(** The slot computed when a table shrinks is the one of the hash. *)
Lemma shrunk_slot d k :
  ht_wf (ht0 d) -> ht_wf (ht1 d) -> dict_exp d false <> -1 -> dict_exp d true <> -1 ->
  (if dict_exp d true >? dict_exp d false then
     Z.land (hashFunction k) (DICTHT_SIZE_MASK (dict_exp d true))
   else Z.land (slot (ht0 d) k) (DICTHT_SIZE_MASK (dict_exp d true))) = slot (ht1 d) k.
Proof.
  intros H0 H1 He0 He1. rewrite Z.gtb_ltb. unfold dict_exp, ht in *.
  destruct (Z.ltb_spec (ht_size_exp (ht0 d)) (ht_size_exp (ht1 d))) as [Hlt|Hge]; [done|].
  rewrite !slot_mod by done. destruct (ht_shape _ H1) as [[? _]|[He1' _]]; [done|].
  rewrite mask_land by lia.
  replace (2 ^ ht_size_exp (ht0 d))
    with (2 ^ ht_size_exp (ht1 d) * 2 ^ (ht_size_exp (ht0 d) - ht_size_exp (ht1 d)))
    by (rewrite <- Z.pow_add_r by lia; f_equal; lia).
  pose proof (Z.pow_pos_nonneg 2 (ht_size_exp (ht1 d))).
  pose proof (Z.pow_pos_nonneg 2 (ht_size_exp (ht0 d) - ht_size_exp (ht1 d))).
  rewrite Z.rem_mul_r by lia. rewrite (Z.mul_comm (2 ^ ht_size_exp (ht1 d))), Z.mod_add by lia.
  apply Z.mod_mod. lia.
Qed.

(** [d] with one table changed and [n] entries less in the other *)
Definition moved (d : dict) (n : Z) (h1 : htab) : dict :=
  mkDict (mkHt (ht_table (ht0 d)) (used d false - n) (dict_exp d false)) h1
    (rehashidx d) (pauserehash d) (pauseAutoResize d) (calls d).

Lemma rehash_entry_ok d de e :
  entries de = e :: entries (dictGetNext de) -> chain_kind de ->
  ht_wf (ht0 d) -> ht_wf (ht1 d) -> dict_exp d false <> -1 -> dict_exp d true <> -1 ->
  0 < used d false < 2 ^ 64 -> 0 <= used d true < 2 ^ 64 - 1 ->
  exists h1, rehash_entry d (slot (ht0 d) (ekey e)) de = Some (moved d 1 h1) /\
    ht_wf h1 /\ ht_size_exp h1 = dict_exp d true /\ ht_entries h1 ≡ₚ e :: ht_entries (ht1 d) /\
    ht_used h1 = used d true + 1.
Proof.
  intros He Hk H0 H1 He0 He1 Hu0 Hu1. unfold rehash_entry.
  replace (dictGetKey de) with (Some (fst e)) by (destruct de; cbn in He; simplify_eq; done).
  mstep. change (keyFromStoredKey e.1) with (ekey e). rewrite (shrunk_slot d (ekey e)) by done.
  destruct (slot_bucket (ht1 d) (ekey e) H1 He1) as (i & c & Hi & Hc). rewrite Hi, bucket_nat.
  change (ht d true) with (ht1 d). rewrite Hc. mstep.
  destruct (moved_entry de c e Hk (bucket_kind _ _ _ H1 Hc) He) as (c' & -> & Hc' & Hk').
  mstep. rewrite (set_bucket_nat d true i c c') by done. mstep.
  unfold set_used, set_ht, used, dict_exp, ht in *. cbn.
  rewrite !wrapU_id by (unfold inU; lia).
  eexists. split; [reflexivity|]. cbn. split_and!; [|done|apply (ht_entries_put _ _ c); [done|by rewrite Hc']|done].
  apply ht_wf_insert; [done|done|]. rewrite Hc'. intros e'. rewrite elem_of_cons.
  intros [->|Hin]; [done|]. by eapply bucket_place.
Qed.
Lemma ht_wf_used h n : ht_wf h -> ht_wf (mkHt (ht_table h) n (ht_size_exp h)).
Proof. intros [Hsh Hpl Hki]. by split. Qed.

(** What a chain needs to be moved, and what moving it does *)
Record movable d idx c : Prop := {
  mv_kind : chain_kind c;
  mv_slot e : e ∈ entries c -> slot (ht0 d) (ekey e) = idx;
  mv_ht0 : ht_wf (ht0 d);
  mv_ht1 : ht_wf (ht1 d);
  mv_exp0 : dict_exp d false <> -1;
  mv_exp1 : dict_exp d true <> -1;
  mv_used0 : Z.of_nat (length (entries c)) <= used d false < 2 ^ 64;
  mv_used1 : 0 <= used d true < 2 ^ 64 - Z.of_nat (length (entries c))
}.

Definition chain_moves d idx c : Prop :=
  exists h1, rehash_chain d idx c = Some (moved d (Z.of_nat (length (entries c))) h1) /\
    ht_wf h1 /\ ht_size_exp h1 = dict_exp d true /\
    ht_entries h1 ≡ₚ entries c ++ ht_entries (ht1 d) /\
    ht_used h1 = used d true + Z.of_nat (length (entries c)).

Lemma moved_moved d n1 n2 h1 h2 : moved (moved d n1 h1) n2 h2 = moved d (n1 + n2) h2.
Proof. unfold moved, used, dict_exp. cbn. do 2 f_equal. lia. Qed.

Lemma rehash_chain_cons d idx de next e :
  rehash_chain d idx de = (d ← rehash_entry d idx de; rehash_chain d idx next) ->
  entries de = e :: entries next -> dictGetNext de = next -> movable d idx de ->
  (forall d', movable d' idx next -> chain_moves d' idx next) -> chain_moves d idx de.
Proof.
  intros Hrc He Hn [Hk Hs H0 H1 He0 He1 Hu0 Hu1] IH. rewrite He in Hu0, Hu1. cbn [length] in Hu0, Hu1.
  assert (Hse : slot (ht0 d) (ekey e) = idx) by (apply Hs; rewrite He; constructor).
  destruct (rehash_entry_ok d de e) as (h1 & Hr & Hw1 & Hx1 & Hp1 & Hc1); [by rewrite Hn|done..|lia|lia|].
  rewrite Hse in Hr.
  destruct (IH (moved d 1 h1)) as (h2 & Hr2 & Hw2 & Hx2 & Hp2 & Hc2).
  { unfold used, dict_exp in *. cbn [ht] in *. split; unfold used, dict_exp; cbn [ht moved ht0 ht1 ht_used].
    - rewrite <- Hn. by apply chain_kind_next.
    - intros e' He'. apply Hs. rewrite He. by right.
    - by apply ht_wf_used.
    - done.
    - done.
    - by rewrite Hx1.
    - unfold used. cbn [ht]. lia.
    - lia. }
  exists h2. unfold chain_moves. rewrite Hrc, Hr. mstep. rewrite Hr2, moved_moved, He.
  unfold used, dict_exp in *. cbn in Hx2, Hp2, Hc2. cbn [length]. split_and!; [|done|congruence| |lia].
  - do 2 f_equal. lia.
  - rewrite Hp2, Hp1. solve_Permutation.
Qed.

Lemma rehash_chain_ok d idx c : movable d idx c -> chain_moves d idx c.
Proof.
  revert d. induction c as [|sk|sk next IH|sk v next IH]; intros d Hm.
  - exists (ht1 d). cbn. split_and!; [|apply Hm|done|done|unfold used; cbn; lia].
    destruct d as [[] ? ? ? ? ?]. unfold moved, used, dict_exp. cbn. by rewrite Z.sub_0_r.
  - apply (rehash_chain_cons _ _ _ Null (sk, None)); try done.
    + cbn [rehash_chain]. by destruct (rehash_entry d idx (KeyPtr sk)).
    + intros d' [_ _ _ Hw _ _ _ _]. exists (ht1 d'). cbn. split_and!; [|done..|unfold used; cbn; lia].
      destruct d' as [[] ? ? ? ? ?]. unfold moved, used, dict_exp. cbn. by rewrite Z.sub_0_r.
  - by apply (rehash_chain_cons _ _ _ next (sk, None)).
  - by apply (rehash_chain_cons _ _ _ next (sk, v)).
Qed.
(** ** Steps of rehashing *)

Lemma dict_wf_perm d d' :
  dict_wf d -> elements d' ≡ₚ elements d ->
  ht_wf (ht0 d') -> ht_wf (ht1 d') -> counted (ht0 d') -> counted (ht1 d') -> rehash_wf d' ->
  bucket_sum (calls d') = DICTHT_SIZE (dict_exp d' false) + DICTHT_SIZE (dict_exp d' true) ->
  0 <= pauserehash d' -> dict_wf d'.
Proof.
  intros [_ _ _ _ _ Hn Hl _ _] Hp. intros. split; try done.
  - by rewrite Hp.
  - by rewrite Hp.
Qed.

(** The state of a step: still the same contents, and what it leaves alone *)
Record step_ok d d' : Prop := {
  so_wf : dict_wf d';
  so_elements : elements d' ≡ₚ elements d;
  so_pause : pauserehash d' = pauserehash d;
  so_auto : pauseAutoResize d' = pauseAutoResize d;
  so_made : dict_exp d false <> -1 -> dict_exp d' false <> -1
}.

Lemma step_refl d : dict_wf d -> step_ok d d.
Proof. intros. by split. Qed.

Lemma step_trans d1 d2 d3 : step_ok d1 d2 -> step_ok d2 d3 -> step_ok d1 d3.
Proof. intros [] []. split; [done|by etrans|congruence|congruence|auto]. Qed.

Lemma rehashing_wf d :
  dict_wf d -> dictIsRehashing d = true ->
  0 <= rehashidx d <= DICTHT_SIZE (dict_exp d false) /\
  dict_exp d false <> -1 /\ dict_exp d true <> -1 /\ dict_exp d false <> dict_exp d true /\
  forall i c, Z.of_nat i < rehashidx d -> ht_table (ht0 d) !! i = Some c -> c = Null.
Proof.
  intros Hwf Hr. unfold dictIsRehashing in Hr. zbool. by destruct (wf_rehash _ Hwf) as [[? _]|?].
Qed.

Lemma used_length d t : dict_wf d -> used d t = Z.of_nat (length (ht_entries (ht d t))).
Proof. intros Hwf. destruct t; [apply (wf_count1 _ Hwf)|apply (wf_count0 _ Hwf)]. Qed.

Lemma used_sum d : dict_wf d ->
  0 <= used d false /\ 0 <= used d true /\ used d false + used d true = Z.of_nat (length (elements d)) /\
  Z.of_nat (length (elements d)) <= DICT_LIMIT.
Proof.
  intros Hwf. rewrite !used_length by done. unfold elements. rewrite length_app. cbn [ht].
  pose proof (wf_limit _ Hwf) as Hl. unfold elements in Hl. rewrite length_app in Hl. lia.
Qed.

Lemma bucket_entries_length h i c :
  ht_table h !! i = Some c -> (length (entries c) <= length (ht_entries h))%nat.
Proof.
  intros Hi. unfold ht_entries, tbl_entries. rewrite <- (take_drop_middle _ _ _ Hi) at 1.
  rewrite bind_app, bind_cons, !length_app. lia.
Qed.

Lemma rehashEntries_ok d i c :
  dict_wf d -> dictIsRehashing d = true -> ht_table (ht0 d) !! i = Some c ->
  exists d', rehashEntriesInBucketAtIndex d (Z.of_nat i) = Some d' /\ step_ok d d' /\
    rehashidx d' = rehashidx d /\ ht_table (ht0 d') = <[i := Null]> (ht_table (ht0 d)) /\
    dict_exp d' false = dict_exp d false /\ dict_exp d' true = dict_exp d true.
Proof.
  intros Hwf Hr Hi. destruct (rehashing_wf d Hwf Hr) as (Hidx & He0 & He1 & Hne & Hnull).
  pose proof (used_sum d Hwf) as (Hu0 & Hu1 & Hsum & Hlim). unfold DICT_LIMIT in Hlim.
  pose proof (bucket_entries_length _ _ _ Hi) as Hlen.
  assert (Hl0 : Z.of_nat (length (entries c)) <= used d false) by (rewrite used_length by done; cbn [ht]; lia).
  unfold rehashEntriesInBucketAtIndex. rewrite bucket_nat. cbn [ht]. rewrite Hi. mstep.
  destruct (rehash_chain_ok d (Z.of_nat i) c) as (h1 & -> & Hw1 & Hx1 & Hp1 & Hc1).
  { split.
    - by eapply bucket_kind, Hi; apply Hwf.
    - intros e He. by eapply bucket_place; [apply Hwf|..].
    - apply Hwf.
    - apply Hwf.
    - done.
    - done.
    - zpow. lia.
    - zpow. lia. }
  mstep. rewrite (set_bucket_nat _ false i c Null) by done.
  assert (Hp0 : tbl_entries (<[i := Null]> (ht_table (ht0 d))) ++ entries c ≡ₚ ht_entries (ht0 d)).
  { rewrite insert_entries by done. by rewrite app_nil_r. }
  eexists. split; [reflexivity|]. split; [split; [|..]|split_and!; done]; [|cbn|done|done|done].
  2: { unfold elements. cbn. unfold ht_entries at 1. cbn. rewrite Hp1, <- Hp0. solve_Permutation. }
  assert (Hper : forall x, elements (set_ht (moved d x h1) false
      (mkHt (<[i := Null]> (ht_table (ht0 d))) (used d false - x) (dict_exp d false))) ≡ₚ elements d).
  { intros x. unfold elements. cbn. unfold ht_entries at 1. cbn. rewrite Hp1, <- Hp0. solve_Permutation. }
  eapply dict_wf_perm; [exact Hwf|apply Hper|..]; cbn.
  - by apply ht_wf_insert; [apply Hwf| |intros e He; by apply elem_of_nil in He].
  - done.
  - apply Permutation_length in Hp0. rewrite length_app in Hp0. pose proof (wf_count0 _ Hwf) as Hc0.
    unfold counted, used, ht_entries in *. cbn [ht_used ht_table ht0 set_ht moved]. unfold used. cbn [ht]. lia.
  - pose proof (wf_count1 _ Hwf) as Hcn. unfold counted, used in *. cbn [ht] in *.
    rewrite Hp1, length_app, Hc1. lia.
  - right. unfold dict_exp. cbn [ht ht0 ht1 set_ht moved ht_size_exp rehashidx]. rewrite Hx1.
    split; [done|]. split; [done|]. split; [done|]. split; [done|].
    intros j c' Hj Hl. apply list_lookup_insert_Some in Hl as [(_ & <- & _)|[_ Hl]]; [done|by eapply Hnull].
  - unfold dict_exp. cbn. rewrite Hx1. apply Hwf.
  - apply Hwf.
Qed.
Lemma ht_wf_reset : ht_wf (mkHt [] 0 (-1) : htab).
Proof.
  split; cbn; [by left|done|]. intros c Hc. by apply elem_of_nil in Hc.
Qed.

Lemma counted_reset n : counted (mkHt [] 0 n : htab).
Proof. done. Qed.

Lemma used_zero d : dict_wf d -> used d false = 0 -> ht_entries (ht0 d) = [].
Proof.
  intros Hwf Hu. rewrite used_length in Hu by done. cbn [ht] in Hu.
  destruct (ht_entries (ht0 d)); [done|]. cbn [length] in Hu. lia.
Qed.

Lemma completed_ok d :
  dict_wf d -> dictIsRehashing d = true ->
  exists b d', dictCheckRehashingCompleted d = (b, d') /\ step_ok d d' /\
    (if b then dictIsRehashing d' = false else d' = d).
Proof.
  intros Hwf Hr. unfold dictCheckRehashingCompleted.
  destruct (Z.eqb_spec (used d false) 0) as [Hu|Hu]; cbn [negb];
    [|exists false, d; split_and!; [done|by apply step_refl|done]].
  pose proof (used_zero d Hwf Hu) as He.
  assert (Hp : elements d ≡ₚ ht_entries (ht1 d)) by (unfold elements; by rewrite He).
  eexists true, _. split; [reflexivity|]. split; [|done]. split; [|by cbn; rewrite Hp; unfold elements; cbn; rewrite app_nil_r|done|done|].
  2: { intros _. by destruct (rehashing_wf d Hwf Hr) as (_ & _ & ? & _). }
  eapply dict_wf_perm; [exact Hwf|by cbn; rewrite Hp; unfold elements; cbn; rewrite app_nil_r|..]; cbn.
  - apply Hwf.
  - apply ht_wf_reset.
  - apply Hwf.
  - apply counted_reset.
  - by left.
  - rewrite !bucket_sum_app, (wf_calls _ Hwf). unfold dict_exp. cbn -[DICTHT_SIZE]. change (DICTHT_SIZE (-1)) with 0. lia.
  - apply Hwf.
Qed.

(** There is a bucket to move as long as the first table has entries. *)
Lemma exists_bucket d :
  dict_wf d -> dictIsRehashing d = true -> used d false <> 0 ->
  exists i c, ht_table (ht0 d) !! i = Some c /\ c <> Null /\ rehashidx d <= Z.of_nat i.
Proof.
  intros Hwf Hr Hu. destruct (rehashing_wf d Hwf Hr) as (_ & _ & _ & _ & Hnull).
  rewrite used_length in Hu by done. cbn [ht] in Hu.
  destruct (ht_entries (ht0 d)) as [|e es] eqn:E; [done|].
  assert (He : e ∈ tbl_entries (ht_table (ht0 d))) by (unfold ht_entries in E; rewrite E; constructor).
  apply tbl_entries_elem in He as (i & c & Hi & Hin). exists i, c.
  assert (c <> Null) by (intros ->; by apply elem_of_nil in Hin). split_and!; [done|done|].
  destruct (Z.le_gt_cases (rehashidx d) (Z.of_nat i)); [done|]. by rewrite (Hnull i c) in *.
Qed.

Lemma table_size d t : dict_wf d -> dict_exp d t <> -1 -> Z.of_nat (length (ht_table (ht d t))) = DICTHT_SIZE (dict_exp d t).
Proof.
  intros Hwf He. assert (Hw : ht_wf (ht d t)) by (destruct t; apply Hwf). unfold dict_exp in *.
  destruct (ht_shape _ Hw) as [[? _]|[? ->]]; [done|]. by rewrite size_pow by lia.
Qed.

Lemma set_rehashidx_wf d j :
  dict_wf d -> dictIsRehashing d = true -> 0 <= j <= DICTHT_SIZE (dict_exp d false) ->
  (forall i c, Z.of_nat i < j -> ht_table (ht0 d) !! i = Some c -> c = Null) ->
  step_ok d (set_rehashidx d j) /\ dictIsRehashing (set_rehashidx d j) = true.
Proof.
  intros Hwf Hr Hj Hnull. destruct (rehashing_wf d Hwf Hr) as (_ & He0 & He1 & Hne & _).
  split; [|unfold dictIsRehashing; cbn; by destruct (Z.eqb_spec j (-1)); [lia|]].
  split; [|done..]. destruct Hwf. split; try done. by right.
Qed.

(** One turn of the loop over the empty buckets *)
Lemma skip_empty_turn ev d :
  dict_wf d -> dictIsRehashing d = true -> rehashidx d < DICTHT_SIZE (dict_exp d false) ->
  exists b, ht_table (ht0 d) !! Z.to_nat (rehashidx d) = Some b /\
    (b <> Null -> skip_empty (S ev) d = Some (d, S ev, false)) /\
    (b = Null -> skip_empty (S ev) d =
       match ev with
       | O => Some (set_rehashidx d (rehashidx d + 1), O, true)
       | S _ => skip_empty ev (set_rehashidx d (rehashidx d + 1))
       end).
Proof.
  intros Hwf Hr Hlt. pose proof (rehashing_wf d Hwf Hr) as (Hidx & He0 & _).
  pose proof (table_size d false Hwf He0) as Hsz. cbn [ht] in Hsz.
  destruct (lookup_lt_is_Some_2 (ht_table (ht0 d)) (Z.to_nat (rehashidx d))) as [b Hb]; [lia|].
  exists b. assert (Hbk : bucket d false (rehashidx d) = Some b).
  { rewrite <- (Z2Nat.id (rehashidx d)) by lia. by rewrite bucket_nat. }
  split; [done|]. cbn [skip_empty]. rewrite Hbk. mstep. split.
  - by destruct b.
  - by intros ->.
Qed.

Lemma skip_empty_ok ev d i c :
  dict_wf d -> dictIsRehashing d = true ->
  ht_table (ht0 d) !! i = Some c -> c <> Null -> rehashidx d <= Z.of_nat i ->
  exists j ev' stop, skip_empty (S ev) d = Some (set_rehashidx d j, ev', stop) /\
    rehashidx d <= j <= Z.of_nat i /\
    (forall i c, Z.of_nat i < j -> ht_table (ht0 d) !! i = Some c -> c = Null) /\
    (if stop then rehashidx d < j
     else (exists c, ht_table (ht0 d) !! Z.to_nat j = Some c /\ c <> Null) /\ exists n, ev' = S n).
Proof.
  revert d. induction ev as [|ev IH]; intros d Hwf Hr Hi Hc Hle;
    pose proof (rehashing_wf d Hwf Hr) as (Hidx & He0 & _ & _ & Hnull);
    pose proof (table_size d false Hwf He0) as Hsz; cbn [ht] in Hsz;
    pose proof (lookup_lt_Some _ _ _ Hi) as Hlt.
  all: match goal with |- context [skip_empty (S ?n) ?x] =>
      destruct (skip_empty_turn n x Hwf Hr) as (b & Hb & Hsome & Hnone); [lia|] end.
  all: destruct (entries b) as [|e es] eqn:Eb;
    [apply entries_nil in Eb as ->
    |rewrite Hsome by (by intros ->); exists (rehashidx d), (S (S ev)) || exists (rehashidx d), 1%nat;
     exists false; split_and!; [by destruct d|lia|lia|done|exists b; split; [done|by intros ->]|eauto]].
  all: rewrite Hnone by done.
  all: assert (Hi' : rehashidx d <> Z.of_nat i) by (intros Hi'; rewrite Hi', Nat2Z.id in Hb; congruence).
  all: assert (Hn : forall i c, Z.of_nat i < rehashidx d + 1 -> ht_table (ht0 d) !! i = Some c -> c = Null)
    by (intros i' c' Hi'' Hc'; destruct (decide (Z.of_nat i' < rehashidx d)) as [|Hge]; [by eapply Hnull|];
        replace i' with (Z.to_nat (rehashidx d)) in Hc' by lia; congruence).
  - exists (rehashidx d + 1), O, true. split_and!; [done|lia|lia|done|lia].
  - destruct (set_rehashidx_wf d (rehashidx d + 1) Hwf Hr) as [Hst Hr']; [lia|done|].
    destruct (IH (set_rehashidx d (rehashidx d + 1)) (so_wf _ _ Hst) Hr' Hi Hc) as (j & ev' & stop & Hsk & Hj & Hjn & Hst');
      [cbn; lia|].
    exists j, ev', stop. cbn in Hj. split_and!; [done|lia|lia|done|].
    destruct stop; [cbn in Hst'; lia|done].
Qed.
(** Moves made by the loop of [dictRehash] *)
Record loop_ok d d' : Prop := {
  lo_step : step_ok d d';
  lo_rehashing : dictIsRehashing d' = true;
  lo_exp t : dict_exp d' t = dict_exp d t;
  lo_idx : rehashidx d <= rehashidx d'
}.

Lemma loop_trans d1 d2 d3 : loop_ok d1 d2 -> loop_ok d2 d3 -> loop_ok d1 d3.
Proof. intros [] []. split; [by eapply step_trans|done|congruence|lia]. Qed.

(** Moving the bucket at [rehashidx] *)
Lemma move_bucket_ok d c :
  dict_wf d -> dictIsRehashing d = true -> ht_table (ht0 d) !! Z.to_nat (rehashidx d) = Some c ->
  exists d', rehashEntriesInBucketAtIndex d (rehashidx d) = Some d' /\
    loop_ok d (set_rehashidx d' (rehashidx d' + 1)) /\ rehashidx d' = rehashidx d.
Proof.
  intros Hwf Hr Hc. destruct (rehashing_wf d Hwf Hr) as (Hidx & He0 & _ & _ & Hnull).
  pose proof (table_size d false Hwf He0) as Hsz. cbn [ht] in Hsz. pose proof (lookup_lt_Some _ _ _ Hc) as Hlt.
  destruct (rehashEntries_ok d _ c Hwf Hr Hc) as (d' & Hd & Hst & Hri & Htb & Hex & Hex1).
  rewrite Z2Nat.id in Hd by lia. exists d'. split; [done|]. split; [|done].
  assert (Hr' : dictIsRehashing d' = true) by (unfold dictIsRehashing; by rewrite Hri).
  destruct (set_rehashidx_wf d' (rehashidx d' + 1) (so_wf _ _ Hst) Hr') as [Hst' Hr''].
  - rewrite Hex, Hri. lia.
  - rewrite Hri, Htb. intros i c' Hi Hl.
    apply list_lookup_insert_Some in Hl as [(_ & <- & _)|[Hne Hl]]; [done|]. apply (Hnull i); [lia|done].
  - split; [by eapply step_trans|done|intros [|]; done|cbn; lia].
Qed.

Lemma rehash_loop_ok n ev d :
  dict_wf d -> dictIsRehashing d = true ->
  exists d' stop, rehash_loop n (S ev) d = Some (d', stop) /\ loop_ok d d' /\
    (stop = true \/ n <> O /\ used d' false <> 0 -> rehashidx d < rehashidx d').
Proof.
  revert ev d. induction n as [|n IH]; intros ev d Hwf Hr; cbn [rehash_loop].
  { exists d, false. split; [done|]. split; [by split; [apply step_refl|..]|]. naive_solver. }
  destruct (Z.eqb_spec (used d false) 0) as [Hu|Hu].
  { exists d, false. split; [done|]. split; [by split; [apply step_refl|..]|]. naive_solver. }
  destruct (rehashing_wf d Hwf Hr) as (Hidx & He0 & _ & _ & Hnull).
  destruct (exists_bucket d Hwf Hr Hu) as (i & c & Hi & Hc & Hle).
  pose proof (table_size d false Hwf He0) as Hsz. cbn [ht] in Hsz. pose proof (lookup_lt_Some _ _ _ Hi) as Hlt.
  assert (Hs64 : DICTHT_SIZE (dict_exp d false) <= 2 ^ 64).
  { unfold DICTHT_SIZE. case_match; [zpow; lia|]. pose proof (wrapU_range 64 (Z.shiftl 1 (dict_exp d false))) as Hw.
    unfold inU in Hw. lia. }
  rewrite wrapU_id by (unfold inU; lia).
  replace (DICTHT_SIZE (dict_exp d false) >? rehashidx d) with true by (rewrite Z.gtb_ltb; symmetry; apply Z.ltb_lt; lia).
  cbn [cassert mbind option_bind].
  destruct (skip_empty_ok ev d i c Hwf Hr Hi Hc Hle) as (j & ev' & stop & -> & Hj & Hjn & Hst).
  destruct (set_rehashidx_wf d j Hwf Hr) as [Hstep Hr']; [lia|done|]. mstep.
  assert (Hlo : loop_ok d (set_rehashidx d j)) by (split; [done|done|done|cbn; lia]).
  destruct stop; [exists (set_rehashidx d j), true; split_and!; [done|done|cbn; lia]|].
  destruct Hst as [(c' & Hc' & _) (n' & ->)].
  destruct (move_bucket_ok (set_rehashidx d j) c' (so_wf _ _ Hstep) Hr' Hc') as (d2 & -> & Hlo2 & Hri2).
  mstep.
  destruct (IH n' _ (so_wf _ _ (lo_step _ _ Hlo2)) (lo_rehashing _ _ Hlo2)) as (d3 & stop & -> & Hlo3 & _).
  exists d3, stop. split; [done|]. split; [eapply loop_trans, loop_trans; done|]. intros _.
  pose proof (lo_idx _ _ Hlo3) as Hi3. cbn in Hi3, Hri2. lia.
Qed.
Context (g : dictResizeEnable).

(** The policy forbids the moves, or avoids them for the sizes of the tables. *)
Definition blocked d : bool := bool_decide (g = DICT_RESIZE_FORBID) || rehash_avoided g d.

Lemma blocked_exp d d' : (forall t, dict_exp d' t = dict_exp d t) -> blocked d' = blocked d.
Proof. intros He. unfold blocked, rehash_avoided. by rewrite !He. Qed.

Lemma dictRehash_ok d n :
  dict_wf d -> n <> O -> Z.of_nat n * 10 <= INT32_MAX ->
  exists more d', dictRehash g d n = Some (more, d') /\ step_ok d d' /\
    if (more : bool) then dictIsRehashing d' = true /\ (forall t, dict_exp d' t = dict_exp d t) /\
       rehashidx d < rehashidx d' /\ blocked d = false
    else dictIsRehashing d' = false \/ d' = d /\ blocked d = true.
Proof.
  intros Hwf Hn Hint. unfold dictRehash. rewrite (proj2 (Z.leb_le _ _) Hint). cbn [cassert]. mstep.
  destruct (dictIsRehashing d) eqn:Hr; cbn [negb];
    [|rewrite orb_true_r; exists false, d; split_and!; [done|by apply step_refl|by left]].
  rewrite orb_false_r. destruct (bool_decide _) eqn:Eb.
  { exists false, d. unfold blocked. rewrite Eb. split_and!; [done|by apply step_refl|by right]. }
  destruct (rehash_avoided g d) eqn:Ea.
  { exists false, d. unfold blocked. rewrite Eb, Ea. split_and!; [done|by apply step_refl|by right]. }
  replace (n * 10)%nat with (S (n * 10 - 1)) by lia.
  destruct (rehash_loop_ok n (n * 10 - 1) d Hwf Hr) as (d1 & stop & -> & Hlo & Hpr). mstep.
  assert (Hbl : blocked d = false) by (unfold blocked; by rewrite Eb, Ea).
  destruct stop.
  { exists true, d1. split; [done|]. split; [apply Hlo|]. split_and!; [apply Hlo..| |done]. apply Hpr. auto. }
  destruct (completed_ok d1 (so_wf _ _ (lo_step _ _ Hlo)) (lo_rehashing _ _ Hlo)) as (b & d2 & Heq & Hst & Hb).
  rewrite Heq. exists (negb b), d2. split; [done|].
  split; [eapply step_trans; [apply (lo_step _ _ Hlo)|done]|].
  destruct b; cbn [negb]; [by left|]. subst d2. split_and!; [apply Hlo..| |done]. apply Hpr. right. split; [done|].
  intros Hu. unfold dictCheckRehashingCompleted in Heq. rewrite Hu in Heq. done.
Qed.

(** A step that leaves the rehashing going does not change the first size. *)
Definition same_size d d' : Prop := dictIsRehashing d' = true -> dict_exp d' false = dict_exp d false.

Lemma rehash1_ok d :
  dict_wf d -> exists d', ('(_, d) ← dictRehash g d 1; Some d) = Some d' /\ step_ok d d' /\ same_size d d'.
Proof.
  intros Hwf. destruct (dictRehash_ok d 1 Hwf) as (more & d' & -> & Hst & Hm); [done..|]. exists d'.
  split_and!; [done|done|]. intros Hr. destruct more; [apply Hm|]. destruct Hm as [Hr'|[-> _]]; [congruence|done].
Qed.

Lemma bucketRehash_ok d i c :
  dict_wf d -> ht_table (ht0 d) !! i = Some c ->
  exists b d', _dictBucketRehash g d (Z.of_nat i) = Some (b, d') /\ step_ok d d' /\ same_size d d'.
Proof.
  intros Hwf Hi. assert (Hrefl : step_ok d d /\ same_size d d) by (split; [by apply step_refl|done]).
  unfold _dictBucketRehash. destruct (negb (_ =? _)); [by exists false, d|].
  destruct (dictIsRehashing d) eqn:Hr; cbn [negb]; [|rewrite orb_true_r; by exists false, d].
  destruct (bool_decide _); cbn [orb]; [by exists false, d|].
  destruct (rehash_avoided g d); [by exists false, d|].
  destruct (rehashEntries_ok d i c Hwf Hr Hi) as (d1 & -> & Hst & Hri & _ & Hex & _). mstep.
  destruct (completed_ok d1 (so_wf _ _ Hst)) as (b & d2 & -> & Hst2 & Hb);
    [unfold dictIsRehashing in *; by rewrite Hri|].
  exists true, d2. split; [done|]. split; [by eapply step_trans|]. intros Hr2. destruct b; [congruence|by subst].
Qed.

Lemma rehashStepIfNeeded_ok d k :
  dict_wf d ->
  exists d', _dictRehashStepIfNeeded g d (slot (ht0 d) k) = Some d' /\ step_ok d d' /\ same_size d d'.
Proof.
  intros Hwf. assert (Hrefl : step_ok d d /\ same_size d d) by (split; [by apply step_refl|done]).
  unfold _dictRehashStepIfNeeded. destruct (dictIsRehashing d) eqn:Hr; cbn [negb orb]; [|by exists d].
  destruct (negb _); [by exists d|]. destruct (rehashing_wf d Hwf Hr) as (_ & He0 & _).
  destruct (slot_bucket (ht0 d) k (wf_ht0 _ Hwf) He0) as (i & c & Hs & Hc).
  pose proof (rehash1_ok d Hwf) as Hrh. destruct (_ >=? _); [|done].
  replace (bucket d false (slot (ht0 d) k)) with (Some c) by (by rewrite Hs, bucket_nat).
  rewrite Hs. destruct (bucketRehash_ok d i c Hwf Hc) as (b & d' & Hbr & Hst). rewrite Hbr.
  mstep. destruct c; try done; by exists d'.
Qed.

(** ** Resizing *)

Lemma full_rehash_ok fuel d :
  dict_wf d -> dictIsRehashing d = true -> DICTHT_SIZE (dict_exp d false) - rehashidx d < Z.of_nat fuel ->
  exists d', full_rehash g fuel d = Some d' /\ step_ok d d' /\
    (dictIsRehashing d' = false \/ d' = d /\ blocked d = true).
Proof.
  revert d. induction fuel as [|fuel IH]; intros d Hwf Hr Hf.
  { destruct (rehashing_wf d Hwf Hr) as (? & _). lia. }
  cbn [full_rehash]. destruct (dictRehash_ok d 1000 Hwf) as (more & d' & -> & Hst & Hm); [done..|].
  mstep. destruct more; [|by exists d']. destruct Hm as (Hr' & He & Hlt & Hbl).
  destruct (IH d' (so_wf _ _ Hst) Hr') as (d2 & -> & Hst2 & Hd2); [rewrite He; lia|].
  exists d2. split; [done|]. split; [by eapply step_trans|]. left.
  destruct Hd2 as [?|[_ Hb]]; [done|]. rewrite (blocked_exp d d' He) in Hb. congruence.
Qed.

Lemma ht_wf_new n (x : Z) :
  2 <= x <= 60 -> Z.of_nat n = 2 ^ x -> ht_wf (mkHt (replicate n Null) 0 x : htab).
Proof.
  intros He Hn. split; cbn.
  - right. by rewrite length_replicate.
  - intros i c e Hc Hx. apply lookup_replicate in Hc as [-> _]. by apply elem_of_nil in Hx.
  - intros c Hc. apply elem_of_replicate in Hc as [-> _]. done.
Qed.

Lemma not_rehashing d : dict_wf d -> dictIsRehashing d = false -> rehashidx d = -1 /\ ht1 d = mkHt [] 0 (-1).
Proof.
  intros Hwf Hr. unfold dictIsRehashing in Hr. zbool. destruct (wf_rehash _ Hwf) as [?|[? _]]; [done|lia].
Qed.

(** The size of a table that passes the overflow tests *)
Lemma new_size size (x : Z) :
  x = _dictNextExp size ->
  (DICTHT_SIZE x <? size) || (u64 (DICTHT_SIZE x * 8) <? DICTHT_SIZE x) = false ->
  2 <= x <= 60 /\ DICTHT_SIZE x = 2 ^ x /\ size <= 2 ^ x.
Proof.
  intros Hx He. assert (Hr : 2 <= x <= 63).
  { subst x. destruct (Z.le_gt_cases size 0); [|by apply next_exp_range]. unfold _dictNextExp.
    change DICT_HT_INITIAL_SIZE with 4. destruct (Z.leb_spec size 4); [unfold DICT_HT_INITIAL_EXP; lia|lia]. }
  rewrite size_pow in He |- * by lia. apply orb_false_iff in He as [Hs Ho].
  assert (x <= 60); [|zbool; split_and!; lia].
  destruct (Z.le_gt_cases x 60); [done|]. exfalso.
  assert (x = 61 \/ x = 62 \/ x = 63) as [E|[E|E]] by lia; rewrite E in Ho; vm_compute in Ho; discriminate.
Qed.

(** The dict when a table of [2 ^ x] buckets was added *)
Definition with_new_table d (x : Z) : dict :=
  mkDict (ht0 d) (mkHt (replicate (Z.to_nat (2 ^ x)) Null) 0 x) 0 (pauserehash d) (pauseAutoResize d)
    ((calls d ++ [rehashingStarted]) ++ [bucketChanged (DICTHT_SIZE x)]).

Lemma with_new_table_ok d x :
  dict_wf d -> dictIsRehashing d = false -> 2 <= x <= 60 -> x <> dict_exp d false -> dict_exp d false <> -1 ->
  step_ok d (with_new_table d x) /\ dictIsRehashing (with_new_table d x) = true.
Proof.
  intros Hwf Hr Hx Hne He. destruct (not_rehashing d Hwf Hr) as [Hri Hh1]. split; [|done].
  assert (Hp : elements (with_new_table d x) ≡ₚ elements d).
  { unfold elements. cbn. unfold ht_entries at 2. cbn. by rewrite tbl_entries_replicate, Hh1. }
  split; [|done..]. eapply dict_wf_perm; [exact Hwf|exact Hp|..]; cbn.
  - apply Hwf.
  - apply ht_wf_new; [done|]. pose proof (Z.pow_pos_nonneg 2 x). lia.
  - apply Hwf.
  - unfold counted, ht_entries. cbn. by rewrite tbl_entries_replicate.
  - right. change (dict_exp (with_new_table d x) false) with (dict_exp d false).
    change (dict_exp (with_new_table d x) true) with x. change (rehashidx (with_new_table d x)) with 0.
    pose proof (table_size d false Hwf He). split_and!; [lia..|]. intros i c Hi. lia.
  - rewrite !bucket_sum_app, (wf_calls _ Hwf). unfold dict_exp. cbn -[DICTHT_SIZE]. rewrite ?Hh1. cbn -[DICTHT_SIZE].
    change (DICTHT_SIZE (-1)) with 0. lia.
  - apply Hwf.
Qed.

(** The dict when the new table replaced one without entries *)
Lemma first_table_ok d x :
  dict_wf d -> dictIsRehashing d = false -> 2 <= x <= 60 -> ht_entries (ht0 d) = [] ->
  step_ok d (mkDict (mkHt (replicate (Z.to_nat (2 ^ x)) Null) 0 x) (mkHt [] 0 (-1)) (-1)
    (pauserehash d) (pauseAutoResize d)
    ((((calls d ++ [rehashingStarted]) ++ [bucketChanged (DICTHT_SIZE x)]) ++ [rehashingCompleted]) ++
       [bucketChanged (- DICTHT_SIZE (dict_exp d false))])).
Proof.
  intros Hwf Hr Hx He. destruct (not_rehashing d Hwf Hr) as [Hri Hh1].
  assert (Hn : elements d = []) by (unfold elements; by rewrite He, Hh1).
  split; [|unfold elements at 1; rewrite Hn; cbn; unfold ht_entries; cbn; by rewrite tbl_entries_replicate|done|done|cbn; lia].
  eapply dict_wf_perm; [exact Hwf|rewrite Hn; unfold elements, ht_entries; cbn; by rewrite tbl_entries_replicate|..]; cbn.
  - apply ht_wf_new; [done|]. pose proof (Z.pow_pos_nonneg 2 x). lia.
  - apply ht_wf_reset.
  - unfold counted, ht_entries. cbn. by rewrite tbl_entries_replicate.
  - done.
  - by left.
  - rewrite !bucket_sum_app, (wf_calls _ Hwf). unfold dict_exp. cbn -[DICTHT_SIZE]. rewrite ?Hh1. cbn -[DICTHT_SIZE].
    change (DICTHT_SIZE (-1)) with 0. lia.
  - apply Hwf.
Qed.

Lemma resize_ok d size nomem :
  dict_wf d -> dictIsRehashing d = false ->
  exists r d', _dictResize g d size nomem = Some (r, d') /\ step_ok d d' /\
    (r <> RESIZE_OK -> d' = d) /\ (r = RESIZE_OK -> dict_exp d false = -1 -> dict_exp d' false <> -1) /\
    rehashidx d' <= 0.
Proof.
  intros Hwf Hr. pose proof (not_rehashing d Hwf Hr) as [Hri Hh1]. unfold _dictResize. rewrite Hr.
  cbn [negb cassert mbind option_bind]. remember (_dictNextExp size) as x eqn:Ex.
  destruct (_ || _) eqn:Eo; [exists RESIZE_SKIPPED, d; split_and!; [done|by apply step_refl|done|done|lia]|].
  destruct (new_size size x Ex Eo) as (Hx & Hsz & _). rewrite Hsz.
  destruct (Z.eqb_spec x (dict_exp d false)) as [|Hne];
    [exists RESIZE_SKIPPED, d; split_and!; [done|by apply step_refl|done|done|lia]|].
  destruct nomem; [exists RESIZE_NOMEM, d; split_and!; [done|by apply step_refl|done|done|lia]|].
  destruct (bool_decide (ht_table (ht0 _) = []) || _) eqn:Ee.
  - eexists RESIZE_OK, _. split; [reflexivity|]. split; [|split; [done|split; [intros _ _; cbn; lia|cbn; lia]]].
    refine (first_table_ok d x Hwf Hr Hx _). apply orb_true_iff in Ee as [Ee|Ee].
    + apply bool_decide_eq_true in Ee. cbn in Ee. unfold ht_entries. by rewrite Ee.
    + zbool. apply used_zero; [done|exact Ee].
  - apply orb_false_iff in Ee as [Ee Eu]. apply bool_decide_eq_false in Ee. cbn in Ee.
    assert (He0 : dict_exp d false <> -1).
    { intros He. destruct (ht_shape _ (wf_ht0 _ Hwf)) as [[_ ?]|[Hr' _]]; [done|]. unfold dict_exp in He. cbn in He. lia. }
    destruct (with_new_table_ok d x Hwf Hr Hx Hne He0) as [Hst Hre].
    destruct force_full_rehash.
    + destruct (full_rehash_ok (S (length (ht_table (ht0 d)))) (with_new_table d x) (so_wf _ _ Hst) Hre)
        as (d2 & Hf & Hst2 & Hd2).
      { pose proof (table_size d false Hwf He0) as Hts. cbn [ht] in Hts. unfold dict_exp in *. cbn in *. lia. }
      exists RESIZE_OK, d2. split; [|split; [by eapply step_trans|split; [done|split; [done|]]]];
        [|destruct Hd2 as [Hd2|[-> _]]; [unfold dictIsRehashing in Hd2; zbool; lia|cbn; lia]].
      transitivity (d ← full_rehash g (S (length (ht_table (ht0 d)))) (with_new_table d x); Some (RESIZE_OK, d));
        [reflexivity|by rewrite Hf].
    + exists RESIZE_OK, (with_new_table d x). split; [reflexivity|]. done.
Qed.

Lemma no_table d : dict_wf d -> DICTHT_SIZE (dict_exp d false) = 0 -> dict_exp d false = -1 /\ ht_table (ht0 d) = [].
Proof.
  intros Hwf Hs. destruct (ht_shape _ (wf_ht0 _ Hwf)) as [|[He _]]; [done|]. unfold dict_exp in Hs. cbn [ht] in Hs.
  rewrite size_pow in Hs by lia. pose proof (Z.pow_pos_nonneg 2 (ht_size_exp (ht0 d))). lia.
Qed.

(** The first table of a dict can always be made. *)
Lemma resize_initial d :
  dictIsRehashing d = false -> dict_exp d false = -1 -> ht_table (ht0 d) = [] ->
  exists d', _dictResize g d DICT_HT_INITIAL_SIZE false = Some (RESIZE_OK, d').
Proof.
  intros Hr He Ht. unfold _dictResize. rewrite Hr, He. change (_dictNextExp DICT_HT_INITIAL_SIZE) with 2.
  cbn [negb cassert mbind option_bind]. change (DICTHT_SIZE 2) with 4. change DICT_HT_INITIAL_SIZE with 4.
  change ((4 <? 4) || (u64 (4 * 8) <? 4)) with false. change (2 =? -1) with false. cbv iota zeta.
  rewrite bool_decide_true by done. cbn [orb]. eauto.
Qed.

Lemma expand_ok d size :
  dict_wf d -> exists b d', dictExpand g d size = Some (b, d') /\ step_ok d d' /\ (d' = d \/ rehashidx d' <= 0).
Proof.
  intros Hwf. unfold dictExpand, _dictExpand. destruct (dictIsRehashing d) eqn:Hr; cbn [orb].
  { eexists _, d. split; [reflexivity|]. split; [by apply step_refl|by left]. }
  destruct (_ || _). { eexists _, d. split; [reflexivity|]. split; [by apply step_refl|by left]. }
  destruct (resize_ok d size false Hwf Hr) as (r & d' & -> & Hst & _ & _ & Hi).
  eexists _, d'. split; [reflexivity|]. auto.
Qed.

Lemma dict_shrink_ok d size :
  dict_wf d -> exists b d', dictShrink g d size = Some (b, d') /\ step_ok d d'.
Proof.
  intros Hwf. unfold dictShrink. destruct (dictIsRehashing d) eqn:Hr; cbn [orb].
  { eexists _, d. split; [reflexivity|]. by apply step_refl. }
  destruct (_ || _). { eexists _, d. split; [reflexivity|]. by apply step_refl. }
  destruct (resize_ok d size false Hwf Hr) as (r & d' & -> & Hst & _). eexists _, d'. split; [reflexivity|done].
Qed.

Lemma expand_needed_ok d :
  dict_wf d ->
  exists b d', dictExpandIfNeeded g d = Some (b, d') /\ step_ok d d' /\ (d' = d \/ rehashidx d' <= 0) /\
    dict_exp d' false <> -1.
Proof.
  intros Hwf. unfold dictExpandIfNeeded. destruct (dictIsRehashing d) eqn:Hr.
  { exists true, d. split_and!; [done|by apply step_refl|by left|]. by apply rehashing_wf. }
  destruct (Z.eqb_spec (DICTHT_SIZE (dict_exp d false)) 0) as [Hs|Hs].
  - destruct (no_table d Hwf Hs) as [He Ht]. unfold dictExpand, _dictExpand. rewrite Hr, Hs.
    replace (used d false) with 0 by (rewrite used_length by done; cbn [ht]; unfold ht_entries; by rewrite Ht).
    destruct (resize_initial d Hr He Ht) as (d' & Hd').
    destruct (resize_ok d DICT_HT_INITIAL_SIZE false Hwf Hr) as (r & d2 & Hd2 & Hst & _ & Hm & Hi).
    change (false || (0 >? DICT_HT_INITIAL_SIZE) || (0 >=? DICT_HT_INITIAL_SIZE)) with false. cbv iota.
    rewrite Hd' in Hd2 |- *. simplify_eq. mstep. eexists true, _. split; [reflexivity|].
    split_and!; [done|by right|]. by apply Hm.
  - assert (Hmade : dict_exp d false <> -1) by (intros He; by rewrite He in Hs).
    destruct (_ || _); [|exists false, d; split_and!; [done|by apply step_refl|by left|done]].
    destruct (dictTypeResizeAllowed d _); [|exists true, d; split_and!; [done|by apply step_refl|by left|done]].
    destruct (expand_ok d (u64 (used d false + 1)) Hwf) as (b & d' & -> & Hst & Hi).
    exists true, d'. split; [done|]. split_and!; [done|done|]. by apply (so_made _ _ Hst).
Qed.

Lemma expandIfNeeded_ok d :
  dict_wf d ->
  exists b d', _dictExpandIfNeeded g d = Some (b, d') /\ step_ok d d' /\ (d' = d \/ rehashidx d' <= 0) /\
    (pauseAutoResize d <= 0 -> dict_exp d' false <> -1).
Proof.
  intros Hwf. unfold _dictExpandIfNeeded. rewrite Z.gtb_ltb.
  destruct (Z.ltb_spec 0 (pauseAutoResize d)) as [Hp|Hp].
  { exists false, d. split_and!; [done|by apply step_refl|by left|lia]. }
  destruct (expand_needed_ok d Hwf) as (b & d' & -> & Hst & Hi & Hm). exists b, d'. auto.
Qed.

Lemma shrinkIfNeeded_ok d : dict_wf d -> exists d', _dictShrinkIfNeeded g d = Some d' /\ step_ok d d'.
Proof.
  intros Hwf. assert (Hrefl : step_ok d d) by by apply step_refl. unfold _dictShrinkIfNeeded.
  destruct (_ >? _); [by exists d|]. unfold dictShrinkIfNeeded.
  destruct (dictIsRehashing d); [by exists d|]. destruct (_ <=? _); [by exists d|].
  destruct (_ || _); [|by exists d]. destruct (dictTypeResizeAllowed d _); [|by exists d].
  destruct (dict_shrink_ok d (used d false) Hwf) as (b & d' & -> & Hst). by exists d'.
Qed.

(** ** Looking up *)

Lemma chain_find_ok k c :
  match chain_find k c with
  | Some n => exists e, entries c !! n = Some e /\ ekey e = k
  | None => forall e, e ∈ entries c -> ekey e <> k
  end.
Proof.
  induction c as [|sk|sk next IH|sk v next IH]; cbn [chain_find entries]; rewrite ?keyCompare_ok.
  - intros e He. by apply elem_of_nil in He.
  - case_bool_decide as Hk; [by exists (sk, None)|]. intros e [->|He]%elem_of_cons; [by apply not_eq_sym|].
    by apply elem_of_nil in He.
  - case_bool_decide as Hk; [by exists (sk, None)|]. destruct (chain_find k next) as [n|]; cbn.
    + done.
    + intros e [->|He]%elem_of_cons; [by apply not_eq_sym|]. by apply IH.
  - case_bool_decide as Hk; [by exists (sk, v)|]. destruct (chain_find k next) as [n|]; cbn.
    + done.
    + intros e [->|He]%elem_of_cons; [by apply not_eq_sym|]. by apply IH.
Qed.

(** The entry that a link points to *)
Definition points d (l : dictEntryLink) e : Prop :=
  exists i c, l_idx l = Z.of_nat i /\ ht_table (ht d (l_table l)) !! i = Some c /\
    entries c !! l_pos l = Some e.

Lemma find_in_table_ok d t k :
  ht_wf (ht d t) -> dict_exp d t <> -1 ->
  exists found, find_in_table d t (hashFunction k) k = Some (slot (ht d t) k, found) /\
    match found with
    | Some l => exists e, points d l e /\ ekey e = k
    | None => forall e, e ∈ ht_entries (ht d t) -> ekey e <> k
    end.
Proof.
  intros Hw He. destruct (slot_bucket (ht d t) k Hw He) as (i & c & Hs & Hc).
  unfold find_in_table. fold (slot (ht d t) k). change (dict_exp d t) with (ht_size_exp (ht d t)).
  change (Z.land (hashFunction k) (DICTHT_SIZE_MASK (ht_size_exp (ht d t)))) with (slot (ht d t) k).
  rewrite Hs, bucket_nat, Hc. mstep. eexists. split; [reflexivity|].
  pose proof (chain_find_ok k c) as Hf. destruct (chain_find k c) as [n|]; cbn.
  - destruct Hf as (e & Hn & Hk). exists e. split; [|done]. by exists i, c.
  - intros e Hin Hk. unfold ht_entries in Hin. apply tbl_entries_elem in Hin as (j & c' & Hj & Hin).
    pose proof (bucket_place _ _ _ _ Hw Hj Hin) as Hp. rewrite Hk, Hs in Hp.
    assert (i = j) as -> by lia. rewrite Hc in Hj. simplify_eq. by eapply Hf.
Qed.
Lemma slot_range h k : ht_wf h -> 0 <= slot h k < 2 ^ 63.
Proof.
  intros Hw. destruct (ht_shape _ Hw) as [[He _]|[He _]].
  - unfold slot. rewrite He. change (DICTHT_SIZE_MASK (-1)) with 0. rewrite Z.land_0_r. zpow. lia.
  - rewrite slot_mod by (done || lia). pose proof (Z.mod_pos_bound (hashFunction k) (2 ^ ht_size_exp h)).
    pose proof (Z.pow_pos_nonneg 2 (ht_size_exp h)). pose proof (Z.pow_lt_mono_r 2 (ht_size_exp h) 63). lia.
Qed.

Lemma moved_keys d k :
  dict_wf d -> dictIsRehashing d = true -> slot (ht0 d) k < rehashidx d ->
  forall e, e ∈ ht_entries (ht0 d) -> ekey e <> k.
Proof.
  intros Hwf Hr Hs e Hin Hk. destruct (rehashing_wf d Hwf Hr) as (_ & _ & _ & _ & Hnull).
  unfold ht_entries in Hin. apply tbl_entries_elem in Hin as (j & c & Hj & Hin).
  pose proof (bucket_place _ _ _ _ (wf_ht0 _ Hwf) Hj Hin) as Hp. rewrite Hk in Hp.
  rewrite (Hnull j c) in Hin by (done || lia). by apply elem_of_nil in Hin.
Qed.

(** What the search tells of a key *)
Definition found_ok d k (found : option dictEntryLink) : Prop :=
  match found with
  | Some l => exists e, points d l e /\ ekey e = k
  | None => forall e, e ∈ elements d -> ekey e <> k
  end.

Lemma find_in_tables_ok d idx k :
  dict_wf d -> dict_exp d false <> -1 -> 0 <= idx < 2 ^ 63 -> (idx < rehashidx d -> slot (ht0 d) k = idx) ->
  exists r found, find_in_tables d idx (hashFunction k) k = Some (r, found) /\ found_ok d k found /\
    (found = None -> r = slot (ht d (dictIsRehashing d)) k).
Proof.
  intros Hwf He0 Hidx Hs. unfold find_in_tables. rewrite wrapS_id by (unfold inS; zpow; lia).
  destruct (find_in_table_ok d false k (wf_ht0 _ Hwf) He0) as (f0 & Hf0 & Hok0).
  assert (H0 : exists r f, (if idx <? rehashidx d then Some (idx, None)
      else find_in_table d false (hashFunction k) k) = Some (r, f) /\
    match f with
    | Some l => exists e, points d l e /\ ekey e = k
    | None => (forall e, e ∈ ht_entries (ht0 d) -> ekey e <> k) /\
        (dictIsRehashing d = false -> r = slot (ht0 d) k)
    end).
  { destruct (Z.ltb_spec idx (rehashidx d)) as [Hlt|Hge].
    - exists idx, None. split; [done|]. assert (Hr : dictIsRehashing d = true)
        by (unfold dictIsRehashing; destruct (Z.eqb_spec (rehashidx d) (-1)); [lia|done]).
      split; [|by rewrite Hr]. apply moved_keys; [done|done|]. rewrite Hs; lia.
    - rewrite Hf0. eexists _, f0. split; [done|]. destruct f0; [done|]. done. }
  destruct H0 as (r & f & -> & Hf). mstep. destruct f as [l|].
  { exists r, (Some l). done. }
  destruct Hf as [Hn Hr0]. destruct (dictIsRehashing d) eqn:Hr; cbn [negb].
  - destruct (rehashing_wf d Hwf Hr) as (_ & _ & He1 & _).
    destruct (find_in_table_ok d true k (wf_ht1 _ Hwf) He1) as (f1 & -> & Hok1).
    eexists _, f1. split; [done|]. split; [|done]. destruct f1; [done|].
    intros e [He|He]%elem_of_app; [by apply Hn|by apply Hok1].
  - destruct (not_rehashing d Hwf Hr) as [_ Hh1]. exists r, None. split; [done|]. split; [|auto].
    intros e [He|He]%elem_of_app; [by apply Hn|]. rewrite Hh1 in He. by apply elem_of_nil in He.
Qed.

Lemma points_elem d l e : points d l e -> e ∈ elements d.
Proof.
  intros (i & c & _ & Hc & He). unfold elements. apply elem_of_app.
  assert (Hin : e ∈ ht_entries (ht d (l_table l))).
  { apply tbl_entries_elem. exists i, c. split; [done|]. by eapply list_elem_of_lookup_2. }
  destruct (l_table l); auto.
Qed.

Lemma nonempty_made d : dict_wf d -> dictSize d <> 0 -> dict_exp d false <> -1.
Proof.
  intros Hwf Hs He. destruct (dictIsRehashing d) eqn:Hr; [by destruct (rehashing_wf d Hwf Hr) as (_ & ? & _)|].
  destruct (not_rehashing d Hwf Hr) as [_ Hh1]. destruct (no_table d Hwf) as [_ Ht]; [by rewrite He|].
  apply Hs. unfold dictSize. rewrite !used_length by done. cbn [ht]. rewrite Hh1.
  unfold ht_entries. by rewrite Ht.
Qed.

Lemma dictSize_ok d : dict_wf d -> dictSize d = Z.of_nat (length (elements d)).
Proof.
  intros Hwf. destruct (used_sum d Hwf) as (? & ? & Hs & Hl). unfold dictSize. rewrite Hs.
  apply wrapU_id. unfold inU, DICT_LIMIT in *. zpow. lia.
Qed.

(** The step before a search leaves the index good for the search. *)
Lemma stepped_index d d' k :
  dict_wf d -> step_ok d d' -> same_size d d' -> slot (ht0 d) k < rehashidx d' -> slot (ht0 d') k = slot (ht0 d) k.
Proof.
  intros Hwf Hst Hss Hlt. unfold slot. do 2 f_equal. apply Hss. unfold dictIsRehashing.
  destruct (Z.eqb_spec (rehashidx d') (-1)); [|done]. pose proof (slot_range (ht0 d) k (wf_ht0 _ Hwf)). lia.
Qed.

Lemma findLink_ok d k :
  dict_wf d ->
  exists d' found, dictFindLink g d k = Some (d', found) /\ step_ok d d' /\ found_ok d' k found.
Proof.
  intros Hwf. unfold dictFindLink. pose proof (dictSize_ok d Hwf) as Hsz.
  destruct (Z.eqb_spec (dictSize d) 0) as [H0|H0].
  { exists d, None. split; [done|]. split; [by apply step_refl|]. intros e He.
    destruct (elements d); [by apply elem_of_nil in He|]. cbn [length] in Hsz. lia. }
  change (Z.land (hashFunction k) (DICTHT_SIZE_MASK (dict_exp d false))) with (slot (ht0 d) k).
  destruct (rehashStepIfNeeded_ok d k Hwf) as (d' & -> & Hst & Hss). mstep.
  pose proof (slot_range (ht0 d) k (wf_ht0 _ Hwf)).
  destruct (find_in_tables_ok d' (slot (ht0 d) k) k (so_wf _ _ Hst)) as (r & found & -> & Hf & _).
  - apply (so_made _ _ Hst). by apply nonempty_made.
  - done.
  - by apply stepped_index.
  - exists d', found. done.
Qed.
(** ** Changing a bucket *)

(** [d] with another bucket and another count in a table *)
Definition put d t (i : nat) c (n : Z) : dict :=
  set_ht d t (mkHt (<[i := c]> (ht_table (ht d t))) n (dict_exp d t)).

Lemma put_elements d t i c c' n :
  ht_table (ht d t) !! i = Some c -> elements (put d t i c' n) ++ entries c ≡ₚ elements d ++ entries c'.
Proof.
  intros Hi. pose proof (insert_entries _ _ _ c' Hi) as Hp. unfold elements, put.
  destruct t; cbn in *; unfold ht_entries in *; cbn.
  - rewrite <- !app_assoc. by rewrite Hp.
  - etrans; [by rewrite <- app_assoc, (Permutation_app_comm _ (entries c)), app_assoc, Hp|]. solve_Permutation.
Qed.

Lemma put_wf d t i c c' n :
  dict_wf d -> ht_table (ht d t) !! i = Some c -> chain_kind c' ->
  (forall e, e ∈ entries c' -> slot (ht d t) (ekey e) = Z.of_nat i) ->
  (t = false -> dictIsRehashing d = true -> c <> Null) ->
  n = used d t + Z.of_nat (length (entries c')) - Z.of_nat (length (entries c)) ->
  NoDup (ekey <$> elements (put d t i c' n)) -> Z.of_nat (length (elements (put d t i c' n))) <= DICT_LIMIT ->
  dict_wf (put d t i c' n).
Proof.
  intros Hwf Hi Hk Hpl Hnn Hn Hnd Hl.
  assert (Hw : ht_wf (ht d t)) by (destruct t; apply Hwf).
  pose proof (ht_wf_insert (ht d t) i c' n Hw Hk Hpl) as Hw'.
  assert (Hc' : counted (mkHt (<[i := c']> (ht_table (ht d t))) n (dict_exp d t))).
  { unfold counted. cbn. rewrite Hn, used_length by done. pose proof (insert_entries _ _ _ c' Hi) as Hp.
    apply Permutation_length in Hp. rewrite !length_app in Hp. unfold ht_entries. cbn. lia. }
  destruct Hwf as [Hw0 Hw1 Hc0 Hc1 Hrh _ _ Hca Hpa].
  split; [destruct t; cbn; done|destruct t; cbn; done|destruct t; cbn; done|destruct t; cbn; done| |done|done|by destruct t|by destruct t].
  destruct Hrh as [[Hri Hh1]|(Hri & He0 & He1 & Hne & Hnull)].
  - left. split; [by destruct t|]. destruct t; [|done]. cbn in Hi. by rewrite Hh1 in Hi.
  - right. replace (dict_exp (put d t i c' n) false) with (dict_exp d false) by (by destruct t).
    replace (dict_exp (put d t i c' n) true) with (dict_exp d true) by (by destruct t).
    replace (rehashidx (put d t i c' n)) with (rehashidx d) by (by destruct t).
    split; [done|]. split; [done|]. split; [done|]. split; [done|].
    intros j x Hj Hx. destruct t; [by eapply Hnull|]. cbn in Hx, Hi. apply list_lookup_insert_Some in Hx as [(<- & <- & _)|[_ Hx]]; [|by eapply Hnull].
    exfalso. apply Hnn; [done| |by eapply Hnull].
    unfold dictIsRehashing. destruct (Z.eqb_spec (rehashidx d) (-1)); [lia|done].
Qed.

(** ** Insertion *)

Lemma insert_ok d sk :
  dict_wf d -> dict_exp d false <> -1 -> Z.of_nat (length (elements d)) < DICT_LIMIT ->
  (forall e, e ∈ elements d -> ekey e <> keyFromStoredKey sk) ->
  let l := mkLink (dictIsRehashing d) (slot (ht d (dictIsRehashing d)) (keyFromStoredKey sk)) 0 in
  exists d' i c, dictInsertKeyAtLink d sk l = Some d' /\ dict_wf d' /\
    elements d' ≡ₚ (sk, None) :: elements d /\ l_idx l = Z.of_nat i /\
    ht_table (ht d' (l_table l)) !! i = Some c /\ entries c !! 0%nat = Some (sk, None) /\
    pauserehash d' = pauserehash d /\ pauseAutoResize d' = pauseAutoResize d.
Proof.
  intros Hwf He0 Hl Hfr l. set (t := dictIsRehashing d) in *. unfold dictInsertKeyAtLink. fold t.
  assert (Het : ht_size_exp (ht d t) <> -1).
  { unfold t. destruct (dictIsRehashing d) eqn:Hr; [|done]. by destruct (rehashing_wf d Hwf Hr) as (_ & _ & ? & _). }
  assert (Hw : ht_wf (ht d t)) by (destruct t; apply Hwf).
  destruct (slot_bucket (ht d t) (keyFromStoredKey sk) Hw Het) as (i & c & Hs & Hc).
  unfold l. cbn [l_table l_idx]. rewrite eqb_reflx. cbn [andb].
  replace ((0 <=? _) && _) with true.
  2: { symmetry. apply andb_true_iff. pose proof (slot_mask (ht d t) (keyFromStoredKey sk) Hw Het).
       split; apply Z.leb_le; [lia|done]. }
  cbn [cassert mbind option_bind]. rewrite Hs, bucket_nat, Hc. mstep.
  set (c' := if no_value then _ else _). assert (Hc' : entries c' = (sk, None) :: entries c /\ chain_kind c').
  { pose proof (bucket_kind _ _ _ Hw Hc) as Hk. unfold c'. destruct no_value eqn:Env; [|done].
    destruct c; cbn in *; rewrite ?Env in *; auto. }
  destruct Hc' as [Hce Hck]. clearbody c'.
  rewrite (set_bucket_nat d t i c c') by done. mstep.
  destruct (used_sum d Hwf) as (Hu0 & Hu1 & Hus & _). unfold DICT_LIMIT in *.
  assert (Hd : set_used (put d t i c' (used d t)) t (u64 (used (put d t i c' (used d t)) t + 1))
             = put d t i c' (used d t + 1)).
  { unfold set_used, put, set_ht, used, dict_exp. destruct t; cbn in *;
      (rewrite wrapU_id by (unfold inU; unfold used in *; cbn in *; zpow; lia)); done. }
  assert (Hel : elements (put d t i c' (used d t + 1)) ≡ₚ (sk, None) :: elements d).
  { apply (Permutation_app_inv_r (entries c)). rewrite put_elements by done. rewrite Hce. solve_Permutation. }
  exists (put d t i c' (used d t + 1)), i, c'. split; [by rewrite <- Hd|].
  split_and!; [|done|done| |by rewrite Hce|by destruct t|by destruct t].
  - apply (put_wf d t i c); try done.
    + rewrite Hce. intros e [->|He]%elem_of_cons; [done|]. by eapply bucket_place.
    + unfold t. by intros ->.
    + rewrite Hce. cbn [length]. lia.
    + rewrite Hel. cbn. constructor; [|apply Hwf]. rewrite list_elem_of_fmap. intros (e & Hk & He).
      by apply (Hfr e He).
    + rewrite Hel. cbn [length]. unfold DICT_LIMIT. lia.
  - unfold put. destruct t; cbn in *; apply list_lookup_insert_eq; by eapply lookup_lt_Some.
Qed.
Lemma findForInsert_ok d k :
  dict_wf d -> pauseAutoResize d <= 0 \/ dict_exp d false <> -1 ->
  exists d' r, dictFindLinkForInsert g d k = Some (d', r) /\ step_ok d d' /\ dict_exp d' false <> -1 /\
    match r with
    | inl l => l = mkLink (dictIsRehashing d') (slot (ht d' (dictIsRehashing d')) k) 0 /\
        forall e, e ∈ elements d' -> ekey e <> k
    | inr l => exists e, points d' l e /\ ekey e = k
    end.
Proof.
  intros Hwf Hpa. unfold dictFindLinkForInsert.
  change (Z.land (hashFunction k) (DICTHT_SIZE_MASK (dict_exp d false))) with (slot (ht0 d) k).
  pose proof (slot_range (ht0 d) k (wf_ht0 _ Hwf)) as Hsr.
  destruct (rehashStepIfNeeded_ok d k Hwf) as (d1 & -> & Hst1 & Hss). mstep.
  destruct (expandIfNeeded_ok d1 (so_wf _ _ Hst1)) as (b & d2 & -> & Hst2 & Hi2 & Hm2). mstep.
  pose proof (step_trans _ _ _ Hst1 Hst2) as Hst.
  assert (He2 : dict_exp d2 false <> -1).
  { destruct Hpa as [Hpa|Hpa]; [apply Hm2; by rewrite (so_auto _ _ Hst1)|by apply (so_made _ _ Hst)]. }
  destruct (find_in_tables_ok d2 (slot (ht0 d) k) k (so_wf _ _ Hst)) as (r & found & -> & Hf & Hr);
    [done|done|destruct Hi2 as [->|Hi2]; [by apply stepped_index|lia]|].
  mstep. destruct found as [l|]; [by exists d2, (inr l)|]. rewrite (Hr eq_refl).
  assert (Het : ht_size_exp (ht d2 (dictIsRehashing d2)) <> -1).
  { destruct (dictIsRehashing d2) eqn:E; [|done]. by destruct (rehashing_wf d2 (so_wf _ _ Hst) E) as (_ & _ & ? & _). }
  assert (Hw : ht_wf (ht d2 (dictIsRehashing d2))) by (destruct (dictIsRehashing d2); apply (so_wf _ _ Hst)).
  destruct (slot_bucket _ k Hw Het) as (i & c & Hs & Hc). rewrite Hs, bucket_nat, Hc. mstep.
  eexists d2, _. split; [reflexivity|]. rewrite Hs. done.
Qed.

(** ** Values *)

Lemma chain_set_val_ok c n e v :
  chain_kind c -> no_value = false -> entries c !! n = Some e ->
  exists c', chain_set_val c n v = Some c' /\ entries c' = <[n := (fst e, Some v)]> (entries c) /\ chain_kind c'.
Proof.
  intros Hk Hnv. revert n. induction c as [|sk|sk next IH|sk v' next IH]; intros n Hn; cbn in *;
    [done|congruence|by destruct Hk; congruence|].
  destruct Hk as [_ Hk]. destruct n as [|n]; cbn in Hn.
  - simplify_eq. by exists (Entry sk (Some v) next).
  - destruct (IH Hk n Hn) as (c' & -> & Hc' & Hk'). exists (Entry sk v' c'). cbn. by rewrite Hc'.
Qed.

(** The elements that a bucket update changes *)
Lemma setVal_ok d l e v :
  dict_wf d -> no_value = false -> points d l e ->
  exists d' rest, dictSetVal d l v = Some d' /\ dict_wf d' /\
    elements d ≡ₚ e :: rest /\ elements d' ≡ₚ (fst e, Some v) :: rest.
Proof.
  intros Hwf Hnv (i & c & Hl & Hc & He). set (t := l_table l) in *.
  assert (Hw : ht_wf (ht d t)) by (destruct t; apply Hwf).
  destruct (chain_set_val_ok c _ e v (bucket_kind _ _ _ Hw Hc) Hnv He) as (c' & Hset & Hce & Hck).
  unfold dictSetVal. fold t. rewrite Hl, bucket_nat, Hc. mstep. rewrite Hset.
  mstep. rewrite (set_bucket_nat d t i c c') by done.
  pose proof (put_elements d t i c c' (used d t) Hc) as Hp.
  pose proof (take_drop_middle _ _ _ He) as Hsplit.
  rewrite (insert_take_drop _ _ _ (lookup_lt_Some _ _ _ He)) in Hce.
  set (pre := take (l_pos l) (entries c)) in *. set (post := drop (S (l_pos l)) (entries c)) in *.
  destruct (elem_of_Permutation (elements d) e) as [Hex _].
  destruct Hex as (rest & Hrest); [apply points_elem with l; by exists i, c|].
  assert (Hel : elements (put d t i c' (used d t)) ≡ₚ (fst e, Some v) :: rest).
  { apply (Permutation_app_inv_r (entries c)). rewrite Hp, Hrest, Hce, <- Hsplit at 1. solve_Permutation. }
  exists (put d t i c' (used d t)), rest. split; [done|]. split_and!; [|done|done].
  apply (put_wf d t i c); try done.
  - intros e' He'. rewrite Hce in He'.
    assert (Hin : exists e'', e'' ∈ entries c /\ ekey e'' = ekey e').
    { rewrite <- Hsplit. apply elem_of_app in He' as [?|[->|?]%elem_of_cons].
      - exists e'. rewrite elem_of_app. auto.
      - exists e. rewrite elem_of_app, elem_of_cons. auto.
      - exists e'. rewrite elem_of_app, elem_of_cons. auto. }
    destruct Hin as (e'' & Hin & <-). by eapply bucket_place.
  - intros _ _ ->. done.
  - rewrite Hce, <- Hsplit at 1. rewrite !length_app. cbn [length]. lia.
  - rewrite Hel. pose proof (wf_nodup _ Hwf) as Hnd. rewrite Hrest in Hnd. done.
  - rewrite Hel. pose proof (wf_limit _ Hwf) as Hlm. rewrite Hrest in Hlm. done.
Qed.
(** ** Deletion *)

Lemma chain_unlink_ok c n e :
  chain_kind c -> entries c !! n = Some e ->
  exists he c', chain_unlink c n = Some (he, c') /\ head (entries he) = Some e /\
    entries c' = delete n (entries c) /\ chain_kind c'.
Proof.
  revert c. induction n as [|n IH]; intros c Hk Hn.
  - exists c, (dictGetNext c). destruct c; cbn in Hk, Hn |- *; simplify_eq; split_and!; try done; tauto.
  - cbn [chain_unlink]. assert (Hn' : entries (dictGetNext c) !! n = Some e) by (destruct c; done).
    destruct (IH _ (chain_kind_next _ Hk) Hn') as (he & c' & -> & Hh & He & Hk'). mstep.
    destruct c as [|sk|sk next|sk v next]; cbn in Hn; try done; (eexists he, _; split; [reflexivity|]);
      cbn in He, Hk |- *; rewrite He; split_and!; try done; tauto.
Qed.

Lemma unlink_ok d l e :
  dict_wf d -> points d l e ->
  exists d' he, unlink_at d l = Some (d', he) /\ dict_wf d' /\ elements d ≡ₚ e :: elements d' /\
    head (entries he) = Some e /\ pauserehash d' = pauserehash d.
Proof.
  intros Hwf (i & c & Hl & Hc & He). set (t := l_table l) in *.
  assert (Hw : ht_wf (ht d t)) by (destruct t; apply Hwf).
  destruct (chain_unlink_ok c _ e (bucket_kind _ _ _ Hw Hc) He) as (he & c' & Hun & Hhe & Hce & Hck).
  unfold unlink_at. fold t. rewrite Hl, bucket_nat, Hc. mstep. rewrite Hun.
  mstep. rewrite (set_bucket_nat d t i c c') by done. mstep.
  assert (Hpe : entries c ≡ₚ e :: entries c') by (rewrite Hce; by apply delete_Permutation).
  pose proof (bucket_entries_length _ _ _ Hc) as Hlen. rewrite Hpe in Hlen. cbn [length] in Hlen.
  destruct (used_sum d Hwf) as (Hu0 & Hu1 & Hus & Hlim). unfold DICT_LIMIT in Hlim.
  pose proof (used_length d t Hwf) as Hul.
  assert (Hut : 0 < used d t < 2 ^ 64) by (zpow; destruct t; lia).
  assert (Hd : set_used (put d t i c' (used d t)) t (u64 (used (put d t i c' (used d t)) t - 1))
             = put d t i c' (used d t - 1)).
  { replace (used (put d t i c' (used d t)) t) with (used d t) by (by destruct t).
    rewrite wrapU_id by (unfold inU; lia). by destruct t. }
  assert (Hel : elements d ≡ₚ e :: elements (put d t i c' (used d t - 1))).
  { apply (Permutation_app_inv_r (entries c')). pose proof (put_elements d t i c c' (used d t - 1) Hc) as Hp.
    rewrite <- Hp, Hpe. solve_Permutation. }
  pose proof (wf_nodup _ Hwf) as Hnd. pose proof (wf_limit _ Hwf) as Hlm. rewrite Hel in Hnd, Hlm.
  cbn in Hnd, Hlm. apply NoDup_cons in Hnd as [_ Hnd].
  exists (put d t i c' (used d t - 1)), he. split; [by rewrite <- Hd|].
  split_and!; [|done|done|by destruct t].
  apply (put_wf d t i c); try done.
  - intros e' He'. eapply bucket_place; [done|done|]. rewrite Hpe. by right.
  - intros _ _ ->. done.
  - apply Permutation_length in Hpe. cbn [length] in Hpe. lia.
  - lia.
Qed.

Lemma delete_ok d k :
  dict_wf d ->
  exists d' he, dictGenericDelete g d k = Some (d', he) /\ dict_wf d' /\ pauserehash d' = pauserehash d /\
    ((he = Null /\ elements d' ≡ₚ elements d /\ forall e, e ∈ elements d -> ekey e <> k) \/
     exists e, head (entries he) = Some e /\ ekey e = k /\ elements d ≡ₚ e :: elements d').
Proof.
  intros Hwf. unfold dictGenericDelete. pose proof (dictSize_ok d Hwf) as Hsz.
  destruct (Z.eqb_spec (dictSize d) 0) as [H0|H0].
  { exists d, Null. split_and!; [done|done|done|]. left. split_and!; [done|done|]. intros e He.
    destruct (elements d); [by apply elem_of_nil in He|]. cbn [length] in Hsz. lia. }
  change (Z.land (hashFunction k) (DICTHT_SIZE_MASK (dict_exp d false))) with (slot (ht0 d) k).
  destruct (rehashStepIfNeeded_ok d k Hwf) as (d1 & -> & Hst & Hss). mstep.
  pose proof (slot_range (ht0 d) k (wf_ht0 _ Hwf)).
  destruct (find_in_tables_ok d1 (slot (ht0 d) k) k (so_wf _ _ Hst)) as (r & found & -> & Hf & _);
    [apply (so_made _ _ Hst); by apply nonempty_made|done|by apply stepped_index|].
  mstep. destruct found as [l|].
  - destruct Hf as (e & Hpt & Hk).
    destruct (unlink_ok d1 l e (so_wf _ _ Hst) Hpt) as (d2 & he & -> & Hwf2 & Hel & Hhe & Hpa).
    mstep. destruct (shrinkIfNeeded_ok d2 Hwf2) as (d3 & -> & Hst3). mstep.
    exists d3, he. split_and!; [done|apply Hst3| |].
    + by rewrite (so_pause _ _ Hst3), Hpa, (so_pause _ _ Hst).
    + right. exists e. split_and!; [done|done|]. rewrite <- (so_elements _ _ Hst), Hel. f_equiv.
      symmetry. apply (so_elements _ _ Hst3).
  - exists d1, Null. split_and!; [done|apply Hst|apply Hst|]. left. split_and!; [done|apply Hst|].
    intros e He. apply Hf. by rewrite (so_elements _ _ Hst).
Qed.

(** ** The finite map *)

Lemma map_perm l l' :
  NoDup (ekey <$> l) -> l' ≡ₚ l ->
  list_to_map ((fun e => (ekey e, e)) <$> l') =@{gmap K (SK * option V)} list_to_map ((fun e => (ekey e, e)) <$> l).
Proof.
  intros Hn Hp. apply list_to_map_proper; [|by apply fmap_Permutation]. rewrite keys_fst. by rewrite Hp.
Qed.

Lemma dict_map_step d d' : dict_wf d -> step_ok d d' -> dict_map d' = dict_map d.
Proof. intros Hwf Hst. apply dict_map_perm; [apply Hwf|apply Hst]. Qed.

Lemma dict_map_uncons d d' e :
  dict_wf d -> elements d ≡ₚ e :: elements d' -> dict_map d' = delete (ekey e) (dict_map d).
Proof.
  intros Hwf Hp. pose proof (wf_nodup _ Hwf) as Hn. rewrite (dict_map_cons d' d e Hn Hp).
  rewrite delete_insert_id; [done|]. apply dict_map_none. rewrite Hp in Hn. cbn in Hn.
  by apply NoDup_cons in Hn as [? _].
Qed.

Lemma dict_map_absent d k : (forall e, e ∈ elements d -> ekey e <> k) -> dict_map d !! k = None.
Proof.
  intros Hn. apply dict_map_none. rewrite list_elem_of_fmap. intros (e & -> & He). by apply (Hn e).
Qed.

Lemma dict_map_points d l e : dict_wf d -> points d l e -> dict_map d !! ekey e = Some e.
Proof. intros Hwf Hp. apply dict_map_lookup; [apply Hwf|]. split; [by eapply points_elem|done]. Qed.

Lemma dict_map_update d d' e e' rest :
  dict_wf d -> dict_wf d' -> elements d ≡ₚ e :: rest -> elements d' ≡ₚ e' :: rest -> ekey e' = ekey e ->
  dict_map d' = <[ekey e := e']> (dict_map d).
Proof.
  intros Hwf Hwf' Hp Hp' Hk. unfold dict_map.
  rewrite (map_perm (e :: rest) (elements d)), (map_perm (e' :: rest) (elements d'));
    [|rewrite <- Hp'; apply Hwf'|done|rewrite <- Hp; apply Hwf|done].
  cbn. rewrite Hk. by rewrite insert_insert_eq.
Qed.
Lemma dict_map_size d : dict_wf d -> size (dict_map d) = length (elements d).
Proof.
  intros Hwf. unfold dict_map. rewrite map_size_list_to_map by (rewrite keys_fst; apply Hwf).
  by rewrite length_fmap.
Qed.

(** Adding a key: the new entry has no value yet. *)
Lemma addRaw_ok d sk :
  dict_wf d -> pauseAutoResize d <= 0 \/ dict_exp d false <> -1 -> Z.of_nat (length (elements d)) < DICT_LIMIT ->
  exists d' r, dictAddRaw g d sk = Some (d', r) /\ dict_wf d' /\
    match r with
    | inl l => points d' l (sk, None) /\ dict_map d !! keyFromStoredKey sk = None /\
        dict_map d' = <[keyFromStoredKey sk := (sk, None)]> (dict_map d)
    | inr l => exists e, points d' l e /\ ekey e = keyFromStoredKey sk /\ dict_map d' = dict_map d
    end.
Proof.
  intros Hwf Hpa Hl. unfold dictAddRaw.
  destruct (findForInsert_ok d (keyFromStoredKey sk) Hwf Hpa) as (d1 & r & -> & Hst & He & Hr).
  mstep. pose proof (dict_map_step d d1 Hwf Hst) as Hm. destruct r as [l|l].
  - destruct Hr as [-> Hfr]. rewrite <- (so_elements _ _ Hst) in Hl.
    destruct (insert_ok d1 sk (so_wf _ _ Hst) He Hl Hfr) as (d2 & i & c & -> & Hwf2 & Hel & Hi & Hc & Hn & _).
    mstep. eexists d2, _. split; [reflexivity|]. split; [done|]. split; [by exists i, c|].
    rewrite <- Hm. split; [by apply dict_map_absent|]. by apply (dict_map_cons d1 d2 (sk, None)); [apply Hwf2|].
  - destruct Hr as (e & Hp & Hk). eexists d1, _. split; [reflexivity|]. split; [apply Hst|]. exists e. done.
Qed.

Lemma setVal_map d l e v :
  dict_wf d -> no_value = false -> points d l e ->
  exists d', dictSetVal d l v = Some d' /\ dict_wf d' /\ dict_map d' = <[ekey e := (fst e, Some v)]> (dict_map d).
Proof.
  intros Hwf Hnv Hp. destruct (setVal_ok d l e v Hwf Hnv Hp) as (d' & rest & Hs & Hwf' & He & He').
  exists d'. split_and!; [done|done|]. by eapply dict_map_update.
Qed.

(** ** Insertion at a bucket that was found before *)

(** The bucket where a key that is not there goes *)
Definition bucket_of d k : dictEntryLink := mkLink (dictIsRehashing d) (slot (ht d (dictIsRehashing d)) k) 0.

Lemma findInternal_ok d k :
  dict_wf d -> dict_exp d false <> -1 ->
  exists d' found b, dictFindLinkInternal g d k = Some (d', found, b) /\ step_ok d d' /\ found_ok d' k found /\
    (found = None -> b = bucket_of d' k).
Proof.
  intros Hwf He. unfold dictFindLinkInternal.
  change (Z.land (hashFunction k) (DICTHT_SIZE_MASK (dict_exp d false))) with (slot (ht0 d) k).
  destruct (rehashStepIfNeeded_ok d k Hwf) as (d' & -> & Hst & Hss). mstep.
  pose proof (slot_range (ht0 d) k (wf_ht0 _ Hwf)).
  destruct (find_in_tables_ok d' (slot (ht0 d) k) k (so_wf _ _ Hst)) as (r & found & -> & Hf & Hr);
    [by apply (so_made _ _ Hst)|done|by apply stepped_index|].
  mstep. eexists d', found, _. split; [reflexivity|]. split_and!; [done|done|]. intros ->. unfold bucket_of. by rewrite Hr.
Qed.

(** The table that takes new keys is known from the sizes. *)
Lemma same_bucket d d' k :
  dict_wf d -> dict_wf d' -> dict_exp d' false = dict_exp d false -> dict_exp d' true = dict_exp d true ->
  bucket_of d' k = bucket_of d k.
Proof.
  intros Hwf Hwf' E0 E1. assert (Hr : dictIsRehashing d' = dictIsRehashing d).
  { assert (Hiff : forall x, dict_wf x -> dictIsRehashing x = negb (dict_exp x true =? -1)).
    { intros x Hx. destruct (dictIsRehashing x) eqn:Ex.
      - destruct (rehashing_wf x Hx Ex) as (_ & _ & He & _). by apply Z.eqb_neq in He as ->.
      - destruct (not_rehashing x Hx Ex) as [_ Hh]. unfold dict_exp. cbn [ht]. by rewrite Hh. }
    by rewrite !Hiff, E1 by done. }
  unfold bucket_of. rewrite Hr. f_equal. unfold slot. do 2 f_equal. unfold dict_exp in E0, E1. by destruct (dictIsRehashing d).
Qed.

(** The search that has to be done again finds no entry, and the bucket. *)
Lemma find_again d k :
  dict_wf d -> dict_exp d false <> -1 -> (forall e, e ∈ elements d -> ekey e <> k) ->
  exists d', ('(d, found, b) ← dictFindLinkInternal g d k;
      _ ← cassert (bool_decide (found = None)); Some (d, b)) = Some (d', bucket_of d' k) /\ step_ok d d'.
Proof.
  intros Hwf He Hfresh. destruct (findInternal_ok d k Hwf He) as (d2 & found & b2 & -> & Hst2 & Hf & Hb). mstep.
  destruct found as [l|].
  - destruct Hf as (e & Hp & Hk). exfalso. apply (Hfresh e); [|done]. rewrite <- (so_elements _ _ Hst2). by eapply points_elem.
  - rewrite bool_decide_true by done. cbn [cassert]. mstep. exists d2. by rewrite Hb.
Qed.

Lemma setKeyAtLink_ok d sk link :
  dict_wf d -> Z.of_nat (length (elements d)) < DICT_LIMIT ->
  (forall e, e ∈ elements d -> ekey e <> keyFromStoredKey sk) ->
  match link with Some l => l = bucket_of d (keyFromStoredKey sk) | None => True end ->
  exists d', dictSetKeyAtLink g d sk link = Some d' /\ dict_wf d' /\ elements d' ≡ₚ (sk, None) :: elements d.
Proof.
  intros Hwf Hlen Hfresh Hlink. unfold dictSetKeyAtLink.
  destruct (expand_needed_ok d Hwf) as (b & d1 & -> & Hst & _ & He1). mstep. pose proof (so_wf _ _ Hst) as Hwf1.
  assert (Hins : forall d2, step_ok d1 d2 -> exists d', dictInsertKeyAtLink d2 sk (bucket_of d2 (keyFromStoredKey sk)) = Some d' /\
    dict_wf d' /\ elements d' ≡ₚ (sk, None) :: elements d).
  { intros d2 Hst2. pose proof (step_trans _ _ _ Hst Hst2) as Hst'.
    destruct (insert_ok d2 sk) as (d' & i & c & Hi & Hwf' & Hel & _).
    - apply Hst2.
    - by apply (so_made _ _ Hst2).
    - by rewrite (so_elements _ _ Hst').
    - intros e. rewrite (so_elements _ _ Hst'). apply Hfresh.
    - exists d'. split_and!; [done|done|]. by rewrite Hel, (so_elements _ _ Hst'). }
  destruct (find_again d1 (keyFromStoredKey sk) Hwf1 He1) as (d2 & Hagain & Hst2).
  { intros e. rewrite (so_elements _ _ Hst). apply Hfresh. }
  destruct link as [l|].
  - case_bool_decide as Hc.
    + mstep. injection Hc as E0 E1. rewrite Hlink, <- (same_bucket d d1) by done. apply Hins. by apply step_refl.
    + rewrite Hagain. mstep. by apply Hins.
  - rewrite Hagain. mstep. by apply Hins.
Qed.

Lemma findBucket_ok d k :
  dict_wf d ->
  exists d' found b, dictFindLinkBucket g d k = Some (d', found, b) /\ step_ok d d' /\ found_ok d' k found /\
    (found = None -> match b with Some l => l = bucket_of d' k | None => True end).
Proof.
  intros Hwf. unfold dictFindLinkBucket. pose proof (dictSize_ok d Hwf) as Hsz.
  destruct (Z.eqb_spec (dictSize d) 0) as [H0|H0].
  { exists d, None, None. split_and!; [done|by apply step_refl| |done]. intros e He.
    destruct (elements d); [by apply elem_of_nil in He|]. cbn [length] in Hsz. lia. }
  destruct (findInternal_ok d k Hwf (nonempty_made d Hwf H0)) as (d' & found & b & -> & Hst & Hf & Hb). mstep.
  by exists d', found, (Some b).
Qed.

(** ** Creating and emptying *)

Lemma create_ok : dict_repr (dictCreate : dict) ∅.
Proof.
  split; [|done]. split; cbn; try done.
  - apply ht_wf_reset.
  - apply ht_wf_reset.
  - by left.
  - constructor.
Qed.

Lemma empty_ok d m : dict_repr d m -> dict_repr (dictEmpty d) ∅.
Proof.
  intros [Hwf _]. split; [|done].
  assert (Hb : dictBuckets d = DICTHT_SIZE (dict_exp d false) + DICTHT_SIZE (dict_exp d true)).
  { unfold dictBuckets. apply wrapU_id. unfold inU, dict_exp.
    assert (Hs : forall h, ht_wf h -> 0 <= DICTHT_SIZE (ht_size_exp h) <= 2 ^ 60).
    { intros h Hw. destruct (ht_shape _ Hw) as [[-> _]|[He _]]; [by vm_compute|]. rewrite size_pow by lia.
      pose proof (Z.pow_pos_nonneg 2 (ht_size_exp h)). pose proof (Z.pow_le_mono_r 2 (ht_size_exp h) 60). lia. }
    pose proof (Hs _ (wf_ht0 _ Hwf)). pose proof (Hs _ (wf_ht1 _ Hwf)). cbn [ht]. zpow. lia. }
  split; cbn; try done; [apply ht_wf_reset|apply ht_wf_reset|by left|constructor|].
  unfold dictEmpty. destruct (dictIsRehashing d); cbn -[DICTHT_SIZE dictBuckets];
    rewrite ?bucket_sum_app, (wf_calls _ Hwf); cbn -[DICTHT_SIZE dictBuckets];
    change (dictBuckets (call d rehashingCompleted)) with (dictBuckets d); rewrite Hb; lia.
Qed.

(** ** Finding *)

Lemma entries_chain_at c n : entries (chain_at c n) = drop n (entries c).
Proof.
  revert c. induction n as [|n IH]; intros c; [done|]. cbn [chain_at]. rewrite IH. by destruct c; cbn; rewrite ?drop_nil.
Qed.

Lemma head_drop {A} (l : list A) n : head (drop n l) = l !! n.
Proof. revert n. induction l as [|a l IH]; intros [|n]; cbn; auto. Qed.

Lemma head_key c : dictGetKey c = fst <$> head (entries c).
Proof. by destruct c. Qed.

Lemma points_entry d l e : points d l e -> exists de, entry_at d l = Some de /\ dictGetKey de = Some (fst e).
Proof.
  intros (i & c & Hi & Hc & He). unfold entry_at. rewrite Hi, bucket_nat, Hc. mstep. eexists. split; [done|].
  by rewrite head_key, entries_chain_at, head_drop, He.
Qed.

Lemma find_ok d k :
  dict_wf d ->
  exists d' de, dictFind g d k = Some (d', de) /\ dict_wf d' /\ dict_map d' = dict_map d /\
    head (entries de) = dict_map d !! k /\ chain_kind de.
Proof.
  intros Hwf. unfold dictFind. destruct (findLink_ok d k Hwf) as (d' & found & -> & Hst & Hf).
  mstep. pose proof (dict_map_step d d' Hwf Hst) as Hm. destruct found as [l|].
  - destruct Hf as (e & Hp & Hk). pose proof (dict_map_points _ _ _ (so_wf _ _ Hst) Hp) as Hmk.
    destruct Hp as (i & c & Hi & Hc & He). unfold entry_at. rewrite Hi, bucket_nat, Hc. mstep.
    eexists d', _. split; [reflexivity|]. split_and!; [apply Hst|done| |].
    + rewrite entries_chain_at, <- Hk, <- Hm, Hmk. rewrite <- (take_drop_middle _ _ _ He) at 1.
      rewrite drop_app_length'; [done|]. rewrite length_take. apply lookup_lt_Some in He. lia.
    + assert (Hck : chain_kind c)
        by (eapply bucket_kind, Hc; destruct (l_table l); apply (so_wf _ _ Hst)).
      clear -Hck. revert c Hck. induction (l_pos l) as [|n IH]; intros c Hck; [done|]. apply IH. by apply chain_kind_next.
  - exists d', Null. split_and!; [done|apply Hst|done| |done]. cbn. rewrite <- Hm. symmetry. by apply dict_map_absent.
Qed.


(** [k] calls of [dictRehash] *)
Fixpoint rehash_calls (k n : nat) d : option dict :=
  match k with
  | O => Some d
  | S k => '(_, d) ← dictRehash g d n; rehash_calls k n d
  end.

Lemma rehash_calls_idle (k : nat) n d :
  Z.of_nat n * 10 <= INT32_MAX -> dictIsRehashing d = false -> rehash_calls k n d = Some d.
Proof.
  intros Hn Hr. induction k as [|k IH]; [done|]. cbn [rehash_calls]. unfold dictRehash. rewrite Hr.
  rewrite (proj2 (Z.leb_le _ _) Hn). cbn [cassert negb]. mstep. rewrite orb_true_r. exact IH.
Qed.

(** A blocked call, or any number of them, does nothing. *)
Lemma dictRehash_blocked d n :
  Z.of_nat n * 10 <= INT32_MAX -> blocked d = true -> dictRehash g d n = Some (false, d).
Proof.
  intros Hn Hb. unfold dictRehash. rewrite (proj2 (Z.leb_le _ _) Hn). cbn [cassert]. mstep.
  unfold blocked in Hb. destruct (bool_decide _); [done|]. cbn [orb] in *. by destruct (negb _), (rehash_avoided g d).
Qed.

Lemma rehash_calls_blocked (k : nat) n d :
  Z.of_nat n * 10 <= INT32_MAX -> blocked d = true -> rehash_calls k n d = Some d.
Proof.
  intros Hn Hb. induction k as [|k IH]; [done|]. cbn [rehash_calls]. by rewrite dictRehash_blocked.
Qed.

Lemma rehash_calls_ok (k : nat) n d :
  dict_wf d -> n <> O -> Z.of_nat n * 10 <= INT32_MAX -> blocked d = false ->
  (dictIsRehashing d = true -> DICTHT_SIZE (dict_exp d false) - rehashidx d < Z.of_nat k) ->
  exists d', rehash_calls k n d = Some d' /\ step_ok d d' /\ dictIsRehashing d' = false.
Proof.
  revert d. induction k as [|k IH]; intros d Hwf Hn Hint Hb Hk; cbn [rehash_calls].
  { exists d. split; [done|]. split; [by apply step_refl|]. destruct (dictIsRehashing d) eqn:Hr; [|done].
    destruct (rehashing_wf d Hwf Hr) as (? & _). specialize (Hk eq_refl). lia. }
  destruct (dictIsRehashing d) eqn:Hr.
  - destruct (dictRehash_ok d n Hwf Hn Hint) as (more & d1 & -> & Hst & Hm). mstep. destruct more.
    + destruct Hm as (Hr1 & He & Hlt & _).
      destruct (IH d1 (so_wf _ _ Hst) Hn Hint) as (d2 & -> & Hst2 & Hr2);
        [by rewrite (blocked_exp d d1 He)|intros _; rewrite He; specialize (Hk eq_refl); lia|].
      exists d2. split; [done|]. split; [by eapply step_trans|done].
    + destruct Hm as [Hr1|[_ ?]]; [|congruence]. exists d1. by rewrite rehash_calls_idle.
  - exists d. split; [|split; [by apply step_refl|done]]. exact (rehash_calls_idle (S k) n d Hint Hr).
Qed.

End buckets.

(** ** Contract *)

Section contract.
Context {SK K V : Type} `{EqDecision K, !Countable K} (T : dictType SK K V) (L : dictTypeLaws SK K V T).
Context (g : dictResizeEnable).

#[local] Abbreviation dict := (dict SK V).

Implicit Types (d : dict) (m : gmap K (SK * option V)) (k : K) (sk : SK) (v : V).

(** C10: [dictAdd], with the step of rehashing and the expansion that it makes
    on the way, adds the key when the map does not have it, and otherwise
    changes nothing and reports an error. The table must exist or the dict be
    allowed to make it. *)
Theorem dictAdd_refines d m sk v :
  dict_repr d m -> pauseAutoResize d <= 0 \/ dict_exp d false <> -1 -> Z.of_nat (size m) < DICT_LIMIT ->
  exists ok d' m', dictAdd g d sk v = Some (ok, d') /\ dict_repr d' m' /\
    match m !! keyFromStoredKey sk with
    | None => ok = true /\ m' = <[keyFromStoredKey sk := (sk, if no_value then None else Some v)]> m
    | Some _ => ok = false /\ m' = m
    end.
Proof.
  intros [Hwf <-] Hpa Hl. rewrite dict_map_size in Hl by done. unfold dictAdd.
  destruct (addRaw_ok g d sk Hwf Hpa Hl) as (d1 & r & -> & Hwf1 & Hr). mstep.
  destruct r as [l|l].
  - destruct Hr as (Hp & Hno & Hm). rewrite Hno. destruct no_value eqn:Hnv.
    + by exists true, d1, (dict_map d1).
    + destruct (setVal_map d1 l _ v Hwf1 Hnv Hp) as (d2 & -> & Hwf2 & Hm2).
      exists true, d2, (dict_map d2). split; [done|]. split; [done|]. split; [done|].
      rewrite Hm2, Hm. apply insert_insert_eq.
  - destruct Hr as (e & Hp & Hk & Hm). rewrite <- Hm, <- Hk, (dict_map_points _ _ _ Hwf1 Hp).
    by exists false, d1, (dict_map d1).
Qed.

(** [dictReplace] sets the value of the key, whether the key was there,
    in which case its stored key is kept, or not, and tells which. *)
Theorem dictReplace_refines d m sk v :
  dict_repr d m -> no_value = false -> pauseAutoResize d <= 0 \/ dict_exp d false <> -1 ->
  Z.of_nat (size m) < DICT_LIMIT ->
  exists added d', dictReplace g d sk v = Some (added, d') /\
    added = bool_decide (m !! keyFromStoredKey sk = None) /\
    dict_repr d' (<[keyFromStoredKey sk := (default sk (fst <$> m !! keyFromStoredKey sk), Some v)]> m).
Proof.
  intros [Hwf <-] Hnv Hpa Hl. rewrite dict_map_size in Hl by done. unfold dictReplace.
  destruct (addRaw_ok g d sk Hwf Hpa Hl) as (d1 & r & -> & Hwf1 & Hr). mstep.
  destruct r as [l|l].
  - destruct Hr as (Hp & Hno & Hm). destruct (setVal_map d1 l _ v Hwf1 Hnv Hp) as (d2 & -> & Hwf2 & Hm2).
    exists true, d2. split; [done|]. rewrite Hno. split; [by rewrite bool_decide_true|]. split; [done|].
    rewrite Hm2, Hm. apply insert_insert_eq.
  - destruct Hr as (e & Hp & Hk & Hm). destruct (setVal_map d1 l e v Hwf1 Hnv Hp) as (d2 & -> & Hwf2 & Hm2).
    pose proof (dict_map_points _ _ _ Hwf1 Hp) as Hin. rewrite Hk, Hm in Hin.
    exists false, d2. split; [done|]. rewrite Hin. split; [by rewrite bool_decide_false|]. split; [done|].
    by rewrite Hm2, Hm, Hk.
Qed.

(** [dictFind] returns the entry of the key in the map, or [NULL] when it
    has none, and [dictFetchValue] its value; the steps of rehashing that they
    make do not change the map. *)
Theorem dictFind_refines d m k :
  dict_repr d m ->
  (exists d' de, dictFind g d k = Some (d', de) /\ dict_repr d' m /\ head (entries de) = m !! k) /\
  (no_value = false -> exists d', dictFetchValue g d k = Some (d', snd <$> m !! k) /\ dict_repr d' m).
Proof.
  intros [Hwf <-]. unfold dictFetchValue.
  destruct (find_ok g d k Hwf) as (d' & de & -> & Hwf' & Hm & Hh & Hk). split; [by exists d', de|].
  intros Hnv. exists d'. split; [|done]. mstep. rewrite <- Hh.
  destruct de as [|sk|sk next|sk v next]; cbn in Hk |- *; [done|congruence|destruct Hk; congruence|done].
Qed.

(** [dictDelete] and [dictUnlink] remove the key from the map, in
    whichever table its entry is, and return the entry that was there; the
    table may start to shrink. *)
Theorem dictGenericDelete_refines d m k :
  dict_repr d m ->
  exists d' he, dictGenericDelete g d k = Some (d', he) /\ dict_repr d' (delete k m) /\
    head (entries he) = m !! k /\ dictDelete g d k = Some (bool_decide (is_Some (m !! k)), d').
Proof.
  intros [Hwf <-]. unfold dictDelete.
  destruct (delete_ok g d k Hwf) as (d' & he & -> & Hwf' & _ & Hcase). exists d', he. split; [done|].
  mstep. destruct Hcase as [(-> & Hel & Hno)|(e & Hh & Hk & Hel)].
  - pose proof (dict_map_absent d k Hno) as Hn. rewrite Hn. split; [|done]. split; [done|].
    rewrite delete_id by done. apply dict_map_perm; [apply Hwf|done].
  - assert (Hin : dict_map d !! k = Some e) by (apply dict_map_lookup; [apply Hwf|]; rewrite Hel, elem_of_cons; auto).
    rewrite Hin. split; [|split; [done|rewrite bool_decide_true by eauto; by destruct he]].
    split; [done|]. rewrite <- Hk. by apply dict_map_uncons.
Qed.

(** C11: rehashing, with any positive number [n] of steps per call for which
    [n * 10] fits an [int]. When the policy does not block it, it ends: after as
    many calls of [dictRehash] as the old table has buckets, plus one, the dict
    has one table again and stands for the same map. When the policy blocks it
    ([blocked]: resizing is forbidden, or is to be avoided and the sizes of the
    tables are within the ratio), every call returns 0, as it does when there is
    nothing left to move, and changes nothing, so the two tables stay. *)
Theorem dictRehash_completes d m n :
  dict_repr d m -> n <> O -> Z.of_nat n * 10 <= INT32_MAX ->
  if blocked g d then dictRehash g d n = Some (false, d) /\ forall i : nat, rehash_calls g i n d = Some d
  else exists d', rehash_calls g (S (Z.to_nat (DICTHT_SIZE (dict_exp d false)))) n d = Some d' /\
    dictIsRehashing d' = false /\ dict_repr d' m.
Proof.
  intros [Hwf <-] Hn Hint. destruct (blocked g d) eqn:Hb.
  { split; [by apply dictRehash_blocked|]. intros i. by apply rehash_calls_blocked. }
  destruct (rehash_calls_ok g (S (Z.to_nat (DICTHT_SIZE (dict_exp d false)))) n d Hwf Hn Hint Hb) as (d' & Hc & Hst & Hr).
  - intros Hr. destruct (rehashing_wf d Hwf Hr) as (? & _). lia.
  - exists d'. split_and!; [done|done|]. split; [apply Hst|]. by apply dict_map_step.
Qed.

End contract.

(** ** An example: a dict of integers in the middle of a rehashing *)

#[local] Instance ex_type : dictType Z Z Z := {|
  hashFunction k := u64 k;
  keyCompare := Z.eqb;
  keyFromStoredKey := id;
  resizeAllowed _ _ _ := true;
  no_value := false;
  force_full_rehash := false
|}.

#[local] Instance ex_laws : dictTypeLaws Z Z Z ex_type.
Proof.
  split.
  - intros k1 k2. cbn. case_bool_decide as E; [by apply Z.eqb_eq|by apply Z.eqb_neq].
  - intros k. apply wrapU_range. lia.
Qed.

Definition ex_dict : dict Z Z :=
  mkDict (mkHt [Null; Entry 5 (Some 50) (Entry 1 (Some 10) Null); Entry 2 (Some 20) Null; Null] 3 2)
    (mkHt [Entry 8 (Some 80) Null; Null; Null; Null; Entry 4 (Some 40) Null; Null; Null; Null] 2 3)
    1 0 0 [bucketChanged 12].

Definition ex_map : gmap Z (Z * option Z) := dict_map ex_dict.

Lemma ex_repr : dict_repr ex_dict ex_map.
Proof.
  assert (Hht : forall h : htab Z Z, (ht_size_exp h = 2 \/ ht_size_exp h = 3) ->
    Z.of_nat (length (ht_table h)) = 2 ^ ht_size_exp h ->
    Forall chain_kind (ht_table h) ->
    (forall i c, ht_table h !! i = Some c -> Forall (fun e => slot h (ekey e) = Z.of_nat i) (entries c)) ->
    ht_wf h).
  { intros h He Hl Hk Hp. split; [right; split; [lia|done]| |].
    - intros i c e Hi Hin. pose proof (Hp i c Hi) as HF. rewrite Forall_forall in HF. by apply HF.
    - by apply Forall_forall. }
  split; [|done]. split.
  - apply Hht; [by left|done|repeat constructor|].
    intros i c Hi. do 4 (destruct i as [|i]; [cbn in Hi; simplify_eq; repeat constructor|]). done.
  - apply Hht; [by right|done|repeat constructor|].
    intros i c Hi. do 8 (destruct i as [|i]; [cbn in Hi; simplify_eq; repeat constructor|]). done.
  - done.
  - done.
  - right. cbn. split_and!; try done. intros i c Hi Hc. destruct i; [|lia]. by simplify_eq/=.
  - apply (bool_decide_unpack _). vm_compute. done.
  - by vm_compute.
  - done.
  - done.
Qed.

Abbreviation ENABLE := DICT_RESIZE_ENABLE.

(** A new key goes to the second table. *)
Lemma dictAdd_refines_witness :
  exists ok d' m', dictAdd ENABLE ex_dict 7 70 = Some (ok, d') /\ dict_repr d' m' /\
    match ex_map !! 7 with
    | None => ok = true /\ m' = <[7 := (7, Some 70)]> ex_map
    | Some _ => ok = false /\ m' = ex_map
    end.
Proof.
  apply (dictAdd_refines ex_type ex_laws ENABLE ex_dict ex_map 7 70).
  - exact ex_repr.
  - left. done.
  - by vm_compute.
Defined.

Lemma dictReplace_refines_witness :
  exists added d', dictReplace ENABLE ex_dict 5 55 = Some (added, d') /\
    added = bool_decide (ex_map !! 5 = None) /\
    dict_repr d' (<[5 := (default 5 (fst <$> ex_map !! 5), Some 55)]> ex_map).
Proof.
  apply (dictReplace_refines ex_type ex_laws ENABLE ex_dict ex_map 5 55).
  - exact ex_repr.
  - reflexivity.
  - left. done.
  - by vm_compute.
Defined.

Lemma dictFind_refines_witness :
  exists d', dictFetchValue ENABLE ex_dict 1 = Some (d', snd <$> ex_map !! 1) /\ dict_repr d' ex_map.
Proof.
  apply (dictFind_refines ex_type ex_laws ENABLE ex_dict ex_map 1); [exact ex_repr|reflexivity].
Defined.

Lemma dictGenericDelete_refines_witness :
  exists d' he, dictGenericDelete ENABLE ex_dict 8 = Some (d', he) /\ dict_repr d' (delete 8 ex_map) /\
    head (entries he) = ex_map !! 8 /\ dictDelete ENABLE ex_dict 8 = Some (bool_decide (is_Some (ex_map !! 8)), d').
Proof. apply (dictGenericDelete_refines ex_type ex_laws ENABLE ex_dict ex_map 8). exact ex_repr. Defined.

(** The example is done in five calls; its table only doubles, so that
    [DICT_RESIZE_AVOID] leaves it as it is. *)
Lemma dictRehash_completes_witness :
  (exists d', rehash_calls ENABLE 5 1 ex_dict = Some d' /\ dictIsRehashing d' = false /\ dict_repr d' ex_map) /\
  dictRehash DICT_RESIZE_AVOID ex_dict 100 = Some (false, ex_dict).
Proof.
  split.
  - apply (dictRehash_completes ex_type ENABLE ex_dict ex_map 1); [exact ex_repr|discriminate|discriminate].
  - apply (dictRehash_completes ex_type DICT_RESIZE_AVOID ex_dict ex_map 100); [exact ex_repr|discriminate|discriminate].
Defined.

Example ex_run :
  ('(_, d) ← dictAdd ENABLE ex_dict 9 90; '(d, v) ← dictFetchValue ENABLE d 9; Some (v, dictSize d))
  = Some (Some (Some 90), 6).
Proof. reflexivity. Qed.
