(* ===== verification/DictScan.v ===== *)
(** * Hash tables: scanning with a cursor

    [dictScan] visits the buckets in the order of their reversed numbers, so
    that a cursor stays meaningful when the dict is resized between two calls.
    The position of a key in this order is the reversal of its hash; a call
    returns every entry whose position is between the reversals of the old and
    of the new cursor, whatever the size of the tables, and this is why no
    element that stays in the dict is missed. *)

From stdpp Require Import gmap.
From S2P Require Import Prelude Gf2 Dict DictOps.

#[local] Open Scope Z_scope.

(** ** Reversal of the bits *)

(** One step of [rev] with its mask *)
Definition rev_swap (s m v : Z) : Z :=
  Z.lxor (Z.land (Z.shiftr v s) m) (Z.land (u64 (Z.shiftl v s)) (u64 (Z.lnot m))).

#[local] Instance linear_rev_swap s m f : Linear f -> Linear (fun v => rev_swap s m (f v)).
Proof. unfold rev_swap. intros. apply _. Qed.

Definition rev_masks : list (Z * Z) :=
  [(32, 0x00000000FFFFFFFF); (16, 0x0000FFFF0000FFFF); (8, 0x00FF00FF00FF00FF);
   (4, 0x0F0F0F0F0F0F0F0F); (2, 0x3333333333333333); (1, 0x5555555555555555)].

Lemma land_disjoint a b m : Z.land (Z.land a m) (Z.land b (u64 (Z.lnot m))) = 0.
Proof.
  apply Z.bits_inj'. intros i Hi. unfold wrapU.
  rewrite !Z.land_spec, Z.bits_0. destruct (Z.lt_ge_cases i 64).
  - rewrite Z.mod_pow2_bits_low, Z.lnot_spec by lia. destruct (Z.testbit m i); by rewrite ?andb_false_r.
  - rewrite Z.mod_pow2_bits_high by lia. by rewrite !andb_false_r.
Qed.

Lemma rev_swaps v : rev v = foldl (fun v sm => rev_swap (fst sm) (snd sm) v) v rev_masks.
Proof.
  unfold rev, rev_masks. cbn [foldl fst snd rev_step].
  repeat match goal with |- context [Z.lxor ?a (u64 (Z.shiftl ?b ?c))] =>
    let m := eval vm_compute in (Z.lxor a (u64 (Z.shiftl b c))) in
    change (Z.lxor a (u64 (Z.shiftl b c))) with m end.
  unfold rev_swap. rewrite !lor_lxor by apply land_disjoint. done.
Qed.

#[local] Instance linear_rev f : Linear f -> Linear (fun v => rev (f v)).
Proof. intros Hf x y. rewrite !rev_swaps. unfold rev_masks. cbn [foldl fst snd]. by rewrite Hf, !(linear_rev_swap _ _ (fun v => v) _). Qed.

Lemma rev_testbit v i : inU 64 v -> 0 <= i < 64 -> Z.testbit (rev v) i = Z.testbit v (63 - i).
Proof.
  intros Hv Hi. assert (H : (if Z.testbit (rev v) i then 1 else 0) = if Z.testbit v (63 - i) then 1 else 0).
  { revert v Hv. assert (Hb : forallb (fun i => basis_agree 64 (fun v => if Z.testbit (rev v) i then 1 else 0)
      (fun v => if Z.testbit v (63 - i) then 1 else 0)) (seqZ 0 64) = true) by (vm_compute; reflexivity).
    rewrite forallb_forall in Hb. specialize (Hb i). rewrite <- list_elem_of_In, elem_of_seqZ in Hb.
    apply (linear_ext 64 _ _ (Hb ltac:(lia))). }
  by destruct (Z.testbit (rev v) i), (Z.testbit v (63 - i)).
Qed.

Lemma rev_range v : inU 64 (rev v).
Proof.
  rewrite rev_swaps. unfold rev_masks. cbn [foldl fst snd]. unfold rev_swap at 1.
  apply lxor_range; [lia|apply land_range; [lia|unfold inU; zpow; lia]|].
  apply land_range; [lia|]. apply wrapU_range. lia.
Qed.

Lemma rev_rev v : inU 64 v -> rev (rev v) = v.
Proof.
  intros Hv. apply Z.bits_inj'. intros i Hi. destruct (Z.lt_ge_cases i 64).
  - rewrite !rev_testbit by (done || lia || apply rev_range). f_equal. lia.
  - pose proof (rev_range (rev v)) as Hr. rewrite inU_bits in Hr, Hv by lia. by rewrite Hr, Hv.
Qed.

Lemma rev_0 : rev 0 = 0.
Proof. reflexivity. Qed.

Lemma rev_eq_0 v : inU 64 v -> rev v = 0 -> v = 0.
Proof. intros Hv Hr. by rewrite <- (rev_rev v), Hr, rev_0. Qed.

(** ** Cursors *)

(** Buckets of a table of [2 ^ x] buckets are blocks of the order. *)
Definition block (x : Z) : Z := 2 ^ (64 - x).

Lemma block_pos x : x <= 64 -> 0 < block x.
Proof. intros. apply pow2_pos. lia. Qed.

(** Hashes in the same block are in the same bucket. *)
Lemma same_block x h v :
  0 <= x <= 64 -> inU 64 h -> inU 64 v -> rev h / block x = rev v / block x -> h mod 2 ^ x = v mod 2 ^ x.
Proof.
  intros Hx Hh Hv Hb. apply Z.bits_inj'. intros i Hi. destruct (Z.lt_ge_cases i x).
  - rewrite !Z.mod_pow2_bits_low by lia.
    apply (f_equal (fun z => Z.testbit z (x - 1 - i))) in Hb. unfold block in Hb.
    rewrite !Z.div_pow2_bits, !rev_testbit in Hb by (done || lia).
    replace (63 - (x - 1 - i + (64 - x))) with i in Hb by lia. done.
  - by rewrite !Z.mod_pow2_bits_high by lia.
Qed.

(** The start of the next block *)
Definition block_end (x r : Z) : Z := (r / block x + 1) * block x.

Lemma block_end_range x r : 0 <= x <= 64 -> inU 64 r -> r < block_end x r <= 2 ^ 64.
Proof.
  intros Hx Hr. unfold block_end, inU in *. pose proof (block_pos x).
  pose proof (Z.div_mod r (block x)). pose proof (Z.mod_pos_bound r (block x)).
  split; [lia|]. assert (Hs : 2 ^ 64 = 2 ^ x * block x) by (unfold block; rewrite <- Z.pow_add_r by lia; f_equal; lia).
  assert (r / block x < 2 ^ x) by (apply Z.div_lt_upper_bound; lia). nia.
Qed.

Lemma lor_ones r n : 0 <= n -> Z.lor r (Z.ones n) = (r / 2 ^ n + 1) * 2 ^ n - 1.
Proof.
  intros Hn. pose proof (pow2_pos n Hn).
  assert (Z.lor r (Z.ones n) = Z.lor (r / 2 ^ n * 2 ^ n) (Z.ones n)) as ->.
  { apply Z.bits_inj'. intros i Hi. rewrite !Z.lor_spec, Z.testbit_ones_nonneg by lia.
    destruct (Z.ltb_spec i n); [by rewrite !orb_true_r|].
    rewrite Z.mul_pow2_bits, Z.div_pow2_bits by lia. do 2 f_equal. lia. }
  pose proof (Z.add_lor_land (r / 2 ^ n * 2 ^ n) (Z.ones n)) as Ha.
  rewrite (Z.land_ones _ n), Z.mod_mul in Ha by lia. rewrite Z.ones_equiv in *. lia.
Qed.

Lemma mask_ones x : 0 <= x < 64 -> DICTHT_SIZE_MASK x = Z.ones x.
Proof.
  intros Hx. unfold DICTHT_SIZE_MASK. destruct (Z.eqb_spec x (-1)); [lia|]. rewrite size_pow by done.
  pose proof (pow2_pos x). pose proof (Z.pow_lt_mono_r 2 x 64).
  rewrite wrapU_id by (unfold inU; lia). rewrite Z.ones_equiv. lia.
Qed.

(** Setting the bits that the mask does not cover fills the block. *)
Lemma rev_fill x v :
  0 <= x < 64 -> inU 64 v ->
  rev (Z.lor v (u64 (Z.lnot (DICTHT_SIZE_MASK x)))) = block_end x (rev v) - 1.
Proof.
  intros Hx Hv. rewrite mask_ones by done. unfold block_end, block. rewrite <- lor_ones by lia.
  assert (Hl : inU 64 (u64 (Z.lnot (Z.ones x)))) by (apply wrapU_range; lia).
  apply Z.bits_inj'. intros i Hi. destruct (Z.lt_ge_cases i 64).
  - rewrite rev_testbit by (lia || by apply lor_range; [lia|..]).
    rewrite !Z.lor_spec, rev_testbit by (done || lia). f_equal. unfold wrapU.
    rewrite Z.mod_pow2_bits_low, Z.lnot_spec by lia. rewrite !Z.testbit_ones_nonneg by lia.
    destruct (Z.ltb_spec (63 - i) x), (Z.ltb_spec i (64 - x)); done || lia.
  - pose proof (rev_range (Z.lor v (u64 (Z.lnot (Z.ones x))))) as Hr. rewrite inU_bits in Hr by lia.
    rewrite Hr by lia. pose proof (rev_range v) as Hr'. rewrite inU_bits in Hr' by lia.
    rewrite Z.lor_spec, Hr', Z.testbit_ones_nonneg by lia. destruct (Z.ltb_spec i (64 - x)); [lia|done].
Qed.

Lemma next_cursor_ok x v :
  0 <= x < 64 -> inU 64 v ->
  inU 64 (next_cursor v (DICTHT_SIZE_MASK x)) /\ rev (next_cursor v (DICTHT_SIZE_MASK x)) = u64 (block_end x (rev v)).
Proof.
  intros Hx Hv. unfold next_cursor. split; [apply rev_range|].
  rewrite rev_rev by (apply wrapU_range; lia). rewrite rev_fill by done. f_equal. lia.
Qed.

(** Where a scan stops: the cursor 0 is the end. *)
Definition upto (v : Z) : Z := if v =? 0 then 2 ^ 64 else rev v.

Lemma upto_eq v n : inU 64 v -> rev v = u64 n -> 0 < n <= 2 ^ 64 -> upto v = n.
Proof.
  intros Hv Hr Hn. unfold upto. destruct (Z.eq_dec n (2 ^ 64)) as [->|Hne].
  - rewrite (rev_eq_0 v Hv) by (by rewrite Hr). done.
  - rewrite wrapU_id in Hr by (unfold inU; lia).
    destruct (Z.eqb_spec v 0) as [->|]; [rewrite rev_0 in Hr; lia|done].
Qed.

Lemma in_block x r p : 0 <= x <= 64 -> 0 <= r <= p -> p < block_end x r -> p / block x = r / block x.
Proof.
  intros Hx Hr Hp. unfold block_end in Hp. pose proof (block_pos x).
  pose proof (Z.div_le_mono r p (block x)). assert (p / block x < r / block x + 1) by (apply Z.div_lt_upper_bound; lia).
  lia.
Qed.

(** A larger table has smaller blocks, and its blocks nest. *)
Lemma block_nest x0 x1 : 0 <= x0 <= x1 -> x1 <= 64 -> block x0 = 2 ^ (x1 - x0) * block x1.
Proof. intros. unfold block. rewrite <- Z.pow_add_r by lia. f_equal. lia. Qed.

(** The next small block starts inside the large block, or at its end. *)
Lemma block_end_nest x0 x1 r :
  0 <= x0 <= x1 -> x1 <= 64 -> 0 <= r ->
  block_end x1 r <= block_end x0 r /\
  (block_end x1 r < block_end x0 r -> block_end x0 (block_end x1 r) = block_end x0 r) /\
  (block_end x1 r = block_end x0 r <-> block_end x1 r mod block x0 = 0).
Proof.
  intros Hx Hx1 Hr. pose proof (block_pos x1) as Hb1. pose proof (block_pos x0) as Hb0.
  pose proof (block_nest x0 x1 Hx Hx1) as Hn. pose proof (pow2_pos (x1 - x0)) as Hk.
  set (k := 2 ^ (x1 - x0)) in *. unfold block_end.
  assert (Hd : r / block x0 = r / block x1 / k) by (rewrite Z.div_div by lia; f_equal; lia).
  set (q := r / block x1) in *. pose proof (Z.div_mod q k) as Hq. pose proof (Z.mod_pos_bound q k) as Hm.
  rewrite Hd, Hn in *. set (b := q / k) in *.
  assert (Hle : (q + 1) * block x1 <= (b + 1) * (k * block x1)) by nia.
  assert (Hdiv : forall z, z * block x1 / (k * block x1) = z / k) by (intros z; apply Z.div_mul_cancel_r; lia).
  split_and!; [done| |split].
  - intros Hlt. rewrite Hdiv. replace ((q + 1) / k) with b; [done|].
    apply Z.div_unique with (q mod k + 1); [|lia]. left. nia.
  - intros ->. by rewrite Z.mod_mul by lia.
  - intros H0. rewrite Z.mul_mod_distr_r in H0 by lia.
    assert (Hqk : (q + 1) mod k = 0) by nia. apply Z.mod_divide in Hqk as [z Hz]; [|lia].
    assert (z = b + 1) by nia. nia.
Qed.

Lemma block_end_length x0 x1 r :
  0 <= x0 <= x1 -> x1 <= 64 -> block_end x0 r - r / block x1 * block x1 <= block x0.
Proof.
  intros Hx Hx1. unfold block_end. pose proof (block_nest x0 x1 Hx Hx1) as Hn.
  pose proof (pow2_pos (x1 - x0) ltac:(lia)). pose proof (block_pos x1 Hx1).
  set (b1 := block x1) in *. set (k := 2 ^ (x1 - x0)) in *.
  rewrite Hn, (Z.mul_comm k), <- Z.div_div by lia. pose proof (Z.mul_div_le (r / b1) k). nia.
Qed.

(** The end of the loop over the expansions: the bits between the two masks *)
Lemma expansions_end x0 x1 w :
  0 <= x0 <= x1 -> x1 < 64 -> inU 64 w -> rev w mod block x1 = 0 ->
  (Z.land w (Z.lxor (DICTHT_SIZE_MASK x0) (DICTHT_SIZE_MASK x1)) =? 0) = (rev w mod block x0 =? 0).
Proof.
  intros Hx Hx1 Hw H1. rewrite !mask_ones by lia. unfold block in *.
  assert (Hlow : forall n r, 0 <= n -> r mod 2 ^ n = 0 <-> forall i, 0 <= i < n -> Z.testbit r i = false).
  { intros n r Hn. split.
    - intros Hr i Hi. rewrite <- (Z.mod_pow2_bits_low r n) by lia. rewrite Hr. apply Z.bits_0.
    - intros Hr. apply Z.bits_inj'. intros i Hi. rewrite Z.bits_0. destruct (Z.lt_ge_cases i n).
      + rewrite Z.mod_pow2_bits_low by lia. apply Hr. lia.
      + by rewrite Z.mod_pow2_bits_high by lia. }
  rewrite Hlow in H1 by lia. apply eq_bool_prop_intro. rewrite !Is_true_true, !Z.eqb_eq, Hlow by lia. split.
  - intros Hl i Hi. destruct (Z.lt_ge_cases i (64 - x1)); [apply H1; lia|].
    rewrite rev_testbit by (done || lia). apply (f_equal (fun z => Z.testbit z (63 - i))) in Hl.
    rewrite Z.land_spec, Z.lxor_spec, !Z.testbit_ones_nonneg, Z.bits_0 in Hl by lia.
    destruct (Z.ltb_spec (63 - i) x0), (Z.ltb_spec (63 - i) x1); try lia. by rewrite andb_true_r in Hl.
  - intros Hl. apply Z.bits_inj'. intros i Hi.
    rewrite Z.land_spec, Z.lxor_spec, !Z.testbit_ones_nonneg, Z.bits_0 by lia.
    destruct (Z.ltb_spec i x0), (Z.ltb_spec i x1); try lia; cbn; rewrite ?andb_false_r, ?andb_true_r; try done.
    specialize (Hl (63 - i)). rewrite rev_testbit in Hl by (done || lia).
    replace (63 - (63 - i)) with i in Hl by lia. apply Hl. lia.
Qed.

(** ** Steps of a scan *)

Section scan.
Context {SK K V : Type} `{EqDecision K, !Countable K} {T : dictType SK K V} {L : dictTypeLaws SK K V T}.

#[local] Abbreviation dict := (dict SK V).
#[local] Abbreviation entry := (SK * option V)%type.

Implicit Types (d : dict) (t : bool) (e : entry) (k : K).

(** The place of a key in the order *)
Definition position (k : K) : Z := rev (hashFunction k).

Lemma position_range k : 0 <= position k < 2 ^ 64.
Proof. apply rev_range. Qed.

(** A bucket holds the entries of its block. *)
Lemma scan_bucket_ok d t v :
  ht_wf (ht d t) -> dict_exp d t <> -1 -> inU 64 v ->
  exists es, dictScanDefragBucket d t (Z.land v (DICTHT_SIZE_MASK (dict_exp d t))) = Some es /\
    (forall e, e ∈ ht_entries (ht d t) ->
       position (ekey e) / block (dict_exp d t) = rev v / block (dict_exp d t) -> e ∈ es) /\
    (forall e, e ∈ es -> e ∈ ht_entries (ht d t)).
Proof.
  intros Hw He Hv. unfold dict_exp in *. destruct (ht_shape _ Hw) as [[? _]|[Hx Hl]]; [done|].
  rewrite mask_land by lia. unfold dictScanDefragBucket.
  pose proof (Z.mod_pos_bound v (2 ^ ht_size_exp (ht d t))). pose proof (pow2_pos (ht_size_exp (ht d t))).
  destruct (lookup_lt_is_Some_2 (ht_table (ht d t)) (Z.to_nat (v mod 2 ^ ht_size_exp (ht d t)))) as [c Hc]; [lia|].
  rewrite <- (Z2Nat.id (v mod _)) by lia. rewrite bucket_nat, Hc. mstep.
  eexists. split; [reflexivity|]. split.
  - intros e Hin Hb. apply tbl_entries_elem in Hin as (i & c' & Hi & Hin).
    pose proof (bucket_place _ _ _ _ Hw Hi Hin) as Hs. rewrite slot_mod in Hs by done.
    rewrite (same_block (ht_size_exp (ht d t)) _ v) in Hs by (done || lia || apply hash_range).
    assert (i = Z.to_nat (v mod 2 ^ ht_size_exp (ht d t))) as -> by lia. by simplify_eq.
  - intros e Hin. apply tbl_entries_elem. eauto.
Qed.

(** The loop over the expansions reaches the end of the block of the smaller
    table, and returns the entries on the way. *)
Lemma expansions_ok fuel d t x0 v emitted :
  ht_wf (ht d t) -> dict_exp d t <> -1 -> 0 <= x0 <= dict_exp d t -> inU 64 v ->
  block_end x0 (rev v) - rev v / block (dict_exp d t) * block (dict_exp d t) <= Z.of_nat fuel * block (dict_exp d t) ->
  exists v' es, scan_expansions fuel d t (DICTHT_SIZE_MASK x0) (DICTHT_SIZE_MASK (dict_exp d t)) v emitted
      = Some (v', emitted ++ es) /\ inU 64 v' /\ upto v' = block_end x0 (rev v) /\
    (forall e, e ∈ ht_entries (ht d t) -> rev v <= position (ekey e) < upto v' -> e ∈ es) /\
    (forall e, e ∈ es -> e ∈ ht_entries (ht d t)).
Proof.
  intros Hw He Hx0. assert (Hx : dict_exp d t <= 60) by (destruct (ht_shape _ Hw) as [[? _]|[? _]]; [done|unfold dict_exp; lia]).
  set (x1 := dict_exp d t) in *. pose proof (block_pos x1) as Hb1.
  revert v emitted. induction fuel as [|fuel IH]; intros v emitted Hv Hf.
  { pose proof (block_end_range x0 (rev v) ltac:(lia) (rev_range v)).
    pose proof (Z.div_mod (rev v) (block x1)). pose proof (Z.mod_pos_bound (rev v) (block x1)). lia. }
  cbn [scan_expansions]. destruct (scan_bucket_ok d t v Hw He Hv) as (es & Hes & Hin & Hsub). fold x1 in Hes, Hin.
  rewrite Hes. mstep. destruct (next_cursor_ok x1 v) as [Hv1 Hr1]; [lia|done|].
  set (v1 := next_cursor v (DICTHT_SIZE_MASK x1)) in *. clearbody v1.
  pose proof (rev_range v) as Hrv. pose proof (block_end_range x1 (rev v) ltac:(lia) Hrv) as Hbe.
  assert (Hr0 : 0 <= rev v) by (unfold inU in Hrv; lia).
  destruct (block_end_nest x0 x1 (rev v)) as (Hle & Hlt & Heq); [lia|lia|done|].
  pose proof (block_end_range x0 (rev v) ltac:(lia) Hrv) as Hbe0.
  assert (Hin' : forall e, e ∈ ht_entries (ht d t) -> rev v <= position (ekey e) < block_end x1 (rev v) -> e ∈ es).
  { intros e Hh Hp. apply Hin; [done|]. apply in_block; lia. }
  assert (Hm1 : rev v1 mod block x1 = 0).
  { rewrite Hr1. unfold wrapU. rewrite (block_nest 0 x1 ltac:(lia) ltac:(lia) : 2 ^ 64 = _) at 1.
    unfold block_end. rewrite Z.mul_mod_distr_r by (pose proof (pow2_pos (x1 - 0)); lia). apply Z.mod_mul. lia. }
  rewrite expansions_end by (done || lia).
  destruct (Z.eq_dec (block_end x1 (rev v)) (block_end x0 (rev v))) as [E|Hne].
  - assert (rev v1 mod block x0 = 0) as ->.
    { rewrite Hr1, E. unfold wrapU. rewrite (block_nest 0 x0 ltac:(lia) ltac:(lia) : 2 ^ 64 = _) at 1.
      unfold block_end. pose proof (block_pos x0). pose proof (pow2_pos (x0 - 0)).
      rewrite Z.mul_mod_distr_r by lia. apply Z.mod_mul. lia. }
    rewrite Z.eqb_refl. assert (Hup : upto v1 = block_end x0 (rev v)) by (apply upto_eq; [done|by rewrite Hr1, E|lia]).
    exists v1, es. split_and!; [done|done|done| |done]. rewrite Hup, <- E. done.
  - rewrite wrapU_id in Hr1 by (unfold inU; lia).
    destruct (Z.eqb_spec (rev v1 mod block x0) 0) as [E0|_]; [rewrite Hr1, <- Heq in E0; lia|].
    assert (Hsame : block_end x0 (rev v1) = block_end x0 (rev v)) by (rewrite Hr1; apply Hlt; lia).
    destruct (IH v1 (emitted ++ es) Hv1) as (v' & es' & -> & Hv' & Hup & Hin2 & Hsub2).
    { rewrite Hsame, Hr1. unfold block_end at 2. rewrite Z.div_mul by lia. lia. }
    exists v', (es ++ es'). rewrite app_assoc. split; [done|]. split; [done|]. split; [congruence|]. split.
    + intros e Hh Hp. apply elem_of_app. destruct (Z.lt_ge_cases (position (ekey e)) (rev v1)).
      * left. apply Hin'; [done|]. rewrite <- Hr1. lia.
      * right. apply Hin2; [done|lia].
    + intros e [Hh|Hh]%elem_of_app; auto.
Qed.
Lemma scan_ok d v :
  dict_wf d -> inU 64 v ->
  exists v' es, dictScan d v = Some (v', es) /\ inU 64 v' /\
    (forall e, e ∈ elements d -> rev v <= position (ekey e) < upto v' -> e ∈ es) /\
    (forall e, e ∈ es -> e ∈ elements d) /\
    (forall x, dict_exp d false <= x <= 64 -> dict_exp d true <= x -> 0 <= x -> block_end x (rev v) <= upto v').
Proof.
  intros Hwf Hv. unfold dictScan. pose proof (rev_range v) as Hrv. assert (Hr0 : 0 <= rev v) by (unfold inU in Hrv; lia).
  destruct (Z.eqb_spec (dictSize d) 0) as [H0|H0].
  { exists 0, []. split; [done|]. split; [unfold inU; zpow; lia|]. split_and!.
    - intros e He. rewrite dictSize_ok in H0 by done. destruct (elements d); [done|]. cbn [length] in H0. lia.
    - intros e He. by apply elem_of_nil in He.
    - intros x Hx _ Hx0. apply (block_end_range x (rev v)); [lia|done]. }
  assert (Hew : forall t, dict_exp d t <> -1 -> ht_wf (ht d t) /\ 2 <= dict_exp d t <= 60).
  { intros t He. assert (Hw : ht_wf (ht d t)) by (destruct t; apply Hwf).
    split; [done|]. unfold dict_exp in *. destruct (ht_shape _ Hw) as [[? _]|[? _]]; done. }
  pose proof (nonempty_made d Hwf H0) as He0. destruct (dictIsRehashing d) eqn:Hr; cbn [negb].
  - destruct (rehashing_wf d Hwf Hr) as (_ & _ & He1 & Hne & _).
    assert (Het : forall t, dict_exp d t <> -1) by (by intros []).
    set (t0 := DICTHT_SIZE (dict_exp d false) >? DICTHT_SIZE (dict_exp d true)).
    assert (Hlt : dict_exp d t0 <= dict_exp d (negb t0)).
    { unfold t0. destruct (Hew false He0) as [_ Hx0]. destruct (Hew true He1) as [_ Hx1]. rewrite !size_pow by lia.
      rewrite Z.gtb_ltb. destruct (Z.ltb_spec (2 ^ dict_exp d true) (2 ^ dict_exp d false)) as [Hl|Hl]; cbn [negb].
      - apply Z.pow_lt_mono_r_iff in Hl; lia.
      - apply Z.pow_le_mono_r_iff in Hl; lia. }
    assert (Hsplit : forall e, e ∈ elements d <-> e ∈ ht_entries (ht d t0) \/ e ∈ ht_entries (ht d (negb t0))).
    { intros e. unfold elements. rewrite elem_of_app. destruct t0; cbn; tauto. }
    clearbody t0. destruct (Hew t0 (Het t0)) as [Hw0 Hx0]. destruct (Hew (negb t0) (Het _)) as [Hw1 Hx1].
    destruct (scan_bucket_ok d t0 v Hw0 (Het _) Hv) as (es0 & -> & Hin0 & Hsub0). mstep.
    assert (Hbl : block (dict_exp d t0) <= Z.of_nat (length (ht_table (ht d (negb t0)))) * block (dict_exp d (negb t0))).
    { rewrite (table_size d _ Hwf (Het _)), size_pow by lia.
      rewrite (block_nest (dict_exp d t0) (dict_exp d (negb t0))) by lia.
      pose proof (block_pos (dict_exp d (negb t0))). apply Z.mul_le_mono_nonneg_r; [lia|].
      apply Z.pow_le_mono_r; lia. }
    destruct (expansions_ok (length (ht_table (ht d (negb t0)))) d (negb t0) (dict_exp d t0) v es0 Hw1 (Het _))
      as (v' & es & -> & Hv' & Hup & Hin & Hsub); [lia|done| |].
    { etrans; [|exact Hbl]. apply block_end_length; lia. }
    exists v', (es0 ++ es). split_and!; [done|done| | |].
    + intros e He Hp. apply elem_of_app. apply Hsplit in He as [He|He]; [left|right; by apply Hin].
      apply Hin0; [done|]. apply in_block; lia.
    + intros e [He|He]%elem_of_app; apply Hsplit; auto.
    + intros x Hx Hx' Hx''. rewrite Hup. apply block_end_nest; [destruct t0; cbn in *; lia|lia|done].
  - destruct (not_rehashing d Hwf Hr) as [_ Hh1]. destruct (Hew false He0) as [Hw0 Hx0].
    destruct (scan_bucket_ok d false v Hw0 He0 Hv) as (es & -> & Hin & Hsub). mstep.
    destruct (next_cursor_ok (dict_exp d false) v) as [Hv1 Hr1]; [lia|done|].
    pose proof (block_end_range (dict_exp d false) (rev v) ltac:(lia) Hrv) as Hbe.
    assert (Hel : elements d = ht_entries (ht0 d)) by (unfold elements; rewrite Hh1; apply app_nil_r).
    eexists _, es. split; [reflexivity|]. split; [done|]. rewrite (upto_eq _ _ Hv1 Hr1) by lia. rewrite Hel.
    split_and!; [|done|].
    + intros e He Hp. apply Hin; [done|]. apply in_block; lia.
    + intros x Hx _ Hx''. apply block_end_nest; [lia|lia|done].
Qed.

(** ** A scan over the states that the dict goes through *)

(** A call of [dictScan] in each state, until the cursor is 0 again: the last
    cursor and everything that was returned *)
Fixpoint scan_states (ds : list dict) (v : Z) : option (Z * list entry) :=
  match ds with
  | [] => Some (v, [])
  | d :: ds =>
      '(v, es) ← dictScan d v;
      if v =? 0 then Some (0, es) else
      '(v, es') ← scan_states ds v;
      Some (v, es ++ es')
  end.

Lemma scan_states_ok ds v x :
  0 <= x <= 64 -> inU 64 v ->
  Forall (fun d => dict_wf d /\ dict_exp d false <= x /\ dict_exp d true <= x) ds ->
  2 ^ 64 - rev v / block x * block x <= Z.of_nat (length ds) * block x ->
  exists es, scan_states ds v = Some (0, es) /\
    forall k, Forall (fun d => exists e, e ∈ elements d /\ ekey e = k) ds -> rev v <= position k ->
      exists e, e ∈ es /\ ekey e = k.
Proof.
  intros Hx Hv Hds. revert v Hv. pose proof (block_pos x) as Hb.
  induction Hds as [|d ds (Hwf & Hx0 & Hx1) Hds IH]; intros v Hv Hl.
  { pose proof (rev_range v) as Hrv. unfold inU in Hrv. cbn [length] in Hl.
    pose proof (Z.mul_div_le (rev v) (block x)). lia. }
  cbn [scan_states length] in *. destruct (scan_ok d v Hwf Hv) as (v' & es & -> & Hv' & Hin & _ & Hpr).
  mstep. specialize (Hpr x ltac:(lia) Hx1 ltac:(lia)). unfold upto in *.
  destruct (Z.eqb_spec v' 0) as [->|Hne].
  - exists es. split; [done|]. intros k Hk Hp. apply Forall_cons in Hk as [(e & He & <-) _].
    exists e. split; [|done]. apply Hin; [done|]. pose proof (position_range (ekey e)). lia.
  - destruct (IH v' Hv') as (es' & -> & Hin').
    { unfold block_end in Hpr. pose proof (Z.div_le_mono _ _ (block x) ltac:(lia) Hpr) as Hdm.
      rewrite Z.div_mul in Hdm by lia. nia. }
    mstep. exists (es ++ es'). split; [done|]. intros k Hk Hp. apply Forall_cons in Hk as [He Hk].
    destruct (Z.lt_ge_cases (position k) (rev v')).
    + destruct He as (e & He & <-). exists e. split; [|done]. apply elem_of_app. left. apply Hin; [done|lia].
    + destruct (Hin' k Hk) as (e & He' & Hke); [lia|]. exists e. split; [|done]. apply elem_of_app. by right.
Qed.


End scan.

(** ** Contract *)

(** C9: a scan misses nothing and ends. The dict may change between the calls
    of [dictScan] in any way, its tables may be resized and a rehashing may be
    at any point: when a key is in the dict at every call, it is returned by
    one of them, and the cursor is back at 0 after at most as many calls as
    the largest table ever has buckets. *)
Theorem dictScan_complete {SK K V : Type} `{EqDecision K, !Countable K} (T : dictType SK K V)
    (L : dictTypeLaws SK K V T) (ds : list (dict SK V)) (ms : list (gmap K (SK * option V))) (k : K) (x : Z) :
  Forall2 dict_repr ds ms -> Forall (fun d => dict_exp d false <= x /\ dict_exp d true <= x) ds ->
  0 <= x <= 60 -> 2 ^ x <= Z.of_nat (length ds) ->
  exists es, scan_states ds 0 = Some (0, es) /\
    (Forall (fun m => is_Some (m !! k)) ms -> exists e, e ∈ es /\ ekey e = k).
Proof.
  intros Hrep Hx Hr Hlen.
  assert (Hwf : Forall (fun d => dict_wf d /\ dict_exp d false <= x /\ dict_exp d true <= x) ds).
  { clear Hlen. induction Hrep as [|d m ds ms [Hwf _] Hrep IH]; [constructor|].
    apply Forall_cons in Hx as [? Hx]. constructor; auto. }
  destruct (scan_states_ok ds 0 x) as (es & Hs & Hin); [lia|unfold inU; zpow; lia|done| |].
  { rewrite rev_0, Z.div_0_l by (pose proof (block_pos x); lia).
    replace (2 ^ 64) with (2 ^ x * block x) by (unfold block; rewrite <- Z.pow_add_r by lia; f_equal; lia).
    pose proof (block_pos x). nia. }
  exists es. split; [done|]. intros Hk. apply Hin; [|rewrite rev_0; apply position_range].
  clear -Hrep Hk. induction Hrep as [|d m ds ms [Hwf <-] Hrep IH]; [constructor|].
  apply Forall_cons in Hk as [[e He] Hk]. constructor; [|by apply IH].
  exists e. apply dict_map_lookup; [apply Hwf|done].
Qed.

#[local] Existing Instance ex_type.
#[local] Existing Instance ex_laws.

(** Eight calls on the example, which is being rehashed from 4 to 8 buckets:
    the scan returns the key 5. *)
Lemma dictScan_complete_witness :
  exists es, scan_states (replicate 8 ex_dict) 0 = Some (0, es) /\
    (Forall (fun m : gmap Z (Z * option Z) => is_Some (m !! 5)) (replicate 8 ex_map) ->
     exists e, e ∈ es /\ ekey e = 5).
Proof.
  apply (dictScan_complete ex_type ex_laws (replicate 8 ex_dict) (replicate 8 ex_map) 5 3).
  - repeat (constructor; [exact ex_repr|]). constructor.
  - repeat (constructor; [cbn; lia|]). constructor.
  - lia.
  - reflexivity.
Defined.

(** The same dict, run: four calls, one for each bucket of the smaller table *)
Example scan_run :
  scan_states [ex_dict; ex_dict; ex_dict; ex_dict] 0
  = Some (0, [(8, Some 80); (4, Some 40); (2, Some 20); (5, Some 50); (1, Some 10)]).
Proof. vm_compute. reflexivity. Qed.
