(* ===== verification/Listpack.v ===== *)
(** * Listpacks ([listpack.c]): the model

    A listpack is a list of strings and integers in one allocation: a header
    of six bytes (the number of bytes, the number of elements), the entries
    and a terminator. An entry is an encoding byte with the length or the
    integer, the bytes of a string, and the length of all this in a form that
    is read backwards, so that the list is walked in both directions.

    The allocation is the list of its bytes, a pointer in it an offset, [NULL]
    the [None] of an offset. A failed assertion or an access outside of the
    allocation is a [None] result. [lp_malloc] and [lp_realloc] are
    [zmalloc_usable] and [zrealloc_usable], which never return [NULL], and
    [lp_malloc_size] is the size of the allocation. [ListpackCodec] proves the
    encodings, [ListpackOps] that the operations implement lists and
    [ListpackSafe] what validation guarantees of untrusted bytes. *)

From S2P Require Import Prelude Numstr.

#[local] Open Scope Z_scope.

(** ** The format *)

Definition LP_HDR_SIZE : Z := 6.
Definition LP_HDR_NUMELE_UNKNOWN : Z := 65535.
Definition LP_MAX_INT_ENCODING_LEN : Z := 9.
Definition LP_MAX_BACKLEN_SIZE : Z := 5.
Definition LP_EOF : Z := 0xFF.
Definition LP_INTBUF_SIZE : Z := 21.

Definition LP_ENCODING_6BIT_STR : Z := 0x80.
Definition LP_ENCODING_13BIT_INT : Z := 0xC0.
Definition LP_ENCODING_12BIT_STR : Z := 0xE0.
Definition LP_ENCODING_32BIT_STR : Z := 0xF0.
Definition LP_ENCODING_16BIT_INT : Z := 0xF1.
Definition LP_ENCODING_24BIT_INT : Z := 0xF2.
Definition LP_ENCODING_32BIT_INT : Z := 0xF3.
Definition LP_ENCODING_64BIT_INT : Z := 0xF4.

Definition LP_ENCODING_IS_7BIT_UINT (byte : Z) : bool := Z.land byte 0x80 =? 0.
Definition LP_ENCODING_IS_6BIT_STR (byte : Z) : bool := Z.land byte 0xC0 =? LP_ENCODING_6BIT_STR.
Definition LP_ENCODING_IS_13BIT_INT (byte : Z) : bool := Z.land byte 0xE0 =? LP_ENCODING_13BIT_INT.
Definition LP_ENCODING_IS_12BIT_STR (byte : Z) : bool := Z.land byte 0xF0 =? LP_ENCODING_12BIT_STR.
Definition LP_ENCODING_IS_16BIT_INT (byte : Z) : bool := Z.land byte 0xFF =? LP_ENCODING_16BIT_INT.
Definition LP_ENCODING_IS_24BIT_INT (byte : Z) : bool := Z.land byte 0xFF =? LP_ENCODING_24BIT_INT.
Definition LP_ENCODING_IS_32BIT_INT (byte : Z) : bool := Z.land byte 0xFF =? LP_ENCODING_32BIT_INT.
Definition LP_ENCODING_IS_64BIT_INT (byte : Z) : bool := Z.land byte 0xFF =? LP_ENCODING_64BIT_INT.
Definition LP_ENCODING_IS_32BIT_STR (byte : Z) : bool := Z.land byte 0xFF =? LP_ENCODING_32BIT_STR.

(** [lp[i]<<sh | lp[i+1]<<(sh+8) | ...], [n] bytes *)
Fixpoint or_bytes (lp : list Z) (i : Z) (n : nat) (sh : Z) : option Z :=
  match n with
  | O => Some 0
  | S n => b ← rd lp i; r ← or_bytes lp (i + 1) n (sh + 8); Some (Z.lor (Z.shiftl b sh) r)
  end.

Definition LP_ENCODING_6BIT_STR_LEN (lp : list Z) (p : Z) : option Z :=
  b ← rd lp p; Some (Z.land b 0x3F).
Definition LP_ENCODING_12BIT_STR_LEN (lp : list Z) (p : Z) : option Z :=
  b ← rd lp p; c ← rd lp (p + 1); Some (Z.lor (Z.shiftl (Z.land b 0xF) 8) c).
Definition LP_ENCODING_32BIT_STR_LEN (lp : list Z) (p : Z) : option Z := or_bytes lp (p + 1) 4 0.

Definition lpGetTotalBytes (lp : list Z) : option Z := or_bytes lp 0 4 0.
Definition lpGetNumElements (lp : list Z) : option Z := or_bytes lp 4 2 0.

Definition lpSetTotalBytes (lp : list Z) (v : Z) : option (list Z) :=
  lp ← wr lp 0 (Z.land v 0xff);
  lp ← wr lp 1 (Z.land (Z.shiftr v 8) 0xff);
  lp ← wr lp 2 (Z.land (Z.shiftr v 16) 0xff);
  wr lp 3 (Z.land (Z.shiftr v 24) 0xff).

Definition lpSetNumElements (lp : list Z) (v : Z) : option (list Z) :=
  lp ← wr lp 4 (Z.land v 0xff);
  wr lp 5 (Z.land (Z.shiftr v 8) 0xff).

Definition ASSERT_INTEGRITY (lp : list Z) (p : Z) : option unit :=
  total ← lpGetTotalBytes lp; cassert ((p >=? LP_HDR_SIZE) && (p <? total)).
Definition ASSERT_INTEGRITY_LEN (lp : list Z) (p len : Z) : option unit :=
  total ← lpGetTotalBytes lp; cassert ((p >=? LP_HDR_SIZE) && (p + len <? total)).

Definition LISTPACK_MAX_SAFETY_SIZE : Z := Z.shiftl 1 30.

(** The listpack pointer may be [NULL]. *)
Definition lpSafeToAdd (lp : option (list Z)) (add : Z) : option bool :=
  len ← match lp with Some lp => lpGetTotalBytes lp | None => Some 0 end;
  Some (negb (u64 (len + add) >? LISTPACK_MAX_SAFETY_SIZE)).

(** ** Encoding *)

(** The [while] of the digits; [None] is an overflow, otherwise the value and
    what is not consumed. *)
Fixpoint lp_digits (p : list Z) (v : Z) : option (Z * list Z) :=
  match p with
  | c :: p' =>
      if (c >=? chr "0"%char) && (c <=? chr "9"%char) then
        if v >? UINT64_MAX / 10 then None else
        let v := u64 (v * 10) in
        if v >? UINT64_MAX - (c - chr "0"%char) then None else
        lp_digits p' (u64 (v + (c - chr "0"%char)))
      else Some (v, p)
  | [] => Some (v, [])
  end.

(** [None] is the return value 0. *)
Definition lpStringToInt64 (s : list Z) : option Z :=
  let slen := Z.of_nat (length s) in
  if (slen =? 0) || (slen >=? LONG_STR_SIZE) then None else
  if (slen =? 1) && bool_decide (s !! 0%nat = Some (chr "0"%char)) then Some 0 else
  let negative := bool_decide (s !! 0%nat = Some (chr "-"%char)) in
  if (negative : bool) && (slen =? 1) then None else
  match (if negative then drop 1 s else s) with
  | [] => None
  | c :: p =>
      if (c >=? chr "1"%char) && (c <=? chr "9"%char) then
        '(v, rest) ← lp_digits p (c - chr "0"%char);
        match rest with
        | _ :: _ => None
        | [] =>
            if (negative : bool) then
              if v >? u64 (u64 (- (INT64_MIN + 1)) + 1) then None else Some (s64 (u64 (- v)))
            else if v >? INT64_MAX then None else Some (s64 v)
        end
      else None
  end.

(** The contents of [*enclen] and the bytes stored in [intenc] *)
Definition lpEncodeIntegerGetType (v : Z) : Z * list Z :=
  if (v >=? 0) && (v <=? 127) then (1, [u8 v])
  else if (v >=? -4096) && (v <=? 4095) then
    let v := if v <? 0 then Z.shiftl 1 13 + v else v in
    (2, [u8 (Z.lor (Z.shiftr v 8) LP_ENCODING_13BIT_INT); u8 (Z.land v 0xff)])
  else if (v >=? -32768) && (v <=? 32767) then
    let v := if v <? 0 then Z.shiftl 1 16 + v else v in
    (3, [LP_ENCODING_16BIT_INT; u8 (Z.land v 0xff); u8 (Z.shiftr v 8)])
  else if (v >=? -8388608) && (v <=? 8388607) then
    let v := if v <? 0 then Z.shiftl 1 24 + v else v in
    (4, [LP_ENCODING_24BIT_INT; u8 (Z.land v 0xff); u8 (Z.land (Z.shiftr v 8) 0xff);
         u8 (Z.shiftr v 16)])
  else if (v >=? -2147483648) && (v <=? 2147483647) then
    let v := if v <? 0 then Z.shiftl 1 32 + v else v in
    (5, [LP_ENCODING_32BIT_INT; u8 (Z.land v 0xff); u8 (Z.land (Z.shiftr v 8) 0xff);
         u8 (Z.land (Z.shiftr v 16) 0xff); u8 (Z.shiftr v 24)])
  else
    let uv := u64 v in
    (9, [LP_ENCODING_64BIT_INT; u8 (Z.land uv 0xff); u8 (Z.land (Z.shiftr uv 8) 0xff);
         u8 (Z.land (Z.shiftr uv 16) 0xff); u8 (Z.land (Z.shiftr uv 24) 0xff);
         u8 (Z.land (Z.shiftr uv 32) 0xff); u8 (Z.land (Z.shiftr uv 40) 0xff);
         u8 (Z.land (Z.shiftr uv 48) 0xff); u8 (Z.shiftr uv 56)]).

(** The type of the encoding, with the contents of [intenc] *)
Inductive lp_enctype := LP_ENCODING_INT (intenc : list Z) | LP_ENCODING_STRING.

Definition lpEncodeGetType (ele : list Z) : lp_enctype * Z :=
  let size := Z.of_nat (length ele) in
  match lpStringToInt64 ele with
  | Some v => let '(enclen, intenc) := lpEncodeIntegerGetType v in (LP_ENCODING_INT intenc, enclen)
  | None =>
      (LP_ENCODING_STRING,
       if size <? 64 then 1 + size else if size <? 4096 then 2 + size else 5 + size)
  end.

(** The returned number of bytes and the bytes stored in [buf] *)
Definition lpEncodeBacklen (l : Z) : Z * list Z :=
  let low k := u8 (Z.lor (Z.land (Z.shiftr l k) 127) 128) in
  if l <=? 127 then (1, [u8 l])
  else if l <? 16383 then (2, [u8 (Z.shiftr l 7); low 0])
  else if l <? 2097151 then (3, [u8 (Z.shiftr l 14); low 7; low 0])
  else if l <? 268435455 then (4, [u8 (Z.shiftr l 21); low 14; low 7; low 0])
  else (5, [u8 (Z.shiftr l 28); low 21; low 14; low 7; low 0]).

Definition lpEncodeBacklenBytes (l : Z) : Z :=
  if l <=? 127 then 1
  else if l <? 16383 then 2
  else if l <? 2097151 then 3
  else if l <? 268435455 then 4
  else 5.

Definition lpDecodeBacklen (lp : list Z) (p : Z) : option Z :=
  b0 ← rd lp p;
  if Z.land b0 128 =? 0 then Some (Z.land b0 127) else
  let val := Z.land b0 127 in
  b1 ← rd lp (p - 1);
  if Z.land b1 128 =? 0 then Some (Z.lor val (Z.shiftl (Z.land b1 127) 7)) else
  let val := Z.lor val (Z.shiftl (Z.land b1 127) 7) in
  b2 ← rd lp (p - 2);
  if Z.land b2 128 =? 0 then Some (Z.lor val (Z.shiftl (Z.land b2 127) 14)) else
  let val := Z.lor val (Z.shiftl (Z.land b2 127) 14) in
  b3 ← rd lp (p - 3);
  if Z.land b3 128 =? 0 then Some (Z.lor val (Z.shiftl (Z.land b3 127) 21)) else
  let val := Z.lor val (Z.shiftl (Z.land b3 127) 21) in
  b4 ← rd lp (p - 4);
  if Z.land b4 128 =? 0 then Some (Z.lor val (Z.shiftl (Z.land b4 127) 28)) else
  Some UINT64_MAX.

(** [buf] is the place [dst] of the listpack. *)
Definition lpEncodeString (lp : list Z) (dst : Z) (s : list Z) : option (list Z) :=
  let len := Z.of_nat (length s) in
  if len <? 64 then
    lp ← wr lp dst (Z.lor len LP_ENCODING_6BIT_STR);
    mstore lp (dst + 1) s
  else if len <? 4096 then
    lp ← wr lp dst (Z.lor (Z.shiftr len 8) LP_ENCODING_12BIT_STR);
    lp ← wr lp (dst + 1) (Z.land len 0xff);
    mstore lp (dst + 2) s
  else
    lp ← wr lp dst LP_ENCODING_32BIT_STR;
    lp ← wr lp (dst + 1) (Z.land len 0xff);
    lp ← wr lp (dst + 2) (Z.land (Z.shiftr len 8) 0xff);
    lp ← wr lp (dst + 3) (Z.land (Z.shiftr len 16) 0xff);
    lp ← wr lp (dst + 4) (Z.land (Z.shiftr len 24) 0xff);
    mstore lp (dst + 5) s.

(** ** Walking *)

Definition lpCurrentEncodedSizeUnsafe (lp : list Z) (p : Z) : option Z :=
  b ← rd lp p;
  if LP_ENCODING_IS_7BIT_UINT b then Some 1 else
  if LP_ENCODING_IS_6BIT_STR b then l ← LP_ENCODING_6BIT_STR_LEN lp p; Some (u32 (1 + l)) else
  if LP_ENCODING_IS_13BIT_INT b then Some 2 else
  if LP_ENCODING_IS_16BIT_INT b then Some 3 else
  if LP_ENCODING_IS_24BIT_INT b then Some 4 else
  if LP_ENCODING_IS_32BIT_INT b then Some 5 else
  if LP_ENCODING_IS_64BIT_INT b then Some 9 else
  if LP_ENCODING_IS_12BIT_STR b then l ← LP_ENCODING_12BIT_STR_LEN lp p; Some (u32 (2 + l)) else
  if LP_ENCODING_IS_32BIT_STR b then l ← LP_ENCODING_32BIT_STR_LEN lp p; Some (u32 (5 + l)) else
  if b =? LP_EOF then Some 1 else Some 0.

Definition lpCurrentEncodedSizeBytes (encoding : Z) : Z :=
  if LP_ENCODING_IS_7BIT_UINT encoding then 1 else
  if LP_ENCODING_IS_6BIT_STR encoding then 1 else
  if LP_ENCODING_IS_13BIT_INT encoding then 1 else
  if LP_ENCODING_IS_16BIT_INT encoding then 1 else
  if LP_ENCODING_IS_24BIT_INT encoding then 1 else
  if LP_ENCODING_IS_32BIT_INT encoding then 1 else
  if LP_ENCODING_IS_64BIT_INT encoding then 1 else
  if LP_ENCODING_IS_12BIT_STR encoding then 2 else
  if LP_ENCODING_IS_32BIT_STR encoding then 5 else
  if encoding =? LP_EOF then 1 else 0.

Definition lpSkip (lp : list Z) (p : Z) : option Z :=
  entrylen ← lpCurrentEncodedSizeUnsafe lp p;
  Some (p + (entrylen + lpEncodeBacklenBytes entrylen)).

Definition lpBytes (lp : list Z) : option Z := lpGetTotalBytes lp.

Definition OUT_OF_RANGE (p lpbytes : Z) : bool := (p <? LP_HDR_SIZE) || (p >? lpbytes - 1).

(** The returned flag and the new value of [*pp] *)
Definition lpValidateNext (lp : list Z) (pp : option Z) (lpbytes : Z) : option (bool * option Z) :=
  match pp with
  | None => Some (false, pp)
  | Some p =>
      if OUT_OF_RANGE p lpbytes then Some (false, pp) else
      b ← rd lp p;
      if b =? LP_EOF then Some (true, None) else
      let lenbytes := lpCurrentEncodedSizeBytes b in
      if lenbytes =? 0 then Some (false, pp) else
      if OUT_OF_RANGE (p + lenbytes) lpbytes then Some (false, pp) else
      entrylen ← lpCurrentEncodedSizeUnsafe lp p;
      let encodedBacklen := lpEncodeBacklenBytes entrylen in
      let entrylen := entrylen + encodedBacklen in
      if OUT_OF_RANGE (p + entrylen) lpbytes then Some (false, pp) else
      let p := p + entrylen in
      prevlen ← lpDecodeBacklen lp (p - 1);
      if negb (u64 (prevlen + encodedBacklen) =? entrylen) then Some (false, pp) else
      Some (true, Some p)
  end.

Definition lpAssertValidEntry (lp : list Z) (lpbytes p : Z) : option unit :=
  '(ok, _) ← lpValidateNext lp (Some p) lpbytes; cassert ok.

Definition lpNextWithBytes (lp : list Z) (p lpbytes : Z) : option (option Z) :=
  p ← lpSkip lp p;
  b ← rd lp p;
  if b =? LP_EOF then Some None else
  _ ← lpAssertValidEntry lp lpbytes p;
  Some (Some p).

Definition lpNext (lp : list Z) (p : Z) : option (option Z) :=
  p ← lpSkip lp p;
  b ← rd lp p;
  if b =? LP_EOF then Some None else
  bytes ← lpBytes lp;
  _ ← lpAssertValidEntry lp bytes p;
  Some (Some p).

Definition lpPrev (lp : list Z) (p : Z) : option (option Z) :=
  if p =? LP_HDR_SIZE then Some None else
  let p := p - 1 in
  prevlen ← lpDecodeBacklen lp p;
  let prevlen := u64 (prevlen + lpEncodeBacklenBytes prevlen) in
  let p := p - u64 (prevlen - 1) in
  bytes ← lpBytes lp;
  _ ← lpAssertValidEntry lp bytes p;
  Some (Some p).

Definition lpFirst (lp : list Z) : option (option Z) :=
  let p := LP_HDR_SIZE in
  b ← rd lp p;
  if b =? LP_EOF then Some None else
  bytes ← lpBytes lp;
  _ ← lpAssertValidEntry lp bytes p;
  Some (Some p).

Definition lpLast (lp : list Z) : option (option Z) :=
  total ← lpGetTotalBytes lp;
  lpPrev lp (total - 1).

(** Each turn of the loops over the entries moves [p] forward, or backward,
    by a byte at least: as many turns as the allocation has bytes are enough. *)
Definition lp_fuel (lp : list Z) : nat := S (length lp).

Fixpoint lpLength_loop (fuel : nat) (lp : list Z) (p : option Z) (count : Z) : option Z :=
  match p with
  | None => Some count
  | Some p =>
      match fuel with
      | O => None
      | S fuel => p ← lpNext lp p; lpLength_loop fuel lp p (u32 (count + 1))
      end
  end.

(** The number of elements, and the listpack, whose header may be updated *)
Definition lpLength (lp : list Z) : option (Z * list Z) :=
  numele ← lpGetNumElements lp;
  if negb (numele =? LP_HDR_NUMELE_UNKNOWN) then Some (numele, lp) else
  p ← lpFirst lp;
  count ← lpLength_loop (lp_fuel lp) lp p 0;
  lp ← (if count <? LP_HDR_NUMELE_UNKNOWN then lpSetNumElements lp count else Some lp);
  Some (count, lp).

Fixpoint lpSeek_forward (fuel : nat) (lp : list Z) (index : Z) (ele : option Z) : option (option Z) :=
  match ele with
  | Some p =>
      if index >? 0 then
        match fuel with
        | O => None
        | S fuel => ele ← lpNext lp p; lpSeek_forward fuel lp (index - 1) ele
        end
      else Some ele
  | None => Some None
  end.

Fixpoint lpSeek_backward (fuel : nat) (lp : list Z) (index : Z) (ele : option Z) : option (option Z) :=
  match ele with
  | Some p =>
      if index <? -1 then
        match fuel with
        | O => None
        | S fuel => ele ← lpPrev lp p; lpSeek_backward fuel lp (index + 1) ele
        end
      else Some ele
  | None => Some None
  end.

Definition lpSeek_scan (lp : list Z) (forward : bool) (index : Z) : option (option Z) :=
  if forward then ele ← lpFirst lp; lpSeek_forward (lp_fuel lp) lp index ele
  else ele ← lpLast lp; lpSeek_backward (lp_fuel lp) lp index ele.

Definition lpSeek (lp : list Z) (index : Z) : option (option Z) :=
  numele ← lpGetNumElements lp;
  if negb (numele =? LP_HDR_NUMELE_UNKNOWN) then
    let index := if index <? 0 then s64 (numele + index) else index in
    if index <? 0 then Some None else
    if index >=? numele then Some None else
    if index >? numele / 2 then lpSeek_scan lp false (s64 (index - numele))
    else lpSeek_scan lp true index
  else lpSeek_scan lp (negb (index <? 0)) index.

Definition lpValidateFirst (lp : list Z) : option (option Z) :=
  b ← rd lp LP_HDR_SIZE; Some (if b =? LP_EOF then None else Some LP_HDR_SIZE).

Section validate.
Context {U : Type}.
(** The optional callback and its data, which it may change *)
Variable entry_cb : option (list Z -> Z -> Z -> U -> bool * U).

(** [None] in the result of the loop is the return of 0 in its body. *)
Fixpoint lpValidate_loop (fuel : nat) (lp : list Z) (bytes numele : Z) (p : option Z) (count : Z)
    (user : U) : option (option (option Z * Z) * U) :=
  match p with
  | None => Some (Some (None, count), user)
  | Some q =>
      b ← rd lp q;
      if b =? LP_EOF then Some (Some (p, count), user) else
      match fuel with
      | O => None
      | S fuel =>
          '(ok, p) ← lpValidateNext lp p bytes;
          if negb ok then Some (None, user) else
          let '(ok, user) := match entry_cb with
                             | Some cb => cb lp q numele user
                             | None => (true, user)
                             end in
          if negb ok then Some (None, user) else
          lpValidate_loop fuel lp bytes numele p (u32 (count + 1)) user
      end
  end.

Definition lpValidateIntegrity (lp : list Z) (size : Z) (deep : bool) (user : U)
    : option (bool * U) :=
  if size <? LP_HDR_SIZE + 1 then Some (false, user) else
  bytes ← lpGetTotalBytes lp;
  if negb (bytes =? size) then Some (false, user) else
  b ← rd lp (size - 1);
  if negb (b =? LP_EOF) then Some (false, user) else
  if negb deep then Some (true, user) else
  numele ← lpGetNumElements lp;
  '(r, user) ← lpValidate_loop (lp_fuel lp) lp bytes numele (Some LP_HDR_SIZE) 0 user;
  match r with
  | None => Some (false, user)
  | Some (p, count) =>
      if negb (bool_decide (p = Some (size - 1))) then Some (false, user) else
      if negb (numele =? LP_HDR_NUMELE_UNKNOWN) && negb (numele =? count)
      then Some (false, user) else Some (true, user)
  end.
End validate.

(** ** Reading an element *)

(** What [lpGet] returns: [NULL] for an integer, a pointer in the listpack for
    a string or the pointer [intbuf], with its new contents *)
Inductive lp_ptr := PNull | PLp (p : Z) | PIntbuf (buf : list Z).

(** The end of the functions that read an element, common to the integer
    encodings: the returned pointer and [*count] *)
Definition lp_int_result (uval negstart negmax : Z) (intbuf : option (list Z))
    : option (lp_ptr * Z) :=
  let val :=
    if uval >=? negstart then
      let uval := u64 (negmax - uval) in
      let val := s64 uval in
      s64 (- val - 1)
    else s64 uval in
  match intbuf with
  | Some buf => '(n, buf) ← ll2string buf val; Some (PIntbuf buf, n)
  | None => Some (PNull, val)
  end.

(** With the new value of [*entry_size], a variable of the caller that an
    unknown encoding leaves as it is *)
Definition lpGetWithSize (lp : list Z) (p : Z) (intbuf : option (list Z)) (entry_size : Z)
    : option (lp_ptr * Z * Z) :=
  b ← rd lp p;
  let int_case uval negstart negmax size :=
    '(r, count) ← lp_int_result uval negstart negmax intbuf; Some (r, count, size) in
  if LP_ENCODING_IS_7BIT_UINT b then
    int_case (Z.land b 0x7f) UINT64_MAX 0 2
  else if LP_ENCODING_IS_6BIT_STR b then
    count ← LP_ENCODING_6BIT_STR_LEN lp p;
    Some (PLp (p + 1), count, 1 + count + lpEncodeBacklenBytes (count + 1))
  else if LP_ENCODING_IS_13BIT_INT b then
    c ← rd lp (p + 1);
    int_case (Z.lor (Z.shiftl (Z.land b 0x1f) 8) c) (Z.shiftl 1 12) 8191 3
  else if LP_ENCODING_IS_16BIT_INT b then
    uval ← or_bytes lp (p + 1) 2 0; int_case uval (Z.shiftl 1 15) 65535 4
  else if LP_ENCODING_IS_24BIT_INT b then
    uval ← or_bytes lp (p + 1) 3 0; int_case uval (Z.shiftl 1 23) (Z.shiftr UINT32_MAX 8) 5
  else if LP_ENCODING_IS_32BIT_INT b then
    uval ← or_bytes lp (p + 1) 4 0; int_case uval (Z.shiftl 1 31) UINT32_MAX 6
  else if LP_ENCODING_IS_64BIT_INT b then
    uval ← or_bytes lp (p + 1) 8 0; int_case uval (Z.shiftl 1 63) UINT64_MAX 10
  else if LP_ENCODING_IS_12BIT_STR b then
    count ← LP_ENCODING_12BIT_STR_LEN lp p;
    Some (PLp (p + 2), count, 2 + count + lpEncodeBacklenBytes (count + 2))
  else if LP_ENCODING_IS_32BIT_STR b then
    count ← LP_ENCODING_32BIT_STR_LEN lp p;
    Some (PLp (p + 5), count, 5 + count + lpEncodeBacklenBytes (count + 5))
  else int_case (12345678900000000 + b) UINT64_MAX 0 entry_size.

Definition lpGetWithBuf (lp : list Z) (p : Z) (intbuf : option (list Z)) : option (lp_ptr * Z) :=
  encoding ← rd lp p;
  if LP_ENCODING_IS_6BIT_STR encoding then
    count ← LP_ENCODING_6BIT_STR_LEN lp p; Some (PLp (p + 1), count) else
  if LP_ENCODING_IS_12BIT_STR encoding then
    count ← LP_ENCODING_12BIT_STR_LEN lp p; Some (PLp (p + 2), count) else
  if LP_ENCODING_IS_32BIT_STR encoding then
    count ← LP_ENCODING_32BIT_STR_LEN lp p; Some (PLp (p + 5), count) else
  if LP_ENCODING_IS_7BIT_UINT encoding then
    lp_int_result (Z.land encoding 0x7f) UINT64_MAX 0 intbuf
  else if LP_ENCODING_IS_13BIT_INT encoding then
    c ← rd lp (p + 1);
    lp_int_result (Z.lor (Z.shiftl (Z.land encoding 0x1f) 8) c) (Z.shiftl 1 12) 8191 intbuf
  else if LP_ENCODING_IS_16BIT_INT encoding then
    uval ← or_bytes lp (p + 1) 2 0; lp_int_result uval (Z.shiftl 1 15) 65535 intbuf
  else if LP_ENCODING_IS_24BIT_INT encoding then
    uval ← or_bytes lp (p + 1) 3 0;
    lp_int_result uval (Z.shiftl 1 23) (Z.shiftr UINT32_MAX 8) intbuf
  else if LP_ENCODING_IS_32BIT_INT encoding then
    uval ← or_bytes lp (p + 1) 4 0; lp_int_result uval (Z.shiftl 1 31) UINT32_MAX intbuf
  else if LP_ENCODING_IS_64BIT_INT encoding then
    uval ← or_bytes lp (p + 1) 8 0; lp_int_result uval (Z.shiftl 1 63) UINT64_MAX intbuf
  else lp_int_result (12345678900000000 + encoding) UINT64_MAX 0 intbuf.

Definition lpGet (lp : list Z) (p : Z) (intbuf : option (list Z)) : option (lp_ptr * Z) :=
  lpGetWithBuf lp p intbuf.

(** The string, as a pointer and [*slen], or [*lval] *)
Definition lpGetValue (lp : list Z) (p : Z) : option (Z * Z + Z) :=
  '(vstr, ele_len) ← lpGet lp p None;
  match vstr with
  | PLp q => Some (inl (q, u32 ele_len))
  | _ => Some (inr ele_len)
  end.

(** [None] is the return value 0. *)
Definition lpGetIntegerValue (lp : list Z) (p : Z) : option (option Z) :=
  '(r, ele_len) ← lpGet lp p None;
  match r with PNull => Some (Some ele_len) | _ => Some None end.

(** ** Searching *)

Section find.
Context {U : Type}.
(** The comparison: it is given the listpack, the entry, its argument, which
    it may change, the string or [NULL], and the length or the integer. *)
Variable cmp : list Z -> Z -> U -> option Z -> Z -> option (Z * U).

Fixpoint lpFind_loop (fuel : nat) (lp : list Z) (lp_bytes skip : Z) (p : Z) (skipcnt entry_size : Z)
    (user : U) : option (option Z * U) :=
  match fuel with
  | O => None
  | S fuel =>
      '(found, p', skipcnt, entry_size, user) ←
        (if skipcnt =? 0 then
           '(value, ll, entry_size) ← lpGetWithSize lp p None entry_size;
           let value := match value with PLp q => Some q | _ => None end in
           _ ← (if bool_decide (value = None) then Some tt
                else cassert ((p >=? LP_HDR_SIZE) && (p + entry_size <? lp_bytes)));
           '(c, user) ← cmp lp p user value ll;
           if c =? 0 then Some (true, p, skipcnt, entry_size, user)
           else Some (false, p + entry_size, s32 skip, entry_size, user)
         else
           p ← lpSkip lp p;
           Some (false, p, s32 (skipcnt - 1), entry_size, user));
      if (found : bool) then Some (Some p', user) else
      _ ← (if p' + 8 >=? lp_bytes then lpAssertValidEntry lp lp_bytes p'
           else cassert ((p' >=? LP_HDR_SIZE) && (p' <? lp_bytes)));
      b ← rd lp p';
      if b =? LP_EOF then Some (None, user) else
      lpFind_loop fuel lp lp_bytes skip p' skipcnt entry_size user
  end.

(** The entry found and the argument of the comparison *)
Definition lpFindCbInternal (lp : list Z) (p : option Z) (user : U) (skip : Z)
    : option (option Z * U) :=
  lp_bytes ← lpBytes lp;
  p ← match p with Some p => Some (Some p) | None => lpFirst lp end;
  match p with
  | Some p => lpFind_loop (lp_fuel lp) lp lp_bytes skip p 0 123456789 user
  | None => Some (None, user)
  end.
End find.

Definition lpFindCb {U : Type} := @lpFindCbInternal U.

Definition UCHAR_MAX : Z := 255.

(** The item, and the cache of its integer value *)
Record lpFindArg := mkFindArg {
  arg_s : list Z;
  arg_vencoding : Z;
  arg_vll : Z
}.

Definition arg_slen (arg : lpFindArg) : Z := Z.of_nat (length (arg_s arg)).

Definition lpFindCmp (lp : list Z) (p : Z) (arg : lpFindArg) (s : option Z) (slen : Z)
    : option (Z * lpFindArg) :=
  match s with
  | Some q =>
      if slen =? arg_slen arg then
        bs ← mload lp q slen;
        if bool_decide (arg_s arg = bs) then Some (0, arg) else Some (1, arg)
      else Some (1, arg)
  | None =>
      let arg :=
        if arg_vencoding arg =? 0 then
          if (arg_slen arg >=? 32) || (arg_slen arg =? 0) then
            mkFindArg (arg_s arg) UCHAR_MAX (arg_vll arg)
          else match lpStringToInt64 (arg_s arg) with
               | None => mkFindArg (arg_s arg) UCHAR_MAX (arg_vll arg)
               | Some v => mkFindArg (arg_s arg) 1 v
               end
        else arg in
      if negb (arg_vencoding arg =? UCHAR_MAX) && (slen =? arg_vll arg)
      then Some (0, arg) else Some (1, arg)
  end.

Definition lpFind (lp : list Z) (p : option Z) (s : list Z) (skip : Z) : option (option Z) :=
  '(r, _) ← lpFindCbInternal lpFindCmp lp p (mkFindArg s 0 0) skip; Some r.

(** The result and the cache ([*cached_longval] and [*cached_valid]), when
    the caller has one *)
Definition lpCompare (lp : list Z) (p : Z) (s : list Z) (cached : option (Z * Z))
    : option (bool * option (Z * Z)) :=
  b ← rd lp p;
  if b =? LP_EOF then Some (false, cached) else
  '(value, sz) ← lpGet lp p None;
  match value with
  | PLp q =>
      if Z.of_nat (length s) =? sz then
        bs ← mload lp q sz; Some (bool_decide (bs = s), cached)
      else Some (false, cached)
  | _ =>
      match cached with
      | Some (longval, valid) =>
          let '(longval, valid) :=
            if valid =? 0 then
              match lpStringToInt64 s with
              | Some v => (v, 1)
              | None => (longval, -1)
              end
            else (longval, valid) in
          Some ((valid =? 1) && (sz =? longval), Some (longval, valid))
      | None =>
          match lpStringToInt64 s with
          | Some sval => Some (sz =? sval, cached)
          | None => Some (false, cached)
          end
      end
  end.

(** ** Changing a listpack *)

Section alloc.
Context `{Allocator}.

Definition lp_malloc (n : Z) : list Z := malloc_usable n.
Definition lp_realloc (lp : list Z) (n : Z) : list Z := mrealloc junk lp (usable n).
Definition lp_malloc_size (lp : list Z) : Z := Z.of_nat (length lp).

Definition lpNew (capacity : Z) : option (list Z) :=
  let lp := lp_malloc (if capacity >? LP_HDR_SIZE + 1 then capacity else LP_HDR_SIZE + 1) in
  lp ← lpSetTotalBytes lp (LP_HDR_SIZE + 1);
  lp ← lpSetNumElements lp 0;
  wr lp LP_HDR_SIZE LP_EOF.

Definition lpShrinkToFit (lp : list Z) : option (list Z) :=
  size ← lpGetTotalBytes lp;
  Some (if size <? lp_malloc_size lp then lp_realloc lp size else lp).

Definition lpDup (lp : list Z) : option (list Z) :=
  lpbytes ← lpBytes lp;
  bs ← mload lp 0 lpbytes;
  mstore (lp_malloc lpbytes) 0 bs.

Inductive lp_where := LP_BEFORE | LP_AFTER | LP_REPLACE.

#[export] Instance lp_where_eq_dec : EqDecision lp_where.
Proof. solve_decision. Defined.

(** The outer [option] is a failed assertion or an access out of bounds, the
    inner one the returned [NULL]; with the listpack, the value of [*newp]. *)
Definition lpInsert (lp : list Z) (elestr eleint : option (list Z)) (p : Z) (wher : lp_where)
    : option (option (list Z * option Z)) :=
  let delete := bool_decide (elestr = None) && bool_decide (eleint = None) in
  let wher := if delete then LP_REPLACE else wher in
  '(p, wher) ←
    match wher with
    | LP_AFTER =>
        p ← lpSkip lp p;
        _ ← ASSERT_INTEGRITY lp p;
        Some (p, LP_BEFORE)
    | _ => Some (p, wher)
    end;
  let poff := p in
  let '(enctype, enclen) :=
    match elestr, eleint with
    | Some s, _ => let '(t, n) := lpEncodeGetType s in (Some t, n)
    | None, Some i => (Some (LP_ENCODING_INT i), Z.of_nat (length i))
    | None, None => (None, 0)
    end in
  let '(backlen_size, backlen) := if negb delete then lpEncodeBacklen enclen else (0, []) in
  old_listpack_bytes ← lpGetTotalBytes lp;
  replaced_len ←
    (if bool_decide (wher = LP_REPLACE) then
       l ← lpCurrentEncodedSizeUnsafe lp p;
       let l := u32 (l + lpEncodeBacklenBytes l) in
       _ ← ASSERT_INTEGRITY_LEN lp p l;
       Some l
     else Some 0);
  let new_listpack_bytes := u64 (old_listpack_bytes + enclen + backlen_size - replaced_len) in
  if new_listpack_bytes >? UINT32_MAX then Some None else
  let dst := poff in
  let lp :=
    if (new_listpack_bytes >? old_listpack_bytes) && (new_listpack_bytes >? lp_malloc_size lp)
    then lp_realloc lp new_listpack_bytes else lp in
  lp ←
    (if bool_decide (wher = LP_BEFORE) then
       mmove lp (dst + enclen + backlen_size) dst (u64 (old_listpack_bytes - poff))
     else
       mmove lp (dst + enclen + backlen_size) (dst + replaced_len)
         (u64 (old_listpack_bytes - poff - replaced_len)));
  let lp :=
    if new_listpack_bytes <? old_listpack_bytes then lp_realloc lp new_listpack_bytes else lp in
  newp ←
    (if delete then b ← rd lp dst; Some (if b =? LP_EOF then None else Some dst)
     else Some (Some dst));
  lp ←
    (if negb delete then
       lp ← match enctype, elestr with
            | Some (LP_ENCODING_INT eleint), _ => bs ← mload eleint 0 enclen; mstore lp dst bs
            | _, Some s => lpEncodeString lp dst s
            | _, None => None
            end;
       bs ← mload backlen 0 backlen_size;
       mstore lp (dst + enclen) bs
     else Some lp);
  lp ←
    (if negb (bool_decide (wher = LP_REPLACE)) || delete then
       num_elements ← lpGetNumElements lp;
       if negb (num_elements =? LP_HDR_NUMELE_UNKNOWN) then
         if negb delete then lpSetNumElements lp (u32 (num_elements + 1))
         else lpSetNumElements lp (u32 (num_elements - 1))
       else Some lp
     else Some lp);
  lp ← lpSetTotalBytes lp new_listpack_bytes;
  Some (Some (lp, newp)).

Definition lpInsertString (lp s : list Z) (p : Z) (wher : lp_where) :=
  lpInsert lp (Some s) None p wher.

Definition lpInsertInteger (lp : list Z) (lval p : Z) (wher : lp_where) :=
  let '(enclen, intenc) := lpEncodeIntegerGetType lval in
  intenc ← mload intenc 0 enclen;
  lpInsert lp None (Some intenc) p wher.

Definition lpAppend (lp ele : list Z) :=
  listpack_bytes ← lpGetTotalBytes lp;
  lpInsert lp (Some ele) None (listpack_bytes - 1) LP_BEFORE.

Definition lpAppendInteger (lp : list Z) (lval : Z) :=
  listpack_bytes ← lpGetTotalBytes lp;
  lpInsertInteger lp lval (listpack_bytes - 1) LP_BEFORE.

Definition lpPrepend (lp s : list Z) :=
  p ← lpFirst lp;
  match p with
  | None => lpAppend lp s
  | Some p => lpInsert lp (Some s) None p LP_BEFORE
  end.

Definition lpPrependInteger (lp : list Z) (lval : Z) :=
  p ← lpFirst lp;
  match p with
  | None => lpAppendInteger lp lval
  | Some p => lpInsertInteger lp lval p LP_BEFORE
  end.

Definition lpReplace (lp : list Z) (p : Z) (s : list Z) := lpInsert lp (Some s) None p LP_REPLACE.
Definition lpReplaceInteger (lp : list Z) (p lval : Z) := lpInsertInteger lp lval p LP_REPLACE.
Definition lpDelete (lp : list Z) (p : Z) := lpInsert lp None None p LP_REPLACE.

(** The number of deleted elements and the pointer after them *)
Fixpoint lpDeleteRange_loop (fuel : nat) (lp : list Z) (bytes num deleted tail : Z)
    : option (Z * Z) :=
  if num =? 0 then Some (deleted, tail) else
  match fuel with
  | O => None
  | S fuel =>
      let deleted := u64 (deleted + 1) in
      tail ← lpSkip lp tail;
      b ← rd lp tail;
      if b =? LP_EOF then Some (deleted, tail) else
      _ ← lpAssertValidEntry lp bytes tail;
      lpDeleteRange_loop fuel lp bytes (num - 1) deleted tail
  end.

(** The listpack and the new value of [*p] *)
Definition lpDeleteRangeWithEntry (lp : list Z) (p num : Z) : option (list Z * option Z) :=
  bytes ← lpBytes lp;
  let eofptr := bytes - 1 in
  let first := p in
  if num =? 0 then Some (lp, Some p) else
  '(deleted, tail) ← lpDeleteRange_loop (lp_fuel lp) lp bytes num 0 p;
  let poff := first in
  lp ← mmove lp first tail (eofptr - tail + 1);
  lp ← lpSetTotalBytes lp (u64 (bytes - (tail - first)));
  numele ← lpGetNumElements lp;
  lp ← (if negb (numele =? LP_HDR_NUMELE_UNKNOWN)
        then lpSetNumElements lp (u64 (numele - deleted)) else Some lp);
  lp ← lpShrinkToFit lp;
  b ← rd lp poff;
  Some (lp, if b =? LP_EOF then None else Some poff).

Definition lpDeleteRange (lp : list Z) (index num : Z) : option (list Z) :=
  numele ← lpGetNumElements lp;
  if num =? 0 then Some lp else
  p ← lpSeek lp index;
  match p with
  | None => Some lp
  | Some p =>
      let known := negb (numele =? LP_HDR_NUMELE_UNKNOWN) in
      let index := if known && (index <? 0) then s64 (numele + index) else index in
      if known && (u64 (numele - u64 index) <=? num) then
        lp ← wr lp p LP_EOF;
        lp ← lpSetTotalBytes lp (u64 (p + 1));
        lp ← lpSetNumElements lp index;
        lpShrinkToFit lp
      else
        '(lp, _) ← lpDeleteRangeWithEntry lp p num; Some lp
  end.

(** ** Many elements at once *)

(** A string, or an integer when [sval] is [NULL] *)
Inductive listpackEntry := LpString (sval : list Z) | LpInteger (lval : Z).

Record listpackInsertEntry := mkInsertEntry {
  ie_enctype : lp_enctype;
  ie_enclen : Z;
  ie_backlen : list Z;
  ie_backlen_size : Z
}.

(** The loop that encodes: the encoded entries and [addedlen] *)
Fixpoint lpBatch_encode (entries : list listpackEntry) (addedlen : Z)
    : list listpackInsertEntry * Z :=
  match entries with
  | [] => ([], addedlen)
  | e :: entries =>
      let '(enctype, enclen) :=
        match e with
        | LpString sval => lpEncodeGetType sval
        | LpInteger lval =>
            let '(enclen, intenc) := lpEncodeIntegerGetType lval in (LP_ENCODING_INT intenc, enclen)
        end in
      let addedlen := u64 (addedlen + enclen) in
      let '(backlen_size, backlen) := lpEncodeBacklen enclen in
      let addedlen := u64 (addedlen + backlen_size) in
      let '(enc, addedlen) := lpBatch_encode entries addedlen in
      (mkInsertEntry enctype enclen backlen backlen_size :: enc, addedlen)
  end.

(** The loop that stores: the listpack and [*newp] *)
Fixpoint lpBatch_store (lp : list Z) (dst : Z) (newp : option Z)
    (entries : list listpackEntry) (enc : list listpackInsertEntry)
    : option (list Z * option Z) :=
  match entries, enc with
  | ent :: entries, e :: enc =>
      let newp := Some dst in
      lp ← match ie_enctype e, ent with
           | LP_ENCODING_INT intenc, _ => bs ← mload intenc 0 (ie_enclen e); mstore lp dst bs
           | LP_ENCODING_STRING, LpString sval => lpEncodeString lp dst sval
           | LP_ENCODING_STRING, LpInteger _ => None
           end;
      let dst := dst + ie_enclen e in
      bs ← mload (ie_backlen e) 0 (ie_backlen_size e);
      lp ← mstore lp dst bs;
      lpBatch_store lp (dst + ie_backlen_size e) newp entries enc
  | _, _ => Some (lp, newp)
  end.

Definition lpBatchInsert (lp : list Z) (p : Z) (wher : lp_where) (entries : list listpackEntry)
    : option (option (list Z * option Z)) :=
  let len := Z.of_nat (length entries) in
  _ ← cassert (bool_decide (wher = LP_BEFORE) || bool_decide (wher = LP_AFTER));
  _ ← cassert (len >? 0);
  p ← (if bool_decide (wher = LP_AFTER) then
         p ← lpSkip lp p;
         _ ← ASSERT_INTEGRITY lp p;
         Some p
       else Some p);
  let '(enc, addedlen) := lpBatch_encode entries 0 in
  old_listpack_bytes ← lpGetTotalBytes lp;
  let new_listpack_bytes := u64 (old_listpack_bytes + addedlen) in
  if new_listpack_bytes >? UINT32_MAX then Some None else
  let poff := p in
  let dst := poff in
  let lp :=
    if (new_listpack_bytes >? old_listpack_bytes) && (new_listpack_bytes >? lp_malloc_size lp)
    then lp_realloc lp new_listpack_bytes else lp in
  lp ← mmove lp (dst + addedlen) dst (u64 (old_listpack_bytes - poff));
  '(lp, newp) ← lpBatch_store lp dst None entries enc;
  num_elements ← lpGetNumElements lp;
  lp ← (if negb (num_elements =? LP_HDR_NUMELE_UNKNOWN) then
          if len >? LP_HDR_NUMELE_UNKNOWN - num_elements
          then lpSetNumElements lp LP_HDR_NUMELE_UNKNOWN
          else lpSetNumElements lp (u32 (num_elements + len))
        else Some lp);
  lp ← lpSetTotalBytes lp new_listpack_bytes;
  Some (Some (lp, newp)).

Definition lpBatchAppend (lp : list Z) (entries : list listpackEntry) :=
  listpack_bytes ← lpGetTotalBytes lp;
  lpBatchInsert lp (listpack_bytes - 1) LP_BEFORE entries.

(** The loop over the elements to delete: the listpack and [dst] *)
Fixpoint lpBatchDelete_loop (lp : list Z) (lp_end : Z) (ps : list Z) (dst : Z)
    : option (list Z * Z) :=
  match ps with
  | [] => Some (lp, dst)
  | skip :: ps =>
      b ← rd lp skip;
      _ ← cassert (negb (b =? LP_EOF));
      keep_start ← lpSkip lp skip;
      let keep_end := match ps with next :: _ => next | [] => lp_end end in
      if negb (bool_decide (ps = [])) && (keep_start =? keep_end)
      then lpBatchDelete_loop lp lp_end ps dst
      else
        _ ← cassert (keep_end >? keep_start);
        let bytes_to_keep := keep_end - keep_start in
        lp ← mmove lp dst keep_start bytes_to_keep;
        lpBatchDelete_loop lp lp_end ps (dst + bytes_to_keep)
  end.

Definition lpBatchDelete (lp : list Z) (ps : list Z) : option (list Z) :=
  match ps with
  | [] => Some lp
  | dst :: _ =>
      let count := Z.of_nat (length ps) in
      total_bytes ← lpGetTotalBytes lp;
      let lp_end := total_bytes in
      b ← rd lp (lp_end - 1);
      _ ← cassert (b =? LP_EOF);
      '(lp, dst) ← lpBatchDelete_loop lp lp_end ps dst;
      let deleted_bytes := lp_end - dst in
      let total_bytes := u64 (total_bytes - deleted_bytes) in
      b ← rd lp (total_bytes - 1);
      _ ← cassert (b =? LP_EOF);
      lp ← lpSetTotalBytes lp total_bytes;
      numele ← lpGetNumElements lp;
      lp ← (if negb (numele =? LP_HDR_NUMELE_UNKNOWN)
            then lpSetNumElements lp (u64 (numele - count)) else Some lp);
      lpShrinkToFit lp
  end.

(** [*first] and [*second] are listpacks or [NULL]; [same] is whether they are
    the same pointer. The results are the returned pointer and the new values
    of [*first] and of [*second]. *)
Definition lpMerge (first second : option (list Z)) (same : bool)
    : option (option (list Z) * option (list Z) * option (list Z)) :=
  match first, second with
  | Some lp1, Some lp2 =>
      if same then Some (None, first, second) else
      first_bytes ← lpBytes lp1;
      '(first_len, lp1) ← lpLength lp1;
      second_bytes ← lpBytes lp2;
      '(second_len, lp2) ← lpLength lp2;
      let append := first_bytes >=? second_bytes in
      let '(target, target_bytes, source, source_bytes) :=
        if append then (lp1, first_bytes, lp2, second_bytes)
        else (lp2, second_bytes, lp1, first_bytes) in
      let lpbytes := u64 (first_bytes + second_bytes - LP_HDR_SIZE - 1) in
      _ ← cassert (lpbytes <? UINT32_MAX);
      let lplength := u64 (first_len + second_len) in
      let lplength := if lplength <? 65535 then lplength else 65535 in
      let target := lp_realloc target lpbytes in
      target ←
        (if append then
           bs ← mload source LP_HDR_SIZE (source_bytes - LP_HDR_SIZE);
           mstore target (target_bytes - 1) bs
         else
           target ← mmove target (source_bytes - 1) LP_HDR_SIZE (target_bytes - LP_HDR_SIZE);
           bs ← mload source 0 (source_bytes - 1);
           mstore target 0 bs);
      target ← lpSetNumElements target lplength;
      target ← lpSetTotalBytes target lpbytes;
      Some (if append then (Some target, Some target, None) else (Some target, None, Some target))
  | _, _ => Some (None, first, second)
  end.

Definition lpEntrySizeInteger (lval : Z) : Z :=
  let '(enclen, _) := lpEncodeIntegerGetType lval in enclen + lpEncodeBacklenBytes enclen.

Definition lpEstimateBytesRepeatedInteger (lval rep : Z) : Z :=
  u64 (LP_HDR_SIZE + lpEntrySizeInteger lval * rep + 1).
End alloc.
