(* ===== verification/ListpackCodec.v ===== *)
(** * Listpacks: the encodings

    Strings and integers survive their encoding, the length at the end of an
    entry is read back from its last byte, and the two functions that read an
    element agree. *)

From S2P Require Import Prelude Gf2 Numstr Listpack.

#[local] Open Scope Z_scope.

(** ** Numbers *)

(** The parser of the listpacks is the one of [util.c]. *)
Lemma lp_digits_digits_loop p v : lp_digits p v = digits_loop p v.
Proof.
  revert v. induction p as [|c p IH]; intros v; [done|]. cbn [lp_digits digits_loop].
  rewrite Z.geb_leb. destruct (_ && _); [|done]. unfold ULLONG_MAX.
  do 2 (destruct (_ >? _); [done|]). apply IH.
Qed.

Lemma digits_loop_nonneg p v w r : 0 <= v -> digits_loop p v = Some (w, r) -> 0 <= w.
Proof.
  revert v. induction p as [|c p IH]; intros v Hv; cbn [digits_loop]; [by intros [= <- _]|].
  destruct (_ && _); [|by intros [= <- _]]. do 2 (destruct (_ >? _); [done|]).
  apply IH, Z.mod_pos_bound. lia.
Qed.

Lemma lpStringToInt64_string2ll s : lpStringToInt64 s = string2ll s.
Proof.
  unfold lpStringToInt64, string2ll. destruct (_ || _); [done|].
  destruct (_ && _); [done|]. set (neg := bool_decide (s !! 0%nat = Some (chr "-"%char))).
  replace (if neg && (Z.of_nat (length s) =? 1) then None else _) with
    (match (if neg then drop 1 s else s) with
     | [] => None
     | c :: p =>
         if (c >=? chr "1"%char) && (c <=? chr "9"%char) then
           '(v, rest) ← lp_digits p (c - chr "0"%char);
           match rest with
           | _ :: _ => None
           | [] =>
               if neg then
                 if v >? u64 (u64 (- (INT64_MIN + 1)) + 1) then None else Some (s64 (u64 (- v)))
               else if v >? INT64_MAX then None else Some (s64 v)
           end
         else None
     end).
  2: { clearbody neg. destruct neg; [|done]. destruct s as [|c [|d s]]; [done|done|].
       replace (Z.of_nat (length (c :: d :: s)) =? 1) with false; [done|].
       symmetry. apply Z.eqb_neq. simpl length. lia. }
  destruct (if neg then drop 1 s else s) as [|c p]; [done|]. rewrite Z.geb_leb.
  destruct (_ && _) eqn:E; [|done]. zbool. rewrite lp_digits_digits_loop.
  destruct (digits_loop p _) as [[v r]|] eqn:Hd; [|done]. mstep.
  apply digits_loop_nonneg in Hd; [|change (chr "1"%char) with 49 in *; change (chr "0"%char) with 48; lia].
  destruct r; [|done]. cbn [length Nat.eqb negb]. unfold LLONG_MIN, LLONG_MAX.
  destruct neg; [done|]. destruct (v >? INT64_MAX) eqn:Hv; [done|]. zbool.
  f_equal. apply wrapS_id; [lia|]. unfold inS. zpow. lia.
Qed.

(** Putting bytes together *)
Lemma lor_shift b r sh :
  is_byte b -> 0 <= r -> 0 <= sh ->
  Z.lor (Z.shiftl b sh) (Z.shiftl r (sh + 8)) = Z.shiftl (b + 256 * r) sh.
Proof.
  intros Hb Hr Hsh. rewrite Z.add_comm, <- Z.shiftl_shiftl, <- Z.shiftl_lor by lia. f_equal.
  unfold is_byte in Hb. rewrite lor_shiftl_add by (zpow; lia). zpow. lia.
Qed.

(** ** Reading bytes *)

Lemma rd_shift (A B : list Z) i j : j = Z.of_nat (length A) + i -> 0 <= i -> rd (A ++ B) j = rd B i.
Proof.
  intros -> Hi. unfold rd. destruct (Z.ltb_spec (Z.of_nat (length A) + i) 0); [lia|].
  destruct (Z.ltb_spec i 0); [lia|]. rewrite lookup_app_r by lia. f_equal. lia.
Qed.

(** What is read in a part is read in the whole. *)
Lemma rd_frame (A m B : list Z) i j b :
  rd m i = Some b -> j = Z.of_nat (length A) + i -> rd (A ++ m ++ B) j = Some b.
Proof.
  intros Hm ->. destruct (rd_inv _ _ _ Hm). by rewrite (rd_shift A (m ++ B) i), rd_app_l by lia.
Qed.

Lemma or_bytes_frame (A m B : list Z) n i j sh v :
  or_bytes m i n sh = Some v -> j = Z.of_nat (length A) + i -> or_bytes (A ++ m ++ B) j n sh = Some v.
Proof.
  revert i j sh v. induction n as [|n IH]; intros i j sh v Hm ->; [done|]. cbn [or_bytes] in *.
  destruct (rd m i) as [b|] eqn:Hb; [|done]. mstep in Hm.
  destruct (or_bytes m (i + 1) n (sh + 8)) as [r|] eqn:Hr; [|done].
  rewrite (rd_frame A m B i _ b) by done. mstep.
  by rewrite (IH (i + 1) _ (sh + 8) r) by (done || lia).
Qed.

Lemma or_bytes_shiftl bs sh :
  Forall is_byte bs -> 0 <= sh ->
  or_bytes bs 0 (length bs) sh = Some (Z.shiftl (le_decode bs) sh).
Proof.
  intros Hbs. revert sh. induction Hbs as [|b bs Hb Hbs IH]; intros sh Hsh.
  { simpl. by rewrite Z.shiftl_0_l. }
  cbn [length or_bytes]. change (rd (b :: bs) 0) with (Some b). mstep.
  specialize (IH (sh + 8) ltac:(lia)).
  rewrite <- (app_nil_r bs) at 1. change (b :: bs ++ []) with ([b] ++ bs ++ []).
  rewrite (or_bytes_frame [b] bs [] _ 0 (0 + 1) _ _ IH) by done. mstep.
  rewrite lor_shift; [done|done|apply le_decode_range, Hbs|done].
Qed.

(** The bytes [bs] are read as a little endian number. *)
Lemma or_bytes_mid (A bs B : list Z) i n :
  Forall is_byte bs -> i = Z.of_nat (length A) -> n = length bs ->
  or_bytes (A ++ bs ++ B) i n 0 = Some (le_decode bs).
Proof.
  intros Hbs -> ->. rewrite <- (Z.shiftl_0_r (le_decode bs)).
  eapply or_bytes_frame; [by apply or_bytes_shiftl|lia].
Qed.

Lemma or_bytes_head (bs B : list Z) n :
  Forall is_byte bs -> n = length bs -> or_bytes (bs ++ B) 0 n 0 = Some (le_decode bs).
Proof. intros. by apply (or_bytes_mid []). Qed.

(** The encoding bytes, by ranges *)
Definition lp_classes (b : Z) : bool :=
  bool_decide (LP_ENCODING_IS_7BIT_UINT b = (b <? 128)) &&
  bool_decide (LP_ENCODING_IS_6BIT_STR b = (128 <=? b) && (b <? 192)) &&
  bool_decide (LP_ENCODING_IS_13BIT_INT b = (192 <=? b) && (b <? 224)) &&
  bool_decide (LP_ENCODING_IS_12BIT_STR b = (224 <=? b) && (b <? 240)) &&
  bool_decide (LP_ENCODING_IS_32BIT_STR b = (b =? 240)) &&
  bool_decide (LP_ENCODING_IS_16BIT_INT b = (b =? 241)) &&
  bool_decide (LP_ENCODING_IS_24BIT_INT b = (b =? 242)) &&
  bool_decide (LP_ENCODING_IS_32BIT_INT b = (b =? 243)) &&
  bool_decide (LP_ENCODING_IS_64BIT_INT b = (b =? 244)).

Lemma lp_class b : is_byte b -> lp_classes b = true.
Proof. apply byte_forall. vm_compute. reflexivity. Qed.

(** Turns the tests on the encoding byte [b] into comparisons. *)
Ltac lp_tests b :=
  let Hb := fresh in let H := fresh in
  assert (Hb : is_byte b) by first [assumption | unfold is_byte; lia];
  pose proof (lp_class b Hb) as H; clear Hb; unfold lp_classes in H;
  rewrite !andb_true_iff, !bool_decide_eq_true in H;
  destruct H as [[[[[[[[->->]->]->]->]->]->]->]->].

(** ** The backward length *)

Definition backlen (l : Z) : list Z := (lpEncodeBacklen l).2.

Lemma lpEncodeBacklen_size l :
  lpEncodeBacklen l = (lpEncodeBacklenBytes l, backlen l) /\
  Z.of_nat (length (backlen l)) = lpEncodeBacklenBytes l.
Proof. unfold backlen, lpEncodeBacklen, lpEncodeBacklenBytes. repeat zcase; done. Qed.

Lemma lpEncodeBacklenBytes_range l : 1 <= lpEncodeBacklenBytes l <= 5.
Proof. unfold lpEncodeBacklenBytes. repeat zcase; lia. Qed.

Lemma backlen_bytes l : Forall is_byte (backlen l).
Proof.
  unfold backlen, lpEncodeBacklen. repeat zcase; cbn [snd];
    repeat constructor; apply (wrapU_range 8); lia.
Qed.

(** The bytes of a number in base 128 *)
Lemma low7 x : u8 (Z.lor (Z.land x 127) 128) = 128 + x mod 128.
Proof.
  change 127 with (Z.ones 7). rewrite Z.land_ones by lia. zpow.
  pose proof (Z.mod_pos_bound x 128 ltac:(lia)).
  change 128 with (Z.shiftl 1 7) at 2. rewrite lor_shiftl_add by (zpow; lia). zpow.
  rewrite wrapU_id by (unfold inU; zpow; lia). lia.
Qed.

Lemma high7 x : 0 <= x < 128 -> u8 x = x.
Proof. intros. apply wrapU_id. unfold inU. zpow. lia. Qed.

Lemma land128 b : is_byte b -> (Z.land b 128 =? 0) = (b <? 128).
Proof.
  intros Hb. apply eqb_prop. revert b Hb. apply byte_forall. vm_compute. reflexivity.
Qed.

Lemma land127 b : Z.land b 127 = b mod 128.
Proof. change 127 with (Z.ones 7). by rewrite Z.land_ones. Qed.

(** One step of the decoding: the digit and the continuation bit *)
Lemma decode_low x : (Z.land (128 + x mod 128) 128 =? 0) = false /\ Z.land (128 + x mod 128) 127 = x mod 128.
Proof.
  pose proof (Z.mod_pos_bound x 128 ltac:(lia)). rewrite land128, land127 by (unfold is_byte; lia).
  split; [apply Z.ltb_ge; lia|]. rewrite <- (Z.mod_add _ 1) by lia. change (1 * 128) with 128.
  replace (128 + x mod 128 + 128) with (x mod 128 + 2 * 128) by lia. rewrite Z.mod_add by lia.
  by rewrite Z.mod_mod.
Qed.

Lemma decode_high x : 0 <= x < 128 -> (Z.land x 128 =? 0) = true /\ Z.land x 127 = x.
Proof.
  intros. rewrite land128, land127 by (unfold is_byte; lia).
  split; [apply Z.ltb_lt; lia|]. by rewrite Z.mod_small.
Qed.

(** Adding the digits up again *)
Lemma base128 l k :
  0 <= l -> 0 <= k ->
  Z.lor (l mod 2 ^ k) (Z.shiftl (Z.shiftr l k mod 128) k) = l mod 2 ^ (k + 7).
Proof.
  intros Hl Hk. pose proof (Z.mod_pos_bound l (2 ^ k) (pow2_pos k Hk)).
  rewrite lor_shiftl_add by lia. rewrite Z.shiftr_div_pow2, Z.pow_add_r by lia.
  change (2 ^ 7) with 128. rewrite Z.rem_mul_r by (pose proof (pow2_pos k Hk); lia). lia.
Qed.

Lemma base128_top l k :
  0 <= l -> 0 <= k -> Z.lor (l mod 2 ^ k) (Z.shiftl (Z.shiftr l k) k) = l.
Proof.
  intros Hl Hk. pose proof (pow2_pos k Hk). pose proof (Z.mod_pos_bound l (2 ^ k) (pow2_pos k Hk)).
  rewrite lor_shiftl_add by lia. rewrite Z.shiftr_div_pow2 by lia.
  pose proof (Z.div_mod l (2 ^ k)). lia.
Qed.

Lemma shiftr_top l k m : 0 <= l < m * 2 ^ k -> 0 <= k -> 0 <= Z.shiftr l k < m.
Proof.
  intros Hl Hk. pose proof (pow2_pos k Hk). rewrite Z.shiftr_div_pow2 by lia.
  split; [apply Z.div_pos; lia|apply Z.div_lt_upper_bound; lia].
Qed.

(** Reads the digit [i] of a length, the first one without continuation. *)
Ltac rd_at H i :=
  match goal with
  | |- context [rd _ ?j] =>
      let L := match type of H with context [Z.of_nat ?L + Z.of_nat _] => L end in
      replace j with (Z.of_nat L + Z.of_nat i) by lia; rewrite (H i _ eq_refl)
  end; mstep;
  first [rewrite low7 | rewrite high7 by first [lia | apply shiftr_top; zpow; lia]];
  match goal with
  | |- context [Z.land (128 + ?x mod 128) 128 =? 0] =>
      rewrite !(proj2 (decode_low x)), (proj1 (decode_low x))
  | |- context [Z.land ?x 128 =? 0] =>
      let D := fresh in
      assert (D : 0 <= x < 128) by first [lia | apply shiftr_top; zpow; lia];
      rewrite (proj1 (decode_high x D)), (proj2 (decode_high x D)); clear D
  end.

(** The encoded length is decoded from its last byte, whatever is before. *)
Lemma lpDecodeBacklen_backlen (A B : list Z) l p :
  0 <= l < 2 ^ 35 -> p = Z.of_nat (length (A ++ backlen l)) - 1 ->
  lpDecodeBacklen (A ++ backlen l ++ B) p = Some l.
Proof.
  intros Hl ->. rewrite length_app.
  assert (Hrd : forall i b, backlen l !! i = Some b ->
    rd (A ++ backlen l ++ B) (Z.of_nat (length A) + Z.of_nat i) = Some b).
  { intros i b Hb. eapply rd_frame; [|done]. unfold rd.
    destruct (Z.ltb_spec (Z.of_nat i) 0); [lia|]. by rewrite Nat2Z.id. }
  revert Hrd. generalize (A ++ backlen l ++ B) as m.
  unfold backlen, lpEncodeBacklen. cbv zeta.
  assert (H0 : forall x, Z.shiftr x 0 mod 128 = x mod 2 ^ 7) by (intros x; by rewrite Z.shiftr_0_r).
  pose proof (base128 l 7) as B7. pose proof (base128 l 14) as B14. pose proof (base128 l 21) as B21.
  pose proof (base128_top l) as T. change (7 + 7) with 14 in B7. change (14 + 7) with 21 in B14.
  change (21 + 7) with 28 in B21.
  repeat zcase; cbn [snd length]; intros m Hrd; unfold lpDecodeBacklen;
    [rd_at Hrd 0%nat|rd_at Hrd 1%nat; rd_at Hrd 0%nat|rd_at Hrd 2%nat; rd_at Hrd 1%nat; rd_at Hrd 0%nat
    |rd_at Hrd 3%nat; rd_at Hrd 2%nat; rd_at Hrd 1%nat; rd_at Hrd 0%nat
    |rd_at Hrd 4%nat; rd_at Hrd 3%nat; rd_at Hrd 2%nat; rd_at Hrd 1%nat; rd_at Hrd 0%nat];
    rewrite ?H0, ?B7, ?B14, ?B21, ?T by lia; done.
Qed.

(** ** Integers *)

(** How the reading functions return an integer *)
Definition int_out (v : Z) (intbuf : option (list Z)) : option (lp_ptr * Z) :=
  match intbuf with
  | Some buf => '(n, buf) ← ll2string buf v; Some (PIntbuf buf, n)
  | None => Some (PNull, v)
  end.

(** Two's complement on [w] bits *)
Lemma lp_int_result_signed w v negmax intbuf :
  1 <= w <= 64 -> inS w v -> negmax = 2 ^ w - 1 ->
  lp_int_result (v mod 2 ^ w) (Z.shiftl 1 (w - 1)) negmax intbuf = int_out v intbuf.
Proof.
  intros Hw Hv ->. unfold lp_int_result, int_out.
  assert (Hpow : 2 ^ w = 2 * 2 ^ (w - 1)).
  { rewrite <- Z.pow_succ_r by lia. f_equal. lia. }
  assert (H64 : 2 ^ (w - 1) <= 2 ^ 63) by (apply Z.pow_le_mono_r; lia).
  unfold inS in Hv. rewrite Z.shiftl_1_l. pose proof (pow2_pos (w - 1) ltac:(lia)).
  replace (if _ >=? _ then _ else _) with v; [done|]. destruct (Z.lt_ge_cases v 0).
  - rewrite <- (Z.mod_add v 1), Z.mod_small by lia. destruct (_ >=? _) eqn:E; zbool; [|lia].
    rewrite (wrapU_id 64) by (unfold inU; zpow; lia).
    rewrite (wrapS_id 64 (_ - 1 - _)) by (try unfold inS; zpow; lia).
    rewrite wrapS_id by (try unfold inS; zpow; lia). lia.
  - rewrite Z.mod_small by lia. destruct (_ >=? _) eqn:E; zbool; [lia|].
    rewrite wrapS_id by (try unfold inS; zpow; lia). done.
Qed.

Lemma lp_int_result_small v intbuf :
  0 <= v < 128 -> lp_int_result v UINT64_MAX 0 intbuf = int_out v intbuf.
Proof.
  intros Hv. unfold lp_int_result, int_out. destruct (_ >=? _) eqn:E; zbool; [lia|].
  by rewrite wrapS_id by (try unfold inS; zpow; lia).
Qed.

(** The bytes of the encodings, in little endian order *)
Lemma byte_shiftr x k : 0 <= k -> u8 (Z.shiftr x k) = x / 2 ^ k mod 256.
Proof. intros. unfold wrapU. by rewrite Z.shiftr_div_pow2. Qed.

Lemma byte_land x : u8 (Z.land x 0xff) = x mod 256.
Proof.
  change 0xff with (Z.ones 8). rewrite Z.land_ones by lia. unfold wrapU.
  by rewrite Z.mod_mod.
Qed.

Lemma byte_shiftr_land x k : 0 <= k -> u8 (Z.land (Z.shiftr x k) 0xff) = x / 2 ^ k mod 256.
Proof. intros. by rewrite byte_land, Z.shiftr_div_pow2. Qed.

Ltac le_bytes :=
  rewrite ?byte_shiftr_land, ?byte_shiftr, ?byte_land by lia;
  cbn [le_encode]; rewrite ?Z.div_div by lia; try reflexivity.

Definition int_enc (v : Z) : list Z :=
  if (v >=? 0) && (v <=? 127) then [v]
  else if (v >=? -4096) && (v <=? 4095) then
    [192 + v mod 2 ^ 13 / 256; v mod 256]
  else if (v >=? -32768) && (v <=? 32767) then 241 :: le_encode 2 v
  else if (v >=? -8388608) && (v <=? 8388607) then 242 :: le_encode 3 v
  else if (v >=? -2147483648) && (v <=? 2147483647) then 243 :: le_encode 4 v
  else 244 :: le_encode 8 v.

(** Adding a multiple of the modulus makes a number nonnegative. *)
Lemma mod_neg v w : 0 <= w -> - 2 ^ w <= v < 2 ^ w ->
  (if v <? 0 then Z.shiftl 1 w + v else v) = v mod 2 ^ w.
Proof.
  intros Hw Hv. rewrite Z.shiftl_1_l. destruct (v <? 0) eqn:E; zbool.
  - rewrite <- (Z.mod_add v 1), Z.mod_small by lia. lia.
  - by rewrite Z.mod_small by lia.
Qed.

Lemma le_encode_small n v : le_encode n (v mod 2 ^ (8 * Z.of_nat n)) = le_encode n v.
Proof. apply le_encode_mod, Z.mod_mod. pose proof (pow2_pos (8 * Z.of_nat n)). lia. Qed.

Lemma lpEncodeIntegerGetType_int_enc v :
  lpEncodeIntegerGetType v = (Z.of_nat (length (int_enc v)), int_enc v).
Proof.
  unfold lpEncodeIntegerGetType, int_enc. cbv zeta.
  destruct ((v >=? 0) && _) eqn:E1; [zbool; by rewrite high7 by lia|].
  destruct ((v >=? -4096) && _) eqn:E2.
  { zbool. rewrite mod_neg by (zpow; lia). pose proof (Z.mod_pos_bound v (2 ^ 13) ltac:(lia)).
    assert (Hd : 0 <= v mod 2 ^ 13 / 256 < 32).
    { split; [apply Z.div_pos; lia|apply Z.div_lt_upper_bound; zpow; lia]. }
    change LP_ENCODING_13BIT_INT with (Z.shiftl 6 5).
    rewrite byte_land, Z.shiftr_div_pow2, lor_shiftl_add by (zpow; lia). zpow.
    rewrite wrapU_id by (unfold inU; zpow; lia). rewrite (Z.add_comm _ (6 * 32)).
    change (6 * 32) with 192. cbn [length]. f_equal. f_equal. f_equal.
    apply Z.mod_mod_divide. by exists 32. }
  destruct ((v >=? -32768) && _) eqn:E3.
  { zbool. rewrite mod_neg by (zpow; lia). rewrite <- (le_encode_small 2). le_bytes. }
  destruct ((v >=? -8388608) && _) eqn:E4.
  { zbool. rewrite mod_neg by (zpow; lia). rewrite <- (le_encode_small 3). le_bytes. }
  destruct ((v >=? -2147483648) && _) eqn:E5.
  { zbool. rewrite mod_neg by (zpow; lia). rewrite <- (le_encode_small 4). le_bytes. }
  rewrite <- (le_encode_small 8). le_bytes.
Qed.

Lemma int_enc_bytes v : Forall is_byte (int_enc v).
Proof.
  unfold int_enc. destruct ((v >=? 0) && _) eqn:E1; zbool.
  { repeat constructor; unfold is_byte; lia. }
  pose proof (Z.mod_pos_bound v (2 ^ 13) ltac:(lia)).
  assert (0 <= v mod 2 ^ 13 / 256 < 32).
  { split; [apply Z.div_pos; lia|apply Z.div_lt_upper_bound; lia]. }
  pose proof (Z.mod_pos_bound v 256 ltac:(lia)).
  repeat (destruct (_ && _)); repeat constructor; try apply le_encode_bytes; unfold is_byte; try lia.
  all: apply Z.mod_pos_bound; lia.
Qed.

(** ** Strings *)

Definition str_enc (s : list Z) : list Z :=
  let len := Z.of_nat (length s) in
  if len <? 64 then (128 + len) :: s
  else if len <? 4096 then (224 + len / 256) :: len mod 256 :: s
  else 240 :: le_encode 4 len ++ s.

Lemma str_enc_length s :
  Z.of_nat (length (str_enc s)) =
    if Z.of_nat (length s) <? 64 then 1 + Z.of_nat (length s)
    else if Z.of_nat (length s) <? 4096 then 2 + Z.of_nat (length s)
    else 5 + Z.of_nat (length s).
Proof.
  unfold str_enc. repeat zcase; cbn [length]; rewrite ?length_app, ?length_le_encode; lia.
Qed.

Lemma str_enc_bytes s : Forall is_byte s -> Forall is_byte (str_enc s).
Proof.
  intros Hs. unfold str_enc. repeat zcase.
  - constructor; [unfold is_byte; lia|done].
  - assert (0 <= Z.of_nat (length s) / 256 < 16).
    { split; [apply Z.div_pos; lia|apply Z.div_lt_upper_bound; lia]. }
    constructor; [unfold is_byte; lia|]. constructor; [apply Z.mod_pos_bound; lia|done].
  - constructor; [unfold is_byte; lia|]. apply Forall_app. split; [apply le_encode_bytes|done].
Qed.

(** Writing a byte at the end of what is written *)
Lemma wr_next (L R : list Z) r i v :
  i = Z.of_nat (length L) -> wr (L ++ r :: R) i v = Some ((L ++ [u8 v]) ++ R).
Proof. intros Hi. rewrite wr_mid by done. by rewrite <- app_assoc. Qed.

(** [lpEncodeString] stores the encoding in the room that was made for it. *)
Lemma lpEncodeString_store (L room R s : list Z) dst :
  dst = Z.of_nat (length L) -> length room = length (str_enc s) ->
  Z.of_nat (length s) < 2 ^ 32 ->
  lpEncodeString (L ++ room ++ R) dst s = Some (L ++ str_enc s ++ R).
Proof.
  intros -> Hroom Hs. unfold lpEncodeString. revert Hroom. unfold str_enc. cbv zeta.
  set (len := Z.of_nat (length s)) in *.
  destruct (len <? 64) eqn:E1; [|destruct (len <? 4096) eqn:E2]; zbool; cbn [length]; intros Hroom.
  - destruct room as [|r0 room]; [simpl in *; lia|]. cbn [app].
    rewrite wr_next by done. mstep.
    rewrite (mstore_app_mid (L ++ _) room s R) by (rewrite ?length_app; simpl in *; lia).
    rewrite <- app_assoc. change LP_ENCODING_6BIT_STR with (Z.shiftl 1 7).
    rewrite lor_shiftl_add by (zpow; lia). zpow.
    rewrite wrapU_id by (unfold inU; zpow; lia). rewrite Z.add_comm. done.
  - destruct room as [|r0 [|r1 room]]; [simpl in *; lia..|]. cbn [app].
    rewrite wr_next by done. mstep.
    rewrite wr_next by (rewrite length_app; simpl; lia). mstep.
    rewrite (mstore_app_mid (_ ++ _) room s R) by (rewrite ?length_app; simpl in *; lia).
    rewrite <- !app_assoc, byte_land, Z.shiftr_div_pow2 by lia.
    assert (0 <= len / 2 ^ 8 < 16).
    { split; [apply Z.div_pos; lia|apply Z.div_lt_upper_bound; lia]. }
    change LP_ENCODING_12BIT_STR with (Z.shiftl 14 4). rewrite lor_shiftl_add by (zpow; lia).
    rewrite wrapU_id by (unfold inU; zpow; lia). rewrite Z.add_comm. done.
  - do 5 (destruct room as [|? room]; [rewrite length_app, length_le_encode in Hroom; simpl in *; lia|]).
    cbn [app]. do 5 (rewrite wr_next by (rewrite ?length_app; simpl; lia); mstep).
    rewrite length_app, length_le_encode in Hroom.
    rewrite (mstore_app_mid (_ ++ _) room s R) by (rewrite ?length_app; simpl in *; lia).
    rewrite <- !app_assoc. cbn [app]. le_bytes.
Qed.

(** ** Elements *)

(** The encoding of an element *)
Definition enc_of (x : listpackEntry) : list Z :=
  match x with LpString s => str_enc s | LpInteger v => int_enc v end.

(** The elements the format can hold *)
Definition ele_ok (x : listpackEntry) : Prop :=
  match x with
  | LpString s => Forall is_byte s /\ Z.of_nat (length s) + 5 < 2 ^ 32
  | LpInteger v => inS 64 v
  end.

(** The element the code makes of a string *)
Definition ele_of_string (s : list Z) : listpackEntry :=
  match lpStringToInt64 s with Some v => LpInteger v | None => LpString s end.

(** What is encoded at the beginning of [e] *)
Definition decode (e : list Z) : option listpackEntry :=
  '(r, n) ← lpGet e 0 None;
  match r with
  | PLp q => s ← mload e q n; Some (LpString s)
  | _ => Some (LpInteger n)
  end.

(** [e] is the encoding of an element, without its backward length. *)
Definition enc_ok (e : list Z) : Prop :=
  Forall is_byte e /\ (exists b t, e = b :: t /\ b <> LP_EOF) /\
  lpCurrentEncodedSizeUnsafe e 0 = Some (Z.of_nat (length e)).

(** Reading a part is reading the whole. *)
Ltac frame_step :=
  match goal with
  | H : (rd ?m ?i ≫= _) = Some _ |- _ =>
      let b := fresh "b" in let Hb := fresh "Hb" in
      destruct (rd m i) as [b|] eqn:Hb; [|discriminate H]; mstep in H
  | H : ((rd ?m ?i ≫= _) ≫= _) = Some _ |- _ =>
      let b := fresh "b" in let Hb := fresh "Hb" in
      destruct (rd m i) as [b|] eqn:Hb; [|discriminate H]; mstep in H
  | H : (or_bytes ?m ?i ?n ?sh ≫= _) = Some _ |- _ =>
      let b := fresh "b" in let Hb := fresh "Hb" in
      destruct (or_bytes m i n sh) as [b|] eqn:Hb; [|discriminate H]; mstep in H
  | Hb : rd ?m ?i = Some ?b |- context [rd (?A ++ ?m ++ ?B) ?j] =>
      rewrite (rd_frame A m B i j b Hb) by lia; mstep
  | Hb : or_bytes ?m ?i ?n ?sh = Some ?b |- context [or_bytes (?A ++ ?m ++ ?B) ?j ?n ?sh] =>
      rewrite (or_bytes_frame A m B n i j sh b Hb) by lia; mstep
  | H : (if ?c then _ else _) = Some _ |- _ => destruct c
  end.

Lemma lpCurrentEncodedSizeUnsafe_frame (A m B : list Z) p v :
  lpCurrentEncodedSizeUnsafe m 0 = Some v -> p = Z.of_nat (length A) ->
  lpCurrentEncodedSizeUnsafe (A ++ m ++ B) p = Some v.
Proof.
  unfold lpCurrentEncodedSizeUnsafe, LP_ENCODING_6BIT_STR_LEN, LP_ENCODING_12BIT_STR_LEN,
    LP_ENCODING_32BIT_STR_LEN. intros Hv ->.
  repeat frame_step; done.
Qed.

Definition shift_ptr (k : Z) (r : lp_ptr) : lp_ptr :=
  match r with PLp q => PLp (k + q) | _ => r end.

Lemma int_result_shift uval ns nm intbuf r n k :
  lp_int_result uval ns nm intbuf = Some (r, n) ->
  lp_int_result uval ns nm intbuf = Some (shift_ptr k r, n).
Proof.
  unfold lp_int_result. destruct intbuf as [buf|]; [|by intros [= <- <-]].
  destruct (ll2string _ _) as [[? ?]|]; [|done]. by intros [= <- <-].
Qed.

Lemma lpGetWithBuf_frame (A m B : list Z) intbuf p r n :
  lpGetWithBuf m 0 intbuf = Some (r, n) -> p = Z.of_nat (length A) ->
  lpGetWithBuf (A ++ m ++ B) p intbuf = Some (shift_ptr p r, n).
Proof.
  unfold lpGetWithBuf, LP_ENCODING_6BIT_STR_LEN, LP_ENCODING_12BIT_STR_LEN,
    LP_ENCODING_32BIT_STR_LEN. intros Hv ->.
  repeat frame_step; try (by apply int_result_shift); injection Hv as <- <-; done.
Qed.

(** Decides the comparisons of the goal that follow from the hypotheses. *)
Ltac zdecide :=
  repeat match goal with
  | |- context [?a <? ?b] =>
      first [rewrite (proj2 (Z.ltb_lt a b)) by lia | rewrite (proj2 (Z.ltb_ge a b)) by lia]
  | |- context [?a <=? ?b] =>
      first [rewrite (proj2 (Z.leb_le a b)) by lia | rewrite (proj2 (Z.leb_gt a b)) by lia]
  | |- context [?a =? ?b] =>
      first [rewrite (proj2 (Z.eqb_eq a b)) by lia | rewrite (proj2 (Z.eqb_neq a b)) by lia]
  end; cbn [andb orb negb].

Lemma rd_head b t : rd (b :: t) 0 = Some b.
Proof. done. Qed.

(** The number of bytes of an encoding is read from its first bytes. *)
Lemma str_enc_size s :
  Z.of_nat (length s) + 5 < 2 ^ 32 ->
  lpCurrentEncodedSizeUnsafe (str_enc s) 0 = Some (Z.of_nat (length (str_enc s))).
Proof.
  intros Hs. rewrite str_enc_length. unfold str_enc. cbv zeta.
  set (len := Z.of_nat (length s)) in *. unfold lpCurrentEncodedSizeUnsafe.
  destruct (len <? 64) eqn:E1; [|destruct (len <? 4096) eqn:E2]; zbool;
    rewrite rd_head; mstep.
  - lp_tests (128 + len). zdecide.
    unfold LP_ENCODING_6BIT_STR_LEN. rewrite rd_head. mstep.
    change 0x3F with (Z.ones 6). rewrite Z.land_ones by lia. zpow.
    replace (128 + len) with (len + 2 * 64) by lia. rewrite Z_mod_plus_full, Z.mod_small by lia.
    by rewrite wrapU_id by (unfold inU; zpow; lia).
  - assert (0 <= len / 256 < 16).
    { split; [apply Z.div_pos; lia|apply Z.div_lt_upper_bound; lia]. }
    lp_tests (224 + len / 256). zdecide.
    unfold LP_ENCODING_12BIT_STR_LEN. rewrite rd_head.
    change (rd (_ :: ?x :: _) (0 + 1)) with (Some x). mstep.
    change 0xF with (Z.ones 4). rewrite Z.land_ones by lia. zpow.
    replace (224 + len / 256) with (len / 256 + 14 * 16) by lia.
    rewrite Z_mod_plus_full, Z.mod_small by lia.
    pose proof (Z.mod_pos_bound len 256 ltac:(lia)). pose proof (Z.div_mod len 256 ltac:(lia)).
    rewrite Z.lor_comm, lor_shiftl_add by (zpow; lia). zpow.
    rewrite wrapU_id by (unfold inU; zpow; lia). f_equal. lia.
  - lp_tests 240. zdecide.
    unfold LP_ENCODING_32BIT_STR_LEN. change (240 :: le_encode 4 len ++ s) with ([240] ++ le_encode 4 len ++ s).
    rewrite or_bytes_mid; [|apply le_encode_bytes|done|done]. mstep.
    rewrite le_decode_encode, Z.mod_small by (zpow; lia).
    by rewrite wrapU_id by (unfold inU; zpow; lia).
Qed.

Lemma int_enc_size v : lpCurrentEncodedSizeUnsafe (int_enc v) 0 = Some (Z.of_nat (length (int_enc v))).
Proof.
  unfold lpCurrentEncodedSizeUnsafe, int_enc. destruct ((v >=? 0) && _) eqn:E1; zbool.
  { rewrite rd_head. mstep. lp_tests v. by zdecide. }
  destruct ((v >=? -4096) && _) eqn:E2.
  { pose proof (Z.mod_pos_bound v (2 ^ 13) ltac:(lia)).
    assert (0 <= v mod 2 ^ 13 / 256 < 32).
    { split; [apply Z.div_pos; lia|apply Z.div_lt_upper_bound; lia]. }
    rewrite rd_head. mstep.
    lp_tests (192 + v mod 2 ^ 13 / 256). by zdecide. }
  repeat (destruct (_ && _)); done.
Qed.

Lemma enc_of_ok x : ele_ok x -> enc_ok (enc_of x).
Proof.
  unfold enc_ok. destruct x as [s|v]; cbn [ele_ok enc_of].
  - intros [Hs Hl]. split_and!; [by apply str_enc_bytes| |by apply str_enc_size].
    unfold str_enc, LP_EOF. set (len := Z.of_nat (length s)).
    repeat zcase; eexists _, _; (split; [done|]); try lia.
    assert (len / 256 < 16) by (apply Z.div_lt_upper_bound; lia). lia.
  - intros Hv. split_and!; [apply int_enc_bytes| |apply int_enc_size].
    unfold int_enc, LP_EOF. pose proof (Z.mod_pos_bound v (2 ^ 13) ltac:(lia)).
    assert (v mod 2 ^ 13 / 256 < 32) by (apply Z.div_lt_upper_bound; lia).
    destruct ((v >=? 0) && _) eqn:E; zbool; [|repeat (destruct (_ && _))];
      eexists _, _; (split; [done|]); lia.
Qed.

(** Where the bytes of an encoded string begin *)
Definition str_hdr (s : list Z) : list Z :=
  let len := Z.of_nat (length s) in
  if len <? 64 then [128 + len]
  else if len <? 4096 then [224 + len / 256; len mod 256]
  else 240 :: le_encode 4 len.

Lemma str_enc_hdr s : str_enc s = str_hdr s ++ s.
Proof. unfold str_enc, str_hdr. by repeat zcase. Qed.

Lemma lpGetWithBuf_str s intbuf :
  Z.of_nat (length s) + 5 < 2 ^ 32 ->
  lpGetWithBuf (str_enc s) 0 intbuf = Some (PLp (Z.of_nat (length (str_hdr s))), Z.of_nat (length s)).
Proof.
  intros Hs. unfold str_enc, str_hdr. cbv zeta.
  set (len := Z.of_nat (length s)) in *. unfold lpGetWithBuf.
  destruct (len <? 64) eqn:E1; [|destruct (len <? 4096) eqn:E2]; zbool;
    rewrite rd_head; mstep.
  - lp_tests (128 + len). zdecide.
    unfold LP_ENCODING_6BIT_STR_LEN. rewrite rd_head. mstep.
    change 0x3F with (Z.ones 6). rewrite Z.land_ones by lia. zpow.
    replace (128 + len) with (len + 2 * 64) by lia. by rewrite Z_mod_plus_full, Z.mod_small by lia.
  - assert (0 <= len / 256 < 16).
    { split; [apply Z.div_pos; lia|apply Z.div_lt_upper_bound; lia]. }
    lp_tests (224 + len / 256). zdecide.
    unfold LP_ENCODING_12BIT_STR_LEN. rewrite rd_head.
    change (rd (_ :: ?x :: _) (0 + 1)) with (Some x). mstep.
    change 0xF with (Z.ones 4). rewrite Z.land_ones by lia. zpow.
    replace (224 + len / 256) with (len / 256 + 14 * 16) by lia.
    rewrite Z_mod_plus_full, Z.mod_small by lia.
    pose proof (Z.mod_pos_bound len 256 ltac:(lia)). pose proof (Z.div_mod len 256 ltac:(lia)).
    rewrite Z.lor_comm, lor_shiftl_add by (zpow; lia). zpow. f_equal. f_equal. lia.
  - lp_tests 240. zdecide. unfold LP_ENCODING_32BIT_STR_LEN.
    change (240 :: le_encode 4 len ++ s) with ([240] ++ le_encode 4 len ++ s).
    rewrite or_bytes_mid; [|apply le_encode_bytes|done|done]. mstep.
    by rewrite le_decode_encode, Z.mod_small by (zpow; lia).
Qed.

Lemma lpGetWithBuf_int v intbuf :
  inS 64 v -> lpGetWithBuf (int_enc v) 0 intbuf = int_out v intbuf.
Proof.
  intros Hv. unfold int_enc, lpGetWithBuf. destruct ((v >=? 0) && _) eqn:E1; zbool.
  { rewrite rd_head. mstep. lp_tests v. zdecide.
    change 0x7f with 127. rewrite land127, Z.mod_small by lia. apply lp_int_result_small. lia. }
  destruct ((v >=? -4096) && _) eqn:E2; zbool.
  { pose proof (Z.mod_pos_bound v (2 ^ 13) ltac:(lia)).
    set (q := v mod 2 ^ 13 / 256).
    assert (0 <= q < 32).
    { split; [apply Z.div_pos; lia|apply Z.div_lt_upper_bound; lia]. }
    rewrite rd_head. change (rd (_ :: ?x :: _) (0 + 1)) with (Some x). mstep.
    lp_tests (192 + q). zdecide. change 0x1f with (Z.ones 5). rewrite Z.land_ones by lia. zpow.
    replace (192 + q) with (q + 6 * 32) by lia. rewrite Z_mod_plus_full, (Z.mod_small q) by lia.
    pose proof (Z.mod_pos_bound v 256 ltac:(lia)).
    rewrite Z.lor_comm, lor_shiftl_add by (zpow; lia).
    replace (v mod 256 + q * 2 ^ 8) with (v mod 2 ^ 13).
    - apply (lp_int_result_signed 13); unfold inS; zpow; lia.
    - unfold q. rewrite (Z.div_mod (v mod 2 ^ 13) 256) at 1 by lia. zpow.
      rewrite Z.mod_mod_divide by (by exists 32). lia. }
  assert (Hle : forall b n, or_bytes (b :: le_encode n v) (0 + 1) n 0 = Some (v mod 2 ^ (8 * Z.of_nat n))).
  { intros b n. change (b :: le_encode n v) with ([b] ++ le_encode n v).
    rewrite <- (app_nil_r (le_encode n v)).
    rewrite or_bytes_mid by (apply le_encode_bytes || done || by rewrite length_le_encode).
    by rewrite le_decode_encode. }
  destruct ((v >=? -32768) && _) eqn:E3; zbool; [|destruct ((v >=? -8388608) && _) eqn:E4; zbool;
    [|destruct ((v >=? -2147483648) && _) eqn:E5; zbool]];
    rewrite rd_head; mstep.
  - lp_tests 241. zdecide. rewrite Hle. mstep.
    apply (lp_int_result_signed 16); unfold inS; zpow; lia.
  - lp_tests 242. zdecide. rewrite Hle. mstep.
    apply (lp_int_result_signed 24); [lia|unfold inS; zpow; lia|done].
  - lp_tests 243. zdecide. rewrite Hle. mstep.
    apply (lp_int_result_signed 32); unfold inS; zpow; lia.
  - lp_tests 244. zdecide. rewrite Hle. mstep.
    apply (lp_int_result_signed 64); [lia|done|done].
Qed.

Lemma decode_enc_of x : ele_ok x -> decode (enc_of x) = Some x.
Proof.
  unfold decode, lpGet. destruct x as [s|v]; cbn [ele_ok enc_of].
  - intros [Hs Hl]. rewrite lpGetWithBuf_str by done. mstep.
    pose proof (mload_app_mid (str_hdr s) s [] _ _ eq_refl eq_refl) as H.
    rewrite app_nil_r in H. by rewrite str_enc_hdr, H.
  - intros Hv. by rewrite lpGetWithBuf_int.
Qed.

(** ** Reading an element, at any place *)

(** The bytes that a returned pointer and length designate *)
Definition ptr_bytes (lp : list Z) (r : lp_ptr) (n : Z) : option (list Z) :=
  match r with
  | PLp q => mload lp q n
  | PIntbuf buf => mload buf 0 n
  | PNull => None
  end.

Lemma ele_of_string_ok s :
  Forall is_byte s -> Z.of_nat (length s) + 5 < 2 ^ 32 -> ele_ok (ele_of_string s).
Proof.
  intros Hs Hl. unfold ele_of_string. destruct (lpStringToInt64 s) as [v|] eqn:E; [|done].
  rewrite lpStringToInt64_string2ll in E. by apply string2ll_sound in E as [??].
Qed.

(** Without [intbuf], no pointer to it is returned. *)
Lemma lpGetWithBuf_no_buf lp p buf n : lpGetWithBuf lp p None <> Some (PIntbuf buf, n).
Proof.
  unfold lpGetWithBuf, lp_int_result, LP_ENCODING_6BIT_STR_LEN, LP_ENCODING_12BIT_STR_LEN,
    LP_ENCODING_32BIT_STR_LEN.
  destruct (rd lp p) as [c|]; [|done]. mstep.
  repeat match goal with
  | |- context [if ?b then _ else _] => destruct b
  | |- context [rd lp ?i] => destruct (rd lp i)
  | |- context [or_bytes lp ?i ?n ?sh] => destruct (or_bytes lp i n sh)
  end; done.
Qed.

(** A string that was encoded is read back, also when it was stored as an
    integer. *)
Lemma lpGet_string A B s intbuf p :
  Forall is_byte s -> Z.of_nat (length s) + 5 < 2 ^ 32 ->
  length intbuf = Z.to_nat LP_INTBUF_SIZE -> p = Z.of_nat (length A) ->
  exists r, lpGet (A ++ enc_of (ele_of_string s) ++ B) p (Some intbuf) = Some (r, Z.of_nat (length s)) /\
    ptr_bytes (A ++ enc_of (ele_of_string s) ++ B) r (Z.of_nat (length s)) = Some s.
Proof.
  intros Hs Hl Hbuf ->. unfold ele_of_string, lpGet.
  destruct (lpStringToInt64 s) as [v|] eqn:E; cbn [enc_of].
  - rewrite lpStringToInt64_string2ll in E.
    destruct (ll2string_string2ll intbuf v s E Hbuf) as (tl & Hpr).
    exists (PIntbuf (s ++ 0 :: tl)). split; [|by apply mload_app_l].
    change (PIntbuf _) with (shift_ptr (Z.of_nat (length A)) (PIntbuf (s ++ 0 :: tl))).
    apply lpGetWithBuf_frame; [|done]. rewrite lpGetWithBuf_int.
    + unfold int_out. by rewrite Hpr.
    + by apply string2ll_sound in E as [??].
  - eexists. split; [by apply lpGetWithBuf_frame; [apply lpGetWithBuf_str|]|].
    cbn [shift_ptr ptr_bytes]. rewrite str_enc_hdr, <- app_assoc, app_assoc.
    apply mload_app_mid; [|done]. rewrite length_app. lia.
Qed.

Lemma rd_byte lp p b : Forall is_byte lp -> rd lp p = Some b -> is_byte b.
Proof. intros Hlp [_ Hb]%rd_inv. by eapply Forall_lookup_1 in Hb. Qed.

Lemma or_bytes_nonneg lp i n sh v :
  Forall is_byte lp -> or_bytes lp i n sh = Some v -> 0 <= v.
Proof.
  intros Hlp. revert i sh v. induction n as [|n IH]; intros i sh v; cbn [or_bytes].
  { by intros [= <-]. }
  destruct (rd lp i) as [b|] eqn:Hb; [|done]. mstep.
  destruct (or_bytes lp _ n _) as [r|] eqn:Hr; [|done]. intros [= <-].
  apply rd_byte in Hb; [|done]. unfold is_byte in Hb.
  apply Z.lor_nonneg. split; [apply Z.shiftl_nonneg; lia|by eapply IH].
Qed.

(** The distance to the entry after a string *)
Lemma string_skip p k n :
  1 <= k <= 5 -> 0 <= n -> n + 5 < 2 ^ 32 ->
  Some (p + (u32 (k + n) + lpEncodeBacklenBytes (u32 (k + n)))) =
    Some (p + (k + n + lpEncodeBacklenBytes (n + k))).
Proof.
  intros Hk Hn Hl. rewrite wrapU_id by (unfold inU; lia). by rewrite (Z.add_comm n).
Qed.

(** The classes of encoding bytes; the bytes from 245 to 254 are not used. *)
Lemma byte_cases b :
  is_byte b ->
  0 <= b < 128 \/ 128 <= b < 192 \/ 192 <= b < 224 \/ 224 <= b < 240 \/
  b = 240 \/ b = 241 \/ b = 242 \/ b = 243 \/ b = 244 \/ 245 <= b < 255 \/ b = 255.
Proof. unfold is_byte. lia. Qed.

(** Case analysis on the class of [b], the tests on it decided *)
Ltac lp_cases b H := destruct (byte_cases b H) as [?|[?|[?|[?|[?|[?|[?|[?|[?|[?|?]]]]]]]]]];
  lp_tests b; zdecide.

Lemma lpGetWithSize_lpGetWithBuf lp p intbuf entry_size :
  Forall is_byte lp ->
  ('(r, n, _) ← lpGetWithSize lp p intbuf entry_size; Some (r, n)) = lpGetWithBuf lp p intbuf.
Proof.
  intros Hlp. unfold lpGetWithSize, lpGetWithBuf, LP_ENCODING_6BIT_STR_LEN,
    LP_ENCODING_12BIT_STR_LEN, LP_ENCODING_32BIT_STR_LEN.
  destruct (rd lp p) as [b|] eqn:Hb; [|done]. mstep.
  pose proof (rd_byte _ _ _ Hlp Hb) as Hbyte.
  lp_cases b Hbyte;
    repeat first [destruct (or_bytes _ _ _ _); [|done] | destruct (rd _ _); [|done]];
    mstep; try destruct (lp_int_result _ _ _ _) as [[? ?]|]; done.
Qed.

(** For a valid encoding the entry size is the distance to the next entry. *)
Lemma lpGetWithSize_skip lp p intbuf entry_size b r n size :
  Forall is_byte lp -> lpGetWithSize lp p intbuf entry_size = Some (r, n, size) ->
  rd lp p = Some b -> b <> LP_EOF -> lpCurrentEncodedSizeBytes b <> 0 ->
  (forall q, r = PLp q -> n + 5 < 2 ^ 32) -> lpSkip lp p = Some (p + size).
Proof.
  intros Hlp Hget Hb.
  pose proof (rd_byte _ _ _ Hlp Hb) as Hbyte.
  revert Hget. unfold lpGetWithSize, lpSkip, lpCurrentEncodedSizeUnsafe, lpCurrentEncodedSizeBytes,
    LP_ENCODING_6BIT_STR_LEN, LP_ENCODING_12BIT_STR_LEN, LP_ENCODING_32BIT_STR_LEN, LP_EOF.
  rewrite Hb. mstep. lp_cases b Hbyte; intros Hget Heof Hval Hn; try lia;
    try (destruct (or_bytes lp (p + 1) _ 0) as [l|] eqn:Hor; [|done]);
    try (destruct (rd lp (p + 1)) as [c|] eqn:Hc; [|done]); mstep in Hget |- *;
    try (destruct (lp_int_result _ _ _ _) as [[? ?]|]; [|done]); injection Hget as <- <- <-;
    try done; specialize (Hn _ eq_refl); apply string_skip; try lia.
  - apply Z.land_nonneg. lia.
  - apply rd_byte in Hc; [|done]. apply Z.lor_nonneg. split; [|apply Hc].
    apply Z.shiftl_nonneg, Z.land_nonneg. lia.
  - by eapply or_bytes_nonneg.
Qed.
(** The two functions that read an element agree: [lpGetWithSize], which
    tests the encodings in the order of the format, returns what
    [lpGetWithBuf], which tests the strings first, returns; and for a valid
    encoding the entry size it computes is the distance to the next entry,
    provided that the length of a string does not overflow 32 bits. *)
Theorem lpGetWithSize_agrees lp p intbuf entry_size :
  Forall is_byte lp ->
  ('(r, n, _) ← lpGetWithSize lp p intbuf entry_size; Some (r, n)) = lpGetWithBuf lp p intbuf /\
  (forall b r n size,
     lpGetWithSize lp p intbuf entry_size = Some (r, n, size) ->
     rd lp p = Some b -> b <> LP_EOF -> lpCurrentEncodedSizeBytes b <> 0 ->
     (forall q, r = PLp q -> n + 5 < 2 ^ 32) -> lpSkip lp p = Some (p + size)).
Proof.
  intros Hlp. split; [by apply lpGetWithSize_lpGetWithBuf|].
  intros b r n size. by apply lpGetWithSize_skip.
Qed.

(** ** Every encoding can be read *)

Lemma or_bytes_Some lp i n sh :
  0 <= i -> i + Z.of_nat n <= Z.of_nat (length lp) -> is_Some (or_bytes lp i n sh).
Proof.
  revert i sh. induction n as [|n IH]; intros i sh Hi Hn; cbn [or_bytes]; [done|].
  destruct (rd_Some lp i ltac:(lia)) as (b & -> & _). mstep.
  destruct (IH (i + 1) (sh + 8)) as [r ->]; [lia|lia|]. done.
Qed.

Lemma or_bytes_range lp i n sh v :
  Forall is_byte lp -> 0 <= sh -> or_bytes lp i n sh = Some v -> inU (sh + 8 * Z.of_nat n) v.
Proof.
  intros Hlp. revert i sh v. induction n as [|n IH]; intros i sh v Hsh; cbn [or_bytes].
  { intros [= <-]. unfold inU. pose proof (pow2_pos (sh + 8 * Z.of_nat 0)). lia. }
  destruct (rd lp i) as [b|] eqn:Hb; [|done]. mstep.
  destruct (or_bytes lp _ n _) as [r|] eqn:Hr; [|done]. intros [= <-].
  apply rd_byte in Hb; [|done]. unfold is_byte in Hb. apply lor_range; [lia| |].
  - unfold inU. rewrite Z.shiftl_mul_pow2, Z.add_comm, Z.pow_add_r by lia.
    pose proof (pow2_pos sh Hsh).
    assert (2 ^ 8 <= 2 ^ (8 * Z.of_nat (S n))) by (apply Z.pow_le_mono_r; lia). zpow. nia.
  - apply IH in Hr; [|lia]. by replace (sh + 8 * Z.of_nat (S n)) with (sh + 8 + 8 * Z.of_nat n) by lia.
Qed.

Lemma read_string (e : list Z) k n :
  1 <= k -> 0 <= n -> k + n = Z.of_nat (length e) ->
  exists x, (s ← mload e k n; Some (LpString s)) = Some x /\
    match x with LpString s => (length s < length e)%nat | LpInteger _ => True end.
Proof.
  intros Hk Hn He. rewrite mload_Some by lia. eexists. split; [reflexivity|].
  cbn beta iota. rewrite length_take, length_drop. lia.
Qed.

(** A valid encoding holds an element: the reads of [lpGet], and the string it
    returns, stay inside of it. *)
Lemma decode_total e :
  enc_ok e ->
  exists x, decode e = Some x /\
    match x with LpString s => (length s < length e)%nat | LpInteger _ => True end.
Proof.
  intros (Hbytes & (c & t & Heq & Hc) & Hsize). unfold decode, lpGet, lpGetWithBuf.
  assert (Hb : is_byte c) by (subst e; by apply Forall_cons in Hbytes as [? _]).
  assert (Hrd : rd e 0 = Some c) by (by subst e).
  assert (Hor : forall n : nat, Z.of_nat (length e) = 1 + Z.of_nat n -> is_Some (or_bytes e (0 + 1) n 0)).
  { intros n Hn. apply or_bytes_Some; lia. }
  revert Hsize. unfold lpCurrentEncodedSizeUnsafe, LP_ENCODING_6BIT_STR_LEN,
    LP_ENCODING_12BIT_STR_LEN, LP_ENCODING_32BIT_STR_LEN, LP_EOF in *.
  rewrite Hrd. mstep.
  assert (1 <= Z.of_nat (length e)) by (subst e; simpl; lia). clear Heq.
  assert (Hint : forall u ns nm, exists x,
    ('(r, n) ← lp_int_result u ns nm None;
     match r with PLp q => s ← mload e q n; Some (LpString s) | _ => Some (LpInteger n) end) = Some x /\
    match x with LpString s => (length s < length e)%nat | LpInteger _ => True end).
  { intros. eexists. split; [reflexivity|done]. }
  lp_cases c Hb; intros Hsize; try lia; try apply Hint.
  - injection Hsize as Hs. assert (0 <= Z.land c 63 < 64).
    { change 63 with (Z.ones 6). rewrite Z.land_ones by lia. apply Z.mod_pos_bound. lia. }
    rewrite wrapU_id in Hs by (unfold inU; zpow; lia). mstep.
    apply read_string; lia.
  - injection Hsize as Hs. destruct (rd_Some e (0 + 1) ltac:(lia)) as (d & -> & _). apply Hint.
  - destruct (rd e (0 + 1)) as [d|] eqn:Hd; [|done]. mstep in *.
    assert (0 <= Z.lor (Z.shiftl (Z.land c 15) 8) d < 4096).
    { apply rd_byte in Hd; [|done]. unfold is_byte in Hd. rewrite Z.lor_comm, lor_shiftl_add by lia.
      change 15 with (Z.ones 4). rewrite Z.land_ones by lia.
      pose proof (Z.mod_pos_bound c (2 ^ 4) ltac:(lia)). zpow. lia. }
    injection Hsize as Hs. rewrite wrapU_id in Hs by (unfold inU; zpow; lia). apply read_string; lia.
  - destruct (or_bytes e (0 + 1) 4 0) as [l|] eqn:Hl; [|done]. mstep in *.
    assert (Hlen5 : 5 <= Z.of_nat (length e)).
    { clear -Hl. destruct e as [|? [|? [|? [|? [|? e]]]]]; [discriminate..|]. simpl. lia. }
    apply or_bytes_range in Hl; [|done|lia]. unfold inU in Hl. injection Hsize as Hs.
    unfold wrapU in Hs. destruct (Z.lt_ge_cases (5 + l) (2 ^ 32)).
    + rewrite Z.mod_small in Hs by lia. apply read_string; lia.
    + exfalso. rewrite <- (Z.mod_add _ (-1)), Z.mod_small in Hs by (zpow; lia). zpow. lia.
  - injection Hsize as Hs. destruct (Hor 2%nat ltac:(lia)) as [? ->]. apply Hint.
  - injection Hsize as Hs. destruct (Hor 3%nat ltac:(lia)) as [? ->]. apply Hint.
  - injection Hsize as Hs. destruct (Hor 4%nat ltac:(lia)) as [? ->]. apply Hint.
  - injection Hsize as Hs. destruct (Hor 8%nat ltac:(lia)) as [? ->]. apply Hint.
Qed.
