(* ===== verification/ListpackNav.v ===== *)
(** * Listpacks: walking and validation

    The shape of a listpack ([lp_valid]): a header, entries, a terminator and
    free space. The walk in both directions, the search and the count visit
    exactly its entries, and these are what [lpValidateIntegrity] establishes
    of untrusted bytes. *)

From S2P Require Import Prelude Gf2 Numstr Listpack ListpackCodec.

#[local] Open Scope Z_scope.

(** ** The shape of a listpack *)

(** An entry: its encoding and its backward length *)
Definition ent_bytes (x : list Z * list Z) : list Z := x.1 ++ x.2.

Definition body (ents : list (list Z * list Z)) : list Z := concat (ent_bytes <$> ents).

(** The offset of the entry of index [i] *)
Definition eoff (ents : list (list Z * list Z)) (i : nat) : Z :=
  LP_HDR_SIZE + Z.of_nat (length (body (take i ents))).

(** The pointer to the entry of index [i], [NULL] past the end *)
Definition eptr (ents : list (list Z * list Z)) (i : nat) : option Z :=
  if decide (i < length ents)%nat then Some (eoff ents i) else None.

Definition ent_ok (x : list Z * list Z) : Prop :=
  enc_ok x.1 /\ Z.of_nat (length x.2) = lpEncodeBacklenBytes (Z.of_nat (length x.1)).

Definition total_bytes (ents : list (list Z * list Z)) : Z :=
  LP_HDR_SIZE + Z.of_nat (length (body ents)) + 1.

Record lp_valid (lp : list Z) (ents : list (list Z * list Z)) : Prop := {
  lv_bytes : Forall is_byte lp;
  lv_shape : exists hdr slack, Z.of_nat (length hdr) = LP_HDR_SIZE /\
               lp = hdr ++ body ents ++ LP_EOF :: slack;
  lv_total : lpGetTotalBytes lp = Some (total_bytes ents);
  lv_max : total_bytes ents <= UINT32_MAX;
  lv_num : exists num, lpGetNumElements lp = Some num /\
             (num = LP_HDR_NUMELE_UNKNOWN \/ num = Z.of_nat (length ents));
  lv_ents : Forall ent_ok ents;
  lv_back : forall i e b, ents !! i = Some (e, b) ->
              lpDecodeBacklen lp (eoff ents (S i) - 1) = Some (Z.of_nat (length e))
}.

Lemma body_app l1 l2 : body (l1 ++ l2) = body l1 ++ body l2.
Proof. unfold body. by rewrite fmap_app, concat_app. Qed.

Lemma body_cons x l : body (x :: l) = ent_bytes x ++ body l.
Proof. done. Qed.

Lemma eoff_0 ents : eoff ents 0 = LP_HDR_SIZE.
Proof. unfold eoff. rewrite take_0. unfold body. simpl. lia. Qed.

Lemma eoff_end ents i : (length ents <= i)%nat -> eoff ents i = total_bytes ents - 1.
Proof. intros. unfold eoff, total_bytes. rewrite take_ge by done. lia. Qed.

Lemma eoff_S ents i x :
  ents !! i = Some x -> eoff ents (S i) = eoff ents i + Z.of_nat (length x.1) + Z.of_nat (length x.2).
Proof.
  intros Hx. unfold eoff. erewrite take_S_r by done.
  rewrite body_app, body_cons, !length_app. unfold ent_bytes. rewrite length_app.
  unfold body. simpl. lia.
Qed.

Lemma eoff_app l1 l2 : eoff (l1 ++ l2) (length l1) = LP_HDR_SIZE + Z.of_nat (length (body l1)).
Proof. unfold eoff. by rewrite take_app_length. Qed.

(** The element of an entry; a valid encoding always holds one. *)
Definition elem (x : list Z * list Z) : listpackEntry := default (LpInteger 0) (decode x.1).

(** Whether [lpFind] takes an element for the string [s] *)
Definition ele_matches (s : list Z) (x : listpackEntry) : bool :=
  match x with
  | LpString t => bool_decide (s = t)
  | LpInteger v => bool_decide (lpStringToInt64 s = Some v)
  end.

(** The first of the elements that are compared, those after [k] and then
    every [skip] elements, that matches *)
Fixpoint find_index (skip k : nat) (s : list Z) (xs : list listpackEntry) : option nat :=
  match xs with
  | [] => None
  | x :: xs =>
      match k with
      | O => if ele_matches s x then Some O else S <$> find_index skip skip s xs
      | S k => S <$> find_index skip k s xs
      end
  end.

Section walk.
Context (lp : list Z) (ents : list (list Z * list Z)).
Hypothesis Hlp : lp_valid lp ents.

Lemma ent_ok_at i x : ents !! i = Some x -> ent_ok x.
Proof. intros. eapply Forall_lookup_1; [apply Hlp|done]. Qed.

(** The listpack around an entry *)
Lemma lp_at i e b :
  ents !! i = Some (e, b) ->
  exists A B, lp = A ++ e ++ b ++ B /\ Z.of_nat (length A) = eoff ents i.
Proof.
  intros Hi. destruct (lv_shape _ _ Hlp) as (hdr & slack & Hhdr & ->).
  assert (Hb : body ents = body (take i ents) ++ (e ++ b) ++ body (drop (S i) ents)).
  { by rewrite <- (take_drop_middle _ _ _ Hi) at 1; rewrite body_app, body_cons. }
  rewrite Hb. exists (hdr ++ body (take i ents)), (body (drop (S i) ents) ++ LP_EOF :: slack).
  split; [by rewrite <- !app_assoc|]. rewrite length_app. unfold eoff. lia.
Qed.

Lemma enc_length e : enc_ok e -> 1 <= Z.of_nat (length e).
Proof. intros (_ & (b & t & -> & _) & _). simpl. lia. Qed.

Lemma eoff_step i e b :
  ents !! i = Some (e, b) ->
  eoff ents (S i) = eoff ents i + (Z.of_nat (length e) + lpEncodeBacklenBytes (Z.of_nat (length e))) /\
  eoff ents i + 2 <= eoff ents (S i).
Proof.
  intros Hi. destruct (ent_ok_at _ _ Hi) as [He Hb]. rewrite (eoff_S _ _ _ Hi).
  pose proof (enc_length _ He). pose proof (lpEncodeBacklenBytes_range (Z.of_nat (length e))).
  cbn [fst snd] in *. lia.
Qed.

Lemma eoff_mono i j : (i <= j <= length ents)%nat -> eoff ents i + 2 * Z.of_nat (j - i) <= eoff ents j.
Proof.
  intros Hij. replace j with (i + (j - i))%nat at 2 by lia.
  assert (Hlen : (i + (j - i) <= length ents)%nat) by lia. revert Hlen. clear Hij.
  induction (j - i)%nat as [|d IH]; intros Hlen; [rewrite Nat.add_0_r; lia|].
  destruct (lookup_lt_is_Some_2 ents (i + d)) as [[e b] Hx]; [lia|].
  destruct (eoff_step _ _ _ Hx). specialize (IH ltac:(lia)).
  replace (i + S d)%nat with (S (i + d)) by lia. lia.
Qed.

Lemma eoff_range i : (i <= length ents)%nat ->
  LP_HDR_SIZE + 2 * Z.of_nat i <= eoff ents i /\
  eoff ents i + 2 * Z.of_nat (length ents - i) <= total_bytes ents - 1.
Proof.
  intros Hi. pose proof (eoff_mono 0 i ltac:(lia)) as H1. rewrite eoff_0 in H1.
  pose proof (eoff_mono i (length ents) ltac:(lia)) as H2. rewrite (eoff_end ents (length ents)) in H2 by lia.
  split; [|done]. replace (i - 0)%nat with i in H1 by lia. done.
Qed.

(** ** One entry *)

Lemma skip_at i e b :
  ents !! i = Some (e, b) ->
  lpCurrentEncodedSizeUnsafe lp (eoff ents i) = Some (Z.of_nat (length e)) /\
  lpSkip lp (eoff ents i) = Some (eoff ents (S i)).
Proof.
  intros Hi. destruct (ent_ok_at _ _ Hi) as [(_ & _ & Hsize) _].
  destruct (lp_at _ _ _ Hi) as (A & B & Heq & HA). cbn [fst] in Hsize.
  assert (H : lpCurrentEncodedSizeUnsafe lp (eoff ents i) = Some (Z.of_nat (length e))).
  { rewrite Heq. apply lpCurrentEncodedSizeUnsafe_frame; [done|lia]. }
  split; [done|]. unfold lpSkip. rewrite H. mstep.
  by rewrite (proj1 (eoff_step _ _ _ Hi)).
Qed.

(** The byte at the offset of an entry is its encoding byte; after the last
    entry there is the terminator. *)
Lemma rd_at_entry i e b :
  ents !! i = Some (e, b) -> exists c t, e = c :: t /\ c <> LP_EOF /\ rd lp (eoff ents i) = Some c.
Proof.
  intros Hi. destruct (ent_ok_at _ _ Hi) as [(_ & (c & t & He & Hc) & _) _].
  cbn [fst] in He. subst e.
  destruct (lp_at _ _ _ Hi) as (A & B & Heq & HA). exists c, t. split_and!; [done|done|].
  rewrite Heq. apply rd_mid. lia.
Qed.

Lemma rd_at_end : rd lp (eoff ents (length ents)) = Some LP_EOF.
Proof.
  destruct (lv_shape _ _ Hlp) as (hdr & slack & Hhdr & ->). rewrite eoff_end by lia.
  rewrite app_assoc. apply rd_mid. rewrite length_app. unfold total_bytes. lia.
Qed.

(** The bytes of the length are a part of the encoding. *)
Lemma lenbytes_ok c t :
  enc_ok (c :: t) -> 1 <= lpCurrentEncodedSizeBytes c <= Z.of_nat (length (c :: t)).
Proof.
  intros (Hbytes & (c' & t' & [= <- <-] & Hc) & Hsize).
  assert (Hb : is_byte c) by (by apply Forall_cons in Hbytes as [? _]).
  revert Hsize. unfold lpCurrentEncodedSizeUnsafe, lpCurrentEncodedSizeBytes, LP_EOF in *.
  rewrite rd_head. mstep.
  lp_cases c Hb; try (intros _; simpl; lia).
  - unfold LP_ENCODING_12BIT_STR_LEN. destruct t; [done|]. intros _. simpl. lia.
  - unfold LP_ENCODING_32BIT_STR_LEN.
    destruct t as [|? [|? [|? [|? t]]]]; [done..|]. intros _. simpl. lia.
  - intros Hs. apply (inj Some) in Hs. simpl in Hs. lia.
Qed.

Lemma validate_at i :
  (i < length ents)%nat ->
  lpValidateNext lp (Some (eoff ents i)) (total_bytes ents) = Some (true, Some (eoff ents (S i))).
Proof.
  intros Hi. destruct (lookup_lt_is_Some_2 ents i Hi) as [[e b] Hx].
  destruct (eoff_step _ _ _ Hx) as [Hstep Hge].
  destruct (eoff_range i ltac:(lia)) as [Hlo _]. destruct (eoff_range (S i) ltac:(lia)) as [_ Hhi].
  destruct (rd_at_entry _ _ _ Hx) as (c & t & -> & Hc & Hrd).
  destruct (ent_ok_at _ _ Hx) as [He Hback]. cbn [fst snd] in *.
  pose proof (lenbytes_ok _ _ He) as Hlen.
  pose proof (lpEncodeBacklenBytes_range (Z.of_nat (length (c :: t)))).
  pose proof (lv_max _ _ Hlp). unfold lpValidateNext, OUT_OF_RANGE.
  replace ((eoff ents i <? LP_HDR_SIZE) || (eoff ents i >? total_bytes ents - 1)) with false
    by (symmetry; rewrite Z.gtb_ltb; apply orb_false_iff; split; apply Z.ltb_ge; lia).
  rewrite Hrd. mstep. rewrite (proj2 (Z.eqb_neq c LP_EOF)) by done.
  rewrite (proj2 (Z.eqb_neq (lpCurrentEncodedSizeBytes c) 0)) by lia.
  replace ((_ <? LP_HDR_SIZE) || (_ >? total_bytes ents - 1)) with false
    by (symmetry; rewrite Z.gtb_ltb; apply orb_false_iff; split; apply Z.ltb_ge; lia).
  rewrite (proj1 (skip_at _ _ _ Hx)). mstep. rewrite <- Hstep.
  replace ((_ <? LP_HDR_SIZE) || (_ >? total_bytes ents - 1)) with false
    by (symmetry; rewrite Z.gtb_ltb; apply orb_false_iff; split; apply Z.ltb_ge; lia).
  rewrite (lv_back _ _ Hlp _ _ _ Hx). mstep.
  rewrite wrapU_id by (unfold inU; zpow; unfold LP_HDR_SIZE in *; lia). by rewrite Z.eqb_refl.
Qed.

Lemma validate_end :
  lpValidateNext lp (Some (eoff ents (length ents))) (total_bytes ents) = Some (true, None).
Proof.
  destruct (eoff_range (length ents) ltac:(lia)) as [Hlo Hhi].
  unfold lpValidateNext, OUT_OF_RANGE.
  replace (_ || _) with false
    by (symmetry; rewrite Z.gtb_ltb; apply orb_false_iff; split; apply Z.ltb_ge; lia).
  rewrite rd_at_end. by mstep.
Qed.

Lemma assert_at i :
  (i <= length ents)%nat -> lpAssertValidEntry lp (total_bytes ents) (eoff ents i) = Some ().
Proof.
  intros Hi. unfold lpAssertValidEntry. destruct (decide (i = length ents)) as [->|].
  - by rewrite validate_end.
  - by rewrite validate_at by lia.
Qed.

(** ** The walk *)

(** The common end of the functions that walk forward *)
Lemma land_at i :
  (i <= length ents)%nat ->
  (c ← rd lp (eoff ents i);
   if c =? LP_EOF then Some None else
   bytes ← lpBytes lp; _ ← lpAssertValidEntry lp bytes (eoff ents i); Some (Some (eoff ents i))) =
  Some (eptr ents i).
Proof.
  intros Hi. unfold eptr, lpBytes. rewrite (lv_total _ _ Hlp).
  destruct (decide (i < length ents)%nat) as [Hlt|Hge].
  - destruct (lookup_lt_is_Some_2 ents i Hlt) as [[e b] Hx].
    destruct (rd_at_entry _ _ _ Hx) as (c & t & -> & Hc & ->). mstep.
    rewrite (proj2 (Z.eqb_neq c LP_EOF)) by done. by rewrite assert_at by lia.
  - replace i with (length ents) by lia. by rewrite rd_at_end.
Qed.

Lemma first_ok : lpFirst lp = Some (eptr ents 0).
Proof. rewrite <- land_at by lia. rewrite eoff_0. done. Qed.

Lemma next_ok i : (i < length ents)%nat -> lpNext lp (eoff ents i) = Some (eptr ents (S i)).
Proof.
  intros Hi. destruct (lookup_lt_is_Some_2 ents i Hi) as [[e b] Hx].
  unfold lpNext. rewrite (proj2 (skip_at _ _ _ Hx)). mstep. by apply land_at.
Qed.

Lemma prev_ok i :
  (i <= length ents)%nat ->
  lpPrev lp (eoff ents i) = Some (match i with O => None | S j => Some (eoff ents j) end).
Proof.
  intros Hi. unfold lpPrev, lpBytes. destruct i as [|i]; [by rewrite eoff_0|].
  destruct (lookup_lt_is_Some_2 ents i ltac:(lia)) as [[e b] Hx].
  destruct (eoff_range i ltac:(lia)) as [Hlo _]. destruct (eoff_range (S i) Hi) as [Hlo' Hhi].
  destruct (eoff_step _ _ _ Hx) as [Hstep Hge]. pose proof (lv_max _ _ Hlp).
  pose proof (lpEncodeBacklenBytes_range (Z.of_nat (length e))). unfold LP_HDR_SIZE in *.
  rewrite (proj2 (Z.eqb_neq _ _)) by lia. rewrite (lv_back _ _ Hlp _ _ _ Hx).
  mstep. rewrite (wrapU_id 64 (Z.of_nat _ + _)) by (unfold inU; zpow; lia).
  rewrite wrapU_id by (unfold inU; zpow; lia). rewrite (lv_total _ _ Hlp). mstep.
  replace (eoff ents (S i) - 1 - _) with (eoff ents i) by lia. by rewrite assert_at by lia.
Qed.

Lemma last_ok : lpLast lp = Some (eptr ents (length ents - 1)).
Proof.
  unfold lpLast. rewrite (lv_total _ _ Hlp). mstep.
  rewrite <- (eoff_end ents (length ents)), prev_ok by lia. unfold eptr.
  destruct (length ents) as [|n]; [done|]. replace (S n - 1)%nat with n by lia.
  by rewrite decide_True by lia.
Qed.

(** There are fewer entries than the loops have turns. *)
Lemma fuel_ok : (length ents < lp_fuel lp)%nat.
Proof.
  destruct (lv_shape _ _ Hlp) as (hdr & slack & Hhdr & Heq).
  destruct (eoff_range (length ents) ltac:(lia)) as [H1 H2].
  unfold lp_fuel, total_bytes in *. rewrite Heq, !length_app. lia.
Qed.

(** ** Counting *)

Lemma length_loop fuel i count :
  (i <= length ents)%nat -> (length ents - i <= fuel)%nat -> 0 <= count ->
  count + Z.of_nat (length ents - i) < 2 ^ 32 ->
  lpLength_loop fuel lp (eptr ents i) count = Some (count + Z.of_nat (length ents - i)).
Proof.
  revert i count. induction fuel as [|fuel IH]; intros i count Hi Hf Hc Hmax; unfold eptr;
    destruct (decide _) as [Hlt|Hge]; cbn [lpLength_loop]; try (f_equal; lia).
  rewrite next_ok by done. mstep.
  rewrite wrapU_id by (unfold inU; lia). rewrite IH by lia. f_equal. lia.
Qed.

Lemma ents_max : 2 * Z.of_nat (length ents) < UINT32_MAX.
Proof.
  pose proof (lv_max _ _ Hlp). destruct (eoff_range (length ents) ltac:(lia)).
  unfold LP_HDR_SIZE in *. lia.
Qed.

Lemma length_value :
  exists lp', lpLength lp = Some (Z.of_nat (length ents), lp') /\
    (lp' = lp \/ lpSetNumElements lp (Z.of_nat (length ents)) = Some lp' /\
                  Z.of_nat (length ents) < LP_HDR_NUMELE_UNKNOWN).
Proof.
  destruct (lv_num _ _ Hlp) as (num & Hnum & Hcase). unfold lpLength. rewrite Hnum.
  mstep. destruct (num =? LP_HDR_NUMELE_UNKNOWN) eqn:E; zbool; cbn [negb].
  - rewrite first_ok. mstep. pose proof ents_max.
    rewrite length_loop by (try (pose proof fuel_ok; lia); zpow; lia).
    mstep. rewrite Nat.sub_0_r, Z.add_0_l. destruct (_ <? _) eqn:E2; zbool; [|eauto].
    destruct (lv_shape _ _ Hlp) as (hdr & slack & Hhdr & Heq).
    assert (H6 : 6 <= Z.of_nat (length lp)) by (rewrite Heq, length_app; unfold LP_HDR_SIZE in *; lia).
    unfold lpSetNumElements.
    destruct (wr_Some lp 4 (Z.land (Z.of_nat (length ents)) 255) ltac:(lia)) as (m & -> & Hm).
    mstep.
    destruct (wr_Some m 5 (Z.land (Z.shiftr (Z.of_nat (length ents)) 8) 255) ltac:(lia)) as (m' & -> & _).
    mstep. eauto.
  - destruct Hcase as [|Hcase]; [done|]. rewrite Hcase. eauto.
Qed.

(** ** Seeking *)

Lemma seek_forward fuel i index :
  (i <= length ents)%nat -> (length ents - i <= fuel)%nat -> 0 <= index ->
  lpSeek_forward fuel lp index (eptr ents i) = Some (eptr ents (i + Z.to_nat index)).
Proof.
  revert i index. induction fuel as [|fuel IH]; intros i index Hi Hf Hx.
  - unfold eptr. rewrite !decide_False by lia. done.
  - unfold eptr at 1. destruct (decide _) as [Hlt|Hge]; cbn [lpSeek_forward].
    + destruct (index >? 0) eqn:E; zbool.
      * rewrite next_ok by done. mstep. rewrite IH by lia.
        do 2 f_equal. lia.
      * replace index with 0 by lia. rewrite Nat.add_0_r. unfold eptr.
        by rewrite decide_True by done.
    + unfold eptr. by rewrite decide_False by lia.
Qed.

(** The entry [k] places before the last *)
Lemma seek_backward fuel i index :
  (i < length ents)%nat -> (i < fuel)%nat -> index <= -1 ->
  lpSeek_backward fuel lp index (Some (eoff ents i)) =
    Some (if Z.of_nat i + index + 1 <? 0 then None
          else Some (eoff ents (Z.to_nat (Z.of_nat i + index + 1)))).
Proof.
  revert i index. induction fuel as [|fuel IH]; intros i index Hi Hf Hx; [lia|].
  cbn [lpSeek_backward]. destruct (index <? -1) eqn:E; zbool.
  - rewrite prev_ok by lia. mstep. destruct i as [|i].
    + rewrite (proj2 (Z.ltb_lt _ _)) by lia. destruct fuel; done.
    + rewrite IH by lia. by replace (Z.of_nat i + (index + 1) + 1) with (Z.of_nat (S i) + index + 1) by lia.
  - replace index with (-1) by lia. rewrite (proj2 (Z.ltb_ge _ _)) by lia. do 3 f_equal. lia.
Qed.

(** The index of the element that an argument of [lpSeek] designates *)
Definition seek_index (index : Z) : Z :=
  if index <? 0 then Z.of_nat (length ents) + index else index.

Lemma seek_scan_forward index :
  0 <= index -> lpSeek_scan lp true index = Some (eptr ents (Z.to_nat index)).
Proof.
  intros Hx. unfold lpSeek_scan. rewrite first_ok. mstep.
  rewrite seek_forward by (pose proof fuel_ok; lia). done.
Qed.

Lemma seek_scan_backward index :
  index < 0 ->
  lpSeek_scan lp false index =
    Some (if Z.of_nat (length ents) + index <? 0 then None
          else eptr ents (Z.to_nat (Z.of_nat (length ents) + index))).
Proof.
  intros Hx. unfold lpSeek_scan. rewrite last_ok. mstep.
  unfold eptr at 1. destruct (decide _) as [Hlt|Hge].
  - rewrite seek_backward by (pose proof fuel_ok; lia).
    replace (Z.of_nat (length ents - 1) + index + 1) with (Z.of_nat (length ents) + index) by lia.
    destruct (_ <? 0) eqn:E; zbool; [done|]. unfold eptr. by rewrite decide_True by lia.
  - rewrite (proj2 (Z.ltb_lt _ _)) by lia. done.
Qed.

Lemma seek_ok index :
  inS 64 index ->
  lpSeek lp index =
    Some (if seek_index index <? 0 then None else eptr ents (Z.to_nat (seek_index index))).
Proof.
  intros Hx. unfold inS in Hx. revert Hx. zpow. intros Hx. unfold lpSeek, seek_index.
  destruct (lv_num _ _ Hlp) as (num & -> & Hcase). mstep. pose proof ents_max.
  destruct (num =? LP_HDR_NUMELE_UNKNOWN) eqn:E; zbool; cbn [negb].
  - destruct (index <? 0) eqn:E1; zbool; cbn [negb].
    + by rewrite seek_scan_backward by done.
    + rewrite seek_scan_forward by done. by rewrite (proj2 (Z.ltb_ge _ _)) by lia.
  - destruct Hcase as [|Hn]; [done|]. subst num. set (n := Z.of_nat (length ents)) in *.
    replace (if index <? 0 then s64 (n + index) else index) with (if index <? 0 then n + index else index).
    2: { destruct (index <? 0) eqn:E1; zbool; [|done].
         by rewrite wrapS_id by (try unfold inS; zpow; lia). }
    set (k := if index <? 0 then _ else _). destruct (k <? 0) eqn:E2; zbool; [done|].
    destruct (k >=? n) eqn:E3; zbool.
    { unfold eptr. by rewrite decide_False by lia. }
    destruct (k >? n / 2) eqn:E4; zbool.
    + rewrite wrapS_id by (try unfold inS; zpow; lia). rewrite seek_scan_backward by lia.
      fold n. replace (n + (k - n)) with k by lia. by rewrite (proj2 (Z.ltb_ge _ _)) by lia.
    + by apply seek_scan_forward.
Qed.

(** ** Reading *)

(** What [lpGet] says of an element, at the offset [p] *)
Definition reads_as (p : Z) (x : listpackEntry) : Prop :=
  match x with
  | LpString t => exists q, lpGet lp p None = Some (PLp q, Z.of_nat (length t)) /\
                    mload lp q (Z.of_nat (length t)) = Some t
  | LpInteger v => lpGet lp p None = Some (PNull, v)
  end.

Lemma get_at i x : ents !! i = Some x -> reads_as (eoff ents i) (elem x).
Proof.
  intros Hi. destruct (ent_ok_at _ _ Hi) as [He _]. destruct x as [e b]. cbn [fst] in He.
  destruct (lp_at _ _ _ Hi) as (A & B & Heq & HA). destruct (decode_total _ He) as (y & Hy & _).
  unfold elem. cbn [fst]. rewrite Hy. cbn [default]. revert Hy. unfold decode, reads_as, lpGet.
  destruct (lpGetWithBuf e 0 None) as [[r n]|] eqn:Hget; [|done]. mstep.
  apply (lpGetWithBuf_frame A e (b ++ B) None (eoff ents i)) in Hget; [|lia].
  rewrite <- Heq in Hget. destruct r as [|q|buf]; cbn [shift_ptr] in Hget.
  - by intros [= <-].
  - destruct (mload e q n) as [t|] eqn:Hl; [|done]. intros [= <-].
    pose proof Hl as Hl'. unfold mload in Hl'. destruct (_ && _) eqn:E; [|done]. zbool.
    injection Hl' as Ht.
    assert (Z.of_nat (length t) = n) as Hn by (rewrite <- Ht, length_take, length_drop; lia).
    exists (eoff ents i + q). rewrite Hn. split; [done|]. rewrite Heq, <- HA, mload_shift by lia.
    rewrite <- Hl. unfold mload. rewrite !length_app.
    rewrite !(proj2 (Z.leb_le _ _)) by lia. cbn [andb]. f_equal.
    rewrite drop_app_le by lia. rewrite take_app_le; [done|]. rewrite length_drop. lia.
  - by apply lpGetWithBuf_no_buf in Hget.
Qed.

(** ** Searching *)

Lemma elem_short i e b t :
  ents !! i = Some (e, b) -> elem (e, b) = LpString t -> Z.of_nat (length t) + 5 < 2 ^ 32.
Proof.
  intros Hi Ht. destruct (ent_ok_at _ _ Hi) as [He _]. cbn [fst] in He.
  destruct (decode_total _ He) as (y & Hy & Hlen). unfold elem in Ht. cbn [fst] in Ht.
  rewrite Hy in Ht. simpl in Ht. subst y. destruct (eoff_step _ _ _ Hi) as [H1 H2].
  pose proof (lookup_lt_Some _ _ _ Hi). destruct (eoff_range (S i) ltac:(lia)) as [_ H3].
  destruct (eoff_range i ltac:(lia)) as [H4 _]. pose proof (lv_max _ _ Hlp).
  pose proof (lpEncodeBacklenBytes_range (Z.of_nat (length e))). unfold LP_HDR_SIZE in *. zpow. lia.
Qed.

Lemma get_size_at i x entry_size :
  ents !! i = Some x ->
  exists r n, lpGet lp (eoff ents i) None = Some (r, n) /\
    lpGetWithSize lp (eoff ents i) None entry_size = Some (r, n, eoff ents (S i) - eoff ents i).
Proof.
  intros Hi. pose proof (get_at _ _ Hi) as Hread. destruct x as [e b].
  assert (Hget : exists r n, lpGet lp (eoff ents i) None = Some (r, n) /\
    (forall q, r = PLp q -> n + 5 < 2 ^ 32)).
  { pose proof (elem_short i e b) as Hs. unfold reads_as in Hread. destruct (elem (e, b)) as [t|v].
    - destruct Hread as (q & Hq & _). eexists _, _. split; [done|]. intros _ _. by eapply Hs.
    - eexists _, _. split; [done|]. done. }
  destruct Hget as (r & n & Hget & Hn). exists r, n. split; [done|].
  pose proof (lpGetWithSize_lpGetWithBuf lp (eoff ents i) None entry_size (lv_bytes _ _ Hlp)) as Heq.
  unfold lpGet in Hget. rewrite Hget in Heq.
  destruct (lpGetWithSize _ _ _ _) as [[[r' n'] size]|] eqn:Hsz; [|done].
  injection Heq as -> ->. destruct (rd_at_entry _ _ _ Hi) as (c & t & -> & Hc & Hrd).
  destruct (ent_ok_at _ _ Hi) as [He _]. pose proof (lenbytes_ok _ _ He).
  pose proof (lpGetWithSize_skip _ _ _ _ _ _ _ _ (lv_bytes _ _ Hlp) Hsz Hrd Hc ltac:(lia) Hn) as Hskip.
  rewrite (proj2 (skip_at _ _ _ Hi)) in Hskip. injection Hskip as ->. repeat f_equal. lia.
Qed.

(** The cache of the comparison holds the integer value of the item. *)
Definition arg_inv (s : list Z) (arg : lpFindArg) : Prop :=
  arg_s arg = s /\
  (arg_vencoding arg = 0 \/ (arg_vencoding arg = 1 /\ lpStringToInt64 s = Some (arg_vll arg)) \/
   (arg_vencoding arg = UCHAR_MAX /\ lpStringToInt64 s = None)).

Lemma string_none s :
  (Z.of_nat (length s) >=? 32) || (Z.of_nat (length s) =? 0) = true -> lpStringToInt64 s = None.
Proof.
  intros H. unfold lpStringToInt64, LONG_STR_SIZE. replace (_ || _) with true; [done|].
  symmetry. apply orb_true_iff in H as [H|H]; zbool; apply orb_true_iff.
  - right. rewrite Z.geb_leb. apply Z.leb_le. lia.
  - left. apply Z.eqb_eq. lia.
Qed.

Lemma cmp_ok s arg i x r n :
  ents !! i = Some x -> lpGet lp (eoff ents i) None = Some (r, n) -> arg_inv s arg ->
  exists c arg', lpFindCmp lp (eoff ents i) arg (match r with PLp q => Some q | _ => None end) n =
      Some (c, arg') /\ arg_inv s arg' /\ (c =? 0) = ele_matches s (elem x).
Proof.
  intros Hi Hget [Hs Hcache]. pose proof (get_at _ _ Hi) as Hread. unfold reads_as in Hread.
  unfold lpFindCmp, ele_matches. destruct (elem x) as [t|v].
  - destruct Hread as (q & Hq & Hload). rewrite Hq in Hget. injection Hget as <- <-.
    unfold arg_slen. rewrite Hs. destruct (_ =? _) eqn:E; zbool.
    + rewrite Hload. mstep. destruct (bool_decide _); eexists _, _; done.
    + exists 1, arg. split_and!; [done|done|]. symmetry. apply bool_decide_eq_false. intros ->. done.
  - rewrite Hread in Hget. injection Hget as <- <-. unfold arg_slen. rewrite Hs.
    assert (Hnew : exists arg', (if arg_vencoding arg =? 0 then
        if (Z.of_nat (length s) >=? 32) || (Z.of_nat (length s) =? 0)
        then mkFindArg s UCHAR_MAX (arg_vll arg)
        else match lpStringToInt64 s with
             | Some v => mkFindArg s 1 v
             | None => mkFindArg s UCHAR_MAX (arg_vll arg)
             end
        else arg) = arg' /\ arg_s arg' = s /\
        ((arg_vencoding arg' = 1 /\ lpStringToInt64 s = Some (arg_vll arg')) \/
         (arg_vencoding arg' = UCHAR_MAX /\ lpStringToInt64 s = None))).
    { destruct (arg_vencoding arg =? 0) eqn:E; zbool.
      - destruct (_ || _) eqn:E2; [pose proof (string_none _ E2); by eauto 10|].
        destruct (lpStringToInt64 s) as [w|] eqn:Ew; eauto 10.
      - exists arg. destruct Hcache as [|[|]]; [done|..]; eauto. }
    destruct Hnew as (arg' & -> & Hs' & Hcase). unfold UCHAR_MAX in *.
    destruct Hcase as [[He Hv]|[He Hv]]; rewrite He, Hv; cbn [negb andb Z.eqb Pos.eqb].
    + destruct (Z.eqb_spec v (arg_vll arg')) as [->|Hne]; eexists _, _; (split; [done|]).
      * split; [split; [done|right; left; done]|]. symmetry. by apply bool_decide_eq_true.
      * split; [split; [done|right; left; done]|]. symmetry. apply bool_decide_eq_false. congruence.
    + eexists _, _. split; [done|]. split; [split; [done|right; right; done]|done].
Qed.

(** The checks after each step of the loop *)
Lemma find_checks i :
  (i <= length ents)%nat ->
  (if eoff ents i + 8 >=? total_bytes ents then lpAssertValidEntry lp (total_bytes ents) (eoff ents i)
   else cassert ((eoff ents i >=? LP_HDR_SIZE) && (eoff ents i <? total_bytes ents))) = Some ().
Proof.
  intros Hi. destruct (eoff_range i Hi). destruct (_ >=? total_bytes ents); [by apply assert_at|].
  rewrite Z.geb_leb, (proj2 (Z.leb_le _ _)), (proj2 (Z.ltb_lt _ _)) by lia. done.
Qed.

Lemma find_loop s skip fuel i k entry_size arg :
  (i < length ents)%nat -> (length ents - i <= fuel)%nat -> (Z.of_nat skip < 2 ^ 31) ->
  (Z.of_nat k < 2 ^ 31) -> arg_inv s arg ->
  exists arg', lpFind_loop lpFindCmp fuel lp (total_bytes ents) (Z.of_nat skip) (eoff ents i)
      (Z.of_nat k) entry_size arg =
    Some ((fun j => eoff ents (i + j)) <$> find_index skip k s (elem <$> drop i ents), arg').
Proof.
  revert i k entry_size arg. induction fuel as [|fuel IH]; intros i k entry_size arg Hi Hf Hskip Hk Harg;
    [lia|].
  destruct (lookup_lt_is_Some_2 ents i Hi) as [x Hx].
  rewrite (drop_S ents x i Hx), fmap_cons. cbn [lpFind_loop find_index].
  assert (Hgo : forall k' es arg2, Z.of_nat k' < 2 ^ 31 -> arg_inv s arg2 -> exists arg',
    (_ ← (if eoff ents (S i) + 8 >=? total_bytes ents
          then lpAssertValidEntry lp (total_bytes ents) (eoff ents (S i))
          else cassert ((eoff ents (S i) >=? LP_HDR_SIZE) && (eoff ents (S i) <? total_bytes ents)));
     c ← rd lp (eoff ents (S i));
     if c =? LP_EOF then Some (None, arg2) else
     lpFind_loop lpFindCmp fuel lp (total_bytes ents) (Z.of_nat skip) (eoff ents (S i))
       (Z.of_nat k') es arg2) =
    Some ((fun j => eoff ents (i + j)) <$> (S <$> find_index skip k' s (elem <$> drop (S i) ents)), arg')).
  { intros k' es arg2 Hk' Harg2. rewrite find_checks by lia. mstep.
    destruct (decide (S i < length ents)%nat) as [Hlt|Hge].
    - destruct (lookup_lt_is_Some_2 ents (S i) Hlt) as [[e b] Hy].
      destruct (rd_at_entry _ _ _ Hy) as (c & t & _ & Hc & ->). mstep.
      rewrite (proj2 (Z.eqb_neq c LP_EOF)) by done.
      destruct (IH (S i) k' es arg2) as [arg' ->]; [lia|lia|done|done|done|]. exists arg'.
      rewrite <- option_fmap_compose. do 2 f_equal. apply option_fmap_ext. intros j.
      unfold compose. f_equal. lia.
    - rewrite drop_ge by lia. replace (S i) with (length ents) by lia. rewrite rd_at_end.
      by exists arg2. }
  destruct k as [|k].
  - destruct (get_size_at i x entry_size Hx) as (r & n & Hget & ->).
    change (Z.of_nat 0 =? 0) with true. mstep.
    destruct (cmp_ok s arg i x r n Hx Hget Harg) as (c & arg2 & Hcmp & Harg2 & Hc).
    set (value := match r with PLp q => Some q | _ => None end) in *.
    replace (if bool_decide (value = None) then _ else _) with (Some ()).
    2: { destruct (bool_decide _); [done|]. destruct (eoff_range i ltac:(lia)).
         destruct (eoff_range (S i) ltac:(lia)).
         rewrite Z.geb_leb, (proj2 (Z.leb_le _ _)), (proj2 (Z.ltb_lt _ _)) by lia. done. }
    mstep. rewrite Hcmp. mstep. rewrite Hc.
    destruct (ele_matches s (elem x)); mstep.
    + exists arg2. cbn [fmap option_fmap option_map]. by rewrite Nat.add_0_r.
    + replace (eoff ents i + (eoff ents (S i) - eoff ents i)) with (eoff ents (S i)) by lia.
      rewrite wrapS_id by (try unfold inS; zpow; lia). by apply Hgo.
  - rewrite (proj2 (Z.eqb_neq _ _)) by lia. destruct x as [e b].
    rewrite (proj2 (skip_at _ _ _ Hx)). mstep.
    replace (Z.of_nat (S k) - 1) with (Z.of_nat k) by lia.
    rewrite wrapS_id by (try unfold inS; zpow; lia). apply Hgo; [lia|done].
Qed.

(** The search from an entry, or from the first one *)
Lemma find_from_ok s skip i :
  (i < length ents)%nat -> Z.of_nat skip < 2 ^ 31 ->
  lpFind lp (Some (eoff ents i)) s (Z.of_nat skip) =
    Some ((fun j => eoff ents (i + j)) <$> find_index skip 0 s (elem <$> drop i ents)).
Proof.
  intros Hi Hskip. unfold lpFind, lpFindCbInternal, lpBytes. rewrite (lv_total _ _ Hlp).
  mstep. change 0 with (Z.of_nat 0) at 1.
  destruct (find_loop s skip (lp_fuel lp) i 0 123456789 (mkFindArg s 0 0)) as [arg' ->];
    [done|pose proof fuel_ok; lia|done|zpow; lia| |done].
  split; [done|by left].
Qed.

Lemma find_first_ok s skip :
  Z.of_nat skip < 2 ^ 31 ->
  lpFind lp None s (Z.of_nat skip) = Some (eoff ents <$> find_index skip 0 s (elem <$> ents)).
Proof.
  intros Hskip. destruct (decide (0 < length ents)%nat) as [Hlt|Hge].
  - transitivity (lpFind lp (Some (eoff ents 0)) s (Z.of_nat skip)).
    + unfold lpFind, lpFindCbInternal. rewrite first_ok. unfold eptr. by rewrite decide_True by done.
    + exact (find_from_ok s skip 0 Hlt Hskip).
  - unfold lpFind, lpFindCbInternal, lpBytes. rewrite (lv_total _ _ Hlp), first_ok. unfold eptr.
    rewrite decide_False by done. destruct ents; [done|simpl in *; lia].
Qed.
End walk.
