(* ===== verification/ListpackSafe.v ===== *)
(** * Listpacks: validation of untrusted bytes

    [lpValidateIntegrity] decides whether arbitrary bytes are a listpack
    ([lp_valid]), and its own accesses stay in these bytes. *)

From S2P Require Import Prelude Gf2 Numstr Listpack ListpackCodec ListpackNav.

#[local] Open Scope Z_scope.

Section safe.
Context (lp : list Z).
Hypothesis Hbytes : Forall is_byte lp.
#[local] Abbreviation size := (Z.of_nat (length lp)).

(** ** No access out of bounds *)

Lemma decode_Some q :
  4 <= q < size -> exists v, lpDecodeBacklen lp q = Some v /\ 0 <= v /\
    (v < 2 ^ 35 \/ v = UINT64_MAX) /\
    exists c, rd lp q = Some c /\ (v = UINT64_MAX \/ v mod 128 = c mod 128).
Proof.
  intros Hq. unfold lpDecodeBacklen.
  destruct (rd_Some lp q ltac:(lia)) as (b0 & -> & _). mstep.
  destruct (rd_Some lp (q - 1) ltac:(lia)) as (b1 & -> & _).
  destruct (rd_Some lp (q - 2) ltac:(lia)) as (b2 & -> & _).
  destruct (rd_Some lp (q - 3) ltac:(lia)) as (b3 & -> & _).
  destruct (rd_Some lp (q - 4) ltac:(lia)) as (b4 & -> & _). mstep.
  rewrite !land127.
  assert (Hd : forall b k v, 0 <= k -> 0 <= v < 2 ^ k ->
    0 <= Z.lor v (Z.shiftl (b mod 128) k) < 2 ^ (k + 7) /\
    Z.lor v (Z.shiftl (b mod 128) k) = v + b mod 128 * 2 ^ k).
  { intros b k v Hk Hv. pose proof (Z.mod_pos_bound b 128 ltac:(lia)).
    rewrite lor_shiftl_add by done. split; [|done]. rewrite Z.pow_add_r by lia. zpow. nia. }
  pose proof (Z.mod_pos_bound b0 128 ltac:(lia)) as H0.
  destruct (Hd b1 7 (b0 mod 128)) as [H1 E1]; [lia|zpow; lia|].
  destruct (Hd b2 14 _ ltac:(lia) H1) as [H2 E2].
  destruct (Hd b3 21 _ ltac:(lia) H2) as [H3 E3].
  destruct (Hd b4 28 _ ltac:(lia) H3) as [H4 E4].
  change (7 + 7) with 14 in *. change (14 + 7) with 21 in *. change (21 + 7) with 28 in *.
  change (28 + 7) with 35 in *.
  set (v1 := Z.lor (b0 mod 128) _) in *. set (v2 := Z.lor v1 _) in *.
  set (v3 := Z.lor v2 _) in *. set (v4 := Z.lor v3 _) in *. clearbody v1 v2 v3 v4.
  revert H1 E1 H2 E2 H3 E3 H4 E4. zpow. intros H1 E1 H2 E2 H3 E3 H4 E4.
  assert (Hm : forall k, (b0 mod 128 + k * 128) mod 128 = b0 mod 128).
  { intros k. rewrite Z_mod_plus_full. by apply Z.mod_small. }
  repeat (destruct (_ =? 0));
    (eexists; split; [done|]; split; [lia|]; split; [first [left; lia|right; done]|]; exists b0;
     split; [done|]; first [left; done|right]).
  - by rewrite Z.mod_mod.
  - rewrite <- (Hm (b1 mod 128)). f_equal. lia.
  - rewrite <- (Hm (b1 mod 128 + b2 mod 128 * 128)). f_equal. lia.
  - rewrite <- (Hm (b1 mod 128 + b2 mod 128 * 128 + b3 mod 128 * 16384)). f_equal. lia.
  - rewrite <- (Hm (b1 mod 128 + b2 mod 128 * 128 + b3 mod 128 * 16384 + b4 mod 128 * 2097152)).
    f_equal. lia.
Qed.

(** The number of bytes of an entry, when those that hold it are there *)
Lemma size_Some p c :
  0 <= p -> rd lp p = Some c -> lpCurrentEncodedSizeBytes c <> 0 ->
  p + lpCurrentEncodedSizeBytes c <= size ->
  exists sz, lpCurrentEncodedSizeUnsafe lp p = Some sz /\ 0 <= sz < 2 ^ 32 /\
    (lpCurrentEncodedSizeBytes c <= sz \/
     exists l, c = 240 /\ or_bytes lp (p + 1) 4 0 = Some l /\ l < 2 ^ 32 /\ sz = 5 + l - 2 ^ 32).
Proof.
  intros Hp Hc Hne Hle. pose proof (rd_byte _ _ _ Hbytes Hc) as Hb. revert Hne Hle.
  unfold lpCurrentEncodedSizeUnsafe, lpCurrentEncodedSizeBytes, LP_ENCODING_6BIT_STR_LEN,
    LP_ENCODING_12BIT_STR_LEN, LP_ENCODING_32BIT_STR_LEN, LP_EOF.
  rewrite Hc. mstep.
  lp_cases c Hb; intros Hne Hle; try done;
    try (eexists; split; [reflexivity|]; split; [zpow; lia|left; lia]).
  - assert (0 <= Z.land c 63 < 64).
    { change 63 with (Z.ones 6). rewrite Z.land_ones by lia. apply Z.mod_pos_bound. lia. }
    rewrite wrapU_id by (unfold inU; zpow; lia).
    eexists. split; [reflexivity|]. split; [zpow; lia|left; lia].
  - destruct (rd_Some lp (p + 1) ltac:(lia)) as (d & Hd & _). rewrite Hd. mstep.
    assert (0 <= Z.lor (Z.shiftl (Z.land c 15) 8) d < 4096).
    { apply rd_byte in Hd; [|done]. unfold is_byte in Hd. rewrite Z.lor_comm, lor_shiftl_add by lia.
      change 15 with (Z.ones 4). rewrite Z.land_ones by lia.
      pose proof (Z.mod_pos_bound c (2 ^ 4) ltac:(lia)). zpow. lia. }
    rewrite wrapU_id by (unfold inU; zpow; lia).
    eexists. split; [reflexivity|]. split; [zpow; lia|left; lia].
  - destruct (or_bytes_Some lp (p + 1) 4 0 ltac:(lia) ltac:(lia)) as [l Hl]. rewrite Hl.
    mstep. pose proof (or_bytes_range lp (p + 1) 4 0 l Hbytes ltac:(lia) Hl) as Hr.
    unfold inU in Hr. change (0 + 8 * Z.of_nat 4) with 32 in Hr. eexists. split; [reflexivity|].
    split; [apply (wrapU_range 32); lia|]. destruct (Z.lt_ge_cases (5 + l) (2 ^ 32)).
    + left. rewrite wrapU_id by (unfold inU; lia). lia.
    + right. exists l. split_and!; [done|done|lia|]. unfold wrapU.
      rewrite <- (Z.mod_add _ (-1)), Z.mod_small by (zpow; lia). lia.
Qed.

(** A length that overflows is never matched by the backward length. *)
Lemma overflow_caught p l sz v :
  6 <= p -> rd lp p = Some 240 -> or_bytes lp (p + 1) 4 0 = Some l -> l < 2 ^ 32 ->
  sz = 5 + l - 2 ^ 32 -> 0 <= sz -> p + sz < size ->
  lpDecodeBacklen lp (p + sz) = Some v -> v <> sz.
Proof.
  intros Hp Hc Hl Hmax Hsz Hpos Hin Hv ->.
  destruct (decode_Some (p + sz) ltac:(lia)) as (v' & Hv' & _ & _ & d & Hd & Hmod).
  rewrite Hv in Hv'. injection Hv' as <-. revert Hl. cbn [or_bytes].
  destruct (rd lp (p + 1)) as [b1|] eqn:H1; [|done].
  destruct (rd lp (p + 1 + 1)) as [b2|] eqn:H2; [|done].
  destruct (rd lp (p + 1 + 1 + 1)) as [b3|] eqn:H3; [|done].
  destruct (rd lp (p + 1 + 1 + 1 + 1)) as [b4|] eqn:H4; [|done]. mstep.
  pose proof (rd_byte _ _ _ Hbytes H1) as B1. pose proof (rd_byte _ _ _ Hbytes H2) as B2.
  pose proof (rd_byte _ _ _ Hbytes H3) as B3. pose proof (rd_byte _ _ _ Hbytes H4) as B4.
  pose proof (or_bytes_shiftl [b1; b2; b3; b4] 0 ltac:(repeat (apply Forall_cons; split; [assumption|]); apply Forall_nil; exact I) ltac:(lia)) as Hor.
  rewrite Z.shiftl_0_r in Hor. cbn [or_bytes length] in Hor.
  change (rd [b1; b2; b3; b4] 0) with (Some b1) in Hor.
  change (rd [b1; b2; b3; b4] (0 + 1)) with (Some b2) in Hor.
  change (rd [b1; b2; b3; b4] (0 + 1 + 1)) with (Some b3) in Hor.
  change (rd [b1; b2; b3; b4] (0 + 1 + 1 + 1)) with (Some b4) in Hor. mstep in Hor.
  rewrite Hor. intros [= <-]. cbn [le_decode] in *. unfold is_byte in *. revert Hmod Hmax. zpow.
  intros Hmod Hmax.
  assert (Hcases : sz = 0 \/ sz = 1 \/ sz = 2 \/ sz = 3 \/ sz = 4) by (zpow; lia).
  destruct Hmod as [|Hmod]; [lia|].
  destruct Hcases as [-> |[-> |[-> |[-> | ->]]]].
  - rewrite Z.add_0_r, Hc in Hd. injection Hd as <-. done.
  - rewrite H1 in Hd. injection Hd as <-. assert (b1 = 252) as -> by lia. done.
  - replace (p + 2) with (p + 1 + 1) in Hd by lia. rewrite H2 in Hd. injection Hd as <-.
    assert (b2 = 255) as -> by lia. done.
  - replace (p + 3) with (p + 1 + 1 + 1) in Hd by lia. rewrite H3 in Hd. injection Hd as <-.
    assert (b3 = 255) as -> by lia. done.
  - replace (p + 4) with (p + 1 + 1 + 1 + 1) in Hd by lia. rewrite H4 in Hd. injection Hd as <-.
    assert (b4 = 255) as -> by lia. done.
Qed.

(** The bytes of an accepted entry are a valid encoding. *)
Lemma enc_ok_slice p c sz :
  0 <= p -> rd lp p = Some c -> c <> LP_EOF -> lpCurrentEncodedSizeBytes c <> 0 ->
  lpCurrentEncodedSizeUnsafe lp p = Some sz -> lpCurrentEncodedSizeBytes c <= sz -> p + sz <= size ->
  enc_ok (take (Z.to_nat sz) (drop (Z.to_nat p) lp)).
Proof.
  intros Hp Hc Heof Hne Hsz Hle Hin. set (e := take _ _).
  pose proof (rd_byte _ _ _ Hbytes Hc) as Hb.
  assert (1 <= lpCurrentEncodedSizeBytes c).
  { revert Hne. unfold lpCurrentEncodedSizeBytes. repeat zcase; lia. }
  assert (Hlen : Z.of_nat (length e) = sz) by (unfold e; rewrite length_take, length_drop; lia).
  assert (Hrd : forall i, 0 <= i < sz -> rd e i = rd lp (p + i)).
  { intros i Hi. unfold rd, e. rewrite !(proj2 (Z.ltb_ge _ _)) by lia.
    rewrite lookup_take_lt, lookup_drop by lia. f_equal. lia. }
  assert (Hor : 5 <= sz -> or_bytes e (0 + 1) 4 0 = or_bytes lp (p + 1) 4 0).
  { intros. cbn [or_bytes]. rewrite !Hrd by lia. by rewrite !Z.add_assoc, Z.add_0_r. }
  assert (Hc0 : rd e 0 = Some c) by (rewrite Hrd, Z.add_0_r by lia; done).
  split_and!.
  - apply Forall_take, Forall_drop, Hbytes.
  - destruct e as [|c' t]; [simpl in *; lia|]. exists c', t. split; [done|].
    rewrite rd_head in Hc0. injection Hc0 as ->. done.
  - rewrite Hlen. revert Hsz Hle. unfold lpCurrentEncodedSizeUnsafe, lpCurrentEncodedSizeBytes,
      LP_ENCODING_6BIT_STR_LEN, LP_ENCODING_12BIT_STR_LEN, LP_ENCODING_32BIT_STR_LEN.
    rewrite Hc0, Hc. mstep. lp_cases c Hb; intros Hsz Hle; try done.
    + rewrite (Hrd (0 + 1)) by lia. by rewrite Z.add_0_l.
    + by rewrite Hor by lia.
Qed.

(** What [lpValidateNext] says of a pointer in the listpack *)
Lemma validate_next p c :
  LP_HDR_SIZE <= p < size -> rd lp p = Some c -> c <> LP_EOF ->
  lpValidateNext lp (Some p) size = Some (false, Some p) \/
  exists e b A B, lpValidateNext lp (Some p) size = Some (true, Some (p + Z.of_nat (length (e ++ b)))) /\
    lp = A ++ (e ++ b) ++ B /\ Z.of_nat (length A) = p /\ ent_ok (e, b) /\
    p + Z.of_nat (length (e ++ b)) < size /\
    lpDecodeBacklen lp (p + Z.of_nat (length (e ++ b)) - 1) = Some (Z.of_nat (length e)).
Proof.
  unfold LP_HDR_SIZE. intros Hp Hc Heof. unfold lpValidateNext.
  assert (Hout : forall q, 6 <= q -> OUT_OF_RANGE q size = (q >? size - 1)).
  { intros q Hq. unfold OUT_OF_RANGE, LP_HDR_SIZE. by rewrite (proj2 (Z.ltb_ge _ _)) by lia. }
  rewrite (Hout p), Z.gtb_ltb, (proj2 (Z.ltb_ge _ _)) by lia. rewrite Hc. mstep.
  rewrite (proj2 (Z.eqb_neq c LP_EOF)) by done.
  destruct (lpCurrentEncodedSizeBytes c =? 0) eqn:Hne; zbool; [by left|].
  assert (1 <= lpCurrentEncodedSizeBytes c).
  { revert Hne. unfold lpCurrentEncodedSizeBytes. repeat zcase; lia. }
  rewrite Hout by lia. destruct (_ >? _) eqn:Hin; zbool; [by left|].
  destruct (size_Some p c ltac:(lia) Hc Hne ltac:(lia)) as (sz & Hsz & Hrange & Hcase).
  rewrite Hsz. mstep. pose proof (lpEncodeBacklenBytes_range sz) as Hbl.
  set (bl := lpEncodeBacklenBytes sz) in *. rewrite Hout by lia.
  destruct (p + (sz + bl) >? size - 1) eqn:Hin2; zbool; [by left|].
  destruct (decode_Some (p + (sz + bl) - 1) ltac:(lia)) as (v & Hv & Hv0 & Hv1 & _). rewrite Hv.
  mstep. destruct (_ =? sz + bl) eqn:Hmatch; zbool; cbn [negb]; [|by left]. right.
  assert (v = sz) as ->.
  { destruct Hv1 as [Hv1| ->].
    - rewrite wrapU_id in Hmatch by (unfold inU; zpow; lia). lia.
    - exfalso. unfold wrapU in Hmatch.
      rewrite <- (Z.mod_add _ (-1)), Z.mod_small in Hmatch by (zpow; lia). zpow. lia. }
  assert (lpCurrentEncodedSizeBytes c <= sz) as Hle.
  { destruct Hcase as [|(l & -> & Hl & Hmax & Hovf)]; [done|]. exfalso.
    assert (bl = 1) as Hbl1.
    { unfold bl, lpEncodeBacklenBytes. by rewrite (proj2 (Z.leb_le _ _)) by (zpow; lia). }
    eapply (overflow_caught p l sz sz); try done; try lia.
    rewrite <- Hv. f_equal. lia. }
  pose proof (enc_ok_slice p c sz ltac:(lia) Hc Heof Hne Hsz Hle ltac:(lia)) as He.
  set (e := take (Z.to_nat sz) (drop (Z.to_nat p) lp)) in *.
  set (b := take (Z.to_nat bl) (drop (Z.to_nat (p + sz)) lp)).
  assert (Hle' : Z.of_nat (length e) = sz) by (unfold e; rewrite length_take, length_drop; lia).
  assert (Hlb : Z.of_nat (length b) = bl) by (unfold b; rewrite length_take, length_drop; lia).
  exists e, b, (take (Z.to_nat p) lp), (drop (Z.to_nat (p + sz + bl)) lp).
  rewrite length_app, Nat2Z.inj_add, Hle', Hlb. split_and!; [done| | | |lia|done].
  - unfold e, b. rewrite <- (take_drop (Z.to_nat p) lp) at 1. f_equal.
    rewrite <- (take_drop (Z.to_nat sz) (drop (Z.to_nat p) lp)) at 1. rewrite <- app_assoc. f_equal.
    rewrite drop_drop. replace (Z.to_nat p + Z.to_nat sz)%nat with (Z.to_nat (p + sz)) by lia.
    rewrite <- (take_drop (Z.to_nat bl) (drop (Z.to_nat (p + sz)) lp)) at 1. f_equal.
    rewrite drop_drop. f_equal. lia.
  - rewrite length_take. lia.
  - split; [done|]. cbn [fst snd]. by rewrite Hle', Hlb.
Qed.

(** ** The loop *)

(** The entries found so far, before the offset [p] *)
Definition prefix_ok (ents : list (list Z * list Z)) (p : Z) : Prop :=
  (exists hdr rest, Z.of_nat (length hdr) = LP_HDR_SIZE /\ lp = hdr ++ body ents ++ rest) /\
  p = LP_HDR_SIZE + Z.of_nat (length (body ents)) /\ Forall ent_ok ents /\
  (forall i e b, ents !! i = Some (e, b) ->
     lpDecodeBacklen lp (eoff ents (S i) - 1) = Some (Z.of_nat (length e))).

Lemma prefix_ok_snoc ents p e b A B :
  prefix_ok ents p -> lp = A ++ (e ++ b) ++ B -> Z.of_nat (length A) = p -> ent_ok (e, b) ->
  lpDecodeBacklen lp (p + Z.of_nat (length (e ++ b)) - 1) = Some (Z.of_nat (length e)) ->
  prefix_ok (ents ++ [(e, b)]) (p + Z.of_nat (length (e ++ b))).
Proof.
  intros ((hdr & rest & Hhdr & Heq) & Hp & Hok & Hback) HA Hlen He Hdec.
  assert (Hbody : body (ents ++ [(e, b)]) = body ents ++ e ++ b).
  { rewrite body_app, body_cons. unfold ent_bytes, body. simpl. by rewrite app_nil_r. }
  split_and!.
  - exists hdr, B. split; [done|]. rewrite Hbody, <- app_assoc, app_assoc.
    rewrite HA, (app_assoc hdr) in Heq.
    assert (HlA : length A = length (hdr ++ body ents)) by (rewrite length_app; lia).
    destruct (app_inj_1 _ _ _ _ HlA Heq) as [<- _]. done.
  - rewrite Hbody, !length_app. lia.
  - apply Forall_app. split; [done|]. by apply Forall_singleton.
  - intros i e' b' Hi. apply lookup_app_Some in Hi as [Hi|[Hge Hi]].
    + pose proof (lookup_lt_Some _ _ _ Hi). unfold eoff. rewrite take_app_le by lia. by eapply Hback.
    + apply list_lookup_singleton_Some in Hi as [Hi [= <- <-]].
      assert (i = length ents) as -> by lia. rewrite eoff_end by (rewrite length_app; simpl; lia).
      rewrite <- Hdec. f_equal. unfold total_bytes. rewrite Hbody, !length_app. lia.
Qed.

Lemma prefix_ok_count ents p : prefix_ok ents p -> 2 * Z.of_nat (length ents) <= p.
Proof.
  intros (_ & -> & Hok & _). unfold LP_HDR_SIZE.
  enough (2 * Z.of_nat (length ents) <= Z.of_nat (length (body ents))) by lia.
  induction Hok as [|[e b] ents [He Hb] Hok IH]; [simpl; lia|].
  rewrite body_cons. unfold ent_bytes. rewrite !length_app. cbn [fst snd length] in *.
  destruct He as (_ & (? & ? & -> & _) & _). pose proof (lpEncodeBacklenBytes_range (Z.of_nat (length (x :: x0)))).
  simpl length in *. lia.
Qed.

Lemma validate_loop {U} (cb : option (list Z -> Z -> Z -> U -> bool * U)) fuel ents p numele user :
  prefix_ok ents p -> p < size -> (length lp < fuel + Z.to_nat p)%nat -> size <= UINT32_MAX ->
  exists res user', lpValidate_loop cb fuel lp size numele (Some p) (Z.of_nat (length ents)) user =
      Some (res, user') /\
    forall q n, res = Some (q, n) -> exists ents' p', q = Some p' /\ n = Z.of_nat (length ents') /\
      prefix_ok ents' p' /\ rd lp p' = Some LP_EOF.
Proof.
  intros Hpre Hp Hfuel Hmax. revert ents p user Hpre Hp Hfuel.
  induction fuel as [|fuel IH]; intros ents p user Hpre Hp Hfuel; [lia|].
  assert (Hlo : LP_HDR_SIZE <= p) by (destruct Hpre as (_ & -> & _); lia).
  cbn [lpValidate_loop]. unfold LP_HDR_SIZE in Hlo.
  destruct (rd_Some lp p ltac:(lia)) as (c & Hc & _). rewrite Hc. mstep.
  destruct (c =? LP_EOF) eqn:E; zbool.
  { subst c. eexists _, _. split; [done|]. intros q n [= <- <-]. eauto 10. }
  destruct (validate_next p c) as [->|(e & b & A & B & -> & HA & Hlen & He & Hin & Hdec)]; try done.
  { cbn [mbind option_bind negb]. eexists _, _. split; [done|]. done. }
  cbn [mbind option_bind negb].
  destruct (match cb with Some cb => _ | None => _ end) as [ok user2].
  destruct ok; cbn [negb]; [|eexists _, _; split; done].
  pose proof (prefix_ok_snoc _ _ _ _ _ _ Hpre HA Hlen He Hdec) as Hpre'.
  pose proof (prefix_ok_count _ _ Hpre') as Hcount. rewrite length_app in Hcount. simpl in Hcount.
  rewrite wrapU_id by (unfold inU; zpow; lia).
  replace (Z.of_nat (length ents) + 1) with (Z.of_nat (length (ents ++ [(e, b)])))
    by (rewrite length_app; simpl; lia).
  apply IH; [done|done|].
  destruct He as [(_ & (c' & t & Ht & _) & _) _]. cbn [fst] in Ht. rewrite Ht, length_app.
  cbn [length]. lia.
Qed.

(** A listpack is accepted. *)
Lemma validate_loop_complete ents fuel i numele :
  lp_valid lp ents -> (i <= length ents)%nat -> (length ents - i < fuel)%nat ->
  lpValidate_loop (U:=unit) None fuel lp (total_bytes ents) numele (Some (eoff ents i)) (Z.of_nat i) () =
    Some (Some (Some (eoff ents (length ents)), Z.of_nat (length ents)), ()).
Proof.
  intros Hv. revert i. induction fuel as [|fuel IH]; intros i Hi Hf; [lia|].
  cbn [lpValidate_loop]. destruct (decide (i = length ents)) as [->|Hne].
  { by rewrite (rd_at_end lp ents Hv). }
  destruct (lookup_lt_is_Some_2 ents i ltac:(lia)) as [[e b] Hx].
  destruct (rd_at_entry lp ents Hv _ _ _ Hx) as (c & t & _ & Hc & ->). mstep.
  rewrite (proj2 (Z.eqb_neq c LP_EOF)) by done. rewrite (validate_at lp ents Hv) by lia.
  cbn [mbind option_bind negb]. pose proof (ents_max lp ents Hv).
  rewrite wrapU_id by (unfold inU; zpow; lia).
  replace (Z.of_nat i + 1) with (Z.of_nat (S i)) by lia. apply IH; lia.
Qed.

Lemma prefix_ok_nil : LP_HDR_SIZE < size -> prefix_ok [] LP_HDR_SIZE.
Proof.
  unfold LP_HDR_SIZE. intros Hs. split_and!; [|done|done|done].
  exists (take 6 lp), (drop 6 lp). unfold body. cbn [fmap list_fmap concat app].
  rewrite length_take, take_drop. split; [unfold LP_HDR_SIZE; lia|done].
Qed.

(** Entries up to a terminator in the last byte make a listpack. *)
Lemma prefix_ok_valid ents p num :
  prefix_ok ents p -> p = size - 1 -> rd lp p = Some LP_EOF ->
  lpGetTotalBytes lp = Some size -> size <= UINT32_MAX ->
  lpGetNumElements lp = Some num ->
  num = LP_HDR_NUMELE_UNKNOWN \/ num = Z.of_nat (length ents) ->
  lp_valid lp ents /\ total_bytes ents = size.
Proof.
  intros ((hdr & rest & Hhdr & Heq) & Hp & Hok & Hback) Hlast Heof Htot Hmax Hnum Hcount.
  assert (Ht : total_bytes ents = size) by (unfold total_bytes; lia).
  split; [|done]. split; [done| |by rewrite Ht|by rewrite Ht|eauto|done|done].
  exists hdr, (drop 1 rest). split; [done|]. rewrite Heq at 1. do 2 f_equal.
  assert (Hl : length rest = 1%nat).
  { apply (f_equal length) in Heq. rewrite !length_app in Heq. lia. }
  rewrite Heq, app_assoc, (rd_shift (hdr ++ body ents) rest 0) in Heof
    by (rewrite ?length_app; lia).
  destruct rest as [|c rest]; [done|]. rewrite rd_head in Heof. by injection Heof as ->.
Qed.

Lemma integrity_result {U} (cb : option (list Z -> Z -> Z -> U -> bool * U)) deep user :
  exists r user', lpValidateIntegrity cb lp size deep user = Some (r, user') /\
    (r = true -> deep = true -> exists ents, lp_valid lp ents /\ total_bytes ents = size).
Proof.
  unfold lpValidateIntegrity. destruct (size <? LP_HDR_SIZE + 1) eqn:E; zbool.
  { eexists _, _. split; [done|]. done. }
  unfold LP_HDR_SIZE in E. unfold lpGetTotalBytes, lpGetNumElements.
  destruct (or_bytes_Some lp 0 4 0 ltac:(lia) ltac:(lia)) as [tot Htot].
  destruct (or_bytes_Some lp 4 2 0 ltac:(lia) ltac:(lia)) as [num Hnum].
  destruct (rd_Some lp (size - 1) ltac:(lia)) as (c & Hc & _).
  pose proof (or_bytes_range lp 0 4 0 tot Hbytes ltac:(lia) Htot) as Hr.
  unfold inU in Hr. change (0 + 8 * Z.of_nat 4) with 32 in Hr.
  rewrite Htot, Hnum, Hc. mstep.
  destruct (tot =? size) eqn:E1; zbool; cbn [negb]; [subst tot|eexists _, _; split; done].
  destruct (c =? LP_EOF) eqn:E2; zbool; cbn [negb]; [subst c|eexists _, _; split; done].
  destruct deep; cbn [negb]; [|eexists _, _; split; done].
  destruct (validate_loop cb (lp_fuel lp) [] LP_HDR_SIZE num user)
    as (res & user' & Hloop & Hres);
    [apply prefix_ok_nil; unfold LP_HDR_SIZE; lia|unfold LP_HDR_SIZE; lia
    |unfold lp_fuel; lia|revert Hr; zpow; lia|].
  cbn [length] in Hloop. change (Z.of_nat 0) with 0 in Hloop. rewrite Hloop. mstep.
  destruct res as [[q n]|]; [|eexists _, _; split; done].
  destruct (Hres q n eq_refl) as (ents & p & -> & -> & Hpre & Hp).
  case_bool_decide as Hq; cbn [negb]; [|eexists _, _; split; done]. injection Hq as Hq.
  assert (Hnc : (negb (num =? LP_HDR_NUMELE_UNKNOWN) && negb (num =? Z.of_nat (length ents)) = true) \/
    (negb (num =? LP_HDR_NUMELE_UNKNOWN) && negb (num =? Z.of_nat (length ents)) = false /\
     (num = LP_HDR_NUMELE_UNKNOWN \/ num = Z.of_nat (length ents)))).
  { destruct (num =? LP_HDR_NUMELE_UNKNOWN) eqn:E3, (num =? Z.of_nat (length ents)) eqn:E4;
      zbool; cbn [negb andb]; eauto. }
  destruct Hnc as [->|[-> Hnc]]; eexists _, _; (split; [done|]); [done|]. intros _ _. exists ents.
  eapply prefix_ok_valid; try done. revert Hr. zpow. lia.
Qed.
End safe.

Lemma integrity_complete lp ents :
  lp_valid lp ents -> total_bytes ents = Z.of_nat (length lp) ->
  lpValidateIntegrity (U:=unit) None lp (Z.of_nat (length lp)) true () = Some (true, ()).
Proof.
  intros Hv Ht. unfold lpValidateIntegrity. destruct (lv_num _ _ Hv) as (num & -> & Hcase).
  pose proof (rd_at_end lp ents Hv) as Hend. rewrite eoff_end in Hend by lia.
  rewrite <- Ht, (lv_total _ _ Hv). mstep.
  rewrite (proj2 (Z.ltb_ge _ _)) by (unfold total_bytes; lia). rewrite Z.eqb_refl, Hend.
  cbn [negb mbind option_bind]. change (LP_EOF =? LP_EOF) with true. cbn [negb].
  rewrite <- (eoff_0 ents). change 0 with (Z.of_nat 0) at 1.
  rewrite (validate_loop_complete lp ents) by (done || lia || (pose proof (fuel_ok lp ents Hv); lia)).
  mstep. rewrite eoff_end by lia. rewrite bool_decide_true by done. cbn [negb].
  destruct Hcase as [-> | ->]; [done|]. rewrite Z.eqb_refl. cbn [negb]. by rewrite andb_false_r.
Qed.

(** C14: [lpValidateIntegrity] is safe and exact on untrusted bytes. Whatever
    the bytes and the callback, the deep validation of a buffer of its own
    size ends without an access out of the buffer; and it accepts the buffer
    exactly when it is a listpack, entry after entry up to a terminator in its
    last byte, every entry with an encoding that fits in it and a backward
    length that leads back to it, and the count of the header right. *)
Theorem lpValidateIntegrity_exact lp :
  Forall is_byte lp ->
  (forall U (cb : option (list Z -> Z -> Z -> U -> bool * U)) deep user,
     exists r, lpValidateIntegrity cb lp (Z.of_nat (length lp)) deep user = Some r) /\
  (lpValidateIntegrity (U:=unit) None lp (Z.of_nat (length lp)) true () = Some (true, ()) <->
   exists ents, lp_valid lp ents /\ total_bytes ents = Z.of_nat (length lp)).
Proof.
  intros Hbytes. split.
  - intros U cb deep user. destruct (integrity_result lp Hbytes cb deep user) as (r & u & -> & _). eauto.
  - split.
    + intros Hacc. destruct (integrity_result lp Hbytes (U:=unit) None true ()) as (r & u & Hr & Hval).
      rewrite Hacc in Hr. injection Hr as <- <-. by apply Hval.
    + intros (ents & Hv & Ht). by apply integrity_complete with ents.
Qed.
