(* ===== verification/ListpackOps.v ===== *)
(** * Listpacks: the operations implement lists

    [lp_repr lp encs]: the listpack [lp] holds the encodings [encs], each
    followed by its backward length. The operations that change a listpack
    act on this list as their names say, and fail, returning [NULL], exactly
    when the result would not fit in 32 bits of size. *)

From S2P Require Import Prelude Gf2 Numstr Listpack ListpackCodec ListpackNav.

#[local] Open Scope Z_scope.

(** The entry of an encoding *)
Definition canon (e : list Z) : list Z * list Z := (e, backlen (Z.of_nat (length e))).

Definition lp_repr (lp : list Z) (encs : list (list Z)) : Prop := lp_valid lp (canon <$> encs).

(** The bytes of the entries, and the size of the whole *)
Definition cbody (encs : list (list Z)) : list Z := body (canon <$> encs).
Definition ctotal (encs : list (list Z)) : Z := total_bytes (canon <$> encs).

Lemma cbody_app l1 l2 : cbody (l1 ++ l2) = cbody l1 ++ cbody l2.
Proof. unfold cbody. by rewrite fmap_app, body_app. Qed.

Lemma cbody_one e : cbody [e] = e ++ backlen (Z.of_nat (length e)).
Proof. unfold cbody, body, ent_bytes, canon. simpl. by rewrite app_nil_r. Qed.

Lemma ctotal_cbody encs : ctotal encs = 7 + Z.of_nat (length (cbody encs)).
Proof. unfold ctotal, total_bytes, LP_HDR_SIZE. fold (cbody encs). lia. Qed.

Lemma canon_ok e : enc_ok e -> ent_ok (canon e).
Proof. intros He. split; [done|]. apply lpEncodeBacklen_size. Qed.

Lemma cbody_bytes encs : Forall enc_ok encs -> Forall is_byte (cbody encs).
Proof.
  induction 1 as [|e encs He Hencs IH]; [done|]. change (e :: encs) with ([e] ++ encs).
  rewrite cbody_app, cbody_one. repeat apply Forall_app_2; [apply He|apply backlen_bytes|done].
Qed.

#[export] Hint Resolve cbody_bytes backlen_bytes : bytes.

(** The entries up to the end, with the terminator *)
Lemma tail_bytes encs : Forall enc_ok encs -> Forall is_byte (cbody encs ++ [LP_EOF]).
Proof. intros. apply Forall_app_2; [auto with bytes|by apply Forall_singleton]. Qed.

(** The layout in memory *)
Definition lp_image (num : Z) (encs : list (list Z)) (slack : list Z) : list Z :=
  le_encode 4 (ctotal encs) ++ le_encode 2 num ++ cbody encs ++ LP_EOF :: slack.

Definition num_ok (num : Z) (n : nat) : Prop :=
  num = LP_HDR_NUMELE_UNKNOWN \/ num = Z.of_nat n.

Lemma lp_repr_image lp encs :
  lp_repr lp encs ->
  exists num slack, lp = lp_image num encs slack /\ num_ok num (length encs) /\
    inU 16 num /\ Forall enc_ok encs /\ Forall is_byte slack /\ ctotal encs <= UINT32_MAX.
Proof.
  intros Hv. destruct (lv_shape _ _ Hv) as (hdr & slack & Hhdr & Heq).
  destruct (lv_num _ _ Hv) as (num & Hnum & Hok). pose proof (lv_total _ _ Hv) as Htot.
  pose proof (lv_bytes _ _ Hv) as Hb. rewrite Heq in Hb. apply Forall_app in Hb as [Hhb Hb].
  apply Forall_app in Hb as [_ Hb]. apply Forall_cons in Hb as [_ Hslack].
  unfold LP_HDR_SIZE in Hhdr. rewrite length_fmap in Hok.
  assert (L4 : length (take 4 hdr) = 4%nat) by (rewrite length_take; lia).
  assert (L2 : length (drop 4 hdr) = 2%nat) by (rewrite length_drop; lia).
  set (rest := body (canon <$> encs) ++ LP_EOF :: slack) in Heq.
  assert (Heq' : lp = take 4 hdr ++ drop 4 hdr ++ rest) by (by rewrite app_assoc, take_drop).
  assert (Ht : le_decode (take 4 hdr) = ctotal encs).
  { pose proof (or_bytes_head (take 4 hdr) (drop 4 hdr ++ rest) 4
      ltac:(auto with bytes) ltac:(done)) as Ho. rewrite <- Heq' in Ho.
    unfold lpGetTotalBytes in Htot. rewrite Htot in Ho. by injection Ho as <-. }
  assert (Hn : le_decode (drop 4 hdr) = num).
  { pose proof (or_bytes_mid (take 4 hdr) (drop 4 hdr) rest 4 2
      ltac:(auto with bytes) ltac:(by rewrite L4) ltac:(done)) as Ho. rewrite <- Heq' in Ho.
    unfold lpGetNumElements in Hnum. rewrite Hnum in Ho. by injection Ho as <-. }
  pose proof (le_encode_decode (take 4 hdr) ltac:(auto with bytes)) as E4.
  pose proof (le_encode_decode (drop 4 hdr) ltac:(auto with bytes)) as E2.
  pose proof (le_decode_range (drop 4 hdr) ltac:(auto with bytes)) as R2.
  rewrite L4, Ht in E4. rewrite L2, Hn in E2. rewrite L2, Hn in R2.
  exists num, slack. split_and!; [|done|done| |done|apply Hv].
  - unfold lp_image. by rewrite E4, E2.
  - pose proof (lv_ents _ _ Hv) as He. rewrite Forall_fmap in He.
    eapply Forall_impl; [exact He|]. by intros e [Hx _].
Qed.

Lemma image_repr num encs slack :
  num_ok num (length encs) -> inU 16 num -> Forall enc_ok encs -> Forall is_byte slack ->
  ctotal encs <= UINT32_MAX -> lp_repr (lp_image num encs slack) encs.
Proof.
  intros Hnum Hin He Hs Hmax. pose proof (ctotal_cbody encs) as Hct. unfold lp_image.
  split.
  - repeat apply Forall_app_2; try apply le_encode_bytes; [by apply cbody_bytes|].
    constructor; [done|done].
  - exists (le_encode 4 (ctotal encs) ++ le_encode 2 num), slack. split; [|by rewrite <- app_assoc].
    by rewrite length_app, !length_le_encode.
  - unfold lpGetTotalBytes. rewrite or_bytes_head; [|apply le_encode_bytes|done].
    rewrite le_decode_encode, Z.mod_small; [done|]. change (8 * Z.of_nat 4) with 32. zpow. lia.
  - done.
  - exists num. rewrite length_fmap. split; [|done]. unfold lpGetNumElements.
    rewrite or_bytes_mid; [|apply le_encode_bytes|by rewrite length_le_encode|done].
    rewrite le_decode_encode, Z.mod_small; [done|]. done.
  - apply Forall_fmap. eapply Forall_impl; [exact He|]. intros e. apply canon_ok.
  - intros i e b Hi. apply list_lookup_fmap_Some in Hi as (e' & Hcan & Hi).
    unfold canon in Hcan. injection Hcan as -> ->.
    assert (Hb : cbody encs = (cbody (take i encs) ++ e') ++ backlen (Z.of_nat (length e')) ++
                   cbody (drop (S i) encs)).
    { rewrite <- (take_drop_middle _ _ _ Hi) at 1. change (e' :: ?l) with ([e'] ++ l).
      by rewrite !cbody_app, cbody_one, <- !app_assoc. }
    pose proof (lookup_lt_Some _ _ _ Hi) as Hlt. pose proof (f_equal length Hb) as Hlen.
    rewrite !length_app in Hlen. rewrite Hb, <- !app_assoc, (app_assoc _ (le_encode 2 num)).
    rewrite (app_assoc _ (cbody _)), (app_assoc _ e').
    apply lpDecodeBacklen_backlen.
    + split; [lia|]. zpow. lia.
    + unfold eoff. rewrite <- fmap_take, (take_S_r _ _ e') by done. fold (cbody (take i encs ++ [e'])).
      rewrite cbody_app, cbody_one, !length_app, !length_le_encode. unfold LP_HDR_SIZE. lia.
Qed.

(** ** Memory *)

Lemma set_total (A B : list Z) v :
  length A = 4%nat -> lpSetTotalBytes (A ++ B) v = Some (le_encode 4 v ++ B).
Proof.
  intros HA. destruct A as [|a0 [|a1 [|a2 [|a3 [|]]]]]; try done. unfold lpSetTotalBytes. cbn [app].
  change (a0 :: ?l) with ([] ++ a0 :: l).
  do 4 (rewrite wr_next by done; mstep). cbn [app].
  rewrite byte_land, !byte_shiftr_land by lia. cbn [le_encode app]. by rewrite !Z.div_div by lia.
Qed.

Lemma set_num (A B R : list Z) v :
  length A = 4%nat -> length B = 2%nat -> lpSetNumElements (A ++ B ++ R) v = Some (A ++ le_encode 2 v ++ R).
Proof.
  intros HA HB. destruct B as [|b0 [|b1 [|]]]; try done. unfold lpSetNumElements. cbn [app].
  rewrite wr_next by (by rewrite HA). mstep.
  rewrite wr_next by (rewrite length_app, HA; done).
  rewrite byte_land, byte_shiftr_land by lia. by rewrite <- !app_assoc.
Qed.

(** Moving the tail [T] from after [mid] to [n] bytes after [P] *)
Lemma mmove_tail (P mid T S : list Z) dst src n len :
  dst = Z.of_nat (length P) + Z.of_nat n -> src = Z.of_nat (length P) + Z.of_nat (length mid) ->
  len = Z.of_nat (length T) -> (n <= length mid + length S)%nat ->
  Forall is_byte (mid ++ T ++ S) ->
  exists X S', length X = n /\ Forall is_byte X /\ Forall is_byte S' /\
    mmove (P ++ mid ++ T ++ S) dst src len = Some (P ++ X ++ T ++ S').
Proof.
  intros -> -> -> Hn Hb. set (R := mid ++ T ++ S) in *.
  exists (take n R), (drop (n + length T) R).
  assert (HR : length R = (length mid + length T + length S)%nat)
    by (unfold R; rewrite !length_app; lia).
  split_and!; [rewrite length_take; lia|auto with bytes|auto with bytes|].
  pose proof (mload_app_mid (P ++ mid) T S (Z.of_nat (length P) + Z.of_nat (length mid))
    (Z.of_nat (length T)) ltac:(rewrite length_app; lia) eq_refl) as Hload.
  rewrite <- app_assoc in Hload. fold R in Hload.
  unfold mmove. rewrite Hload. mstep.
  replace (P ++ R) with ((P ++ take n R) ++ take (length T) (drop n R) ++ drop (n + length T) R).
  - rewrite mstore_app_mid; [by rewrite <- app_assoc| |].
    + rewrite length_app, length_take. lia.
    + rewrite length_take, length_drop. lia.
  - by rewrite <- drop_drop, take_drop, <- app_assoc, take_drop.
Qed.

Lemma mrealloc_keep junk (Q S : list Z) n :
  (forall k, is_byte (junk k)) -> Forall is_byte S -> Z.of_nat (length Q) <= n ->
  exists S', mrealloc junk (Q ++ S) n = Q ++ S' /\ Forall is_byte S' /\
    Z.of_nat (length (Q ++ S')) = n.
Proof.
  intros Hj HS Hn. unfold mrealloc. rewrite take_app_ge by lia.
  exists (take (Z.to_nat n - length Q) S ++ (junk <$> seq (length (Q ++ S)) (Z.to_nat n - length (Q ++ S)))).
  split_and!; [by rewrite <- app_assoc| |].
  - apply Forall_app_2; [auto with bytes|]. apply Forall_fmap, Forall_forall. intros k _. apply Hj.
  - rewrite !length_app, length_take, length_fmap, length_seq. lia.
Qed.

(** Filling the room [X] with the entry of [e] *)
Lemma store_entry (P X R e : list Z) dst :
  dst = Z.of_nat (length P) -> length X = (length e + length (backlen (Z.of_nat (length e))))%nat ->
  exists X1 X2, X = X1 ++ X2 /\ length X1 = length e /\
    mstore (P ++ e ++ X2 ++ R) (dst + Z.of_nat (length e)) (backlen (Z.of_nat (length e))) =
      Some (P ++ cbody [e] ++ R).
Proof.
  intros -> HX. exists (take (length e) X), (drop (length e) X).
  split_and!; [by rewrite take_drop|rewrite length_take; lia|].
  rewrite app_assoc, mstore_app_mid.
  - by rewrite cbody_one, <- !app_assoc.
  - rewrite length_app. lia.
  - rewrite length_drop. lia.
Qed.

Section ops.
Context `{A : Allocator} `{!AllocatorLaws A}.

Lemma lp_realloc_keep (Q S : list Z) n :
  0 < n < 2 ^ 63 -> Z.of_nat (length Q) <= n -> Forall is_byte S ->
  exists S', lp_realloc (Q ++ S) n = Q ++ S' /\ Forall is_byte S' /\ n <= Z.of_nat (length (Q ++ S')).
Proof.
  intros Hn HQ HS. unfold lp_realloc. pose proof (usable_ge n Hn).
  destruct (mrealloc_keep junk Q S (usable n)) as (S' & -> & HS' & Hlen); [apply junk_byte|done|lia|].
  exists S'. split_and!; [done|done|lia].
Qed.

(** What is before an entry: the header and the entries *)
Definition image_head (total num : Z) (pre : list (list Z)) : list Z :=
  le_encode 4 total ++ le_encode 2 num ++ cbody pre.

Lemma image_head_length total num pre :
  Z.of_nat (length (image_head total num pre)) = 6 + Z.of_nat (length (cbody pre)).
Proof. unfold image_head. rewrite !length_app, !length_le_encode. lia. Qed.

Lemma image_split num pre mid post slack :
  lp_image num (pre ++ mid ++ post) slack =
    image_head (ctotal (pre ++ mid ++ post)) num pre ++ cbody mid ++ (cbody post ++ [LP_EOF]) ++ slack.
Proof. unfold lp_image, image_head. by rewrite !cbody_app, <- !app_assoc. Qed.

(** The steps that make room: the reallocation when the listpack grows, the
    move of the entries after the place, the reallocation when it shrinks *)
Lemma make_room P mid T slack n old new :
  Forall is_byte (mid ++ T ++ slack) ->
  old = Z.of_nat (length (P ++ mid ++ T)) -> new = old + Z.of_nat n - Z.of_nat (length mid) ->
  0 < new < 2 ^ 63 ->
  exists lp2 X S,
    mmove (if (new >? old) && (new >? lp_malloc_size (P ++ mid ++ T ++ slack))
           then lp_realloc (P ++ mid ++ T ++ slack) new else P ++ mid ++ T ++ slack)
      (Z.of_nat (length P) + Z.of_nat n) (Z.of_nat (length P) + Z.of_nat (length mid))
      (Z.of_nat (length T)) = Some lp2 /\
    (if new <? old then lp_realloc lp2 new else lp2) = P ++ X ++ T ++ S /\
    length X = n /\ Forall is_byte X /\ Forall is_byte S.
Proof.
  intros Hb Hold Hnew Hpos. rewrite !length_app in Hold.
  assert (HS : Forall is_byte slack) by (by apply Forall_app in Hb as [_ [_ ?]%Forall_app]).
  assert (Hgrow : exists S1, Forall is_byte S1 /\ (n <= length mid + length S1)%nat /\
    (if (new >? old) && (new >? lp_malloc_size (P ++ mid ++ T ++ slack))
     then lp_realloc (P ++ mid ++ T ++ slack) new else P ++ mid ++ T ++ slack) = P ++ mid ++ T ++ S1).
  { destruct (_ && _) eqn:E; zbool.
    - destruct (lp_realloc_keep (P ++ mid ++ T) slack new) as (S1 & HS1 & Hb1 & Hl1);
        [done|rewrite !length_app; lia|done|].
      exists S1. rewrite <- !app_assoc in HS1. rewrite HS1. split_and!; [done| |done].
      rewrite !length_app in Hl1. lia.
    - exists slack. split_and!; [done| |done]. apply andb_false_iff in E as [E|E];
        rewrite Z.gtb_ltb in E; apply Z.ltb_ge in E; [lia|].
      unfold lp_malloc_size in E. rewrite !length_app in E. lia. }
  destruct Hgrow as (S1 & HS1 & Hn & ->).
  assert (Hb1 : Forall is_byte (mid ++ T ++ S1)).
  { apply Forall_app in Hb as [? [? _]%Forall_app]. by repeat apply Forall_app_2. }
  destruct (mmove_tail P mid T S1 _ _ n _ eq_refl eq_refl eq_refl Hn Hb1)
    as (X & S2 & HX & HXb & HS2 & Hmv).
  destruct (new <? old) eqn:E; zbool.
  - destruct (lp_realloc_keep (P ++ X ++ T) S2 new) as (S3 & HS3 & Hb3 & _);
      [done|rewrite !length_app; lia|done|]. rewrite <- !app_assoc in HS3.
    exists (P ++ X ++ T ++ S2), X, S3. done.
  - exists (P ++ X ++ T ++ S2), X, S2. done.
Qed.

(** ** The header *)

Lemma get_num_head total num pre R :
  inU 16 num -> lpGetNumElements (image_head total num pre ++ R) = Some num.
Proof.
  intros Hn. unfold lpGetNumElements, image_head. rewrite <- !app_assoc.
  rewrite or_bytes_mid; [|apply le_encode_bytes|by rewrite length_le_encode|done].
  rewrite le_decode_encode. by rewrite Z.mod_small.
Qed.

Lemma set_num_head total num pre R v :
  lpSetNumElements (image_head total num pre ++ R) v = Some (image_head total v pre ++ R).
Proof.
  unfold image_head. rewrite <- !app_assoc. by apply set_num; rewrite length_le_encode.
Qed.

Lemma set_total_head total num pre R v :
  lpSetTotalBytes (image_head total num pre ++ R) v = Some (image_head v num pre ++ R).
Proof. unfold image_head. rewrite <- !app_assoc. apply set_total, length_le_encode. Qed.

(** The number of elements after an insertion *)
Lemma num_ok_insert num n :
  num_ok num n -> inU 16 num -> num <> LP_HDR_NUMELE_UNKNOWN ->
  num_ok (u32 (num + 1)) (S n) /\ inU 16 (u32 (num + 1)).
Proof.
  unfold num_ok, LP_HDR_NUMELE_UNKNOWN, inU. zpow. intros [?| ->] Hin Hne; [done|].
  rewrite wrapU_id by (unfold inU; zpow; lia). lia.
Qed.

(** ** Insertion *)

(** What [lpInsert] is asked to store: a string, which may be encoded as an
    integer, or an encoded integer *)
Inductive new_enc : option (list Z) -> option (list Z) -> list Z -> Prop :=
| NewString s : Forall is_byte s -> Z.of_nat (length s) < 2 ^ 32 ->
    new_enc (Some s) None (enc_of (ele_of_string s))
| NewInteger i : enc_ok i -> Z.of_nat (length i) < 2 ^ 32 -> new_enc None (Some i) i.

Lemma lpEncodeGetType_enc s :
  lpEncodeGetType s =
    (match lpStringToInt64 s with Some v => LP_ENCODING_INT (int_enc v) | None => LP_ENCODING_STRING end,
     Z.of_nat (length (enc_of (ele_of_string s)))).
Proof.
  unfold lpEncodeGetType, ele_of_string. destruct (lpStringToInt64 s) as [v|].
  - by rewrite lpEncodeIntegerGetType_int_enc.
  - cbn [enc_of]. by rewrite str_enc_length.
Qed.

Definition enc_type (elestr eleint : option (list Z)) : option lp_enctype * Z :=
  match elestr, eleint with
  | Some s, _ => let '(t, n) := lpEncodeGetType s in (Some t, n)
  | None, Some i => (Some (LP_ENCODING_INT i), Z.of_nat (length i))
  | None, None => (None, 0)
  end.

Lemma new_enc_type elestr eleint e :
  new_enc elestr eleint e -> exists t, enc_type elestr eleint = (Some t, Z.of_nat (length e)) /\
    forall P X1 R, length X1 = length e ->
      match Some t, elestr with
      | Some (LP_ENCODING_INT eleint), _ =>
          bs ← mload eleint 0 (Z.of_nat (length e)); mstore (P ++ X1 ++ R) (Z.of_nat (length P)) bs
      | _, Some s => lpEncodeString (P ++ X1 ++ R) (Z.of_nat (length P)) s
      | _, None => None
      end = Some (P ++ e ++ R).
Proof.
  intros Hnew. destruct Hnew as [s Hs Hl|i Hi Hl]; cbn [enc_type].
  - rewrite lpEncodeGetType_enc. eexists. split; [done|]. intros P X1 R HX.
    revert HX. unfold ele_of_string. destruct (lpStringToInt64 s) as [v|]; cbn [enc_of]; intros HX.
    + rewrite mload_full by done. mstep. by apply mstore_app_mid.
    + by apply lpEncodeString_store.
  - eexists. split; [done|]. intros P X1 R HX. cbn beta iota. rewrite mload_full by done.
    mstep. by apply mstore_app_mid.
Qed.

Lemma new_enc_ok elestr eleint e :
  new_enc elestr eleint e -> Z.of_nat (length e) < 2 ^ 32 -> enc_ok e.
Proof.
  intros Hnew Hlt. destruct Hnew as [s Hs Hl|i Hi Hl]; [|done]. apply enc_of_ok.
  revert Hlt. unfold ele_of_string. destruct (lpStringToInt64 s) as [v|] eqn:E; cbn [enc_of ele_ok].
  - intros _. rewrite lpStringToInt64_string2ll in E. by apply string2ll_sound in E as [??].
  - rewrite str_enc_length. intros Hlt. split; [done|]. revert Hlt Hl. zpow. repeat zcase; lia.
Qed.

Lemma new_enc_short elestr eleint e : new_enc elestr eleint e -> Z.of_nat (length e) < 2 ^ 33.
Proof.
  intros Hnew. destruct Hnew as [s Hs Hl|i Hi Hl]; [|revert Hl; zpow; lia].
  unfold ele_of_string. destruct (lpStringToInt64 s) as [v|]; cbn [enc_of].
  - unfold int_enc. repeat (destruct (_ && _)); zpow; simpl; lia.
  - rewrite str_enc_length. revert Hl. zpow. intros. repeat zcase; lia.
Qed.

Lemma eoff_pre pre rest : eoff (canon <$> pre ++ rest) (length pre) = 6 + Z.of_nat (length (cbody pre)).
Proof.
  rewrite fmap_app, <- (length_fmap canon pre) at 1. by rewrite eoff_app.
Qed.

(** The place of the operation: before the entries [post], or at an entry
    that is replaced *)
Definition place (wher : lp_where) (mid : list (list Z)) : Prop :=
  (wher = LP_BEFORE /\ mid = []) \/ (wher = LP_REPLACE /\ exists x, mid = [x]).

Lemma cbody_one_length x :
  Z.of_nat (length (cbody [x])) = Z.of_nat (length x) + lpEncodeBacklenBytes (Z.of_nat (length x)).
Proof.
  rewrite cbody_one, length_app. pose proof (proj2 (lpEncodeBacklen_size (Z.of_nat (length x)))). lia.
Qed.

Lemma replaced_ok lp pre mid post wher :
  lp_repr lp (pre ++ mid ++ post) -> place wher mid ->
  (if bool_decide (wher = LP_REPLACE) then
     l ← lpCurrentEncodedSizeUnsafe lp (6 + Z.of_nat (length (cbody pre)));
     let l := u32 (l + lpEncodeBacklenBytes l) in
     _ ← ASSERT_INTEGRITY_LEN lp (6 + Z.of_nat (length (cbody pre))) l;
     Some l
   else Some 0) = Some (Z.of_nat (length (cbody mid))).
Proof.
  intros Hlp [[-> ->]|[-> [x ->]]]; [done|]. rewrite bool_decide_true by done.
  rewrite <- (eoff_pre pre ([x] ++ post)).
  assert (Hi : (canon <$> pre ++ [x] ++ post) !! length pre = Some (canon x)).
  { rewrite list_lookup_fmap, lookup_app_r, Nat.sub_diag by lia. done. }
  rewrite (proj1 (skip_at _ _ Hlp _ _ _ Hi)). mstep. cbv zeta.
  rewrite <- cbody_one_length. pose proof (lv_max _ _ Hlp) as Hmax. change (total_bytes _) with
    (ctotal (pre ++ [x] ++ post)) in Hmax. rewrite ctotal_cbody, !cbody_app, !length_app in Hmax.
  rewrite wrapU_id by (unfold inU; zpow; lia). unfold ASSERT_INTEGRITY_LEN, LP_HDR_SIZE.
  rewrite (lv_total _ _ Hlp). mstep.
  change (total_bytes _) with (ctotal (pre ++ [x] ++ post)).
  rewrite eoff_pre, ctotal_cbody, !cbody_app, !length_app.
  rewrite Z.geb_leb, (proj2 (Z.leb_le _ _)), (proj2 (Z.ltb_lt _ _)) by lia. done.
Qed.

(** The move of the entries after the place, in its two forms *)
Lemma insert_move wher pre mid post (e : list Z) old (P T m : list Z) :
  place wher mid ->
  Z.of_nat (length P) = 6 + Z.of_nat (length (cbody pre)) ->
  Z.of_nat (length T) = Z.of_nat (length (cbody post)) + 1 ->
  7 + Z.of_nat (length (cbody pre)) + Z.of_nat (length (cbody mid)) +
    Z.of_nat (length (cbody post)) = old -> old <= UINT32_MAX ->
  (if bool_decide (wher = LP_BEFORE)
   then mmove m (6 + Z.of_nat (length (cbody pre)) + Z.of_nat (length e) +
          lpEncodeBacklenBytes (Z.of_nat (length e))) (6 + Z.of_nat (length (cbody pre)))
          (u64 (old - (6 + Z.of_nat (length (cbody pre)))))
   else mmove m (6 + Z.of_nat (length (cbody pre)) + Z.of_nat (length e) +
          lpEncodeBacklenBytes (Z.of_nat (length e)))
          (6 + Z.of_nat (length (cbody pre)) + Z.of_nat (length (cbody mid)))
          (u64 (old - (6 + Z.of_nat (length (cbody pre))) - Z.of_nat (length (cbody mid))))) =
  mmove m (Z.of_nat (length P) + Z.of_nat (length (cbody [e])))
    (Z.of_nat (length P) + Z.of_nat (length (cbody mid))) (Z.of_nat (length T)).
Proof.
  intros Hplace HP HT Hold Hmax. rewrite cbody_one_length, Z.add_assoc, HP, HT.
  destruct Hplace as [[-> ->]|[-> [x ->]]];
    [rewrite bool_decide_true by done|rewrite bool_decide_false by done];
    f_equal; [simpl; lia|..]; rewrite wrapU_id by (unfold inU; zpow; simpl in *; lia); simpl in *; lia.
Qed.

(** The update of the number of elements *)
Lemma num_step wher num pre mid post e total R :
  place wher mid -> num_ok num (length (pre ++ mid ++ post)) -> inU 16 num ->
  exists num', (if negb (bool_decide (wher = LP_REPLACE)) || false then
      num_elements ← lpGetNumElements (image_head total num pre ++ R);
      if negb (num_elements =? LP_HDR_NUMELE_UNKNOWN)
      then lpSetNumElements (image_head total num pre ++ R) (u32 (num_elements + 1))
      else Some (image_head total num pre ++ R)
    else Some (image_head total num pre ++ R)) = Some (image_head total num' pre ++ R) /\
    num_ok num' (length (pre ++ [e] ++ post)) /\ inU 16 num'.
Proof.
  intros Hplace Hnum Hin. rewrite !length_app in *.
  destruct Hplace as [[-> ->]|[-> [x ->]]];
    [rewrite bool_decide_false by done|rewrite bool_decide_true by done]; cbn [negb orb].
  - rewrite get_num_head by done. mstep.
    destruct (num =? LP_HDR_NUMELE_UNKNOWN) eqn:E; zbool; cbn [negb].
    + exists num. split_and!; [done|by left|done].
    + rewrite set_num_head. eexists. split; [done|].
      destruct (num_ok_insert _ _ Hnum Hin E) as [H1 H2]. split; [|done].
      replace (length pre + _)%nat with (S (length pre + (length ([] : list (list Z)) + length post)))
        by (simpl; lia). done.
  - exists num. split_and!; [done|done|done].
Qed.

Lemma insert_at lp pre mid post elestr eleint e wher p :
  lp_repr lp (pre ++ mid ++ post) -> new_enc elestr eleint e -> place wher mid ->
  p = 6 + Z.of_nat (length (cbody pre)) ->
  if ctotal (pre ++ [e] ++ post) >? UINT32_MAX then lpInsert lp elestr eleint p wher = Some None
  else exists lp', lpInsert lp elestr eleint p wher = Some (Some (lp', Some p)) /\
         lp_repr lp' (pre ++ [e] ++ post).
Proof.
  intros Hlp Hnew Hplace ->. pose proof (replaced_ok _ _ _ _ _ Hlp Hplace) as Hrep.
  cbv zeta in Hrep.
  destruct (new_enc_type _ _ _ Hnew) as (t & Htype & Hstore).
  pose proof (new_enc_short _ _ _ Hnew) as Hshort. zpow.
  destruct (lp_repr_image _ _ Hlp) as (num & slack & Heq & Hnum & Hin & Hencs & Hslack & Hmax).
  pose proof (lv_total _ _ Hlp) as Htot. change (total_bytes _) with (ctotal (pre ++ mid ++ post)) in Htot.
  destruct (lpEncodeBacklen_size (Z.of_nat (length e))) as [Hback Hbl].
  pose proof (lpEncodeBacklenBytes_range (Z.of_nat (length e))) as Hblr.
  assert (Hdel : bool_decide (elestr = None) && bool_decide (eleint = None) = false)
    by (by destruct Hnew).
  assert (Hpl : match wher with
    | LP_AFTER => p ← lpSkip lp (6 + Z.of_nat (length (cbody pre))); _ ← ASSERT_INTEGRITY lp p;
                  Some (p, LP_BEFORE)
    | _ => Some (6 + Z.of_nat (length (cbody pre)), wher)
    end = Some (6 + Z.of_nat (length (cbody pre)), wher)) by (destruct Hplace as [[-> _]|[-> _]]; done).
  set (old := ctotal (pre ++ mid ++ post)) in *. set (new := ctotal (pre ++ [e] ++ post)).
  assert (Hnewold : new = old + Z.of_nat (length (cbody [e])) - Z.of_nat (length (cbody mid))).
  { unfold new, old. rewrite !ctotal_cbody, !cbody_app, !length_app. lia. }
  assert (Hmidold : 7 + Z.of_nat (length (cbody pre)) + Z.of_nat (length (cbody mid)) +
    Z.of_nat (length (cbody post)) = old).
  { unfold old. rewrite ctotal_cbody, !cbody_app, !length_app. lia. }
  rewrite cbody_one_length in Hnewold. unfold lpInsert. rewrite Hdel. cbn [negb].
  unfold enc_type in Htype. rewrite Hpl, Htype, Hback, Htot. mstep. rewrite Hrep. mstep.
  rewrite (wrapU_id 64 (old + _ + _ - _)) by (unfold inU; zpow; lia).
  replace (old + _ + _ - _) with new by lia.
  destruct (new >? UINT32_MAX) eqn:Hbig; [done|]. zbool.
  set (P := image_head old num pre).
  pose proof (image_head_length old num pre) as HP. fold P in HP.
  set (T := cbody post ++ [LP_EOF]).
  assert (HT : Z.of_nat (length T) = Z.of_nat (length (cbody post)) + 1)
    by (unfold T; rewrite length_app; simpl; lia).
  rewrite image_split in Heq. fold old P T in Heq.
  rewrite (insert_move wher pre mid post e old P T) by done.
  rewrite Heq.
  destruct (make_room P (cbody mid) T slack (length (cbody [e])) old new)
    as (lp2 & X & S & Hmove & Hrealloc & HX & HXb & HSb).
  { apply Forall_app in Hencs as [_ [Hm Hpo]%Forall_app].
    repeat apply Forall_app_2; auto using cbody_bytes. by apply Forall_singleton. }
  { rewrite !length_app. lia. } { rewrite cbody_one_length. lia. } { zpow. lia. }
  rewrite Hmove. mstep. rewrite Hrealloc, <- HP.
  destruct (store_entry P X (T ++ S) e _ eq_refl) as (X1 & X2 & -> & HX1 & Hst);
    [by rewrite HX, cbody_one, length_app|].
  rewrite <- (app_assoc X1), (Hstore P X1 (X2 ++ T ++ S) HX1). mstep.
  rewrite mload_full by done. mstep. rewrite Hst. mstep. unfold P.
  destruct (num_step wher num pre mid post e old (cbody [e] ++ T ++ S) Hplace Hnum Hin)
    as (num' & -> & Hnum' & Hin'). mstep.
  rewrite set_total_head. mstep. eexists. split; [done|].
  replace (image_head new num' pre ++ cbody [e] ++ T ++ S) with (lp_image num' (pre ++ [e] ++ post) S)
    by (by rewrite image_split).
  apply Forall_app in Hencs as [Hpre [_ Hpost]%Forall_app]. apply image_repr; try done.
  repeat apply Forall_app_2; try done. apply Forall_singleton.
  eapply new_enc_ok; [done|]. zpow. rewrite cbody_one_length in *. lia.
Qed.

(** ** Deletion *)

Lemma rd_first (P : list Z) post S :
  Forall enc_ok post ->
  exists c, rd (P ++ (cbody post ++ [LP_EOF]) ++ S) (Z.of_nat (length P)) = Some c /\
    ((c =? LP_EOF) = true <-> post = []).
Proof.
  intros Hok. destruct post as [|x post].
  - exists LP_EOF. split; [by apply rd_mid|done].
  - apply Forall_cons in Hok as [(_ & (c & t & -> & Hc) & _) _]. exists c.
    change ((c :: t) :: post) with ([c :: t] ++ post). rewrite cbody_app, cbody_one.
    split; [by apply rd_mid|]. split; [intros; by zbool|done].
Qed.

(** The number of elements after the deletion of the entries [mid] *)
Lemma num_step_delete w num pre mid post total R :
  num_ok num (length (pre ++ mid ++ post)) -> inU 16 num -> 16 <= w ->
  exists num', (if negb (num =? LP_HDR_NUMELE_UNKNOWN)
    then lpSetNumElements (image_head total num pre ++ R) (wrapU w (num - Z.of_nat (length mid)))
    else Some (image_head total num pre ++ R)) = Some (image_head total num' pre ++ R) /\
    num_ok num' (length (pre ++ post)) /\ inU 16 num'.
Proof.
  intros Hnum Hin Hw. rewrite !length_app in *. unfold num_ok, inU in *.
  assert (2 ^ 16 <= 2 ^ w) by (apply Z.pow_le_mono_r; lia).
  destruct (num =? LP_HDR_NUMELE_UNKNOWN) eqn:E; zbool; cbn [negb].
  - exists num. split; [done|]. lia.
  - rewrite set_num_head. eexists. split; [done|]. rewrite wrapU_id by (unfold inU; lia). lia.
Qed.

Lemma delete_at lp pre x post p :
  lp_repr lp (pre ++ [x] ++ post) -> p = 6 + Z.of_nat (length (cbody pre)) ->
  exists lp', lpDelete lp p = Some (Some (lp', if decide (post = []) then None else Some p)) /\
    lp_repr lp' (pre ++ post).
Proof.
  intros Hlp ->. pose proof (replaced_ok lp pre [x] post LP_REPLACE Hlp) as Hrep.
  rewrite bool_decide_true in Hrep by done. cbv zeta in Hrep.
  specialize (Hrep (or_intror (conj eq_refl (ex_intro _ x eq_refl)))).
  destruct (lp_repr_image _ _ Hlp) as (num & slack & Heq & Hnum & Hin & Hencs & Hslack & Hmax).
  pose proof (lv_total _ _ Hlp) as Htot. change (total_bytes _) with (ctotal (pre ++ [x] ++ post)) in Htot.
  set (old := ctotal (pre ++ [x] ++ post)) in *. set (new := ctotal (pre ++ post)).
  assert (Hold : 7 + Z.of_nat (length (cbody pre)) + Z.of_nat (length (cbody [x])) +
    Z.of_nat (length (cbody post)) = old).
  { unfold old. rewrite ctotal_cbody, !cbody_app, !length_app. lia. }
  assert (Hnew : new = old - Z.of_nat (length (cbody [x]))).
  { unfold new. rewrite ctotal_cbody, cbody_app, length_app. lia. }
  unfold lpDelete, lpInsert.
  change (bool_decide (None = None) && bool_decide (None = None)) with true. cbn [negb].
  mstep. rewrite Htot. mstep.
  rewrite bool_decide_true by done. rewrite Hrep. mstep.
  rewrite (wrapU_id 64 (old + 0 + 0 - _)) by (unfold inU; zpow; lia).
  replace (old + 0 + 0 - _) with new by lia.
  destruct (new >? UINT32_MAX) eqn:Hbig; zbool; [lia|].
  set (P := image_head old num pre).
  pose proof (image_head_length old num pre) as HP. fold P in HP.
  set (T := cbody post ++ [LP_EOF]).
  assert (HT : Z.of_nat (length T) = Z.of_nat (length (cbody post)) + 1)
    by (unfold T; rewrite length_app; simpl; lia).
  rewrite image_split in Heq. fold old P T in Heq. rewrite Heq.
  rewrite bool_decide_false by done. rewrite wrapU_id by (unfold inU; zpow; lia).
  replace (6 + Z.of_nat (length (cbody pre)) + 0 + 0) with (Z.of_nat (length P) + Z.of_nat 0) by lia.
  replace (old - _ - _) with (Z.of_nat (length T)) by lia. rewrite <- HP.
  pose proof Hencs as Hencs'. apply Forall_app in Hencs' as [Hpre [Hx Hpost]%Forall_app].
  destruct (make_room P (cbody [x]) T slack 0 old new)
    as (lp2 & X & S & Hmove & Hrealloc & HX & _ & HSb).
  { apply Forall_app_2; [by apply cbody_bytes|]. apply Forall_app_2; [|done].
    by apply tail_bytes. }
  { rewrite !length_app. lia. } { lia. } { zpow. lia. }
  rewrite Hmove. mstep. rewrite Hrealloc.
  destruct X; [|done]. cbn [app].
  destruct (rd_first P post S Hpost) as (c & Hc & Heof). fold T in Hc. rewrite Hc. mstep.
  destruct (num_step_delete 32 num pre [x] post old (T ++ S) Hnum Hin ltac:(lia)) as (num' & Hset & Hnum' & Hin').
  cbn [negb orb]. unfold P. rewrite get_num_head by done. mstep.
  change (Z.of_nat (length [x])) with 1 in Hset. rewrite Hset. mstep.
  rewrite set_total_head. mstep. eexists. split.
  - do 4 f_equal. destruct (c =? LP_EOF), (decide (post = [])); try done; naive_solver.
  - replace (image_head new num' pre ++ T ++ S) with (lp_image num' (pre ++ post) S)
      by (apply (image_split num' pre [] post S)).
    apply image_repr; [done|done|by apply Forall_app_2|done|]. fold new. lia.
Qed.

(** ** By index *)

(** The offset of the element of index [i] *)
Definition coff (encs : list (list Z)) (i : nat) : Z := eoff (canon <$> encs) i.

Lemma coff_take encs i :
  (i <= length encs)%nat -> coff encs i = 6 + Z.of_nat (length (cbody (take i encs))).
Proof. intros Hi. unfold coff, eoff, cbody. by rewrite <- fmap_take. Qed.

Lemma coff_pre pre rest i :
  i = length pre -> coff (pre ++ rest) i = 6 + Z.of_nat (length (cbody pre)).
Proof. intros ->. apply eoff_pre. Qed.

(** The list after an insertion at the element of index [i], and the index of
    the new element *)
Definition list_insert_at (encs : list (list Z)) (i : nat) (e : list Z) (wher : lp_where)
    : list (list Z) :=
  match wher with
  | LP_BEFORE => take i encs ++ [e] ++ drop i encs
  | LP_AFTER => take (S i) encs ++ [e] ++ drop (S i) encs
  | LP_REPLACE => <[i := e]> encs
  end.

Definition insert_pos (i : nat) (wher : lp_where) : nat :=
  match wher with LP_AFTER => S i | _ => i end.

(** An element can be put before the terminator, but not after it. *)
Definition insert_range (encs : list (list Z)) (i : nat) (wher : lp_where) : Prop :=
  match wher with LP_BEFORE => (i <= length encs)%nat | _ => (i < length encs)%nat end.

(** Inserting after an element is inserting before the next one. *)
Lemma insert_after lp elestr eleint e p q :
  new_enc elestr eleint e -> lpSkip lp p = Some q -> ASSERT_INTEGRITY lp q = Some () ->
  lpInsert lp elestr eleint p LP_AFTER = lpInsert lp elestr eleint q LP_BEFORE.
Proof.
  intros Hnew Hskip Hassert. unfold lpInsert.
  assert (bool_decide (elestr = None) && bool_decide (eleint = None) = false) as -> by (by destruct Hnew).
  rewrite Hskip. mstep. by rewrite Hassert.
Qed.

(** The step to the next element, which may be the terminator *)
Lemma skip_assert lp encs i :
  lp_repr lp encs -> (i < length encs)%nat ->
  lpSkip lp (coff encs i) = Some (coff encs (S i)) /\ ASSERT_INTEGRITY lp (coff encs (S i)) = Some ().
Proof.
  intros Hlp Hi. destruct (lookup_lt_is_Some_2 encs i Hi) as [x Hx].
  assert (Hc : (canon <$> encs) !! i = Some (canon x)) by (by rewrite list_lookup_fmap, Hx).
  split; [apply (skip_at _ _ Hlp _ _ _ Hc)|].
  unfold ASSERT_INTEGRITY. rewrite (lv_total _ _ Hlp). mstep.
  destruct (eoff_range _ _ Hlp (S i)) as [H1 H2]; [rewrite length_fmap; lia|]. unfold coff.
  rewrite Z.geb_leb, (proj2 (Z.leb_le _ _)), (proj2 (Z.ltb_lt _ _)) by lia. done.
Qed.

Lemma insert_index lp encs elestr eleint e i wher :
  lp_repr lp encs -> new_enc elestr eleint e -> insert_range encs i wher ->
  if ctotal (list_insert_at encs i e wher) >? UINT32_MAX
  then lpInsert lp elestr eleint (coff encs i) wher = Some None
  else exists lp', lpInsert lp elestr eleint (coff encs i) wher =
           Some (Some (lp', Some (coff (list_insert_at encs i e wher) (insert_pos i wher)))) /\
         lp_repr lp' (list_insert_at encs i e wher).
Proof.
  intros Hlp Hnew Hi.
  assert (Hbefore : forall j, (j <= length encs)%nat ->
    if ctotal (take j encs ++ [e] ++ drop j encs) >? UINT32_MAX
    then lpInsert lp elestr eleint (coff encs j) LP_BEFORE = Some None
    else exists lp', lpInsert lp elestr eleint (coff encs j) LP_BEFORE =
             Some (Some (lp', Some (coff (take j encs ++ [e] ++ drop j encs) j))) /\
           lp_repr lp' (take j encs ++ [e] ++ drop j encs)).
  { intros j Hj. rewrite (coff_pre (take j encs)) by (rewrite length_take; lia).
    rewrite coff_take by done. apply (insert_at lp (take j encs) [] (drop j encs)); try done.
    - cbn [app]. by rewrite take_drop.
    - by left. }
  destruct wher; cbn [list_insert_at insert_pos insert_range] in *.
  - by apply Hbefore.
  - destruct (skip_assert lp encs i Hlp Hi) as [Hskip Hassert].
    rewrite (insert_after _ _ _ e _ (coff encs (S i))) by done. apply Hbefore. lia.
  - destruct (lookup_lt_is_Some_2 encs i Hi) as [x Hx].
    rewrite insert_take_drop by done.
    change (e :: drop (S i) encs) with ([e] ++ drop (S i) encs).
    rewrite (coff_pre (take i encs)) by (rewrite length_take; lia).
    rewrite coff_take by lia. apply (insert_at lp (take i encs) [x] (drop (S i) encs)); try done.
    + cbn [app]. by rewrite take_drop_middle.
    + right. eauto.
Qed.

Lemma list_insert_at_lookup encs i e wher :
  insert_range encs i wher -> list_insert_at encs i e wher !! insert_pos i wher = Some e.
Proof.
  intros Hi. destruct wher; cbn [list_insert_at insert_pos insert_range] in *.
  - rewrite lookup_app_r, length_take by (rewrite length_take; lia).
    by replace (i - i `min` length encs)%nat with 0%nat by lia.
  - rewrite lookup_app_r, length_take by (rewrite length_take; lia).
    by replace (S i - S i `min` length encs)%nat with 0%nat by lia.
  - by apply list_lookup_insert_eq.
Qed.

(** The memory around an element *)
Lemma repr_at lp encs i e :
  lp_repr lp encs -> encs !! i = Some e ->
  exists P R, lp = P ++ e ++ R /\ Z.of_nat (length P) = coff encs i.
Proof.
  intros Hlp Hi. assert (Hc : (canon <$> encs) !! i = Some (canon e)) by (by rewrite list_lookup_fmap, Hi).
  destruct (lp_at _ _ Hlp _ _ _ Hc) as (P & R & -> & HP). eauto.
Qed.

(** In a listpack, a string leaves room for its own header. *)
Lemma element_fits lp encs i s :
  lp_repr lp encs -> encs !! i = Some (enc_of (ele_of_string s)) -> Z.of_nat (length s) + 5 < 2 ^ 32.
Proof.
  intros Hlp Hi. pose proof (lv_max _ _ Hlp) as Hmax. change (total_bytes _) with (ctotal encs) in Hmax.
  rewrite <- (take_drop_middle _ _ _ Hi) in Hmax.
  change (enc_of (ele_of_string s) :: ?l) with ([enc_of (ele_of_string s)] ++ l) in Hmax.
  rewrite ctotal_cbody, !cbody_app, !length_app in Hmax. rewrite cbody_one, length_app in Hmax.
  enough (Z.of_nat (length s) <= 20 \/ (length s < length (enc_of (ele_of_string s)))%nat) by (zpow; lia).
  unfold ele_of_string. destruct (lpStringToInt64 s) as [v|] eqn:E; cbn [enc_of].
  - revert E. unfold lpStringToInt64, LONG_STR_SIZE. destruct (_ || _) eqn:El; [done|]. zbool. lia.
  - right. rewrite str_enc_hdr, length_app. unfold str_hdr. repeat zcase; cbn [length]; lia.
Qed.

Lemma int_enc_short v : Z.of_nat (length (int_enc v)) < 2 ^ 32.
Proof. unfold int_enc. zpow. repeat (destruct (_ && _)); simpl; lia. Qed.

(** ** The contract *)

(** C15: [lpInsertString] implements the insertion in a list, before, after or
    in place of the element of index [i]: [NULL] exactly when the listpack
    would not fit in 32 bits, otherwise a listpack that holds the new element
    at the place of [*newp] and all the others in their order. The element is
    the integer that the string represents, or the string, and [lpGet] with a
    buffer gives the string back in both cases. *)
Theorem lpInsertString_refines lp encs s i wher intbuf :
  lp_repr lp encs -> Forall is_byte s -> Z.of_nat (length s) < 2 ^ 32 -> insert_range encs i wher ->
  length intbuf = Z.to_nat LP_INTBUF_SIZE ->
  let encs' := list_insert_at encs i (enc_of (ele_of_string s)) wher in
  let newp := coff encs' (insert_pos i wher) in
  if ctotal encs' >? UINT32_MAX then lpInsertString lp s (coff encs i) wher = Some None
  else exists lp', lpInsertString lp s (coff encs i) wher = Some (Some (lp', Some newp)) /\
         lp_repr lp' encs' /\
         exists r, lpGet lp' newp (Some intbuf) = Some (r, Z.of_nat (length s)) /\
           ptr_bytes lp' r (Z.of_nat (length s)) = Some s.
Proof.
  intros Hlp Hs Hl Hi Hbuf encs' newp.
  pose proof (insert_index lp encs _ _ _ i wher Hlp (NewString s Hs Hl) Hi) as Hins. fold encs' newp in Hins.
  destruct (_ >? _) eqn:E; [done|]. zbool. destruct Hins as (lp' & Hrun & Hlp').
  exists lp'. split_and!; [done|done|].
  pose proof (list_insert_at_lookup encs i (enc_of (ele_of_string s)) wher Hi) as Hat. fold encs' in Hat.
  destruct (repr_at _ _ _ _ Hlp' Hat) as (P & R & -> & HP). apply lpGet_string; [done| |done|done].
  by eapply element_fits.
Qed.

(** [lpInsertInteger] does the same for an integer, stored in the shortest
    of its encodings, and [lpGet] gives the integer back. *)
Theorem lpInsertInteger_refines lp encs v i wher :
  lp_repr lp encs -> inS 64 v -> insert_range encs i wher ->
  let encs' := list_insert_at encs i (int_enc v) wher in
  let newp := coff encs' (insert_pos i wher) in
  if ctotal encs' >? UINT32_MAX then lpInsertInteger lp v (coff encs i) wher = Some None
  else exists lp', lpInsertInteger lp v (coff encs i) wher = Some (Some (lp', Some newp)) /\
         lp_repr lp' encs' /\ lpGet lp' newp None = Some (PNull, v).
Proof.
  intros Hlp Hv Hi encs' newp. unfold lpInsertInteger. rewrite lpEncodeIntegerGetType_int_enc.
  rewrite mload_full by done. mstep.
  pose proof (insert_index lp encs _ _ _ i wher Hlp
    (NewInteger (int_enc v) (enc_of_ok (LpInteger v) Hv) (int_enc_short v)) Hi) as Hins.
  fold encs' newp in Hins. destruct (_ >? _) eqn:E; [done|]. zbool. destruct Hins as (lp' & Hrun & Hlp').
  exists lp'. split_and!; [done|done|].
  pose proof (list_insert_at_lookup encs i (int_enc v) wher Hi) as Hat. fold encs' in Hat.
  destruct (repr_at _ _ _ _ Hlp' Hat) as (P & R & -> & HP).
  apply (lpGetWithBuf_frame P (int_enc v) R None newp PNull v); [by rewrite lpGetWithBuf_int|done].
Qed.

(** [lpDelete] removes the element of index [i], keeps the others, and
    sets [*newp] to the next element, or to [NULL] after the last one. *)
Theorem lpDelete_refines lp encs i :
  lp_repr lp encs -> (i < length encs)%nat ->
  exists lp', lpDelete lp (coff encs i) = Some (Some (lp', eptr (canon <$> delete i encs) i)) /\
    lp_repr lp' (delete i encs).
Proof.
  intros Hlp Hi. destruct (lookup_lt_is_Some_2 encs i Hi) as [x Hx].
  assert (Heq : encs = take i encs ++ [x] ++ drop (S i) encs) by (symmetry; by apply take_drop_middle).
  rewrite delete_take_drop.
  destruct (delete_at lp (take i encs) x (drop (S i) encs) (coff encs i)) as (lp' & Hrun & Hlp').
  { by rewrite <- Heq. } { by rewrite coff_take by lia. }
  exists lp'. split; [|done]. rewrite Hrun. do 4 f_equal. unfold eptr.
  rewrite length_fmap, length_app, length_take, length_drop.
  change (eoff (canon <$> ?l) i) with (coff l i).
  rewrite (coff_pre (take i encs)) by (rewrite length_take; lia). rewrite coff_take by lia.
  destruct (decide (drop (S i) encs = [])) as [Hd|Hd], (decide (i < _)%nat) as [Hlt|Hlt]; try done; exfalso.
  - apply (f_equal length) in Hd. rewrite length_drop in Hd. simpl in Hd. lia.
  - apply Hd. apply drop_ge. lia.
Qed.
End ops.
