(* ===== verification/ListpackBulk.v ===== *)
(** * Listpacks: the operations on many elements

    Deletion of ranges and of batches, insertion of batches, the merge of two
    listpacks: each does in one pass what the operations on one element would
    do one by one. *)

From S2P Require Import Prelude Gf2 Numstr Listpack ListpackCodec ListpackNav ListpackOps.

#[local] Open Scope Z_scope.

Section bulk.
Context `{A : Allocator} `{!AllocatorLaws A}.

Lemma image_length num encs slack :
  Z.of_nat (length (lp_image num encs slack)) = ctotal encs + Z.of_nat (length slack).
Proof.
  unfold lp_image. rewrite !length_app, !length_le_encode, ctotal_cbody. cbn [length]. lia.
Qed.

(** A listpack of another size, in an allocation that fits *)
Lemma shrink_image num encs slack :
  num_ok num (length encs) -> inU 16 num -> Forall enc_ok encs -> Forall is_byte slack ->
  ctotal encs <= UINT32_MAX ->
  exists slack', lpShrinkToFit (lp_image num encs slack) = Some (lp_image num encs slack') /\
    Forall is_byte slack'.
Proof.
  intros Hnum Hin Hencs Hslack Hmax.
  pose proof (image_repr num encs slack Hnum Hin Hencs Hslack Hmax) as Hrepr.
  unfold lpShrinkToFit. rewrite (lv_total _ _ Hrepr). mstep.
  change (total_bytes _) with (ctotal encs). destruct (_ <? _) eqn:E; [|eauto].
  pose proof (ctotal_cbody encs) as Hc.
  assert (Heq : forall s, lp_image num encs s = lp_image num encs [] ++ s).
  { intros s. unfold lp_image. by rewrite <- !app_assoc. }
  destruct (lp_realloc_keep (lp_image num encs []) slack (ctotal encs)) as (S' & HS & Hb & _).
  { zpow. lia. } { rewrite image_length. simpl. lia. } { done. }
  exists S'. split; [|done]. by rewrite (Heq slack), HS, <- Heq.
Qed.

(** What [lpLength] leaves is the same list. *)
Lemma length_repr lp encs :
  lp_repr lp encs ->
  exists lp', lpLength lp = Some (Z.of_nat (length encs), lp') /\ lp_repr lp' encs.
Proof.
  intros Hlp. destruct (length_value _ _ Hlp) as (lp' & Hlen & Hcase). rewrite length_fmap in *.
  exists lp'. split; [done|]. destruct Hcase as [->|[Hset Hlt]]; [done|].
  destruct (lp_repr_image _ _ Hlp) as (num & slack & -> & Hnum & Hin & Hencs & Hslack & Hmax).
  unfold lp_image in Hset. rewrite set_num in Hset by (by rewrite length_le_encode).
  injection Hset as <-. apply image_repr; try done; [by right|].
  unfold inU, LP_HDR_NUMELE_UNKNOWN in *. zpow. lia.
Qed.

(** ** Deleting a range *)

Lemma delete_loop lp encs fuel i num deleted :
  lp_repr lp encs -> (i < length encs)%nat -> (length encs - i <= fuel)%nat -> 0 < num ->
  0 <= deleted -> deleted + Z.of_nat (length encs - i) < 2 ^ 64 ->
  lpDeleteRange_loop fuel lp (ctotal encs) num deleted (coff encs i) =
    Some (deleted + Z.min num (Z.of_nat (length encs - i)),
          coff encs (i + Z.to_nat (Z.min num (Z.of_nat (length encs - i))))).
Proof.
  intros Hlp. revert i num deleted. induction fuel as [|fuel IH]; intros i num deleted Hi Hf Hn Hd Hmax; [lia|].
  cbn [lpDeleteRange_loop]. rewrite (proj2 (Z.eqb_neq _ _)) by lia.
  destruct (lookup_lt_is_Some_2 encs i Hi) as [x Hx].
  assert (Hc : (canon <$> encs) !! i = Some (canon x)) by (by rewrite list_lookup_fmap, Hx).
  unfold coff at 1. rewrite (proj2 (skip_at _ _ Hlp _ _ _ Hc)). mstep.
  rewrite (wrapU_id 64) by (unfold inU; lia). destruct (decide (S i < length encs)%nat) as [Hlt|Hge].
  - destruct (lookup_lt_is_Some_2 encs (S i) Hlt) as [y Hy].
    assert (Hcy : (canon <$> encs) !! S i = Some (canon y)) by (by rewrite list_lookup_fmap, Hy).
    destruct (rd_at_entry _ _ Hlp _ _ _ Hcy) as (c & t & _ & Hne & ->). mstep.
    rewrite (proj2 (Z.eqb_neq _ _)) by done.
    change (ctotal encs) with (total_bytes (canon <$> encs)).
    rewrite (assert_at _ _ Hlp) by (rewrite length_fmap; lia). mstep.
    change (total_bytes (canon <$> encs)) with (ctotal encs). change (eoff _ (S i)) with (coff encs (S i)).
    destruct (decide (num = 1)) as [->|].
    + destruct fuel; [lia|]. cbn [lpDeleteRange_loop]. change (1 - 1 =? 0) with true. cbv iota.
      f_equal. f_equal; [lia|]. f_equal. lia.
    + rewrite IH by lia. f_equal. f_equal; [lia|]. f_equal. lia.
  - pose proof (rd_at_end _ _ Hlp) as Hend. rewrite length_fmap in Hend.
    replace (S i) with (length encs) by lia. rewrite Hend. mstep.
    change (LP_EOF =? LP_EOF) with true. cbv iota.
    f_equal. f_equal; [lia|]. unfold coff. f_equal. lia.
Qed.

(** The memory steps that remove the entries [mid] *)
Lemma remove_image num pre mid post slack :
  num_ok num (length (pre ++ mid ++ post)) -> inU 16 num -> Forall enc_ok (pre ++ mid ++ post) ->
  Forall is_byte slack -> ctotal (pre ++ mid ++ post) <= UINT32_MAX ->
  let old := ctotal (pre ++ mid ++ post) in
  let p := 6 + Z.of_nat (length (cbody pre)) in
  exists num' slack',
    (lp ← mmove (lp_image num (pre ++ mid ++ post) slack) p (p + Z.of_nat (length (cbody mid)))
            (old - 1 - (p + Z.of_nat (length (cbody mid))) + 1);
     lp ← lpSetTotalBytes lp (u64 (old - Z.of_nat (length (cbody mid))));
     numele ← lpGetNumElements lp;
     lp ← (if negb (numele =? LP_HDR_NUMELE_UNKNOWN)
           then lpSetNumElements lp (u64 (numele - Z.of_nat (length mid))) else Some lp);
     lpShrinkToFit lp) = Some (lp_image num' (pre ++ post) slack') /\
    num_ok num' (length (pre ++ post)) /\ inU 16 num' /\ Forall is_byte slack'.
Proof.
  intros Hnum Hin Hencs Hslack Hmax old p. rewrite image_split. fold old.
  pose proof Hencs as Hencs'. apply Forall_app in Hencs' as [Hpre [Hmid Hpost]%Forall_app].
  set (P := image_head old num pre). pose proof (image_head_length old num pre) as HP. fold P in HP.
  set (T := cbody post ++ [LP_EOF]).
  assert (HT : Z.of_nat (length T) = Z.of_nat (length (cbody post)) + 1)
    by (unfold T; rewrite length_app; simpl; lia).
  assert (Hold : 7 + Z.of_nat (length (cbody pre)) + Z.of_nat (length (cbody mid)) +
    Z.of_nat (length (cbody post)) = old).
  { unfold old. rewrite ctotal_cbody, !cbody_app, !length_app. lia. }
  assert (Hnew : ctotal (pre ++ post) = old - Z.of_nat (length (cbody mid))).
  { rewrite ctotal_cbody, cbody_app, length_app. lia. }
  destruct (mmove_tail P (cbody mid) T slack p (p + Z.of_nat (length (cbody mid))) 0
    (old - 1 - (p + Z.of_nat (length (cbody mid))) + 1)) as (X & S & HX & _ & HS & Hmv); try lia.
  { apply Forall_app_2; [by apply cbody_bytes|]. apply Forall_app_2; [|done].
    by apply tail_bytes. }
  rewrite Hmv. mstep. destruct X; [|done]. cbn [app]. unfold P at 1.
  rewrite set_total_head. mstep. rewrite get_num_head by done. mstep.
  rewrite (wrapU_id 64 (old - _)) by (unfold inU; zpow; lia). rewrite <- Hnew.
  destruct (num_step_delete 64 num pre mid post (ctotal (pre ++ post)) (T ++ S) Hnum Hin ltac:(lia))
    as (num' & -> & Hnum' & Hin'). mstep.
  replace (image_head (ctotal (pre ++ post)) num' pre ++ T ++ S) with (lp_image num' (pre ++ post) S)
    by (apply (image_split num' pre [] post S)).
  destruct (shrink_image num' (pre ++ post) S) as (slack' & -> & Hs'); try done.
  { by apply Forall_app_2. } { lia. }
  by exists num', slack'.
Qed.

(** The pointer to the element at the place of the operation *)
Lemma rd_eptr lp encs i :
  lp_repr lp encs -> (i <= length encs)%nat ->
  exists c, rd lp (coff encs i) = Some c /\
    (if c =? LP_EOF then None else Some (coff encs i)) = eptr (canon <$> encs) i.
Proof.
  intros Hlp Hi. unfold eptr. rewrite length_fmap. destruct (decide (i < length encs)%nat) as [Hlt|Hge].
  - destruct (lookup_lt_is_Some_2 encs i Hlt) as [x Hx].
    assert (Hc : (canon <$> encs) !! i = Some (canon x)) by (by rewrite list_lookup_fmap, Hx).
    destruct (rd_at_entry _ _ Hlp _ _ _ Hc) as (c & t & _ & Hne & Hrd). exists c.
    split; [done|]. by rewrite (proj2 (Z.eqb_neq _ _)) by done.
  - pose proof (rd_at_end _ _ Hlp) as Hend. rewrite length_fmap in Hend.
    replace i with (length encs) by lia. by exists LP_EOF.
Qed.

Lemma coff_mid encs i j :
  (i <= j <= length encs)%nat ->
  coff encs j = coff encs i + Z.of_nat (length (cbody (take (j - i) (drop i encs)))).
Proof.
  intros Hij. rewrite !coff_take by lia.
  replace (take j encs) with (take i encs ++ take (j - i) (drop i encs)).
  - rewrite cbody_app, length_app. lia.
  - rewrite take_take_drop. f_equal. lia.
Qed.

Lemma delete_range_entry lp encs i num :
  lp_repr lp encs -> (i < length encs)%nat -> 0 <= num < 2 ^ 64 ->
  let encs' := take i encs ++ drop (i + Z.to_nat num) encs in
  exists lp', lpDeleteRangeWithEntry lp (coff encs i) num = Some (lp', eptr (canon <$> encs') i) /\
    lp_repr lp' encs'.
Proof.
  intros Hlp Hi Hn encs'. unfold lpDeleteRangeWithEntry, lpBytes. rewrite (lv_total _ _ Hlp).
  mstep. change (total_bytes _) with (ctotal encs).
  destruct (num =? 0) eqn:E; zbool.
  { subst num. unfold encs'. rewrite Nat.add_0_r, take_drop. exists lp. split; [|done].
    unfold eptr. by rewrite length_fmap, decide_True by done. }
  pose proof (ents_max _ _ Hlp) as Hem. pose proof (fuel_ok _ _ Hlp) as Hfu. rewrite length_fmap in *.
  rewrite (delete_loop lp encs) by (done || lia || (zpow; lia)).
  set (k := Z.min num (Z.of_nat (length encs - i))). mstep.
  set (mid := take (Z.to_nat k) (drop i encs)).
  assert (Hmidl : Z.of_nat (length mid) = k) by (unfold mid; rewrite length_take, length_drop; lia).
  assert (Hoff : coff encs (i + Z.to_nat k) = coff encs i + Z.of_nat (length (cbody mid))).
  { rewrite (coff_mid encs i) by lia. by replace (i + Z.to_nat k - i)%nat with (Z.to_nat k) by lia. }
  assert (Hsplit : encs = take i encs ++ mid ++ drop (i + Z.to_nat k) encs).
  { unfold mid. by rewrite <- drop_drop, take_drop, take_drop. }
  assert (Hencs' : encs' = take i encs ++ drop (i + Z.to_nat k) encs).
  { unfold encs'. destruct (Z.le_gt_cases num (Z.of_nat (length encs - i))).
    - by replace k with num by lia.
    - by rewrite !drop_ge by lia. }
  destruct (lp_repr_image _ _ Hlp) as (num0 & slack & Heq & Hnum & Hin & Hencs & Hslack & Hmax).
  destruct (remove_image num0 (take i encs) mid (drop (i + Z.to_nat k) encs) slack)
    as (num' & slack' & Hrun & Hnum' & Hin' & Hs'); try (by rewrite <- Hsplit); [done..|].
  rewrite <- Hsplit, <- Heq, <- (coff_take encs i), <- Hencs' in Hrun by lia.
  rewrite <- Hencs' in Hnum'.
  assert (Hlp' : lp_repr (lp_image num' encs' slack') encs').
  { apply image_repr; try done.
    - rewrite Hencs'. rewrite Hsplit in Hencs.
      apply Forall_app in Hencs as [? [_ ?]%Forall_app]. by apply Forall_app_2.
    - pose proof (f_equal (fun l => length (cbody l)) Hsplit) as Hlen. cbn beta in Hlen.
      rewrite !cbody_app, !length_app in Hlen.
      rewrite Hencs', ctotal_cbody, cbody_app, length_app. rewrite ctotal_cbody in Hmax. lia. }
  exists (lp_image num' encs' slack'). split; [|done]. rewrite Hoff.
  replace (ctotal encs - (coff encs i + Z.of_nat (length (cbody mid)) - coff encs i)) with
    (ctotal encs - Z.of_nat (length (cbody mid))) by lia.
  rewrite Z.add_0_l, <- Hmidl.
  destruct (mmove lp _ _ _) as [m1|]; [|done]. mstep in *.
  destruct (lpSetTotalBytes m1 _) as [m2|]; [|done]. mstep in *.
  destruct (lpGetNumElements m2) as [n2|]; [|done]. mstep in *.
  destruct (if negb (n2 =? LP_HDR_NUMELE_UNKNOWN) then _ else _) as [m3|]; [|done].
  mstep in *. rewrite Hrun. mstep.
  assert (Hi' : (i <= length encs')%nat) by (rewrite Hencs', length_app, length_take; lia).
  assert (Hco : coff encs i = coff encs' i).
  { rewrite Hencs', (coff_pre (take i encs)) by (rewrite length_take; lia). apply coff_take. lia. }
  destruct (rd_eptr _ _ i Hlp' Hi') as (c & Hc & He). rewrite Hco, Hc. mstep.
  by rewrite He.
Qed.

(** Moving the terminator to the element of index [k] *)
Lemma truncate_image lp encs k :
  lp_repr lp encs -> (k < length encs)%nat -> Z.of_nat (length encs) < LP_HDR_NUMELE_UNKNOWN ->
  exists lp',
    (lp ← wr lp (coff encs k) LP_EOF;
     lp ← lpSetTotalBytes lp (u64 (coff encs k + 1));
     lp ← lpSetNumElements lp (Z.of_nat k);
     lpShrinkToFit lp) = Some lp' /\ lp_repr lp' (take k encs).
Proof.
  intros Hlp Hk Hlen. destruct (lookup_lt_is_Some_2 encs k Hk) as [x Hx].
  destruct (lp_repr_image _ _ Hlp) as (num & slack & Heq & Hnum & Hin & Hencs & Hslack & Hmax).
  assert (Hsplit : encs = take k encs ++ [x] ++ drop (S k) encs) by (symmetry; by apply take_drop_middle).
  pose proof Heq as Heq'. rewrite Hsplit, image_split in Heq'.
  pose proof Hencs as Hencs'. rewrite Hsplit in Hencs'.
  apply Forall_app in Hencs' as [Hpre [Hx' Hpost]%Forall_app]. apply Forall_cons in Hx' as [Hx' _].
  destruct Hx' as (Hxb & (c & t & Hct & _) & _). subst x. rewrite cbody_one in Heq'.
  rewrite coff_take by lia. rewrite ctotal_cbody in Hmax.
  pose proof (f_equal (fun l => length (cbody l)) Hsplit) as Hl. cbn beta in Hl.
  rewrite !cbody_app, !length_app in Hl.
  rewrite Heq', <- Hsplit, <- app_assoc. change ((c :: t) ++ ?l) with (c :: t ++ l).
  rewrite wr_mid by (by rewrite image_head_length). mstep.
  rewrite set_total_head. mstep. rewrite set_num_head. mstep.
  rewrite wrapU_id by (unfold inU; zpow; lia).
  set (R := t ++ _). change (u8 LP_EOF) with LP_EOF.
  replace (image_head _ _ _ ++ LP_EOF :: R) with (lp_image (Z.of_nat k) (take k encs) R).
  2: { unfold lp_image, image_head. rewrite ctotal_cbody, <- !app_assoc. do 2 f_equal. lia. }
  assert (HR : Forall is_byte R).
  { unfold R. apply Forall_cons in Hxb as [_ Ht]. repeat apply Forall_app_2; try done;
      [apply backlen_bytes|by apply cbody_bytes|by apply Forall_singleton]. }
  assert (Hnk : num_ok (Z.of_nat k) (length (take k encs))) by (right; rewrite length_take; lia).
  assert (Hik : inU 16 (Z.of_nat k)) by (unfold inU, LP_HDR_NUMELE_UNKNOWN in *; zpow; lia).
  assert (Hmk : ctotal (take k encs) <= UINT32_MAX) by (rewrite ctotal_cbody; lia).
  destruct (shrink_image (Z.of_nat k) (take k encs) R) as (slack' & -> & Hs'); try done.
  eexists. split; [done|]. by apply image_repr.
Qed.

(** The elements after the deletion of [num] elements from the index [k] on;
    nothing changes when there is no such element. *)
Definition list_delete_range (encs : list (list Z)) (k num : Z) : list (list Z) :=
  if (0 <=? k) && (k <? Z.of_nat (length encs))
  then take (Z.to_nat k) encs ++ drop (Z.to_nat k + Z.to_nat num) encs else encs.

(** [lpDeleteRange] deletes up to [num] elements from an index, counted
    from the end when it is negative; it changes nothing when the index is
    out of range, and deletes up to the end when fewer elements are left,
    whether it moves the terminator, when the header knows the number of
    elements, or walks the entries. *)
Theorem lpDeleteRange_refines lp encs index num :
  lp_repr lp encs -> inS 64 index -> 0 <= num < 2 ^ 64 ->
  let k := if index <? 0 then Z.of_nat (length encs) + index else index in
  exists lp', lpDeleteRange lp index num = Some lp' /\ lp_repr lp' (list_delete_range encs k num).
Proof.
  intros Hlp Hindex Hn k. unfold lpDeleteRange.
  destruct (lv_num _ _ Hlp) as (numele & Hget & Hcase). rewrite Hget. mstep.
  rewrite length_fmap in Hcase. destruct (num =? 0) eqn:E0; zbool.
  { subst num. exists lp. split; [done|]. unfold list_delete_range.
    destruct (_ && _); [|done]. by rewrite Nat.add_0_r, take_drop. }
  rewrite (seek_ok _ _ Hlp) by done. unfold seek_index. rewrite length_fmap. fold k.
  mstep. unfold list_delete_range. destruct (k <? 0) eqn:E1; zbool.
  { exists lp. split; [done|]. by rewrite (proj2 (Z.leb_gt _ _)) by lia. }
  rewrite (proj2 (Z.leb_le 0 k)) by lia. cbn [andb]. unfold eptr. rewrite length_fmap.
  destruct (decide (Z.to_nat k < length encs)%nat) as [Hk|Hk].
  2: { exists lp. split; [done|]. by rewrite (proj2 (Z.ltb_ge _ _)) by lia. }
  rewrite (proj2 (Z.ltb_lt k _)) by lia. change (eoff _ _) with (coff encs (Z.to_nat k)).
  destruct (delete_range_entry lp encs (Z.to_nat k) num Hlp Hk Hn) as (lp1 & Hrun & Hlp1).
  pose proof (ents_max _ _ Hlp) as Hem. rewrite length_fmap in Hem.
  destruct (numele =? LP_HDR_NUMELE_UNKNOWN) eqn:Eu; zbool; cbn [negb andb].
  { rewrite Hrun. mstep. eauto. }
  destruct Hcase as [|Hcase]; [done|]. subst numele. revert Hindex. unfold inS. zpow. intros Hindex.
  replace (if index <? 0 then s64 (Z.of_nat (length encs) + index) else index) with k.
  2: { unfold k. destruct (index <? 0) eqn:Ei; zbool; [|done].
       by rewrite wrapS_id by (try unfold inS; zpow; lia). }
  rewrite (wrapU_id 64 k) by (unfold inU; zpow; lia).
  rewrite (wrapU_id 64 (_ - k)) by (unfold inU; zpow; lia).
  destruct (_ <=? num) eqn:El; zbool.
  - assert (Hlt : Z.of_nat (length encs) < LP_HDR_NUMELE_UNKNOWN).
    { pose proof (or_bytes_range lp 4 2 0 _ (lv_bytes _ _ Hlp) ltac:(lia) Hget) as Hr.
      unfold inU in Hr. unfold LP_HDR_NUMELE_UNKNOWN in *. change (0 + 8 * Z.of_nat 2) with 16 in Hr.
      revert Hr. zpow. lia. }
    rewrite (drop_ge encs) by lia. rewrite app_nil_r.
    pose proof (truncate_image lp encs (Z.to_nat k) Hlp Hk Hlt) as Ht.
    by rewrite Z2Nat.id in Ht by lia.
  - rewrite Hrun. mstep. eauto.
Qed.

(** ** Merging *)

Lemma ctotal_app l1 l2 : ctotal (l1 ++ l2) = ctotal l1 + ctotal l2 - LP_HDR_SIZE - 1.
Proof. unfold LP_HDR_SIZE. rewrite !ctotal_cbody, cbody_app, length_app. lia. Qed.

(** The number of elements of the merged listpack *)
Lemma merge_num n : 0 <= n ->
  let num := if n <? 65535 then n else 65535 in num_ok num (Z.to_nat n) /\ inU 16 num.
Proof.
  intros Hn num. unfold num, num_ok, LP_HDR_NUMELE_UNKNOWN, inU. zpow.
  destruct (n <? 65535) eqn:E; zbool; lia.
Qed.

Lemma image_eof num encs slack :
  lp_image num encs slack = image_head (ctotal encs) num encs ++ LP_EOF :: slack.
Proof. unfold lp_image, image_head. by rewrite <- !app_assoc. Qed.

(** Appending the source to the target, at the place of its terminator *)
Lemma merge_append num1 num2 encs1 encs2 slack1 slack2 :
  Forall is_byte slack1 -> ctotal (encs1 ++ encs2) <= UINT32_MAX ->
  exists S, Forall is_byte S /\
    (bs ← mload (lp_image num2 encs2 slack2) LP_HDR_SIZE (ctotal encs2 - LP_HDR_SIZE);
     mstore (lp_realloc (lp_image num1 encs1 slack1) (ctotal (encs1 ++ encs2))) (ctotal encs1 - 1) bs) =
    Some (image_head (ctotal encs1) num1 (encs1 ++ encs2) ++ LP_EOF :: S).
Proof.
  intros Hs1 Hmax. pose proof (ctotal_cbody encs1) as H1. pose proof (ctotal_cbody encs2) as H2.
  pose proof (ctotal_app encs1 encs2) as H12. unfold LP_HDR_SIZE in *.
  set (Q := image_head (ctotal encs1) num1 encs1).
  pose proof (image_head_length (ctotal encs1) num1 encs1) as HQ. fold Q in HQ.
  rewrite (image_eof num1). fold Q.
  replace (Q ++ LP_EOF :: slack1) with ((Q ++ [LP_EOF]) ++ slack1) by (by rewrite <- app_assoc).
  destruct (lp_realloc_keep (Q ++ [LP_EOF]) slack1 (ctotal (encs1 ++ encs2))) as (S & -> & HS & Hlen);
    [zpow; lia|rewrite length_app; simpl; lia|done|].
  set (bs := cbody encs2 ++ [LP_EOF]).
  assert (Hbs : Z.of_nat (length bs) = Z.of_nat (length (cbody encs2)) + 1)
    by (unfold bs; rewrite length_app; simpl; lia).
  replace (mload _ 6 _) with (Some bs).
  2: { unfold lp_image. rewrite app_assoc. change (LP_EOF :: slack2) with ([LP_EOF] ++ slack2).
       rewrite (app_assoc (cbody encs2)). fold bs. symmetry. apply mload_app_mid; [|lia].
       by rewrite length_app, !length_le_encode. }
  mstep. rewrite !length_app in Hlen. cbn [length] in Hlen.
  exists (drop (length bs) (LP_EOF :: S)). split; [apply Forall_drop; by constructor|].
  rewrite <- app_assoc. change ([LP_EOF] ++ S) with (LP_EOF :: S).
  rewrite <- (take_drop (length bs) (LP_EOF :: S)) at 1. rewrite mstore_app_mid.
  - unfold Q, bs, image_head. rewrite cbody_app. by rewrite <- !app_assoc.
  - lia.
  - rewrite length_take. cbn [length]. lia.
Qed.

(** Prepending the source to the target, over its header *)
Lemma merge_prepend num1 num2 encs1 encs2 slack1 slack2 :
  Forall enc_ok encs2 -> Forall is_byte slack2 -> ctotal (encs1 ++ encs2) <= UINT32_MAX ->
  exists S, Forall is_byte S /\
    (m ← mmove (lp_realloc (lp_image num2 encs2 slack2) (ctotal (encs1 ++ encs2)))
           (ctotal encs1 - 1) LP_HDR_SIZE (ctotal encs2 - LP_HDR_SIZE);
     bs ← mload (lp_image num1 encs1 slack1) 0 (ctotal encs1 - 1);
     mstore m 0 bs) =
    Some (image_head (ctotal encs1) num1 (encs1 ++ encs2) ++ LP_EOF :: S).
Proof.
  intros Hok2 Hs2 Hmax. pose proof (ctotal_cbody encs1) as H1. pose proof (ctotal_cbody encs2) as H2.
  pose proof (ctotal_app encs1 encs2) as H12. unfold LP_HDR_SIZE in *.
  set (H := le_encode 4 (ctotal encs2) ++ le_encode 2 num2). set (T := cbody encs2 ++ [LP_EOF]).
  assert (HH : length H = 6%nat) by (unfold H; by rewrite length_app, !length_le_encode).
  assert (HT : Z.of_nat (length T) = Z.of_nat (length (cbody encs2)) + 1)
    by (unfold T; rewrite length_app; simpl; lia).
  replace (lp_image num2 encs2 slack2) with ((H ++ T) ++ slack2)
    by (unfold H, T, lp_image; by rewrite <- !app_assoc).
  destruct (lp_realloc_keep (H ++ T) slack2 (ctotal (encs1 ++ encs2))) as (S & -> & HS & Hlen);
    [zpow; lia|rewrite length_app; lia|done|]. rewrite <- app_assoc, !length_app in Hlen.
  destruct (mmove_tail H [] T S (ctotal encs1 - 1) 6 (length (cbody encs1)) (ctotal encs2 - 6))
    as (X & S' & HX & _ & HS' & Hmv); try (simpl; lia).
  { cbn [app]. apply Forall_app_2; [|done].
    by apply tail_bytes. }
  cbn [app] in Hmv. rewrite <- app_assoc, Hmv. mstep. rewrite (image_eof num1).
  rewrite mload_app_l by (rewrite image_head_length; lia). mstep.
  exists S'. split; [done|]. rewrite (app_assoc H X), mstore_app_l.
  - unfold T, image_head. rewrite cbody_app. by rewrite <- !app_assoc.
  - pose proof (image_head_length (ctotal encs1) num1 encs1). rewrite length_app. lia.
Qed.

(** C16: [lpMerge] makes one listpack of two: it holds the elements of the
    first and then those of the second, in the allocation of the larger one,
    whose pointer is kept while the other becomes [NULL]. A merge that would
    not fit in 32 bits stops at the assertion, and a listpack is never merged
    with itself or with [NULL]. *)
Theorem lpMerge_refines lp1 lp2 encs1 encs2 :
  lp_repr lp1 encs1 -> lp_repr lp2 encs2 ->
  (if ctotal (encs1 ++ encs2) <? UINT32_MAX then
     exists lp', lp_repr lp' (encs1 ++ encs2) /\
       lpMerge (Some lp1) (Some lp2) false =
         Some (Some lp', if ctotal encs1 >=? ctotal encs2 then Some lp' else None,
               if ctotal encs1 >=? ctotal encs2 then None else Some lp')
   else lpMerge (Some lp1) (Some lp2) false = None) /\
  lpMerge (Some lp1) (Some lp2) true = Some (None, Some lp1, Some lp2) /\
  lpMerge None (Some lp2) false = Some (None, None, Some lp2) /\
  lpMerge (Some lp1) None false = Some (None, Some lp1, None).
Proof.
  intros Hlp1 Hlp2. split; [|done]. unfold lpMerge, lpBytes.
  rewrite (lv_total _ _ Hlp1), (lv_total _ _ Hlp2). mstep.
  destruct (length_repr _ _ Hlp1) as (lp1' & -> & Hlp1'). mstep.
  destruct (length_repr _ _ Hlp2) as (lp2' & -> & Hlp2'). mstep.
  change (total_bytes (canon <$> encs1)) with (ctotal encs1).
  change (total_bytes (canon <$> encs2)) with (ctotal encs2).
  pose proof (ents_max _ _ Hlp1) as He1. pose proof (ents_max _ _ Hlp2) as He2. rewrite length_fmap in *.
  destruct (lp_repr_image _ _ Hlp1') as (n1 & s1 & -> & _ & _ & Hok1 & Hs1 & Hm1).
  destruct (lp_repr_image _ _ Hlp2') as (n2 & s2 & -> & _ & _ & Hok2 & Hs2 & Hm2).
  pose proof (ctotal_app encs1 encs2) as H12. pose proof (ctotal_cbody encs1). pose proof (ctotal_cbody encs2).
  rewrite (wrapU_id 64 (ctotal encs1 + _ - _ - _)) by (unfold inU, LP_HDR_SIZE; zpow; lia).
  rewrite <- H12. rewrite (wrapU_id 64 (_ + Z.of_nat (length encs2))) by (unfold inU; zpow; lia).
  destruct (merge_num (Z.of_nat (length encs1) + Z.of_nat (length encs2)) ltac:(lia)) as [Hnum Hin].
  replace (Z.to_nat _) with (length (encs1 ++ encs2)) in Hnum by (rewrite length_app; lia).
  set (num := if _ <? 65535 then _ else _) in *.
  assert (Hfin : forall n S, Forall is_byte S -> ctotal (encs1 ++ encs2) < UINT32_MAX ->
    exists lp', lp_repr lp' (encs1 ++ encs2) /\
      (m ← lpSetNumElements (image_head (ctotal encs1) n (encs1 ++ encs2) ++ LP_EOF :: S) num;
       lpSetTotalBytes m (ctotal (encs1 ++ encs2))) = Some lp').
  { intros n S HS Hlt. rewrite set_num_head. mstep. rewrite set_total_head.
    rewrite <- image_eof. eexists. split; [|done]. apply image_repr; try done; [by apply Forall_app_2|lia]. }
  destruct (ctotal (encs1 ++ encs2) <? UINT32_MAX) eqn:Efit; zbool;
    [|destruct (_ >=? _); done].
  destruct (ctotal encs1 >=? ctotal encs2); cbn [cassert mbind option_bind].
  - destruct (merge_append n1 n2 encs1 encs2 s1 s2 Hs1 ltac:(lia)) as (S & HS & Hrun).
    destruct (mload _ LP_HDR_SIZE _) as [bs|]; [|done]. mstep in *. rewrite Hrun.
    mstep. destruct (Hfin n1 S HS Efit) as (lp' & Hlp' & Hset). exists lp'.
    split; [done|]. destruct (lpSetNumElements _ num) as [m|]; [|done]. mstep in *.
    by rewrite Hset.
  - destruct (merge_prepend n1 n2 encs1 encs2 s1 s2 Hok2 Hs2 ltac:(lia)) as (S & HS & Hrun).
    destruct (mmove _ _ _ _) as [m1|]; [|done]. mstep in *.
    destruct (mload _ 0 _) as [bs|]; [|done]. mstep in *. rewrite Hrun.
    mstep. destruct (Hfin n1 S HS Efit) as (lp' & Hlp' & Hset). exists lp'.
    split; [done|]. destruct (lpSetNumElements _ num) as [m|]; [|done]. mstep in *.
    by rewrite Hset.
Qed.

(** ** Inserting a batch *)

(** The encoding of an entry of the batch *)
Definition entry_enc (x : listpackEntry) : list Z :=
  match x with LpString s => enc_of (ele_of_string s) | LpInteger v => int_enc v end.

Definition entry_ok (x : listpackEntry) : Prop :=
  match x with
  | LpString s => Forall is_byte s /\ Z.of_nat (length s) < 2 ^ 32
  | LpInteger v => inS 64 v
  end.

(** The arguments of [lpInsert] for the same entry *)
Lemma entry_new_enc x :
  entry_ok x -> match x with
    | LpString s => new_enc (Some s) None (entry_enc x)
    | LpInteger v => new_enc None (Some (int_enc v)) (entry_enc x)
    end.
Proof.
  destruct x as [s|v]; cbn [entry_ok entry_enc].
  - intros [??]. by constructor.
  - intros Hv. constructor; [by apply (enc_of_ok (LpInteger v))|apply int_enc_short].
Qed.

(** An entry and its encoded form *)
Definition ins_ok (x : listpackEntry) (ie : listpackInsertEntry) : Prop :=
  ie_enclen ie = Z.of_nat (length (entry_enc x)) /\
  ie_backlen ie = backlen (Z.of_nat (length (entry_enc x))) /\
  ie_backlen_size ie = lpEncodeBacklenBytes (Z.of_nat (length (entry_enc x))) /\
  forall P X1 R, length X1 = length (entry_enc x) ->
    match ie_enctype ie, x with
    | LP_ENCODING_INT intenc, _ =>
        bs ← mload intenc 0 (Z.of_nat (length (entry_enc x))); mstore (P ++ X1 ++ R) (Z.of_nat (length P)) bs
    | LP_ENCODING_STRING, LpString sval => lpEncodeString (P ++ X1 ++ R) (Z.of_nat (length P)) sval
    | LP_ENCODING_STRING, LpInteger _ => None
    end = Some (P ++ entry_enc x ++ R).

Lemma encode_entry x :
  entry_ok x ->
  exists t, match x with
    | LpString sval => lpEncodeGetType sval
    | LpInteger lval =>
        let '(enclen, intenc) := lpEncodeIntegerGetType lval in (LP_ENCODING_INT intenc, enclen)
    end = (t, Z.of_nat (length (entry_enc x))) /\
    ins_ok x (mkInsertEntry t (Z.of_nat (length (entry_enc x)))
      (backlen (Z.of_nat (length (entry_enc x)))) (lpEncodeBacklenBytes (Z.of_nat (length (entry_enc x))))).
Proof.
  intros Hx. pose proof (entry_new_enc x Hx) as Hnew. destruct x as [s|v].
  - destruct (new_enc_type _ _ _ Hnew) as (t & Ht & Hstore). cbn [enc_type] in Ht.
    destruct (lpEncodeGetType s) as [t' n]. injection Ht as -> ->. exists t. split; [done|].
    by split_and!.
  - destruct (new_enc_type _ _ _ Hnew) as (t & Ht & Hstore). cbn [enc_type] in Ht. injection Ht as <-.
    cbn [entry_enc]. rewrite lpEncodeIntegerGetType_int_enc. eexists. split; [done|]. by split_and!.
Qed.

Lemma batch_encode entries added :
  Forall entry_ok entries -> 0 <= added ->
  added + Z.of_nat (length (cbody (entry_enc <$> entries))) < 2 ^ 64 ->
  exists enc, lpBatch_encode entries added =
      (enc, added + Z.of_nat (length (cbody (entry_enc <$> entries)))) /\ Forall2 ins_ok entries enc.
Proof.
  intros Hok. revert added. induction Hok as [|x entries Hx Hok IH]; intros added Ha Hmax.
  { exists []. cbn [lpBatch_encode fmap list_fmap]. split; [|done]. f_equal. simpl. lia. }
  rewrite fmap_cons in *. change (entry_enc x :: ?l) with ([entry_enc x] ++ l) in *.
  rewrite cbody_app, length_app in *. rewrite Nat2Z.inj_add, cbody_one_length in *.
  destruct (encode_entry x Hx) as (t & Ht & Hins).
  destruct (lpEncodeBacklen_size (Z.of_nat (length (entry_enc x)))) as [Hback _].
  pose proof (lpEncodeBacklenBytes_range (Z.of_nat (length (entry_enc x)))).
  cbn [lpBatch_encode]. rewrite Ht, Hback.
  rewrite (wrapU_id 64 (added + _)) by (unfold inU; lia). rewrite wrapU_id by (unfold inU; lia).
  destruct (IH (added + Z.of_nat (length (entry_enc x)) +
    lpEncodeBacklenBytes (Z.of_nat (length (entry_enc x))))) as (enc & -> & Henc); [lia|lia|].
  eexists. split; [f_equal; lia|]. by constructor.
Qed.

Lemma batch_store entries enc P X R newp :
  Forall2 ins_ok entries enc -> length X = length (cbody (entry_enc <$> entries)) ->
  lpBatch_store (P ++ X ++ R) (Z.of_nat (length P)) newp entries enc =
    Some (P ++ cbody (entry_enc <$> entries) ++ R,
          match entries with
          | [] => newp
          | _ => Some (Z.of_nat (length (P ++ cbody (entry_enc <$> removelast entries))))
          end).
Proof.
  intros Henc. revert P X newp. induction Henc as [|x ie entries enc Hins Henc IH]; intros P X newp HX.
  { destruct X; [done|]. simpl in HX. lia. }
  rewrite fmap_cons in *. change (entry_enc x :: ?l) with ([entry_enc x] ++ l) in *.
  rewrite cbody_app, length_app in *. destruct Hins as (He & Hb & Hs & Hstore).
  cbn [lpBatch_store]. rewrite He, Hb, Hs.
  destruct (store_entry P (take (length (cbody [entry_enc x])) X) (drop (length (cbody [entry_enc x])) X ++ R)
    (entry_enc x) (Z.of_nat (length P)) eq_refl) as (X1 & X2 & HX12 & HX1 & Hst).
  { rewrite length_take, cbody_one, length_app. rewrite cbody_one, length_app in HX. lia. }
  rewrite <- (take_drop (length (cbody [entry_enc x])) X), HX12, <- !app_assoc.
  rewrite Hstore by done. mstep.
  rewrite mload_full by (symmetry; apply lpEncodeBacklen_size). mstep.
  rewrite Hst. mstep. rewrite (app_assoc P (cbody [entry_enc x])).
  replace (Z.of_nat (length P) + _ + _) with (Z.of_nat (length (P ++ cbody [entry_enc x])))
    by (rewrite length_app, Nat2Z.inj_add, cbody_one_length; lia).
  rewrite IH by (rewrite length_drop; lia). f_equal. f_equal; [by rewrite <- !app_assoc|].
  destruct entries as [|y entries].
  { change (cbody (entry_enc <$> removelast [x])) with ([] : list Z). cbn [length]. by rewrite Nat.add_0_r. }
  change (removelast (x :: y :: entries)) with (x :: removelast (y :: entries)).
  rewrite fmap_cons. change (entry_enc x :: ?l) with ([entry_enc x] ++ l).
  change ([entry_enc x] ++ []) with [entry_enc x]. f_equal.
  rewrite (cbody_app [entry_enc x] (entry_enc <$> removelast (y :: entries))), !length_app. lia.
Qed.

(** The number of elements after the insertion of a batch *)
Lemma num_step_batch num pre new post total R :
  num_ok num (length (pre ++ post)) -> inU 16 num -> Z.of_nat (length new) < 2 ^ 32 ->
  exists num', (if negb (num =? LP_HDR_NUMELE_UNKNOWN) then
      if Z.of_nat (length new) >? LP_HDR_NUMELE_UNKNOWN - num
      then lpSetNumElements (image_head total num pre ++ R) LP_HDR_NUMELE_UNKNOWN
      else lpSetNumElements (image_head total num pre ++ R) (u32 (num + Z.of_nat (length new)))
    else Some (image_head total num pre ++ R)) = Some (image_head total num' pre ++ R) /\
    num_ok num' (length (pre ++ new ++ post)) /\ inU 16 num'.
Proof.
  unfold num_ok, inU, LP_HDR_NUMELE_UNKNOWN. rewrite !length_app. zpow. intros Hnum Hin Hlen.
  destruct (num =? 65535) eqn:E; zbool; cbn [negb].
  - exists num. split; [done|]. lia.
  - destruct (_ >? _) eqn:E2; zbool; rewrite set_num_head; eexists; (split; [done|]); [lia|].
    rewrite wrapU_id by (unfold inU; zpow; lia). lia.
Qed.

Lemma new_encs_ok entries pre post :
  Forall entry_ok entries -> ctotal (pre ++ (entry_enc <$> entries) ++ post) <= UINT32_MAX ->
  Forall enc_ok (entry_enc <$> entries).
Proof.
  intros Hok Hmax. apply Forall_fmap, Forall_forall. intros x Hx.
  assert (Hxok : entry_ok x) by (by eapply Forall_forall in Hok).
  apply list_elem_of_split in Hx as (l1 & l2 & ->).
  rewrite fmap_app, fmap_cons in Hmax. change (entry_enc x :: ?l) with ([entry_enc x] ++ l) in Hmax.
  rewrite ctotal_cbody, !cbody_app, !length_app in Hmax.
  assert (Hlt : Z.of_nat (length (entry_enc x)) < 2 ^ 32).
  { rewrite (cbody_one (entry_enc x)), length_app in Hmax. zpow. lia. }
  pose proof (entry_new_enc x Hxok) as Hn. destruct x; by eapply new_enc_ok.
Qed.

Lemma batch_before lp pre post entries :
  lp_repr lp (pre ++ post) -> Forall entry_ok entries -> entries <> [] ->
  Z.of_nat (length entries) < 2 ^ 32 ->
  Z.of_nat (length (cbody (entry_enc <$> entries))) < 2 ^ 63 ->
  let p := 6 + Z.of_nat (length (cbody pre)) in
  if ctotal (pre ++ (entry_enc <$> entries) ++ post) >? UINT32_MAX
  then lpBatchInsert lp p LP_BEFORE entries = Some None
  else exists lp', lpBatchInsert lp p LP_BEFORE entries =
           Some (Some (lp', Some (p + Z.of_nat (length (cbody (entry_enc <$> removelast entries)))))) /\
         lp_repr lp' (pre ++ (entry_enc <$> entries) ++ post).
Proof.
  intros Hlp Hok Hne Hlen Hsize p. unfold lpBatchInsert.
  rewrite (bool_decide_true (LP_BEFORE = LP_BEFORE)) by done. cbn [orb cassert mbind option_bind].
  assert (1 <= length entries)%nat by (destruct entries; [done|simpl; lia]).
  rewrite (proj2 (Z.gtb_gt (Z.of_nat (length entries)) 0)) by lia. cbn [cassert mbind option_bind].
  rewrite bool_decide_false by done. mstep.
  destruct (batch_encode entries 0 Hok ltac:(lia)) as (enc & -> & Henc); [revert Hsize; zpow; lia|].
  rewrite Z.add_0_l. set (new := entry_enc <$> entries) in *.
  destruct (lp_repr_image _ _ Hlp) as (num & slack & Heq & Hnum & Hin & Hencs & Hslack & Hmax).
  pose proof (lv_total _ _ Hlp) as Htot. change (total_bytes _) with (ctotal (pre ++ post)) in Htot.
  rewrite Htot. mstep. set (old := ctotal (pre ++ post)) in *.
  assert (Hnew : ctotal (pre ++ new ++ post) = old + Z.of_nat (length (cbody new))).
  { unfold old. rewrite !ctotal_cbody, !cbody_app, !length_app. lia. }
  assert (Hold : 7 + Z.of_nat (length (cbody pre)) + Z.of_nat (length (cbody post)) = old).
  { unfold old. rewrite ctotal_cbody, cbody_app, length_app. lia. }
  rewrite (wrapU_id 64 (old + _)) by (unfold inU; revert Hsize; zpow; lia). rewrite <- Hnew.
  destruct (_ >? UINT32_MAX) eqn:Hbig; [done|]. zbool.
  apply Forall_app in Hencs as [Hpre Hpost].
  set (P := image_head old num pre). pose proof (image_head_length old num pre) as HP. fold P in HP.
  set (T := cbody post ++ [LP_EOF]).
  assert (HT : Z.of_nat (length T) = Z.of_nat (length (cbody post)) + 1)
    by (unfold T; rewrite length_app; simpl; lia).
  assert (Himg : lp = P ++ [] ++ T ++ slack) by (rewrite Heq; apply (image_split num pre [] post slack)).
  rewrite (wrapU_id 64 (old - p)) by (unfold inU, p; zpow; lia). rewrite Himg.
  destruct (make_room P [] T slack (length (cbody new)) old (ctotal (pre ++ new ++ post)))
    as (lp2 & X & S & Hmove & Hrealloc & HX & _ & HSb).
  { cbn [app]. apply Forall_app_2; [|done]. by apply tail_bytes. }
  { cbn [app]. rewrite length_app. lia. } { simpl length. lia. } { zpow. lia. }
  cbn [length] in Hmove. rewrite Z.add_0_r in Hmove.
  replace p with (Z.of_nat (length P)) by done. replace (old - _) with (Z.of_nat (length T)) by lia.
  rewrite Hmove. mstep.
  rewrite (proj2 (Z.ltb_ge _ _)) in Hrealloc by lia. rewrite Hrealloc, batch_store by done. fold new.
  mstep. unfold P. rewrite get_num_head by done. mstep.
  destruct (num_step_batch num pre new post old (cbody new ++ T ++ S) Hnum Hin) as (num' & Hset & Hnum' & Hin').
  { unfold new. by rewrite length_fmap. }
  replace (length new) with (length entries) in Hset by (unfold new; by rewrite length_fmap).
  rewrite Hset. mstep.
  rewrite set_total_head. mstep. eexists. split.
  - do 4 f_equal. destruct entries; [done|]. f_equal. rewrite length_app. fold P. lia.
  - replace (image_head _ num' pre ++ cbody new ++ T ++ S) with (lp_image num' (pre ++ new ++ post) S)
      by (by rewrite image_split).
    apply image_repr; try done. repeat apply Forall_app_2; try done. by eapply new_encs_ok.
Qed.

(** C17: [lpBatchInsert] inserts the entries of a batch, in their order, before
    or after the element of index [i]: the elements are those that insertions
    one by one would give, [*newp] is the last of them, and the result is
    [NULL] exactly when the listpack would not fit in 32 bits. *)
Theorem lpBatchInsert_refines lp encs entries i wher :
  lp_repr lp encs -> Forall entry_ok entries -> entries <> [] -> wher <> LP_REPLACE ->
  insert_range encs i wher -> Z.of_nat (length entries) < 2 ^ 32 ->
  Z.of_nat (length (cbody (entry_enc <$> entries))) < 2 ^ 63 ->
  let j := insert_pos i wher in
  let encs' := take j encs ++ (entry_enc <$> entries) ++ drop j encs in
  if ctotal encs' >? UINT32_MAX then lpBatchInsert lp (coff encs i) wher entries = Some None
  else exists lp', lpBatchInsert lp (coff encs i) wher entries =
           Some (Some (lp', Some (coff encs' (j + (length entries - 1))))) /\ lp_repr lp' encs'.
Proof.
  intros Hlp Hok Hne Hw Hi Hlen Hsize j encs'.
  assert (Hj : (j <= length encs)%nat) by (unfold j; destruct wher; simpl in *; lia).
  assert (Hmove : lpBatchInsert lp (coff encs i) wher entries = lpBatchInsert lp (coff encs j) LP_BEFORE entries).
  { destruct wher; [done| |done]. unfold lpBatchInsert.
    destruct (skip_assert lp encs i Hlp Hi) as [Hskip Hassert].
    change (bool_decide (LP_AFTER = LP_BEFORE)) with false.
    change (bool_decide (LP_AFTER = LP_AFTER)) with true. rewrite Hskip.
    change (bool_decide (LP_BEFORE = LP_BEFORE)) with true.
    change (bool_decide (LP_BEFORE = LP_AFTER)) with false.
    cbn [orb cassert mbind option_bind]. by rewrite Hassert. }
  rewrite Hmove, coff_take by done. unfold encs'.
  pose proof (batch_before lp (take j encs) (drop j encs) entries) as Hb. rewrite take_drop in Hb.
  specialize (Hb Hlp Hok Hne Hlen Hsize). cbv zeta in Hb. destruct (_ >? _); [done|].
  destruct Hb as (lp' & Hrun & Hlp'). exists lp'. split; [|done]. rewrite Hrun. do 4 f_equal.
  destruct (exists_last Hne) as (l & x & ->). rewrite removelast_last, fmap_app, <- app_assoc, app_assoc.
  rewrite coff_pre by (rewrite !length_app, length_take, length_fmap; simpl; lia).
  rewrite cbody_app, length_app. lia.
Qed.

(** ** Deleting a batch *)

(** A move down leaves what follows as it is. *)
Lemma mmove_down_mid (P x T R : list Z) dst src n :
  dst = Z.of_nat (length P) -> n = Z.of_nat (length T) -> src = dst + Z.of_nat (length x) ->
  Forall is_byte (x ++ T) ->
  exists y, length y = length x /\ Forall is_byte y /\
    mmove (P ++ x ++ T ++ R) dst src n = Some (P ++ T ++ y ++ R).
Proof.
  intros -> -> -> Hb. exists (drop (length T) (x ++ T)). split_and!.
  - rewrite length_drop, length_app. lia.
  - auto with bytes.
  - unfold mmove. rewrite (app_assoc P x), mload_app_mid by (rewrite ?length_app; lia).
    mstep. rewrite <- app_assoc.
    replace (x ++ T ++ R) with (take (length T) (x ++ T) ++ drop (length T) (x ++ T) ++ R)
      by (by rewrite app_assoc, take_drop, <- app_assoc).
    rewrite mstore_app_mid; [done|done|]. rewrite length_take, length_app. lia.
Qed.

(** The elements to delete, each with the elements that are kept after it *)
#[local] Abbreviation group := (list Z * list (list Z))%type.

Definition group_all (gs : list group) : list (list Z) := concat ((fun g => g.1 :: g.2) <$> gs).
Definition group_kept (gs : list group) : list (list Z) := concat (snd <$> gs).

(** The pointers to the elements to delete *)
Fixpoint group_ptrs (off : Z) (gs : list group) : list Z :=
  match gs with
  | [] => []
  | g :: gs => off :: group_ptrs (off + Z.of_nat (length (cbody (g.1 :: g.2)))) gs
  end.

Lemma group_all_cons x seg gs :
  cbody (group_all ((x, seg) :: gs)) = cbody [x] ++ cbody seg ++ cbody (group_all gs).
Proof.
  unfold group_all. rewrite fmap_cons. cbn [concat fst snd].
  change ((x :: seg) ++ ?l) with ([x] ++ seg ++ l). by rewrite !cbody_app.
Qed.

Lemma group_kept_cons x seg gs :
  cbody (group_kept ((x, seg) :: gs)) = cbody seg ++ cbody (group_kept gs).
Proof. unfold group_kept. rewrite fmap_cons. cbn [concat snd]. by rewrite cbody_app. Qed.

(** The step over an element, wherever it is *)
Lemma skip_enc Q x R :
  enc_ok x -> lpSkip (Q ++ cbody [x] ++ R) (Z.of_nat (length Q)) =
    Some (Z.of_nat (length Q) + Z.of_nat (length (cbody [x]))).
Proof.
  intros (_ & _ & Hsize). unfold lpSkip. rewrite cbody_one_length, cbody_one, <- app_assoc.
  by rewrite (lpCurrentEncodedSizeUnsafe_frame Q x _ _ _ Hsize).
Qed.

Lemma batch_delete_loop gs P G S :
  Forall enc_ok (group_all gs) -> Forall is_byte G -> gs <> [] ->
  exists y, (length y + length (cbody (group_kept gs)) = length G + length (cbody (group_all gs)))%nat /\
    Forall is_byte y /\
    lpBatchDelete_loop (P ++ G ++ cbody (group_all gs) ++ LP_EOF :: S)
      (Z.of_nat (length (P ++ G ++ cbody (group_all gs))) + 1)
      (group_ptrs (Z.of_nat (length (P ++ G))) gs) (Z.of_nat (length P)) =
    Some (P ++ cbody (group_kept gs) ++ LP_EOF :: y ++ S,
          Z.of_nat (length (P ++ cbody (group_kept gs))) + 1).
Proof.
  revert P G. induction gs as [|[x seg] gs IH]; intros P G Hok HG Hne; [done|].
  assert (Hx : enc_ok x /\ Forall enc_ok seg /\ Forall enc_ok (group_all gs)).
  { unfold group_all in Hok. rewrite fmap_cons in Hok. cbn [concat fst snd] in Hok.
    apply Forall_app in Hok as [[Hx Hseg]%Forall_cons Hgs]. done. }
  destruct Hx as (Hx & Hseg & Hgs). rewrite group_all_cons, group_kept_cons.
  cbn [group_ptrs lpBatchDelete_loop fst snd]. change (x :: seg) with ([x] ++ seg).
  rewrite (cbody_app [x] seg), <- !app_assoc.
  assert (HGx : Forall is_byte (G ++ cbody [x])).
  { apply Forall_app_2; [done|]. apply cbody_bytes. by apply Forall_singleton. }
  assert (Hrd : exists c, rd (P ++ G ++ cbody [x] ++ cbody seg ++ cbody (group_all gs) ++ LP_EOF :: S)
    (Z.of_nat (length (P ++ G))) = Some c /\ c <> LP_EOF).
  { destruct Hx as (_ & (c & t & -> & Hc) & _). exists c. split; [|done].
    rewrite app_assoc, cbody_one. by apply rd_mid. }
  destruct Hrd as (c & -> & Hc). mstep.
  rewrite (proj2 (Z.eqb_neq c LP_EOF)) by done. cbn [negb cassert mbind option_bind].
  assert (Hskip : lpSkip (P ++ G ++ cbody [x] ++ cbody seg ++ cbody (group_all gs) ++ LP_EOF :: S)
    (Z.of_nat (length (P ++ G))) = Some (Z.of_nat (length (P ++ G)) + Z.of_nat (length (cbody [x])))).
  { rewrite app_assoc. by apply skip_enc. }
  rewrite Hskip. mstep.
  destruct gs as [|g gs].
  - change (group_all []) with ([] : list (list Z)). change (cbody []) with ([] : list Z).
    cbn [group_ptrs app]. rewrite bool_decide_true by done. cbn [negb andb].
    rewrite !length_app, app_nil_r. cbn [length].
    replace (_ >? _) with true by (symmetry; apply Z.gtb_gt; rewrite ?length_app; simpl; lia).
    cbn [cassert mbind option_bind].
    destruct (mmove_down_mid P (G ++ cbody [x]) (cbody seg ++ [LP_EOF]) S (Z.of_nat (length P))
      (Z.of_nat (length P + length G) + Z.of_nat (length (cbody [x]))) (Z.of_nat (length (cbody seg ++ [LP_EOF]))))
      as (y & Hy & Hyb & Hmv); [done|done|rewrite length_app; lia| |].
    { apply Forall_app_2; [done|]. by apply tail_bytes. }
    exists y. rewrite <- !app_assoc in Hmv. cbn [app] in Hmv. rewrite length_app in Hmv, Hy. cbn [length] in Hmv.
    split_and!; [change (group_kept []) with ([] : list (list Z)); simpl; lia|done|].
    replace (Z.of_nat _ + 1 - _) with (Z.of_nat (length (cbody seg) + 1)) by lia.
    rewrite Hmv. cbn [mbind option_bind lpBatchDelete_loop].
    change (group_kept []) with ([] : list (list Z)). change (cbody []) with ([] : list Z).
    f_equal. f_equal. simpl. lia.
  - remember (group_ptrs _ (g :: gs)) as ps eqn:Hps. destruct ps as [|q ps]; [done|].
    pose proof Hps as Hq. cbn [group_ptrs] in Hq. injection Hq as Hq _.
    rewrite bool_decide_false by done. cbn [negb andb]. rewrite Hps.
    assert (Hlen : (length (cbody [x] ++ cbody seg) = length (cbody [x]) + length (cbody seg))%nat)
      by apply length_app.
    destruct (_ =? q) eqn:Ecmp; zbool.
    + assert (Hnil : cbody seg = []) by (apply nil_length_inv; lia). rewrite Hnil in *. cbn [app] in *.
      destruct (IH P (G ++ cbody [x]) Hgs HGx ltac:(done)) as (y & Hy & Hyb & Hrun).
      exists y. rewrite app_nil_r, !length_app in *. split_and!; [lia|done|].
      rewrite <- !app_assoc in Hrun. rewrite <- Hrun. f_equal; [lia|]. f_equal. lia.
    + rewrite (proj2 (Z.gtb_gt q _)) by lia. cbn [cassert mbind option_bind].
      destruct (mmove_down_mid P (G ++ cbody [x]) (cbody seg) (cbody (group_all (g :: gs)) ++ LP_EOF :: S)
        (Z.of_nat (length P)) (Z.of_nat (length (P ++ G)) + Z.of_nat (length (cbody [x])))
        (q - (Z.of_nat (length (P ++ G)) + Z.of_nat (length (cbody [x])))))
        as (y & Hy & Hyb & Hmv); [done|lia|rewrite !length_app; lia| |].
      { apply Forall_app_2; [done|by apply cbody_bytes]. }
      rewrite <- app_assoc in Hmv. rewrite Hmv. mstep.
      destruct (IH (P ++ cbody seg) y Hgs Hyb ltac:(done)) as (z & Hz & Hzb & Hrun).
      exists z. rewrite !length_app in *. split_and!; [lia|done|].
      rewrite <- !app_assoc in Hrun.
      replace (q - _) with (Z.of_nat (length (cbody seg))) by lia.
      replace (Z.of_nat (length P) + Z.of_nat (length (cbody seg))) with (Z.of_nat (length P + length (cbody seg))) by lia.
      etransitivity; [etransitivity; [|exact Hrun]|].
      * f_equal; [lia|]. f_equal. lia.
      * f_equal. f_equal; [by rewrite <- app_assoc|lia].
Qed.

Lemma group_lengths gs : length (group_all gs) = (length gs + length (group_kept gs))%nat.
Proof.
  induction gs as [|[x seg] gs IH]; [done|]. unfold group_all, group_kept in *. rewrite !fmap_cons.
  cbn [concat fst snd]. rewrite !length_app, IH. cbn [length]. lia.
Qed.

Lemma group_ptrs_length o gs : length (group_ptrs o gs) = length gs.
Proof. revert o. induction gs as [|g gs IH]; intros o; [done|]. cbn [group_ptrs length]. by rewrite IH. Qed.

Lemma group_kept_ok gs : Forall enc_ok (group_all gs) -> Forall enc_ok (group_kept gs).
Proof.
  unfold group_all, group_kept. induction gs as [|[x seg] gs IH]; [done|]. rewrite !fmap_cons.
  cbn [concat fst snd]. intros [[_ Hseg]%Forall_cons Hgs]%Forall_app. apply Forall_app_2; auto.
Qed.

(** C18: [lpBatchDelete] deletes in one pass the elements whose pointers it is
    given, in the order of the listpack, and keeps all the others in their
    order; here the elements after [pre] are groups of an element to delete
    and the elements to keep after it. *)
Theorem lpBatchDelete_refines lp pre gs :
  lp_repr lp (pre ++ group_all gs) ->
  exists lp', lpBatchDelete lp (group_ptrs (coff (pre ++ group_all gs) (length pre)) gs) = Some lp' /\
    lp_repr lp' (pre ++ group_kept gs).
Proof.
  intros Hlp. destruct gs as [|g gs'].
  { exists lp. split; [done|]. by change (group_kept []) with (group_all []). }
  set (gs := g :: gs') in *. assert (Hgs : gs <> []) by done.
  destruct (lp_repr_image _ _ Hlp) as (num & slack & Heq & Hnum & Hin & Hencs & Hslack & Hmax).
  pose proof Hencs as Hencs'. apply Forall_app in Hencs' as [Hpre Hall].
  pose proof (rd_at_end _ _ Hlp) as Hend. rewrite eoff_end in Hend by lia.
  pose proof (lv_total _ _ Hlp) as Htot. change (total_bytes _) with (ctotal (pre ++ group_all gs)) in *.
  rewrite coff_pre by done. unfold lpBatchDelete.
  destruct (group_ptrs _ gs) as [|q ps] eqn:Hps; [done|].
  assert (Hq : q = 6 + Z.of_nat (length (cbody pre))) by (unfold gs in Hps; cbn [group_ptrs] in Hps; congruence).
  rewrite <- Hps, Htot, group_ptrs_length. mstep. rewrite Hend. mstep.
  change (LP_EOF =? LP_EOF) with true. cbn [cassert mbind option_bind].
  set (old := ctotal (pre ++ group_all gs)) in *.
  set (P := image_head old num pre). pose proof (image_head_length old num pre) as HP. fold P in HP.
  assert (Himg : lp = P ++ [] ++ cbody (group_all gs) ++ LP_EOF :: slack).
  { rewrite Heq, image_eof. unfold P, image_head. rewrite cbody_app. by rewrite <- !app_assoc. }
  destruct (batch_delete_loop gs P [] slack Hall ltac:(done) Hgs) as (y & Hy & Hyb & Hrun).
  cbn [app] in Hrun, Himg. rewrite app_nil_r, HP in Hrun. rewrite <- Himg in Hrun.
  assert (Hold : old = Z.of_nat (length (P ++ cbody (group_all gs))) + 1).
  { unfold old. rewrite ctotal_cbody, cbody_app, !length_app. lia. }
  rewrite Hold, Hq, Hrun. mstep. rewrite !length_app. rewrite length_app in Hold.
  set (new := ctotal (pre ++ group_kept gs)).
  assert (Hnew : new = Z.of_nat (length P + length (cbody (group_kept gs))) + 1).
  { unfold new. rewrite ctotal_cbody, cbody_app, length_app. lia. }
  cbn [length] in Hy. rewrite wrapU_id by (unfold inU; zpow; lia).
  replace (_ + 1 - (_ - _)) with new by lia.
  rewrite (app_assoc P), rd_mid by (rewrite length_app; lia). mstep.
  change (LP_EOF =? LP_EOF) with true. cbn [cassert mbind option_bind]. rewrite <- app_assoc. unfold P.
  rewrite set_total_head. mstep. rewrite get_num_head by done. mstep.
  assert (Hnum2 : num_ok num (length (pre ++ (fst <$> gs) ++ group_kept gs))).
  { rewrite !length_app, length_fmap. rewrite length_app, group_lengths in Hnum. done. }
  destruct (num_step_delete 64 num pre (fst <$> gs) (group_kept gs) new
    (cbody (group_kept gs) ++ LP_EOF :: y ++ slack) Hnum2 Hin ltac:(lia)) as (num' & Hset & Hnum' & Hin').
  rewrite length_fmap in Hset. rewrite Hset. mstep.
  replace (image_head new num' pre ++ _) with (lp_image num' (pre ++ group_kept gs) (y ++ slack)).
  2: { rewrite image_eof. unfold image_head. rewrite cbody_app. by rewrite <- !app_assoc. }
  assert (Hok' : Forall enc_ok (pre ++ group_kept gs)) by (apply Forall_app_2; auto using group_kept_ok).
  destruct (shrink_image num' (pre ++ group_kept gs) (y ++ slack)) as (slack' & -> & Hs'); try done.
  { by apply Forall_app_2. } { fold new. lia. }
  eexists. split; [done|]. apply image_repr; try done. fold new. lia.
Qed.
End bulk.
