(* ===== verification/ListpackSpec.v ===== *)
(** * Listpacks: the contract

    What a client of listpack.c may rely on: the walk in both directions, the
    access by index and the search over any valid listpack, and the creation of
    listpacks by appending. The theorems of the other listpack files are applied
    here to concrete listpacks. *)

From S2P Require Import Prelude Gf2 Numstr Listpack ListpackCodec ListpackNav ListpackSafe ListpackOps ListpackBulk.

#[local] Open Scope Z_scope.

(** ** Reading *)

(** C12: the walk visits the entries of a valid listpack and nothing else: the
    first and the last pointer are those of the first and the last entry, or
    [NULL] in an empty listpack; from every entry, forward and backward lead to
    its neighbours, or to [NULL] at the ends, and the entry reads as its
    element; [lpLength] is the number of entries, whether the header has it or
    it has to be counted, and then the header gets it when it fits. *)
Theorem lp_walk lp ents :
  lp_valid lp ents ->
  lpFirst lp = Some (eptr ents 0) /\
  lpLast lp = Some (eptr ents (length ents - 1)) /\
  (forall i x, ents !! i = Some x ->
     lpNext lp (eoff ents i) = Some (eptr ents (S i)) /\
     lpPrev lp (eoff ents i) = Some (match i with O => None | S j => Some (eoff ents j) end) /\
     reads_as lp (eoff ents i) (elem x)) /\
  exists lp', lpLength lp = Some (Z.of_nat (length ents), lp') /\
    (lp' = lp \/ lpSetNumElements lp (Z.of_nat (length ents)) = Some lp' /\
                  Z.of_nat (length ents) < LP_HDR_NUMELE_UNKNOWN).
Proof.
  intros Hlp. split_and!; [by apply first_ok|by apply last_ok| |by apply length_value].
  intros i x Hx. pose proof (lookup_lt_Some _ _ _ Hx).
  split_and!; [by apply next_ok|apply prev_ok; [done|lia]|by apply get_at].
Qed.

(** [lpSeek] is the access by index, from the front for the indexes from 0
    on and from the back for the negative ones: it returns the pointer to the
    entry, or [NULL] when the index is out of range, whichever end it starts
    the walk from. *)
Theorem lpSeek_correct lp ents index :
  lp_valid lp ents -> inS 64 index ->
  lpSeek lp index =
    (let k := if index <? 0 then Z.of_nat (length ents) + index else index in
     Some (if k <? 0 then None else eptr ents (Z.to_nat k))).
Proof. intros Hlp Hx. by rewrite (seek_ok _ _ Hlp). Qed.

(** [lpFind] returns the first entry whose element matches the string,
    among the entry it starts from and then every entry after [skip] others;
    an element that is stored as an integer matches the strings that stand for
    it, and the conversion of the string is cached on the way. *)
Theorem lpFind_correct lp ents s skip :
  lp_valid lp ents -> Z.of_nat skip < 2 ^ 31 ->
  lpFind lp None s (Z.of_nat skip) = Some (eoff ents <$> find_index skip 0 s (elem <$> ents)) /\
  forall i, (i < length ents)%nat ->
    lpFind lp (Some (eoff ents i)) s (Z.of_nat skip) =
      Some ((fun j => eoff ents (i + j)) <$> find_index skip 0 s (elem <$> drop i ents)).
Proof.
  intros Hlp Hs. split; [by apply find_first_ok|]. intros i Hi. by apply find_from_ok.
Qed.

(** ** Building *)

Section build.
Context `{A : Allocator} `{!AllocatorLaws A}.

Lemma new_repr capacity : 0 <= capacity < 2 ^ 63 -> exists lp, lpNew capacity = Some lp /\ lp_repr lp [].
Proof.
  intros Hc. unfold lpNew, lp_malloc, malloc_usable. set (n := if capacity >? _ then _ else _).
  assert (Hn : 7 <= n < 2 ^ 63) by (unfold n, LP_HDR_SIZE; destruct (capacity >? 6 + 1) eqn:E; zbool; split; try lia; zpow; lia).
  pose proof (usable_ge n ltac:(lia)) as Hu.
  destruct (mrealloc_keep junk [] [] (usable n)) as (m & Heq & Hm & Hlen);
    [apply junk_byte|done|cbn [length]; lia|]. cbn [app] in *. rewrite Heq. clear Heq.
  destruct m as [|a0 [|a1 [|a2 [|a3 [|b0 [|b1 [|x R]]]]]]]; simpl in Hlen; try lia.
  change (a0 :: _) with ([a0; a1; a2; a3] ++ [b0; b1] ++ x :: R).
  rewrite set_total by done. mstep.
  rewrite set_num by done. mstep. rewrite app_assoc, wr_next by done.
  eexists. split; [done|].
  replace ((_ ++ _) ++ R) with (lp_image 0 [] R) by done. apply image_repr; try done.
  - by right.
  - do 6 apply Forall_cons_1 in Hm as [_ Hm]. by apply Forall_cons_1 in Hm as [_ Hm].
Qed.

(** Pushing a string at either end *)
Lemma push_repr lp encs s (front : bool) :
  lp_repr lp encs -> Forall is_byte s -> Z.of_nat (length s) < 2 ^ 32 ->
  let e := enc_of (ele_of_string s) in
  let encs' := if front then e :: encs else encs ++ [e] in
  let r := if front then lpPrepend lp s else lpAppend lp s in
  if ctotal encs' >? UINT32_MAX then r = Some None
  else exists lp' newp, r = Some (Some (lp', newp)) /\ lp_repr lp' encs'.
Proof.
  intros Hlp Hs Hl e encs' r.
  assert (Happ : forall encs', lp_repr lp encs' -> lpAppend lp s = lpInsertString lp s (coff encs' (length encs')) LP_BEFORE).
  { intros l Hrep. unfold lpAppend, lpInsertString, coff. rewrite (lv_total _ _ Hrep).
    mstep. by rewrite eoff_end by (by rewrite length_fmap). }
  assert (Hrun : r = lpInsertString lp s (coff encs (if front then 0 else length encs)%nat) LP_BEFORE).
  { unfold r. destruct front; [|by apply Happ]. unfold lpPrepend. rewrite (first_ok _ _ Hlp).
    mstep. unfold eptr. rewrite length_fmap. destruct (decide _) as [|Hz]; [done|].
    rewrite (Happ encs Hlp). by destruct encs; [|simpl in Hz; lia]. }
  pose proof (insert_index lp encs _ _ _ (if front then 0 else length encs)%nat LP_BEFORE Hlp
    (NewString s Hs Hl)) as Hins. cbn [insert_range list_insert_at] in Hins. fold e in Hins.
  replace (take _ encs ++ [e] ++ drop _ encs) with encs' in Hins.
  2: { unfold encs'. destruct front; [done|]. by rewrite take_ge, drop_ge by done. }
  specialize (Hins ltac:(destruct front; lia)). rewrite Hrun. unfold lpInsertString.
  destruct (_ >? _); [done|]. destruct Hins as (lp' & Hr & Hrep). eauto.
Qed.

(** A listpack as a double ended queue: the pushes of a client, and the list
    they build *)
Fixpoint lp_push_all (lp : list Z) (ops : list (bool * list Z)) : option (option (list Z)) :=
  match ops with
  | [] => Some (Some lp)
  | (front, s) :: ops =>
      r ← (if front then lpPrepend lp s else lpAppend lp s);
      match r with
      | None => Some None
      | Some (lp, _) => lp_push_all lp ops
      end
  end.

Fixpoint push_all (l : list (list Z)) (ops : list (bool * list Z)) : list (list Z) :=
  match ops with
  | [] => l
  | (front, s) :: ops => push_all (if front then s :: l else l ++ [s]) ops
  end.

Definition string_ok (s : list Z) : Prop := Forall is_byte s /\ Z.of_nat (length s) < 2 ^ 32.

Lemma push_all_ok l ops :
  Forall string_ok l -> Forall string_ok (snd <$> ops) -> Forall string_ok (push_all l ops).
Proof.
  revert l. induction ops as [|[front s] ops IH]; intros l Hl Hops; cbn [push_all]; [done|].
  apply Forall_cons in Hops as [Hs Hops]. apply IH; [|done]. destruct front; [by constructor|].
  apply Forall_app_2; auto.
Qed.

(** The encodings of a list of strings *)
Definition encs_of (l : list (list Z)) : list (list Z) := (fun s => enc_of (ele_of_string s)) <$> l.

Lemma ctotal_push encs e (front : bool) : ctotal encs <= ctotal (if front then e :: encs else encs ++ [e]).
Proof.
  change (e :: encs) with ([e] ++ encs).
  destruct front; rewrite !ctotal_cbody, cbody_app, length_app; lia.
Qed.

Lemma ctotal_push_all l ops : ctotal (encs_of l) <= ctotal (encs_of (push_all l ops)).
Proof.
  revert l. induction ops as [|[front s] ops IH]; intros l; cbn [push_all]; [done|].
  etransitivity; [|apply IH]. unfold encs_of. etransitivity; [by apply (ctotal_push _ (enc_of (ele_of_string s)) front)|].
  destruct front; by rewrite ?fmap_app.
Qed.

Lemma push_all_repr ops lp l :
  lp_repr lp (encs_of l) -> Forall string_ok (snd <$> ops) ->
  if ctotal (encs_of (push_all l ops)) >? UINT32_MAX then lp_push_all lp ops = Some None
  else exists lp', lp_push_all lp ops = Some (Some lp') /\ lp_repr lp' (encs_of (push_all l ops)).
Proof.
  revert lp l. induction ops as [|[front s] ops IH]; intros lp l Hlp Hops; cbn [push_all lp_push_all].
  { pose proof (lv_max _ _ Hlp). change (total_bytes _) with (ctotal (encs_of l)) in *.
    rewrite Z.gtb_ltb, (proj2 (Z.ltb_ge _ _)) by done. eauto. }
  apply Forall_cons in Hops as [[Hs Hl] Hops]. cbn [snd] in Hs, Hl.
  set (l' := if front then s :: l else l ++ [s]).
  assert (Henc : encs_of l' = if front then enc_of (ele_of_string s) :: encs_of l
                              else encs_of l ++ [enc_of (ele_of_string s)]).
  { unfold l', encs_of. destruct front; by rewrite ?fmap_app. }
  pose proof (push_repr lp (encs_of l) s front Hlp Hs Hl) as Hpush. cbv zeta in Hpush. rewrite <- Henc in Hpush.
  pose proof (ctotal_push_all l' ops) as Hmono. destruct (ctotal (encs_of l') >? UINT32_MAX) eqn:E; zbool.
  - rewrite Hpush. rewrite Z.gtb_ltb, (proj2 (Z.ltb_lt _ _)) by lia. done.
  - destruct Hpush as (lp' & newp & -> & Hlp'). mstep. by apply IH.
Qed.

(** C13: a listpack is a double ended queue of strings. From a new listpack of
    any capacity, any sequence of strings pushed at either end gives the list
    they build, or [NULL] when it would not fit in 32 bits; the access by index
    finds each of the strings, and none after the last, and [lpGet] gives its
    characters back, also when it is stored as an integer. *)
Theorem lp_deque_roundtrip capacity ops intbuf :
  0 <= capacity < 2 ^ 63 -> Forall string_ok (snd <$> ops) -> length intbuf = Z.to_nat LP_INTBUF_SIZE ->
  exists lp, lpNew capacity = Some lp /\
  let l := push_all [] ops in
  if ctotal (encs_of l) >? UINT32_MAX then lp_push_all lp ops = Some None
  else exists lp', lp_push_all lp ops = Some (Some lp') /\
    forall i : nat, Z.of_nat i < 2 ^ 63 ->
      match l !! i with
      | None => lpSeek lp' (Z.of_nat i) = Some None
      | Some s => exists p r, lpSeek lp' (Z.of_nat i) = Some (Some p) /\
          lpGet lp' p (Some intbuf) = Some (r, Z.of_nat (length s)) /\
          ptr_bytes lp' r (Z.of_nat (length s)) = Some s
      end.
Proof.
  intros Hc Hops Hbuf. destruct (new_repr capacity Hc) as (lp & Hnew & Hlp). exists lp. split; [done|].
  pose proof (push_all_repr ops lp [] Hlp Hops) as Hpush. cbv zeta. set (l := push_all [] ops) in *.
  destruct (_ >? _); [done|]. destruct Hpush as (lp' & Hrun & Hlp'). exists lp'. split; [done|].
  intros i Hi. rewrite (seek_ok _ _ Hlp') by (unfold inS; zpow; lia). unfold seek_index.
  rewrite !(proj2 (Z.ltb_ge (Z.of_nat i) 0)), Nat2Z.id by lia. unfold eptr, encs_of. rewrite !length_fmap.
  destruct (l !! i) as [s|] eqn:Hs.
  - pose proof (lookup_lt_Some _ _ _ Hs). rewrite decide_True by done.
    assert (He : encs_of l !! i = Some (enc_of (ele_of_string s))) by (unfold encs_of; by rewrite list_lookup_fmap, Hs).
    destruct (repr_at _ _ _ _ Hlp' He) as (P & R & Heq & HP).
    pose proof (element_fits _ _ _ _ Hlp' He) as Hfit. rewrite Heq.
    destruct (lpGet_string P R s intbuf (coff (encs_of l) i)) as (r & Hget & Hbytes); try done.
    { assert (Hall : Forall string_ok l); [|by apply (Forall_lookup_1 _ _ _ _ Hall Hs)].
      by apply push_all_ok. }
    exists (coff (encs_of l) i), r. done.
  - apply lookup_ge_None in Hs. by rewrite decide_False by lia.
Qed.
End build.

(** ** The theorems on concrete listpacks *)

(** [hello] and -1234, with two spare bytes *)
Definition lp_ex_strings : list (list Z) := [[104; 101; 108; 108; 111]; [45; 49; 50; 51; 52]].
Definition lp_ex_encs : list (list Z) := encs_of lp_ex_strings.
Definition lp_ex : list Z := lp_image 2 lp_ex_encs [0xAA; 0xAA].

Ltac bytes_ok := repeat constructor; unfold is_byte; lia.

Lemma lp_ex_encs_ok : Forall enc_ok lp_ex_encs.
Proof.
  assert (forall s, string_ok s -> Z.of_nat (length s) < 2 ^ 31 -> enc_ok (enc_of (ele_of_string s))) as H.
  { intros s [Hs _] Hl. apply enc_of_ok, ele_of_string_ok; [done|revert Hl; zpow; lia]. }
  unfold lp_ex_encs, encs_of, lp_ex_strings. rewrite !fmap_cons.
  apply Forall_cons_2; [|apply Forall_cons_2; [|apply Forall_nil_2]]; (apply H; [split; [bytes_ok|done]|done]).
Qed.

Lemma lp_ex_num num slack : num_ok num 2 -> inU 16 num -> Forall is_byte slack ->
  lp_repr (lp_image num lp_ex_encs slack) lp_ex_encs.
Proof. intros. apply image_repr; try done. apply lp_ex_encs_ok. Qed.

Lemma lp_ex_repr : lp_repr lp_ex lp_ex_encs.
Proof. apply lp_ex_num; [by right|by split|bytes_ok]. Qed.

Definition lp_ex_ents : list (list Z * list Z) := canon <$> lp_ex_encs.

(** Evaluates a part of a hypothesis. *)
Ltac eval_in H t v := replace t with v in H by (vm_compute; reflexivity).

Lemma lp_walk_witness :
  lpNext lp_ex 6 = Some (Some 13) /\ lpPrev lp_ex 13 = Some (Some 6) /\ lpFirst lp_ex = Some (Some 6).
Proof.
  destruct (lp_walk lp_ex lp_ex_ents lp_ex_repr) as (H1 & _ & H2 & _).
  destruct (H2 0%nat _ eq_refl) as (H3 & _ & _). destruct (H2 1%nat _ eq_refl) as (_ & H4 & _).
  eval_in H1 (eptr lp_ex_ents 0) (Some 6). eval_in H3 (eoff lp_ex_ents 0) 6. eval_in H3 (eptr lp_ex_ents 1) (Some 13).
  eval_in H4 (eoff lp_ex_ents 1) 13. eval_in H4 (eoff lp_ex_ents 0) 6. by split_and!.
Defined.

Lemma lpSeek_correct_witness : lpSeek lp_ex (-1) = Some (Some 13) /\ lpSeek lp_ex 2 = Some None.
Proof.
  pose proof (lpSeek_correct lp_ex lp_ex_ents (-1) lp_ex_repr ltac:(by split)) as H1.
  pose proof (lpSeek_correct lp_ex lp_ex_ents 2 lp_ex_repr ltac:(by split)) as H2.
  cbv zeta in H1, H2. eval_in H1 (-1 <? 0) true. eval_in H2 (2 <? 0) false. cbv iota in H1, H2.
  eval_in H1 (Z.of_nat (length lp_ex_ents) + -1) 1. eval_in H2 (2 <? 0) false. eval_in H1 (1 <? 0) false.
  eval_in H1 (eptr lp_ex_ents (Z.to_nat 1)) (Some 13). eval_in H2 (eptr lp_ex_ents (Z.to_nat 2)) (@None Z).
  by split.
Defined.

Lemma lpFind_correct_witness : lpFind lp_ex None [45; 49; 50; 51; 52] 0 = Some (Some 13).
Proof.
  pose proof (proj1 (lpFind_correct lp_ex lp_ex_ents [45; 49; 50; 51; 52] 0 lp_ex_repr ltac:(done))) as H.
  eval_in H (eoff lp_ex_ents <$> find_index 0 0 [45; 49; 50; 51; 52] (elem <$> lp_ex_ents)) (Some 13). exact H.
Defined.

Lemma lp_deque_roundtrip_witness :
  exists lp, lpNew (H:=block_allocator) 0 = Some lp /\
    exists lp', lp_push_all (A:=block_allocator) lp [(false, [49; 50]); (true, [97])] = Some (Some lp') /\
      exists p r, lpSeek lp' 1 = Some (Some p) /\ lpGet lp' p (Some (replicate 21 0)) = Some (r, 2) /\
        ptr_bytes lp' r 2 = Some [49; 50].
Proof.
  destruct (@lp_deque_roundtrip block_allocator block_allocator_laws 0 [(false, [49; 50]); (true, [97])]
    (replicate 21 0)) as (lp & Hnew & Hpush); [done| |done|].
  { repeat constructor; try bytes_ok. }
  cbv zeta in Hpush. replace (_ >? _) with false in Hpush by (vm_compute; reflexivity).
  exists lp. split; [exact Hnew|]. destruct Hpush as (lp' & Hrun & Hget). exists lp'. split; [exact Hrun|].
  apply (Hget 1%nat). done.
Defined.

Lemma lpGetWithSize_agrees_witness :
  lpGetWithSize lp_ex 6 None 0 = Some (PLp 7, 5, 7) /\ lpSkip lp_ex 6 = Some (6 + 7).
Proof.
  assert (H : Forall is_byte lp_ex) by (apply lp_ex_repr).
  split; [reflexivity|].
  apply (proj2 (lpGetWithSize_agrees lp_ex 6 None 0 H) 0x85 (PLp 7) 5 7); try done.
Defined.

Lemma lpValidateIntegrity_exact_witness :
  lpValidateIntegrity (U:=unit) None (lp_image 2 lp_ex_encs []) 17 true () = Some (true, ()).
Proof.
  assert (Hr : lp_repr (lp_image 2 lp_ex_encs []) lp_ex_encs) by (apply lp_ex_num; [by right|by split|done]).
  apply (proj2 (proj2 (lpValidateIntegrity_exact (lp_image 2 lp_ex_encs []) (lv_bytes _ _ Hr)))).
  exists lp_ex_ents. split; [exact Hr|reflexivity].
Defined.

Lemma lpInsertString_refines_witness :
  exists lp', lpInsertString (H:=block_allocator) lp_ex [55] 13 LP_BEFORE = Some (Some (lp', Some 13)) /\
    exists r, lpGet lp' 13 (Some (replicate 21 0)) = Some (r, 1) /\ ptr_bytes lp' r 1 = Some [55].
Proof.
  pose proof (@lpInsertString_refines block_allocator block_allocator_laws lp_ex lp_ex_encs [55] 1 LP_BEFORE
    (replicate 21 0) lp_ex_repr) as H.
  cbv zeta in H. replace (ctotal _ >? _) with false in H by (vm_compute; reflexivity).
  destruct H as (lp' & Hrun & _ & Hget); [bytes_ok|done|simpl; lia|done|]. exists lp'. split; [exact Hrun|exact Hget].
Defined.

Lemma lpInsertInteger_refines_witness :
  exists lp', lpInsertInteger (H:=block_allocator) lp_ex 100000 6 LP_REPLACE = Some (Some (lp', Some 6)) /\
    lpGet lp' 6 None = Some (PNull, 100000).
Proof.
  pose proof (@lpInsertInteger_refines block_allocator block_allocator_laws lp_ex lp_ex_encs 100000 0 LP_REPLACE
    lp_ex_repr) as H.
  cbv zeta in H. replace (ctotal _ >? _) with false in H by (vm_compute; reflexivity).
  destruct H as (lp' & Hrun & _ & Hget); [by split|simpl; lia|]. exists lp'. split; [exact Hrun|exact Hget].
Defined.

Lemma lpDelete_refines_witness :
  exists lp', lpDelete (H:=block_allocator) lp_ex 6 = Some (Some (lp', Some 6)) /\ lp_repr lp' (drop 1 lp_ex_encs).
Proof. apply (@lpDelete_refines block_allocator block_allocator_laws lp_ex lp_ex_encs 0 lp_ex_repr). simpl. lia. Defined.

Lemma lpDeleteRange_refines_witness :
  exists lp', lpDeleteRange (H:=block_allocator) lp_ex (-1) 3 = Some lp' /\ lp_repr lp' (take 1 lp_ex_encs).
Proof.
  apply (@lpDeleteRange_refines block_allocator block_allocator_laws lp_ex lp_ex_encs (-1) 3 lp_ex_repr); by split.
Defined.

Lemma lpMerge_refines_witness :
  exists lp', lp_repr lp' (lp_ex_encs ++ lp_ex_encs) /\
    lpMerge (H:=block_allocator) (Some lp_ex) (Some lp_ex) false = Some (Some lp', Some lp', None).
Proof.
  pose proof (proj1 (@lpMerge_refines block_allocator block_allocator_laws lp_ex lp_ex lp_ex_encs lp_ex_encs
    lp_ex_repr lp_ex_repr)) as H.
  eval_in H (ctotal (lp_ex_encs ++ lp_ex_encs) <? UINT32_MAX) true. cbv iota in H.
  eval_in H (ctotal lp_ex_encs >=? ctotal lp_ex_encs) true. exact H.
Defined.

Lemma lpBatchInsert_refines_witness :
  exists lp', lpBatchInsert (H:=block_allocator) lp_ex 13 LP_BEFORE [LpInteger 5; LpString [97]] =
    Some (Some (lp', Some 15)) /\ lp_repr lp' (take 1 lp_ex_encs ++ [int_enc 5; str_enc [97]] ++ drop 1 lp_ex_encs).
Proof.
  pose proof (@lpBatchInsert_refines block_allocator block_allocator_laws lp_ex lp_ex_encs
    [LpInteger 5; LpString [97]] 1 LP_BEFORE lp_ex_repr) as H.
  cbv zeta in H. replace (ctotal _ >? _) with false in H by (vm_compute; reflexivity).
  apply H; try done; [|simpl; lia]. repeat constructor; bytes_ok.
Defined.

Lemma lpBatchDelete_refines_witness :
  exists lp', lpBatchDelete (H:=block_allocator) lp_ex [6; 13] = Some lp' /\ lp_repr lp' [].
Proof.
  set (gs := (fun e : list Z => (e, [] : list (list Z))) <$> lp_ex_encs).
  assert (Hall : group_all gs = lp_ex_encs) by (vm_compute; reflexivity).
  pose proof (@lpBatchDelete_refines block_allocator block_allocator_laws lp_ex [] gs) as H.
  cbn [app length] in H. rewrite Hall in H. specialize (H lp_ex_repr).
  eval_in H (group_ptrs (coff lp_ex_encs 0) gs) [6; 13]. eval_in H (group_kept gs) (@nil (list Z)). exact H.
Defined.
