(* ===== verification/Zset.v ===== *)
(** * Sorted sets ([t_zset.c]): the two views of a large set

    A large sorted set is a skip list, ordered by score, and a hash table from
    the names to the nodes of that list. The operations of the common API are
    modelled for this encoding; they keep the two views in step.

    A stored key of the hash table is the address of a node, whose name the
    callback [zslGetNodeElementForDict] reads; the name of a node does not
    change while the node is allocated, so the model keeps it beside the
    address. Names are shorter than 2^31 bytes, because the comparison of keys
    ([dictSdsKeyCompare]) takes their lengths as [int]. *)

From stdpp Require Import gmap sorting.
From S2P Require Import Prelude Numstr Sds Object Zskiplist ZskiplistInv ZskiplistOps ZskiplistRank Dict DictOps.

#[local] Open Scope Z_scope.

(** ** Addition of doubles *)

Definition dbl_inf : Z := 0x7FF0000000000000.
Definition dbl_nan : Z := 0x7FF8000000000000.
Definition dbl_sign : Z := Z.shiftl 1 63.

Definition isinf (d : Z) : bool := dbl_magnitude d =? dbl_inf.

(** A finite double as a multiple of the smallest one, 2^-1074 *)
Definition dbl_units (d : Z) : Z :=
  let e := Z.shiftr (dbl_magnitude d) 52 in
  let f := Z.land d (Z.ones 52) in
  let a := if e =? 0 then f else (2 ^ 52 + f) * 2 ^ (e - 1) in
  if Z.testbit d 63 then - a else a.

(** The magnitude of the double nearest to [a] units, ties to even. Below 2^53
    units the encoding is the number of units. *)
Definition dbl_round (a : Z) : Z :=
  if a <? 2 ^ 53 then a
  else
    let k := Z.log2 a - 52 in
    let q := Z.shiftr a k in
    let r := a - Z.shiftl q k in
    let half := Z.shiftl 1 (k - 1) in
    let q := if (r >? half) || ((r =? half) && Z.odd q) then q + 1 else q in
    Z.min (Z.shiftl k 52 + q) dbl_inf.

Definition dbl_add (x y : Z) : Z :=
  if isnan x || isnan y then dbl_nan
  else if isinf x then (if isinf y && negb (dbl_key x =? dbl_key y) then dbl_nan else x)
  else if isinf y then y
  else
    let s := dbl_units x + dbl_units y in
    if s =? 0 then (if Z.testbit x 63 && Z.testbit y 63 then dbl_sign else 0)
    else if s <? 0 then Z.lor dbl_sign (dbl_round (- s)) else dbl_round s.

(** ** The type of the hash table *)

(** Names *)
Definition name : Type := dsig (fun s : list Z => Z.of_nat (length s) < 2 ^ 31).

Definition text (k : name) : list Z := `k.

Definition to_name (s : list Z) : option name :=
  match decide (Z.of_nat (length s) < 2 ^ 31) with left H => Some (dexist s H) | right _ => None end.

Definition dictSdsKeyCompare (key1 key2 : list Z) : bool :=
  let l1 := s32 (Z.of_nat (length key1)) in
  let l2 := s32 (Z.of_nat (length key2)) in
  if negb (l1 =? l2) then false
  else memcmp (take (Z.to_nat (u64 l1)) key1) (take (Z.to_nat (u64 l1)) key2) =? 0.

(** The dict stores nodes: an address and the name in it. *)
Definition stored : Type := positive * name.
Definition addr (sk : stored) : positive := fst sk.

(** [dictSdsHash], a keyed hash of the bytes *)
Class SdsHash := { dictSdsHash : list Z -> Z; dictSdsHash_range s : inU 64 (dictSdsHash s) }.

#[export] Instance zsetDictType `{SdsHash} : dictType stored name unit := {
  hashFunction k := dictSdsHash (text k);
  keyCompare k1 k2 := dictSdsKeyCompare (text k1) (text k2);
  keyFromStoredKey sk := snd sk;
  resizeAllowed _ _ _ := true;
  no_value := true;
  force_full_rehash := false
}.

Record zset := mkZset { zs_dict : dict stored unit; zs_mem : zmem }.

Definition ZADD_IN_INCR : Z := Z.shiftl 1 0.
Definition ZADD_IN_NX : Z := Z.shiftl 1 1.
Definition ZADD_IN_XX : Z := Z.shiftl 1 2.
Definition ZADD_IN_GT : Z := Z.shiftl 1 3.
Definition ZADD_IN_LT : Z := Z.shiftl 1 4.
Definition ZADD_OUT_NOP : Z := Z.shiftl 1 0.
Definition ZADD_OUT_NAN : Z := Z.shiftl 1 1.
Definition ZADD_OUT_ADDED : Z := Z.shiftl 1 2.
Definition ZADD_OUT_UPDATED : Z := Z.shiftl 1 3.

Definition flag (flags bit : Z) : bool := negb (Z.land flags bit =? 0).

Section zset.
Context `{AL : Allocator} `{SH : SdsHash}.
(** Whether tables may be resized, and what fresh memory holds *)
Context (g : dictResizeEnable) (raw : nat -> zskiplistLevel).

(** [p] is the address of the header. *)
Definition createZsetObject (p : positive) : option zset := m ← zslCreate p; Some (mkZset dictCreate m).

Definition zsetLength (zs : zset) : Z := zlength (zsl (zs_mem zs)).

(** The score of the member; [None] inside is [C_ERR]. The lookup may move
    entries of the table. *)
Definition zsetScore (zs : zset) (member : name) : option (zset * option Z) :=
  '(d, de) ← dictFind g (zs_dict zs) member;
  let zs := mkZset d (zs_mem zs) in
  match de with
  | Null => Some (zs, None)
  | _ => znode ← dictGetKey de; nd ← nodes (zs_mem zs) !! addr znode; Some (zs, Some (score nd))
  end.

Record zadd_result := mkAdd { za_ret : bool; za_flags : Z; za_newscore : option Z }.

(** An element that exists *)
Definition zset_update (d : dict stored unit) (m : zmem) (link : dictEntryLink) (sc in_flags : Z) : option (zset * zadd_result) :=
  let zs := mkZset d m in
  de ← entry_at d link;
  if flag in_flags ZADD_IN_NX then Some (zs, mkAdd true ZADD_OUT_NOP None)
  else
    znode ← dictGetKey de;
    nd ← nodes m !! addr znode;
    let curscore := score nd in
    let incr := flag in_flags ZADD_IN_INCR in
    let sc := if incr then dbl_add sc curscore else sc in
    if incr && isnan sc then Some (zs, mkAdd false ZADD_OUT_NAN None)
    else if (flag in_flags ZADD_IN_LT && dbl_le curscore sc) || (flag in_flags ZADD_IN_GT && dbl_le sc curscore)
    then Some (zs, mkAdd true ZADD_OUT_NOP None)
    else if negb (dbl_eq sc curscore) then
      m ← zslUpdateScore m (addr znode) sc;
      Some (mkZset d m, mkAdd true ZADD_OUT_UPDATED (Some sc))
    else Some (zs, mkAdd true 0 (Some sc)).

(** [p] is the address that the allocator gives to a new node, [rs] are the
    numbers that [random] returns. *)
Definition zsetAdd (zs : zset) (p : positive) (rs : list Z) (sc : Z) (ele : name) (in_flags : Z)
    : option (zset * zadd_result) :=
  if isnan sc then Some (zs, mkAdd false ZADD_OUT_NAN None)
  else
    '(d, link, bucket) ← dictFindLinkBucket g (zs_dict zs) ele;
    match link with
    | Some link => zset_update d (zs_mem zs) link sc in_flags
    | None =>
        if negb (flag in_flags ZADD_IN_XX) then
          m ← zslInsert raw rs (zs_mem zs) p sc (text ele);
          d ← dictSetKeyAtLink g d (p, ele) bucket;
          Some (mkZset d m, mkAdd true ZADD_OUT_ADDED (Some sc))
        else Some (mkZset d (zs_mem zs), mkAdd true ZADD_OUT_NOP None)
    end.

Definition zsetRemoveFromSkiplist (zs : zset) (ele : name) : option (zset * bool) :=
  '(d, de) ← dictUnlink g (zs_dict zs) ele;
  match de with
  | Null => Some (mkZset d (zs_mem zs), false)
  | _ => znode ← dictGetKey de; m ← zslDelete (zs_mem zs) (addr znode); Some (mkZset d m, true)
  end.

Definition zsetDel (zs : zset) (ele : name) : option (zset * bool) := zsetRemoveFromSkiplist zs ele.

(** The 0-based rank, with the score, or -1 *)
Definition zsetRank (zs : zset) (ele : name) (reverse : bool) : option (zset * (Z * option Z)) :=
  let llen := zsetLength zs in
  '(d, de) ← dictFind g (zs_dict zs) ele;
  let zs := mkZset d (zs_mem zs) in
  match de with
  | Null => Some (zs, (-1, None))
  | _ =>
      n ← dictGetKey de;
      rank ← zslGetRankByNode (zs_mem zs) (addr n);
      _ ← cassert (negb (rank =? 0));
      nd ← nodes (zs_mem zs) !! addr n;
      Some (zs, (s64 (if reverse then u64 (llen - rank) else u64 (rank - 1)), Some (score nd)))
  end.

(** ** Deletion of a range *)

Definition set_pauseAutoResize (d : dict stored unit) (n : Z) : dict stored unit :=
  mkDict (ht0 d) (ht1 d) (rehashidx d) (pauserehash d) n (calls d).
Definition dictPauseAutoResize (d : dict stored unit) : dict stored unit := set_pauseAutoResize d (s16 (pauseAutoResize d + 1)).
Definition dictResumeAutoResize (d : dict stored unit) : dict stored unit := set_pauseAutoResize d (s16 (pauseAutoResize d - 1)).

(** [dictDelete(dict, zslGetNodeElement(x))]: the loops of the skip list pass
    the table along. *)
Definition drop_name (d : option (dict stored unit)) (el : list Z) : option (dict stored unit) :=
  d ← d;
  ele ← to_name el;
  '(_, d) ← dictDelete g d ele;
  Some d.

Inductive zrange_type := ZRANGE_RANK (start end_ : Z) | ZRANGE_SCORE (range : zrangespec) | ZRANGE_LEX (lexrange : zlexrangespec).

(** The sanitized indexes, or [None] when the range is empty *)
Definition sanitize (llen start end_ : Z) : option (Z * Z) :=
  let start := if start <? 0 then llen + start else start in
  let end_ := if end_ <? 0 then llen + end_ else end_ in
  let start := if start <? 0 then 0 else start in
  if (start >? end_) || (start >=? llen) then None
  else Some (start, if end_ >=? llen then llen - 1 else end_).

(** The deletion of [zremrangeGenericCommand], once the arguments are parsed
    and the set is found: the number of elements deleted, and whether none is
    left. [zslDeleteRangeByRank] takes its ranks as [unsigned int]. *)
Definition zremrangeGeneric (zs : zset) (rangetype : zrange_type) : option (zset * (Z * bool)) :=
  match (match rangetype with
         | ZRANGE_RANK start end_ =>
             '(start, end_) ← sanitize (s64 (zsetLength zs)) start end_; Some (ZRANGE_RANK start end_)
         | _ => Some rangetype
         end) with
  | None => Some (zs, (0, false))
  | Some rangetype =>
      let d := dictPauseAutoResize (zs_dict zs) in
      '(m, d, deleted) ←
        (match rangetype with
         | ZRANGE_RANK start end_ => zslDeleteRangeByRank drop_name (zs_mem zs) (u32 (start + 1)) (u32 (end_ + 1)) (Some d)
         | ZRANGE_SCORE range => zslDeleteRangeByScore drop_name (zs_mem zs) range (Some d)
         | ZRANGE_LEX lexrange => zslDeleteRangeByLex drop_name (zs_mem zs) lexrange (Some d)
         end);
      d ← d;
      let d := dictResumeAutoResize d in
      if dictSize d =? 0 then Some (mkZset d m, (deleted, true))
      else '(_, d) ← dictShrinkIfNeeded g d; Some (mkZset d m, (deleted, false))
  end.
End zset.
