(* ===== verification/ZsetSpec.v ===== *)
(** * Sorted sets: the skip list and the hash table stay in step

    What a large sorted set represents is the sorted sequence of its elements.
    The operations are proved to implement the ones on sequences, against the
    lemmas of the two structures. *)

From stdpp Require Import gmap sorting.
From S2P Require Import Prelude Object Zskiplist ZskiplistInv ZskiplistOps ZskiplistRank ZskiplistRange ZskiplistSpec Dict DictOps Zset.

#[local] Open Scope Z_scope.

(** ** Names *)

#[export] Instance name_eq_dec : EqDecision name.
Proof. unfold name. apply _. Defined.

#[export] Instance name_countable : Countable name.
Proof. unfold name. apply _. Defined.

Lemma name_length (k : name) : Z.of_nat (length (text k)) < 2 ^ 31.
Proof. exact (proj2_dsig k). Qed.

Lemma name_inj (k1 k2 : name) : text k1 = text k2 -> k1 = k2.
Proof. apply dsig_eq. Qed.

Lemma to_name_ok (k : name) : to_name (text k) = Some k.
Proof.
  unfold to_name. destruct (decide _) as [H|H]; [|by pose proof (name_length k)]. f_equal. by apply name_inj.
Qed.

Lemma memcmp_eq (a b : list Z) : length a = length b -> memcmp a b = 0 <-> a = b.
Proof.
  revert b. induction a as [|x a IH]; intros [|y b] Hl; cbn [memcmp]; try done. injection Hl as Hl.
  destruct (Z.ltb_spec x y) as [H|H]; [split; [lia|]; intros [= -> ->]; lia|].
  destruct (Z.ltb_spec y x) as [H'|H']; [split; [lia|]; intros [= -> ->]; lia|].
  rewrite IH by done. assert (x = y) as -> by lia. split; [by intros ->|by intros [= ->]].
Qed.

Lemma keyCompare_names (k1 k2 : name) : dictSdsKeyCompare (text k1) (text k2) = bool_decide (k1 = k2).
Proof.
  unfold dictSdsKeyCompare. pose proof (name_length k1). pose proof (name_length k2).
  rewrite !wrapS_id by (unfold inS; cbn; lia). destruct (Z.eqb_spec (Z.of_nat (length (text k1))) (Z.of_nat (length (text k2)))) as [Hl|Hl]; cbn [negb].
  - rewrite wrapU_id by (unfold inU; zpow; lia). rewrite Nat2Z.id. apply Nat2Z.inj in Hl. rewrite !take_ge by lia.
    case_bool_decide as Hk.
    + subst. apply Z.eqb_eq. by apply memcmp_eq.
    + apply Z.eqb_neq. intros Hm. apply Hk, name_inj. by apply memcmp_eq.
  - rewrite bool_decide_false; [done|]. by intros ->.
Qed.

#[export] Instance zsetDictType_laws `{SH : SdsHash} : dictTypeLaws stored name unit zsetDictType.
Proof. split; [apply keyCompare_names|intros k; apply dictSdsHash_range]. Qed.

(** ** The sequence that a sorted set represents *)

Section spec.
Context `{AL : Allocator} `{SH : SdsHash} (g : dictResizeEnable) (raw : nat -> zskiplistLevel).

#[local] Abbreviation table := (dict stored unit).

Implicit Types (d : table) (L : list elem) (k : name) (zs : zset).

(** An entry of the table: the address of a node and its name *)
Definition node_of (x : stored * option unit) : positive * list Z := (addr (fst x), text (snd (fst x))).
Definition elem_node (e : elem) : positive * list Z := (ptr e, e_ele e).

(** The entries of the table are the nodes of the list. *)
Definition indexes d L : Prop := node_of <$> elements d ≡ₚ elem_node <$> L.

Record zset_repr (base : Z) (zs : zset) (H : elem) L : Prop := {
  zr_list : skiplist base (zs_mem zs) H L;
  zr_wf : dict_wf (zs_dict zs);
  zr_index : indexes (zs_dict zs) L
}.

(** The element of a name, and its place *)
Definition member (el : list Z) L : option (nat * elem) := list_find (fun e => e_ele e = el) L.

Lemma member_split A e B : NoDup (e_ele <$> A ++ e :: B) -> member (e_ele e) (A ++ e :: B) = Some (length A, e).
Proof.
  intros Hnd. destruct (nodup_middle e_ele A e B Hnd) as [_ Hout]. apply list_find_Some. split_and!.
  - by apply list_lookup_middle.
  - done.
  - intros j y Hy Hj Heq. apply Hout. rewrite <- Heq. apply list_elem_of_fmap_2. apply elem_of_app. left.
    apply list_elem_of_lookup. exists j. by rewrite lookup_app_l in Hy.
Qed.

Lemma member_none el L : el ∉ e_ele <$> L -> member el L = None.
Proof. intros Hn. apply list_find_None, Forall_forall. intros e He <-. apply Hn. by apply list_elem_of_fmap_2. Qed.

Lemma filter_name A e B :
  NoDup (e_ele <$> A ++ e :: B) -> filter (fun x => e_ele x <> e_ele e) (A ++ e :: B) = A ++ B.
Proof.
  intros Hnd. destruct (nodup_middle e_ele A e B Hnd) as [_ Hout].
  rewrite filter_app, filter_cons_False by tauto. rewrite <- filter_app. apply filter_all.
  apply Forall_forall. intros x Hx Hp. apply Hout. rewrite <- Hp. by apply list_elem_of_fmap_2.
Qed.

Lemma filter_name_none el L : el ∉ e_ele <$> L -> filter (fun x => e_ele x <> el) L = L.
Proof. intros Hn. apply filter_all, Forall_forall. intros e He <-. apply Hn. by apply list_elem_of_fmap_2. Qed.

Lemma zinsert_perm e L : zinsert e L ≡ₚ e :: L.
Proof.
  induction L as [|x L IH]; cbn [zinsert]; [done|]. destruct (decide _); [done|]. rewrite IH. apply perm_swap.
Qed.

Lemma repr_members base zs H L : zset_repr base zs H L -> NoDup (e_ele <$> L).
Proof. intros [Hs _ _]. apply (sk_members _ _ _ (sk_linked _ _ _ _ Hs)). Qed.

Lemma index_length d L : indexes d L -> length (elements d) = length L.
Proof. intros Hi. apply Permutation_length in Hi. by rewrite !length_fmap in Hi. Qed.

Lemma index_step d d' L : step_ok d d' -> indexes d L -> indexes d' L.
Proof. intros Hst. unfold indexes. by rewrite (so_elements _ _ Hst). Qed.

Lemma repr_step base d d' m H L : step_ok d d' -> zset_repr base (mkZset d m) H L -> zset_repr base (mkZset d' m) H L.
Proof. intros Hst [Hs _ Hi]. split; [done|apply Hst|by apply (index_step d)]. Qed.

(** What the table tells of a name *)
Lemma index_hit d L x k :
  indexes d L -> x ∈ elements d -> ekey x = k ->
  exists A e B, L = A ++ e :: B /\ addr (fst x) = ptr e /\ e_ele e = text k.
Proof.
  intros Hi Hx <-. assert (Hin : node_of x ∈ elem_node <$> L) by (rewrite <- Hi; by apply list_elem_of_fmap_2).
  apply list_elem_of_fmap in Hin as (e & He & Hin). apply list_elem_of_split in Hin as (A & B & ->).
  injection He as Hp Hn. exists A, e, B. done.
Qed.

Lemma index_miss d L k : indexes d L -> (forall x, x ∈ elements d -> ekey x <> k) -> text k ∉ e_ele <$> L.
Proof.
  intros Hi Hno (e & Hk & He)%list_elem_of_fmap.
  assert (Hin : elem_node e ∈ node_of <$> elements d) by (rewrite Hi; by apply list_elem_of_fmap_2).
  apply list_elem_of_fmap in Hin as (x & Hx & Hin). apply (Hno x Hin). apply name_inj. injection Hx as _ Hx. by rewrite Hk, Hx.
Qed.

(** ** Lookups *)

(** [dictFind] finds the node of the name. *)
Lemma find_node base d m H L k :
  zset_repr base (mkZset d m) H L ->
  exists d' de, dictFind g d k = Some (d', de) /\ zset_repr base (mkZset d' m) H L /\
    ((de = Null /\ text k ∉ e_ele <$> L) \/
     exists A e B sk, L = A ++ e :: B /\ dictGetKey de = Some sk /\ addr sk = ptr e /\ e_ele e = text k).
Proof.
  intros Hr. pose proof Hr as [Hs Hwf Hi]. cbn [zs_dict zs_mem] in *. unfold dictFind.
  destruct (findLink_ok g d k Hwf) as (d' & found & -> & Hst & Hf). mstep.
  pose proof (repr_step _ _ _ _ _ _ Hst Hr) as Hr'. pose proof (zr_index _ _ _ _ Hr') as Hi'.
  destruct found as [l|].
  - destruct Hf as (x & Hp & Hk). destruct (points_entry d' l x Hp) as (de & -> & Hde). mstep.
    eexists d', de. split; [done|]. split; [done|]. right.
    destruct (index_hit d' L x k Hi' (points_elem _ _ _ Hp) Hk) as (A & e & B & -> & Hpe & Hn). exists A, e, B, (fst x). done.
  - exists d', Null. split; [done|]. split; [done|]. left. split; [done|]. by apply (index_miss d').
Qed.

Lemma repr_node base zs H A e B : zset_repr base zs H (A ++ e :: B) ->
  exists nd, nodes (zs_mem zs) !! ptr e = Some nd /\ score nd = e_score e.
Proof.
  intros [Hs _ _]. destruct (linked_nodes _ H _ e (sk_linked _ _ _ _ Hs)) as (nd & Hn & Hd); [set_solver|].
  exists nd. split; [done|]. apply Hd.
Qed.

Lemma zsetScore_ok base zs H L k :
  zset_repr base zs H L ->
  exists zs', zsetScore g zs k = Some (zs', e_score ∘ snd <$> member (text k) L) /\ zset_repr base zs' H L.
Proof.
  destruct zs as [d m]. intros Hr. pose proof (repr_members _ _ _ _ Hr) as Hnd. unfold zsetScore. cbn [zs_dict zs_mem].
  destruct (find_node base d m H L k Hr) as (d' & de & -> & Hr' & [[-> Hno] | (A & e & B & sk & -> & Hsk & Hp & Hn)]); mstep.
  - rewrite member_none by done. eauto.
  - rewrite <- Hn, member_split by done. destruct (repr_node _ _ _ _ _ _ Hr') as (nd & Hnode & Hsc). cbn [zs_mem] in Hnode.
    destruct de; [done|..]; cbv beta iota; rewrite Hsk; mstep; rewrite Hp, Hnode; mstep; rewrite Hsc; eauto.
Qed.

(** Where an element is, from the front or from the back *)
Definition place (n : nat) (reverse : bool) (i : nat) : Z := Z.of_nat (if reverse then n - 1 - i else i).

Lemma zsetRank_ok base zs H L k reverse :
  zset_repr base zs H L ->
  exists zs', zsetRank g zs k reverse = Some (zs',
      match member (text k) L with
      | Some (i, e) => (place (length L) reverse i, Some (e_score e))
      | None => (-1, None)
      end) /\ zset_repr base zs' H L.
Proof.
  destruct zs as [d m]. intros Hr. pose proof (repr_members _ _ _ _ Hr) as Hnd. unfold zsetRank, zsetLength. cbn [zs_dict zs_mem].
  destruct (find_node base d m H L k Hr) as (d' & de & -> & Hr' & [[-> Hno] | (A & e & B & sk & -> & Hsk & Hp & Hn)]); mstep.
  - rewrite member_none by done. eauto.
  - rewrite <- Hn, member_split by done. destruct (repr_node _ _ _ _ _ _ Hr') as (nd & Hnode & Hsc). cbn [zs_mem] in Hnode.
    pose proof (zr_list _ _ _ _ Hr) as Hs. cbn [zs_mem] in Hs. pose proof (zslGetRankByNode_ok _ _ _ _ _ _ Hs) as Hrank.
    pose proof (sk_length _ _ _ (sk_linked _ _ _ _ Hs)) as Hlen. pose proof (sk_small _ _ _ (sk_linked _ _ _ _ Hs)) as Hsm.
    rewrite length_app in Hlen, Hsm |- *. cbn [length] in Hlen, Hsm |- *.
    set (r := Z.of_nat (length A) + 1) in *.
    assert (Hrk : s64 (if reverse then u64 (zlength (zsl m) - r) else u64 (r - 1)) = place (length A + S (length B)) reverse (length A)).
    { rewrite Hlen. unfold place. destruct reverse; rewrite u64_nat by lia; rewrite wrapS_id by (unfold inS; zpow; lia); lia. }
    destruct de; [done|..]; cbv beta iota; rewrite Hsk; mstep; rewrite Hp, Hrank; mstep; rewrite (proj2 (Z.eqb_neq _ 0)) by lia;
      cbn [negb cassert]; mstep; rewrite Hnode; mstep; rewrite Hsc, Hrk; eauto.
Qed.

(** ** Adding *)

(** What ZADD does to the sequence, and what it reports *)
Definition zadd_spec L (p : positive) (levels : nat) (sc : Z) (el : list Z) (in_flags : Z) : list elem * zadd_result :=
  let nop := (L, mkAdd true ZADD_OUT_NOP None) in
  let nan := (L, mkAdd false ZADD_OUT_NAN None) in
  if isnan sc then nan
  else
    match member el L with
    | Some (_, e) =>
        if flag in_flags ZADD_IN_NX then nop
        else
          let sc := if flag in_flags ZADD_IN_INCR then dbl_add sc (e_score e) else sc in
          if isnan sc then nan
          else match dbl_key sc ?= dbl_key (e_score e) with
               | Lt => if flag in_flags ZADD_IN_GT then nop
                       else (zinsert (rescore e sc) (filter (fun x => e_ele x <> el) L), mkAdd true ZADD_OUT_UPDATED (Some sc))
               | Gt => if flag in_flags ZADD_IN_LT then nop
                       else (zinsert (rescore e sc) (filter (fun x => e_ele x <> el) L), mkAdd true ZADD_OUT_UPDATED (Some sc))
               | Eq => if flag in_flags ZADD_IN_GT || flag in_flags ZADD_IN_LT then nop else (L, mkAdd true 0 (Some sc))
               end
    | None =>
        if flag in_flags ZADD_IN_XX then nop
        else (zinsert (mkElem p sc el levels (node_block levels el)) L, mkAdd true ZADD_OUT_ADDED (Some sc))
    end.

Lemma index_rescore d A e B s : indexes d (A ++ e :: B) -> indexes d (zinsert (rescore e s) (A ++ B)).
Proof. unfold indexes. intros ->. rewrite zinsert_perm, <- Permutation_middle. done. Qed.

(** The score of an element changes, to one that is not the same. *)
Lemma node_update_ok base d m H A e B s :
  zset_repr base (mkZset d m) H (A ++ e :: B) -> isnan s = false ->
  exists m', zslUpdateScore m (ptr e) s = Some m' /\ zset_repr base (mkZset d m') H (zinsert (rescore e s) (A ++ B)).
Proof.
  intros [Hs Hwf Hi] Hn. destruct (zslUpdateScore_ok base m H A B e s Hs Hn) as (m' & -> & Hs').
  exists m'. split; [done|]. split; [done..|]. by apply index_rescore.
Qed.

(** The comparisons of the code, for numbers *)
Lemma dbl_compare a b : isnan a = false -> isnan b = false ->
  dbl_le a b = match dbl_key a ?= dbl_key b with Gt => false | _ => true end /\
  dbl_eq a b = match dbl_key a ?= dbl_key b with Eq => true | _ => false end.
Proof.
  intros Ha Hb. unfold dbl_le, dbl_eq. rewrite Ha, Hb. cbn [negb andb].
  destruct (Z.compare_spec (dbl_key a) (dbl_key b)); lia.
Qed.

Lemma zset_update_ok base d m H A e B link p levels sc k in_flags de sk :
  zset_repr base (mkZset d m) H (A ++ e :: B) -> isnan sc = false -> e_ele e = text k ->
  entry_at d link = Some de -> dictGetKey de = Some sk -> addr sk = ptr e ->
  exists zs', zset_update d m link sc in_flags =
      Some (zs', snd (zadd_spec (A ++ e :: B) p levels sc (text k) in_flags)) /\
    zset_repr base zs' H (fst (zadd_spec (A ++ e :: B) p levels sc (text k) in_flags)).
Proof.
  intros Hr Hnan Hk Hde Hsk Hp. pose proof (repr_members _ _ _ _ Hr) as Hnd. unfold zset_update, zadd_spec.
  rewrite Hnan, <- Hk, member_split, filter_name, Hde by done. mstep. destruct (flag in_flags ZADD_IN_NX); [eauto|].
  rewrite Hsk. mstep. rewrite Hp. destruct (repr_node _ _ _ _ _ _ Hr) as (nd & Hn & Hsc). cbn [zs_mem] in Hn. rewrite Hn. mstep.
  rewrite Hsc. set (s := if flag in_flags ZADD_IN_INCR then _ else _).
  assert (Hs : flag in_flags ZADD_IN_INCR && isnan s = isnan s).
  { unfold s. destruct (flag in_flags ZADD_IN_INCR); [done|]. by rewrite Hnan. }
  rewrite Hs. destruct (isnan s) eqn:Hns; [eauto|].
  assert (He : isnan (e_score e) = false).
  { pose proof (sk_nan _ _ _ (sk_linked _ _ _ _ (zr_list _ _ _ _ Hr))) as Hall. rewrite Forall_forall in Hall. apply Hall. set_solver. }
  destruct (dbl_compare s (e_score e) Hns He) as [-> ->]. destruct (dbl_compare (e_score e) s He Hns) as [-> _].
  rewrite (Z.compare_antisym (dbl_key s)). destruct (node_update_ok base d m H A e B s Hr Hns) as (m' & Hu & Hr').
  destruct (dbl_key s ?= dbl_key (e_score e)); cbn [CompOpp negb];
    destruct (flag in_flags ZADD_IN_GT), (flag in_flags ZADD_IN_LT); cbn [andb orb]; rewrite ?Hu; mstep; cbn [fst snd]; eauto.
Qed.

Lemma add_new_ok base d m H L b p rs levels sc k :
  zset_repr base (mkZset d m) H L -> text k ∉ e_ele <$> L -> isnan sc = false ->
  zslRandomLevel rs = Some levels -> nodes m !! p = None -> Z.of_nat (length L) < DICT_LIMIT ->
  match b with Some l => l = bucket_of d k | None => True end ->
  exists m' d', zslInsert raw rs m p sc (text k) = Some m' /\ dictSetKeyAtLink g d (p, k) b = Some d' /\
    zset_repr base (mkZset d' m') H (zinsert (mkElem p sc (text k) levels (node_block levels (text k))) L).
Proof.
  intros [Hs Hwf Hi] Hk Hnan Hrs Hp Hlen Hb. cbn [zs_dict zs_mem] in *. set (e := mkElem _ _ _ _ _). pose proof (sk_linked _ _ _ _ Hs) as Hl.
  destruct (place_split e L (sk_sorted _ _ _ Hl) Hk) as (A & B & -> & HA & HB).
  destruct (zslInsert_ok raw base m H A B p rs levels sc (text k) Hs) as (m' & -> & Hs'); try done.
  { unfold DICT_LIMIT in Hlen. lia. }
  destruct (setKeyAtLink_ok g d (p, k) b Hwf) as (d' & -> & Hwf' & Hel).
  - by rewrite (index_length _ _ Hi).
  - intros x Hx Hkx. destruct (index_hit d _ x k Hi Hx Hkx) as (A' & e' & B' & HAB & _ & He'). apply Hk.
    rewrite <- He', HAB. apply list_elem_of_fmap_2. set_solver.
  - done.
  - exists m', d'. split_and!; [done..|]. rewrite zinsert_split by done. split; [done..|]. cbn [zs_dict]. unfold indexes.
    rewrite Hel, fmap_cons, Hi, <- Permutation_middle. done.
Qed.

Lemma zsetAdd_ok base zs H L p rs levels sc k in_flags :
  zset_repr base zs H L -> zslRandomLevel rs = Some levels -> nodes (zs_mem zs) !! p = None ->
  Z.of_nat (length L) < DICT_LIMIT ->
  exists zs', zsetAdd g raw zs p rs sc k in_flags = Some (zs', snd (zadd_spec L p levels sc (text k) in_flags)) /\
    zset_repr base zs' H (fst (zadd_spec L p levels sc (text k) in_flags)).
Proof.
  destruct zs as [d m]. intros Hr Hrs Hp Hlen. unfold zsetAdd. destruct (isnan sc) eqn:Hnan.
  { unfold zadd_spec. rewrite Hnan. eauto. }
  cbn [zs_dict zs_mem] in *. destruct (findBucket_ok g d k (zr_wf _ _ _ _ Hr)) as (d' & found & b & -> & Hst & Hf & Hb). mstep.
  apply (repr_step _ _ d') in Hr; [|done]. pose proof (zr_index _ _ _ _ Hr) as Hi. cbn [zs_dict] in Hi. destruct found as [l|].
  - destruct Hf as (x & Hx & Hk). destruct (points_entry d' l x Hx) as (de & Hde & Hsk).
    destruct (index_hit d' L x k Hi (points_elem _ _ _ Hx) Hk) as (A & e & B & -> & Hpe & Hn).
    by eapply zset_update_ok.
  - assert (Hk : text k ∉ e_ele <$> L) by by apply (index_miss d'). unfold zadd_spec. rewrite Hnan, member_none by done.
    destruct (flag in_flags ZADD_IN_XX); cbn [negb]; [eauto|].
    destruct (add_new_ok base d' m H L b p rs levels sc k) as (m' & d2 & -> & Hd2 & Hr2); try done.
    { by apply Hb. }
    mstep. rewrite Hd2. mstep. eauto.
Qed.

(** ** Removing *)

(** An entry leaves the table with its node. *)
Lemma index_remove d d' x A e B :
  indexes d (A ++ e :: B) -> elements d ≡ₚ x :: elements d' -> node_of x = elem_node e -> indexes d' (A ++ B).
Proof.
  unfold indexes. intros Hi Hel Hx. rewrite Hel, fmap_cons, Hx in Hi. rewrite <- Permutation_middle, fmap_cons in Hi.
  by apply Permutation_cons_inv in Hi.
Qed.

Lemma unlink_node d L k :
  dict_wf d -> indexes d L -> NoDup (e_ele <$> L) ->
  exists d' de, dictGenericDelete g d k = Some (d', de) /\ dict_wf d' /\
    ((de = Null /\ text k ∉ e_ele <$> L /\ indexes d' L) \/
     exists A e B sk, L = A ++ e :: B /\ dictGetKey de = Some sk /\ addr sk = ptr e /\ e_ele e = text k /\ indexes d' (A ++ B)).
Proof.
  intros Hwf Hi Hnd. destruct (delete_ok g d k Hwf) as (d' & de & -> & Hwf' & _ & [(-> & Hel & Hno) | (x & Hx & Hk & Hel)]).
  - exists d', Null. split_and!; [done..|]. left. split_and!; [done|by apply (index_miss d)|]. unfold indexes. by rewrite Hel.
  - exists d', de. split_and!; [done..|]. right.
    destruct (index_hit d L x k Hi) as (A & e & B & -> & Hp & Hn); [rewrite Hel; set_solver|done|].
    exists A, e, B, (fst x). split_and!; [done| |done|done|].
    + by rewrite head_key, Hx.
    + apply (index_remove d d' x A e B); [done..|]. unfold node_of, elem_node. rewrite Hp, Hn, <- Hk. done.
Qed.

Lemma zsetDel_ok base zs H L k :
  zset_repr base zs H L ->
  exists zs', zsetDel g zs k = Some (zs', bool_decide (text k ∈ e_ele <$> L)) /\
    zset_repr base zs' H (filter (fun e => e_ele e <> text k) L).
Proof.
  destruct zs as [d m]. intros Hr. pose proof (repr_members _ _ _ _ Hr) as Hnd. destruct Hr as [Hs Hwf Hi]. cbn [zs_dict zs_mem] in *.
  unfold zsetDel, zsetRemoveFromSkiplist, dictUnlink. cbn [zs_dict zs_mem].
  destruct (unlink_node d L k Hwf Hi Hnd) as (d' & de & -> & Hwf' & [(-> & Hno & Hi') | (A & e & B & sk & -> & Hsk & Hp & Hn & Hi')]); mstep.
  - rewrite bool_decide_false, filter_name_none by done. eexists. split; [done|]. by split.
  - rewrite bool_decide_true by (rewrite <- Hn; apply list_elem_of_fmap_2; set_solver). rewrite <- Hn, filter_name by done.
    destruct (zslDelete_ok base m H A B e Hs) as (m' & Hm' & Hs').
    exists (mkZset d' m'). split; [|by split]. destruct de; [done|..]; rewrite Hsk; mstep; rewrite Hp, Hm'; done.
Qed.

(** ** Removing a range *)

Lemma indexed_name d L e : indexes d L -> e ∈ L -> exists k, text k = e_ele e.
Proof.
  intros Hi He. assert (Hin : elem_node e ∈ node_of <$> elements d) by (rewrite Hi; by apply list_elem_of_fmap_2).
  apply list_elem_of_fmap in Hin as (x & Hx & _). injection Hx as _ Hx. by exists (snd (fst x)).
Qed.

Lemma drop_name_ok d e L :
  dict_wf d -> indexes d (e :: L) -> NoDup (e_ele <$> e :: L) ->
  exists d', drop_name g (Some d) (e_ele e) = Some d' /\ dict_wf d' /\ indexes d' L.
Proof.
  intros Hwf Hi Hnd. destruct (indexed_name d _ e Hi) as [k Hk]; [set_solver|]. unfold drop_name, dictDelete. mstep.
  rewrite <- Hk, to_name_ok. mstep.
  destruct (unlink_node d _ k Hwf Hi Hnd) as (d' & de & -> & Hwf' & [(-> & Hno & _) | (A & e' & B & sk & HL & _ & _ & Hn & Hi')]).
  - exfalso. apply Hno. rewrite Hk. set_solver.
  - mstep. exists d'. split_and!; [done..|]. assert (e' = e) as ->.
    { rewrite fmap_cons, NoDup_cons in Hnd. destruct Hnd as [Hout _]. assert (Hin : e' ∈ e :: L) by (rewrite HL; set_solver).
      apply elem_of_cons in Hin as [?|Hin]; [done|]. exfalso. apply Hout. rewrite <- Hk, <- Hn. by apply list_elem_of_fmap_2. }
    unfold indexes. rewrite Hi'. apply fmap_Permutation. apply (Permutation_cons_inv (a := e)). rewrite HL. apply Permutation_middle.
Qed.

Lemma drop_names_ok M d L :
  dict_wf d -> indexes d (M ++ L) -> NoDup (e_ele <$> M ++ L) ->
  exists d', foldl (drop_name g) (Some d) (e_ele <$> M) = Some d' /\ dict_wf d' /\ indexes d' L.
Proof.
  revert d. induction M as [|e M IH]; intros d Hwf Hi Hnd; [by exists d|]. rewrite fmap_cons. cbn [foldl].
  destruct (drop_name_ok d e (M ++ L) Hwf Hi Hnd) as (d' & -> & Hwf' & Hi'). apply IH; [done..|].
  cbn [app] in Hnd. rewrite fmap_cons, NoDup_cons in Hnd. apply Hnd.
Qed.

Lemma range_parts (f : elem -> bool) L : L ≡ₚ filter (fun e => f e = true) L ++ filter (fun e => f e = false) L.
Proof.
  induction L as [|e L IH]; [done|]. rewrite !filter_cons. destruct (f e); cbn [decide decide_rel].
  - rewrite decide_True, decide_False by done. cbn [app]. by rewrite <- IH.
  - rewrite decide_False, decide_True by done. rewrite <- Permutation_middle. by rewrite <- IH.
Qed.

(** The elements of a range and the others. Negative places count from the
    end. *)
Definition from_end (n : nat) (i : Z) : Z := if i <? 0 then Z.of_nat n + i else i.

Definition zrem_spec L (r : zrange_type) : list elem * list elem :=
  match r with
  | ZRANGE_RANK start end_ =>
      let j := Z.to_nat (from_end (length L) start) in
      let k := (Z.to_nat (from_end (length L) end_ + 1) - j)%nat in
      (take k (drop j L), take j L ++ drop k (drop j L))
  | ZRANGE_SCORE range => (filter (fun e => in_score_range range e = true) L, filter (fun e => in_score_range range e = false) L)
  | ZRANGE_LEX range => (filter (fun e => in_lex_range range e = true) L, filter (fun e => in_lex_range range e = false) L)
  end.

(** The preconditions of the removal of a range. The bounds of a range of
    scores are numbers, which the parser of the command checks. The ranks fit
    an [unsigned int]. A range of names is asked of a set whose elements all
    have one score: neither [zremrangebylexCommand] nor [zslDeleteRangeByLex]
    checks this, which is left to the client (the summary of the command in
    [commands/zremrangebylex.json] does not mention it). Without it the elements are not in the order of their names, and
    what is removed is not the range (see [lex_mixed_scores] below). *)
Definition range_ok L (r : zrange_type) : Prop :=
  match r with
  | ZRANGE_RANK start end_ => Z.of_nat (length L) < 2 ^ 32
  | ZRANGE_SCORE range => isnan (zmin range) = false /\ isnan (zmax range) = false
  | ZRANGE_LEX _ => Forall (fun e => Some (dbl_key (e_score e)) = dbl_key ∘ e_score <$> head L) L
  end.

#[export] Instance range_ok_dec L r : Decision (range_ok L r).
Proof. destruct r; cbn [range_ok]; apply _. Defined.

Lemma middle_parts (j k : nat) L : L ≡ₚ take k (drop j L) ++ take j L ++ drop k (drop j L).
Proof.
  rewrite <- (take_drop j L) at 1. rewrite <- (take_drop k (drop j L)) at 1. apply Permutation_app_swap_app.
Qed.

Lemma zrem_parts L r : L ≡ₚ fst (zrem_spec L r) ++ snd (zrem_spec L r).
Proof.
  destruct r as [start end_|range|range]; cbn [zrem_spec fst snd]; [apply middle_parts|apply range_parts..].
Qed.

Lemma shrink_needed_ok d : dict_wf d -> exists b d', dictShrinkIfNeeded g d = Some (b, d') /\ step_ok d d'.
Proof.
  intros Hwf. assert (Hrefl : step_ok d d) by by apply step_refl. unfold dictShrinkIfNeeded.
  destruct (dictIsRehashing d); [eauto|]. destruct (_ <=? _); [eauto|].
  destruct (_ || _); [|eauto]. destruct (dictTypeResizeAllowed d _); [|eauto].
  destruct (dict_shrink_ok g d (used d false) Hwf) as (b & d' & -> & Hst). mstep. eauto.
Qed.

Lemma pause_wf d n : dict_wf d -> dict_wf (set_pauseAutoResize d n).
Proof. intros []. by split. Qed.

(** The end of the command, once the nodes are out of the list *)
Lemma rem_finish base d (od : option table) m' H M R :
  skiplist base m' H R -> dict_wf d -> indexes d (M ++ R) -> NoDup (e_ele <$> M ++ R) -> od = foldl (drop_name g) (Some d) (e_ele <$> M) ->
  exists zs', (d ← od;
      let d := dictResumeAutoResize d in
      if dictSize d =? 0 then Some (mkZset d m', (Z.of_nat (length M), true))
      else '(_, d) ← dictShrinkIfNeeded g d; Some (mkZset d m', (Z.of_nat (length M), false))) =
      Some (zs', (Z.of_nat (length M), bool_decide (R = []))) /\ zset_repr base zs' H R.
Proof.
  intros Hs Hwf Hi Hnd ->. destruct (drop_names_ok M d R Hwf Hi Hnd) as (d1 & -> & Hwf1 & Hi1). mstep.
  cbv zeta. set (d2 := dictResumeAutoResize d1). assert (Hwf2 : dict_wf d2) by by apply pause_wf.
  assert (Hi2 : indexes d2 R) by done. rewrite dictSize_ok, (index_length _ _ Hi2) by done.
  destruct (Z.eqb_spec (Z.of_nat (length R)) 0) as [H0|H0].
  - assert (R = []) as -> by (apply length_zero_iff_nil; lia). rewrite bool_decide_true by done. eexists. split; [done|]. by split.
  - rewrite bool_decide_false by (intros ->; done). destruct (shrink_needed_ok d2 Hwf2) as (b & d3 & -> & Hst). mstep.
    eexists. split; [done|]. by apply (repr_step _ d2).
Qed.

(** The indexes after their sanitizing select the same elements. *)
Lemma sanitize_ok L start end_ :
  match sanitize (Z.of_nat (length L)) start end_ with
  | Some (s, e) => 0 <= s /\ s <= e < Z.of_nat (length L) /\
      let j := Z.to_nat s in
      let k := (Z.to_nat (e + 1) - j)%nat in
      zrem_spec L (ZRANGE_RANK start end_) = (take k (drop j L), take j L ++ drop k (drop j L))
  | None => zrem_spec L (ZRANGE_RANK start end_) = ([], L)
  end.
Proof.
  unfold sanitize, zrem_spec. fold (from_end (length L) start) (from_end (length L) end_).
  set (a := from_end _ start). set (b := from_end _ end_). cbv zeta. clearbody a b.
  assert (Hj : Z.to_nat (if a <? 0 then 0 else a) = Z.to_nat a) by (destruct (Z.ltb_spec a 0); lia).
  set (s := if a <? 0 then 0 else a) in *. assert (Hs0 : 0 <= s) by (unfold s; destruct (Z.ltb_spec a 0); lia). clearbody s.
  destruct (Z.gtb_spec s b) as [Hb|Hb]; cbn [orb].
  { replace (Z.to_nat (b + 1) - Z.to_nat a)%nat with O by lia. by rewrite take_0, drop_0, take_drop. }
  destruct (Z.geb_spec s (Z.of_nat (length L))) as [Hn|Hn].
  { rewrite (take_ge L), (drop_ge L) by lia. by rewrite take_nil, drop_nil, app_nil_r. }
  rewrite Hj. destruct (Z.geb_spec b (Z.of_nat (length L))) as [He|He]; split_and!; try lia; [|done].
  rewrite !(take_ge (drop _ L)), !(drop_ge (drop _ L)) by (rewrite length_drop; lia). done.
Qed.

Lemma zremrange_ok base zs H L r :
  zset_repr base zs H L -> L <> [] -> range_ok L r ->
  exists zs', zremrangeGeneric g zs r = Some (zs', (Z.of_nat (length (fst (zrem_spec L r))), bool_decide (snd (zrem_spec L r) = []))) /\
    zset_repr base zs' H (snd (zrem_spec L r)).
Proof.
  destruct zs as [d m]. intros Hr Hne Hok. pose proof (repr_members _ _ _ _ Hr) as Hnd. pose proof Hr as [Hs Hwf Hi].
  cbn [zs_dict zs_mem] in *. pose proof (zrem_parts L r) as Hparts.
  assert (Hwf' : dict_wf (dictPauseAutoResize d)) by by apply pause_wf.
  assert (Hi' : indexes (dictPauseAutoResize d) (fst (zrem_spec L r) ++ snd (zrem_spec L r))).
  { unfold indexes. rewrite <- Hparts. exact Hi. }
  assert (Hnd' : NoDup (e_ele <$> fst (zrem_spec L r) ++ snd (zrem_spec L r))) by by rewrite <- Hparts.
  unfold zremrangeGeneric, zsetLength. cbn [zs_dict zs_mem].
  destruct r as [start end_|range|range]; cbn [range_ok] in Hok.
  - pose proof (sk_length _ _ _ (sk_linked _ _ _ _ Hs)) as Hlen. rewrite Hlen, wrapS_id by (unfold inS; zpow; lia).
    pose proof (sanitize_ok L start end_) as Hsan. destruct (sanitize _ start end_) as [[s e]|].
    + destruct Hsan as (H0 & He & Hsp). cbv zeta in Hsp. rewrite Hsp in Hi', Hnd' |- *. cbn [fst snd] in *. mstep.
      rewrite !wrapU_id by (unfold inU; zpow; lia).
      destruct (zslDeleteRangeByRank_ok (drop_name g) base m H L (s + 1) (e + 1) (Some (dictPauseAutoResize d)) Hs) as (m' & -> & Hs').
      replace (s + 1 - 1) with s in * by lia. mstep. by eapply rem_finish.
    + mstep. rewrite Hsan. cbn [fst snd length]. rewrite bool_decide_false by done. eauto.
  - destruct Hok as [Hmin Hmax]. cbn [fst snd zrem_spec] in *.
    destruct (zslDeleteRangeByScore_ok (drop_name g) base m H L range (Some (dictPauseAutoResize d)) Hs Hmin Hmax) as (m' & -> & Hs').
    mstep. by eapply rem_finish.
  - cbn [fst snd zrem_spec] in *. assert (exists s, Forall (fun e => dbl_key (e_score e) = s) L) as [s Hsc].
    { destruct L as [|e L]; [done|]. exists (dbl_key (e_score e)). eapply Forall_impl; [exact Hok|]. by intros x [= ?]. }
    destruct (zslDeleteRangeByLex_ok (drop_name g) base m H L range s (Some (dictPauseAutoResize d)) Hs Hsc) as (m' & -> & Hs').
    mstep. by eapply rem_finish.
Qed.

(** ** Sessions *)

Inductive zset_op :=
| OpAdd (p : positive) (rs : list Z) (sc : Z) (k : name) (in_flags : Z)
| OpDel (k : name)
| OpRemRange (r : zrange_type).

Inductive zset_res := ResAdd (r : zadd_result) | ResDel (found : bool) | ResRem (deleted : Z) (empty : bool).

Definition zset_step (zs : zset) (op : zset_op) : option (zset * zset_res) :=
  match op with
  | OpAdd p rs sc k in_flags => '(zs, r) ← zsetAdd g raw zs p rs sc k in_flags; Some (zs, ResAdd r)
  | OpDel k => '(zs, b) ← zsetDel g zs k; Some (zs, ResDel b)
  | OpRemRange r => '(zs, (n, b)) ← zremrangeGeneric g zs r; Some (zs, ResRem n b)
  end.

Fixpoint zset_run (zs : zset) (ops : list zset_op) : option (zset * list zset_res) :=
  match ops with
  | [] => Some (zs, [])
  | op :: ops => '(zs, r) ← zset_step zs op; '(zs, rs) ← zset_run zs ops; Some (zs, r :: rs)
  end.

(** The same on sequences. There is no result for an addition at an address in
    use or to a set of [DICT_LIMIT] elements or more, for a removal of a range
    that does not satisfy [range_ok] (of names from elements of several scores
    above all), and for a removal of a range from an empty set, which is no
    set of the server. *)
Definition zset_abs (H : elem) L (op : zset_op) : option (list elem * zset_res) :=
  match op with
  | OpAdd p rs sc k in_flags =>
      levels ← zslRandomLevel rs;
      if bool_decide (p ∉ ptr <$> H :: L /\ Z.of_nat (length L) < DICT_LIMIT) then
        let '(L, r) := zadd_spec L p levels sc (text k) in_flags in Some (L, ResAdd r)
      else None
  | OpDel k => Some (filter (fun e => e_ele e <> text k) L, ResDel (bool_decide (text k ∈ e_ele <$> L)))
  | OpRemRange r =>
      if bool_decide (L <> [] /\ range_ok L r) then
        let '(M, R) := zrem_spec L r in Some (R, ResRem (Z.of_nat (length M)) (bool_decide (R = [])))
      else None
  end.

Fixpoint abs_run (H : elem) L (ops : list zset_op) : option (list elem * list zset_res) :=
  match ops with
  | [] => Some (L, [])
  | op :: ops => '(L, r) ← zset_abs H L op; '(L, rs) ← abs_run H L ops; Some (L, r :: rs)
  end.

Lemma repr_fresh base zs H L p : zset_repr base zs H L -> p ∉ ptr <$> H :: L -> nodes (zs_mem zs) !! p = None.
Proof. intros [Hs _ _] Hp. apply not_elem_of_dom. by rewrite (sk_dom _ _ _ _ Hs), elem_of_list_to_set. Qed.

Lemma zset_step_ok base zs H L op L' r :
  zset_repr base zs H L -> zset_abs H L op = Some (L', r) ->
  exists zs', zset_step zs op = Some (zs', r) /\ zset_repr base zs' H L'.
Proof.
  intros Hr. destruct op as [p rs sc k fl|k|r0]; cbn [zset_abs zset_step].
  - destruct (zslRandomLevel rs) as [levels|] eqn:Hrs; [|done]. mstep. case_bool_decide as Hc; [|done]. destruct Hc as [Hp Hlen].
    destruct (zsetAdd_ok base zs H L p rs levels sc k fl Hr Hrs) as (zs' & -> & Hr'); [by eapply repr_fresh|done|].
    destruct (zadd_spec L p levels sc (text k) fl) as [L1 r1]. intros [= <- <-]. mstep. eauto.
  - intros [= <- <-]. destruct (zsetDel_ok base zs H L k Hr) as (zs' & -> & Hr'). mstep. eauto.
  - case_bool_decide as Hc; [|done]. destruct Hc as [Hne Hok].
    destruct (zremrange_ok base zs H L r0 Hr Hne Hok) as (zs' & -> & Hr').
    destruct (zrem_spec L r0) as [M R]. intros [= <- <-]. mstep. eauto.
Qed.

Lemma zset_run_ok base zs H L ops L' rs :
  zset_repr base zs H L -> abs_run H L ops = Some (L', rs) ->
  exists zs', zset_run zs ops = Some (zs', rs) /\ zset_repr base zs' H L'.
Proof.
  revert zs L rs. induction ops as [|op ops IH]; intros zs L rs Hr; cbn [abs_run zset_run].
  { intros [= <- <-]. eauto. }
  destruct (zset_abs H L op) as [[L1 r1]|] eqn:Ha; [|done]. mstep.
  destruct (abs_run H L1 ops) as [[L2 rs2]|] eqn:Hb; [|done]. mstep. intros [= <- <-].
  destruct (zset_step_ok base zs H L op L1 r1 Hr Ha) as (zs1 & -> & Hr1). mstep.
  destruct (IH zs1 L1 rs2 Hr1 Hb) as (zs2 & -> & Hr2). mstep. eauto.
Qed.

Lemma createZset_ok p :
  exists zs, createZsetObject p = Some zs /\ zset_repr (usable zskiplist_size) zs (header_elem p) [].
Proof.
  unfold createZsetObject. destruct (zslCreate_ok p) as (m & -> & Hs). mstep. eexists. split; [done|]. split; [done|apply create_ok|].
  exact (Permutation_refl []).
Qed.

(** C1: whatever additions with any flags, removals of names and removals of
    ranges are done on a new sorted set, every one of them returns, reports
    what the same operations report on a sorted sequence, and leaves the skip
    list sorted as that sequence and the hash table with exactly its nodes.
    The sessions are those for which [abs_run] has a result: a new node has a
    fresh address and the set less than 2^62 elements; a range is removed from
    a set that is not empty, a range of ranks from one of less than 2^32
    elements, a range of scores between numbers, and a range of names only
    when all the elements have the same score at that time ([range_ok]). *)
Theorem zset_session_refines p ops L rs :
  abs_run (header_elem p) [] ops = Some (L, rs) ->
  exists zs zs', createZsetObject p = Some zs /\ zset_run zs ops = Some (zs', rs) /\
    zset_repr (usable zskiplist_size) zs' (header_elem p) L.
Proof.
  intros Ha. destruct (createZset_ok p) as (zs & Hc & Hr). destruct (zset_run_ok _ _ _ _ _ _ _ Hr Ha) as (zs' & Hrun & Hr').
  by exists zs, zs'.
Qed.

(** C2: ZADD on every branch: a score that is not a number, given or reached by
    an increment, is refused; an element that is there is left alone with NX, or
    with GT or LT when the new score is not past the old one, and otherwise
    moves to its new place; a new element goes to its place, unless XX is given.
    The flags and the score that are returned tell which. *)
Theorem zsetAdd_refines base zs H L p rs levels sc k in_flags :
  zset_repr base zs H L -> zslRandomLevel rs = Some levels -> p ∉ ptr <$> H :: L -> Z.of_nat (length L) < DICT_LIMIT ->
  exists zs', zsetAdd g raw zs p rs sc k in_flags = Some (zs', snd (zadd_spec L p levels sc (text k) in_flags)) /\
    zset_repr base zs' H (fst (zadd_spec L p levels sc (text k) in_flags)).
Proof. intros Hr Hrs Hp Hlen. apply zsetAdd_ok; [done..| |done]. by eapply repr_fresh. Qed.

(** C3: the score and the rank of a name, from either end, are those of its
    element in the sorted sequence, and the length is the length of the
    sequence; the lookups may move entries of the table but change nothing
    that is represented. *)
Theorem zset_reads_correct base zs H L k :
  zset_repr base zs H L ->
  zsetLength zs = Z.of_nat (length L) /\
  (exists zs', zsetScore g zs k = Some (zs', e_score ∘ snd <$> member (text k) L) /\ zset_repr base zs' H L) /\
  (forall reverse, exists zs', zsetRank g zs k reverse = Some (zs',
      match member (text k) L with
      | Some (i, e) => (place (length L) reverse i, Some (e_score e))
      | None => (-1, None)
      end) /\ zset_repr base zs' H L).
Proof.
  intros Hr. split_and!.
  - apply (sk_length _ _ _ (sk_linked _ _ _ _ (zr_list _ _ _ _ Hr))).
  - by apply zsetScore_ok.
  - intros reverse. by apply zsetRank_ok.
Qed.

(** C4: ZREMRANGE by ranks, scores or names removes exactly the elements of the
    range from the list and from the table, whose resizing it pauses, returns
    their number and tells whether the set is empty. The set is not empty.
    Ranks may be negative or past the end; fewer than 2^32 elements are needed,
    since the ranks are passed as 32 bit integers. The bounds of a range of
    scores are numbers. For a range of names all the elements must have the
    same score, a condition that the command does not check: on other sets
    elements out of the range are removed too ([lex_mixed_scores]). *)
Theorem zremrange_refines base zs H L r :
  zset_repr base zs H L -> L <> [] -> range_ok L r ->
  exists zs', zremrangeGeneric g zs r = Some (zs', (Z.of_nat (length (fst (zrem_spec L r))), bool_decide (snd (zrem_spec L r) = []))) /\
    zset_repr base zs' H (snd (zrem_spec L r)).
Proof. apply zremrange_ok. Qed.
End spec.

(** ** Examples *)

(** A keyed hash, for the examples *)
Definition ex_hash (s : list Z) : Z := u64 (foldl (fun h c => h * 33 + c) 5381 s).

#[local] Instance ex_sds_hash : SdsHash := { dictSdsHash := ex_hash; dictSdsHash_range s := wrapU_range 64 (foldl (fun h c => h * 33 + c) 5381 s) ltac:(done) }.

Definition letter (c : Z) : name := exist _ [c] I.

(** Enough elements for the table to grow, a change of a score, an increment
    that GT refuses, a removal and a removal of the two last ranks *)
Definition ex_zops : list zset_op :=
  [OpAdd 2 [0; RAND_MAX] d2 (letter 98) 0; OpAdd 3 [RAND_MAX] d1 (letter 97) 0; OpAdd 4 [0; 0; RAND_MAX] d2 (letter 99) 0;
   OpAdd 5 [RAND_MAX] d3 (letter 100) 0; OpAdd 6 [RAND_MAX] d1 (letter 101) 0; OpAdd 7 [RAND_MAX] d3 (letter 97) 0;
   OpAdd 8 [RAND_MAX] (Z.lor dbl_sign d1) (letter 98) (Z.lor ZADD_IN_INCR ZADD_IN_GT); OpDel (letter 101);
   OpRemRange (ZRANGE_RANK (-2) 7)].

#[local] Abbreviation EN := DICT_RESIZE_ENABLE.

Definition ex_abs : list elem * list zset_res := default ([], []) (@abs_run block_allocator ex_header [] ex_zops).

Definition ex_zset : zset :=
  default (mkZset dictCreate (mkMem ∅ (mkZsl 1 None 0 1 0)))
    (zs ← @createZsetObject block_allocator 1;
     fst <$> @zset_run block_allocator ex_sds_hash EN ex_raw zs (take 8 ex_zops)).

Definition ex_zL : list elem := fst (default ([], []) (@abs_run block_allocator ex_header [] (take 8 ex_zops))).

Lemma ex_repr_ok : zset_repr ex_base ex_zset ex_header ex_zL.
Proof.
  destruct (@createZset_ok block_allocator ex_sds_hash 1) as (zs & Hc & Hr).
  destruct (@zset_run_ok block_allocator ex_sds_hash EN ex_raw _ zs _ _ (take 8 ex_zops) ex_zL
    (snd (default ([], []) (@abs_run block_allocator ex_header [] (take 8 ex_zops)))) Hr) as (zs' & Hrun & Hr').
  { vm_compute. reflexivity. }
  unfold ex_zset. rewrite Hc. mstep. rewrite Hrun. exact Hr'.
Qed.

(** A range of names on elements of several scores: of b with score 1, a with
    score 2 and c with score 3, the range from b to b also removes a, since the
    walk starts at the first name that is not below the range and stops at the
    first one that is above it. *)
Example lex_mixed_scores :
  (zs ← @createZsetObject block_allocator 1;
   '(zs, _) ← @zset_run block_allocator ex_sds_hash EN ex_raw zs
     [OpAdd 2 [RAND_MAX] d1 (letter 98) 0; OpAdd 3 [RAND_MAX] d2 (letter 97) 0; OpAdd 4 [RAND_MAX] d3 (letter 99) 0];
   '(zs, n) ← @zremrangeGeneric ex_sds_hash EN zs (ZRANGE_LEX (mkLexRange (lexstr [98]) (lexstr [98]) false false));
   '(_, a) ← @zsetScore ex_sds_hash EN zs (letter 97); Some (n, a)) = Some ((2, false), None).
Proof. vm_compute. reflexivity. Qed.

(** ** Witnesses *)

Lemma zset_session_refines_witness :
  exists zs zs', @createZsetObject block_allocator 1 = Some zs /\
    @zset_run block_allocator ex_sds_hash EN ex_raw zs ex_zops = Some (zs', snd ex_abs) /\
    zset_repr ex_base zs' ex_header (fst ex_abs).
Proof.
  apply (@zset_session_refines block_allocator ex_sds_hash EN ex_raw 1 ex_zops (fst ex_abs) (snd ex_abs)).
  vm_compute. reflexivity.
Defined.

(** The name is there with the score 3: LT lets the score 1 through. *)
Lemma zsetAdd_refines_witness :
  exists zs', @zsetAdd block_allocator ex_sds_hash EN ex_raw ex_zset 9 [RAND_MAX] d1 (letter 97) ZADD_IN_LT =
      Some (zs', mkAdd true ZADD_OUT_UPDATED (Some d1)) /\
    zset_repr ex_base zs' ex_header (fst (@zadd_spec block_allocator ex_zL 9 1 d1 [97] ZADD_IN_LT)).
Proof.
  apply (@zsetAdd_refines block_allocator ex_sds_hash EN ex_raw ex_base ex_zset ex_header ex_zL 9 [RAND_MAX] 1 d1 (letter 97) ZADD_IN_LT).
  - exact ex_repr_ok.
  - vm_compute. reflexivity.
  - apply (bool_decide_unpack _). vm_compute. exact I.
  - vm_compute. reflexivity.
Defined.

Lemma zset_reads_correct_witness :
  zsetLength ex_zset = 4 /\ exists zs', @zsetRank ex_sds_hash EN ex_zset (letter 97) true = Some (zs', (1, Some d3)).
Proof.
  destruct (@zset_reads_correct ex_sds_hash EN ex_base ex_zset ex_header ex_zL (letter 97) ex_repr_ok) as (H1 & _ & H3).
  split; [exact H1|]. destruct (H3 true) as (zs' & H4 & _). exists zs'. exact H4.
Defined.

Lemma zremrange_refines_witness :
  exists zs', @zremrangeGeneric ex_sds_hash EN ex_zset (ZRANGE_SCORE (mkRange d2 d3 false true)) = Some (zs', (2, false)) /\
    zset_repr ex_base zs' ex_header (drop 2 ex_zL).
Proof.
  apply (@zremrange_refines ex_sds_hash EN ex_base ex_zset ex_header ex_zL (ZRANGE_SCORE (mkRange d2 d3 false true))).
  - exact ex_repr_ok.
  - vm_compute. discriminate.
  - vm_compute. split; reflexivity.
Defined.
