(* ===== verification/Adlist.v ===== *)
(** * Doubly linked lists ([adlist.c], [adlist.h])

    The lists that the server threads its clients, replies and queues through.
    Nodes are in a heap, shared by all the lists; the list structure is passed
    as a value. The memory also records the values that the [free] method of a
    list was called on. [zmalloc] does not return [NULL]: it takes the address
    of the new block as an argument. A read or a write of a node that is not
    allocated is [None]. *)

From stdpp Require Import gmap.
From S2P Require Import Prelude.

#[local] Open Scope Z_scope.

Record listNode (V : Type) := mkLnode { n_prev : option positive; n_next : option positive; n_value : V }.
Arguments mkLnode {V}.
Arguments n_prev {V}.
Arguments n_next {V}.
Arguments n_value {V}.

(** [free] is whether the method is set. *)
Record adlist (V : Type) := mkAdlist {
  l_head : option positive;
  l_tail : option positive;
  l_dup : option (V -> option V);
  l_free : bool;
  l_match : option (V -> V -> bool);
  l_len : Z
}.
Arguments mkAdlist {V}.
Arguments l_head {V}.
Arguments l_tail {V}.
Arguments l_dup {V}.
Arguments l_free {V}.
Arguments l_match {V}.
Arguments l_len {V}.

Record amem (V : Type) := mkAmem { anodes : gmap positive (listNode V); freed : list V }.
Arguments mkAmem {V}.
Arguments anodes {V}.
Arguments freed {V}.

Inductive al_direction := AL_START_HEAD | AL_START_TAIL.

Record listIter := mkIter { it_next : option positive; it_direction : al_direction }.

Section adlist.
Context {V : Type}.

#[local] Abbreviation listNode := (listNode V).
#[local] Abbreviation adlist := (adlist V).
#[local] Abbreviation amem := (amem V).

(** ** Fields *)

Definition anode (m : amem) (p : positive) : option listNode := anodes m !! p.
Definition put_node (m : amem) (p : positive) (n : listNode) : amem := mkAmem (<[p := n]> (anodes m)) (freed m).

(** [p->next = q] and [p->prev = q] *)
Definition set_next (m : amem) (p : positive) (q : option positive) : option amem :=
  n ← anode m p; Some (put_node m p (mkLnode (n_prev n) q (n_value n))).
Definition set_prev (m : amem) (p : positive) (q : option positive) : option amem :=
  n ← anode m p; Some (put_node m p (mkLnode q (n_next n) (n_value n))).

(** The same through a pointer that must not be [NULL] *)
Definition set_next' (m : amem) (p q : option positive) : option amem := p ← p; set_next m p q.
Definition set_prev' (m : amem) (p q : option positive) : option amem := p ← p; set_prev m p q.

Definition set_ends (l : adlist) (head tail : option positive) : adlist :=
  mkAdlist head tail (l_dup l) (l_free l) (l_match l) (l_len l).
Definition set_len (l : adlist) (n : Z) : adlist :=
  mkAdlist (l_head l) (l_tail l) (l_dup l) (l_free l) (l_match l) n.

Definition call_free (m : amem) (l : adlist) (v : V) : amem :=
  if l_free l then mkAmem (anodes m) (freed m ++ [v]) else m.
(** [zfree] of a block that is allocated *)
Definition free_node (m : amem) (p : positive) : option amem :=
  _ ← anode m p; Some (mkAmem (base.delete p (anodes m)) (freed m)).

Definition listLength (l : adlist) : Z := l_len l.

(** ** Creation and release *)

Definition listCreate : adlist := mkAdlist None None None false None 0.

Definition listInitNode (m : amem) (p : positive) (v : V) : amem := put_node m p (mkLnode None None v).

(** [while(len--)] *)
Fixpoint empty_loop (len : nat) (m : amem) (l : adlist) (current : option positive) : option amem :=
  match len with
  | O => Some m
  | S len =>
      p ← current;
      n ← anode m p;
      let m := call_free m l (n_value n) in
      m ← free_node m p;
      empty_loop len m l (n_next n)
  end.

Definition listEmpty (m : amem) (l : adlist) : option (amem * adlist) :=
  m ← empty_loop (Z.to_nat (l_len l)) m l (l_head l);
  Some (m, set_len (set_ends l None None) 0).

Definition listRelease (m : amem) (l : adlist) : option amem := '(m, _) ← listEmpty m l; Some m.

(** ** Insertion *)

Definition listLinkNodeHead (m : amem) (l : adlist) (node : positive) : option (amem * adlist) :=
  '(m, l) ←
    (if l_len l =? 0 then
       m ← set_prev m node None;
       m ← set_next m node None;
       Some (m, set_ends l (Some node) (Some node))
     else
       m ← set_prev m node None;
       m ← set_next m node (l_head l);
       m ← set_prev' m (l_head l) (Some node);
       Some (m, set_ends l (Some node) (l_tail l)));
  Some (m, set_len l (u64 (l_len l + 1))).

Definition listLinkNodeTail (m : amem) (l : adlist) (node : positive) : option (amem * adlist) :=
  '(m, l) ←
    (if l_len l =? 0 then
       m ← set_prev m node None;
       m ← set_next m node None;
       Some (m, set_ends l (Some node) (Some node))
     else
       m ← set_prev m node (l_tail l);
       m ← set_next m node None;
       m ← set_next' m (l_tail l) (Some node);
       Some (m, set_ends l (l_head l) (Some node)));
  Some (m, set_len l (u64 (l_len l + 1))).

(** A block fresh from [zmalloc]: the pointers in it hold anything. *)
Definition new_node (m : amem) (p : positive) (junk : option positive * option positive) (v : V) : amem :=
  put_node m p (mkLnode (fst junk) (snd junk) v).

Definition listAddNodeHead (m : amem) (l : adlist) p junk (v : V) : option (amem * adlist) :=
  listLinkNodeHead (new_node m p junk v) l p.

Definition listAddNodeTail (m : amem) (l : adlist) p junk (v : V) : option (amem * adlist) :=
  listLinkNodeTail (new_node m p junk v) l p.

Definition listInsertNode (m : amem) (l : adlist) (old_node : positive) p junk (v : V) (after : bool) : option (amem * adlist) :=
  let m := new_node m p junk v in
  '(m, l) ←
    (if after then
       m ← set_prev m p (Some old_node);
       old ← anode m old_node;
       m ← set_next m p (n_next old);
       Some (m, if bool_decide (l_tail l = Some old_node) then set_ends l (l_head l) (Some p) else l)
     else
       m ← set_next m p (Some old_node);
       old ← anode m old_node;
       m ← set_prev m p (n_prev old);
       Some (m, if bool_decide (l_head l = Some old_node) then set_ends l (Some p) (l_tail l) else l));
  n ← anode m p;
  m ← (match n_prev n with Some q => set_next m q (Some p) | None => Some m end);
  n ← anode m p;
  m ← (match n_next n with Some q => set_prev m q (Some p) | None => Some m end);
  Some (m, set_len l (u64 (l_len l + 1))).

(** ** Removal *)

Definition listUnlinkNode (m : amem) (l : adlist) (node : positive) : option (amem * adlist) :=
  n ← anode m node;
  '(m, l) ←
    (match n_prev n with
     | Some q => m ← set_next m q (n_next n); Some (m, l)
     | None => Some (m, set_ends l (n_next n) (l_tail l))
     end);
  n ← anode m node;
  '(m, l) ←
    (match n_next n with
     | Some q => m ← set_prev m q (n_prev n); Some (m, l)
     | None => Some (m, set_ends l (l_head l) (n_prev n))
     end);
  m ← set_next m node None;
  m ← set_prev m node None;
  Some (m, set_len l (u64 (l_len l - 1))).

Definition listDelNode (m : amem) (l : adlist) (node : positive) : option (amem * adlist) :=
  '(m, l) ← listUnlinkNode m l node;
  n ← anode m node;
  m ← free_node (call_free m l (n_value n)) node;
  Some (m, l).

(** ** Iteration *)

Definition listInitIterator (l : adlist) (direction : al_direction) : listIter :=
  match direction with
  | AL_START_HEAD => mkIter (l_head l) direction
  | AL_START_TAIL => mkIter (l_tail l) direction
  end.

Definition listRewind (l : adlist) : listIter := mkIter (l_head l) AL_START_HEAD.
Definition listRewindTail (l : adlist) : listIter := mkIter (l_tail l) AL_START_TAIL.

Definition listNext (m : amem) (it : listIter) : option (listIter * option positive) :=
  match it_next it with
  | None => Some (it, None)
  | Some p =>
      n ← anode m p;
      let q := match it_direction it with AL_START_HEAD => n_next n | AL_START_TAIL => n_prev n end in
      Some (mkIter q (it_direction it), Some p)
  end.

(** The loop [while((node = listNext(&iter)) != NULL)] with a body that may
    stop it *)
Fixpoint while_next {S R} (fuel : nat) (body : S -> amem -> listNode -> positive -> option (amem * S + R)) (s : S) (m : amem) (it : listIter)
    : option (amem * S + R) :=
  match fuel with
  | O => None
  | Datatypes.S fuel =>
      '(it, node) ← listNext m it;
      match node with
      | None => Some (inl (m, s))
      | Some p =>
          n ← anode m p;
          r ← body s m n p;
          match r with
          | inl (m, s) => while_next fuel body s m it
          | inr r => Some (inr r)
          end
      end
  end.

(** Iterations are over as many nodes as the list has. *)
Definition iter_fuel (l : adlist) : nat := S (Z.to_nat (l_len l)).

(** The body of the loop of [listDup]; the end of the loop, early, is the
    release of the copy. [ps] are the addresses that the allocator gives. *)
Definition dup_body (copy_ps : adlist * list (positive * (option positive * option positive))) (m : amem) (n : listNode) (_ : positive)
    : option (amem * (adlist * list (positive * (option positive * option positive))) + amem) :=
  let '(copy, ps) := copy_ps in
  let value := match l_dup copy with Some dup => dup (n_value n) | None => Some (n_value n) end in
  match value with
  | None => m ← listRelease m copy; Some (inr m)
  | Some v =>
      match ps with
      | [] => None
      | (p, junk) :: ps => '(m, copy) ← listAddNodeTail m copy p junk v; Some (inl (m, (copy, ps)))
      end
  end.

(** [None] inside is the [NULL] of a failure. *)
Definition listDup (m : amem) (orig : adlist) ps : option (amem * option adlist) :=
  let copy := mkAdlist None None (l_dup orig) (l_free orig) (l_match orig) 0 in
  r ← while_next (iter_fuel orig) dup_body (copy, ps) m (listRewind orig);
  match r with
  | inl (m, (copy, _)) => Some (m, Some copy)
  | inr m => Some (m, None)
  end.

Definition search_body `{EqDecision V} (l : adlist) (key : V) (s : unit) (m : amem) (n : listNode) (p : positive)
    : option (amem * unit + positive) :=
  let hit := match l_match l with Some f => f (n_value n) key | None => bool_decide (key = n_value n) end in
  Some (if (hit : bool) then inr p else inl (m, s)).

Definition listSearchKey `{EqDecision V} (m : amem) (l : adlist) (key : V) : option (option positive) :=
  r ← while_next (iter_fuel l) (search_body l key) tt m (listRewind l);
  Some (match r with inl _ => None | inr p => Some p end).

(** [while(index-- && n)]: no more steps than that are taken. *)
Fixpoint index_loop (index : nat) (m : amem) (dir : al_direction) (n : option positive) : option (option positive) :=
  match index, n with
  | S index, Some p =>
      nd ← anode m p;
      index_loop index m dir (match dir with AL_START_HEAD => n_next nd | AL_START_TAIL => n_prev nd end)
  | _, _ => Some n
  end.

(** The negation overflows for the smallest integer. *)
Definition listIndex (m : amem) (l : adlist) (index : Z) : option (option positive) :=
  if index <? 0 then
    if index =? - 2 ^ 63 then None
    else index_loop (Z.to_nat (- index - 1)) m AL_START_TAIL (l_tail l)
  else index_loop (Z.to_nat index) m AL_START_HEAD (l_head l).

(** ** Rotation and concatenation *)

Definition listRotateTailToHead (m : amem) (l : adlist) : option (amem * adlist) :=
  if l_len l <=? 1 then Some (m, l)
  else
    let tail := l_tail l in
    t ← tail; n ← anode m t;
    let l := set_ends l (l_head l) (n_prev n) in
    m ← set_next' m (l_tail l) None;
    m ← set_prev' m (l_head l) tail;
    m ← set_prev m t None;
    m ← set_next m t (l_head l);
    Some (m, set_ends l tail (l_tail l)).

Definition listRotateHeadToTail (m : amem) (l : adlist) : option (amem * adlist) :=
  if l_len l <=? 1 then Some (m, l)
  else
    let head := l_head l in
    h ← head; n ← anode m h;
    let l := set_ends l (n_next n) (l_tail l) in
    m ← set_prev' m (l_head l) None;
    m ← set_next' m (l_tail l) head;
    m ← set_next m h None;
    m ← set_prev m h (l_tail l);
    Some (m, set_ends l (l_head l) head).

(** The two lists, in the order of the arguments *)
Definition listJoin (m : amem) (l o : adlist) : option (amem * adlist * adlist) :=
  if l_len o =? 0 then Some (m, l, o)
  else
    m ← set_prev' m (l_head o) (l_tail l);
    '(m, l) ←
      (match l_tail l with
       | Some t => m ← set_next m t (l_head o); Some (m, l)
       | None => Some (m, set_ends l (l_head o) (l_tail l))
       end);
    let l := set_ends l (l_head l) (l_tail o) in
    let l := set_len l (u64 (l_len l + l_len o)) in
    Some (m, l, set_len (set_ends o None None) 0).
End adlist.
