(* ===== verification/AdlistSpec.v ===== *)
(** * Doubly linked lists: the operations implement sequences

    A list in memory is the sequence of the addresses of its nodes with their
    values ([adlist_ok]). The operations are proved to act on that sequence, to
    leave the nodes of other lists alone ([frame], [grown]), and to free each
    node and each value once. *)

From stdpp Require Import gmap.
From S2P Require Import Prelude Adlist.

#[local] Open Scope Z_scope.

(** ** Segments *)

Section proofs.
Context {V : Type}.

#[local] Abbreviation adlist := (adlist V).
#[local] Abbreviation amem := (amem V).

Implicit Types (m : amem) (l o : adlist) (ns A B : list (positive * V)) (p q : positive) (v : V).

(** The first and the last address of a segment, or the one outside of it *)
Definition head_ptr ns (nx : option positive) : option positive := match ns with [] => nx | (p, _) :: _ => Some p end.
Fixpoint last_ptr (pv : option positive) ns : option positive := match ns with [] => pv | (p, _) :: ns => last_ptr (Some p) ns end.

(** The nodes [ns] are linked both ways, between [pv] and [nx]. *)
Fixpoint dseg m (pv : option positive) ns (nx : option positive) : Prop :=
  match ns with
  | [] => True
  | (p, v) :: ns => anode m p = Some (mkLnode pv (head_ptr ns nx) v) /\ dseg m (Some p) ns nx
  end.

Lemma last_ptr_app pv A B : last_ptr pv (A ++ B) = last_ptr (last_ptr pv A) B.
Proof. revert pv. induction A as [|[p v] A IH]; intros pv; cbn; auto. Qed.

Lemma head_ptr_app A B nx : head_ptr (A ++ B) nx = head_ptr A (head_ptr B nx).
Proof. by destruct A as [|[p v] A]. Qed.

Lemma dseg_app m pv A B nx : dseg m pv (A ++ B) nx <-> dseg m pv A (head_ptr B nx) /\ dseg m (last_ptr pv A) B nx.
Proof.
  revert pv. induction A as [|[p v] A IH]; intros pv; cbn [app dseg last_ptr]; [tauto|]. rewrite IH, head_ptr_app. tauto.
Qed.

(** What an operation on the nodes [ps] leaves alone *)
Record frame (ps : list positive) m m' : Prop := {
  fr_nodes : forall q, q ∉ ps -> anodes m' !! q = anodes m !! q;
  fr_dom : dom (anodes m') = dom (anodes m);
  fr_freed : freed m' = freed m
}.

Lemma frame_trans ps ps' m1 m2 m3 : frame ps m1 m2 -> frame ps' m2 m3 -> frame (ps ++ ps') m1 m3.
Proof.
  intros [H1 H2 H3] [H4 H5 H6]. split; [|congruence..]. intros q Hq. rewrite H4, H1; set_solver.
Qed.

Lemma frame_refl m : frame [] m m.
Proof. by split. Qed.

Lemma frame_weaken ps ps' m m' : ps ⊆ ps' -> frame ps m m' -> frame ps' m m'.
Proof. intros Hs [H1 H2 H3]. split; [|done..]. set_solver. Qed.

Lemma frame_put m p n n' : anode m p = Some n -> frame [p] m (put_node m p n').
Proof.
  intros Hn. split; cbn; [|by rewrite dom_insert_lookup_L by by exists n|done]. intros q Hq. apply lookup_insert_ne. set_solver.
Qed.

Lemma dseg_same m m' pv ns nx :
  (forall q, q ∈ ns.*1 -> anodes m' !! q = anodes m !! q) -> dseg m pv ns nx -> dseg m' pv ns nx.
Proof.
  revert pv. induction ns as [|[p v] ns IH]; intros pv Hd; cbn; [done|]. cbn in Hd. intros [Hn Hs]. split.
  - unfold anode. rewrite Hd by set_solver. done.
  - apply IH; [set_solver|done].
Qed.

Lemma dseg_frame ps m m' pv ns nx : frame ps m m' -> ps ## ns.*1 -> dseg m pv ns nx -> dseg m' pv ns nx.
Proof. intros Hf Hd. apply dseg_same. intros q Hq. apply (fr_nodes _ _ _ Hf). set_solver. Qed.

Lemma dseg_node m pv A p v B nx :
  dseg m pv (A ++ (p, v) :: B) nx -> anode m p = Some (mkLnode (last_ptr pv A) (head_ptr B nx) v).
Proof. rewrite dseg_app. cbn. tauto. Qed.

(** Changing the pointer out of a segment, at its end or at its start *)
Lemma relink_next m pv A nx a :
  dseg m pv A nx -> NoDup A.*1 ->
  exists m', (match last_ptr None A with Some q => set_next m q a | None => Some m end) = Some m' /\
    frame (A.*1) m m' /\ dseg m' pv A a.
Proof.
  destruct A as [|[p v] A _] using rev_ind; intros Hs Hnd.
  { exists m. split_and!; [done|apply frame_refl|done]. }
  rewrite last_ptr_app. cbn [last_ptr]. pose proof (dseg_node _ _ _ _ _ _ _ Hs) as Hn. unfold set_next. rewrite Hn. mstep.
  eexists. split; [done|]. pose proof (frame_put m p _ (mkLnode (last_ptr pv A) a v) Hn) as Hf. cbn [n_prev n_value].
  rewrite fmap_app in Hnd |- *. apply NoDup_app in Hnd as (_ & Hd & _). cbn in Hd. split_and!.
  - eapply frame_weaken, Hf. cbn. set_solver.
  - apply dseg_app in Hs as [HA _]. apply dseg_app. split.
    + eapply dseg_frame; [apply Hf| |apply HA]. set_solver.
    + cbn. split; [apply lookup_insert_eq|done].
Qed.

Lemma relink_prev m pv B nx b :
  dseg m pv B nx -> NoDup B.*1 ->
  exists m', (match head_ptr B None with Some q => set_prev m q b | None => Some m end) = Some m' /\
    frame (B.*1) m m' /\ dseg m' b B nx.
Proof.
  destruct B as [|[p v] B]; intros Hs Hnd.
  { exists m. split_and!; [done|apply frame_refl|done]. }
  cbn [head_ptr]. destruct Hs as [Hn Hs]. unfold set_prev. rewrite Hn. mstep. eexists. split; [done|].
  pose proof (frame_put m p _ (mkLnode b (head_ptr B nx) v) Hn) as Hf. cbn in Hnd. apply NoDup_cons in Hnd as [Hp _]. split_and!.
  - eapply frame_weaken, Hf. cbn. set_solver.
  - cbn. split; [apply lookup_insert_eq|]. eapply dseg_frame; [apply Hf| |apply Hs]. set_solver.
Qed.

(** ** Lists *)

Record adlist_ok m l ns : Prop := {
  al_seg : dseg m None ns None;
  al_head : l_head l = head_ptr ns None;
  al_tail : l_tail l = last_ptr None ns;
  al_len : l_len l = Z.of_nat (length ns);
  al_nodup : NoDup ns.*1;
  al_small : Z.of_nat (length ns) < 2 ^ 64
}.

Definition same_methods l l' : Prop := l_dup l' = l_dup l /\ l_free l' = l_free l /\ l_match l' = l_match l.

(** ** Insertion *)

(** The memory with one more node; the nodes [ps] may have changed. *)
Record grown p (ps : list positive) m m' : Prop := {
  gr_nodes : forall q, q <> p -> q ∉ ps -> anodes m' !! q = anodes m !! q;
  gr_dom : dom (anodes m') = {[p]} ∪ dom (anodes m);
  gr_freed : freed m' = freed m
}.

Lemma grown_frame p m m' junk v ps : frame ps (new_node m p junk v) m' -> grown p ps m m'.
Proof.
  intros [H1 H2 H3]. split; [|rewrite H2; cbn; by rewrite dom_insert_L|done]. intros q Hq Hps. rewrite H1 by done.
  by apply lookup_insert_ne.
Qed.

Lemma new_set_prev m p junk v a : set_prev (new_node m p junk v) p a = Some (new_node m p (a, snd junk) v).
Proof. unfold set_prev, new_node, put_node, anode. cbn. rewrite lookup_insert_eq. mstep. cbn. by rewrite insert_insert_eq. Qed.

Lemma new_set_next m p junk v a : set_next (new_node m p junk v) p a = Some (new_node m p (fst junk, a) v).
Proof. unfold set_next, new_node, put_node, anode. cbn. rewrite lookup_insert_eq. mstep. cbn. by rewrite insert_insert_eq. Qed.

Lemma new_at m p junk v : anode (new_node m p junk v) p = Some (mkLnode (fst junk) (snd junk) v).
Proof. apply lookup_insert_eq. Qed.

Lemma new_other m p junk v q : q <> p -> anode (new_node m p junk v) q = anode m q.
Proof. intros. by apply lookup_insert_ne. Qed.

Lemma dseg_new m p junk v pv ns nx : p ∉ ns.*1 -> dseg m pv ns nx -> dseg (new_node m p junk v) pv ns nx.
Proof. intros Hp. apply dseg_same. intros q Hq. apply (new_other m p junk v q). set_solver. Qed.

Lemma al_fresh m pv ns nx p : dseg m pv ns nx -> anodes m !! p = None -> p ∉ ns.*1.
Proof.
  intros Hs Hp ([q w] & -> & Hin)%list_elem_of_fmap. apply list_elem_of_split in Hin as (A & B & ->).
  apply dseg_node in Hs. unfold anode in Hs. cbn in Hp. congruence.
Qed.

(** The neighbours of a new node are made to point to it. *)
Lemma link_between m A B p v :
  let j := (last_ptr None A, head_ptr B None) in
  dseg m None (A ++ B) None -> NoDup (A ++ B).*1 -> p ∉ (A ++ B).*1 ->
  exists m1 m2, (match last_ptr None A with Some q => set_next (new_node m p j v) q (Some p) | None => Some (new_node m p j v) end) = Some m1 /\
    anode m1 p = Some (mkLnode (fst j) (snd j) v) /\
    (match head_ptr B None with Some q => set_prev m1 q (Some p) | None => Some m1 end) = Some m2 /\
    grown p (A ++ B).*1 m m2 /\ dseg m2 None (A ++ (p, v) :: B) None.
Proof.
  intros j Hs Hnd Hp. apply dseg_app in Hs as [HA HB]. rewrite fmap_app in *. apply NoDup_app in Hnd as (HnA & Hd & HnB).
  apply (dseg_new m p j v) in HA, HB; [|set_solver..].
  destruct (relink_next _ _ _ _ (Some p) HA HnA) as (m1 & -> & Hf1 & HA1).
  assert (HB1 : dseg m1 (last_ptr None A) B None) by (eapply dseg_frame; [apply Hf1|set_solver|done]).
  destruct (relink_prev _ _ _ _ (Some p) HB1 HnB) as (m2 & Hm2 & Hf2 & HB2).
  assert (Hn1 : anode m1 p = Some (mkLnode (fst j) (snd j) v)).
  { unfold anode. rewrite (fr_nodes _ _ _ Hf1) by set_solver. apply new_at. }
  exists m1, m2. split_and!; [done..| |].
  - eapply grown_frame, frame_trans; done.
  - apply dseg_app. split; [eapply dseg_frame; [apply Hf2|set_solver|done]|]. cbn. split; [|done].
    unfold anode. rewrite (fr_nodes _ _ _ Hf2) by set_solver. done.
Qed.

Lemma inserted_ok m m' l l' A B p v :
  adlist_ok m l (A ++ B) -> p ∉ (A ++ B).*1 -> Z.of_nat (length (A ++ B)) < 2 ^ 64 - 1 ->
  dseg m' None (A ++ (p, v) :: B) None ->
  l_head l' = head_ptr (A ++ (p, v) :: B) None -> l_tail l' = last_ptr None (A ++ (p, v) :: B) -> l_len l' = u64 (l_len l + 1) ->
  adlist_ok m' l' (A ++ (p, v) :: B).
Proof.
  intros [_ _ _ Hlen Hnd _] Hp Hsm Hs' Hh Ht Hl. rewrite length_app in *. cbn [length]. split; try done.
  - rewrite Hl, Hlen, wrapU_id by (unfold inU; lia). rewrite length_app. cbn [length]. lia.
  - rewrite fmap_app in *. cbn. rewrite <- Permutation_middle. apply NoDup_cons. done.
  - rewrite length_app. cbn [length]. lia.
Qed.

Lemma addHead_ok m l ns p junk v :
  adlist_ok m l ns -> anodes m !! p = None -> Z.of_nat (length ns) < 2 ^ 64 - 1 ->
  exists m' l', listAddNodeHead m l p junk v = Some (m', l') /\ adlist_ok m' l' ((p, v) :: ns) /\ grown p ns.*1 m m' /\ same_methods l l'.
Proof.
  intros Hok Hp Hsm. pose proof Hok as [Hs Hh Ht Hl Hnd _]. pose proof (al_fresh _ _ _ _ _ Hs Hp) as Hp'.
  unfold listAddNodeHead, listLinkNodeHead. destruct (link_between m [] ns p v Hs Hnd Hp') as (m1 & m2 & [= <-] & _ & Hm2 & Hg & Hs2).
  cbn [app last_ptr] in *. rewrite Hl, !new_set_prev. destruct (Z.eqb_spec (Z.of_nat (length ns)) 0) as [H0|H0].
  - destruct ns; [|done]. mstep. rewrite new_set_next. mstep. cbn [fst]. injection Hm2 as <-. eexists _, _. split; [done|].
    split_and!; [|done|done]. apply (inserted_ok m _ l _ [] []); try done; cbn; by rewrite Hl.
  - mstep. rewrite new_set_next. mstep. cbn [fst]. rewrite Hh. destruct ns as [|[q w] ns]; [done|]. cbn [head_ptr] in *. unfold set_prev'. mstep. rewrite Hm2. mstep. eexists _, _. split; [done|]. split_and!; [|done|done].
    apply (inserted_ok m _ l _ [] ((q, w) :: ns)); try done; cbn; by rewrite Hl.
Qed.

Lemma addTail_ok m l ns p junk v :
  adlist_ok m l ns -> anodes m !! p = None -> Z.of_nat (length ns) < 2 ^ 64 - 1 ->
  exists m' l', listAddNodeTail m l p junk v = Some (m', l') /\ adlist_ok m' l' (ns ++ [(p, v)]) /\ grown p ns.*1 m m' /\ same_methods l l'.
Proof.
  intros Hok Hp Hsm. pose proof Hok as [Hs Hh Ht Hl Hnd _]. pose proof (al_fresh _ _ _ _ _ Hs Hp) as Hp'.
  unfold listAddNodeTail, listLinkNodeTail.
  destruct (link_between m ns [] p v) as (m1 & m2 & Hm1 & _ & [= <-] & Hg & Hs2); rewrite ?app_nil_r in *; try done.
  cbn [head_ptr] in *. rewrite Hl, !new_set_prev. destruct (Z.eqb_spec (Z.of_nat (length ns)) 0) as [H0|H0].
  - destruct ns; [|done]. mstep. rewrite new_set_next. mstep. cbn [fst]. injection Hm1 as <-. eexists _, _. split; [done|].
    split_and!; [|done|done]. apply (inserted_ok m _ l _ [] []); try done; cbn; by rewrite Hl.
  - mstep. rewrite new_set_next. mstep. cbn [fst]. rewrite Ht. assert (exists q, last_ptr None ns = Some q) as [q Hq].
    { destruct ns as [|[q w] ns _] using rev_ind; [done|]. rewrite last_ptr_app. by eexists. }
    rewrite Hq in *. unfold set_next'. mstep. rewrite Hm1. mstep. eexists _, _. split; [done|]. split_and!; [|done|done].
    apply (inserted_ok m _ l _ ns []); rewrite ?app_nil_r; try done; cbn; rewrite ?last_ptr_app, ?head_ptr_app, ?Hl, ?Hh; try done.
    by destruct ns as [|[]].
Qed.

(** A node is at an end of the list exactly when the list says so. *)
Lemma tail_here A q w B : NoDup (A ++ (q, w) :: B).*1 -> last_ptr None (A ++ (q, w) :: B) = Some q <-> B = [].
Proof.
  rewrite last_ptr_app. cbn. intros Hnd. split; [|by intros ->].
  destruct B as [|[z u] B _] using rev_ind; [done|]. rewrite last_ptr_app. cbn. intros [= ->]. exfalso.
  rewrite fmap_app in Hnd. cbn in Hnd. apply NoDup_app in Hnd as (_ & _ & Hnd). apply NoDup_cons in Hnd as [Hout _].
  rewrite fmap_app in Hout. set_solver.
Qed.

Lemma head_here A q w B : NoDup (A ++ (q, w) :: B).*1 -> head_ptr (A ++ (q, w) :: B) None = Some q <-> A = [].
Proof.
  rewrite head_ptr_app. cbn. intros Hnd. split; [|by intros ->].
  destruct A as [|[z u] A]; [done|]. cbn. intros [= ->]. exfalso. cbn in Hnd. apply NoDup_cons in Hnd as [Hout _].
  rewrite fmap_app in Hout. set_solver.
Qed.

Lemma insertAfter_ok m l A B q w p junk v :
  adlist_ok m l (A ++ (q, w) :: B) -> anodes m !! p = None -> Z.of_nat (length (A ++ (q, w) :: B)) < 2 ^ 64 - 1 ->
  exists m' l', listInsertNode m l q p junk v true = Some (m', l') /\ adlist_ok m' l' (A ++ (q, w) :: (p, v) :: B) /\
    grown p (A ++ (q, w) :: B).*1 m m' /\ same_methods l l'.
Proof.
  intros Hok Hp Hsm. pose proof Hok as [Hs Hh Ht Hl Hnd _]. pose proof (al_fresh _ _ _ _ _ Hs Hp) as Hp'.
  pose proof (dseg_node _ _ _ _ _ _ _ Hs) as Hq. assert (Hqp : q <> p) by (intros ->; unfold anode in Hq; congruence).
  assert (Hend : l_tail l = Some q <-> B = []) by (rewrite Ht; by apply tail_here).
  destruct (link_between m (A ++ [(q, w)]) B p v) as (m1 & m2 & Hm1 & Hn1 & Hm2 & Hg & Hs2); rewrite <- ?app_assoc in *; try done.
  unfold listInsertNode. rewrite last_ptr_app in *. cbn [last_ptr app fst snd] in *. rewrite new_set_prev. mstep.
  rewrite new_other, Hq by done. mstep. rewrite new_set_next. mstep. cbn [fst n_next]. rewrite new_at. mstep.
  cbn [fst snd n_prev n_next]. rewrite Hm1. mstep. rewrite Hn1. mstep. cbn [n_next]. rewrite Hm2. mstep.
  rewrite (bool_decide_ext _ (B = [])) by done.
  eexists _, _. split; [done|]. split_and!; [|done|by case_bool_decide].
  replace (A ++ (q, w) :: (p, v) :: B) with ((A ++ [(q, w)]) ++ (p, v) :: B) by by rewrite <- app_assoc.
  apply (inserted_ok m _ l); rewrite <- ?app_assoc; try done; case_bool_decide as Hc; cbn; rewrite ?Hh, ?Ht; try done.
  - by rewrite !head_ptr_app.
  - by rewrite !head_ptr_app.
  - subst B. by rewrite last_ptr_app.
  - rewrite !last_ptr_app. by destruct B as [|[]].
Qed.

Lemma insertBefore_ok m l A B q w p junk v :
  adlist_ok m l (A ++ (q, w) :: B) -> anodes m !! p = None -> Z.of_nat (length (A ++ (q, w) :: B)) < 2 ^ 64 - 1 ->
  exists m' l', listInsertNode m l q p junk v false = Some (m', l') /\ adlist_ok m' l' (A ++ (p, v) :: (q, w) :: B) /\
    grown p (A ++ (q, w) :: B).*1 m m' /\ same_methods l l'.
Proof.
  intros Hok Hp Hsm. pose proof Hok as [Hs Hh Ht Hl Hnd _]. pose proof (al_fresh _ _ _ _ _ Hs Hp) as Hp'.
  pose proof (dseg_node _ _ _ _ _ _ _ Hs) as Hq. assert (Hqp : q <> p) by (intros ->; unfold anode in Hq; congruence).
  assert (Hend : l_head l = Some q <-> A = []) by (rewrite Hh; by apply head_here).
  destruct (link_between m A ((q, w) :: B) p v) as (m1 & m2 & Hm1 & Hn1 & Hm2 & Hg & Hs2); try done.
  unfold listInsertNode. cbn [head_ptr fst snd] in *. rewrite new_set_next. mstep.
  rewrite new_other, Hq by done. mstep. rewrite new_set_prev. mstep. cbn [snd n_prev]. rewrite new_at. mstep.
  cbn [fst snd n_prev n_next]. rewrite Hm1. mstep. rewrite Hn1. mstep. cbn [n_next]. rewrite Hm2. mstep.
  rewrite (bool_decide_ext _ (A = [])) by done.
  eexists _, _. split; [done|]. split_and!; [|done|by case_bool_decide].
  apply (inserted_ok m _ l); try done; case_bool_decide as Hc; cbn; rewrite ?Hh, ?Ht; try done.
  - by subst A.
  - rewrite !head_ptr_app. by destruct A as [|[]].
  - by rewrite !last_ptr_app.
  - by rewrite !last_ptr_app.
Qed.

(** ** Removal *)

Lemma unlinked_ok m A B p v :
  dseg m None (A ++ (p, v) :: B) None -> NoDup (A ++ (p, v) :: B).*1 ->
  exists m1 m2, (match last_ptr None A with Some q => set_next m q (head_ptr B None) | None => Some m end) = Some m1 /\
    anode m1 p = anode m p /\
    (match head_ptr B None with Some q => set_prev m1 q (last_ptr None A) | None => Some m1 end) = Some m2 /\
    anode m2 p = anode m p /\ frame (A ++ B).*1 m m2 /\ dseg m2 None (A ++ B) None.
Proof.
  intros Hs Hnd. apply dseg_app in Hs as [HA [_ HB]]. rewrite !fmap_app in *. cbn in Hnd.
  apply NoDup_app in Hnd as (HnA & Hd & [Hp HnB]%NoDup_cons).
  destruct (relink_next _ _ _ _ (head_ptr B None) HA HnA) as (m1 & -> & Hf1 & HA1).
  assert (HB1 : dseg m1 (Some p) B None) by (eapply dseg_frame; [apply Hf1|set_solver|done]).
  destruct (relink_prev _ _ _ _ (last_ptr None A) HB1 HnB) as (m2 & Hm2 & Hf2 & HB2).
  pose proof (frame_trans _ _ _ _ _ Hf1 Hf2) as Hf. exists m1, m2. split_and!; [done| |done| |done|].
  - apply (fr_nodes _ _ _ Hf1). set_solver.
  - apply (fr_nodes _ _ _ Hf). set_solver.
  - apply dseg_app. split; [eapply dseg_frame; [apply Hf2|set_solver|done]|done].
Qed.

(** The node stays allocated, outside of the list. *)
Lemma unlinkNode_ok m l A B p v :
  adlist_ok m l (A ++ (p, v) :: B) ->
  exists m' l', listUnlinkNode m l p = Some (m', l') /\ adlist_ok m' l' (A ++ B) /\
    frame (A ++ (p, v) :: B).*1 m m' /\ anode m' p = Some (mkLnode None None v) /\ same_methods l l'.
Proof.
  intros Hok. pose proof Hok as [Hs Hh Ht Hl Hnd Hsm]. pose proof (dseg_node _ _ _ _ _ _ _ Hs) as Hp.
  destruct (unlinked_ok m A B p v Hs Hnd) as (m1 & m2 & Hm1 & Hn1 & Hm2 & Hn2 & Hf & Hs2). unfold listUnlinkNode.
  rewrite Hp. mstep. cbn [n_prev n_next].
  assert (H1 : (match last_ptr None A with Some q => m ← set_next m q (head_ptr B None); Some (m, l)
    | None => Some (m, set_ends l (head_ptr B None) (l_tail l)) end) =
    Some (m1, if bool_decide (A = []) then set_ends l (head_ptr B None) (l_tail l) else l)).
  { destruct A as [|[q w] A _] using rev_ind; [by injection Hm1 as ->|]. rewrite last_ptr_app in Hm1 |- *. cbn [last_ptr] in Hm1 |- *.
    rewrite Hm1. mstep. rewrite bool_decide_false by by destruct A. done. }
  rewrite H1. clear H1. mstep. rewrite Hn1, Hp. mstep. cbn [n_prev n_next]. set (l1 := if bool_decide (A = []) then _ else _).
  assert (Hl1 : l_head l1 = head_ptr (A ++ B) None /\ l_tail l1 = l_tail l /\ same_methods l l1 /\ l_len l1 = l_len l).
  { unfold l1. case_bool_decide as HA; [rewrite HA; split_and!; done|]. split_and!; try done. rewrite Hh, !head_ptr_app. by destruct A as [|[]]. } clearbody l1.
  assert (H2 : (match head_ptr B None with Some q => m ← set_prev m1 q (last_ptr None A); Some (m, l1)
    | None => Some (m1, set_ends l1 (l_head l1) (last_ptr None A)) end) =
    Some (m2, if bool_decide (B = []) then set_ends l1 (l_head l1) (last_ptr None A) else l1)).
  { destruct B as [|[q w] B]; [by injection Hm2 as ->|]. cbn [head_ptr] in Hm2 |- *. rewrite Hm2. mstep. done. }
  rewrite H2. clear H2. mstep. set (l2 := if bool_decide (B = []) then _ else _).
  assert (Hl2 : l_head l2 = head_ptr (A ++ B) None /\ l_tail l2 = last_ptr None (A ++ B) /\ same_methods l l2 /\ l_len l2 = l_len l).
  { destruct Hl1 as (E1 & E2 & E3 & E4). unfold l2. case_bool_decide as HB; [cbn; rewrite E1, HB, app_nil_r; split_and!; try done; apply E3|].
    split_and!; try done. rewrite E2, Ht, !last_ptr_app. by destruct B as [|[]]. } clearbody l2.
  unfold set_next. rewrite Hn2, Hp. mstep. unfold set_prev, anode, put_node. cbn. rewrite lookup_insert_eq. mstep. cbn.
  rewrite insert_insert_eq. eexists _, _. split; [done|].
  destruct Hl2 as (E1 & E2 & E3 & E4). rewrite fmap_app in Hnd. cbn in Hnd. rewrite <- Permutation_middle in Hnd.
  apply NoDup_cons in Hnd as [Hout Hnd]. rewrite length_app in *. cbn [length] in *.
  split_and!.
  - split; cbn; try done.
    + eapply dseg_frame; [eapply (frame_put m2 p)| |exact Hs2]; [rewrite Hn2; exact Hp|]. rewrite fmap_app. set_solver.
    + rewrite E4, Hl, wrapU_id by (unfold inU; lia). rewrite length_app. lia.
    + by rewrite fmap_app.
    + rewrite length_app. lia.
  - eapply frame_weaken; [|eapply frame_trans; [apply Hf|eapply (frame_put m2 p); rewrite Hn2; exact Hp]].
    rewrite !fmap_app. set_solver.
  - apply lookup_insert_eq.
  - done.
Qed.

(** The memory without the nodes of [rm]; the nodes [ps] may have changed, and
    the values of [rm] were passed to the [free] method. *)
Record shrunk l rm (ps : list positive) m m' : Prop := {
  sh_nodes : forall q, q ∉ ps -> anodes m' !! q = anodes m !! q;
  sh_dom : dom (anodes m') = dom (anodes m) ∖ list_to_set rm.*1;
  sh_freed : freed m' = freed m ++ (if l_free l then rm.*2 else [])
}.

(** [free] of the value and [zfree] of the node *)
Lemma free_one m l p v n :
  anode m p = Some n -> n_value n = v ->
  exists m', free_node (call_free m l v) p = Some m' /\ shrunk l [(p, v)] [p] m m'.
Proof.
  intros Hn Hv. assert (Hc : anodes (call_free m l v) = anodes m) by (unfold call_free; by destruct (l_free l)).
  unfold free_node, anode. rewrite Hc. unfold anode in Hn. rewrite Hn. mstep. eexists. split; [done|]. split; cbn.
  - intros q Hq. apply lookup_delete_ne. set_solver.
  - rewrite dom_delete_L. set_solver.
  - unfold call_free. destruct (l_free l); cbn; [done|by rewrite app_nil_r].
Qed.

Lemma delNode_ok m l A B p v :
  adlist_ok m l (A ++ (p, v) :: B) ->
  exists m' l', listDelNode m l p = Some (m', l') /\ adlist_ok m' l' (A ++ B) /\
    shrunk l [(p, v)] (A ++ (p, v) :: B).*1 m m' /\ same_methods l l'.
Proof.
  intros Hok. pose proof (al_nodup _ _ _ Hok) as Hnd. unfold listDelNode.
  destruct (unlinkNode_ok m l A B p v Hok) as (m1 & l1 & -> & Hok1 & Hf & Hp & Hm). mstep. rewrite Hp. mstep.
  destruct (free_one m1 l1 p v _ Hp eq_refl) as (m2 & Hm2 & [S1 S2 S3]). cbn [n_value]. rewrite Hm2. mstep. eexists _, _.
  split; [done|]. rewrite fmap_app in Hnd. cbn in Hnd. rewrite <- Permutation_middle in Hnd. apply NoDup_cons in Hnd as [Hout _].
  split_and!; [| |done].
  - destruct Hok1 as [Hs ?????]. split; try done. eapply dseg_same; [|exact Hs].
    intros q Hq. apply S1. rewrite fmap_app in Hq. set_solver.
  - destruct Hf as [F1 F2 F3]. destruct Hm as (_ & Hfr & _). rewrite Hfr in S3. split.
    + intros q Hq. rewrite fmap_app in Hq. cbn in Hq. rewrite S1 by set_solver. apply F1. rewrite fmap_app. cbn. set_solver.
    + by rewrite S2, F2.
    + by rewrite S3, F3.
Qed.

Lemma empty_loop_ok ns l m pv :
  dseg m pv ns None -> NoDup ns.*1 ->
  exists m', empty_loop (length ns) m l (head_ptr ns None) = Some m' /\ shrunk l ns ns.*1 m m'.
Proof.
  revert m pv. induction ns as [|[p v] ns IH]; intros m pv Hs Hnd; cbn [length empty_loop head_ptr].
  { exists m. split; [done|]. split; [done|set_solver|]. by destruct (l_free l); rewrite app_nil_r. }
  destruct Hs as [Hn Hs]. cbn in Hnd. apply NoDup_cons in Hnd as [Hp Hnd]. mstep. rewrite Hn. mstep. cbn [n_value n_next].
  destruct (free_one m l p v _ Hn eq_refl) as (m1 & -> & [S1 S2 S3]). mstep.
  destruct (IH m1 (Some p)) as (m2 & -> & [T1 T2 T3]); [|done|].
  { eapply dseg_same; [|exact Hs]. intros q Hq. apply S1. set_solver. }
  eexists. split; [done|]. split; cbn.
  - intros q Hq. rewrite T1 by set_solver. apply S1. set_solver.
  - rewrite T2, S2. set_solver.
  - rewrite T3, S3. cbn. destruct (l_free l); [by rewrite <- app_assoc|by rewrite !app_nil_r].
Qed.

Lemma empty_list_ok m l ns :
  adlist_ok m l ns ->
  exists m' l', listEmpty m l = Some (m', l') /\ adlist_ok m' l' [] /\ shrunk l ns ns.*1 m m' /\ same_methods l l'.
Proof.
  intros [Hs Hh Ht Hl Hnd Hsm]. unfold listEmpty. rewrite Hl, Nat2Z.id, Hh.
  destruct (empty_loop_ok ns l m None Hs Hnd) as (m' & -> & Hsh). mstep. eexists _, _. split; [done|]. split_and!; [|done|done].
  split; try done. constructor.
Qed.

(** ** Rotation *)

Lemma rotateTailToHead_ok m l A p v :
  adlist_ok m l (A ++ [(p, v)]) ->
  exists m' l', listRotateTailToHead m l = Some (m', l') /\ adlist_ok m' l' ((p, v) :: A) /\
    frame (A ++ [(p, v)]).*1 m m' /\ same_methods l l'.
Proof.
  intros Hok. pose proof Hok as [Hs Hh Ht Hl Hnd Hsm]. unfold listRotateTailToHead. rewrite Hl, length_app in *. cbn [length] in *.
  destruct (Z.leb_spec (Z.of_nat (length A + 1)) 1) as [H1|H1].
  { destruct A; [|cbn in H1; lia]. exists m, l. split_and!; done. }
  rewrite Ht, last_ptr_app. cbn [last_ptr]. mstep. pose proof (dseg_node _ _ _ _ _ _ _ Hs) as Hp. rewrite Hp. mstep.
  cbn [set_ends l_head l_tail n_prev]. apply dseg_app in Hs as [HA _]. rewrite fmap_app in *. apply NoDup_app in Hnd as (HnA & Hd & _).
  cbn in Hd. destruct (relink_next m None A _ None HA HnA) as (m1 & Hm1 & F1 & HA1).
  destruct (relink_prev m1 None A None (Some p) HA1 HnA) as (m2 & Hm2 & F2 & HA2).
  assert (exists q, last_ptr None A = Some q) as [q Hq].
  { destruct A as [|[q w] A _] using rev_ind; [cbn in H1; lia|]. rewrite last_ptr_app. by eexists. }
  assert (exists r, head_ptr A None = Some r) as [r Hr] by (destruct A as [|[r w] A]; [cbn in H1; lia|by eexists]).
  rewrite Hh, head_ptr_app. cbn [head_ptr]. assert (head_ptr A (Some p) = Some r) as -> by by destruct A as [|[]].
  rewrite Hq in *. rewrite Hr in *. unfold set_next', set_prev'. mstep. rewrite Hm1. mstep. rewrite Hm2. mstep.
  pose proof (frame_trans _ _ _ _ _ F1 F2) as F. assert (Hp2 : anode m2 p = anode m p) by (apply (fr_nodes _ _ _ F); set_solver).
  unfold set_prev. rewrite Hp2, Hp. mstep. unfold set_next, anode, put_node. cbn. rewrite lookup_insert_eq. mstep. cbn.
  rewrite insert_insert_eq. eexists _, _. split; [done|].
  assert (Fp : frame [p] m2 (put_node m2 p (mkLnode None (Some r) v))) by (eapply frame_put; by rewrite Hp2).
  split_and!; [| |done].
  - split; cbn; try done.
    + split; [unfold anode; cbn; rewrite lookup_insert_eq; by rewrite Hr|]. eapply dseg_frame; [apply Fp|set_solver|done].
    + destruct A as [|[z u] A]; [cbn in H1; lia|]. cbn in Hq |- *. done.
    + rewrite Hl. lia.
    + constructor; [set_solver|done].
    + lia.
  - eapply frame_weaken; [|eapply frame_trans; [apply F|apply Fp]]. set_solver.
Qed.

Lemma rotateHeadToTail_ok m l A p v :
  adlist_ok m l ((p, v) :: A) ->
  exists m' l', listRotateHeadToTail m l = Some (m', l') /\ adlist_ok m' l' (A ++ [(p, v)]) /\
    frame ((p, v) :: A).*1 m m' /\ same_methods l l'.
Proof.
  intros Hok. pose proof Hok as [Hs Hh Ht Hl Hnd Hsm]. unfold listRotateHeadToTail. rewrite Hl. cbn [length] in *.
  destruct (Z.leb_spec (Z.of_nat (S (length A))) 1) as [H1|H1].
  { destruct A; [|cbn in H1; lia]. exists m, l. split_and!; done. }
  rewrite Hh. cbn [head_ptr]. mstep. destruct Hs as [Hp HA]. rewrite Hp. mstep. cbn [set_ends l_head l_tail n_next].
  cbn in Hnd. apply NoDup_cons in Hnd as [Hout HnA].
  destruct (relink_prev m _ A _ None HA HnA) as (m1 & Hm1 & F1 & HA1).
  destruct (relink_next m1 None A None (Some p) HA1 HnA) as (m2 & Hm2 & F2 & HA2).
  assert (exists q, last_ptr None A = Some q) as [q Hq].
  { destruct A as [|[q w] A _] using rev_ind; [cbn in H1; lia|]. rewrite last_ptr_app. by eexists. }
  assert (exists r, head_ptr A None = Some r) as [r Hr] by (destruct A as [|[r w] A]; [cbn in H1; lia|by eexists]).
  rewrite Ht. cbn [last_ptr]. assert (last_ptr (Some p) A = Some q) as ->.
  { destruct A as [|[z u] A]; [cbn in H1; lia|]. exact Hq. }
  rewrite Hq in *. rewrite Hr in *. unfold set_next', set_prev'. mstep. rewrite Hm1. mstep. rewrite Hm2. mstep.
  pose proof (frame_trans _ _ _ _ _ F1 F2) as F. assert (Hp2 : anode m2 p = anode m p) by (apply (fr_nodes _ _ _ F); set_solver).
  unfold set_next. rewrite Hp2, Hp. mstep. unfold set_prev, anode, put_node. cbn. rewrite lookup_insert_eq. mstep. cbn.
  rewrite insert_insert_eq. eexists _, _. split; [done|].
  assert (Fp : frame [p] m2 (put_node m2 p (mkLnode (Some q) None v))) by (eapply frame_put; by rewrite Hp2, Hp).
  split_and!; [| |done].
  - split; cbn; try done.
    + apply dseg_app. split; [eapply dseg_frame; [apply Fp|set_solver|done]|]. cbn.
      split; [unfold anode; cbn; rewrite lookup_insert_eq; by rewrite Hq|done].
    + rewrite head_ptr_app. cbn. by destruct A as [|[]].
    + by rewrite last_ptr_app.
    + rewrite Hl, length_app. cbn. lia.
    + rewrite fmap_app. apply NoDup_app. split_and!; [done|set_solver|apply NoDup_singleton].
    + rewrite length_app. cbn. lia.
  - eapply frame_weaken; [|eapply frame_trans; [apply F|apply Fp]]. cbn. set_solver.
Qed.

(** ** Concatenation *)

Lemma join_ok m l o ns os :
  adlist_ok m l ns -> adlist_ok m o os -> ns.*1 ## os.*1 -> Z.of_nat (length (ns ++ os)) < 2 ^ 64 ->
  exists m' l' o', listJoin m l o = Some (m', l', o') /\ adlist_ok m' l' (ns ++ os) /\ adlist_ok m' o' [] /\
    frame (ns ++ os).*1 m m' /\ same_methods l l' /\ same_methods o o'.
Proof.
  intros [Hs Hh Ht Hl Hnd Hsm] [Hs' Hh' Ht' Hl' Hnd' Hsm'] Hdis Hlen. unfold listJoin. rewrite Hl'.
  destruct (Z.eqb_spec (Z.of_nat (length os)) 0) as [H0|H0].
  { destruct os; [|done]. exists m, l, o. rewrite !app_nil_r. split_and!; done. }
  destruct (relink_prev m None os None (last_ptr None ns) Hs' Hnd') as (m1 & Hm1 & F1 & Hs1).
  assert (Hns1 : dseg m1 None ns None) by (eapply dseg_frame; [apply F1|set_solver|done]).
  destruct (relink_next m1 None ns None (head_ptr os None) Hns1 Hnd) as (m2 & Hm2 & F2 & Hs2).
  rewrite Hh', Ht. assert (exists r, head_ptr os None = Some r) as [r Hr] by (destruct os as [|[]]; [done|by eexists]).
  rewrite Hr in *. unfold set_prev'. mstep. rewrite Hm1. mstep.
  assert (Hstep : (match last_ptr None ns with Some t => m ← set_next m1 t (Some r); Some (m, l)
      | None => Some (m1, set_ends l (Some r) (last_ptr None ns)) end) =
      Some (m2, if bool_decide (ns = []) then set_ends l (Some r) (last_ptr None ns) else l)).
  { destruct ns as [|[q w] A _] using rev_ind; [by injection Hm2 as ->|]. rewrite last_ptr_app in Hm2 |- *. cbn [last_ptr] in Hm2 |- *.
    rewrite Hm2. mstep. rewrite bool_decide_false by by destruct A. done. }
  rewrite Hstep. clear Hstep. mstep. eexists _, _, _. split; [done|]. pose proof (frame_trans _ _ _ _ _ F1 F2) as F.
  rewrite length_app in Hlen. split_and!.
  - split.
    + apply dseg_app. rewrite Hr. split; [done|]. eapply dseg_frame; [apply F2|set_solver|done].
    + cbn. rewrite head_ptr_app, Hr. case_bool_decide as Hc; [by rewrite Hc|]. cbn. rewrite Hh. by destruct ns as [|[]].
    + cbn. rewrite last_ptr_app, Ht'. by destruct os as [|[]].
    + cbn. case_bool_decide; cbn; rewrite Hl, wrapU_id by (unfold inU; lia); rewrite length_app; lia.
    + rewrite fmap_app. apply NoDup_app. split_and!; [done|set_solver|done].
    + rewrite length_app. lia.
  - split; try done. constructor.
  - eapply frame_weaken, F. rewrite fmap_app. set_solver.
  - by case_bool_decide.
  - done.
Qed.

(** ** Iteration *)

(** The nodes still to come, in the direction of the iterator *)
Definition ahead m (it : listIter) ns : Prop :=
  match it_direction it with
  | AL_START_HEAD => it_next it = head_ptr ns None /\ exists pv, dseg m pv ns None
  | AL_START_TAIL => it_next it = last_ptr None (reverse ns) /\ exists nx, dseg m None (reverse ns) nx
  end.

Lemma listNext_ok m it ns :
  ahead m it ns ->
  match ns with
  | [] => listNext m it = Some (it, None)
  | (p, v) :: ns => exists it' n, listNext m it = Some (it', Some p) /\ anode m p = Some n /\ n_value n = v /\
      it_direction it' = it_direction it /\ ahead m it' ns
  end.
Proof.
  unfold ahead, listNext. destruct it as [q dir]. cbn [it_next it_direction]. destruct dir; intros (-> & pv & Hs); destruct ns as [|[p v] ns]; try done.
  - cbn in Hs |- *. destruct Hs as [Hn Hs]. rewrite Hn. mstep. eexists _, _. split_and!; try done. cbn. split; [done|]. by exists (Some p).
  - rewrite reverse_cons, last_ptr_app in *. cbn. pose proof (dseg_node _ _ _ _ _ _ _ Hs) as Hn. rewrite Hn. mstep. eexists _, _.
    split_and!; try done. cbn. apply dseg_app in Hs as [Hs _]. split; [done|]. by eexists.
Qed.

Lemma ahead_start m l ns dir :
  adlist_ok m l ns -> ahead m (listInitIterator l dir) (match dir with AL_START_HEAD => ns | AL_START_TAIL => reverse ns end).
Proof.
  intros [Hs Hh Ht _ _ _]. destruct dir; unfold ahead; cbn; [|rewrite reverse_involutive]; split; try done; by eexists.
Qed.

(** An invariant of the loop over a list, in a direction: the body may change
    the memory, as long as the nodes to come are still ahead. *)
Lemma while_rule {S R} (body : S -> amem -> listNode V -> positive -> option (amem * S + R))
    (dir : al_direction) (I : list (positive * V) -> S -> amem -> Prop) (Q : R -> Prop) :
  (forall s m n p v todo, I ((p, v) :: todo) s m -> anode m p = Some n -> n_value n = v ->
     exists r, body s m n p = Some r /\
       match r with
       | inl (m', s') => I todo s' m' /\ (forall it, it_direction it = dir -> ahead m it todo -> ahead m' it todo)
       | inr r => Q r
       end) ->
  forall fuel ns s m it, it_direction it = dir -> ahead m it ns -> I ns s m -> (length ns < fuel)%nat ->
  exists r, while_next fuel body s m it = Some r /\ match r with inl (m', s') => I [] s' m' | inr r => Q r end.
Proof.
  intros Hbody. induction fuel as [|fuel IH]; intros ns s m it Hdir Ha HI Hf; [lia|]. cbn [while_next]. pose proof (listNext_ok m it ns Ha) as Hn.
  destruct ns as [|[p v] ns].
  - rewrite Hn. mstep. by eexists.
  - destruct Hn as (it' & n & -> & Hp & Hv & Hdir' & Ha'). mstep. rewrite Hp. mstep.
    destruct (Hbody s m n p v ns HI Hp Hv) as (r & -> & Hr). mstep. destruct r as [[m' s']|r]; [|by eexists].
    destruct Hr as [HI' Hahead]. cbn in Hf. apply (IH ns); [congruence| |done|lia].
    apply Hahead; [congruence|done].
Qed.

Lemma fuel_enough m l ns : adlist_ok m l ns -> (length ns < iter_fuel l)%nat.
Proof. intros Hok. unfold iter_fuel. rewrite (al_len _ _ _ Hok). lia. Qed.

(** ** Search *)

Lemma index_loop_ok k m dir (c : option positive) ns : ahead m (mkIter c dir) ns -> index_loop k m dir c = Some (fst <$> ns !! k).
Proof.
  revert c ns. induction k as [|k IH]; intros c ns Ha; pose proof (listNext_ok m _ ns Ha) as Hn; unfold listNext in Hn; cbn [it_next it_direction] in Hn.
  - cbn. destruct c as [q|]; destruct ns as [|[p v] ns]; try done.
    + destruct (anode m q); done.
    + destruct Hn as (it' & n & Hn & _). destruct (anode m q); [|done]. revert Hn. mstep. by intros [= _ ->].
    + by destruct Hn as (it' & n & [= _ ?] & _).
  - cbn. destruct c as [q|]; destruct ns as [|[p v] ns]; try done.
    + destruct (anode m q); done.
    + destruct Hn as (it' & n & Hn & Hp & Hv & _ & Ha'). destruct (anode m q) as [nd|] eqn:Hq; [|done]. revert Hn. mstep. intros [= <- ->].
      apply IH. done.
    + by destruct Hn as (it' & n & [= _ ?] & _).
Qed.

Lemma listIndex_ok m l ns index :
  adlist_ok m l ns -> inS 64 index -> index <> - 2 ^ 63 ->
  listIndex m l index = Some (fst <$> (if index <? 0 then reverse ns !! Z.to_nat (- index - 1) else ns !! Z.to_nat index)).
Proof.
  intros Hok Hin Hmin. unfold listIndex. destruct (Z.ltb_spec index 0) as [Hneg|Hpos].
  - rewrite (proj2 (Z.eqb_neq index (- 2 ^ 63))) by done. apply index_loop_ok. apply (ahead_start m l ns AL_START_TAIL Hok).
  - apply index_loop_ok. apply (ahead_start m l ns AL_START_HEAD Hok).
Qed.

Lemma listSearchKey_ok `{EqDecision V} m l ns key :
  adlist_ok m l ns ->
  let hit := fun x : positive * V => match l_match l with Some f => f (snd x) key | None => bool_decide (key = snd x) end in
  listSearchKey m l key = Some (fst ∘ snd <$> list_find (fun x => hit x = true) ns).
Proof.
  intros Hok hit. unfold listSearchKey.
  assert (Hfind : forall pre todo, ns = pre ++ todo -> Forall (fun x => hit x = false) pre ->
    list_find (fun x => hit x = true) ns = prod_map (fun n : nat => n + length pre)%nat id <$> list_find (fun x => hit x = true) todo).
  { intros pre todo -> Hpre. rewrite list_find_app_r; [done|]. apply list_find_None. eapply Forall_impl; [exact Hpre|]. intros x. cbn. congruence. }
  destruct (while_rule (search_body l key) AL_START_HEAD (fun todo _ m' => m' = m /\ exists pre, ns = pre ++ todo /\ Forall (fun x => hit x = false) pre)
    (fun p => fst ∘ snd <$> list_find (fun x => hit x = true) ns = Some p)) with (fuel := iter_fuel l) (ns := ns) (s := tt) (m := m) (it := listRewind l)
    as (r & -> & Hr).
  - intros s m' n p v todo (-> & pre & Hns & Hpre) Hn Hv. unfold search_body. rewrite Hv. change (match l_match l with Some f => f v key | None => bool_decide (key = v) end) with (hit (p, v)).
    eexists. split; [done|]. destruct (hit (p, v)) eqn:Hh.
    + rewrite (Hfind pre _ Hns Hpre). cbn. rewrite decide_True by done. done.
    + split; [|done]. split; [done|]. exists (pre ++ [(p, v)]). rewrite <- app_assoc. split; [done|]. apply Forall_app. split; [done|by constructor].
  - done.
  - apply (ahead_start m l ns AL_START_HEAD Hok).
  - split; [done|]. by exists [].
  - by eapply fuel_enough.
  - mstep. destruct r as [[m' s']|p]; [|by rewrite Hr]. destruct Hr as (_ & pre & Hns & Hpre). by rewrite (Hfind pre _ Hns Hpre).
Qed.

(** ** Removal during an iteration *)

Definition oriented (dir : al_direction) ns : list (positive * V) := match dir with AL_START_HEAD => ns | AL_START_TAIL => reverse ns end.

(** The loop of the clients: each node is looked at, and deleted when the
    predicate holds. *)
Definition purge_body (f : V -> bool) l m (n : listNode V) p : option (amem * adlist + Empty_set) :=
  if f (n_value n) then '(m, l) ← listDelNode m l p; Some (inl (m, l)) else Some (inl (m, l)).

Definition purge (f : V -> bool) (dir : al_direction) m l : option (amem * adlist) :=
  r ← while_next (iter_fuel l) (purge_body f) l m (listInitIterator l dir);
  match (r : amem * adlist + Empty_set) with inl ml => Some ml | inr e => match e with end end.

Lemma ahead_rest m m' l kept todo it :
  adlist_ok m' l (oriented (it_direction it) (kept ++ todo)) -> ahead m it todo -> ahead m' it todo.
Proof.
  intros [Hs _ _ _ _ _]. unfold ahead, oriented in *. destruct (it_direction it).
  - intros [Hit _]. split; [done|]. apply dseg_app in Hs as [_ Hs]. by eexists.
  - intros [Hit _]. split; [done|]. rewrite reverse_app in Hs. apply dseg_app in Hs as [Hs _]. by eexists.
Qed.

(** Deleting the current node of an iteration *)
Lemma delete_current dir kept p v todo m l :
  adlist_ok m l (oriented dir (kept ++ (p, v) :: todo)) ->
  exists m' l', listDelNode m l p = Some (m', l') /\ adlist_ok m' l' (oriented dir (kept ++ todo)) /\
    shrunk l [(p, v)] (kept ++ (p, v) :: todo).*1 m m' /\ same_methods l l'.
Proof.
  destruct dir; cbn [oriented]; intros Hok; [by apply delNode_ok|].
  rewrite reverse_app, reverse_cons, <- app_assoc in Hok. destruct (delNode_ok m l _ _ p v Hok) as (m' & l' & Hd & Hok' & [S1 S2 S3] & Hm).
  exists m', l'. rewrite reverse_app. split_and!; try done. split; [|done..]. intros q Hq. apply S1.
  rewrite fmap_app in Hq |- *. cbn in Hq |- *. rewrite !fmap_reverse. set_solver.
Qed.

Lemma purge_ok f dir m l ns :
  adlist_ok m l ns ->
  exists m' l', purge f dir m l = Some (m', l') /\
    adlist_ok m' l' (filter (fun x => f (snd x) = false) ns) /\
    dom (anodes m') = dom (anodes m) ∖ list_to_set (filter (fun x => f (snd x) = true) ns).*1 /\
    (forall q, q ∉ ns.*1 -> anodes m' !! q = anodes m !! q) /\
    freed m' = freed m ++ (if l_free l then (filter (fun x => f (snd x) = true) (oriented dir ns)).*2 else []).
Proof.
  intros Hok. unfold purge. set (no := fun x : positive * V => f (snd x) = false). set (yes := fun x : positive * V => f (snd x) = true).
  destruct (while_rule (purge_body f) dir (fun todo l' m' => exists past, oriented dir ns = past ++ todo /\
     adlist_ok m' l' (oriented dir (filter no past ++ todo)) /\ l_free l' = l_free l /\
     dom (anodes m') = dom (anodes m) ∖ list_to_set (filter yes past).*1 /\
     (forall q, q ∉ ns.*1 -> anodes m' !! q = anodes m !! q) /\
     freed m' = freed m ++ (if l_free l then (filter yes past).*2 else [])) (fun _ => False))
    with (fuel := iter_fuel l) (ns := oriented dir ns) (s := l) (m := m) (it := listInitIterator l dir) as (r & -> & Hr).
  - intros l0 m0 n p v todo (past & Hns & Hok0 & Hfr & Hdom & Hsame & Hfd) Hn Hv. unfold purge_body. rewrite Hv. destruct (f v) eqn:Hf.
    + destruct (delete_current dir (filter no past) p v todo m0 l0 Hok0) as (m1 & l1 & -> & Hok1 & [S1 S2 S3] & Hm). mstep.
      eexists. split; [done|]. split; [|intros it <- Ha; by eapply ahead_rest].
      exists (past ++ [(p, v)]). rewrite <- app_assoc. cbn [app]. split; [done|]. rewrite !filter_app. unfold no, yes in *.
      rewrite (filter_cons_False _ (p, v)), (filter_cons_True _ (p, v)) by (cbn; congruence). rewrite filter_nil, app_nil_r. cbn [filter].
      split_and!; [done|destruct Hm as (_ & -> & _); done| | |].
      * rewrite S2, Hdom, fmap_app. cbn. set_solver.
      * intros q Hq. rewrite S1; [by apply Hsame|]. intros Hin. apply Hq.
        assert (Hsub : oriented dir ns ⊆ ns) by (destruct dir; intros x; cbn [oriented]; rewrite ?elem_of_reverse; done).
        apply list_elem_of_fmap in Hin as (x & -> & Hx). apply list_elem_of_fmap_2, Hsub. rewrite Hns.
        apply elem_of_app in Hx as [Hx|Hx]; [apply list_elem_of_filter in Hx as [_ Hx]; set_solver|set_solver].
      * rewrite S3, Hfd, Hfr. destruct (l_free l); [by rewrite fmap_app, app_assoc|by rewrite !app_nil_r].
    + eexists. split; [done|]. split; [|done]. exists (past ++ [(p, v)]). rewrite <- app_assoc. cbn [app]. split; [done|].
      rewrite !filter_app. unfold no, yes in *. rewrite (filter_cons_True _ (p, v)), (filter_cons_False _ (p, v)) by (cbn; congruence).
      rewrite filter_nil, app_nil_r, <- app_assoc. done.
  - by destruct dir.
  - by apply (ahead_start m l ns dir).
  - exists []. split; [done|]. cbn. replace (oriented dir (oriented dir ns)) with ns by (destruct dir; [done|by rewrite <- (reverse_involutive ns) at 1]).
    split_and!; try done; cbn; [set_solver|]. destruct (l_free l); cbn; by rewrite app_nil_r.
  - pose proof (fuel_enough _ _ _ Hok). destruct dir; cbn [oriented]; by rewrite ?length_reverse.
  - mstep. destruct r as [[m' l']|[]]. destruct Hr as (past & Hns & Hok' & Hfr & Hdom & Hsame & Hfd). rewrite app_nil_r in Hns, Hok'. subst past.
    exists m', l'. split; [done|]. split_and!; [| |done|done].
    + destruct dir; cbn [oriented] in Hok'; [done|]. by rewrite filter_reverse, reverse_involutive in Hok'.
    + rewrite Hdom. destruct dir; cbn [oriented]; [done|]. rewrite filter_reverse, fmap_reverse. f_equal. apply set_eq. intros x.
      by rewrite !elem_of_list_to_set, elem_of_reverse.
Qed.

(** ** Duplication *)

Definition dup_value l v : option V := match l_dup l with Some dup => dup v | None => Some v end.

Lemma mapM_app_some {X Y} (f : X -> option Y) (l1 l2 : list X) : mapM f (l1 ++ l2) = k1 ← mapM f l1; k2 ← mapM f l2; Some (k1 ++ k2).
Proof.
  induction l1 as [|x l1 IH]; cbn; [by destruct (mapM f l2)|]. destruct (f x); cbn; [|done]. rewrite IH.
  destruct (mapM f l1); cbn; [|done]. by destruct (mapM f l2).
Qed.

(** The state of the loop: [cs] are the nodes copied so far. *)
Record dup_inv m l ns (ps : list (positive * (option positive * option positive))) (todo cs : list (positive * V)) (copy : adlist) (rest : list (positive * (option positive * option positive))) m' : Prop := {
  di_copy : adlist_ok m' copy cs;
  di_same : same_methods l copy;
  di_nodes : forall q, q ∉ cs.*1 -> anodes m' !! q = anodes m !! q;
  di_freed : freed m' = freed m;
  di_addr : ps.*1 = cs.*1 ++ rest.*1;
  di_values : exists past, ns = past ++ todo /\ mapM (dup_value l) past.*2 = Some cs.*2
}.

Lemma dup_step m l ns ps p v todo cs copy q junk rest m' w :
  adlist_ok m l ns -> NoDup ps.*1 -> (forall q, q ∈ ps.*1 -> anodes m !! q = None) ->
  dup_inv m l ns ps ((p, v) :: todo) cs copy ((q, junk) :: rest) m' -> dup_value l v = Some w ->
  exists m2 copy', listAddNodeTail m' copy q junk w = Some (m2, copy') /\ dup_inv m l ns ps todo (cs ++ [(q, w)]) copy' rest m2 /\
    (forall r, r ∉ ps.*1 -> anodes m2 !! r = anodes m' !! r).
Proof.
  intros Hok Hnd Hfresh [C1 C2 C3 C4 C5 (past & Hns & Hm)] Hw.
  assert (Hq : q ∉ cs.*1). { rewrite C5 in Hnd. cbn in Hnd. apply NoDup_app in Hnd as (_ & Hd & _). set_solver. }
  assert (Hfq : anodes m' !! q = None) by (rewrite C3 by done; apply Hfresh; rewrite C5; set_solver).
  destruct (addTail_ok m' copy cs q junk w C1 Hfq) as (m2 & copy' & Ha & Hok2 & [G1 G2 G3] & Hs2).
  { pose proof (al_small _ _ _ Hok) as Hsm. rewrite Hns, length_app in Hsm. apply length_mapM in Hm. rewrite !length_fmap in Hm. cbn in Hsm. lia. }
  exists m2, copy'. split; [done|]. split; [split|].
  - done.
  - unfold same_methods in *. destruct C2 as (? & ? & ?), Hs2 as (? & ? & ?). split_and!; congruence.
  - intros r Hr. rewrite fmap_app in Hr. cbn in Hr. rewrite G1 by set_solver. apply C3. set_solver.
  - congruence.
  - rewrite C5, fmap_app. cbn. by rewrite <- app_assoc.
  - exists (past ++ [(p, v)]). rewrite <- app_assoc. split; [done|]. rewrite !fmap_app, mapM_app_some, Hm. mstep. cbn. by rewrite Hw.
  - intros r Hr. rewrite C5 in Hr. cbn in Hr. apply G1; set_solver.
Qed.

(** After a failure the copies are gone. *)
Lemma dup_failed m l ns ps todo cs copy rest m' :
  (forall q, q ∈ ps.*1 -> anodes m !! q = None) -> dup_inv m l ns ps todo cs copy rest m' ->
  exists m2, listRelease m' copy = Some m2 /\ anodes m2 = anodes m /\ freed m2 = freed m ++ (if l_free l then cs.*2 else []).
Proof.
  intros Hfresh [C1 (_ & Hfr & _) C3 C4 C5 _]. unfold listRelease.
  destruct (empty_list_ok m' copy cs C1) as (m2 & l2 & -> & _ & [S1 S2 S3] & _). mstep. exists m2. split; [done|]. split.
  - apply map_eq. intros q. destruct (decide (q ∈ cs.*1)) as [Hq|Hq]; [|by rewrite S1, C3].
    rewrite Hfresh by (rewrite C5; set_solver). apply not_elem_of_dom. rewrite S2. set_solver.
  - by rewrite S3, C4, Hfr.
Qed.

Lemma ahead_same m m' it ns : (forall q, q ∈ ns.*1 -> anodes m' !! q = anodes m !! q) -> ahead m it ns -> ahead m' it ns.
Proof.
  unfold ahead. intros Hs. destruct (it_direction it); intros (Hit & x & Hd); (split; [done|]); exists x; (eapply dseg_same; [|exact Hd]).
  - done.
  - intros q. rewrite fmap_reverse, elem_of_reverse. apply Hs.
Qed.

Lemma listDup_ok m l ns ps :
  adlist_ok m l ns -> NoDup ps.*1 -> (forall q, q ∈ ps.*1 -> anodes m !! q = None) -> (length ns <= length ps)%nat ->
  match mapM (dup_value l) ns.*2 with
  | Some ws => exists m' copy cs, listDup m l ps = Some (m', Some copy) /\ adlist_ok m' copy cs /\ cs.*2 = ws /\ cs.*1 ## ns.*1 /\
      adlist_ok m' l ns /\ same_methods l copy /\ (forall q, q ∉ cs.*1 -> anodes m' !! q = anodes m !! q) /\ freed m' = freed m
  | None => exists m' past v todo ws, listDup m l ps = Some (m', None) /\ anodes m' = anodes m /\
      ns.*2 = past ++ v :: todo /\ mapM (dup_value l) past = Some ws /\ dup_value l v = None /\
      freed m' = freed m ++ (if l_free l then ws else [])
  end.
Proof.
  intros Hok Hnd Hfresh Hlen. assert (Hdis : ps.*1 ## ns.*1).
  { intros q Hq Hin. by apply (al_fresh _ _ _ _ _ (al_seg _ _ _ Hok) (Hfresh q Hq)). }
  unfold listDup. set (copy0 := mkAdlist _ _ _ _ _ _).
  destruct (while_rule dup_body AL_START_HEAD (fun todo cr m' => exists cs, dup_inv m l ns ps todo cs (fst cr) (snd cr) m')
    (fun m' => exists past v todo ws, anodes m' = anodes m /\ ns.*2 = past ++ v :: todo /\ mapM (dup_value l) past = Some ws /\ dup_value l v = None /\
      freed m' = freed m ++ (if l_free l then ws else [])))
    with (fuel := iter_fuel l) (ns := ns) (s := (copy0, ps)) (m := m) (it := listRewind l) as (r & Hrun & Hr).
  - intros [copy rest] m' n p v todo [cs Hinv] Hn Hv. cbn [fst snd] in Hinv. unfold dup_body. rewrite Hv.
    pose proof (di_same _ _ _ _ _ _ _ _ _ Hinv) as (Hd & _ & _). rewrite Hd. fold (dup_value l v).
    pose proof (di_values _ _ _ _ _ _ _ _ _ Hinv) as (past & Hns & Hm). destruct (dup_value l v) as [w|] eqn:Hw.
    + destruct rest as [|[q junk] rest].
      { exfalso. pose proof (di_addr _ _ _ _ _ _ _ _ _ Hinv) as Ha. apply (f_equal length) in Ha. rewrite length_app, !length_fmap in Ha. cbn in Ha.
        apply length_mapM in Hm. rewrite !length_fmap in Hm. rewrite Hns, length_app in Hlen. cbn in Hlen. lia. }
      destruct (dup_step _ _ _ _ _ _ _ _ _ _ _ _ _ _ Hok Hnd Hfresh Hinv Hw) as (m2 & copy' & -> & Hinv' & Hsame). mstep.
      eexists. split; [done|]. split; [by eexists|]. intros it _. apply ahead_same. intros r Hr. apply Hsame.
      intros Hin. apply (Hdis r Hin). rewrite Hns, fmap_app. set_solver.
    + destruct (dup_failed _ _ _ _ _ _ _ _ _ Hfresh Hinv) as (m2 & -> & Hn2 & Hf2). mstep. eexists. split; [done|].
      exists past.*2, v, todo.*2, cs.*2. split_and!; try done. by rewrite Hns, fmap_app.
  - done.
  - apply (ahead_start m l ns AL_START_HEAD Hok).
  - exists []. cbn. split; try done; [split; try done; constructor|]. by exists [].
  - by eapply fuel_enough.
  - rewrite Hrun. mstep. destruct r as [[m' [copy rest]]|m'].
    + destruct Hr as [cs [C1 C2 C3 C4 C5 (past & Hns & Hm)]]. cbn [fst snd] in *. rewrite app_nil_r in Hns. subst past. rewrite Hm.
      assert (Hd : cs.*1 ## ns.*1) by (intros q Hq; apply Hdis; rewrite C5; set_solver).
      exists m', copy, cs. split_and!; try done. destruct Hok as [Hs ?????]. split; try done.
      eapply dseg_same; [|exact Hs]. intros q Hq. apply C3. set_solver.
    + destruct Hr as (past & v & todo & ws & H1 & H2 & H3 & H4 & H5). rewrite H2, mapM_app_some, H3. mstep. cbn. rewrite H4.
      exists m', past, v, todo, ws. done.
Qed.

(** ** Sessions *)

Inductive al_op :=
| AlAddHead (p : positive) (junk : option positive * option positive) (v : V)
| AlAddTail (p : positive) (junk : option positive * option positive) (v : V)
| AlInsert (old_node p : positive) (junk : option positive * option positive) (v : V) (after : bool)
| AlDel (node : positive)
| AlRotateTailToHead
| AlRotateHeadToTail
| AlEmpty.

Definition al_step m l (op : al_op) : option (amem * adlist) :=
  match op with
  | AlAddHead p junk v => listAddNodeHead m l p junk v
  | AlAddTail p junk v => listAddNodeTail m l p junk v
  | AlInsert old_node p junk v after => listInsertNode m l old_node p junk v after
  | AlDel node => listDelNode m l node
  | AlRotateTailToHead => listRotateTailToHead m l
  | AlRotateHeadToTail => listRotateHeadToTail m l
  | AlEmpty => listEmpty m l
  end.

Fixpoint al_run m l (ops : list al_op) : option (amem * adlist) :=
  match ops with
  | [] => Some (m, l)
  | op :: ops => '(m, l) ← al_step m l op; al_run m l ops
  end.

(** The room for a new node *)
Definition room (p : positive) ns : bool := bool_decide (p ∉ ns.*1 /\ Z.of_nat (length ns) < 2 ^ 64 - 1).

(** The same on the sequence of the nodes, with the values that the [free]
    method gets when the list has one. There is no result for a node that is
    not in the list, or for an address that is in use. *)
Definition al_abs (has_free : bool) ns (fr : list V) (op : al_op) : option (list (positive * V) * list V) :=
  match op with
  | AlAddHead p _ v => if room p ns then Some ((p, v) :: ns, fr) else None
  | AlAddTail p _ v => if room p ns then Some (ns ++ [(p, v)], fr) else None
  | AlInsert old_node p _ v after =>
      '(i, x) ← list_find (fun x => fst x = old_node) ns;
      if room p ns then Some (take i ns ++ (if after : bool then [x; (p, v)] else [(p, v); x]) ++ drop (S i) ns, fr) else None
  | AlDel node =>
      '(i, x) ← list_find (fun x => fst x = node) ns;
      Some (take i ns ++ drop (S i) ns, fr ++ (if has_free then [snd x] else []))
  | AlRotateTailToHead => Some (match last ns with Some x => x :: removelast ns | None => [] end, fr)
  | AlRotateHeadToTail => Some (match ns with x :: ns => ns ++ [x] | [] => [] end, fr)
  | AlEmpty => Some ([], fr ++ (if has_free then ns.*2 else []))
  end.

Fixpoint al_abs_run (has_free : bool) ns (fr : list V) (ops : list al_op) : option (list (positive * V) * list V) :=
  match ops with
  | [] => Some (ns, fr)
  | op :: ops => '(ns, fr) ← al_abs has_free ns fr op; al_abs_run has_free ns fr ops
  end.

(** The nodes of the list are all that is allocated. *)
Record al_state (has_free : bool) ns (fr : list V) m l : Prop := {
  as_ok : adlist_ok m l ns;
  as_dom : dom (anodes m) = list_to_set ns.*1;
  as_freed : freed m = fr;
  as_method : l_free l = has_free
}.

Lemma find_split q ns i x :
  list_find (fun x => fst x = q) ns = Some (i, x) -> ns = take i ns ++ x :: drop (S i) ns /\ fst x = q.
Proof. intros (Hi & Hx & _)%list_find_Some. split; [by rewrite take_drop_middle|done]. Qed.

Lemma al_room_ok has_free ns fr m l p :
  al_state has_free ns fr m l -> room p ns = true -> anodes m !! p = None /\ Z.of_nat (length ns) < 2 ^ 64 - 1.
Proof.
  intros Hst [Hp Hlen]%bool_decide_eq_true. split; [|done]. apply not_elem_of_dom. by rewrite (as_dom _ _ _ _ _ Hst), elem_of_list_to_set.
Qed.

Lemma grown_state has_free ns ns' fr m m' l l' p v :
  al_state has_free ns fr m l -> adlist_ok m' l' ns' -> grown p ns.*1 m m' -> same_methods l l' -> ns' ≡ₚ (p, v) :: ns ->
  al_state has_free ns' fr m' l'.
Proof.
  intros [A1 A2 A3 A4] Hok [G1 G2 G3] (_ & Hm & _) Hp. split; [done| |congruence|congruence]. rewrite G2, A2.
  apply set_eq. intros q. rewrite elem_of_list_to_set, Hp. set_solver.
Qed.

Lemma frame_state has_free ns ns' fr m m' l l' ps :
  al_state has_free ns fr m l -> adlist_ok m' l' ns' -> frame ps m m' -> same_methods l l' -> ns' ≡ₚ ns -> al_state has_free ns' fr m' l'.
Proof.
  intros [A1 A2 A3 A4] Hok [G1 G2 G3] (_ & Hm & _) Hp. split; [done| |congruence|congruence]. rewrite G2, A2.
  apply set_eq. intros q. by rewrite !elem_of_list_to_set, Hp.
Qed.

Lemma shrunk_state has_free ns ns' rm fr m m' l l' ps :
  al_state has_free ns fr m l -> adlist_ok m' l' ns' -> shrunk l rm ps m m' -> same_methods l l' -> ns ≡ₚ rm ++ ns' -> NoDup ns.*1 ->
  al_state has_free ns' (fr ++ (if has_free then rm.*2 else [])) m' l'.
Proof.
  intros [A1 A2 A3 A4] Hok [G1 G2 G3] (_ & Hm & _) Hp Hnd. split; [done| |by rewrite G3, A3, A4|congruence]. rewrite G2, A2.
  rewrite Hp, fmap_app in Hnd. apply NoDup_app in Hnd as (_ & Hd & _).
  apply set_eq. intros q. rewrite elem_of_difference, !elem_of_list_to_set, Hp, fmap_app. set_solver.
Qed.

Lemma al_step_ok has_free ns fr m l op ns' fr' :
  al_state has_free ns fr m l -> al_abs has_free ns fr op = Some (ns', fr') ->
  exists m' l', al_step m l op = Some (m', l') /\ al_state has_free ns' fr' m' l'.
Proof.
  intros Hst. pose proof (as_ok _ _ _ _ _ Hst) as Hok. pose proof (al_nodup _ _ _ Hok) as Hnd.
  destruct op as [p junk v|p junk v|q p junk v after|q| | |]; cbn [al_abs al_step].
  - destruct (room p ns) eqn:Hr; [|done]. intros [= <- <-]. destruct (al_room_ok _ _ _ _ _ _ Hst Hr) as [Hp Hlen].
    destruct (addHead_ok m l ns p junk v Hok Hp Hlen) as (m' & l' & -> & Hok' & Hg & Hm). eexists _, _. split; [done|]. by eapply grown_state.
  - destruct (room p ns) eqn:Hr; [|done]. intros [= <- <-]. destruct (al_room_ok _ _ _ _ _ _ Hst Hr) as [Hp Hlen].
    destruct (addTail_ok m l ns p junk v Hok Hp Hlen) as (m' & l' & -> & Hok' & Hg & Hm). eexists _, _. split; [done|].
    eapply grown_state; try done. symmetry. apply Permutation_cons_append.
  - destruct (list_find _ ns) as [[i [q' w]]|] eqn:Hf; [|done]. mstep. destruct (room p ns) eqn:Hr; [|done]. intros [= <- <-].
    destruct (al_room_ok _ _ _ _ _ _ Hst Hr) as [Hp Hlen]. apply find_split in Hf as [Hns Hq]. cbn in Hq. subst q'.
    set (A := take i ns) in *. set (B := drop (S i) ns) in *. clearbody A B. subst ns. destruct after.
    + destruct (insertAfter_ok m l A B q w p junk v Hok Hp Hlen) as (m' & l' & -> & Hok' & Hg & Hm). eexists _, _. split; [done|].
      eapply grown_state; try done. cbn. rewrite <- !Permutation_middle. apply perm_swap.
    + destruct (insertBefore_ok m l A B q w p junk v Hok Hp Hlen) as (m' & l' & -> & Hok' & Hg & Hm). eexists _, _. split; [done|].
      eapply grown_state; try done. cbn. symmetry. apply Permutation_middle.
  - destruct (list_find _ ns) as [[i [q' w]]|] eqn:Hf; [|done]. mstep. intros [= <- <-]. apply find_split in Hf as [Hns Hq]. cbn in Hq. subst q'.
    set (A := take i ns) in *. set (B := drop (S i) ns) in *. clearbody A B. subst ns.
    destruct (delNode_ok m l A B q w Hok) as (m' & l' & -> & Hok' & Hs & Hm). eexists _, _. split; [done|].
    apply (shrunk_state has_free _ _ [(q, w)] _ _ _ _ _ _ Hst Hok' Hs Hm); [|done]. cbn. by rewrite <- Permutation_middle.
  - intros [= <- <-]. destruct ns as [|[q w] A _] using rev_ind.
    + unfold listRotateTailToHead. rewrite (al_len _ _ _ Hok). eexists _, _. split; [done|done].
    + rewrite last_snoc, removelast_last. destruct (rotateTailToHead_ok m l A q w Hok) as (m' & l' & -> & Hok' & Hf & Hm).
      eexists _, _. split; [done|]. eapply frame_state; try done. apply (Permutation_app_comm [(q, w)] A).
  - intros [= <- <-]. destruct ns as [|[q w] A].
    + unfold listRotateHeadToTail. rewrite (al_len _ _ _ Hok). eexists _, _. split; [done|done].
    + destruct (rotateHeadToTail_ok m l A q w Hok) as (m' & l' & -> & Hok' & Hf & Hm).
      eexists _, _. split; [done|]. eapply frame_state; try done. apply (Permutation_app_comm A [(q, w)]).
  - intros [= <- <-]. destruct (empty_list_ok m l ns Hok) as (m' & l' & -> & Hok' & Hs & Hm). eexists _, _. split; [done|].
    eapply shrunk_state; try done. by rewrite app_nil_r.
Qed.

Lemma al_run_ok has_free ns fr m l ops ns' fr' :
  al_state has_free ns fr m l -> al_abs_run has_free ns fr ops = Some (ns', fr') ->
  exists m' l', al_run m l ops = Some (m', l') /\ al_state has_free ns' fr' m' l'.
Proof.
  revert ns fr m l. induction ops as [|op ops IH]; intros ns fr m l Hst; cbn [al_abs_run al_run].
  { intros [= <- <-]. eauto. }
  destruct (al_abs has_free ns fr op) as [[ns1 fr1]|] eqn:Ha; [|done]. mstep. intros Hb.
  destruct (al_step_ok _ _ _ _ _ _ _ _ Hst Ha) as (m1 & l1 & -> & Hst1). mstep. by eapply IH.
Qed.

(** [listCreate], and [listSetFreeMethod] when there is a method *)
Definition created (has_free : bool) : adlist := mkAdlist None None None has_free None 0.

Lemma created_ok has_free : al_state has_free [] [] (mkAmem ∅ []) (created has_free).
Proof. split; try done. split; try done. constructor. Qed.
End proofs.

Arguments al_op : clear implicits.

(** ** Contracts *)

Section contract.
Context {V : Type}.

(** C6: a list that starts empty, after any sequence of insertions at its ends
    or beside a node, deletions, rotations and emptyings: every operation
    returns, the nodes are linked both ways in the order that the same
    operations give on a sequence, exactly they are allocated, and the free
    method got the removed values, each once and in order. *)
Theorem adlist_session_refines has_free (ops : list (al_op V)) ns fr :
  al_abs_run has_free [] [] ops = Some (ns, fr) ->
  exists m l, al_run (mkAmem ∅ []) (created has_free) ops = Some (m, l) /\
    adlist_ok m l ns /\ dom (anodes m) = list_to_set ns.*1 /\ freed m = fr.
Proof.
  intros Ha. destruct (al_run_ok _ _ _ _ _ _ _ _ (created_ok has_free) Ha) as (m & l & Hr & [H1 H2 H3 H4]). by exists m, l.
Qed.

(** C7: the nodes may be deleted while the list is iterated, in either
    direction: a loop over [listNext] that deletes the current node when a
    predicate holds of its value visits every node once, leaves the list of
    the others in their order, frees exactly the deleted nodes and leaves
    those of other lists alone. *)
Theorem removal_while_iterating f dir (m : amem V) (l : adlist V) ns :
  adlist_ok m l ns ->
  exists m' l', purge f dir m l = Some (m', l') /\
    adlist_ok m' l' (filter (fun x => f (snd x) = false) ns) /\
    dom (anodes m') = dom (anodes m) ∖ list_to_set (filter (fun x => f (snd x) = true) ns).*1 /\
    (forall q, q ∉ ns.*1 -> anodes m' !! q = anodes m !! q) /\
    freed m' = freed m ++ (if l_free l then (filter (fun x => f (snd x) = true) (oriented dir ns)).*2 else []).
Proof. apply purge_ok. Qed.

(** C8: duplication gives a list of new nodes with the duplicated values, and
    leaves the original as it is. When the duplication of a value fails, it
    returns NULL, the nodes made so far are released with their values, and
    the memory is as it was before. *)
Theorem listDup_correct (m : amem V) (l : adlist V) ns ps :
  adlist_ok m l ns -> NoDup ps.*1 -> (forall q, q ∈ ps.*1 -> anodes m !! q = None) -> (length ns <= length ps)%nat ->
  match mapM (dup_value l) ns.*2 with
  | Some ws => exists m' copy cs, listDup m l ps = Some (m', Some copy) /\ adlist_ok m' copy cs /\ cs.*2 = ws /\ cs.*1 ## ns.*1 /\
      adlist_ok m' l ns /\ same_methods l copy /\ (forall q, q ∉ cs.*1 -> anodes m' !! q = anodes m !! q) /\ freed m' = freed m
  | None => exists m' past v todo ws, listDup m l ps = Some (m', None) /\ anodes m' = anodes m /\
      ns.*2 = past ++ v :: todo /\ mapM (dup_value l) past = Some ws /\ dup_value l v = None /\
      freed m' = freed m ++ (if l_free l then ws else [])
  end.
Proof. apply listDup_ok. Qed.

(** Indexes from either end, and the search of a key *)
Theorem adlist_reads_correct `{EqDecision V} (m : amem V) (l : adlist V) ns :
  adlist_ok m l ns ->
  (forall index, inS 64 index -> index <> - 2 ^ 63 ->
     listIndex m l index = Some (fst <$> (if index <? 0 then reverse ns !! Z.to_nat (- index - 1) else ns !! Z.to_nat index))) /\
  (forall key, let hit := fun x : positive * V => match l_match l with Some f => f (snd x) key | None => bool_decide (key = snd x) end in
     listSearchKey m l key = Some (fst ∘ snd <$> list_find (fun x => hit x = true) ns)).
Proof. intros Hok. split; [intros; by apply listIndex_ok|intros; by apply listSearchKey_ok]. Qed.

(** The concatenation of two lists of the same memory *)
Theorem listJoin_refines (m : amem V) (l o : adlist V) ns os :
  adlist_ok m l ns -> adlist_ok m o os -> ns.*1 ## os.*1 -> Z.of_nat (length (ns ++ os)) < 2 ^ 64 ->
  exists m' l' o', listJoin m l o = Some (m', l', o') /\ adlist_ok m' l' (ns ++ os) /\ adlist_ok m' o' [] /\
    frame (ns ++ os).*1 m m' /\ same_methods l l' /\ same_methods o o'.
Proof. apply join_ok. Qed.
End contract.

(** ** Witnesses *)

Definition ex_junk : option positive * option positive := (Some 99%positive, None).

Definition ex_al_ops : list (al_op Z) :=
  [AlAddTail 1 ex_junk 10; AlAddHead 2 ex_junk 20; AlInsert 1 3 ex_junk 30 true; AlInsert 2 4 ex_junk 40 false;
   AlRotateTailToHead; AlDel 2; AlRotateHeadToTail; AlAddTail 5 ex_junk 50].

Definition ex_al : amem Z * adlist Z := default (mkAmem ∅ [], listCreate) (al_run (mkAmem ∅ []) (created true) ex_al_ops).
Definition ex_ns : list (positive * Z) := fst (default ([], []) (al_abs_run true [] [] ex_al_ops)).

Lemma ex_al_ok : adlist_ok (fst ex_al) (snd ex_al) ex_ns.
Proof.
  destruct (al_run_ok true [] [] _ _ ex_al_ops ex_ns [20] (created_ok true)) as (m & l & Hr & [H1 _ _ _]); [vm_compute; reflexivity|].
  unfold ex_al. by rewrite Hr.
Qed.

Lemma adlist_session_refines_witness :
  exists m l, al_run (mkAmem ∅ []) (created true) ex_al_ops = Some (m, l) /\
    adlist_ok m l [(4%positive, 40); (1%positive, 10); (3%positive, 30); (5%positive, 50)] /\
    dom (anodes m) = list_to_set [4; 1; 3; 5]%positive /\ freed m = [20].
Proof. apply (adlist_session_refines true ex_al_ops). vm_compute. reflexivity. Defined.

Lemma removal_while_iterating_witness :
  exists m' l', purge (fun v => v <? 35) AL_START_TAIL (fst ex_al) (snd ex_al) = Some (m', l') /\
    adlist_ok m' l' [(4%positive, 40); (5%positive, 50)] /\ freed m' = [20; 30; 10].
Proof.
  destruct (removal_while_iterating (fun v => v <? 35) AL_START_TAIL (fst ex_al) (snd ex_al) ex_ns ex_al_ok) as (m' & l' & H1 & H2 & _ & _ & H3).
  exists m', l'. split; [exact H1|]. split; [exact H2|exact H3].
Defined.

(** The duplication of the third value fails. *)
Definition ex_dup : adlist Z :=
  mkAdlist (l_head (snd ex_al)) (l_tail (snd ex_al)) (Some (fun v => if v =? 30 then None else Some (v + 1))) true None (l_len (snd ex_al)).

Lemma ex_dup_ok : adlist_ok (fst ex_al) ex_dup ex_ns.
Proof. destruct ex_al_ok. by split. Qed.

Lemma listDup_correct_witness :
  exists m', listDup (fst ex_al) ex_dup ((fun p => (p, ex_junk)) <$> [11; 12; 13; 14]%positive) = Some (m', None) /\
    anodes m' = anodes (fst ex_al) /\ freed m' = [20; 41; 11].
Proof.
  destruct (listDup_correct (fst ex_al) ex_dup ex_ns ((fun p => (p, ex_junk)) <$> [11; 12; 13; 14]%positive))
    as (m' & past & v & todo & ws & H1 & H2 & H3 & H4 & H5 & H6).
  - exact ex_dup_ok.
  - apply (bool_decide_unpack _). vm_compute. exact I.
  - apply Forall_forall. repeat (constructor; [vm_compute; reflexivity|]). constructor.
  - vm_compute. lia.
  - exists m'. split; [exact H1|]. split; [exact H2|]. vm_compute in H1. injection H1 as <-. vm_compute. reflexivity.
Defined.
