(* ===== verification/Sha256.v ===== *)
(** * SHA-256 ([sha256.c])

    The passwords of users are stored as SHA-256 digests, and compared with the
    digest of what a client sends. The model keeps the context as the code
    does: a block that is filled byte by byte, a count of bits, and eight words
    of 32 bits. The digest of a message that is given in pieces is proved to be
    the iteration of the compression function over the padded message. *)

From S2P Require Import Prelude.

#[local] Open Scope Z_scope.

(** ** The code *)

Definition ROTRIGHT (a b : Z) : Z := Z.lor (Z.shiftr a b) (u32 (Z.shiftl a (32 - b))).
Definition CH (x y z : Z) : Z := Z.lxor (Z.land x y) (Z.land (u32 (Z.lnot x)) z).
Definition MAJ (x y z : Z) : Z := Z.lxor (Z.lxor (Z.land x y) (Z.land x z)) (Z.land y z).
Definition EP0 (x : Z) : Z := Z.lxor (Z.lxor (ROTRIGHT x 2) (ROTRIGHT x 13)) (ROTRIGHT x 22).
Definition EP1 (x : Z) : Z := Z.lxor (Z.lxor (ROTRIGHT x 6) (ROTRIGHT x 11)) (ROTRIGHT x 25).
Definition SIG0 (x : Z) : Z := Z.lxor (Z.lxor (ROTRIGHT x 7) (ROTRIGHT x 18)) (Z.shiftr x 3).
Definition SIG1 (x : Z) : Z := Z.lxor (Z.lxor (ROTRIGHT x 17) (ROTRIGHT x 19)) (Z.shiftr x 10).

(** The table [k], a row of eight words to a number *)
Definition k_rows : list Z :=
  [0x428a2f9871374491b5c0fbcfe9b5dba53956c25b59f111f1923f82a4ab1c5ed5;
   0xd807aa9812835b01243185be550c7dc372be5d7480deb1fe9bdc06a7c19bf174;
   0xe49b69c1efbe47860fc19dc6240ca1cc2de92c6f4a7484aa5cb0a9dc76f988da;
   0x983e5152a831c66db00327c8bf597fc7c6e00bf3d5a7914706ca635114292967;
   0x27b70a852e1b21384d2c6dfc53380d13650a7354766a0abb81c2c92e92722c85;
   0xa2bfe8a1a81a664bc24b8b70c76c51a3d192e819d6990624f40e3585106aa070;
   0x19a4c1161e376c082748774c34b0bcb5391c0cb34ed8aa4a5b9cca4f682e6ff3;
   0x748f82ee78a5636f84c878148cc7020890befffaa4506cebbef9a3f7c67178f2].

Definition sha256_k : list Z :=
  Eval cbv in k_rows ≫= fun row => (fun i => Z.land (Z.shiftr row (32 * (7 - i))) 0xffffffff) <$> [0; 1; 2; 3; 4; 5; 6; 7].

(** The words [state[0]] to [state[7]], or [a] to [h] *)
Record words := mkWords { wa : Z; wb : Z; wc : Z; wd : Z; we : Z; wf : Z; wg : Z; wh : Z }.

Record SHA256_CTX := mkCtx { sha_data : list Z; sha_datalen : Z; sha_bitlen : Z; sha_state : words }.

(** The first loop of [sha256_transform]: the words of the block *)
Fixpoint load_words (n : nat) (data : list Z) (j : Z) : option (list Z) :=
  match n with
  | O => Some []
  | S n =>
      b0 ← rd data (j + 0); b1 ← rd data (j + 1); b2 ← rd data (j + 2); b3 ← rd data (j + 3);
      m ← load_words n data (j + 4);
      Some (Z.lor (Z.lor (Z.lor (u32 (Z.shiftl b0 24)) (u32 (Z.shiftl b1 16))) (u32 (Z.shiftl b2 8))) b3 :: m)
  end.

(** The second loop; [m] has the words before [i]. *)
Fixpoint schedule (n : nat) (m : list Z) (i : Z) : option (list Z) :=
  match n with
  | O => Some m
  | S n =>
      m2 ← rd m (i - 2); m7 ← rd m (i - 7); m15 ← rd m (i - 15); m16 ← rd m (i - 16);
      schedule n (m ++ [u32 (SIG1 m2 + m7 + SIG0 m15 + m16)]) (i + 1)
  end.

Definition sha_round (w : words) (ki mi : Z) : words :=
  let t1 := u32 (wh w + EP1 (we w) + CH (we w) (wf w) (wg w) + ki + mi) in
  let t2 := u32 (EP0 (wa w) + MAJ (wa w) (wb w) (wc w)) in
  mkWords (u32 (t1 + t2)) (wa w) (wb w) (wc w) (u32 (wd w + t1)) (we w) (wf w) (wg w).

Fixpoint rounds (n : nat) (m : list Z) (w : words) (i : Z) : option words :=
  match n with
  | O => Some w
  | S n => ki ← rd sha256_k i; mi ← rd m i; rounds n m (sha_round w ki mi) (i + 1)
  end.

Definition add_words (s w : words) : words :=
  mkWords (u32 (wa s + wa w)) (u32 (wb s + wb w)) (u32 (wc s + wc w)) (u32 (wd s + wd w))
          (u32 (we s + we w)) (u32 (wf s + wf w)) (u32 (wg s + wg w)) (u32 (wh s + wh w)).

(** The new [state] *)
Definition sha256_transform (s : words) (data : list Z) : option words :=
  m ← load_words 16 data 0;
  m ← schedule 48 m 16;
  w ← rounds 64 m s 0;
  Some (add_words s w).

Definition initial_words : words :=
  mkWords 0x6a09e667 0xbb67ae85 0x3c6ef372 0xa54ff53a 0x510e527f 0x9b05688c 0x1f83d9ab 0x5be0cd19.

(** The block is not initialized. *)
Definition sha256_init (junk : list Z) : SHA256_CTX := mkCtx junk 0 0 initial_words.

(** The body of the loop of [sha256_update] *)
Definition update_byte (ctx : SHA256_CTX) (b : Z) : option SHA256_CTX :=
  data ← wr (sha_data ctx) (sha_datalen ctx) b;
  let datalen := u32 (sha_datalen ctx + 1) in
  if datalen =? 64 then
    s ← sha256_transform (sha_state ctx) data;
    Some (mkCtx data 0 (u64 (sha_bitlen ctx + 512)) s)
  else Some (mkCtx data datalen (sha_bitlen ctx) (sha_state ctx)).

(** [for (i = 0; i < len; ++i)], where [i] has 32 bits and [len] 64 *)
Fixpoint sha_update_loop (fuel : nat) (ctx : SHA256_CTX) (data : list Z) (len i : Z) : option SHA256_CTX :=
  match fuel with
  | O => None
  | S fuel =>
      if i <? len then
        b ← rd data i;
        ctx ← update_byte ctx b;
        sha_update_loop fuel ctx data len (u32 (i + 1))
      else Some ctx
  end.

Definition sha256_update (ctx : SHA256_CTX) (data : list Z) : option SHA256_CTX :=
  sha_update_loop (S (length data)) ctx data (Z.of_nat (length data)) 0.

(** [while (i < stop) ctx->data[i++] = 0x00] *)
Fixpoint fill_zero (n : nat) (data : list Z) (i : Z) : option (list Z) :=
  match n with
  | O => Some data
  | S n => data ← wr data i 0; fill_zero n data (i + 1)
  end.

Definition put_bitlen (data : list Z) (bitlen : Z) : option (list Z) :=
  data ← wr data 63 bitlen;
  data ← wr data 62 (Z.shiftr bitlen 8);
  data ← wr data 61 (Z.shiftr bitlen 16);
  data ← wr data 60 (Z.shiftr bitlen 24);
  data ← wr data 59 (Z.shiftr bitlen 32);
  data ← wr data 58 (Z.shiftr bitlen 40);
  data ← wr data 57 (Z.shiftr bitlen 48);
  wr data 56 (Z.shiftr bitlen 56).

(** The bytes [hash[4n]] to [hash[4n+3]] *)
Definition word_bytes (w : Z) : list Z := (fun i => Z.land (Z.shiftr w (24 - i * 8)) 0xff) <$> [0; 1; 2; 3].

Definition digest (s : words) : list Z :=
  word_bytes (wa s) ++ word_bytes (wb s) ++ word_bytes (wc s) ++ word_bytes (wd s) ++
  word_bytes (we s) ++ word_bytes (wf s) ++ word_bytes (wg s) ++ word_bytes (wh s).

Definition sha256_final (ctx : SHA256_CTX) : option (list Z) :=
  let i := sha_datalen ctx in
  data ← wr (sha_data ctx) i 0x80;
  '(data, s) ←
    (if sha_datalen ctx <? 56 then
       data ← fill_zero (Z.to_nat (56 - (i + 1))) data (i + 1);
       Some (data, sha_state ctx)
     else
       data ← fill_zero (Z.to_nat (64 - (i + 1))) data (i + 1);
       s ← sha256_transform (sha_state ctx) data;
       data ← mstore data 0 (replicate 56 0);
       Some (data, s));
  let bitlen := u64 (sha_bitlen ctx + u32 (sha_datalen ctx * 8)) in
  data ← put_bitlen data bitlen;
  s ← sha256_transform s data;
  Some (digest s).

(** The digest of a message given in pieces, as the callers use the functions *)
Definition sha256 (junk : list Z) (pieces : list (list Z)) : option (list Z) :=
  ctx ← foldl (fun ctx piece => ctx ← ctx; sha256_update ctx piece) (Some (sha256_init junk)) pieces;
  sha256_final ctx.

(** ** The reference *)

(** The compression function: the one of the code, so that the reference is
    about the cutting, the padding and the counting, and not the rounds *)
Definition compress (s : words) (block : list Z) : words := default s (sha256_transform s block).

(** The blocks of 64 bytes of a message, and the iteration over them *)
Definition sha_blocks (msg : list Z) : list (list Z) := reshape (replicate (length msg / 64) 64%nat) msg.
Definition absorb {W} (f : W -> list Z -> W) (s : W) (msg : list Z) : W := foldl f s (sha_blocks msg).

(** A number of 64 bits in big endian order *)
Definition be64 (n : Z) : list Z := (fun i => u8 (Z.shiftr n i)) <$> [56; 48; 40; 32; 24; 16; 8; 0].

(** The padding: a bit 1, the least number of zeros, the length in bits *)
Definition sha_pad (msg : list Z) : list Z :=
  let len := Z.of_nat (length msg) in
  msg ++ [0x80] ++ replicate (Z.to_nat ((55 - len) mod 64)) 0 ++ be64 (8 * len).

(** ** The compression function returns *)

Lemma rd_ok (m : list Z) i : 0 <= i < Z.of_nat (length m) -> exists b, rd m i = Some b.
Proof. intros Hi. destruct (rd_Some m i Hi) as (b & Hb & _). by exists b. Qed.

Lemma load_words_ok n data j :
  0 <= j -> j + 4 * Z.of_nat n <= Z.of_nat (length data) -> exists m, load_words n data j = Some m /\ length m = n.
Proof.
  revert j. induction n as [|n IH]; intros j Hj Hl; cbn [load_words]; [by exists []|].
  destruct (rd_ok data (j + 0)) as [b0 ->]; [lia|]. destruct (rd_ok data (j + 1)) as [b1 ->]; [lia|].
  destruct (rd_ok data (j + 2)) as [b2 ->]; [lia|]. destruct (rd_ok data (j + 3)) as [b3 ->]; [lia|]. mstep.
  destruct (IH (j + 4)) as (m & -> & Hm); [lia..|]. mstep. eexists. split; [done|]. cbn. lia.
Qed.

Lemma schedule_ok n m i :
  i = Z.of_nat (length m) -> 16 <= i -> exists m', schedule n m i = Some m' /\ length m' = (length m + n)%nat.
Proof.
  revert m i. induction n as [|n IH]; intros m i Hi H16; cbn [schedule]; [exists m; split; [done|lia]|].
  destruct (rd_ok m (i - 2)) as [m2 ->]; [lia|]. destruct (rd_ok m (i - 7)) as [m7 ->]; [lia|].
  destruct (rd_ok m (i - 15)) as [m15 ->]; [lia|]. destruct (rd_ok m (i - 16)) as [m16 ->]; [lia|]. mstep.
  destruct (IH (m ++ [u32 (SIG1 m2 + m7 + SIG0 m15 + m16)]) (i + 1)) as (m' & -> & Hm'); [rewrite length_app; cbn; lia|lia|].
  exists m'. split; [done|]. rewrite Hm', length_app. cbn. lia.
Qed.

Lemma rounds_ok n m w i :
  0 <= i -> i + Z.of_nat n <= 64 -> length m = 64%nat -> exists w', rounds n m w i = Some w'.
Proof.
  revert w i. induction n as [|n IH]; intros w i Hi Hn Hm; cbn [rounds]; [by eexists|].
  destruct (rd_ok sha256_k i) as [ki ->]; [cbn; lia|]. destruct (rd_ok m i) as [mi ->]; [lia|]. mstep. apply IH; [lia..|done].
Qed.

Lemma transform_ok s data : length data = 64%nat -> sha256_transform s data = Some (compress s data).
Proof.
  intros Hl. unfold compress. enough (is_Some (sha256_transform s data)) as [s' ->] by done. unfold sha256_transform.
  destruct (load_words_ok 16 data 0) as (m & -> & Hm); [lia..|]. mstep.
  destruct (schedule_ok 48 m 16) as (m' & -> & Hm'); [lia..|]. mstep.
  destruct (rounds_ok 64 m' s 0) as (w & ->); [lia..|]. mstep. by eexists.
Qed.

(** ** Blocks *)

Lemma sha_blocks_app A B n : length A = (64 * n)%nat -> sha_blocks (A ++ B) = sha_blocks A ++ sha_blocks B.
Proof.
  intros HA. unfold sha_blocks. rewrite length_app, HA.
  replace ((64 * n + length B) / 64)%nat with (n + length B / 64)%nat by (by rewrite (Nat.mul_comm 64 n), Nat.div_add_l by lia).
  rewrite (Nat.mul_comm 64 n), Nat.div_mul by lia. rewrite Nat.mul_comm in HA. revert A HA.
  induction n as [|n IH]; intros A HA; cbn [Nat.add replicate reshape]; [by destruct A|].
  rewrite take_app_le, drop_app_le by lia. cbn [app]. f_equal. apply IH. rewrite length_drop. lia.
Qed.

Lemma absorb_app {W} (f : W -> list Z -> W) s A B n : length A = (64 * n)%nat -> absorb f s (A ++ B) = absorb f (absorb f s A) B.
Proof. intros HA. unfold absorb. by rewrite (sha_blocks_app A B n HA), foldl_app. Qed.

Lemma absorb_block {W} (f : W -> list Z -> W) s A : length A = 64%nat -> absorb f s A = f s A.
Proof. intros HA. unfold absorb, sha_blocks. rewrite HA. cbn. by rewrite take_ge by lia. Qed.

(** ** Updates *)

(** The context after a message *)
Definition ctx_ok (ctx : SHA256_CTX) (msg : list Z) : Prop :=
  exists full part rest n, msg = full ++ part /\ length full = (64 * n)%nat /\ (length part < 64)%nat /\
    sha_data ctx = part ++ rest /\ length (part ++ rest) = 64%nat /\ sha_datalen ctx = Z.of_nat (length part) /\
    sha_bitlen ctx = 512 * Z.of_nat n /\ sha_state ctx = absorb compress initial_words full.

Lemma update_byte_ok ctx msg b :
  ctx_ok ctx msg -> is_byte b -> 8 * (Z.of_nat (length msg) + 1) < 2 ^ 64 ->
  exists ctx', update_byte ctx b = Some ctx' /\ ctx_ok ctx' (msg ++ [b]).
Proof.
  intros (full & part & rest & n & -> & Hf & Hp & Hd & Hl & Hdl & Hbl & Hst) Hb Hsm. unfold update_byte. rewrite length_app in Hl, Hsm.
  destruct rest as [|r rest]; [cbn in Hl; lia|]. rewrite Hd, Hdl, wr_mid by done. mstep. rewrite (wrapU_id 8 b) by done.
  rewrite (wrapU_id 32) by (unfold inU; lia). cbn [length] in Hl. destruct (Z.eqb_spec (Z.of_nat (length part) + 1) 64) as [H64|H64].
  - assert (rest = []) as -> by (apply length_zero_iff_nil; lia). rewrite transform_ok by (rewrite length_app; cbn; lia). mstep.
    eexists. split; [done|]. exists (full ++ part ++ [b]), [], (part ++ [b]), (S n). cbn [app length sha_data sha_datalen sha_bitlen sha_state].
    assert (Hlen : length (part ++ [b]) = 64%nat) by (rewrite length_app; cbn; lia). rewrite app_nil_r, <- app_assoc.
    split_and!; try done; [rewrite length_app; lia|lia| |].
    + rewrite Hbl, wrapU_id by (unfold inU; lia). lia.
    + by rewrite (absorb_app _ _ full _ n Hf), <- Hst, absorb_block.
  - eexists. split; [done|]. exists full, (part ++ [b]), rest, n. cbn [sha_data sha_datalen sha_bitlen sha_state].
    rewrite <- !app_assoc. split_and!; try done; rewrite ?length_app; cbn; lia.
Qed.

Lemma update_loop_ok data fuel ctx msg i :
  ctx_ok ctx msg -> Forall is_byte data -> Z.of_nat (length data) < 2 ^ 32 ->
  8 * (Z.of_nat (length msg) + Z.of_nat (length data - i)) < 2 ^ 64 -> (i <= length data)%nat -> (length data - i < fuel)%nat ->
  exists ctx', sha_update_loop fuel ctx data (Z.of_nat (length data)) (Z.of_nat i) = Some ctx' /\ ctx_ok ctx' (msg ++ drop i data).
Proof.
  revert ctx msg i. induction fuel as [|fuel IH]; intros ctx msg i Hc Hb H32 Hsm Hi Hf; [lia|]. cbn [sha_update_loop].
  destruct (Z.ltb_spec (Z.of_nat i) (Z.of_nat (length data))) as [Hlt|Hge].
  - destruct (lookup_lt_is_Some_2 data i) as [b Hbi]; [lia|]. assert (rd data (Z.of_nat i) = Some b) as ->.
    { unfold rd. destruct (Z.ltb_spec (Z.of_nat i) 0); [lia|]. by rewrite Nat2Z.id. }
    mstep. destruct (update_byte_ok ctx msg b Hc) as (ctx' & -> & Hc'); [by eapply Forall_lookup_1|lia|]. mstep.
    rewrite wrapU_id by (unfold inU; lia). replace (Z.of_nat i + 1) with (Z.of_nat (S i)) by lia.
    rewrite (drop_S data b i), cons_middle, app_assoc by done. apply IH; try done; rewrite ?length_app; cbn; lia.
  - exists ctx. split; [done|]. by rewrite drop_ge, app_nil_r by lia.
Qed.

Lemma sha_update_ok ctx msg data :
  ctx_ok ctx msg -> Forall is_byte data -> Z.of_nat (length data) < 2 ^ 32 ->
  8 * (Z.of_nat (length msg) + Z.of_nat (length data)) < 2 ^ 64 ->
  exists ctx', sha256_update ctx data = Some ctx' /\ ctx_ok ctx' (msg ++ data).
Proof. intros Hc Hb H32 Hsm. apply (update_loop_ok data (S (length data)) ctx msg 0); try done; rewrite ?Nat.sub_0_r; lia. Qed.

(** ** The end of the message *)

Lemma fill_zero_ok n A B C i :
  i = Z.of_nat (length A) -> length B = n -> fill_zero n (A ++ B ++ C) i = Some (A ++ replicate n 0 ++ C).
Proof.
  revert A B i. induction n as [|n IH]; intros A B i Hi HB; cbn [fill_zero].
  - by destruct B.
  - destruct B as [|b B]; [done|]. cbn [app]. rewrite wr_mid by done. mstep. change (u8 0) with 0.
    rewrite (cons_middle 0 A), (app_assoc A). rewrite (IH (A ++ [0]) B) by (rewrite ?length_app; cbn in *; lia).
    cbn [replicate]. by rewrite <- app_assoc.
Qed.

Lemma put_bitlen_ok A B n : length A = 56%nat -> length B = 8%nat -> put_bitlen (A ++ B) n = Some (A ++ be64 n).
Proof.
  intros HA HB. destruct B as [|b0 [|b1 [|b2 [|b3 [|b4 [|b5 [|b6 [|b7 [|]]]]]]]]]; try done.
  unfold put_bitlen. do 56 (destruct A as [|? A]; [done|]). destruct A; [|done]. reflexivity.
Qed.

Lemma be64_length n : length (be64 n) = 8%nat.
Proof. done. Qed.

(** The blocks that the padding makes of the last bytes *)
Lemma pad_split full part n :
  length full = (64 * n)%nat -> (length part < 64)%nat ->
  sha_pad (full ++ part) = full ++ part ++ 0x80 :: replicate (if (length part <? 56)%nat then 55 - length part else 119 - length part) 0 ++
    be64 (512 * Z.of_nat n + Z.of_nat (length part) * 8).
Proof.
  intros Hf Hp. unfold sha_pad. rewrite <- app_assoc. cbn [app]. do 3 f_equal. rewrite length_app, Hf. f_equal; [f_equal|f_equal; lia].
  replace (55 - Z.of_nat (64 * n + length part)) with (55 - Z.of_nat (length part) + (- Z.of_nat n) * 64) by lia.
  rewrite Z.mod_add by lia. destruct (Nat.ltb_spec (length part) 56).
  - rewrite Z.mod_small by lia. lia.
  - rewrite <- (Z.mod_add _ 1), Z.mod_small by lia. lia.
Qed.

Lemma final_ok ctx msg :
  ctx_ok ctx msg -> 8 * Z.of_nat (length msg) < 2 ^ 64 ->
  sha256_final ctx = Some (digest (absorb compress initial_words (sha_pad msg))).
Proof.
  intros (full & part & rest & n & -> & Hf & Hp & Hd & Hl & Hdl & Hbl & Hst) Hsm. rewrite (pad_split full part n Hf Hp).
  rewrite length_app in Hl, Hsm. unfold sha256_final. rewrite Hd, Hdl. destruct rest as [|r rest]; [cbn in Hl; lia|].
  rewrite wr_mid by done. mstep. change (u8 0x80) with 0x80. cbn [length] in Hl.
  rewrite (wrapU_id 32) by (unfold inU; lia). rewrite Hbl, (wrapU_id 64) by (unfold inU; lia). set (bits := 512 * _ + _).
  rewrite (absorb_app _ _ full _ n Hf), <- Hst. rewrite (cons_middle 0x80 part rest), (app_assoc part).
  assert (Hp1 : length (part ++ [0x80]) = S (length part)) by (rewrite length_app; cbn; lia).
  destruct (Nat.ltb_spec (length part) 56) as [H56|H56].
  - destruct (Z.ltb_spec (Z.of_nat (length part)) 56) as [_|]; [|lia].
    rewrite <- (take_drop (55 - length part) rest). rewrite fill_zero_ok by (rewrite ?Hp1, ?length_take; lia). mstep.
    replace (Z.to_nat (56 - (Z.of_nat (length part) + 1))) with (55 - length part)%nat by lia.
    rewrite (app_assoc (part ++ [_])). rewrite put_bitlen_ok by (rewrite ?length_app, ?length_replicate, ?length_drop; cbn; lia). mstep.
    set (data := (_ ++ _) ++ be64 bits). assert (Hdata : length data = 64%nat).
    { unfold data. rewrite !length_app, be64_length, length_replicate. cbn. lia. }
    rewrite transform_ok, <- (absorb_block compress) by done. mstep. do 3 f_equal. unfold data. by rewrite <- !app_assoc.
  - destruct (Z.ltb_spec (Z.of_nat (length part)) 56) as [|_]; [lia|].
    rewrite <- (app_nil_r rest). rewrite fill_zero_ok by (rewrite ?Hp1; lia). mstep. rewrite app_nil_r.
    replace (Z.to_nat (64 - (Z.of_nat (length part) + 1))) with (63 - length part)%nat by lia.
    set (d1 := (part ++ [0x80]) ++ replicate (63 - length part) 0). assert (H1 : length d1 = 64%nat).
    { unfold d1. rewrite length_app, length_replicate. lia. }
    rewrite transform_ok by done. mstep. rewrite <- (take_drop 56 d1) at 1. rewrite mstore_app_l by (rewrite length_take, length_replicate; lia). mstep.
    rewrite put_bitlen_ok by (rewrite ?length_replicate, ?length_drop; lia). mstep.
    rewrite transform_ok by (rewrite length_app, be64_length, length_replicate; lia). mstep. do 2 f_equal.
    replace (119 - length part)%nat with (63 - length part + 56)%nat by lia. rewrite replicate_add.
    replace (part ++ 0x80 :: (replicate (63 - length part) 0 ++ replicate 56 0) ++ be64 bits) with (d1 ++ replicate 56 0 ++ be64 bits)
      by (unfold d1; by rewrite <- !app_assoc).
    rewrite (absorb_app _ _ d1 _ 1) by done. rewrite (absorb_block _ _ d1), absorb_block by (rewrite ?length_app, ?be64_length, ?length_replicate; lia). done.
Qed.

Lemma pieces_ok junk pieces :
  length junk = 64%nat -> Forall (Forall is_byte) pieces -> Forall (fun p => Z.of_nat (length p) < 2 ^ 32) pieces ->
  8 * Z.of_nat (length (concat pieces)) < 2 ^ 64 ->
  exists ctx, foldl (fun ctx piece => ctx ← ctx; sha256_update ctx piece) (Some (sha256_init junk)) pieces = Some ctx /\
    ctx_ok ctx (concat pieces).
Proof.
  intros Hj. induction pieces as [|p pieces IH] using rev_ind; intros Hb Hl Hsm.
  - exists (sha256_init junk). split; [done|]. exists [], [], junk, O. split_and!; try done. cbn. lia.
  - apply Forall_app in Hb as [Hb Hbp]. apply Forall_app in Hl as [Hl Hlp]. apply Forall_cons in Hbp as [Hbp _]. apply Forall_cons in Hlp as [Hlp _].
    rewrite concat_app, length_app in Hsm. cbn [concat] in Hsm. rewrite app_nil_r in Hsm.
    destruct IH as (ctx & Hctx & Hok); [done..|lia|]. rewrite foldl_app, Hctx. cbn [foldl]. mstep.
    destruct (sha_update_ok ctx _ p Hok Hbp Hlp) as (ctx' & -> & Hok'); [lia|]. exists ctx'. split; [done|].
    by rewrite concat_app, (app_nil_r p : concat [p] = p).
Qed.

(** C38: however a message is cut in pieces, and whatever the block of the
    context holds at first, the digest is the one of the iteration of the
    compression function over the message, a bit 1, the least number of zeros
    and the length in bits, with no access outside of the block. Each piece is
    shorter than 2^32 bytes. *)
Theorem sha256_correct junk pieces :
  length junk = 64%nat -> Forall (Forall is_byte) pieces -> Forall (fun p => Z.of_nat (length p) < 2 ^ 32) pieces ->
  8 * Z.of_nat (length (concat pieces)) < 2 ^ 64 ->
  sha256 junk pieces = Some (digest (absorb compress initial_words (sha_pad (concat pieces)))).
Proof.
  intros Hj Hb Hl Hsm. unfold sha256. destruct (pieces_ok junk pieces Hj Hb Hl Hsm) as (ctx & -> & Hok). mstep. by apply final_ok.
Qed.

(** The test vector of the standard, in two pieces *)
Lemma sha256_correct_witness :
  sha256 (replicate 64 7) [[97]; [98; 99]] = Some
    [186; 120; 22; 191; 143; 1; 207; 234; 65; 65; 64; 222; 93; 174; 34; 35; 176; 3; 97; 163; 150; 23; 122; 156; 180; 16; 255; 97; 242; 0; 21; 173].
Proof.
  rewrite (sha256_correct (replicate 64 7) [[97]; [98; 99]]).
  - vm_compute. reflexivity.
  - reflexivity.
  - apply (bool_decide_unpack _). vm_compute. exact I.
  - apply (bool_decide_unpack _). vm_compute. exact I.
  - vm_compute. reflexivity.
Defined.

(** A longer message, of two blocks *)
Example sha256_two_blocks :
  sha256 (replicate 64 7) [replicate 70 97] = Some
    [107; 213; 229; 3; 72; 85; 161; 18; 65; 240; 222; 232; 252; 114; 133; 15; 253; 153; 85; 178; 131; 71; 168; 100; 40; 181; 250; 25; 17; 159; 106; 208].
Proof. vm_compute. reflexivity. Qed.

(** A piece of 2^32 bytes or more is never finished: the counter of the loop
    has 32 bits and is always below the length, so that no number of turns is
    enough. *)
Theorem sha256_update_diverges fuel ctx data len i :
  2 ^ 32 <= len -> 0 <= i < 2 ^ 32 -> sha_update_loop fuel ctx data len i = None.
Proof.
  intros Hlen. revert ctx i. induction fuel as [|fuel IH]; intros ctx i Hi; cbn [sha_update_loop]; [done|].
  destruct (Z.ltb_spec i len); [|lia]. destruct (rd data i) as [b|]; [|done]. mstep. destruct (update_byte ctx b) as [ctx'|]; [|done]. mstep.
  apply IH. apply (wrapU_range 32). done.
Qed.

(** [ROTRIGHT] is the rotation of the bits of a word. *)
Lemma ROTRIGHT_bits x n i :
  0 <= x < 2 ^ 32 -> 0 < n < 32 -> 0 <= i < 32 -> Z.testbit (ROTRIGHT x n) i = Z.testbit x ((i + n) mod 32).
Proof.
  intros Hx Hn Hi. unfold ROTRIGHT, wrapU. rewrite Z.lor_spec, Z.shiftr_spec, Z.mod_pow2_bits_low, Z.shiftl_spec by lia.
  destruct (Z.lt_ge_cases (i + n) 32) as [Hlt|Hge].
  - rewrite Z.mod_small by lia. rewrite (Z.testbit_neg_r x (i - (32 - n))) by lia. apply orb_false_r.
  - rewrite <- (Z.mod_add (i + n) (-1) 32), Z.mod_small by lia. rewrite (Z.bits_above_log2 x (i + n)).
    + cbn [orb]. f_equal. lia.
    + lia.
    + destruct (Z.eq_dec x 0) as [->|]; [cbn; lia|]. apply Z.log2_lt_pow2; [lia|]. eapply Z.lt_le_trans; [apply Hx|]. apply Z.pow_le_mono_r; lia.
Qed.
