(* ===== verification/Localtime.v ===== *)
(** * Calendar dates ([localtime.c])

    The log needs the date in a process that has just forked, where the
    library's function may hold a lock; [nolocks_localtime] computes it by
    counting years and months. It is proved to be the inverse of the closed
    formula for the number of a day in the Gregorian calendar.

    Seconds are 64 bit integers and the fields of the date 32 bit ones; the
    overflow of either is [None]. *)

From S2P Require Import Prelude.

#[local] Open Scope Z_scope.

Record tm := mkTm {
  tm_sec : Z; tm_min : Z; tm_hour : Z; tm_mday : Z; tm_mon : Z; tm_year : Z; tm_wday : Z; tm_yday : Z; tm_isdst : Z
}.

(** The operators of C round towards zero. *)
Definition is_leap_year (year : Z) : Z :=
  if negb (Z.rem year 4 =? 0) then 0
  else if negb (Z.rem year 100 =? 0) then 1
  else if negb (Z.rem year 400 =? 0) then 0
  else 1.

(** [while(1)]: the year, and the days that are left *)
Fixpoint year_loop (fuel : nat) (year days : Z) : option (Z * Z) :=
  match fuel with
  | O => None
  | S fuel =>
      let days_this_year := 365 + is_leap_year year in
      if days_this_year >? days then Some (year, days)
      else _ ← cassert (year + 1 <? 2 ^ 31); year_loop fuel (year + 1) (days - days_this_year)
  end.

Definition mdays (year : Z) : list Z := [31; 28 + is_leap_year year; 31; 30; 31; 30; 31; 31; 30; 31; 30; 31].

(** [while(days >= mdays[tmp->tm_mon])]: there are at most twelve reads in the
    array. *)
Fixpoint month_loop (fuel : nat) (md : list Z) (mon days : Z) : option (Z * Z) :=
  match fuel with
  | O => None
  | S fuel =>
      n ← rd md mon;
      if days >=? n then month_loop fuel md (mon + 1) (days - n) else Some (mon, days)
  end.

(** A year has at least 365 days. *)
Definition year_fuel (days : Z) : nat := S (Z.to_nat (Z.quot days 365)).

(** [dst] is the flag of daylight saving time, 0 or 1; for such a value the
    product [3600 * dst], of [int]s in the code, does not overflow. *)
Definition nolocks_localtime (t tz dst : Z) : option tm :=
  let secs_min := 60 in
  let secs_hour := 3600 in
  let secs_day := 3600 * 24 in
  _ ← cassert (bool_decide (inS 64 (t - tz)));
  let t := t - tz in
  _ ← cassert (bool_decide (inS 64 (t + 3600 * dst)));
  let t := t + 3600 * dst in
  let days := Z.quot t secs_day in
  let seconds := Z.rem t secs_day in
  let hour := Z.quot seconds secs_hour in
  let min := Z.quot (Z.rem seconds secs_hour) secs_min in
  let sec := Z.rem (Z.rem seconds secs_hour) secs_min in
  let wday := Z.rem (days + 4) 7 in
  '(year, days) ← year_loop (year_fuel days) 1970 days;
  let yday := days in
  '(mon, days) ← month_loop 13 (mdays year) 0 days;
  Some (mkTm sec min hour (days + 1) mon (year - 1900) wday yday dst).

(** ** The reference *)

(** The leap years before a year *)
Definition leaps (y : Z) : Z := (y - 1) / 4 - (y - 1) / 100 + (y - 1) / 400.

(** The number of the first day of a year, from the first of January 1970 *)
Definition year_start (y : Z) : Z := 365 * (y - 1970) + (leaps y - leaps 1970).

(** The days of a year before a month *)
Definition month_start (y : Z) (mon : nat) : Z := foldr Z.add 0 (take mon (mdays y)).

(** The number of a day *)
Definition epoch_day (y : Z) (mon : nat) (mday : Z) : Z := year_start y + month_start y mon + (mday - 1).

Lemma is_leap_range y : 0 <= is_leap_year y <= 1.
Proof. unfold is_leap_year. repeat case_match; lia. Qed.

Lemma year_start_succ y : 0 < y -> year_start (y + 1) = year_start y + 365 + is_leap_year y.
Proof.
  intros Hy. unfold year_start, leaps, is_leap_year. rewrite !Z.rem_mod_nonneg by lia.
  replace (y + 1 - 1) with y by lia. set (l0 := (1970 - 1) / 4 - _ + _). clearbody l0.
  destruct (Z.eqb_spec (y mod 4) 0), (Z.eqb_spec (y mod 100) 0), (Z.eqb_spec (y mod 400) 0); cbn [negb]; Z.div_mod_to_equations; lia.
Qed.

Lemma year_loop_ok fuel y days :
  1970 <= y -> 0 <= days -> days < 365 * Z.of_nat fuel -> y + Z.of_nat fuel <= 2 ^ 31 ->
  exists y' days', year_loop fuel y days = Some (y', days') /\ y <= y' < 2 ^ 31 /\
    0 <= days' < 365 + is_leap_year y' /\ year_start y + days = year_start y' + days'.
Proof.
  revert y days. induction fuel as [|fuel IH]; intros y days Hy Hd Hf Hm; [lia|]. cbn [year_loop]. pose proof (is_leap_range y).
  rewrite Z.gtb_ltb. destruct (Z.ltb_spec days (365 + is_leap_year y)) as [Hlt|Hge].
  - exists y, days. split_and!; try done; lia.
  - assert (Hfu : 0 < Z.of_nat fuel) by lia. rewrite (proj2 (Z.ltb_lt (y + 1) (2 ^ 31))) by lia. cbn [cassert]. mstep.
    destruct (IH (y + 1) (days - (365 + is_leap_year y))) as (y' & d' & -> & H1 & H2 & H3); [lia..|].
    exists y', d'. split_and!; try done; try lia. rewrite year_start_succ in H3 by lia. lia.
Qed.

Lemma month_loop_ok md fuel k days :
  0 <= days < foldr Z.add 0 (drop k md) -> (length md - k < fuel)%nat ->
  exists mon d n, month_loop fuel md (Z.of_nat k) days = Some (Z.of_nat mon, d) /\ (k <= mon < length md)%nat /\
    md !! mon = Some n /\ 0 <= d < n /\ foldr Z.add 0 (take k md) + days = foldr Z.add 0 (take mon md) + d.
Proof.
  revert k days. induction fuel as [|fuel IH]; intros k days Hd Hf; [lia|]. cbn [month_loop].
  destruct (decide (k < length md)%nat) as [Hk|Hk]; [|rewrite drop_ge in Hd by lia; cbn in Hd; lia].
  destruct (lookup_lt_is_Some_2 md k Hk) as [n Hn]. unfold rd. destruct (Z.ltb_spec (Z.of_nat k) 0); [lia|]. rewrite Nat2Z.id, Hn. mstep.
  rewrite (drop_S md n k Hn) in Hd. cbn in Hd. rewrite Z.geb_leb. destruct (Z.leb_spec n days) as [Hle|Hgt].
  - destruct (IH (S k) (days - n)) as (mon & d & n' & Hl & Hm & Hn' & Hdd & Hs); [lia..|].
    replace (Z.of_nat k + 1) with (Z.of_nat (S k)) by lia. exists mon, d, n'. split_and!; try done; try lia.
    rewrite (take_S_r md k n Hn), foldr_app in Hs. cbn in Hs.
    assert (Hadd : forall (l : list Z) a, foldr Z.add a l = foldr Z.add 0 l + a) by (intros l a; induction l; cbn; lia).
    rewrite Hadd in Hs. lia.
  - exists k, days, n. split_and!; try done; lia.
Qed.

(** C40: the date of any second up to the year two billion is the one of the
    Gregorian calendar: all the fields are in their ranges, and the closed
    formula for the number of the day, with the hours, minutes and seconds,
    gives the time back; the day of the week and of the year agree with it.
    ([dst] is the flag 0 or 1 in the code, where [3600 * dst] is an [int].) *)
Theorem nolocks_localtime_correct t tz dst :
  inS 64 t -> inS 64 (t - tz) -> 0 <= t - tz + 3600 * dst < 2 ^ 55 ->
  exists r mon n, nolocks_localtime t tz dst = Some r /\ tm_mon r = Z.of_nat mon /\
    let y := tm_year r + 1900 in
    mdays y !! mon = Some n /\ 1 <= tm_mday r <= n /\ 1970 <= y /\
    0 <= tm_sec r < 60 /\ 0 <= tm_min r < 60 /\ 0 <= tm_hour r < 24 /\ tm_isdst r = dst /\
    86400 * epoch_day y mon (tm_mday r) + 3600 * tm_hour r + 60 * tm_min r + tm_sec r = t - tz + 3600 * dst /\
    tm_yday r = epoch_day y mon (tm_mday r) - year_start y /\
    tm_wday r = (4 + epoch_day y mon (tm_mday r)) mod 7.
Proof.
  intros Ht Htz Hr. unfold nolocks_localtime. rewrite (bool_decide_true (inS 64 (t - tz))) by done. cbn [cassert]. mstep.
  rewrite (bool_decide_true (inS 64 _)) by (unfold inS; zpow; lia). cbn [cassert]. mstep. set (T := t - tz + 3600 * dst) in *. clearbody T.
  change (3600 * 24) with 86400. rewrite (Z.quot_div_nonneg T), (Z.rem_mod_nonneg T) by lia.
  assert (Hday : 0 <= T / 86400) by (apply Z.div_pos; lia). assert (Hmod : 0 <= T mod 86400 < 86400) by (apply Z.mod_pos_bound; lia).
  pose proof (Z.div_mod T 86400 ltac:(lia)) as HT. set (D := T / 86400) in *. set (s := T mod 86400) in *. clearbody D s.
  rewrite (Z.quot_div_nonneg s), (Z.rem_mod_nonneg s) by lia. pose proof (Z.mod_pos_bound s 3600 ltac:(lia)) as Hs.
  rewrite (Z.quot_div_nonneg (s mod 3600)), (Z.rem_mod_nonneg (s mod 3600)), (Z.rem_mod_nonneg (D + 4)) by lia.
  destruct (year_loop_ok (year_fuel D) 1970 D) as (y & d & -> & Hy & Hd & HD).
  { lia. } { done. }
  { unfold year_fuel. rewrite Z.quot_div_nonneg by lia. Z.div_mod_to_equations. lia. }
  { unfold year_fuel. rewrite Z.quot_div_nonneg by lia. zpow. Z.div_mod_to_equations. lia. }
  mstep. change (year_start 1970) with 0 in HD.
  destruct (month_loop_ok (mdays y) 13 0 d) as (mon & dd & n & Hml & Hmon & Hn & Hdd & Hsum).
  { cbn. lia. } { cbn. lia. }
  change (Z.of_nat 0) with 0 in Hml. rewrite Hml. mstep. change (foldr Z.add 0 (take 0 (mdays y))) with 0 in Hsum.
  eexists _, mon, n. split; [done|]. cbv zeta. cbn [tm_mon tm_year tm_mday tm_sec tm_min tm_hour tm_isdst tm_yday tm_wday].
  replace (y - 1900 + 1900) with y by lia.
  assert (Hep : epoch_day y mon (dd + 1) = D) by (unfold epoch_day, month_start; lia). rewrite Hep.
  split_and!; try done; try lia; try (Z.div_mod_to_equations; lia).
Qed.

(** The 29th of February 2000, a Tuesday, at 23:59:59 in a zone one hour ahead *)
Lemma nolocks_localtime_correct_witness :
  nolocks_localtime 951865199 (-3600) 0 = Some (mkTm 59 59 23 29 1 100 2 59 0) /\
  exists r mon n, nolocks_localtime 951865199 (-3600) 0 = Some r /\ tm_mon r = Z.of_nat mon /\
    mdays (tm_year r + 1900) !! mon = Some n /\ 1 <= tm_mday r <= n.
Proof.
  split; [vm_compute; reflexivity|].
  destruct (nolocks_localtime_correct 951865199 (-3600) 0) as (r & mon & n & H1 & H2 & H3 & H4 & _).
  - vm_compute. split; congruence.
  - vm_compute. split; congruence.
  - vm_compute. split; congruence.
  - exists r, mon, n. auto.
Defined.
