(* ===== verification/Sha1.v ===== *)
(** * SHA-1 ([sha1.c])

    Scripts are named by their SHA-1 digest. The code expands the block in
    place, sixteen words in a circle, takes its input a block at a time from
    the caller's buffer, and counts the bits in two words. It is proved to
    compute the digest of the standard, stated with the eighty words of the
    schedule and the functions of the standard. *)

From S2P Require Import Prelude Sha256.

#[local] Open Scope Z_scope.

(** ** The code *)

Definition rol (value bits : Z) : Z := Z.lor (u32 (Z.shiftl value bits)) (Z.shiftr value (32 - bits)).

(** The registers, in the order of the arguments of a round *)
Record sha1_regs := mkRegs { rv : Z; rw : Z; rx : Z; ry : Z; rz : Z }.

Record SHA1_CTX := mkCtx1 { s1_state : sha1_regs; s1_count0 : Z; s1_count1 : Z; s1_buffer : list Z }.

(** The macros change the block and give the word. *)
Definition blk0 (block : list Z) (i : Z) : option (list Z * Z) :=
  x ← rd block i;
  let x := Z.lor (Z.land (rol x 24) 0xFF00FF00) (Z.land (rol x 8) 0x00FF00FF) in
  Some (<[Z.to_nat i := x]> block, x).

Definition blk (block : list Z) (i : Z) : option (list Z * Z) :=
  x13 ← rd block (Z.land (i + 13) 15); x8 ← rd block (Z.land (i + 8) 15);
  x2 ← rd block (Z.land (i + 2) 15); x0 ← rd block (Z.land i 15);
  let x := rol (Z.lxor (Z.lxor (Z.lxor x13 x8) x2) x0) 1 in
  Some (<[Z.to_nat (Z.land i 15) := x]> block, x).

(** [R0] to [R4] without the part that expands the block; the registers change
    their names from a round to the next. *)
Definition sha1_R (f k word : Z) (r : sha1_regs) : sha1_regs :=
  mkRegs (u32 (rz r + u32 (f + word + k + rol (rv r) 5))) (rv r) (rol (rw r) 30) (rx r) (ry r).

Definition choose (w x y : Z) : Z := Z.lxor (Z.land w (Z.lxor x y)) y.
Definition parity (w x y : Z) : Z := Z.lxor (Z.lxor w x) y.
Definition majority (w x y : Z) : Z := Z.lor (Z.land (Z.lor w x) y) (Z.land w x).

Definition sha1_round (i : Z) (block : list Z) (r : sha1_regs) : option (list Z * sha1_regs) :=
  '(block, word) ← (if i <? 16 then blk0 block i else blk block i);
  let '(f, k) :=
    if i <? 20 then (choose (rw r) (rx r) (ry r), 0x5A827999)
    else if i <? 40 then (parity (rw r) (rx r) (ry r), 0x6ED9EBA1)
    else if i <? 60 then (majority (rw r) (rx r) (ry r), 0x8F1BBCDC)
    else (parity (rw r) (rx r) (ry r), 0xCA62C1D6) in
  Some (block, sha1_R f k word r).

(** The unrolled rounds *)
Fixpoint sha1_rounds (n : nat) (i : Z) (block : list Z) (r : sha1_regs) : option (list Z * sha1_regs) :=
  match n with
  | O => Some (block, r)
  | S n => '(block, r) ← sha1_round i block r; sha1_rounds n (i + 1) block r
  end.

Definition add_regs (s r : sha1_regs) : sha1_regs :=
  mkRegs (u32 (rv s + rv r)) (u32 (rw s + rw r)) (u32 (rx s + rx r)) (u32 (ry s + ry r)) (u32 (rz s + rz r)).

(** The bytes of the union, read as words of the machine *)
Definition union_words (bytes : list Z) : list Z := le_decode <$> reshape (replicate 16 4%nat) bytes.

Definition SHA1Transform (s : sha1_regs) (buffer : list Z) : option sha1_regs :=
  bytes ← mload buffer 0 64;
  '(_, r) ← sha1_rounds 80 0 (union_words bytes) s;
  Some (add_regs s r).

Definition sha1_initial : sha1_regs := mkRegs 0x67452301 0xEFCDAB89 0x98BADCFE 0x10325476 0xC3D2E1F0.

Definition SHA1Init (junk : list Z) : SHA1_CTX := mkCtx1 sha1_initial 0 0 junk.

(** [for ( ; i + 63 < len; i += 64)] *)
Fixpoint sha1_blocks_loop (fuel : nat) (s : sha1_regs) (data : list Z) (len i : Z) : option (sha1_regs * Z) :=
  match fuel with
  | O => None
  | S fuel =>
      if u32 (i + 63) <? len then
        block ← mload data i 64;
        s ← SHA1Transform s block;
        sha1_blocks_loop fuel s data len (u32 (i + 64))
      else Some (s, i)
  end.

(** [len] is a [uint32_t]. *)
Definition SHA1Update (ctx : SHA1_CTX) (data : list Z) (len : Z) : option SHA1_CTX :=
  let j := s1_count0 ctx in
  let count0 := u32 (s1_count0 ctx + u32 (Z.shiftl len 3)) in
  let count1 := if count0 <? j then u32 (s1_count1 ctx + 1) else s1_count1 ctx in
  let count1 := u32 (count1 + Z.shiftr len 29) in
  let j := Z.land (Z.shiftr j 3) 63 in
  '(s, buffer, i, j) ←
    (if u32 (j + len) >? 63 then
       bs ← mload data 0 (64 - j);
       buffer ← mstore (s1_buffer ctx) j bs;
       s ← SHA1Transform (s1_state ctx) buffer;
       '(s, i) ← sha1_blocks_loop (S (Z.to_nat (len / 64))) s data len (64 - j);
       Some (s, buffer, i, 0)
     else Some (s1_state ctx, s1_buffer ctx, 0, j));
  bs ← mload data i (u32 (len - i));
  buffer ← mstore buffer j bs;
  Some (mkCtx1 s count0 count1 buffer).

Definition finalcount (ctx : SHA1_CTX) : list Z :=
  (fun i => Z.land (Z.shiftr (if i >=? 4 then s1_count0 ctx else s1_count1 ctx) ((3 - Z.land i 3) * 8)) 255) <$> [0; 1; 2; 3; 4; 5; 6; 7].

(** [while ((context->count[0] & 504) != 448)] *)
Fixpoint sha1_pad_loop (fuel : nat) (ctx : SHA1_CTX) : option SHA1_CTX :=
  match fuel with
  | O => None
  | S fuel =>
      if negb (Z.land (s1_count0 ctx) 504 =? 448) then ctx ← SHA1Update ctx [0] 1; sha1_pad_loop fuel ctx
      else Some ctx
  end.

Definition sha1_word (s : sha1_regs) (n : Z) : Z :=
  if n =? 0 then rv s else if n =? 1 then rw s else if n =? 2 then rx s else if n =? 3 then ry s else rz s.

Definition sha1_digest (s : sha1_regs) : list Z :=
  (fun i => Z.land (Z.shiftr (sha1_word s (Z.shiftr i 2)) ((3 - Z.land i 3) * 8)) 255) <$>
  [0; 1; 2; 3; 4; 5; 6; 7; 8; 9; 10; 11; 12; 13; 14; 15; 16; 17; 18; 19].

Definition SHA1Final (ctx : SHA1_CTX) : option (list Z) :=
  let bits := finalcount ctx in
  ctx ← SHA1Update ctx [0x80] 1;
  ctx ← sha1_pad_loop 64 ctx;
  ctx ← SHA1Update ctx bits 8;
  Some (sha1_digest (s1_state ctx)).

Definition sha1 (junk : list Z) (pieces : list (list Z)) : option (list Z) :=
  ctx ← foldl (fun ctx piece => ctx ← ctx; SHA1Update ctx piece (Z.of_nat (length piece))) (Some (SHA1Init junk)) pieces;
  SHA1Final ctx.

(** ** The reference *)

(** Words in big endian order *)
Definition be_words (block : list Z) : list Z := (fun b => le_decode (reverse b)) <$> reshape (replicate 16 4%nat) block.

(** The schedule *)
Definition next_word (W : list Z) : Z :=
  let t := length W in
  rol (Z.lxor (Z.lxor (Z.lxor (W !!! (t - 3)%nat) (W !!! (t - 8)%nat)) (W !!! (t - 14)%nat)) (W !!! (t - 16)%nat)) 1.

Fixpoint expand (n : nat) (W : list Z) : list Z :=
  match n with O => W | S n => expand n (W ++ [next_word W]) end.

Definition Ch (x y z : Z) : Z := Z.lxor (Z.land x y) (Z.land (Z.lnot x) z).
Definition Parity (x y z : Z) : Z := Z.lxor x (Z.lxor y z).
Definition Maj (x y z : Z) : Z := Z.lxor (Z.land x y) (Z.lxor (Z.land x z) (Z.land y z)).

Definition sha1_fk (t : nat) (x y z : Z) : Z :=
  if (t <? 20)%nat then Ch x y z + 0x5A827999
  else if (t <? 40)%nat then Parity x y z + 0x6ED9EBA1
  else if (t <? 60)%nat then Maj x y z + 0x8F1BBCDC
  else Parity x y z + 0xCA62C1D6.

Definition ref_step (r : sha1_regs) (tw : nat * Z) : sha1_regs :=
  let '(t, word) := tw in
  mkRegs (u32 (rol (rv r) 5 + sha1_fk t (rw r) (rx r) (ry r) + rz r + word)) (rv r) (rol (rw r) 30) (rx r) (ry r).

Definition sha1_compress (s : sha1_regs) (block : list Z) : sha1_regs :=
  add_regs s (foldl ref_step s (zip (seq 0 80) (expand 64 (be_words block)))).

(** ** The functions *)

Lemma choose_Ch x y z : choose x y z = Ch x y z.
Proof.
  apply Z.bits_inj'. intros n Hn. unfold choose, Ch. rewrite !Z.lxor_spec, !Z.land_spec, Z.lnot_spec, Z.lxor_spec by done.
  by destruct (Z.testbit x n), (Z.testbit y n), (Z.testbit z n).
Qed.

Lemma majority_Maj x y z : majority x y z = Maj x y z.
Proof.
  apply Z.bits_inj'. intros n Hn. unfold majority, Maj. rewrite !Z.lxor_spec, !Z.lor_spec, !Z.land_spec, Z.lor_spec.
  by destruct (Z.testbit x n), (Z.testbit y n), (Z.testbit z n).
Qed.

Lemma parity_Parity x y z : parity x y z = Parity x y z.
Proof. unfold parity, Parity. by rewrite Z.lxor_assoc. Qed.

(** Numbers in base 256, digit by digit *)
Lemma digit_bit a x n : is_byte a -> 0 <= n -> Z.testbit (a + 256 * x) n = if n <? 8 then Z.testbit a n else Z.testbit x (n - 8).
Proof.
  intros Ha Hn. assert (Hx : a + 256 * x = Z.lor a (Z.shiftl x 8)).
  { rewrite Z.shiftl_mul_pow2 by lia. change (2 ^ 8) with 256. rewrite <- Z.lxor_lor, <- Z.add_nocarry_lxor; [lia|..].
    all: apply Z.bits_inj'; intros k Hk; rewrite Z.land_spec, Z.bits_0; change 256 with (2 ^ 8); rewrite Z.mul_pow2_bits by lia;
      destruct (Z.lt_ge_cases k 8); [rewrite (Z.testbit_neg_r x) by lia; apply andb_false_r|];
      rewrite <- (Z.mod_small a (2 ^ 8)) by exact Ha; by rewrite Z.mod_pow2_bits_high by lia. }
  rewrite Hx, Z.lor_spec, Z.shiftl_spec by lia. destruct (Z.ltb_spec n 8).
  - rewrite (Z.testbit_neg_r x) by lia. apply orb_false_r.
  - rewrite <- (Z.mod_small a (2 ^ 8)) by exact Ha. by rewrite Z.mod_pow2_bits_high by lia.
Qed.

Lemma byte_op (op : Z -> Z -> Z) (f : bool -> bool -> bool) a b :
  (forall x y n, Z.testbit (op x y) n = f (Z.testbit x n) (Z.testbit y n)) -> f false false = false -> is_byte a -> is_byte b -> is_byte (op a b).
Proof.
  intros Hop Hf Ha Hb. assert (op a b = op a b mod 2 ^ 8) as ->; [|apply (Z.mod_pos_bound _ 256); lia].
  apply Z.bits_inj'. intros n Hn. destruct (Z.lt_ge_cases n 8); [by rewrite Z.mod_pow2_bits_low|].
  rewrite Z.mod_pow2_bits_high, Hop by lia. rewrite <- (Z.mod_small a (2 ^ 8)) by exact Ha. rewrite <- (Z.mod_small b (2 ^ 8)) by exact Hb.
  by rewrite !Z.mod_pow2_bits_high by lia.
Qed.

Lemma le_decode_op (op : Z -> Z -> Z) (f : bool -> bool -> bool) l1 l2 :
  (forall x y n, Z.testbit (op x y) n = f (Z.testbit x n) (Z.testbit y n)) -> f false false = false -> op 0 0 = 0 ->
  length l1 = length l2 -> Forall is_byte l1 -> Forall is_byte l2 ->
  op (le_decode l1) (le_decode l2) = le_decode (zip_with op l1 l2).
Proof.
  intros Hop Hf H0. revert l2. induction l1 as [|a l1 IH]; intros [|b l2] Hl H1 H2; try done.
  apply Forall_cons in H1 as [Ha H1]. apply Forall_cons in H2 as [Hb H2]. injection Hl as Hl. cbn [le_decode zip_with].
  rewrite <- IH by done. apply Z.bits_inj'. intros n Hn. rewrite Hop, !digit_bit by (done || by eapply byte_op).
  destruct (n <? 8); by rewrite Hop.
Qed.

Lemma lor_bytes l1 l2 : length l1 = length l2 -> Forall is_byte l1 -> Forall is_byte l2 ->
  Z.lor (le_decode l1) (le_decode l2) = le_decode (zip_with Z.lor l1 l2).
Proof. apply (le_decode_op Z.lor orb); [|done..]. intros. apply Z.lor_spec. Qed.

Lemma land_bytes l1 l2 : length l1 = length l2 -> Forall is_byte l1 -> Forall is_byte l2 ->
  Z.land (le_decode l1) (le_decode l2) = le_decode (zip_with Z.land l1 l2).
Proof. apply (le_decode_op Z.land andb); [|done..]. intros. apply Z.land_spec. Qed.

#[local] Ltac solve_bytes := first [done | repeat (constructor; [done|]); constructor].

(** [blk0] swaps the bytes. *)
Lemma swap_word b0 b1 b2 b3 :
  is_byte b0 -> is_byte b1 -> is_byte b2 -> is_byte b3 ->
  let x := le_decode [b0; b1; b2; b3] in
  Z.lor (Z.land (rol x 24) 0xFF00FF00) (Z.land (rol x 8) 0x00FF00FF) = le_decode [b3; b2; b1; b0].
Proof.
  intros H0 H1 H2 H3 x. pose proof (Z.lor_0_r) as L0. assert (B0 : is_byte 0) by (unfold is_byte; lia). assert (Bf : is_byte 255) by (unfold is_byte; lia).
  assert (Hx : x = b0 + 256 * b1 + 65536 * b2 + 16777216 * b3) by (unfold x; cbn; lia). clearbody x. unfold is_byte in H0, H1, H2, H3.
  assert (Hland : forall b, is_byte b -> Z.land b 255 = b). { intros b Hb. change 255 with (Z.ones 8). rewrite Z.land_ones by lia. by apply Z.mod_small. }
  assert (Hr24 : rol x 24 = le_decode [b1; b2; b3; b0]).
  { unfold rol, wrapU. rewrite Z.shiftl_mul_pow2, Z.shiftr_div_pow2 by lia. change (32 - 24) with 8.
    replace (x * 2 ^ 24 mod 2 ^ 32) with (le_decode [0; 0; 0; b0]) by (cbn; zpow; Z.div_mod_to_equations; lia).
    replace (x / 2 ^ 8) with (le_decode [b1; b2; b3; 0]) by (cbn; zpow; Z.div_mod_to_equations; lia).
    rewrite lor_bytes by solve_bytes. cbn [zip_with]. by rewrite !Z.lor_0_l, Z.lor_0_r. }
  assert (Hr8 : rol x 8 = le_decode [b3; b0; b1; b2]).
  { unfold rol, wrapU. rewrite Z.shiftl_mul_pow2, Z.shiftr_div_pow2 by lia. change (32 - 8) with 24.
    replace (x * 2 ^ 8 mod 2 ^ 32) with (le_decode [0; b0; b1; b2]) by (cbn; zpow; Z.div_mod_to_equations; lia).
    replace (x / 2 ^ 24) with (le_decode [b3; 0; 0; 0]) by (cbn; zpow; Z.div_mod_to_equations; lia).
    rewrite lor_bytes by solve_bytes. cbn [zip_with]. by rewrite !Z.lor_0_r, Z.lor_0_l. }
  rewrite Hr24, Hr8. change 0xFF00FF00 with (le_decode [0; 255; 0; 255]). change 0x00FF00FF with (le_decode [255; 0; 255; 0]).
  rewrite !land_bytes by solve_bytes. cbn [zip_with]. rewrite !Z.land_0_r, !Hland by done.
  rewrite lor_bytes by solve_bytes. cbn [zip_with]. by rewrite !Z.lor_0_l, !Z.lor_0_r.
Qed.

(** ** The schedule in place *)

Lemma expand_len n W : length (expand n W) = (length W + n)%nat.
Proof. revert W. induction n as [|n IH]; intros W; cbn [expand]; [lia|]. rewrite IH, length_app. cbn. lia. Qed.

Lemma expand_prefix n W t : (t < length W)%nat -> expand n W !! t = W !! t.
Proof.
  revert W. induction n as [|n IH]; intros W Ht; cbn [expand]; [done|]. rewrite IH by (rewrite length_app; lia). by apply lookup_app_l.
Qed.

Lemma expand_take n W : take (length W) (expand n W) = W.
Proof.
  revert W. induction n as [|n IH]; intros W; cbn [expand]; [by rewrite firstn_all|].
  specialize (IH (W ++ [next_word W])). rewrite length_app in IH. cbn in IH.
  apply (f_equal (take (length W))) in IH. rewrite take_take, Nat.min_l, take_app_length in IH by lia. done.
Qed.

Lemma expand_next n W t :
  (length W <= t < length W + n)%nat -> expand n W !! t = Some (next_word (take t (expand n W))).
Proof.
  revert W. induction n as [|n IH]; intros W Ht; [lia|]. cbn [expand]. destruct (decide (t = length W)) as [->|Hne].
  - rewrite expand_prefix by (rewrite length_app; cbn; lia). rewrite lookup_app_r, Nat.sub_diag by lia. cbn. do 2 f_equal.
    pose proof (expand_take n (W ++ [next_word W])) as Htk. rewrite length_app in Htk. cbn in Htk.
    apply (f_equal (take (length W))) in Htk. rewrite take_take, Nat.min_l, take_app_length in Htk by lia. done.
  - apply IH. rewrite length_app. cbn. lia.
Qed.

(** The sixteen words in the circle before round [i] *)
Definition circle (W raw : list Z) (i : nat) (block : list Z) : Prop :=
  length block = 16%nat /\
  (forall t, (i - 16 <= t < i)%nat -> block !! (t mod 16)%nat = W !! t) /\
  (forall j, (i <= j < 16)%nat -> block !! j = raw !! j).

Lemma rd_nat (m : list Z) (i : nat) : rd m (Z.of_nat i) = m !! i.
Proof. unfold rd. destruct (Z.ltb_spec (Z.of_nat i) 0); [lia|]. by rewrite Nat2Z.id. Qed.

Lemma land15 (i : nat) : Z.land (Z.of_nat i) 15 = Z.of_nat (i mod 16).
Proof. change 15 with (Z.ones 4). rewrite Z.land_ones by lia. change (2 ^ 4) with (Z.of_nat 16). by rewrite Nat2Z.inj_mod. Qed.

Lemma circle_insert W raw i block x :
  circle W raw i block -> W !! i = Some x -> circle W raw (S i) (<[(i mod 16)%nat := x]> block).
Proof.
  intros (Hl & Hw & Hr) Hx. pose proof (Nat.mod_upper_bound i 16 ltac:(lia)). split_and!.
  - by rewrite length_insert.
  - intros t Ht. destruct (decide (t = i)) as [->|Hne]; [rewrite list_lookup_insert_eq by lia; done|].
    rewrite list_lookup_insert_ne; [apply Hw; lia|]. intros Heq.
    pose proof (Nat.div_mod_eq t 16). pose proof (Nat.div_mod_eq i 16). lia.
  - intros j Hj. rewrite list_lookup_insert_ne; [apply Hr; lia|]. rewrite Nat.mod_small by lia. lia.
Qed.

#[local] Opaque expand.

Section transform.
Context (bytes : list Z) (Hlen : length bytes = 64%nat) (Hbytes : Forall is_byte bytes).

#[local] Abbreviation W := (expand 64 (be_words bytes)).
#[local] Abbreviation raw := (union_words bytes).

Lemma be_words_length : length (be_words bytes) = 16%nat.
Proof. unfold be_words. by rewrite length_fmap, length_reshape, length_replicate. Qed.

Lemma quad j : (j < 16)%nat ->
  exists b0 b1 b2 b3, reshape (replicate 16 4%nat) bytes !! j = Some [b0; b1; b2; b3] /\ is_byte b0 /\ is_byte b1 /\ is_byte b2 /\ is_byte b3.
Proof.
  intros Hj. assert (Hq : reshape (replicate 16 4%nat) bytes !! j = Some (take 4 (drop (4 * j) bytes))).
  { clear Hbytes. revert bytes Hlen j Hj. change 64%nat with (4 * 16)%nat. generalize 16%nat as n.
    induction n as [|n IH]; intros l Hl j Hj; [lia|]. cbn [replicate reshape]. destruct j as [|j]; [by rewrite drop_0|].
    cbn [lookup list_lookup]. rewrite (IH (drop 4 l)) by (rewrite ?length_drop; lia). rewrite drop_drop. do 3 f_equal. lia. }
  rewrite Hq. assert (Hl4 : length (take 4 (drop (4 * j) bytes)) = 4%nat) by (rewrite length_take, length_drop; lia).
  assert (Hb4 : Forall is_byte (take 4 (drop (4 * j) bytes))) by by apply Forall_take, Forall_drop.
  destruct (take 4 _) as [|b0 [|b1 [|b2 [|b3 [|]]]]]; try done. exists b0, b1, b2, b3. rewrite !Forall_cons in Hb4. tauto.
Qed.

Lemma blk0_ok i block : (i < 16)%nat -> circle W raw i block ->
  exists block' x, blk0 block (Z.of_nat i) = Some (block', x) /\ W !! i = Some x /\ circle W raw (S i) block'.
Proof.
  intros Hi Hc. pose proof Hc as (Hl & _ & Hr). destruct (quad i Hi) as (b0 & b1 & b2 & b3 & Hq & H0 & H1 & H2 & H3).
  assert (Hraw : block !! i = Some (le_decode [b0; b1; b2; b3])).
  { rewrite Hr by lia. unfold union_words. by rewrite list_lookup_fmap, Hq. }
  assert (HW : W !! i = Some (le_decode [b3; b2; b1; b0])).
  { rewrite expand_prefix by (rewrite be_words_length; lia). unfold be_words. by rewrite list_lookup_fmap, Hq. }
  unfold blk0. rewrite rd_nat, Hraw. mstep. eexists _, _. split; [done|]. rewrite swap_word by done. split; [done|].
  rewrite Nat2Z.id. replace i with (i mod 16)%nat at 2 by (apply Nat.mod_small; lia). by apply circle_insert.
Qed.

Lemma blk_ok i block : (16 <= i < 80)%nat -> circle W raw i block ->
  exists block' x, blk block (Z.of_nat i) = Some (block', x) /\ W !! i = Some x /\ circle W raw (S i) block'.
Proof.
  intros Hi Hc. pose proof Hc as (Hl & Hw & _). pose proof be_words_length as Hbe. pose proof (expand_len 64 (be_words bytes)) as HWl.
  assert (Hget : forall k, (1 <= k <= 16)%nat -> block !! ((i - k) mod 16)%nat = Some (W !!! (i - k)%nat)).
  { intros k Hk. rewrite Hw by lia. apply list_lookup_lookup_total_lt. lia. }
  assert (Hidx : forall k, (1 <= k <= 16)%nat -> rd block (Z.land (Z.of_nat i + (16 - Z.of_nat k)) 15) = Some (W !!! (i - k)%nat)).
  { intros k Hk. replace (Z.of_nat i + (16 - Z.of_nat k)) with (Z.of_nat (i - k + 1 * 16)) by lia.
    rewrite land15, Nat.Div0.mod_add, rd_nat. by apply Hget. }
  pose proof (Hidx 3%nat ltac:(lia) : rd block (Z.land (Z.of_nat i + 13) 15) = _) as R3.
  pose proof (Hidx 8%nat ltac:(lia) : rd block (Z.land (Z.of_nat i + 8) 15) = _) as R8.
  pose proof (Hidx 14%nat ltac:(lia) : rd block (Z.land (Z.of_nat i + 2) 15) = _) as R14.
  pose proof (Hidx 16%nat ltac:(lia) : rd block (Z.land (Z.of_nat i + 0) 15) = _) as R16. rewrite Z.add_0_r in R16. unfold blk.
  rewrite R3, R8, R14, R16. mstep. eexists _, _. split; [done|].
  assert (HW : W !! i = Some (next_word (take i W))) by (apply expand_next; lia).
  assert (Hnx : next_word (take i W) = rol (Z.lxor (Z.lxor (Z.lxor (W !!! (i - 3)%nat) (W !!! (i - 8)%nat)) (W !!! (i - 14)%nat)) (W !!! (i - 16)%nat)) 1).
  { unfold next_word. rewrite length_take, Nat.min_l by lia. assert (Ht : forall k, (1 <= k <= 16)%nat -> take i W !!! (i - k)%nat = W !!! (i - k)%nat).
    { intros k Hk. rewrite !list_lookup_total_alt, lookup_take_lt by lia. done. }
    by rewrite !Ht by lia. }
  rewrite Hnx in HW. split; [done|]. rewrite land15, Nat2Z.id. by apply circle_insert.
Qed.

Lemma round_ok i block r : (i < 80)%nat -> circle W raw i block ->
  exists block' x, sha1_round (Z.of_nat i) block r = Some (block', ref_step r (i, x)) /\ W !! i = Some x /\ circle W raw (S i) block'.
Proof.
  intros Hi Hc. assert (Hword : exists block' x, (if Z.of_nat i <? 16 then blk0 block (Z.of_nat i) else blk block (Z.of_nat i)) = Some (block', x) /\
    W !! i = Some x /\ circle W raw (S i) block').
  { destruct (Z.ltb_spec (Z.of_nat i) 16); [apply blk0_ok; [lia|done]|apply blk_ok; [lia|done]]. }
  destruct Hword as (block' & x & Hb & HW & Hc'). unfold sha1_round. rewrite Hb. mstep.
  exists block', x. split; [|exact (conj HW Hc')]. unfold ref_step, sha1_fk, sha1_R.
  assert (Hsum : forall f k a, u32 (rz r + u32 (f + x + k + a)) = u32 (a + (f + k) + rz r + x)).
  { intros f k a. unfold wrapU. rewrite Zplus_mod_idemp_r. f_equal. lia. }
  destruct (Z.ltb_spec (Z.of_nat i) 20), (Nat.ltb_spec i 20); try lia; [by rewrite Hsum, choose_Ch|].
  destruct (Z.ltb_spec (Z.of_nat i) 40), (Nat.ltb_spec i 40); try lia; [by rewrite Hsum, parity_Parity|].
  destruct (Z.ltb_spec (Z.of_nat i) 60), (Nat.ltb_spec i 60); try lia; [by rewrite Hsum, majority_Maj|by rewrite Hsum, parity_Parity].
Qed.

Lemma rounds_from n i block r : (i + n = 80)%nat -> circle W raw i block ->
  exists block', sha1_rounds n (Z.of_nat i) block r = Some (block', foldl ref_step r (zip (seq i n) (drop i W))).
Proof.
  revert i block r. induction n as [|n IH]; intros i block r Hi Hc; cbn [sha1_rounds seq zip_with foldl]; [by exists block|].
  destruct (round_ok i block r) as (block' & x & -> & HW & Hc'); [lia|done|]. mstep.
  replace (Z.of_nat i + 1) with (Z.of_nat (S i)) by lia. rewrite (drop_S _ _ _ HW). cbn [zip_with foldl]. apply IH; [lia|done].
Qed.
End transform.

Lemma all_rounds s bytes :
  length bytes = 64%nat -> Forall is_byte bytes ->
  exists block', sha1_rounds 80 0 (union_words bytes) s = Some (block', foldl ref_step s (zip (seq 0 80) (expand 64 (be_words bytes)))).
Proof.
  intros Hl Hb. apply (rounds_from bytes Hl Hb 80 0 (union_words bytes) s eq_refl).
  split_and!; [|intros; lia|reflexivity]. unfold union_words. by rewrite length_fmap, length_reshape, length_replicate.
Qed.

Lemma bind_eq {A B} (x : option A) a (f : A -> option B) : x = Some a -> x ≫= f = f a.
Proof. by intros ->. Qed.

(** The code's transformation of a block is that of the standard. *)
Lemma sha1_transform_ok s bytes :
  length bytes = 64%nat -> Forall is_byte bytes -> SHA1Transform s bytes = Some (sha1_compress s bytes).
Proof.
  intros Hl Hb. destruct (all_rounds s bytes Hl Hb) as (block' & Hr). unfold SHA1Transform, sha1_compress.
  rewrite (bind_eq _ bytes) by (apply mload_full; lia). by rewrite (bind_eq _ _ _ Hr).
Qed.

#[local] Opaque SHA1Transform sha1_compress.

(** ** Updates *)

(** The context after a message: the whole blocks are absorbed, the rest is in
    the buffer, and the two counters are the number of bits. *)
Definition ctx1_ok (ctx : SHA1_CTX) (msg : list Z) : Prop :=
  exists full part rest n, msg = full ++ part /\ length full = (64 * n)%nat /\ (length part < 64)%nat /\
    s1_buffer ctx = part ++ rest /\ length (part ++ rest) = 64%nat /\ Forall is_byte part /\
    s1_count0 ctx = 8 * Z.of_nat (length msg) mod 2 ^ 32 /\ s1_count1 ctx = 8 * Z.of_nat (length msg) / 2 ^ 32 /\
    s1_state ctx = absorb sha1_compress sha1_initial full.

Lemma blocks_loop_ok fuel s data i :
  Forall is_byte data -> Z.of_nat (length data) < 2 ^ 32 - 64 -> (i <= length data)%nat -> (length data - i < 64 * fuel)%nat ->
  let k := ((length data - i) / 64)%nat in
  sha1_blocks_loop fuel s data (Z.of_nat (length data)) (Z.of_nat i) =
    Some (absorb sha1_compress s (take (64 * k) (drop i data)), Z.of_nat (i + 64 * k)).
Proof.
  intros Hb H32. revert s i. induction fuel as [|fuel IH]; intros s i Hi Hf k; [lia|]. cbn [sha1_blocks_loop].
  rewrite wrapU_id by (unfold inU; lia). destruct (Z.ltb_spec (Z.of_nat i + 63) (Z.of_nat (length data))) as [Hlt|Hge].
  - set (block := take 64 (drop i data)). assert (Hbl : length block = 64%nat) by (unfold block; rewrite length_take, length_drop; lia).
    rewrite (bind_eq _ block) by (rewrite mload_Some by lia; by rewrite Nat2Z.id).
    rewrite (bind_eq _ _ _ (sha1_transform_ok s block Hbl ltac:(by apply Forall_take, Forall_drop))).
    rewrite wrapU_id by (unfold inU; lia). replace (Z.of_nat i + 64) with (Z.of_nat (i + 64)) by lia. rewrite IH by lia.
    assert (Hk : k = S ((length data - (i + 64)) / 64)).
    { unfold k. replace (length data - i)%nat with (1 * 64 + (length data - (i + 64)))%nat by lia. by rewrite Nat.div_add_l by lia. }
    rewrite Hk. set (k' := ((length data - (i + 64)) / 64)%nat). do 2 f_equal; [|f_equal; lia].
    replace (take (64 * S k') (drop i data)) with (block ++ take (64 * k') (drop (i + 64) data)).
    + by rewrite (absorb_app _ _ block _ 1), (absorb_block _ _ block) by done.
    + rewrite <- (take_drop 64 (drop i data)). fold block. rewrite take_app_ge by lia. rewrite Hbl, drop_drop. do 2 f_equal. lia.
  - assert (k = O) as -> by (unfold k; apply Nat.div_small; lia). rewrite Nat.mul_0_r, take_0, Nat.add_0_r. done.
Qed.

(** The two counters *)
Lemma count_ok L len :
  0 <= L -> 0 <= len < 2 ^ 32 -> 8 * (L + len) < 2 ^ 64 ->
  let j := 8 * L mod 2 ^ 32 in
  let c0 := u32 (j + u32 (Z.shiftl len 3)) in
  c0 = 8 * (L + len) mod 2 ^ 32 /\
  u32 ((if c0 <? j then u32 (8 * L / 2 ^ 32 + 1) else 8 * L / 2 ^ 32) + Z.shiftr len 29) = 8 * (L + len) / 2 ^ 32 /\
  Z.land (Z.shiftr j 3) 63 = L mod 64.
Proof.
  intros HL Hl Hs. cbv zeta. rewrite Z.shiftl_mul_pow2, !Z.shiftr_div_pow2 by lia. change 63 with (Z.ones 6). rewrite Z.land_ones by lia.
  unfold wrapU. zpow. split_and!.
  - Z.div_mod_to_equations. lia.
  - destruct (Z.ltb_spec ((8 * L mod 4294967296 + len * 8 mod 4294967296) mod 4294967296) (8 * L mod 4294967296)); Z.div_mod_to_equations; lia.
  - Z.div_mod_to_equations. lia.
Qed.

Lemma sha1_update_ok ctx msg data :
  ctx1_ok ctx msg -> Forall is_byte data -> Z.of_nat (length data) < 2 ^ 32 - 64 ->
  8 * (Z.of_nat (length msg) + Z.of_nat (length data)) < 2 ^ 64 ->
  exists ctx', SHA1Update ctx data (Z.of_nat (length data)) = Some ctx' /\ ctx1_ok ctx' (msg ++ data).
Proof.
  intros (full & part & rest & n & -> & Hf & Hp & Hbuf & Hl & Hbp & Hc0 & Hc1 & Hst) Hb H32 Hsm. unfold SHA1Update.
  set (L := Z.of_nat (length (full ++ part))) in *. set (len := Z.of_nat (length data)) in *.
  assert (HLm : L mod 64 = Z.of_nat (length part)).
  { unfold L. rewrite length_app, Hf. replace (Z.of_nat (64 * n + length part)) with (Z.of_nat (length part) + Z.of_nat n * 64) by lia.
    rewrite Z.mod_add by lia. apply Z.mod_small. lia. }
  destruct (count_ok L len) as (E0 & E1 & Ej); [lia|lia|lia|]. cbv zeta in E0, E1, Ej. rewrite Hc0, Hc1, Ej, HLm, E1, E0.
  assert (HLen : L + len = Z.of_nat (length ((full ++ part) ++ data))) by (rewrite length_app; lia).
  rewrite HLen. rewrite length_app in Hl. rewrite Z.gtb_ltb, wrapU_id by (unfold inU; lia).
  destruct (Z.ltb_spec 63 (Z.of_nat (length part) + len)) as [Hbig|Hsmall].
  - set (h := (64 - length part)%nat). assert (Hh : (h <= length data)%nat) by lia. set (A := take h data). set (B := drop h data).
    assert (HA : length A = h) by (unfold A; rewrite length_take; lia). assert (HB : length B = (length data - h)%nat) by apply length_drop.
    assert (HAB : data = A ++ B) by (symmetry; apply take_drop).
    rewrite (bind_eq (mload data 0 _) A) by (rewrite mload_Some by lia; unfold A; cbn; f_equal; f_equal; lia).
    rewrite Hbuf. rewrite (bind_eq (mstore _ _ _) (part ++ A)).
    2: { pose proof (mstore_app_mid part rest A [] _ eq_refl) as Hm. rewrite !app_nil_r in Hm. apply Hm. lia. }
    assert (HpA : length (part ++ A) = 64%nat) by (rewrite length_app; lia).
    assert (HbpA : Forall is_byte (part ++ A)) by (apply Forall_app; split; [done|by apply Forall_take]).
    rewrite (bind_eq _ _ _ (sha1_transform_ok (s1_state ctx) _ HpA HbpA)).
    replace (64 - Z.of_nat (length part)) with (Z.of_nat h) by lia. unfold len. rewrite (blocks_loop_ok _ _ data h) by (try done; Z.div_mod_to_equations; lia).
    set (k := ((length data - h) / 64)%nat). mstep. fold B len.
    pose proof (Nat.div_mod_eq (length data - h) 64) as Hdm. pose proof (Nat.mod_upper_bound (length data - h) 64 ltac:(lia)) as Hmb. fold k in Hdm.
    set (P := drop (64 * k) B). assert (HP : length P = (length data - h - 64 * k)%nat) by (unfold P; rewrite length_drop; lia).
    rewrite (bind_eq (mload data _ _) P).
    2: { assert (Hk : (h + 64 * k <= length data)%nat) by lia. clear -Hk H32. unfold len in *. rewrite wrapU_id by (unfold inU; lia). rewrite mload_Some by lia. unfold P, B. rewrite Nat2Z.id, drop_drop. f_equal. apply take_ge. rewrite length_drop. lia. }
    set (buf := part ++ A) in *. rewrite (bind_eq (mstore buf 0 P) (P ++ drop (length P) buf)).
    2: { rewrite <- (take_drop (length P) buf) at 1. apply mstore_app_l. rewrite length_take. lia. }
    eexists. split; [done|]. exists (full ++ buf ++ take (64 * k) B), P, (drop (length P) buf), (n + 1 + k)%nat.
    cbn [s1_buffer s1_count0 s1_count1 s1_state]. split_and!; try done.
    + unfold buf, P. rewrite HAB at 1. rewrite <- (take_drop (64 * k) B) at 1. by rewrite <- !app_assoc.
    + rewrite !length_app, length_take, Hf. lia.
    + lia.
    + rewrite length_app, length_drop. lia.
    + by apply Forall_drop, Forall_drop.
    + rewrite (absorb_app _ _ full _ n Hf), <- Hst, (absorb_app _ _ buf _ 1) by done. by rewrite (absorb_block _ _ buf).
  - mstep. rewrite Z.sub_0_r, (wrapU_id 32 len) by (unfold inU; lia). rewrite (bind_eq (mload data 0 len) data) by by apply mload_full.
    rewrite Hbuf. rewrite (bind_eq (mstore _ _ _) (part ++ data ++ drop (length data) rest)).
    2: { rewrite <- (take_drop (length data) rest) at 1. apply mstore_app_mid; [done|]. rewrite length_take. lia. }
    eexists. split; [done|]. exists full, (part ++ data), (drop (length data) rest), n.
    cbn [s1_buffer s1_count0 s1_count1 s1_state]. rewrite <- !app_assoc. split_and!; try done.
    + rewrite length_app. lia.
    + rewrite !length_app, length_drop. lia.
    + by apply Forall_app.
Qed.

(** ** The end of the message *)

Lemma count_mask L : 0 <= L -> Z.land (8 * L mod 2 ^ 32) 504 = 8 * (L mod 64).
Proof.
  intros HL. replace (8 * L mod 2 ^ 32) with (Z.shiftl (L mod 2 ^ 29) 3) by (rewrite Z.shiftl_mul_pow2 by lia; zpow; Z.div_mod_to_equations; lia).
  change 504 with (Z.shiftl 63 3). rewrite <- Z.shiftl_land. change 63 with (Z.ones 6). rewrite Z.land_ones by lia.
  rewrite Z.shiftl_mul_pow2 by lia. zpow. Z.div_mod_to_equations. lia.
Qed.

Lemma ctx1_count ctx msg : ctx1_ok ctx msg -> Z.land (s1_count0 ctx) 504 = 8 * (Z.of_nat (length msg) mod 64).
Proof. intros (full & part & rest & n & _ & _ & _ & _ & _ & _ & Hc & _). rewrite Hc. apply count_mask. lia. Qed.

Lemma pad_loop_ok k fuel ctx msg :
  ctx1_ok ctx msg -> (Z.of_nat (length msg) + Z.of_nat k) mod 64 = 56 -> (k < 64)%nat -> (k < fuel)%nat ->
  8 * (Z.of_nat (length msg) + Z.of_nat k) < 2 ^ 64 ->
  exists ctx', sha1_pad_loop fuel ctx = Some ctx' /\ ctx1_ok ctx' (msg ++ replicate k 0).
Proof.
  revert fuel ctx msg. induction k as [|k IH]; intros fuel ctx msg Hc Hm Hk Hf Hs; (destruct fuel as [|fuel]; [lia|]); cbn [sha1_pad_loop];
    rewrite (ctx1_count ctx msg Hc).
  - rewrite Z.add_0_r in Hm. rewrite Hm. exists ctx. split; [done|]. by rewrite app_nil_r.
  - rewrite (proj2 (Z.eqb_neq _ 448)) by (Z.div_mod_to_equations; lia). cbn [negb].
    destruct (sha1_update_ok ctx msg [0] Hc) as (ctx' & Hu & Hc'); [repeat constructor; done|done|cbn; lia|].
    change (Z.of_nat (length [0])) with 1 in Hu. rewrite (bind_eq _ _ _ Hu).
    destruct (IH fuel ctx' (msg ++ [0]) Hc') as (ctx2 & -> & Hc2); rewrite ?length_app; cbn [length]; [|lia..|].
    + rewrite <- Hm. f_equal. lia.
    + exists ctx2. split; [done|]. by rewrite <- app_assoc in Hc2.
Qed.

Lemma finalcount_ok ctx msg : ctx1_ok ctx msg -> finalcount ctx = be64 (8 * Z.of_nat (length msg)).
Proof.
  intros (full & part & rest & n & _ & _ & _ & _ & _ & _ & H0 & H1 & _).
  transitivity (((fun i => Z.land (Z.shiftr (s1_count1 ctx) i) 255) <$> [24; 16; 8; 0])
    ++ ((fun i => Z.land (Z.shiftr (s1_count0 ctx) i) 255) <$> [24; 16; 8; 0])); [done|]. rewrite H0, H1.
  set (N := 8 * Z.of_nat (length msg)). assert (HN : 0 <= N) by lia. clearbody N. clear -HN.
  assert (Hm : forall x i, 0 <= i -> Z.land (Z.shiftr x i) 255 = (x / 2 ^ i) mod 256).
  { intros x i Hi. change 255 with (Z.ones 8). by rewrite Z.land_ones, Z.shiftr_div_pow2 by lia. }
  assert (Hhi : forall i, 0 <= i -> N / 2 ^ 32 / 2 ^ i = Z.shiftr N (32 + i)).
  { intros i Hi. rewrite Z.shiftr_div_pow2, Z.pow_add_r, Z.div_div by lia. done. }
  assert (Hlo : forall i, 0 <= i <= 24 -> (N mod 2 ^ 32 / 2 ^ i) mod 256 = Z.shiftr N i mod 256).
  { intros i Hi. rewrite <- Z.shiftr_div_pow2 by lia. change 256 with (2 ^ 8). apply Z.bits_inj'. intros b Hb.
    destruct (Z.lt_ge_cases b 8); [|by rewrite !Z.mod_pow2_bits_high by lia].
    rewrite !Z.mod_pow2_bits_low, !Z.shiftr_spec by lia. apply Z.mod_pow2_bits_low. lia. }
  unfold be64, wrapU. cbn [fmap list_fmap app]. rewrite !Hm, !Hhi, !Hlo by lia. reflexivity.
Qed.

Lemma sha1_final_ok ctx msg :
  ctx1_ok ctx msg -> 8 * (Z.of_nat (length msg) + 72) < 2 ^ 64 ->
  SHA1Final ctx = Some (sha1_digest (absorb sha1_compress sha1_initial (sha_pad msg))).
Proof.
  intros Hc Hs. unfold SHA1Final. rewrite (finalcount_ok ctx msg Hc). set (L := Z.of_nat (length msg)) in *.
  destruct (sha1_update_ok ctx msg [0x80] Hc) as (c1 & H1 & Hc1); [repeat constructor; done|done|cbn; lia|].
  change (Z.of_nat (length [0x80])) with 1 in H1. rewrite (bind_eq _ _ _ H1).
  set (k := Z.to_nat ((55 - L) mod 64)). pose proof (Z.mod_pos_bound (55 - L) 64 ltac:(lia)) as Hk.
  destruct (pad_loop_ok k 64 c1 (msg ++ [0x80]) Hc1) as (c2 & H2 & Hc2); rewrite ?length_app; cbn [length]; try lia.
  { replace (Z.of_nat (length msg + 1) + Z.of_nat k) with (L + 1 + (55 - L) mod 64) by lia. Z.div_mod_to_equations. lia. }
  rewrite (bind_eq _ _ _ H2). rewrite <- app_assoc in Hc2.
  destruct (sha1_update_ok c2 _ (be64 (8 * L)) Hc2) as (c3 & H3 & Hc3).
  { unfold be64. apply Forall_forall. intros b (x & -> & _)%list_elem_of_fmap. apply (wrapU_range 8). done. }
  { done. } { rewrite !length_app, length_replicate. cbn. lia. }
  change (Z.of_nat (length (be64 (8 * L)))) with 8 in H3. rewrite (bind_eq _ _ _ H3). do 2 f_equal.
  replace ((msg ++ [0x80] ++ replicate k 0) ++ be64 (8 * L)) with (sha_pad msg) in Hc3 by (unfold sha_pad; by rewrite <- !app_assoc).
  destruct Hc3 as (full & part & rest & n & Hm & Hf & Hp & _ & _ & _ & _ & _ & ->). f_equal.
  assert (Hlen : Z.of_nat (length (sha_pad msg)) mod 64 = 0).
  { unfold sha_pad. rewrite !length_app, length_replicate. cbn [length be64]. rewrite be64_length. fold L k.
    replace (Z.of_nat (length msg + (1 + (k + 8)))) with (L + 9 + (55 - L) mod 64) by lia. Z.div_mod_to_equations. lia. }
  rewrite Hm in Hlen |- *. rewrite length_app, Hf in Hlen. destruct part; [by rewrite app_nil_r|]. exfalso. cbn [length] in *. Z.div_mod_to_equations. lia.
Qed.

Lemma sha1_pieces_ok junk pieces :
  length junk = 64%nat -> Forall (Forall is_byte) pieces -> Forall (fun p => Z.of_nat (length p) < 2 ^ 32 - 64) pieces ->
  8 * Z.of_nat (length (concat pieces)) < 2 ^ 64 ->
  exists ctx, foldl (fun ctx piece => ctx ← ctx; SHA1Update ctx piece (Z.of_nat (length piece))) (Some (SHA1Init junk)) pieces = Some ctx /\
    ctx1_ok ctx (concat pieces).
Proof.
  intros Hj. induction pieces as [|p pieces IH] using rev_ind; intros Hb Hl Hsm.
  - exists (SHA1Init junk). split; [done|]. exists [], [], junk, O. split_and!; try done. cbn. lia.
  - apply Forall_app in Hb as [Hb Hbp]. apply Forall_app in Hl as [Hl Hlp]. apply Forall_cons in Hbp as [Hbp _]. apply Forall_cons in Hlp as [Hlp _].
    rewrite concat_app, length_app in Hsm. cbn [concat] in Hsm. rewrite app_nil_r in Hsm.
    destruct IH as (ctx & Hctx & Hok); [done..|lia|]. rewrite foldl_app, Hctx. cbn [foldl]. mstep.
    destruct (sha1_update_ok ctx _ p Hok Hbp Hlp) as (ctx' & -> & Hok'); [lia|]. exists ctx'. split; [done|].
    by rewrite concat_app, (app_nil_r p : concat [p] = p).
Qed.

(** C39: the SHA-1 digest of a message in pieces is the one of the standard on
    the padded message, however it is cut and whatever the buffer holds at
    first: the expansion of the block in place, with the bytes swapped, gives
    the words of the schedule, and the blocks that are taken from the caller's
    data, the buffer and the counters are right and stay in bounds. Each piece
    is shorter than 2^32 - 64 bytes. *)
Theorem sha1_correct junk pieces :
  length junk = 64%nat -> Forall (Forall is_byte) pieces -> Forall (fun p => Z.of_nat (length p) < 2 ^ 32 - 64) pieces ->
  8 * (Z.of_nat (length (concat pieces)) + 72) < 2 ^ 64 ->
  sha1 junk pieces = Some (sha1_digest (absorb sha1_compress sha1_initial (sha_pad (concat pieces)))).
Proof.
  intros Hj Hb Hl Hsm. unfold sha1. destruct (sha1_pieces_ok junk pieces Hj Hb Hl ltac:(lia)) as (ctx & Hctx & Hok).
  rewrite (bind_eq _ _ _ Hctx). by apply sha1_final_ok.
Qed.

#[local] Transparent expand SHA1Transform sha1_compress.

(** The test vector of the standard, in two pieces *)
Lemma sha1_correct_witness :
  sha1 (replicate 64 7) [[97]; [98; 99]] = Some
    [169; 153; 62; 54; 71; 6; 129; 106; 186; 62; 37; 113; 120; 80; 194; 108; 156; 208; 216; 157].
Proof.
  rewrite (sha1_correct (replicate 64 7) [[97]; [98; 99]]).
  - vm_compute. reflexivity.
  - reflexivity.
  - apply (bool_decide_unpack _). vm_compute. exact I.
  - apply (bool_decide_unpack _). vm_compute. exact I.
  - vm_compute. reflexivity.
Defined.

(** A piece close to 2^32 bytes is copied over the end of the context: the sum
    of its length and of the bytes in the buffer wraps, and the whole piece
    is taken for the rest of a block. *)
Theorem sha1_update_overflows ctx data len :
  0 < Z.land (Z.shiftr (s1_count0 ctx) 3) 63 -> length (s1_buffer ctx) = 64%nat -> 2 ^ 32 - Z.land (Z.shiftr (s1_count0 ctx) 3) 63 <= len < 2 ^ 32 ->
  SHA1Update ctx data len = None.
Proof.
  set (j := Z.land (Z.shiftr (s1_count0 ctx) 3) 63). intros Hj Hb Hl. unfold SHA1Update. fold j.
  assert (Hj64 : j < 64) by (unfold j; change 63 with (Z.ones 6); rewrite Z.land_ones by lia; apply Z.mod_pos_bound; lia).
  assert (Hw : u32 (j + len) = j + len - 2 ^ 32).
  { unfold wrapU. rewrite <- (Z.mod_add (j + len) (-1)) by lia. apply Z.mod_small. lia. }
  rewrite Hw, Z.gtb_ltb. destruct (Z.ltb_spec 63 (j + len - 2 ^ 32)); [lia|]. mstep. rewrite Z.sub_0_r, (wrapU_id 32 len) by (unfold inU; lia).
  destruct (mload data 0 len) as [bs|] eqn:Hm; [|done]. mstep. unfold mload in Hm. destruct (_ && _) eqn:E in Hm; [|done].
  injection Hm as <-. zbool. unfold mstore. rewrite length_take, length_drop.
  destruct (_ && _) eqn:E2; [|done]. zbool. zpow. lia.
Qed.
